(* ===== verification/_CoqProject ===== *)
-Q . S2P
Prelude.v
Sm8975.v
Adler.v
Patterns.v
Invert.v
PageQueue.v
NumTheory.v
FineLock.v
DiskBlocks.v
OsLayer.v
LastTransaction.v
ErrorDiag.v
Diagnostics.v
Worker.v
WorkerStatus.v
Program.v
PageStore.v
Search.v
Threads.v
Accounting.v
DiskThread.v
FileThread.v
NetworkThread.v
NetworkListen.v
Text.v
Logger.v
LogLine.v
Options.v
Initialize.v
CacheCoherency.v
SimpleRandom.v
SatThreads.v
SatRun.v
SatMain.v
Platform.v
CpuFreq.v
PageMap.v
