(* ===== verification/Prelude.v ===== *)
(** * stressapptest: a verification development

    stressapptest fills memory with known patterns, keeps many threads copying, inverting
    and checking it under load, moves it through files, disks and network connections, and
    reports every word that comes back wrong, with where it sits in the DRAM.  This library
    models the program from its command line to its exit status: the data patterns and
    checksums, the page queues, the operations on pages, the threads and their interleavings,
    the set-up, the control loop, the bookkeeping of errors, the log and the platform layer.

    The sources are under [src/src/].  Definitions keep the names of the C++ code; each file
    has a module of definitions and a module [...Facts] of lemmas and theorems.

    ** The program and its files

    Shared by all:
    - [Prelude]: wrap-around integers ([u8], [u32], [u64], [s32], [s64]), the [datacast_t]
      union ([l64], [l32_l], [l32_h]), arrays ([aget], [aset]), counted ranges ([zrange]) and
      bit lists, with the lemmas, tactics and hints the other files share.
    - [NumTheory]: divisibility, linear congruential generators, computed primality.
    - [Text]: searches in strings, printing and reading numbers.
    - [Program]: thread bodies as sequences of atomic accesses to shared state (a monad), the
      step relation that interleaves any number of them, and a logic of owned resources.

    Data and checksums:
    - [Sm8975] ([sm8975_mapping.h], [dram_address.h]): physical address to DRAM coordinates,
      and the position of a wrong data bit in an LPDDR6 packet.
    - [Adler] ([adler32memcpy.cc]): the modified Adler checksum and the checksumming copy, in C
      and as the x86_64 and AArch64 vector kernels, instruction by instruction.
    - [Patterns] ([pattern.h], [pattern.cc]): the pattern tables, [Pattern] and [PatternList]:
      lookup, stored checksums, the -P selector text, weighted random choice.
    - [Invert] ([invert_workload.h], [InvertThread] in [worker.cc]): the in-place inversions.

    Queues and tables:
    - [PageQueue] ([queue.h], [queue.cc]): [page_entry] and the coarse-lock ring buffer.
    - [FineLock] ([finelock_queue.cc]): the queue with a lock per page, the construction of
      its full-period generator, the Get and Put operations and the lookups;
      [LastTransaction]: its [ErrorLogCallback].
    - [PageStore] ([sat.cc]): the class of page queues the workers rely on, with both queues
      as instances; [Search]: searches of either queue leave out no block.
    - [DiskBlocks] ([disk_blocks.cc]): the reference-counted table of blocks on a disk.

    Errors:
    - [ErrorDiag] ([error_diag.cc]): the device tree and the blame rules for DIMMs and disks.
    - [Diagnostics] ([worker.cc], [sat.cc], [sat.h]): phase counters and their global sum, the
      budget of detailed error lines, the write history of each block.
    - [LogLine] ([worker.cc], [logger.cc]): the text of the error lines and what [VLogF] makes
      of them; [Logger] ([logger.cc]): the queue of lines and its thread, as a step relation.

    Threads ([worker.h], [worker.cc]):
    - [Worker]: [FillPage], [CheckRegion], [ProcessError], [CrcCheckPage], [CrcCopyPage],
      [CrcWarmCopyPage] and the tag-mode variants, on a thread's own state.
    - [WorkerStatus]: the status flag and pause barrier shared by the control thread and the
      workers, as a step relation.
    - [Threads]: the fill, check, copy, invert and post-fill check threads as programs, with
      the queue operations of [Sat]; [Accounting]: what they achieve together.
    - [DiskThread], [FileThread], [NetworkThread]: the threads that send blocks through
      devices, files and connections; [NetworkListen]: the listener and the descriptors of its
      slaves, as a step relation.
    - [CacheCoherency]: the counters that share cache lines; [SimpleRandom]: the period of
      their random numbers.  [CpuFreq]: the frequency test, in IEEE 754 arithmetic.

    The program as a whole ([sat.cc], [sat.h], [main.cc], [os.cc]):
    - [Options]: the constructor of [Sat] and the parsing of the command line.
    - [Initialize]: the fill passes and the set-up of the work blocks; [PageMap]: the map of
      tested physical pages.
    - [SatThreads]: which threads a test has, their CPUs and their registration; [SatRun]: the
      control loop with its schedule of pauses, injections and frequencies; [SatMain]:
      [Initialize], [Run], [PrintResults], [Cleanup] and [main] with the exit status.
    - [OsLayer] (also [sattypes.h]): CPU sets, address translation, module lookup, regions,
      core masks, test-memory mapping; [Platform]: the size of the test memory, its allocation
      and release, PCI configuration space, model-specific registers, page cache.

    A worker takes a [page_entry] from a queue ([PageStore]), works on the page ([Worker], with
    [Patterns], [Adler] and [Invert]) and puts the entry back; between pages it asks
    [WorkerStatus] whether to go on.  A wrong word goes through [ProcessError] to the counters
    and the log budget ([Diagnostics]), the diagnoser ([ErrorDiag]) and the log ([LogLine],
    [Logger]), with the address translated by [OsLayer].  The control thread ([SatMain],
    [SatRun]) sets the blocks up ([Initialize]), starts the threads ([SatThreads]), pauses,
    stops and joins them and turns their counts into the exit status.

    ** How state is modelled

    Memory is a list of 64-bit words (32-bit words in [Invert]) read and written with [aget]
    and [aset]; a pointer is a word index, and in [Worker] its numeric address is [mem_base]
    plus eight times the index.  Objects are records and operations return the new record.
    What the code leaves open is an argument: random values, clock, frequency and CPU readings,
    vector registers on entry, the contents of /proc/self/pagemap, which locks are busy, the
    results of system calls.  [None] is an assertion failure or a use the C++ standard leaves
    undefined where the doc comment of the definition says so, and otherwise a null pointer.
    Pointers to shared objects are kept as such: [DiskBlocks] has a store of block objects,
    [ErrorDiag] a numbered store of error instances and paths into the tree.

    An operation the code runs under one mutex is one step.  [WorkerStatus], [Logger] and
    [NetworkListen] are step relations over such operations, [FineLock] over the single
    accesses a Get makes to an entry (read the predicate, read the tag, [trylock], read the
    predicate again), [DiskBlocks] over the critical sections and the reads that
    [GetUnusedBlock] and [RemoveBlock] make before they take the mutex.  The other threads are programs of [Program] that interleave at
    every access to what they share; each access comes with an answer of the surroundings.  So
    the theorems hold for every interleaving of any number of threads.

    ** What the theorems show

    - Faults are counted (C1, C2, C11): errors counted and wrong words still present add up to
      the faults that happened, for any mix of threads, either queue, and from the set-up on.
      This is for runs without [--tag_mode] (a plain copy makes new tags and so loses a fault
      in a tag) and without [--force_errors], with test memory mapped in one piece.
    - Page operations (C3-C6): fills pass their own check; the fast check finds, counts,
      reports and repairs every wrong word the checksum can see (at most one per 4096-byte
      block), the detailed check all of them; copies end with source and destination correct.
      Memory is stable during one operation: a wrong word is wrong for every read until it is
      rewritten.
    - Queues and tables (C7, C8, C36, C37): pages are never shared, a Get finds a page if there
      is one, disk blocks are freed when nobody uses them (for the one writing thread a table
      has; two would not be safe), the ring buffer refines a bag.
    - Pausing (C9, C10, C22): all workers really stop, the barrier is never reinitialised under
      a waiting thread, pausing and resuming end, except after a disk thread was refused.
    - Input and output (C12-C17): on faithful devices, files and connections no thread reports
      an error that is not there, whatever the interleaving (on disks for read blocks as large
      as write blocks and no larger than a work block); sector tags are read back; the listener
      leaks no descriptor but 0 and ends.
    - The run (C18-C21): exit status zero means that every part of the test passed, unless the
      errors are a multiple of 2^32; the control loop does what its schedule says and,
      when the clock is not set back and sleeps are not cut short, ends in time; every thread
      is registered where it waits.
    - Other tests and the platform (C23-C27): lost increments are counted, when the size of
      the counters fits an [int]; the test memory is given back, except for the descriptors the
      theorem names, and leaves room for the system; frequencies come from consecutive readings;
      the printed physical ranges are those tested.
    - The log (C28-C30): lines are written once, in order, and completely; error lines are read
      back and rewritten without loss.
    - The command line (C31, C32): members keep their types and ranges, and which arguments
      are refused, taken or ignored.
    - Data (C33, C34, C38-C40): the copy routines agree, the checksum detects every corruption
      of one word, the DRAM decoding is a bijection, a miscompare is mapped to its packet
      positions completely, each inversion pass complements its range and the four restore it.
    - Diagnosis (C35): the diagnoser refines a set of bad devices.

    ** Bounds and fuel

    Loops over a counter are structural on the number of iterations.  The checksum loops step
    by two and get [loop_fuel], one more than the count of words, and their theorems show that
    they return.  The generator search of [FineLock] is bounded by nine rounds, its skipping
    loop by the modulus; these are proved enough for queues of up to 2^26 pages (64 TiB of
    one-megabyte pages), by a ladder of primes with small gaps.  The main loop of a thread runs
    until the program stops, so its body takes the number of turns as [fuel] and the theorems
    hold for every number; loops that must end by themselves get a bound the data gives (fill
    threads one turn per page, transfers one turn per byte), and the theorems show that it is
    enough.  The control loop and the listener are shown to end.  Texts are consumed character
    by character.

    ** What is not modelled

    [MemoryRegionThread], which no code constructs; the loops of [ErrorPollThread] and
    [CpuStressThread], which only call the platform, and [CpuStressWorkload], whose result is
    not used; the statistics, VM counters, help and summaries that are only printed; CPU
    feature detection, cache-line flushes and time-stamp reads, which are single instructions;
    the destructors and locks of POSIX objects; the clock and the platform factories, which
    wrap one call each; [findmask], a program of its own.  Log texts other than the error lines
    are represented by the values printed, and memory allocated with [new] is always there. *)

From Stdlib Require Export ZArith Lia Bool List.
From stdpp Require Export base option list numbers gmap strings fin_maps.

#[global] Open Scope Z_scope.

(** ** Machine integers *)

Declare Scope word_scope.
Delimit Scope word_scope with W.

(** Wrap-around of the unsigned types of [sattypes.h]: [uint8], [uint32] and
    [uint64]. *)
Definition u8 (x : Z) : Z := x mod 2 ^ 8.
Definition u32 (x : Z) : Z := x mod 2 ^ 32.
Definition u64 (x : Z) : Z := x mod 2 ^ 64.

(** Two's complement reading of the low bits: [int32] ([int]) and [int64]. *)
Definition s32 (x : Z) : Z := (x + 2 ^ 31) mod 2 ^ 32 - 2 ^ 31.
Definition s64 (x : Z) : Z := (x + 2 ^ 63) mod 2 ^ 64 - 2 ^ 63.

(** Unsigned 64-bit sum, written the way the checksum code uses it. *)
Notation "a +64 b" := (u64 (a + b)) (at level 50, left associativity) : word_scope.

Lemma u32_bound x : 0 <= u32 x < 2 ^ 32.
Proof. apply Z.mod_pos_bound. lia. Qed.

Lemma u64_bound x : 0 <= u64 x < 2 ^ 64.
Proof. apply Z.mod_pos_bound. lia. Qed.

Lemma u32_id x : 0 <= x < 2 ^ 32 -> u32 x = x.
Proof. apply Z.mod_small. Qed.

Lemma u64_id x : 0 <= x < 2 ^ 64 -> u64 x = x.
Proof. apply Z.mod_small. Qed.

Lemma s32_id x : - 2 ^ 31 <= x < 2 ^ 31 -> s32 x = x.
Proof. intros H. unfold s32. rewrite Z.mod_small; lia. Qed.

Lemma s64_id x : - 2 ^ 63 <= x < 2 ^ 63 -> s64 x = x.
Proof. intros H. unfold s64. rewrite Z.mod_small; lia. Qed.

Lemma s32_bound x : - 2 ^ 31 <= s32 x < 2 ^ 31.
Proof. unfold s32. pose proof (Z.mod_pos_bound (x + 2 ^ 31) (2 ^ 32)). lia. Qed.

Lemma s64_bound x : - 2 ^ 63 <= s64 x < 2 ^ 63.
Proof. unfold s64. pose proof (Z.mod_pos_bound (x + 2 ^ 63) (2 ^ 64)). lia. Qed.

(** The [datacast_t] union of [sattypes.h]: a 64-bit word seen as two 32-bit
    halves, [l32.l] being the low half on the little-endian targets. *)
Definition l32_l (w : Z) : Z := w mod 2 ^ 32.
Definition l32_h (w : Z) : Z := (w / 2 ^ 32) mod 2 ^ 32.
Definition l64 (l h : Z) : Z := l + h * 2 ^ 32.

Lemma l64_l32_l l h : 0 <= l < 2 ^ 32 -> l32_l (l64 l h) = l.
Proof. intros H. unfold l32_l, l64. rewrite Z_mod_plus_full. apply Z.mod_small, H. Qed.

Lemma l64_l32_h l h : 0 <= l < 2 ^ 32 -> 0 <= h < 2 ^ 32 -> l32_h (l64 l h) = h.
Proof.
  intros Hl Hh. unfold l32_h, l64. rewrite Z.div_add by lia.
  rewrite (Z.div_small l) by lia. apply Z.mod_small; lia.
Qed.

Lemma l64_split w : 0 <= w < 2 ^ 64 -> l64 (l32_l w) (l32_h w) = w.
Proof.
  intros H. unfold l64, l32_l, l32_h.
  rewrite (Z.mod_small (w / _)).
  - pose proof (Z.div_mod w (2 ^ 32)). lia.
  - split; [apply Z.div_pos; lia | apply Z.div_lt_upper_bound; lia].
Qed.

Lemma l32_l_bound w : 0 <= l32_l w < 2 ^ 32.
Proof. apply Z.mod_pos_bound. lia. Qed.

Lemma l32_h_bound w : 0 <= l32_h w < 2 ^ 32.
Proof. apply Z.mod_pos_bound. lia. Qed.

Lemma l64_bound l h : 0 <= l < 2 ^ 32 -> 0 <= h < 2 ^ 32 -> 0 <= l64 l h < 2 ^ 64.
Proof. unfold l64. lia. Qed.

(** Bitwise complement of an [unsigned int]. *)
Definition not32 (x : Z) : Z := 2 ^ 32 - 1 - x.

Lemma not32_bound x : 0 <= x < 2 ^ 32 -> 0 <= not32 x < 2 ^ 32.
Proof. unfold not32. lia. Qed.

Lemma not32_involutive x : not32 (not32 x) = x.
Proof. unfold not32. lia. Qed.

(** [not32] is [~] truncated to 32 bits. *)
Lemma not32_lnot x : 0 <= x < 2 ^ 32 -> not32 x = u32 (Z.lnot x).
Proof.
  intros H. unfold not32, u32, Z.lnot.
  replace (Z.pred (- x)) with (2 ^ 32 - 1 - x + (-1) * 2 ^ 32) by lia.
  rewrite Z_mod_plus_full. symmetry. apply Z.mod_small. lia.
Qed.

(** ** Arrays

    A C array is a list; [l .[ i ]] is the element read at a non-negative
    index and [l .[ i := v ]] the array after a store.  Reads and stores outside
    the array are undefined behaviour in the source: theorems carry the bounds
    that rule them out. *)
Definition aget {A} (d : A) (l : list A) (i : Z) : A := nth (Z.to_nat i) l d.
Definition aset {A} (l : list A) (i : Z) (v : A) : list A := <[Z.to_nat i := v]> l.

Lemma length_aset {A} (l : list A) i v : length (aset l i v) = length l.
Proof. apply length_insert. Qed.

Lemma nth_insert {A} (d : A) l n m v :
  nth m (<[n:=v]> l) d = if decide (n = m /\ (n < length l)%nat) then v else nth m l d.
Proof.
  case_decide as H.
  - destruct H as [-> H]. apply nth_lookup_Some, list_lookup_insert_eq, H.
  - destruct (decide (n = m)) as [-> | Hne].
    + rewrite list_insert_ge; [done | lia].
    + rewrite !nth_lookup. by rewrite list_lookup_insert_ne.
Qed.

Lemma aget_aset_eq {A} (d : A) l i v :
  0 <= i < Z.of_nat (length l) -> aget d (aset l i v) i = v.
Proof. intros H. unfold aget, aset. rewrite nth_insert, decide_True; [done | lia]. Qed.

Lemma aget_aset_ne {A} (d : A) l i j v :
  0 <= i -> 0 <= j -> i <> j -> aget d (aset l i v) j = aget d l j.
Proof. intros Hi Hj Hne. unfold aget, aset. rewrite nth_insert, decide_False; [done | lia]. Qed.

Lemma nth_In_or_default {A} (P : A -> Prop) (l : list A) d n :
  Forall P l -> P d -> P (nth n l d).
Proof.
  intros Hl Hd. revert n. induction Hl; intros [|n]; simpl; auto.
Qed.

(** [zrange a n] is [a; a+1; ...; a+n-1]: the values of a counting loop. *)
Fixpoint zrange (a : Z) (n : nat) : list Z :=
  match n with O => [] | S n' => a :: zrange (a + 1) n' end.

Lemma elem_of_zrange a n x : x ∈ zrange a n <-> a <= x < a + Z.of_nat n.
Proof.
  revert a. induction n as [|n IH]; intros a; simpl.
  - rewrite elem_of_nil. lia.
  - rewrite elem_of_cons, IH. lia.
Qed.

Lemma length_zrange a n : length (zrange a n) = n.
Proof. revert a; induction n as [|n IH]; intros a; simpl; auto. Qed.

Lemma zrange_app a n m : zrange a (n + m) = zrange a n ++ zrange (a + Z.of_nat n) m.
Proof.
  revert a. induction n as [|n IH]; intros a.
  - simpl. f_equal. lia.
  - rewrite Nat2Z.inj_succ. cbn [zrange Nat.add app]. rewrite IH.
    do 3 f_equal. lia.
Qed.

Lemma zrange_S_r a n : zrange a (S n) = zrange a n ++ [a + Z.of_nat n].
Proof. rewrite <- (Nat.add_1_r n), zrange_app. done. Qed.

Lemma NoDup_zrange a n : NoDup (zrange a n).
Proof.
  revert a. induction n as [|n IH]; intros a; simpl; constructor; [|apply IH].
  rewrite elem_of_zrange. lia.
Qed.

Lemma zrange_lookup a n i : (i < n)%nat -> zrange a n !! i = Some (a + Z.of_nat i).
Proof.
  revert a i. induction n as [|n IH]; intros a i Hi; [lia|].
  destruct i as [|i]; simpl; [f_equal; lia|]. rewrite IH by lia. f_equal. lia.
Qed.

Lemma length_omap_le {A B} (f : A -> option B) (l : list A) :
  (length (omap f l) <= length l)%nat.
Proof. induction l as [|x l IH]; [done|]. cbn. destruct (f x); cbn; lia. Qed.

Lemma omap_length_total {A B} (f : A -> option B) (l : list A) :
  Forall (fun x => is_Some (f x)) l -> length (omap f l) = length l.
Proof. induction 1 as [|x l [y Hy] _ IH]; [done|]. cbn. rewrite Hy. cbn. by rewrite IH. Qed.

(** A decidable predicate that holds of every element of a range holds of every
    number in it: finite checks by computation. *)
Definition forallbZ (a : Z) (n : nat) (f : Z -> bool) : bool := forallb f (zrange a n).

Lemma forallbZ_spec a n f :
  forallbZ a n f = true -> forall x, a <= x < a + Z.of_nat n -> f x = true.
Proof.
  unfold forallbZ. rewrite forallb_forall. intros H x Hx.
  apply H, list_elem_of_In, elem_of_zrange, Hx.
Qed.

(** ** Bit vectors: a list of bits, least significant first *)

Fixpoint bitsZ (l : list bool) : Z :=
  match l with [] => 0 | b :: l' => Z.b2z b + 2 * bitsZ l' end.

Lemma bitsZ_bound l : 0 <= bitsZ l < 2 ^ Z.of_nat (length l).
Proof.
  induction l as [|b l IH]; cbn [bitsZ length]; [lia|].
  rewrite Nat2Z.inj_succ, Z.pow_succ_r by lia. destruct b; cbn [Z.b2z]; lia.
Qed.

Lemma testbit_bitsZ l n : 0 <= n -> Z.testbit (bitsZ l) n = nth (Z.to_nat n) l false.
Proof.
  revert n. induction l as [|b l IH]; intros n Hn; cbn [bitsZ].
  - rewrite Z.bits_0. by destruct (Z.to_nat n).
  - destruct (Z.eq_dec n 0) as [->|Hn0].
    + rewrite Z.add_b2z_double_bit0. done.
    + replace n with (Z.succ (n - 1)) by lia.
      rewrite (Z.add_comm (Z.b2z b)). rewrite Z.testbit_succ_r by lia. rewrite IH by lia.
      replace (Z.to_nat (Z.succ (n - 1))) with (S (Z.to_nat (n - 1))) by lia. done.
Qed.

(** The low [n] bits of [v], from position [k]. *)
Definition bits_from (v k : Z) (n : nat) : list bool := map (Z.testbit v) (zrange k n).

Lemma bitsZ_bits_from v k n :
  0 <= k -> bitsZ (bits_from v k n) = (v / 2 ^ k) mod 2 ^ Z.of_nat n.
Proof.
  revert k. induction n as [|n IH]; intros k Hk; unfold bits_from in *;
    cbn [zrange map bitsZ].
  - by rewrite Z.mod_1_r.
  - rewrite IH by lia. rewrite Nat2Z.inj_succ, !Z.pow_succ_r, Z.pow_add_r by lia.
    rewrite (Z.rem_mul_r _ 2) by lia. rewrite <- Z.div_div by lia.
    f_equal. apply Z.testbit_spec'. lia.
Qed.

Lemma bitsZ_testbits v n :
  0 <= v < 2 ^ Z.of_nat n -> bitsZ (bits_from v 0 n) = v.
Proof. intros H. rewrite bitsZ_bits_from, Z.div_1_r by lia. apply Z.mod_small, H. Qed.

(** ** Powers of two *)

(** The usual test: a positive number without a bit in common with its predecessor. *)
Lemma land_pred_pow2 x : 0 < x -> Z.land x (x - 1) = 0 -> exists k, 0 <= k /\ x = 2 ^ k.
Proof.
  intros Hx Hl. exists (Z.log2 x). pose proof (Z.log2_nonneg x). split; [done|].
  destruct (Z.log2_spec x Hx) as [Hlo Hhi].
  destruct (Z.eq_dec x (2 ^ Z.log2 x)) as [|Hne]; [done|]. exfalso.
  assert (He : Z.log2 (x - 1) = Z.log2 x) by (apply Z.log2_unique; lia).
  assert (Hb : Z.testbit (Z.land x (x - 1)) (Z.log2 x) = true).
  { rewrite Z.land_spec, Z.bit_log2 by done. rewrite <- He at 1. rewrite Z.bit_log2; [done|].
    pose proof (Z.pow_pos_nonneg 2 (Z.log2 x)). lia. }
  by rewrite Hl, Z.bits_0 in Hb.
Qed.

(** ** Automation *)

Create HintDb word discriminated.
#[export] Hint Resolve u32_bound u64_bound s32_bound s64_bound l32_l_bound
  l32_h_bound l64_bound not32_bound : word.
Create Rewrite HintDb arr.
#[export] Hint Rewrite @length_aset @length_insert @length_app length_zrange
  @length_replicate @length_map @length_take @length_drop : arr.

(** Case analysis on the boolean test of the code's [if]. *)
Ltac case_if_eqn :=
  match goal with
  | |- context [if ?b then _ else _] => let E := fresh "E" in destruct b eqn:E
  | H : context [if ?b then _ else _] |- _ => let E := fresh "E" in destruct b eqn:E
  end.

(** Boolean comparisons of the code as propositions. *)
Ltac bool_to_prop :=
  repeat match goal with
  | H : (_ && _) = true |- _ => apply andb_true_iff in H as [? ?]
  | H : (_ || _) = false |- _ => apply orb_false_iff in H as [? ?]
  | H : negb _ = true |- _ => apply negb_true_iff in H
  | H : negb _ = false |- _ => apply negb_false_iff in H
  | H : (_ <? _) = true |- _ => apply Z.ltb_lt in H
  | H : (_ <? _) = false |- _ => apply Z.ltb_ge in H
  | H : (_ <=? _) = true |- _ => apply Z.leb_le in H
  | H : (_ <=? _) = false |- _ => apply Z.leb_gt in H
  | H : (_ =? _) = true |- _ => apply Z.eqb_eq in H
  | H : (_ =? _) = false |- _ => apply Z.eqb_neq in H
  end.
