(* ===== verification/Sm8975.v ===== *)
(** SM8975 LPDDR6 address and packet mapping: [src/src/sm8975_mapping.h] and the
    adapter of [src/src/dram_address.h].  An out-parameter that may be NULL is an
    [option] holding the caller's object; the functions return its new content. *)

From S2P Require Import Prelude.
From Stdlib Require Import Btauto.

Module Sm8975.

Record Sm8975Topology := mkTopology {
  channel : Z; chip_select : Z; subchannel : Z; bank : Z;
  row : Z; mat : Z; column : Z; normalized_address : Z
}.

(** The arrays [dq], [bl] and [hex] have 64 slots each. *)
Record Sm8975MismatchMapping := mkMapping {
  count : Z; dq : list Z; bl : list Z; hex : list Z
}.

(** [= {}]: every member zero. *)
Definition zero_topology : Sm8975Topology := mkTopology 0 0 0 0 0 0 0 0.
Definition zero_mapping : Sm8975MismatchMapping :=
  mkMapping 0 (replicate 64 0) (replicate 64 0) (replicate 64 0).

Definition Sm8975AddressBit (value bit : Z) : Z :=
  u32 (Z.land (Z.shiftr value bit) 1).

Definition NormalizeSm8975Address (raw_address : Z) : Z :=
  let decoded :=
    if raw_address <? 0x100000000 then u64 (raw_address - 0x80000000)
    else u64 (raw_address - 0x800000000) in
  Z.land decoded 0xFFFFFFFFF.

Definition kRanges : list (Z * Z) := [
  (0x000, 0x55F); (0x560, 0xABF); (0xAC0, 0x101F);
  (0x1020, 0x153F); (0x1540, 0x1A9F); (0x1AA0, 0x1FFF);
  (0x2000, 0x255F); (0x2560, 0x2ABF); (0x2AC0, 0x301F);
  (0x3020, 0x353F); (0x3540, 0x3A9F); (0x3AA0, 0x3FFF);
  (0x4000, 0x455F); (0x4560, 0x4ABF); (0x4AC0, 0x501F);
  (0x5020, 0x553F); (0x5540, 0x5A9F); (0x5AA0, 0x5FFF);
  (0x6000, 0x655F); (0x6560, 0x6ABF); (0x6AC0, 0x701F);
  (0x7020, 0x753F); (0x7540, 0x7A9F); (0x7AA0, 0x7FFF) ].

(** The search loop of [Sm8975MatForRow], from table index [i] on. *)
Fixpoint mat_search (row : Z) (i : Z) (ranges : list (Z * Z)) : Z :=
  match ranges with
  | [] => -1
  | (lo, hi) :: rest =>
      if (lo <=? row) && (row <=? hi) then i else mat_search row (i + 1) rest
  end.

Definition Sm8975MatForRow (row : Z) : Z := mat_search row 0 kRanges.

(** The loop that assembles the row from bits 18 .. 18 + index. *)
Definition row_loop (decoded : Z) (r : Z) (index : Z) : Z :=
  Z.lor r (Z.shiftl (Sm8975AddressBit decoded (18 + index)) index).

Definition DecodeSm8975Address (raw_address : Z) (topology : option Sm8975Topology)
  : bool * option Sm8975Topology :=
  match topology with
  | None => (false, None)
  | Some _ =>
      let decoded := NormalizeSm8975Address raw_address in
      let a := Sm8975AddressBit decoded in
      let x := Z.lxor in
      let ch0 := a 8 in
      let ch1 := x (x (x (x (x (a 9) (a 11)) (a 13)) (a 15)) (a 17)) (a 19) in
      let bk0 := x (x (x (x (x (x (x (x (a 16) (a 19)) (a 20)) (a 22)) (a 24))
                   (a 25)) (a 26)) (a 27)) (a 31) in
      let bk1 := x (x (x (x (x (x (x (x (a 17) (a 20)) (a 21)) (a 23)) (a 25))
                   (a 26)) (a 27)) (a 28)) (a 32) in
      let bk2 := x (x (x (x (x (x (x (x (a 7) (a 18)) (a 21)) (a 22)) (a 24))
                   (a 26)) (a 27)) (a 28)) (a 29) in
      let bk3 := x (x (x (x (x (x (x (x (a 13) (a 18)) (a 19)) (a 21)) (a 23))
                   (a 24)) (a 25)) (a 26)) (a 30) in
      let row := fold_left (row_loop decoded) (zrange 0 15) 0 in
      (true, Some {|
        channel := Z.lor (Z.shiftl ch1 1) ch0;
        chip_select := x (a 32) (a 33);
        subchannel := x (x (x (a 10) (a 11)) (a 12)) (a 13);
        bank := Z.lor (Z.lor (Z.lor (Z.shiftl bk3 3) (Z.shiftl bk2 2))
                  (Z.shiftl bk1 1)) bk0;
        row := row;
        mat := Sm8975MatForRow row;
        column := Z.lor (Z.lor (Z.lor (Z.lor (Z.lor (Z.shiftl (a 15) 5)
                    (Z.shiftl (a 14) 4)) (Z.shiftl (a 12) 3)) (Z.shiftl (a 11) 2))
                    (Z.shiftl (a 6) 1)) (a 5);
        normalized_address := decoded |})
  end.

Definition kHexTable : list (list Z) := [
  [0; 1; 2; 3; 4; 5];
  [6; 7; 8; 9; 10; 11];
  [12; 13; -1; 14; 15; -1];
  [16; 17; 18; 19; 20; 21];
  [22; 23; 24; 25; 26; 27];
  [28; 29; -1; 30; 31; -1] ].

Definition Sm8975HexRegion (dq bl : Z) : Z :=
  if (12 <=? dq) || (24 <=? bl) then -1
  else aget 0 (aget [] kHexTable (bl / 4)) (dq / 2).

(** The three nested loops of [Sm8975DataBitToCoordinate].  Each loop returns
    [inl (dq, bl)] when the [return true] fires, [inr current] otherwise. *)
Definition hole (bl_group dq : Z) : bool :=
  ((bl_group =? 2) || (bl_group =? 5)) &&
  ((dq =? 4) || (dq =? 5) || (dq =? 10) || (dq =? 11)).

Fixpoint bit_in_cell_loop (data_bit bl_group dq : Z) (bits : list Z) (current : Z)
  : Z * Z + Z :=
  match bits with
  | [] => inr current
  | b :: rest =>
      if current =? data_bit then inl (dq, bl_group * 4 + b)
      else bit_in_cell_loop data_bit bl_group dq rest (current + 1)
  end.

Fixpoint dq_loop (data_bit bl_group : Z) (dqs : list Z) (current : Z) : Z * Z + Z :=
  match dqs with
  | [] => inr current
  | dq :: rest =>
      if hole bl_group dq then dq_loop data_bit bl_group rest current
      else match bit_in_cell_loop data_bit bl_group dq (zrange 0 4) current with
           | inl c => inl c
           | inr current' => dq_loop data_bit bl_group rest current'
           end
  end.

Fixpoint bl_group_loop (data_bit : Z) (groups : list Z) (current : Z) : Z * Z + Z :=
  match groups with
  | [] => inr current
  | g :: rest =>
      match dq_loop data_bit g (zrange 0 12) current with
      | inl c => inl c
      | inr current' => bl_group_loop data_bit rest current'
      end
  end.

(** [dq_out], [bl_out] and [hex_out] are [None] for a NULL pointer, [Some v] for a
    pointer to an object holding [v]. *)
Definition Sm8975DataBitToCoordinate (data_bit : Z) (dq_out bl_out hex_out : option Z)
  : bool * (option Z * option Z * option Z) :=
  match dq_out, bl_out, hex_out with
  | Some _, Some _, Some _ =>
      if 256 <=? data_bit then (false, (dq_out, bl_out, hex_out))
      else match bl_group_loop data_bit (zrange 0 6) 0 with
           | inl (dq, bl) => (true, (Some dq, Some bl, Some (Sm8975HexRegion dq bl)))
           | inr _ => (false, (dq_out, bl_out, hex_out))
           end
  | _, _, _ => (false, (dq_out, bl_out, hex_out))
  end.

(** One iteration of the bit loop of [MapSm8975MismatchWord32]; the [bool] is set
    once the early [return] at a full mapping is taken. *)
Definition word32_step (word_index expected actual : Z)
    (st : bool * Sm8975MismatchMapping) (bit : Z) : bool * Sm8975MismatchMapping :=
  let '(returned, m) := st in
  if returned then st
  else if Z.land (Z.shiftr expected bit) 1 =? Z.land (Z.shiftr actual bit) 1 then st
  else match Sm8975DataBitToCoordinate (word_index * 32 + bit)
               (Some 0) (Some 0) (Some (-1)) with
       | (true, (Some d, Some b, Some h)) =>
           let index := count m in
           if 64 <=? index then (true, m)
           else (false, {| count := index + 1; dq := aset (dq m) index d;
                           bl := aset (bl m) index b; hex := aset (hex m) index h |})
       | (_, _) => st
       end.

(** [mapping->count = 0]. *)
Definition reset_count (m : Sm8975MismatchMapping) : Sm8975MismatchMapping :=
  {| count := 0; dq := dq m; bl := bl m; hex := hex m |}.

Definition MapSm8975MismatchWord32 (address expected actual : Z)
    (mapping : option Sm8975MismatchMapping) : option Sm8975MismatchMapping :=
  match mapping with
  | None => None
  | Some m =>
      let m := reset_count m in
      if expected =? actual then Some m
      else
        let packet_base := address - address mod 32 in
        let word_index := u32 ((address - packet_base) / 4) in
        Some (snd (fold_left (word32_step word_index expected actual) (zrange 0 32)
                     (false, m)))
  end.

(** The copy loop of [MapSm8975MismatchBits] for one half; [true] once the early
    [return] is taken. *)
Definition append_step (half : Sm8975MismatchMapping)
    (st : bool * Sm8975MismatchMapping) (i : Z) : bool * Sm8975MismatchMapping :=
  let '(returned, m) := st in
  if returned then st
  else if 64 <=? count m then (true, m)
  else let out := count m in
       (false, {| count := out + 1; dq := aset (dq m) out (aget 0 (dq half) i);
                  bl := aset (bl m) out (aget 0 (bl half) i);
                  hex := aset (hex m) out (aget 0 (hex half) i) |}).

Definition half_step (word_base expected actual : Z)
    (st : bool * Sm8975MismatchMapping) (half : Z) : bool * Sm8975MismatchMapping :=
  let '(returned, m) := st in
  if returned then st
  else
    let shift := half * 32 in
    let expected_word := u32 (Z.land (Z.shiftr expected shift) 0xFFFFFFFF) in
    let actual_word := u32 (Z.land (Z.shiftr actual shift) 0xFFFFFFFF) in
    if expected_word =? actual_word then st
    else
      match MapSm8975MismatchWord32 (u64 (word_base + half * 4)) expected_word actual_word
              (Some zero_mapping) with
      | Some half_mapping =>
          fold_left (append_step half_mapping)
            (zrange 0 (Z.to_nat (count half_mapping))) (false, m)
      | None => st
      end.

Definition MapSm8975MismatchBits (physical_address expected actual : Z)
    (mapping : option Sm8975MismatchMapping) : option Sm8975MismatchMapping :=
  match mapping with
  | None => None
  | Some m =>
      let word_base := Z.land physical_address (2 ^ 64 - 1 - 7) in
      Some (snd (fold_left (half_step word_base expected actual) (zrange 0 2)
                   (false, reset_count m)))
  end.

End Sm8975.

(** ** [dram_address.h] *)

Module DramAddr.
Import Sm8975.

(** [DRAM_ADDRESS_MAP_LPDDR_V1] is an alias of the second constructor. *)
Inductive DramAddressMapProfile :=
| DRAM_ADDRESS_MAP_NONE
| DRAM_ADDRESS_MAP_SM8975_LP6.

Definition DRAM_ADDRESS_MAP_LPDDR_V1 := DRAM_ADDRESS_MAP_SM8975_LP6.

#[export] Instance profile_eq_dec : EqDecision DramAddressMapProfile.
Proof. solve_decision. Defined.

Record DramAddress := mkDramAddress {
  da_channel : Z; da_rank : Z; da_subchannel : Z; da_bank_group : Z;
  da_bank : Z; da_row : Z; da_column : Z; da_byte_offset : Z
}.

Definition DecodeDramAddress (profile : DramAddressMapProfile) (physical_address : Z)
    (address : option DramAddress) : bool * option DramAddress :=
  match address with
  | None => (false, None)
  | Some old =>
      if bool_decide (profile <> DRAM_ADDRESS_MAP_SM8975_LP6) then (false, Some old)
      else match DecodeSm8975Address physical_address (Some zero_topology) with
           | (true, Some t) =>
               (true, Some {| da_channel := channel t; da_rank := chip_select t;
                              da_subchannel := subchannel t; da_bank_group := 0;
                              da_bank := bank t; da_row := row t; da_column := column t;
                              da_byte_offset := u32 (Z.land (normalized_address t) 0x1F) |})
           | (_, _) => (false, Some old)
           end
  end.

End DramAddr.

(** ** Correctness *)

Module Sm8975Facts.
Import Sm8975 DramAddr.

Lemma land1_b2z v n : 0 <= n -> Z.land (Z.shiftr v n) 1 = Z.b2z (Z.testbit v n).
Proof.
  intros Hn. change 1 with (Z.ones 1). rewrite Z.land_ones by lia.
  rewrite Z.shiftr_div_pow2, Z.testbit_spec' by lia. done.
Qed.

Lemma AddressBit_b2z v n : 0 <= n -> Sm8975AddressBit v n = Z.b2z (Z.testbit v n).
Proof.
  intros Hn. unfold Sm8975AddressBit. rewrite land1_b2z by lia.
  by destruct (Z.testbit v n).
Qed.

Lemma lxor_b2z a b : Z.lxor (Z.b2z a) (Z.b2z b) = Z.b2z (xorb a b).
Proof. by destruct a, b. Qed.

Lemma lor2_bitsZ b0 b1 :
  Z.lor (Z.shiftl (Z.b2z b1) 1) (Z.b2z b0) = bitsZ [b0; b1].
Proof. by destruct b0, b1. Qed.

Lemma lor4_bitsZ b0 b1 b2 b3 :
  Z.lor (Z.lor (Z.lor (Z.shiftl (Z.b2z b3) 3) (Z.shiftl (Z.b2z b2) 2))
    (Z.shiftl (Z.b2z b1) 1)) (Z.b2z b0) = bitsZ [b0; b1; b2; b3].
Proof. by destruct b0, b1, b2, b3. Qed.

Lemma lor6_bitsZ b0 b1 b2 b3 b4 b5 :
  Z.lor (Z.lor (Z.lor (Z.lor (Z.lor (Z.shiftl (Z.b2z b5) 5) (Z.shiftl (Z.b2z b4) 4))
    (Z.shiftl (Z.b2z b3) 3)) (Z.shiftl (Z.b2z b2) 2)) (Z.shiftl (Z.b2z b1) 1))
    (Z.b2z b0) = bitsZ [b0; b1; b2; b3; b4; b5].
Proof. by destruct b0, b1, b2, b3, b4, b5. Qed.

(** The row loop extracts [n] bits from bit 18. *)
Lemma row_loop_spec d n :
  fold_left (row_loop d) (zrange 0 n) 0 = (d / 2 ^ 18) mod 2 ^ Z.of_nat n.
Proof.
  induction n as [|n IH]; [by rewrite Z.mod_1_r|].
  rewrite zrange_S_r, fold_left_app, IH. cbn [fold_left]. unfold row_loop.
  rewrite AddressBit_b2z, Z.add_0_l by lia.
  rewrite Nat2Z.inj_succ, <- !Z.land_ones, <- Z.shiftr_div_pow2 by lia.
  apply Z.bits_inj'. intros i Hi.
  rewrite Z.lor_spec, !Z.land_spec, !Z.testbit_ones_nonneg by lia.
  rewrite Z.shiftl_spec, Z.shiftr_spec by lia.
  destruct (Z.lt_trichotomy i (Z.of_nat n)) as [H|[->|H]].
  - rewrite (Z.testbit_neg_r _ (i - _)) by lia.
    rewrite (proj2 (Z.ltb_lt i (Z.of_nat n))), (proj2 (Z.ltb_lt i (Z.succ _))) by lia.
    btauto.
  - rewrite Z.sub_diag, Z.b2z_bit0, Z.ltb_irrefl.
    rewrite (proj2 (Z.ltb_lt _ _)) by lia.
    replace (18 + Z.of_nat n) with (Z.of_nat n + 18) by lia. btauto.
  - rewrite (proj2 (Z.ltb_ge i (Z.of_nat n))), (proj2 (Z.ltb_ge i (Z.succ _))) by lia.
    destruct (Z.testbit d (18 + Z.of_nat n)); cbn [Z.b2z].
    + rewrite (Z.bits_above_log2 1) by (simpl; lia). btauto.
    + rewrite Z.bits_0. btauto.
Qed.

Lemma row_bits d :
  fold_left (row_loop d) (zrange 0 15) 0 = bitsZ (bits_from d 18 15).
Proof. rewrite row_loop_spec, bitsZ_bits_from by lia. done. Qed.

Lemma Normalize_window n :
  0 <= n < 2 ^ 34 -> NormalizeSm8975Address (0x800000000 + n) = n.
Proof.
  intros H. unfold NormalizeSm8975Address, u64.
  rewrite (proj2 (Z.ltb_ge _ _)) by lia.
  change 0xFFFFFFFFF with (Z.ones 36). rewrite Z.land_ones by lia.
  replace (0x800000000 + n - 0x800000000) with n by lia.
  rewrite (Z.mod_small n (2 ^ 64)) by lia. apply Z.mod_small. lia.
Qed.

Lemma Normalize_bound raw : 0 <= NormalizeSm8975Address raw < 2 ^ 36.
Proof.
  unfold NormalizeSm8975Address. change 0xFFFFFFFFF with (Z.ones 36).
  rewrite Z.land_ones by lia. apply Z.mod_pos_bound. lia.
Qed.

(** Xor of a list of address bits, folded the way the equations are written. *)
Definition xors (l : list bool) : bool :=
  match l with [] => false | b :: l' => fold_left xorb l' b end.

(** The decoded topology over the bits of the normalized address. *)
Lemma Decode_bits raw t :
  let d := NormalizeSm8975Address raw in
  let a := Z.testbit d in
  DecodeSm8975Address raw (Some t) =
  (true, Some {|
    channel := bitsZ [a 8; xors [a 9; a 11; a 13; a 15; a 17; a 19]];
    chip_select := bitsZ [xors [a 32; a 33]];
    subchannel := bitsZ [xors [a 10; a 11; a 12; a 13]];
    bank := bitsZ [xors [a 16; a 19; a 20; a 22; a 24; a 25; a 26; a 27; a 31];
                   xors [a 17; a 20; a 21; a 23; a 25; a 26; a 27; a 28; a 32];
                   xors [a 7; a 18; a 21; a 22; a 24; a 26; a 27; a 28; a 29];
                   xors [a 13; a 18; a 19; a 21; a 23; a 24; a 25; a 26; a 30]];
    row := bitsZ (bits_from d 18 15);
    mat := Sm8975MatForRow (bitsZ (bits_from d 18 15));
    column := bitsZ [a 5; a 6; a 11; a 12; a 14; a 15];
    normalized_address := d |}).
Proof.
  cbv zeta. unfold DecodeSm8975Address. cbv zeta. rewrite row_bits.
  rewrite !AddressBit_b2z by lia. rewrite !lxor_b2z.
  rewrite lor2_bitsZ, lor4_bitsZ, lor6_bitsZ. cbn [xors fold_left].
  do 2 f_equal. f_equal; cbn [bitsZ]; destruct (xorb _ _); done.
Qed.

(** The table is a chain of adjacent, non-empty intervals from [start]. *)
Fixpoint adjacent (start : Z) (l : list (Z * Z)) : bool :=
  match l with
  | [] => true
  | (lo, hi) :: rest => (lo =? start) && (lo <=? hi) && adjacent (hi + 1) rest
  end.

Fixpoint chain_end (start : Z) (l : list (Z * Z)) : Z :=
  match l with [] => start | (_, hi) :: rest => chain_end (hi + 1) rest end.

Definition in_range (row : Z) (r : Z * Z) : bool := (r.1 <=? row) && (row <=? r.2).

Lemma adjacent_ge s l k r : adjacent s l = true -> l !! k = Some r -> s <= r.1.
Proof.
  revert s k. induction l as [|[lo hi] l IH]; intros s k Ha Hk; [done|].
  cbn in Ha. bool_to_prop. destruct k as [|k]; cbn in Hk.
  - injection Hk as <-. cbn. lia.
  - specialize (IH _ _ ltac:(eassumption) Hk). lia.
Qed.

(** In an adjacent table the search returns the one entry that holds [row]. *)
Lemma mat_search_adjacent row i s l :
  adjacent s l = true -> s <= row < chain_end s l ->
  exists k r, l !! k = Some r /\ in_range row r = true /\
    mat_search row i l = i + Z.of_nat k /\
    forall k' r', l !! k' = Some r' -> in_range row r' = true -> k' = k.
Proof.
  revert s i. induction l as [|[lo hi] l IH]; intros s i Ha Hr; [cbn in Hr; lia|].
  cbn in Ha, Hr. bool_to_prop. cbn [mat_search].
  destruct ((lo <=? row) && (row <=? hi)) eqn:E.
  - exists 0%nat, (lo, hi). split_and!; [done|exact E|lia|].
    intros [|k'] r' Hk' Hin; [done|]. exfalso. cbn in Hk'.
    pose proof (adjacent_ge _ _ _ _ ltac:(eassumption) Hk').
    unfold in_range in Hin. bool_to_prop. lia.
  - assert (hi < row) by (apply andb_false_iff in E as [E|E]; bool_to_prop; lia).
    destruct (IH (hi + 1) (i + 1)) as (k & r & Hk & Hin & Hm & Hu); [done|lia|].
    exists (S k), r. split_and!; [done|done|lia|].
    intros [|k'] r' Hk' Hin'; cbn in Hk'.
    + injection Hk' as <-. unfold in_range in Hin'. cbn in Hin'. congruence.
    + f_equal. eapply Hu; eassumption.
Qed.

Lemma mat_search_none row i l :
  Forall (fun r => in_range row r = false) l -> mat_search row i l = -1.
Proof.
  intros H. revert i. induction H as [|[lo hi] l Hr _ IH]; intros i; [done|].
  cbn [mat_search]. unfold in_range in Hr. cbn in Hr. rewrite Hr. apply IH.
Qed.

Lemma mat_out_of_range row : 0x8000 <= row -> Sm8975MatForRow row = -1.
Proof.
  intros H. apply mat_search_none. unfold kRanges, in_range.
  repeat (constructor; [cbn; rewrite (proj2 (Z.leb_gt row _)); [apply andb_false_r|lia]|]).
  constructor.
Qed.

Lemma mat_in_range row :
  0 <= row < 0x8000 ->
  exists k r, kRanges !! k = Some r /\ in_range row r = true /\
    Sm8975MatForRow row = Z.of_nat k /\
    forall k' r', kRanges !! k' = Some r' -> in_range row r' = true -> k' = k.
Proof. intros H. apply (mat_search_adjacent row 0 0 kRanges); [done|exact H]. Qed.

Lemma mat_bound row : 0 <= row < 0x8000 -> 0 <= Sm8975MatForRow row < 24.
Proof.
  intros H. destruct (mat_in_range row H) as (k & r & Hk & _ & -> & _).
  apply lookup_lt_Some in Hk. cbn [length kRanges] in Hk. lia.
Qed.

(** Encoding of coordinates back into a 34-bit controller address: the bits the
    equations of [DecodeSm8975Address] leave determined. *)
Definition encode_bits (d : DramAddress) : list bool :=
  let r i := Z.testbit (da_row d) (i - 18) in
  let c := Z.testbit (da_column d) in
  let k := Z.testbit (da_bank d) in
  let a11 := c 2 in let a12 := c 3 in let a14 := c 4 in let a15 := c 5 in
  let a7 := xors [k 2; r 18; r 21; r 22; r 24; r 26; r 27; r 28; r 29] in
  let a13 := xors [k 3; r 18; r 19; r 21; r 23; r 24; r 25; r 26; r 30] in
  let a16 := xors [k 0; r 19; r 20; r 22; r 24; r 25; r 26; r 27; r 31] in
  let a17 := xors [k 1; r 20; r 21; r 23; r 25; r 26; r 27; r 28; r 32] in
  let a9 := xors [Z.testbit (da_channel d) 1; a11; a13; a15; a17; r 19] in
  let a10 := xors [Z.testbit (da_subchannel d) 0; a11; a12; a13] in
  bits_from (da_byte_offset d) 0 5 ++
  [c 0; c 1; a7; Z.testbit (da_channel d) 0; a9; a10; a11; a12; a13; a14; a15; a16; a17] ++
  bits_from (da_row d) 0 15 ++
  [xors [Z.testbit (da_rank d) 0; r 32]].

Definition encode (d : DramAddress) : Z := bitsZ (encode_bits d).

(** Widths of the coordinates. *)
Definition dram_ok (d : DramAddress) : Prop :=
  0 <= da_channel d < 4 /\ 0 <= da_rank d < 2 /\ 0 <= da_subchannel d < 2 /\
  da_bank_group d = 0 /\ 0 <= da_bank d < 16 /\ 0 <= da_row d < 2 ^ 15 /\
  0 <= da_column d < 64 /\ 0 <= da_byte_offset d < 32.

Lemma byte_offset_bits v : u32 (Z.land v 0x1F) = bitsZ (bits_from v 0 5).
Proof.
  change 0x1F with (Z.ones 5). rewrite Z.land_ones, bitsZ_bits_from by lia.
  rewrite Z.div_1_r. change (Z.of_nat 5) with 5.
  apply u32_id. pose proof (Z.mod_pos_bound v (2 ^ 5)). lia.
Qed.

(** [DecodeDramAddress] over the bits of the normalized address. *)
Lemma DecodeDram_bits raw d0 :
  let d := NormalizeSm8975Address raw in
  let a := Z.testbit d in
  DecodeDramAddress DRAM_ADDRESS_MAP_SM8975_LP6 raw (Some d0) =
  (true, Some {|
    da_channel := bitsZ [a 8; xors [a 9; a 11; a 13; a 15; a 17; a 19]];
    da_rank := bitsZ [xors [a 32; a 33]];
    da_subchannel := bitsZ [xors [a 10; a 11; a 12; a 13]];
    da_bank_group := 0;
    da_bank := bitsZ [xors [a 16; a 19; a 20; a 22; a 24; a 25; a 26; a 27; a 31];
                   xors [a 17; a 20; a 21; a 23; a 25; a 26; a 27; a 28; a 32];
                   xors [a 7; a 18; a 21; a 22; a 24; a 26; a 27; a 28; a 29];
                   xors [a 13; a 18; a 19; a 21; a 23; a 24; a 25; a 26; a 30]];
    da_row := bitsZ (bits_from d 18 15);
    da_column := bitsZ [a 5; a 6; a 11; a 12; a 14; a 15];
    da_byte_offset := bitsZ (bits_from d 0 5) |}).
Proof.
  cbv zeta. unfold DecodeDramAddress. rewrite bool_decide_eq_false_2 by tauto.
  rewrite (Decode_bits raw zero_topology). cbv iota beta.
  cbn [channel chip_select subchannel bank row column normalized_address].
  by rewrite byte_offset_bits.
Qed.


Lemma encode_decode_bits n :
  0 <= n < 2 ^ 34 ->
  exists d, DecodeDramAddress DRAM_ADDRESS_MAP_SM8975_LP6 (0x800000000 + n)
              (Some (mkDramAddress 0 0 0 0 0 0 0 0)) = (true, Some d) /\
            dram_ok d /\ encode_bits d = bits_from n 0 34.
Proof.
  intros Hn. rewrite DecodeDram_bits, Normalize_window by done.
  eexists. split; [reflexivity|]. split.
  - unfold dram_ok. cbn [da_channel da_rank da_subchannel da_bank_group da_bank da_row
      da_column da_byte_offset].
    repeat match goal with |- context [bitsZ ?l] =>
      lazymatch goal with H : 0 <= bitsZ l < _ |- _ => fail | _ => idtac end;
      pose proof (bitsZ_bound l) end.
    cbn [length bits_from map zrange Z.of_nat Pos.of_succ_nat Pos.succ] in *. lia.
  - unfold encode_bits. cbn [da_channel da_rank da_subchannel da_bank_group da_bank da_row
      da_column da_byte_offset]. unfold bits_from. cbn [zrange map app].
    rewrite !testbit_bitsZ by lia. generalize (Z.testbit n). intros a.
    cbv -[xorb]. repeat (apply (f_equal2 cons); [first [reflexivity | btauto]|]). done.
Qed.

Lemma length_encode_bits d : length (encode_bits d) = 34%nat.
Proof. done. Qed.

Lemma testbit_small v n k : 0 <= v < 2 ^ Z.of_nat n -> Z.of_nat n <= k -> Z.testbit v k = false.
Proof.
  intros Hv Hk. rewrite <- (bitsZ_testbits v n Hv), testbit_bitsZ by lia.
  apply nth_overflow. unfold bits_from. rewrite length_map, length_zrange. lia.
Qed.

(** A coordinate equals the bits the decode computes for it. *)
Ltac field_bits v n :=
  transitivity (bitsZ (bits_from v 0 n)); [|by apply bitsZ_testbits];
  f_equal; cbv -[xorb Z.testbit];
  repeat (apply (f_equal2 cons); [first [reflexivity | btauto]|]); done.

(** C38. On the 34-bit controller window at 0x800000000 the SM8975 decode is a
    bijection: every address yields coordinates within their bit widths, encoding
    those coordinates gives the address back, and every tuple of coordinates within
    the widths is the decode of exactly the address it encodes to. *)
Theorem DecodeDramAddress_bijective :
  (forall n, 0 <= n < 2 ^ 34 ->
     exists d, DecodeDramAddress DRAM_ADDRESS_MAP_SM8975_LP6 (0x800000000 + n)
                 (Some (mkDramAddress 0 0 0 0 0 0 0 0)) = (true, Some d) /\
               dram_ok d /\ encode d = n) /\
  (forall d, dram_ok d ->
     0 <= encode d < 2 ^ 34 /\
     DecodeDramAddress DRAM_ADDRESS_MAP_SM8975_LP6 (0x800000000 + encode d)
       (Some (mkDramAddress 0 0 0 0 0 0 0 0)) = (true, Some d)).
Proof.
  split.
  - intros n Hn. destruct (encode_decode_bits n Hn) as (d & Hd & Hok & Hb).
    exists d. split_and!; [exact Hd|exact Hok|]. unfold encode. rewrite Hb.
    apply bitsZ_testbits, Hn.
  - intros d Hok. assert (Hb : 0 <= encode d < 2 ^ 34) by apply bitsZ_bound.
    split; [exact Hb|]. rewrite DecodeDram_bits, Normalize_window by done.
    unfold encode, bits_from. cbn [zrange map]. rewrite !testbit_bitsZ by lia.
    destruct d as [ch rk sc bg bk rw cl bo]. unfold dram_ok in Hok. cbn in Hok.
    destruct Hok as (Hch & Hrk & Hsc & -> & Hbk & Hrw & Hcl & Hbo).
    do 2 f_equal. f_equal;
      [ field_bits ch 2%nat | field_bits rk 1%nat | field_bits sc 1%nat
      | field_bits bk 4%nat | field_bits rw 15%nat | field_bits cl 6%nat
      | field_bits bo 5%nat ].
Qed.

(** The coordinates of a raw address and their ranges. *)
Lemma decode_ranges raw t0 :
  exists t, DecodeSm8975Address raw (Some t0) = (true, Some t) /\
    0 <= channel t < 4 /\ 0 <= chip_select t < 2 /\ 0 <= subchannel t < 2 /\
    0 <= bank t < 16 /\ 0 <= row t < 0x8000 /\ 0 <= column t < 64 /\
    0 <= normalized_address t < 2 ^ 36 /\ 0 <= mat t < 24 /\
    (forall k r, kRanges !! k = Some r ->
       in_range (row t) r = true <-> mat t = Z.of_nat k).
Proof.
  rewrite Decode_bits. eexists. split; [reflexivity|].
  cbn [channel chip_select subchannel bank row mat column normalized_address].
  set (d := NormalizeSm8975Address raw).
  assert (Hrow : 0 <= bitsZ (bits_from d 18 15) < 0x8000)
    by apply (bitsZ_bound (bits_from d 18 15)).
  pose proof (mat_bound _ Hrow). pose proof (Normalize_bound raw).
  repeat (split; [first [done | apply bitsZ_bound]|]).
  destruct (mat_in_range _ Hrow) as (k & r & Hk & Hin & Hm & Hu).
  intros k' r' Hk'. split.
  - intros Hin'. rewrite Hm, (Hu _ _ Hk' Hin'). done.
  - intros He. assert (k' = k) as -> by lia. congruence.
Qed.

(** Every raw address decodes to coordinates within their bit widths, and the
    MAT of the decoded row is always known: it is the index of the only range of the
    MAT table that contains the row. *)
Theorem DecodeSm8975Address_bounds raw t0 :
  exists t, DecodeSm8975Address raw (Some t0) = (true, Some t) /\
    0 <= channel t < 4 /\ 0 <= chip_select t < 2 /\ 0 <= subchannel t < 2 /\
    0 <= bank t < 16 /\ 0 <= row t < 0x8000 /\ 0 <= column t < 64 /\
    0 <= normalized_address t < 2 ^ 36 /\ 0 <= mat t < 24 /\
    (forall k r, kRanges !! k = Some r ->
       in_range (row t) r = true <-> mat t = Z.of_nat k).
Proof. apply decode_ranges. Qed.

(** Coordinate of a data bit when it has one. *)
Definition coordinate (data_bit : Z) : option (Z * Z * Z) :=
  match Sm8975DataBitToCoordinate data_bit (Some 0) (Some 0) (Some (-1)) with
  | (true, (Some d, Some b, Some h)) => Some (d, b, h)
  | _ => None
  end.

Lemma coordinate_Some x d b h :
  coordinate x = Some (d, b, h) ->
  Sm8975DataBitToCoordinate x (Some 0) (Some 0) (Some (-1)) =
    (true, (Some d, Some b, Some h)).
Proof.
  unfold coordinate. generalize (Sm8975DataBitToCoordinate x (Some 0) (Some 0) (Some (-1))).
  intros [[|] [[[d'|] [b'|]] [h'|]]]; congruence.
Qed.

Definition coordinate_good (data_bit : Z) : bool :=
  match coordinate data_bit with
  | Some (d, b, h) =>
      (0 <=? d) && (d <? 12) && (0 <=? b) && (b <? 24) && negb (hole (b / 4) d) &&
      (h =? data_bit / 8)
  | None => false
  end.

(** The data bit of a cell of the 12 x 24 packet grid, by counting cells that are
    not holes before it. *)
Definition cell_bit (d b : Z) : Z :=
  if b / 4 <? 2 then (b / 4 * 12 + d) * 4 + b mod 4
  else if b / 4 =? 2 then (24 + (if d <? 6 then d else d - 2)) * 4 + b mod 4
  else if b / 4 <? 5 then (32 + (b / 4 - 3) * 12 + d) * 4 + b mod 4
  else (56 + (if d <? 6 then d else d - 2)) * 4 + b mod 4.

Definition cell_good (b d : Z) : bool :=
  hole (b / 4) d ||
  match coordinate (cell_bit d b) with
  | Some (d', b', _) => (d' =? d) && (b' =? b) && (0 <=? cell_bit d b) && (cell_bit d b <? 256)
  | None => false
  end.

Definition bit_good (data_bit : Z) : bool :=
  match coordinate data_bit with
  | Some (d, b, _) => cell_bit d b =? data_bit
  | None => false
  end.

Lemma coordinates_checked :
  forallbZ 0 256 (fun x => coordinate_good x && bit_good x) = true /\
  forallbZ 0 24 (fun b => forallbZ 0 12 (cell_good b)) = true.
Proof. split; vm_compute; reflexivity. Qed.

(** The packet mapping is a bijection between the 256 user-data bits and the
    cells of the 12 x 24 DQ/BL grid that are not holes, and the HEX region of a data
    bit is its byte number. *)
Theorem DataBitToCoordinate_bijective :
  (forall x, 0 <= x < 256 ->
     exists d b, Sm8975DataBitToCoordinate x (Some 0) (Some 0) (Some (-1)) =
                   (true, (Some d, Some b, Some (x / 8))) /\
       0 <= d < 12 /\ 0 <= b < 24 /\ hole (b / 4) d = false /\ cell_bit d b = x) /\
  (forall d b, 0 <= d < 12 -> 0 <= b < 24 -> hole (b / 4) d = false ->
     0 <= cell_bit d b < 256 /\
     exists h, Sm8975DataBitToCoordinate (cell_bit d b) (Some 0) (Some 0) (Some (-1)) =
                 (true, (Some d, Some b, Some h))).
Proof.
  destruct coordinates_checked as [Hx Hc]. split.
  - intros x H. pose proof (forallbZ_spec _ _ _ Hx x H) as Hg.
    apply andb_true_iff in Hg as [Hg Hb].
    unfold coordinate_good, bit_good in Hg, Hb.
    destruct (coordinate x) as [[[d b] h]|] eqn:E; [|discriminate].
    bool_to_prop. apply coordinate_Some in E. subst. eauto 10 with lia.
  - intros d b Hd Hb Hh. pose proof (forallbZ_spec _ _ _ Hc b Hb) as Hg.
    apply (forallbZ_spec _ _ _) with (x := d) in Hg; [|exact Hd].
    unfold cell_good in Hg. rewrite Hh in Hg.
    destruct (coordinate (cell_bit d b)) as [[[d' b'] h]|] eqn:E; [|discriminate].
    cbn [orb] in Hg. bool_to_prop. apply coordinate_Some in E. subst. eauto with lia.
Qed.

Lemma coordinate_total x : 0 <= x < 256 -> is_Some (coordinate x).
Proof.
  intros H. destruct coordinates_checked as [Hx _].
  pose proof (forallbZ_spec _ _ _ Hx x H) as Hg. apply andb_true_iff in Hg as [Hg _].
  unfold coordinate_good in Hg. destruct (coordinate x); [done|discriminate].
Qed.

(** The filled slots of a mapping, in order. *)
Definition entries (m : Sm8975MismatchMapping) : list (Z * Z * Z) :=
  map (fun i => (aget 0 (dq m) i, aget 0 (bl m) i, aget 0 (hex m) i))
    (zrange 0 (Z.to_nat (count m))).

Definition mapping_ok (m : Sm8975MismatchMapping) : Prop :=
  length (dq m) = 64%nat /\ length (bl m) = 64%nat /\ length (hex m) = 64%nat /\
  0 <= count m <= 64.

(** Filling the next slot, as both loops do. *)
Definition push (m : Sm8975MismatchMapping) (c : Z * Z * Z) : Sm8975MismatchMapping :=
  let '(d, b, h) := c in
  {| count := count m + 1; dq := aset (dq m) (count m) d;
     bl := aset (bl m) (count m) b; hex := aset (hex m) (count m) h |}.

Lemma push_ok m c : mapping_ok m -> count m < 64 -> mapping_ok (push m c).
Proof.
  destruct c as [[d b] h]. unfold mapping_ok, push. cbn [dq bl hex count].
  rewrite !length_aset. intuition lia.
Qed.

Lemma entries_push m c :
  mapping_ok m -> count m < 64 -> entries (push m c) = entries m ++ [c].
Proof.
  destruct c as [[d b] h]. intros (Hd & Hb & Hh & Hc) Hlt. unfold entries, push.
  cbn [dq bl hex count]. replace (Z.to_nat (count m + 1)) with (S (Z.to_nat (count m))) by lia.
  rewrite zrange_S_r, map_app. f_equal.
  - apply map_ext_in. intros i Hi. apply list_elem_of_In, elem_of_zrange in Hi.
    by rewrite !aget_aset_ne by lia.
  - cbn [map]. replace (0 + Z.of_nat (Z.to_nat (count m))) with (count m) by lia.
    by rewrite !aget_aset_eq by lia.
Qed.

Lemma length_entries m : mapping_ok m -> Z.of_nat (length (entries m)) = count m.
Proof. intros (_ & _ & _ & Hc). unfold entries. rewrite length_map, length_zrange. lia. Qed.

(** Positions, from 0, at which two words of [n] bits differ. *)
Definition mismatch_from (expected actual s : Z) (n : nat) : list Z :=
  List.filter (fun k => xorb (Z.testbit expected k) (Z.testbit actual k)) (zrange s n).

Definition mismatch_bits (expected actual : Z) (n : nat) : list Z :=
  mismatch_from expected actual 0 n.

Definition word_coordinates (base expected actual : Z) (n : nat) : list (Z * Z * Z) :=
  omap (fun k => coordinate (base + k)) (mismatch_bits expected actual n).

Lemma word_coordinates_S base e a n :
  word_coordinates base e a (S n) =
  word_coordinates base e a n ++
  (if xorb (Z.testbit e (Z.of_nat n)) (Z.testbit a (Z.of_nat n))
   then option_list (coordinate (base + Z.of_nat n)) else []).
Proof.
  unfold word_coordinates, mismatch_bits, mismatch_from. rewrite zrange_S_r, List.filter_app, omap_app.
  f_equal. cbn [List.filter Z.add]. destruct (xorb _ _); [|done].
  cbn [omap list_omap]. by destruct (coordinate _).
Qed.

Lemma length_word_coordinates base e a n :
  (length (word_coordinates base e a n) <= n)%nat.
Proof.
  unfold word_coordinates. etransitivity; [apply length_omap_le|].
  unfold mismatch_bits, mismatch_from. rewrite <- (length_zrange 0 n) at 2. apply filter_length_le.
Qed.

Lemma word32_loop wi e a m n :
  0 <= wi < 8 -> (n <= 32)%nat -> mapping_ok m -> count m = 0 ->
  exists m', fold_left (word32_step wi e a) (zrange 0 n) (false, m) = (false, m') /\
    mapping_ok m' /\ entries m' = word_coordinates (wi * 32) e a n.
Proof.
  intros Hwi Hn Hok Hc. induction n as [|n IH].
  - exists m. split_and!; [done|done|]. unfold entries. by rewrite Hc.
  - destruct IH as (m' & Hf & Hok' & He); [lia|].
    rewrite zrange_S_r, fold_left_app, Hf, word_coordinates_S. cbn [fold_left].
    unfold word32_step. rewrite Z.add_0_l, !land1_b2z by lia.
    assert (Hlt : count m' < 64).
    { rewrite <- length_entries by done. rewrite He.
      pose proof (length_word_coordinates (wi * 32) e a n). lia. }
    destruct (coordinate_total (wi * 32 + Z.of_nat n)) as [[[d b] h] Hco]; [lia|].
    rewrite (coordinate_Some _ _ _ _ Hco), Hco.
    destruct (Z.testbit e _), (Z.testbit a _); cbn [Z.b2z Z.eqb xorb Pos.eqb];
      try (exists m'; rewrite app_nil_r; done).
    all: rewrite (proj2 (Z.leb_gt _ _)) by lia; exists (push m' (d, b, h)).
    all: split_and!; [done|by apply push_ok|by rewrite entries_push, He by done].
Qed.

Lemma reset_count_ok m : mapping_ok m -> mapping_ok (reset_count m).
Proof. unfold mapping_ok, reset_count. cbn. lia. Qed.

Lemma zero_mapping_ok : mapping_ok zero_mapping.
Proof. unfold mapping_ok, zero_mapping. cbn [dq bl hex count]. rewrite length_replicate. lia. Qed.

Lemma mismatch_bits_refl v n : mismatch_bits v v n = [].
Proof.
  unfold mismatch_bits, mismatch_from. induction (zrange 0 n) as [|k l IH]; [done|].
  cbn. by rewrite xorb_nilpotent.
Qed.

Lemma MapWord32_spec address e a m :
  0 <= address -> mapping_ok m ->
  exists m', MapSm8975MismatchWord32 address e a (Some m) = Some m' /\
    mapping_ok m' /\
    entries m' = word_coordinates (address mod 32 / 4 * 32) e a 32.
Proof.
  intros Ha Hok. unfold MapSm8975MismatchWord32. pose proof (reset_count_ok m Hok) as Hr.
  destruct (Z.eqb_spec e a) as [->|Hne].
  - eexists. split_and!; [done|done|]. unfold word_coordinates.
    by rewrite mismatch_bits_refl.
  - replace (address - (address - address mod 32)) with (address mod 32) by lia.
    assert (0 <= address mod 32 / 4 < 8).
    { pose proof (Z.mod_pos_bound address 32). split; [apply Z.div_pos; lia|].
      apply Z.div_lt_upper_bound; lia. }
    rewrite (u32_id (address mod 32 / 4)) by lia.
    destruct (word32_loop (address mod 32 / 4) e a (reset_count m) 32)
      as (m' & Hf & Hok' & He); [done|lia|done|done|].
    rewrite Hf. eauto.
Qed.

Lemma append_loop half m n :
  mapping_ok half -> Z.of_nat n <= count half ->
  mapping_ok m -> count m + Z.of_nat n <= 64 ->
  exists m', fold_left (append_step half) (zrange 0 n) (false, m) = (false, m') /\
    mapping_ok m' /\ count m' = count m + Z.of_nat n /\
    entries m' = entries m ++ take n (entries half).
Proof.
  intros Hh Hn Hm Hle. induction n as [|n IH].
  - exists m. rewrite app_nil_r, Z.add_0_r. done.
  - destruct IH as (m' & Hf & Hok & Hc & He); [lia|lia|].
    rewrite zrange_S_r, fold_left_app, Hf. cbn [fold_left]. unfold append_step.
    rewrite (proj2 (Z.leb_gt _ _)) by lia.
    set (c := (aget 0 (dq half) (0 + Z.of_nat n), aget 0 (bl half) (0 + Z.of_nat n),
               aget 0 (hex half) (0 + Z.of_nat n))).
    exists (push m' c). split_and!; [done|apply push_ok; [done|lia]|cbn; lia|].
    rewrite entries_push, He by (done || lia). rewrite <- app_assoc. f_equal.
    symmetry. apply take_S_r. unfold entries. rewrite list_lookup_fmap.
    by rewrite zrange_lookup by lia.
Qed.

(** The positions where two words differ among [n] bits from bit [s]. *)
Lemma word_coordinates_shift base e a e' a' s n :
  (forall k, 0 <= k < Z.of_nat n -> Z.testbit e' k = Z.testbit e (s + k)) ->
  (forall k, 0 <= k < Z.of_nat n -> Z.testbit a' k = Z.testbit a (s + k)) ->
  word_coordinates base e' a' n =
  omap (fun k => coordinate (base - s + k)) (mismatch_from e a s n).
Proof.
  intros He Ha. unfold mismatch_from. induction n as [|n IH]; [done|].
  rewrite word_coordinates_S, zrange_S_r, List.filter_app, omap_app.
  rewrite IH by (intros; first [apply He | apply Ha]; lia). f_equal.
  cbn [List.filter]. rewrite He, Ha by lia. destruct (xorb _ _); [|done].
  cbn [omap list_omap]. replace (base - s + (s + Z.of_nat n)) with (base + Z.of_nat n) by lia.
  by destruct (coordinate _).
Qed.

Lemma half_word v s : 0 <= s -> u32 (Z.land (Z.shiftr v s) 0xFFFFFFFF) = (v / 2 ^ s) mod 2 ^ 32.
Proof.
  intros Hs. change 0xFFFFFFFF with (Z.ones 32). rewrite Z.land_ones by lia.
  rewrite Z.shiftr_div_pow2 by lia. apply u32_id, Z.mod_pos_bound. lia.
Qed.

Lemma half_word_bit v s k :
  0 <= s -> 0 <= k < 32 -> Z.testbit ((v / 2 ^ s) mod 2 ^ 32) k = Z.testbit v (s + k).
Proof.
  intros Hs Hk. rewrite Z.mod_pow2_bits_low by lia. rewrite Z.div_pow2_bits by lia.
  f_equal. lia.
Qed.

Lemma half_step_spec base e a m half :
  0 <= half < 2 -> 0 <= base -> base mod 8 = 0 -> base < 2 ^ 64 ->
  mapping_ok m -> count m <= 32 * half ->
  exists m', half_step base e a (false, m) half = (false, m') /\ mapping_ok m' /\
    count m' <= 32 * (half + 1) /\
    entries m' = entries m ++
      omap (fun k => coordinate (base mod 32 * 8 + k))
        (mismatch_from e a (half * 32) 32).
Proof.
  intros Hh Hb0 Hb8 Hb Hok Hc. unfold half_step. rewrite !half_word by lia.
  assert (Hwc : forall bs, word_coordinates bs ((e / 2 ^ (half * 32)) mod 2 ^ 32)
      ((a / 2 ^ (half * 32)) mod 2 ^ 32) 32 =
      omap (fun k => coordinate (bs - half * 32 + k))
        (mismatch_from e a (half * 32) 32)).
  { intros bs. apply word_coordinates_shift; intros k Hk; apply half_word_bit; lia. }
  assert (Haddr : (base + half * 4) mod 32 / 4 * 32 - half * 32 = base mod 32 * 8).
  { assert (half = 0 \/ half = 1) as [-> | ->] by lia; Z.div_mod_to_equations; lia. }
  destruct (Z.eqb_spec ((e / 2 ^ (half * 32)) mod 2 ^ 32) ((a / 2 ^ (half * 32)) mod 2 ^ 32))
    as [Heq|Hne].
  - exists m. split_and!; [done|done|lia|]. specialize (Hwc (base mod 32 * 8 + half * 32)).
    replace (base mod 32 * 8 + half * 32 - half * 32) with (base mod 32 * 8) in Hwc by lia.
    rewrite <- Hwc, Heq. unfold word_coordinates. by rewrite mismatch_bits_refl, app_nil_r.
  - assert (base + half * 4 < 2 ^ 64) by (Z.div_mod_to_equations; lia).
    rewrite (u64_id (base + half * 4)) by lia.
    destruct (MapWord32_spec (base + half * 4) ((e / 2 ^ (half * 32)) mod 2 ^ 32)
      ((a / 2 ^ (half * 32)) mod 2 ^ 32) zero_mapping) as (hm & -> & Hhm & Hent);
      [lia|apply zero_mapping_ok|].
    assert (Hcnt : count hm <= 32).
    { rewrite <- length_entries, Hent by done.
      pose proof (length_word_coordinates ((base + half * 4) mod 32 / 4 * 32)
        ((e / 2 ^ (half * 32)) mod 2 ^ 32) ((a / 2 ^ (half * 32)) mod 2 ^ 32) 32). lia. }
    destruct (append_loop hm m (Z.to_nat (count hm))) as (m' & Hf & Hok' & Hc' & He');
      [done|destruct Hhm; lia|done|destruct Hhm; lia|].
    rewrite Hf. exists m'. destruct Hhm as (H1 & H2 & H3 & H4).
    split_and!; [done|done|lia|]. rewrite He'. f_equal.
    rewrite take_ge by (unfold entries; rewrite length_map, length_zrange; lia).
    rewrite Hent, Hwc, Haddr. done.
Qed.

Lemma mismatch_from_app e a s n m :
  mismatch_from e a s (n + m) =
  mismatch_from e a s n ++ mismatch_from e a (s + Z.of_nat n) m.
Proof. unfold mismatch_from. rewrite zrange_app. apply List.filter_app. Qed.

Lemma entries_reset m : entries (reset_count m) = [].
Proof. done. Qed.

(** [physical_address & ~7] clears the low three bits. *)
Lemma land_clear3 pa :
  0 <= pa < 2 ^ 64 -> Z.land pa (Z.shiftl (Z.ones 61) 3) = pa / 2 ^ 3 * 2 ^ 3.
Proof.
  intros Hpa. rewrite <- Z.shiftr_div_pow2, <- Z.shiftl_mul_pow2 by lia.
  apply Z.bits_inj'. intros i Hi. rewrite Z.land_spec, !Z.shiftl_spec by lia.
  destruct (Z.ltb_spec i 3).
  - rewrite !(Z.testbit_neg_r _ (i - 3)) by lia. btauto.
  - rewrite Z.shiftr_spec, Z.testbit_ones_nonneg by lia.
    replace (i - 3 + 3) with i by lia. destruct (Z.ltb_spec (i - 3) 61); [btauto|].
    rewrite (testbit_small pa 64); [done|exact Hpa|]. change (Z.of_nat 64) with 64. lia.
Qed.

Lemma land_not7 pa : 0 <= pa < 2 ^ 64 -> Z.land pa (2 ^ 64 - 1 - 7) = pa / 8 * 8.
Proof.
  intros H. assert (2 ^ 64 - 1 - 7 = Z.shiftl (Z.ones 61) 3) as -> by (vm_compute; done).
  rewrite land_clear3 by done. done.
Qed.

Lemma word_base_aligned pa :
  0 <= pa < 2 ^ 64 ->
  0 <= Z.land pa (2 ^ 64 - 1 - 7) < 2 ^ 64 /\ Z.land pa (2 ^ 64 - 1 - 7) mod 8 = 0 /\
  0 <= Z.land pa (2 ^ 64 - 1 - 7) mod 32 <= 24.
Proof.
  intros Hpa. rewrite land_not7 by exact Hpa. split_and!; Z.div_mod_to_equations; lia.
Qed.

Lemma elem_of_mismatch_bits e a n k : k ∈ mismatch_bits e a n -> 0 <= k < Z.of_nat n.
Proof.
  unfold mismatch_bits, mismatch_from. intros Hk. apply list_elem_of_In, filter_In in Hk as [Hk _].
  apply list_elem_of_In, elem_of_zrange in Hk. lia.
Qed.

Lemma length_word_bits base e a n :
  0 <= base -> base + Z.of_nat n <= 256 ->
  length (omap (fun k => coordinate (base + k)) (mismatch_bits e a n)) =
  length (mismatch_bits e a n).
Proof.
  intros Hb Hn. apply omap_length_total, Forall_forall. intros k Hk.
  apply coordinate_total. apply elem_of_mismatch_bits in Hk. lia.
Qed.

Lemma half_steps_2 base e a st :
  fold_left (half_step base e a) (zrange 0 2) st =
  half_step base e a (half_step base e a st 0) 1.
Proof. done. Qed.

#[local] Opaque coordinate mismatch_from.

(** C39. A 64-bit miscompare is mapped completely and in order: the filled slots of
    the result are exactly the DQ/BL/HEX coordinates of the differing bits, lowest
    bit first, no differing bit is dropped by the 64-slot limit, and [count] is the
    number of differing bits. *)
Theorem MapSm8975MismatchBits_complete pa expected actual m :
  0 <= pa < 2 ^ 64 -> mapping_ok m ->
  exists m', MapSm8975MismatchBits pa expected actual (Some m) = Some m' /\
    mapping_ok m' /\
    count m' = Z.of_nat (length (mismatch_bits expected actual 64)) /\
    entries m' = omap (fun k => coordinate (Z.land pa (2 ^ 64 - 1 - 7) mod 32 * 8 + k))
                   (mismatch_bits expected actual 64).
Proof.
  intros Hpa Hok. unfold MapSm8975MismatchBits.
  destruct (word_base_aligned pa Hpa) as (Hb0 & Hb8 & Hb24).
  set (base := Z.land pa (2 ^ 64 - 1 - 7)) in *. clearbody base.
  rewrite half_steps_2.
  destruct (half_step_spec base expected actual (reset_count m) 0)
    as (m1 & -> & Hok1 & Hc1 & He1); [lia..|by apply reset_count_ok|cbn; lia|].
  destruct (half_step_spec base expected actual m1 1)
    as (m2 & -> & Hok2 & Hc2 & He2); [lia..|done|lia|].
  assert (Hent : entries m2 = omap (fun k => coordinate (base mod 32 * 8 + k))
                   (mismatch_bits expected actual 64)).
  { rewrite He2, He1, entries_reset, app_nil_l. unfold mismatch_bits.
    change 64%nat with (32 + 32)%nat. rewrite mismatch_from_app, omap_app.
    change (0 + Z.of_nat 32) with (1 * 32). change (0 * 32) with 0. reflexivity. }
  exists m2. split_and!; [done|done| |done].
  rewrite <- length_entries, Hent by done. f_equal. apply length_word_bits; lia.
Qed.

(** A miscompare in data bits 5, 6 and 11 of the first packet. *)
Lemma MapSm8975MismatchBits_complete_witness :
  0 <= 0x80000000 < 2 ^ 64 /\ mapping_ok zero_mapping /\
  exists m', MapSm8975MismatchBits 0x80000000 0x860 0 (Some zero_mapping) = Some m' /\
    mapping_ok m' /\
    count m' = Z.of_nat (length (mismatch_bits 0x860 0 64)) /\
    entries m' = omap (fun k => coordinate (Z.land 0x80000000 (2 ^ 64 - 1 - 7) mod 32 * 8 + k))
                   (mismatch_bits 0x860 0 64).
Proof.
  split; [lia|]. split; [apply zero_mapping_ok|].
  apply (MapSm8975MismatchBits_complete 0x80000000 0x860 0 zero_mapping);
    [lia | apply zero_mapping_ok].
Defined.

End Sm8975Facts.
