(* ===== verification/Adler.v ===== *)
(** The modified Adler checksum and the copy routines that compute it:
    [src/src/adler32memcpy.h] and [src/src/adler32memcpy.cc].

    Memory is a list of 64-bit words.  The source and the destination of a copy
    do not overlap.  Loops carry fuel and return [None] when it runs out. *)

From S2P Require Import Prelude.

Module Adler.
Local Open Scope word_scope.

Record AdlerChecksum := mkChecksum { a1_ : Z; a2_ : Z; b1_ : Z; b2_ : Z }.

#[export] Instance checksum_eq_dec : EqDecision AdlerChecksum.
Proof. solve_decision. Defined.

Definition Equals (c other : AdlerChecksum) : bool :=
  (a1_ c =? a1_ other) && (a2_ c =? a2_ other) &&
  (b1_ c =? b1_ other) && (b2_ c =? b2_ other).

Definition Set_ (a1 a2 b1 b2 : Z) : AdlerChecksum := mkChecksum a1 a2 b1 b2.

(** One [data.l64 = ...] access: both halves are added to [a], and [a] to [b]
    after each half. *)
Definition add_word (w : Z) (ab : Z * Z) : Z * Z :=
  let '(a, b) := ab in
  let a := a +64 l32_l w in
  let b := b +64 a in
  let a := a +64 l32_h w in
  let b := b +64 a in
  (a, b).

(** The [while (i < count)] loop of [CalculateAdlerChecksum]. *)
Fixpoint checksum_loop (fuel : nat) (data64 : list Z) (count i : Z)
    (s1 s2 : Z * Z) : option ((Z * Z) * (Z * Z)) :=
  match fuel with
  | O => None
  | S fuel' =>
      if i <? count then
        let s1 := add_word (aget 0 data64 i) s1 in
        let i := i + 1 in
        let s2 := add_word (aget 0 data64 i) s2 in
        let i := i + 1 in
        checksum_loop fuel' data64 count i s1 s2
      else Some (s1, s2)
  end.

(** The loop of the copying variants, which also stores every word read. *)
Fixpoint memcpy_loop (fuel : nat) (dstmem64 srcmem64 : list Z) (count i : Z)
    (s1 s2 : Z * Z) : option (list Z * ((Z * Z) * (Z * Z))) :=
  match fuel with
  | O => None
  | S fuel' =>
      if i <? count then
        let w := aget 0 srcmem64 i in
        let s1 := add_word w s1 in
        let dstmem64 := aset dstmem64 i w in
        let i := i + 1 in
        let w := aget 0 srcmem64 i in
        let s2 := add_word w s2 in
        let dstmem64 := aset dstmem64 i w in
        let i := i + 1 in
        memcpy_loop fuel' dstmem64 srcmem64 count i s1 s2
      else Some (dstmem64, (s1, s2))
  end.

Definition loop_fuel (count : Z) : nat := S (Z.to_nat count).

(** [None]: [return false], the size is too large; the checksum is not set.
    [size_in_bytes] is an [unsigned int]. *)
Definition CalculateAdlerChecksum (data64 : list Z) (size_in_bytes : Z)
  : option AdlerChecksum :=
  let count := size_in_bytes / 8 in
  if Z.shiftl 1 19 <? count then None
  else match checksum_loop (loop_fuel count) data64 count 0 (1, 0) (1, 0) with
       | Some ((a1, b1), (a2, b2)) => Some (Set_ a1 a2 b1 b2)
       | None => None
       end.

Definition AdlerMemcpyC (dstmem64 srcmem64 : list Z) (size_in_bytes : Z)
  : option (list Z * AdlerChecksum) :=
  let count := size_in_bytes / 8 in
  if Z.shiftl 1 19 <? count then None
  else match memcpy_loop (loop_fuel count) dstmem64 srcmem64 count 0 (1, 0) (1, 0) with
       | Some (dst, ((a1, b1), (a2, b2))) => Some (dst, Set_ a1 a2 b1 b2)
       | None => None
       end.

(** The floating point operations between the accesses only feed a [printf]; the
    memory and checksum effects are those of the loop above. *)
Definition AdlerMemcpyWarmC (dstmem64 srcmem64 : list Z) (size_in_bytes : Z)
  : option (list Z * AdlerChecksum) :=
  let count := size_in_bytes / 8 in
  if Z.shiftl 1 19 <? count then None
  else match memcpy_loop (loop_fuel count) dstmem64 srcmem64 count 0 (1, 0) (1, 0) with
       | Some (dst, ((a1, b1), (a2, b2))) => Some (dst, Set_ a1 a2 b1 b2)
       | None => None
       end.

(** *** [AdlerMemcpyAsm], AArch64

    A 128-bit register is a pair of 64-bit lanes. *)
Definition vec : Type := Z * Z.
Definition vadd (x y : vec) : vec := (x.1 +64 y.1, x.2 +64 y.2).

(** [trn1 d.4s, n.4s, zero.4s] keeps the even 32-bit elements of [n], and
    [trn2 d.4s, n.4s, zero.4s] the odd ones, each zero-extended to a lane. *)
Definition trn1_zero (n : vec) : vec := (l32_l n.1, l32_l n.2).
Definition trn2_zero (n : vec) : vec := (l32_h n.1, l32_h n.2).

(** [add v0, v0, x; add v1, v1, v0]. *)
Definition vsum (x : vec) (v : vec * vec) : vec * vec :=
  let v0 := vadd v.1 x in (v0, vadd v.2 v0).

(** [ld1]/[st1] of one register at 64-bit word index [i]. *)
Definition ld1 (mem : list Z) (i : Z) : vec := (aget 0 mem i, aget 0 mem (i + 1)).
Definition st1 (mem : list Z) (i : Z) (v : vec) : list Z := aset (aset mem i v.1) (i + 1) v.2.

(** One pass through [TOP:], 64 bytes. *)
Definition neon_block (srcmem64 : list Z) (i : Z) (dst : list Z) (v : vec * vec)
  : list Z * (vec * vec) :=
  let v8 := ld1 srcmem64 i in
  let v9 := ld1 srcmem64 (i + 2) in
  let v10 := ld1 srcmem64 (i + 4) in
  let v11 := ld1 srcmem64 (i + 6) in
  let dst := st1 dst i v8 in
  let dst := st1 dst (i + 2) v9 in
  let dst := st1 dst (i + 4) v10 in
  let dst := st1 dst (i + 6) v11 in
  let v12 := trn1_zero v8 in let v8 := trn2_zero v8 in
  let v13 := trn1_zero v9 in let v9 := trn2_zero v9 in
  let v14 := trn1_zero v10 in let v10 := trn2_zero v10 in
  let v15 := trn1_zero v11 in let v11 := trn2_zero v11 in
  let v := vsum v12 v in let v := vsum v8 v in
  let v := vsum v13 v in let v := vsum v9 v in
  let v := vsum v14 v in let v := vsum v10 v in
  let v := vsum v15 v in let v := vsum v11 v in
  (dst, v).

Fixpoint neon_loop (blocks : nat) (srcmem64 : list Z) (i : Z) (dst : list Z)
    (v : vec * vec) : list Z * (vec * vec) :=
  match blocks with
  | O => (dst, v)
  | S blocks' =>
      let '(dst, v) := neon_block srcmem64 i dst v in
      neon_loop blocks' srcmem64 (i + 8) dst v
  end.

(** [v0]/[v1] hold [regs] on entry: when no 64-byte block is present the code jumps
    to [END:] before initialising them and stores what they held. *)
Definition AdlerMemcpyAsm_aarch64 (regs : vec * vec) (dstmem64 srcmem64 : list Z)
    (size_in_bytes : Z) : option (list Z * AdlerChecksum) :=
  if 0 <? Z.shiftr size_in_bytes 19 then None
  else
    let blocks := size_in_bytes / 64 in
    let '(dst, (v0, v1)) :=
      if blocks <=? 0 then (dstmem64, regs)
      else neon_loop (Z.to_nat blocks) srcmem64 0 dstmem64 ((1, 1), (0, 0)) in
    Some (dst, Set_ v0.1 v0.2 v1.1 v1.2).

(** *** [AdlerMemcpyAsm], x86_64

    [andps] with the mask of [checksum_arr[4..5]] keeps the low half of each lane.
    [movdqu 4(rSI)] reads the four 32-bit words starting one word later. *)
Definition andps_mask (x : vec) : vec := (l32_l x.1, l32_l x.2).

Definition movdqu4 (mem : list Z) (i : Z) : vec :=
  (l64 (l32_h (aget 0 mem i)) (l32_l (aget 0 mem (i + 1))),
   l64 (l32_h (aget 0 mem (i + 1))) (l32_l (aget 0 mem (i + 2)))).

(** [pshufd $0x39]: rotate the four 32-bit words down by one. *)
Definition pshufd_39 (x : vec) : vec :=
  (l64 (l32_h x.1) (l32_l x.2), l64 (l32_h x.2) (l32_l x.1)).

(** One pass through [TOP:], 48 bytes; [v] holds XMM6 and XMM7. *)
Definition sse_block (srcmem64 : list Z) (i : Z) (dst : list Z) (v : vec * vec)
  : list Z * (vec * vec) :=
  let xmm0 := ld1 srcmem64 i in
  let xmm1 := movdqu4 srcmem64 i in
  let xmm2 := ld1 srcmem64 (i + 2) in
  let xmm3 := movdqu4 srcmem64 (i + 2) in
  let xmm4 := ld1 srcmem64 (i + 4) in
  let xmm5 := movdqu4 srcmem64 (i + 4) in
  let dst := st1 dst i xmm0 in
  let dst := st1 dst (i + 2) xmm2 in
  let dst := st1 dst (i + 4) xmm4 in
  let v := vsum (andps_mask xmm0) v in let v := vsum (andps_mask xmm1) v in
  let v := vsum (andps_mask xmm2) v in let v := vsum (andps_mask xmm3) v in
  let v := vsum (andps_mask xmm4) v in let v := vsum (andps_mask xmm5) v in
  (dst, v).

Fixpoint sse_loop (units : nat) (srcmem64 : list Z) (i : Z) (dst : list Z)
    (v : vec * vec) : list Z * (vec * vec) :=
  match units with
  | O => (dst, v)
  | S units' =>
      let '(dst, v) := sse_block srcmem64 i dst v in
      sse_loop units' srcmem64 (i + 6) dst v
  end.

(** [REM_IS_STILL_NOT_ZERO:], four 32-bit words at a time while [rDX] >= 4. *)
Fixpoint sse_rem_loop (quads : nat) (srcmem64 : list Z) (i : Z) (dst : list Z)
    (v : vec * vec) : list Z * (vec * vec) :=
  match quads with
  | O => (dst, v)
  | S quads' =>
      let xmm0 := ld1 srcmem64 i in
      let xmm1 := pshufd_39 (ld1 srcmem64 i) in
      let dst := st1 dst i xmm0 in
      let v := vsum (andps_mask xmm0) v in
      let v := vsum (andps_mask xmm1) v in
      sse_rem_loop quads' srcmem64 (i + 2) dst v
  end.

(** [jz END] skips the remainder loop and the initialisation of XMM6/XMM7, which
    hold [regs] on entry. *)
Definition AdlerMemcpyAsm_x86_64 (regs : vec * vec) (dstmem64 srcmem64 : list Z)
    (size_in_bytes : Z) : option (list Z * AdlerChecksum) :=
  if 0 <? Z.shiftr size_in_bytes 19 then None
  else
    let remaining_words := (size_in_bytes mod 48) / 4 in
    let num_of_48_byte_units := size_in_bytes / 48 in
    let '(dst, (x6, x7)) :=
      if num_of_48_byte_units =? 0 then (dstmem64, regs)
      else
        let '(dst, v) :=
          sse_loop (Z.to_nat num_of_48_byte_units) srcmem64 0 dstmem64 ((1, 1), (0, 0)) in
        sse_rem_loop (Z.to_nat (remaining_words / 4)) srcmem64
          (num_of_48_byte_units * 6) dst v in
    Some (dst, Set_ x6.1 x6.2 x7.1 x7.2).

End Adler.

Module AdlerFacts.
Import Adler.

(** ** Reference definitions

    One iteration of the reference loop consumes the pair of 64-bit words
    [2k], [2k+1]: the first goes to the (a1, b1) stream, the second to (a2, b2). *)
Definition sums : Type := (Z * Z) * (Z * Z).

Definition pair_step (mem : list Z) (s : sums) (k : Z) : sums :=
  (add_word (aget 0 mem (2 * k)) s.1, add_word (aget 0 mem (2 * k + 1)) s.2).

Definition run_from (mem : list Z) (k : Z) (n : nat) (s : sums) : sums :=
  fold_left (pair_step mem) (zrange k n) s.

Definition checksum_of (s : sums) : AdlerChecksum := Set_ s.1.1 s.2.1 s.1.2 s.2.2.

(** The checksum of the first [n] pairs of words. *)
Definition adler_ref (mem : list Z) (n : nat) : AdlerChecksum :=
  checksum_of (run_from mem 0 n ((1, 0), (1, 0))).

Definition copy_pair (src dst : list Z) (k : Z) : list Z :=
  aset (aset dst (2 * k) (aget 0 src (2 * k))) (2 * k + 1) (aget 0 src (2 * k + 1)).

Definition copy_from (src : list Z) (k : Z) (n : nat) (dst : list Z) : list Z :=
  fold_left (copy_pair src) (zrange k n) dst.

Lemma run_from_app mem k n m s :
  run_from mem k (n + m) s = run_from mem (k + Z.of_nat n) m (run_from mem k n s).
Proof. unfold run_from. by rewrite zrange_app, fold_left_app. Qed.

Lemma copy_from_app src k n m dst :
  copy_from src k (n + m) dst = copy_from src (k + Z.of_nat n) m (copy_from src k n dst).
Proof. unfold copy_from. by rewrite zrange_app, fold_left_app. Qed.

Lemma length_copy_from src k n dst : length (copy_from src k n dst) = length dst.
Proof.
  unfold copy_from. revert k dst. induction n as [|n IH]; intros k dst; [done|].
  cbn [zrange fold_left]. rewrite IH. unfold copy_pair. by rewrite !length_aset.
Qed.

(** A store of a word between two lists. *)
Lemma aset_middle (l1 l2 : list Z) x v i :
  i = Z.of_nat (length l1) -> aset (l1 ++ x :: l2) i v = l1 ++ v :: l2.
Proof.
  intros ->. unfold aset. rewrite Nat2Z.id.
  replace (length l1) with (length l1 + 0)%nat by lia. by rewrite insert_app_r.
Qed.

Lemma aget_lookup (l : list Z) i x : 0 <= i -> l !! Z.to_nat i = Some x -> aget 0 l i = x.
Proof. intros Hi H. unfold aget. by apply nth_lookup_Some. Qed.

(** Copying [n] pairs copies a prefix of [2n] words and leaves the rest. *)
Lemma copy_from_0 src n dst :
  (2 * n <= length src)%nat -> (2 * n <= length dst)%nat ->
  copy_from src 0 n dst = take (2 * n) src ++ drop (2 * n) dst.
Proof.
  induction n as [|n IH]; intros Hs Hd; [done|].
  replace (S n) with (n + 1)%nat by lia. rewrite copy_from_app, IH by lia.
  unfold copy_from. cbn [zrange fold_left]. unfold copy_pair.
  destruct (lookup_lt_is_Some_2 src (2 * n)) as [x Hx]; [lia|].
  destruct (lookup_lt_is_Some_2 src (S (2 * n))) as [y Hy]; [lia|].
  destruct (lookup_lt_is_Some_2 dst (2 * n)) as [x' Hx']; [lia|].
  destruct (lookup_lt_is_Some_2 dst (S (2 * n))) as [y' Hy']; [lia|].
  replace (2 * (n + 1))%nat with (S (S (2 * n))) by lia.
  rewrite (take_S_r src (S (2 * n)) y), (take_S_r src (2 * n) x) by done.
  rewrite (drop_S dst x' (2 * n)), (drop_S dst y' (S (2 * n))) by done.
  rewrite aset_middle by (rewrite length_take; lia).
  rewrite (aget_lookup src (2 * (0 + Z.of_nat n)) x)
    by (try lia; rewrite <- Hx; f_equal; lia).
  rewrite (aget_lookup src (2 * (0 + Z.of_nat n) + 1) y)
    by (try lia; rewrite <- Hy; f_equal; lia).
  replace (take (2 * n) src ++ x :: y' :: drop (S (S (2 * n))) dst)
    with ((take (2 * n) src ++ [x]) ++ y' :: drop (S (S (2 * n))) dst)
    by (by rewrite <- app_assoc).
  rewrite aset_middle by (rewrite length_app, length_take; cbn; lia).
  by rewrite <- !app_assoc.
Qed.

(** ** The loops run the reference to completion *)

Lemma checksum_loop_ref mem n k fuel s :
  (n < fuel)%nat -> 0 <= k ->
  checksum_loop fuel mem (2 * (k + Z.of_nat n)) (2 * k) s.1 s.2 = Some (run_from mem k n s).
Proof.
  revert k fuel s. induction n as [|n IH]; intros k [|fuel] s Hf Hk; try lia; cbn [checksum_loop].
  - rewrite (proj2 (Z.ltb_ge _ _)) by lia. by destruct s.
  - rewrite (proj2 (Z.ltb_lt _ _)) by lia.
    replace (2 * k + 1 + 1) with (2 * (k + 1)) by lia.
    replace (k + Z.of_nat (S n)) with (k + 1 + Z.of_nat n) by lia.
    apply (IH (k + 1) fuel (pair_step mem s k)); lia.
Qed.

Lemma memcpy_loop_ref src n k fuel dst s :
  (n < fuel)%nat -> 0 <= k ->
  memcpy_loop fuel dst src (2 * (k + Z.of_nat n)) (2 * k) s.1 s.2 =
  Some (copy_from src k n dst, run_from src k n s).
Proof.
  revert k fuel dst s. induction n as [|n IH]; intros k [|fuel] dst s Hf Hk; try lia;
    cbn [memcpy_loop].
  - rewrite (proj2 (Z.ltb_ge _ _)) by lia. by destruct s.
  - rewrite (proj2 (Z.ltb_lt _ _)) by lia.
    replace (2 * k + 1 + 1) with (2 * (k + 1)) by lia.
    replace (k + Z.of_nat (S n)) with (k + 1 + Z.of_nat n) by lia.
    apply (IH (k + 1) fuel (copy_pair src dst k) (pair_step src s k)); lia.
Qed.

(** Sizes the routines are used with: a multiple of 16 bytes. *)
Lemma Calculate_ref mem n :
  Z.of_nat n <= 2 ^ 18 ->
  CalculateAdlerChecksum mem (16 * Z.of_nat n) = Some (adler_ref mem n).
Proof.
  intros Hn. unfold CalculateAdlerChecksum, loop_fuel.
  replace (16 * Z.of_nat n / 8) with (2 * Z.of_nat n)
    by (replace (16 * Z.of_nat n) with (2 * Z.of_nat n * 8) by lia; by rewrite Z.div_mul by lia).
  rewrite (proj2 (Z.ltb_ge _ _)) by (change (Z.shiftl 1 19) with (2 ^ 19); lia).
  pose proof (checksum_loop_ref mem n 0 (S (Z.to_nat (2 * Z.of_nat n))) ((1, 0), (1, 0))) as H.
  cbn [fst snd] in H. rewrite Z.add_0_l in H. change (2 * 0) with 0 in H. rewrite H by lia.
  unfold adler_ref. by destruct (run_from _ _ _ _) as [[? ?] [? ?]].
Qed.

Lemma MemcpyC_ref dst src n :
  Z.of_nat n <= 2 ^ 18 ->
  AdlerMemcpyC dst src (16 * Z.of_nat n) = Some (copy_from src 0 n dst, adler_ref src n).
Proof.
  intros Hn. unfold AdlerMemcpyC, loop_fuel.
  replace (16 * Z.of_nat n / 8) with (2 * Z.of_nat n)
    by (replace (16 * Z.of_nat n) with (2 * Z.of_nat n * 8) by lia; by rewrite Z.div_mul by lia).
  rewrite (proj2 (Z.ltb_ge _ _)) by (change (Z.shiftl 1 19) with (2 ^ 19); lia).
  pose proof (memcpy_loop_ref src n 0 (S (Z.to_nat (2 * Z.of_nat n))) dst ((1, 0), (1, 0))) as H.
  cbn [fst snd] in H. rewrite Z.add_0_l in H. change (2 * 0) with 0 in H. rewrite H by lia.
  unfold adler_ref. by destruct (run_from _ _ _ _) as [[? ?] [? ?]].
Qed.

(** ** The vector kernels *)

(** Lane layout of the accumulators: v0 = (a1, a2), v1 = (b1, b2). *)
Definition lanes (s : sums) : vec * vec := ((s.1.1, s.2.1), (s.1.2, s.2.2)).

Lemma trn_pair mem k s :
  vsum (trn2_zero (ld1 mem (2 * k))) (vsum (trn1_zero (ld1 mem (2 * k))) (lanes s)) =
  lanes (pair_step mem s k).
Proof. by destruct s as [[a1 b1] [a2 b2]]. Qed.

Lemma movdqu4_mask mem i : andps_mask (movdqu4 mem i) = trn2_zero (ld1 mem i).
Proof.
  unfold andps_mask, movdqu4, trn2_zero, ld1. cbn [fst snd].
  rewrite !l64_l32_l by apply l32_h_bound. done.
Qed.

Lemma pshufd_mask mem i : andps_mask (pshufd_39 (ld1 mem i)) = trn2_zero (ld1 mem i).
Proof.
  unfold andps_mask, pshufd_39, trn2_zero, ld1. cbn [fst snd].
  rewrite !l64_l32_l by apply l32_h_bound. done.
Qed.

Lemma andps_trn1 v : andps_mask v = trn1_zero v.
Proof. done. Qed.

Lemma neon_block_ref src k dst s :
  neon_block src (2 * k) dst (lanes s) =
  (copy_from src k 4 dst, lanes (run_from src k 4 s)).
Proof.
  unfold neon_block. cbv zeta.
  replace (2 * k + 2) with (2 * (k + 1)) by lia.
  replace (2 * k + 4) with (2 * (k + 1 + 1)) by lia.
  replace (2 * k + 6) with (2 * (k + 1 + 1 + 1)) by lia.
  by rewrite !trn_pair.
Qed.

Lemma neon_loop_ref blocks src k dst s :
  neon_loop blocks src (2 * k) dst (lanes s) =
  (copy_from src k (4 * blocks) dst, lanes (run_from src k (4 * blocks) s)).
Proof.
  revert k dst s. induction blocks as [|n IH]; intros k dst s; [done|].
  cbn [neon_loop]. rewrite neon_block_ref.
  replace (2 * k + 8) with (2 * (k + 4)) by lia. rewrite IH.
  replace (4 * S n)%nat with (4 + 4 * n)%nat by lia.
  by rewrite copy_from_app, run_from_app.
Qed.

Lemma sse_block_ref src k dst s :
  sse_block src (2 * k) dst (lanes s) =
  (copy_from src k 3 dst, lanes (run_from src k 3 s)).
Proof.
  unfold sse_block. cbv zeta. rewrite !movdqu4_mask, !andps_trn1.
  replace (2 * k + 2) with (2 * (k + 1)) by lia.
  replace (2 * k + 4) with (2 * (k + 1 + 1)) by lia.
  by rewrite !trn_pair.
Qed.

Lemma sse_loop_ref units src k dst s :
  sse_loop units src (2 * k) dst (lanes s) =
  (copy_from src k (3 * units) dst, lanes (run_from src k (3 * units) s)).
Proof.
  revert k dst s. induction units as [|n IH]; intros k dst s; [done|].
  cbn [sse_loop]. rewrite sse_block_ref.
  replace (2 * k + 6) with (2 * (k + 3)) by lia. rewrite IH.
  replace (3 * S n)%nat with (3 + 3 * n)%nat by lia.
  by rewrite copy_from_app, run_from_app.
Qed.

Lemma sse_rem_loop_ref quads src k dst s :
  sse_rem_loop quads src (2 * k) dst (lanes s) =
  (copy_from src k quads dst, lanes (run_from src k quads s)).
Proof.
  revert k dst s. induction quads as [|n IH]; intros k dst s; [done|].
  cbn [sse_rem_loop]. rewrite pshufd_mask, andps_trn1, trn_pair.
  replace (2 * k + 2) with (2 * (k + 1)) by lia. rewrite IH.
  by rewrite <- (Nat.add_1_l n), copy_from_app, run_from_app.
Qed.

Lemma memcpy_equivalent regs dst src n :
  16 * Z.of_nat n < 2 ^ 19 ->
  (2 * n <= length src)%nat -> (2 * n <= length dst)%nat ->
  let size := 16 * Z.of_nat n in
  let result := Some (take (2 * n) src ++ drop (2 * n) dst, adler_ref src n) in
  CalculateAdlerChecksum src size = Some (adler_ref src n) /\
  AdlerMemcpyC dst src size = result /\
  AdlerMemcpyWarmC dst src size = result /\
  ((3 <= n)%nat -> AdlerMemcpyAsm_x86_64 regs dst src size = result) /\
  ((0 < n)%nat -> Nat.divide 4 n -> AdlerMemcpyAsm_aarch64 regs dst src size = result).
Proof.
  intros Hn Hs Hd size result. unfold result, size.
  rewrite <- (copy_from_0 src n dst) by done.
  split; [apply Calculate_ref; lia|]. split; [apply MemcpyC_ref; lia|].
  split; [apply MemcpyC_ref; lia|]. split.
  - intros H3. unfold AdlerMemcpyAsm_x86_64.
    rewrite Z.shiftr_div_pow2, Z.div_small by lia. cbn [Z.ltb Z.compare].
    set (u := (n / 3)%nat). set (r := (n mod 3)%nat).
    assert (Hnr : (n = 3 * u + r)%nat) by apply (Nat.div_mod_eq n 3).
    assert (r < 3)%nat by (apply Nat.mod_upper_bound; lia).
    replace (16 * Z.of_nat n / 48) with (Z.of_nat u)
      by (apply Z.div_unique with (16 * Z.of_nat r); lia).
    replace (16 * Z.of_nat n mod 48) with (16 * Z.of_nat r)
      by (apply Z.mod_unique with (Z.of_nat u); lia).
    rewrite (proj2 (Z.eqb_neq _ _)) by lia. rewrite Nat2Z.id.
    replace (16 * Z.of_nat r / 4 / 4) with (Z.of_nat r)
      by (rewrite Z.div_div by lia; apply Z.div_unique with 0; lia).
    rewrite Nat2Z.id. pose proof (sse_loop_ref u src 0 dst ((1, 0), (1, 0))) as Hl.
    change (2 * 0) with 0 in Hl. change (lanes ((1, 0), (1, 0))) with (((1, 1), (0, 0)) : vec * vec) in Hl.
    rewrite Hl. replace (Z.of_nat u * 6) with (2 * Z.of_nat (3 * u)) by lia.
    rewrite sse_rem_loop_ref, Hnr, copy_from_app. unfold adler_ref.
    rewrite run_from_app. rewrite Z.add_0_l.
    by destruct (run_from src (Z.of_nat (3 * u)) r _) as [[? ?] [? ?]].
  - intros H0 [q Hq]. unfold AdlerMemcpyAsm_aarch64.
    rewrite Z.shiftr_div_pow2, Z.div_small by lia. cbn [Z.ltb Z.compare].
    replace (16 * Z.of_nat n / 64) with (Z.of_nat q)
      by (apply Z.div_unique with 0; lia).
    rewrite (proj2 (Z.leb_gt _ _)) by lia. rewrite Nat2Z.id.
    pose proof (neon_loop_ref q src 0 dst ((1, 0), (1, 0))) as Hl.
    change (2 * 0) with 0 in Hl. change (lanes ((1, 0), (1, 0))) with (((1, 1), (0, 0)) : vec * vec) in Hl.
    rewrite Hl. replace (4 * q)%nat with n by lia. unfold adler_ref.
    by destruct (run_from src 0 n _) as [[? ?] [? ?]].
Qed.

(** C33. Every implementation of the checksumming copy does the same thing.  The C
    loop copies exactly the requested prefix and reports the checksum
    [CalculateAdlerChecksum] gives for the source; the x86_64 kernel agrees with it
    on every multiple of 16 bytes from 48 to below 512 KiB and the AArch64 kernel on
    every positive multiple of 64 bytes below 512 KiB, whatever their vector
    registers held on entry. *)
Theorem AdlerMemcpy_equivalent regs dst src n :
  16 * Z.of_nat n < 2 ^ 19 ->
  (2 * n <= length src)%nat -> (2 * n <= length dst)%nat ->
  let size := 16 * Z.of_nat n in
  let result := Some (take (2 * n) src ++ drop (2 * n) dst, adler_ref src n) in
  CalculateAdlerChecksum src size = Some (adler_ref src n) /\
  AdlerMemcpyC dst src size = result /\
  AdlerMemcpyWarmC dst src size = result /\
  ((3 <= n)%nat -> AdlerMemcpyAsm_x86_64 regs dst src size = result) /\
  ((0 < n)%nat -> Nat.divide 4 n -> AdlerMemcpyAsm_aarch64 regs dst src size = result).
Proof. apply memcpy_equivalent. Qed.

Definition sample_src : list Z := map (fun k => 0x0123456789abcdef * k mod 2 ^ 64) (zrange 1 16).

Lemma AdlerMemcpy_equivalent_witness :
  AdlerMemcpyAsm_aarch64 ((7, 7), (7, 7)) (replicate 16 0) sample_src 128 =
  AdlerMemcpyC (replicate 16 0) sample_src 128.
Proof.
  destruct (AdlerMemcpy_equivalent ((7, 7), (7, 7)) (replicate 16 0) sample_src 8)
    as (_ & H1 & _ & _ & H2).
  - reflexivity.
  - apply Nat.leb_le. reflexivity.
  - apply Nat.leb_le. reflexivity.
  - etransitivity; [apply H2|symmetry; exact H1]; [apply Nat.ltb_lt; reflexivity|].
    exists 2%nat. reflexivity.
Defined.

(** Below one 48-byte unit the x86_64 kernel copies nothing and reports the previous
    register contents, yet returns success. *)
Lemma AdlerMemcpyAsm_x86_64_small regs dst src size :
  0 <= size < 48 ->
  AdlerMemcpyAsm_x86_64 regs dst src size =
    Some (dst, Set_ regs.1.1 regs.1.2 regs.2.1 regs.2.2).
Proof.
  intros H. unfold AdlerMemcpyAsm_x86_64.
  rewrite Z.shiftr_div_pow2, (Z.div_small size (2 ^ 19)) by lia. cbn [Z.ltb Z.compare].
  rewrite (Z.div_small size 48) by lia. cbn [Z.eqb]. by destruct regs as [[? ?] [? ?]].
Qed.

(** ** One stream *)

Definition stream (f : Z -> Z) (k : Z) (n : nat) (s : Z * Z) : Z * Z :=
  fold_left (fun s i => add_word (f i) s) (zrange k n) s.

Lemma run_from_streams mem k n s :
  run_from mem k n s =
  (stream (fun i => aget 0 mem (2 * i)) k n s.1,
   stream (fun i => aget 0 mem (2 * i + 1)) k n s.2).
Proof.
  unfold run_from, stream. revert k s. induction n as [|n IH]; intros k s.
  - by destruct s.
  - cbn [zrange fold_left]. by rewrite IH.
Qed.

Lemma stream_app f k n m s :
  stream f k (n + m) s = stream f (k + Z.of_nat n) m (stream f k n s).
Proof. unfold stream. by rewrite zrange_app, fold_left_app. Qed.

Lemma stream_ext f g k n s :
  (forall i, k <= i < k + Z.of_nat n -> f i = g i) -> stream f k n s = stream g k n s.
Proof.
  revert k s. induction n as [|n IH]; intros k s H; [done|].
  unfold stream in *. cbn [zrange fold_left]. rewrite H by lia. apply IH. intros i Hi.
  apply H. lia.
Qed.

(** [add_word] modulo 2^64. *)
Lemma add_word_mod w a b : exists q1 q2,
  add_word w (a, b) = (a + l32_l w + l32_h w + q1 * 2 ^ 64,
                       b + 2 * a + 2 * l32_l w + l32_h w + q2 * 2 ^ 64).
Proof.
  unfold add_word, u64.
  pose proof (Z.div_mod (a + l32_l w) (2 ^ 64)) as H1.
  set (x := (a + l32_l w) mod 2 ^ 64) in *.
  pose proof (Z.div_mod (b + x) (2 ^ 64)) as H2.
  set (y := (b + x) mod 2 ^ 64) in *.
  pose proof (Z.div_mod (x + l32_h w) (2 ^ 64)) as H3.
  set (z := (x + l32_h w) mod 2 ^ 64) in *.
  pose proof (Z.div_mod (y + z) (2 ^ 64)) as H4.
  set (t := (y + z) mod 2 ^ 64) in *.
  exists (- ((a + l32_l w) / 2 ^ 64) - (x + l32_h w) / 2 ^ 64).
  exists (- 2 * ((a + l32_l w) / 2 ^ 64) - (b + x) / 2 ^ 64 - (x + l32_h w) / 2 ^ 64
          - (y + z) / 2 ^ 64).
  f_equal; lia.
Qed.

Lemma add_word_range w s : 0 <= (add_word w s).1 < 2 ^ 64 /\ 0 <= (add_word w s).2 < 2 ^ 64.
Proof. destruct s as [a b]. split; apply u64_bound. Qed.

Definition state_ok (s : Z * Z) : Prop := 0 <= s.1 < 2 ^ 64 /\ 0 <= s.2 < 2 ^ 64.

Lemma stream_ok f k n s : state_ok s -> state_ok (stream f k n s).
Proof.
  revert k s. induction n as [|n IH]; intros k s H; [done|].
  unfold stream in *. cbn [zrange fold_left]. apply IH, add_word_range.
Qed.

(** Two accumulator states that differ by (alpha, beta) modulo 2^64. *)
Definition diff (alpha beta : Z) (s s' : Z * Z) : Prop :=
  exists q1 q2, s'.1 = s.1 + alpha + q1 * 2 ^ 64 /\ s'.2 = s.2 + beta + q2 * 2 ^ 64.

Lemma add_word_diff w w' s s' alpha beta :
  diff alpha beta s s' ->
  diff (alpha + (l32_l w' - l32_l w) + (l32_h w' - l32_h w))
       (beta + 2 * alpha + 2 * (l32_l w' - l32_l w) + (l32_h w' - l32_h w))
       (add_word w s) (add_word w' s').
Proof.
  destruct s as [a b], s' as [a' b']. intros (q1 & q2 & H1 & H2). cbn [fst snd] in *.
  destruct (add_word_mod w a b) as (r1 & r2 & ->).
  destruct (add_word_mod w' a' b') as (r3 & r4 & ->).
  exists (q1 + r3 - r1), (q2 + 2 * q1 + r4 - r2). cbn [fst snd]. lia.
Qed.

Lemma stream_diff f k n s s' alpha beta :
  diff alpha beta s s' ->
  diff alpha (beta + 2 * Z.of_nat n * alpha) (stream f k n s) (stream f k n s').
Proof.
  revert k s s' beta. induction n as [|n IH]; intros k s s' beta H.
  - by replace (beta + 2 * Z.of_nat 0 * alpha) with beta by lia.
  - pose proof (add_word_diff (f k) (f k) s s' alpha beta H) as H'.
    rewrite !Z.sub_diag in H'. replace (alpha + 0 + 0) with alpha in H' by lia.
    apply (IH (k + 1)) in H'. unfold stream in *. cbn [zrange fold_left].
    replace (beta + 2 * Z.of_nat (S n) * alpha)
      with (beta + 2 * alpha + 2 * 0 + 0 + 2 * Z.of_nat n * alpha) by lia. exact H'.
Qed.

(** A stream is changed by any change of one word. *)
Lemma stream_detects f g k n j s :
  state_ok s -> k <= j < k + Z.of_nat n ->
  (forall i, k <= i < k + Z.of_nat n -> i <> j -> f i = g i) ->
  0 <= f j < 2 ^ 64 -> 0 <= g j < 2 ^ 64 -> f j <> g j ->
  stream f k n s <> stream g k n s.
Proof.
  intros Hok Hj Hfg Hf Hg Hne Heq.
  set (m := Z.to_nat (j - k)). set (r := (n - S m)%nat).
  replace n with (m + (1 + r))%nat in Heq by (unfold r, m; lia).
  rewrite !stream_app in Heq. rewrite (stream_ext g f k m) in Heq
    by (intros i Hi; symmetry; apply Hfg; unfold r, m in Hi; lia).
  rewrite (stream_ext g f (k + Z.of_nat m + Z.of_nat 1) r) in Heq
    by (intros i Hi; symmetry; apply Hfg; unfold r, m in Hi; lia).
  set (s0 := stream f k m s) in *.
  assert (Hd0 : diff 0 0 s0 s0) by (exists 0, 0; lia).
  apply (add_word_diff (f j) (g j)) in Hd0.
  apply (stream_diff f (k + Z.of_nat m + Z.of_nat 1) r) in Hd0.
  unfold stream in Heq at 2 4. cbn [zrange fold_left] in Heq.
  replace (k + Z.of_nat m) with j in * by (unfold m; lia).
  rewrite <- Heq in Hd0. destruct Hd0 as (q1 & q2 & H1 & H2).
  pose proof (l32_l_bound (f j)). pose proof (l32_h_bound (f j)).
  pose proof (l32_l_bound (g j)). pose proof (l32_h_bound (g j)).
  apply Hne. rewrite <- (l64_split (f j)), <- (l64_split (g j)) by done.
  assert (Ha : (l32_l (g j) - l32_l (f j)) + (l32_h (g j) - l32_h (f j)) = 0) by lia.
  rewrite (Z.add_0_l (l32_l (g j) - _)), Ha, Z.mul_0_r in H2.
  f_equal; lia.
Qed.

Lemma checksum_of_inj s s' : checksum_of s = checksum_of s' -> s = s'.
Proof.
  destruct s as [[? ?] [? ?]], s' as [[? ?] [? ?]]. unfold checksum_of, Set_. cbn.
  congruence.
Qed.

Lemma Equals_spec c c' : Equals c c' = true <-> c = c'.
Proof.
  destruct c, c'. unfold Equals. cbn. rewrite !andb_true_iff, !Z.eqb_eq.
  split; [intros [[[-> ->] ->] ->]; done|]. intros H. injection H. tauto.
Qed.

(** The reference checksum is changed by any change confined to one 64-bit word. *)
Lemma adler_ref_detects mem mem' n j :
  0 <= j < 2 * Z.of_nat n ->
  (forall i, 0 <= i < 2 * Z.of_nat n -> i <> j -> aget 0 mem i = aget 0 mem' i) ->
  0 <= aget 0 mem j < 2 ^ 64 -> 0 <= aget 0 mem' j < 2 ^ 64 ->
  aget 0 mem j <> aget 0 mem' j -> adler_ref mem n <> adler_ref mem' n.
Proof.
  intros Hj Hsame H1 H2 Hne Heq. apply checksum_of_inj in Heq.
  rewrite !run_from_streams in Heq. injection Heq as He Ho. cbn [fst snd] in He, Ho.
  pose proof (Z.div_mod j 2). pose proof (Z.mod_pos_bound j 2).
  assert (Hok : state_ok (1, 0)) by (unfold state_ok; cbn; lia).
  destruct (Z.eq_dec (j mod 2) 0) as [Hm|Hm].
  - revert He. apply (stream_detects _ _ 0 n (j / 2)); cbn beta; [done|lia|..];
      replace (2 * (j / 2)) with j by lia; try done.
    intros i Hi Hij. apply Hsame; lia.
  - revert Ho. apply (stream_detects _ _ 0 n (j / 2)); cbn beta; [done|lia|..];
      replace (2 * (j / 2) + 1) with j by lia; try done.
    intros i Hi Hij. apply Hsame; lia.
Qed.

(** C34. The checksum detects every corruption confined to one 64-bit word: two
    buffers of at most 4 MiB that agree except in one word have different checksums,
    also when the sums wrap around. *)
Theorem CalculateAdlerChecksum_detects mem mem' n j c c' :
  Z.of_nat n <= 2 ^ 18 -> 0 <= j < 2 * Z.of_nat n ->
  (forall i, 0 <= i < 2 * Z.of_nat n -> i <> j -> aget 0 mem i = aget 0 mem' i) ->
  0 <= aget 0 mem j < 2 ^ 64 -> 0 <= aget 0 mem' j < 2 ^ 64 ->
  aget 0 mem j <> aget 0 mem' j ->
  CalculateAdlerChecksum mem (16 * Z.of_nat n) = Some c ->
  CalculateAdlerChecksum mem' (16 * Z.of_nat n) = Some c' ->
  Equals c c' = false.
Proof.
  intros Hn Hj Hsame H1 H2 Hne. rewrite !Calculate_ref by done.
  intros [= <-] [= <-]. apply not_true_iff_false. rewrite Equals_spec.
  apply (adler_ref_detects mem mem' n j); done.
Qed.

(** A single-bit change in the last word of a 32-byte buffer; the two sums differ. *)
Lemma CalculateAdlerChecksum_detects_witness :
  Equals (adler_ref [1; 2; 3; 4] 2) (adler_ref [1; 2; 3; 5] 2) = false.
Proof.
  apply (CalculateAdlerChecksum_detects [1; 2; 3; 4] [1; 2; 3; 5] 2 3).
  - vm_compute. discriminate.
  - split; vm_compute; [discriminate|reflexivity].
  - intros i Hi Hne. assert (i = 0 \/ i = 1 \/ i = 2) as [-> | [-> | ->]] by lia; reflexivity.
  - split; vm_compute; [discriminate|reflexivity].
  - split; vm_compute; [discriminate|reflexivity].
  - vm_compute. discriminate.
  - reflexivity.
  - reflexivity.
Defined.

(** ** Overflow *)

(** The same sums without wrap-around. *)
Definition add_word_Z (w : Z) (ab : Z * Z) : Z * Z :=
  let '(a, b) := ab in
  (a + l32_l w + l32_h w, b + (a + l32_l w) + (a + l32_l w + l32_h w)).

Definition stream_Z (f : Z -> Z) (n : nat) : Z * Z :=
  fold_left (fun s i => add_word_Z (f i) s) (zrange 0 n) (1, 0).

Lemma stream_Z_S f n : stream_Z f (S n) = add_word_Z (f (Z.of_nat n)) (stream_Z f n).
Proof. unfold stream_Z. by rewrite zrange_S_r, fold_left_app. Qed.

(** After [n] words the sums are at most those of [2n] all-ones 32-bit words. *)
Lemma stream_Z_bound f n :
  let m := 2 * Z.of_nat n in
  0 <= (stream_Z f n).1 <= 1 + m * (2 ^ 32 - 1) /\
  0 <= 2 * (stream_Z f n).2 <= 2 * m + (2 ^ 32 - 1) * (m * (m + 1)).
Proof.
  cbv zeta. induction n as [|n IH]; [cbn; lia|].
  rewrite stream_Z_S. destruct (stream_Z f n) as [a b]. cbn [fst snd add_word_Z] in *.
  pose proof (l32_l_bound (f (Z.of_nat n))). pose proof (l32_h_bound (f (Z.of_nat n))).
  split; [lia|]. nia.
Qed.

Lemma stream_no_wrap f n :
  Z.of_nat n <= 2 ^ 15 -> stream f 0 n (1, 0) = stream_Z f n.
Proof.
  induction n as [|n IH]; intros Hn; [done|].
  rewrite stream_Z_S. unfold stream in *. rewrite zrange_S_r, fold_left_app, IH by lia.
  cbn [fold_left]. pose proof (stream_Z_bound f (S n)) as HB. cbv zeta in HB.
  pose proof (stream_Z_bound f n) as HB0. cbv zeta in HB0.
  rewrite stream_Z_S in HB. rewrite Z.add_0_l.
  destruct (stream_Z f n) as [a b]. unfold add_word, add_word_Z in *. cbn [fst snd] in *.
  set (l := l32_l (f (Z.of_nat n))) in *. set (h := l32_h (f (Z.of_nat n))) in *.
  assert (0 <= l < 2 ^ 32) by apply l32_l_bound. assert (0 <= h < 2 ^ 32) by apply l32_h_bound.
  assert (Hm : 2 * (2 * Z.of_nat (S n)) + (2 ^ 32 - 1) *
     (2 * Z.of_nat (S n) * (2 * Z.of_nat (S n) + 1)) < 2 * 2 ^ 64) by nia.
  rewrite (u64_id (a + l)) by nia. rewrite (u64_id (b + (a + l))) by nia.
  rewrite (u64_id (a + l + h)) by nia. rewrite u64_id by lia. done.
Qed.

(** The sums never wrap for buffers of at most 2^19 bytes: the checksum is the
    exact integer Adler sum of the two streams, as the file comment promises. *)
Theorem CalculateAdlerChecksum_no_overflow mem n :
  16 * Z.of_nat n <= 2 ^ 19 ->
  let s1 := stream_Z (fun i => aget 0 mem (2 * i)) n in
  let s2 := stream_Z (fun i => aget 0 mem (2 * i + 1)) n in
  CalculateAdlerChecksum mem (16 * Z.of_nat n) = Some (mkChecksum s1.1 s2.1 s1.2 s2.2).
Proof.
  intros Hn s1 s2. rewrite Calculate_ref by lia. unfold adler_ref.
  rewrite run_from_streams. cbn [fst snd]. rewrite !stream_no_wrap by lia. done.
Qed.

Lemma CalculateAdlerChecksum_no_overflow_witness :
  CalculateAdlerChecksum (replicate 512 (2 ^ 64 - 1)) 4096 =
  Some (let s := stream_Z (fun i => aget 0 (replicate 512 (2 ^ 64 - 1)) (2 * i)) 256 in
        let s' := stream_Z (fun i => aget 0 (replicate 512 (2 ^ 64 - 1)) (2 * i + 1)) 256 in
        mkChecksum s.1 s'.1 s.2 s'.2).
Proof.
  apply (CalculateAdlerChecksum_no_overflow (replicate 512 (2 ^ 64 - 1)) 256).
  vm_compute. discriminate.
Defined.

(** All-ones data: the exact sums after [n] words. *)
Lemma stream_Z_ones n :
  stream_Z (fun _ => 2 ^ 64 - 1) n =
  (1 + 2 * Z.of_nat n * (2 ^ 32 - 1),
   2 * Z.of_nat n + (2 ^ 32 - 1) * (Z.of_nat n * (2 * Z.of_nat n + 1))).
Proof.
  induction n as [|n IH]; [done|]. rewrite stream_Z_S, IH. unfold add_word_Z.
  change (l32_l (2 ^ 64 - 1)) with (2 ^ 32 - 1). change (l32_h (2 ^ 64 - 1)) with (2 ^ 32 - 1).
  f_equal; lia.
Qed.

(** The size test [count > (1U << 19)] counts 64-bit words, so it admits buffers up to
    4 MiB, for which the exact sum of an all-ones stream exceeds 64 bits: the test
    does not enforce the 512 KiB bound its comment states. *)
Lemma size_test_admits_overflow mem :
  is_Some (CalculateAdlerChecksum mem (2 ^ 22)) /\
  2 ^ 64 <= (stream_Z (fun _ => 2 ^ 64 - 1) (Z.to_nat (2 ^ 18))).2.
Proof.
  split.
  - pose proof (Calculate_ref mem (Z.to_nat (2 ^ 18))) as H.
    rewrite Z2Nat.id in H by lia. replace (16 * 2 ^ 18) with (2 ^ 22) in H by lia.
    rewrite H by lia. eauto.
  - rewrite stream_Z_ones, Z2Nat.id by lia. cbn [snd]. lia.
Qed.

End AdlerFacts.
