(* ===== verification/Patterns.v ===== *)
(** Data patterns: [src/src/pattern.h] and [src/src/pattern.cc].

    A [PatternData] and a [Pattern] are records; [PatternList] is the record of its
    members.  Log output is not modelled.  Strings are lists of characters inside the
    selector parser. *)

From Stdlib Require Import Ascii String.
From S2P Require Import Prelude Adler.

Module Patterns.
Import Adler.
Local Open Scope word_scope.
Local Open Scope Z_scope.
Local Open Scope list_scope.

(** [mask] is the array size minus one; [weight] the four weights for the 32, 64, 128
    and 256 bit versions. *)
Record PatternData := mkPatternData {
  pd_name : string; pat : list Z; pd_mask : Z; pd_weight : Z * Z * Z * Z
}.

Definition walkingOnes_data : list Z := [
  0x00000001; 0x00000002; 0x00000004; 0x00000008; 0x00000010; 0x00000020;
  0x00000040; 0x00000080; 0x00000100; 0x00000200; 0x00000400; 0x00000800;
  0x00001000; 0x00002000; 0x00004000; 0x00008000; 0x00010000; 0x00020000;
  0x00040000; 0x00080000; 0x00100000; 0x00200000; 0x00400000; 0x00800000;
  0x01000000; 0x02000000; 0x04000000; 0x08000000; 0x10000000; 0x20000000;
  0x40000000; 0x80000000; 0x40000000; 0x20000000; 0x10000000; 0x08000000;
  0x04000000; 0x02000000; 0x01000000; 0x00800000; 0x00400000; 0x00200000;
  0x00100000; 0x00080000; 0x00040000; 0x00020000; 0x00010000; 0x00008000;
  0x00004000; 0x00002000; 0x00001000; 0x00000800; 0x00000400; 0x00000200;
  0x00000100; 0x00000080; 0x00000040; 0x00000020; 0x00000010; 0x00000008;
  0x00000004; 0x00000002; 0x00000001; 0x00000000 ].

Definition walkingOnes : PatternData :=
  mkPatternData "walkingOnes" walkingOnes_data (Z.of_nat (length walkingOnes_data) - 1) (1, 1, 2, 1).

Definition walkingInvOnes_data : list Z := [
  0x00000001; 0xfffffffe; 0x00000002; 0xfffffffd; 0x00000004; 0xfffffffb;
  0x00000008; 0xfffffff7; 0x00000010; 0xffffffef; 0x00000020; 0xffffffdf;
  0x00000040; 0xffffffbf; 0x00000080; 0xffffff7f; 0x00000100; 0xfffffeff;
  0x00000200; 0xfffffdff; 0x00000400; 0xfffffbff; 0x00000800; 0xfffff7ff;
  0x00001000; 0xffffefff; 0x00002000; 0xffffdfff; 0x00004000; 0xffffbfff;
  0x00008000; 0xffff7fff; 0x00010000; 0xfffeffff; 0x00020000; 0xfffdffff;
  0x00040000; 0xfffbffff; 0x00080000; 0xfff7ffff; 0x00100000; 0xffefffff;
  0x00200000; 0xffdfffff; 0x00400000; 0xffbfffff; 0x00800000; 0xff7fffff;
  0x01000000; 0xfeffffff; 0x02000000; 0xfdffffff; 0x04000000; 0xfbffffff;
  0x08000000; 0xf7ffffff; 0x10000000; 0xefffffff; 0x20000000; 0xdfffffff;
  0x40000000; 0xbfffffff; 0x80000000; 0x7fffffff; 0x40000000; 0xbfffffff;
  0x20000000; 0xdfffffff; 0x10000000; 0xefffffff; 0x08000000; 0xf7ffffff;
  0x04000000; 0xfbffffff; 0x02000000; 0xfdffffff; 0x01000000; 0xfeffffff;
  0x00800000; 0xff7fffff; 0x00400000; 0xffbfffff; 0x00200000; 0xffdfffff;
  0x00100000; 0xffefffff; 0x00080000; 0xfff7ffff; 0x00040000; 0xfffbffff;
  0x00020000; 0xfffdffff; 0x00010000; 0xfffeffff; 0x00008000; 0xffff7fff;
  0x00004000; 0xffffbfff; 0x00002000; 0xffffdfff; 0x00001000; 0xffffefff;
  0x00000800; 0xfffff7ff; 0x00000400; 0xfffffbff; 0x00000200; 0xfffffdff;
  0x00000100; 0xfffffeff; 0x00000080; 0xffffff7f; 0x00000040; 0xffffffbf;
  0x00000020; 0xffffffdf; 0x00000010; 0xffffffef; 0x00000008; 0xfffffff7;
  0x00000004; 0xfffffffb; 0x00000002; 0xfffffffd; 0x00000001; 0xfffffffe;
  0x00000000; 0xffffffff ].

Definition walkingInvOnes : PatternData :=
  mkPatternData "walkingInvOnes" walkingInvOnes_data (Z.of_nat (length walkingInvOnes_data) - 1) (2, 2, 5, 5).

Definition walkingZeros_data : list Z := [
  0xfffffffe; 0xfffffffd; 0xfffffffb; 0xfffffff7; 0xffffffef; 0xffffffdf;
  0xffffffbf; 0xffffff7f; 0xfffffeff; 0xfffffdff; 0xfffffbff; 0xfffff7ff;
  0xffffefff; 0xffffdfff; 0xffffbfff; 0xffff7fff; 0xfffeffff; 0xfffdffff;
  0xfffbffff; 0xfff7ffff; 0xffefffff; 0xffdfffff; 0xffbfffff; 0xff7fffff;
  0xfeffffff; 0xfdffffff; 0xfbffffff; 0xf7ffffff; 0xefffffff; 0xdfffffff;
  0xbfffffff; 0x7fffffff; 0xbfffffff; 0xdfffffff; 0xefffffff; 0xf7ffffff;
  0xfbffffff; 0xfdffffff; 0xfeffffff; 0xff7fffff; 0xffbfffff; 0xffdfffff;
  0xffefffff; 0xfff7ffff; 0xfffbffff; 0xfffdffff; 0xfffeffff; 0xffff7fff;
  0xffffbfff; 0xffffdfff; 0xffffefff; 0xfffff7ff; 0xfffffbff; 0xfffffdff;
  0xfffffeff; 0xffffff7f; 0xffffffbf; 0xffffffdf; 0xffffffef; 0xfffffff7;
  0xfffffffb; 0xfffffffd; 0xfffffffe; 0xffffffff ].

Definition walkingZeros : PatternData :=
  mkPatternData "walkingZeros" walkingZeros_data (Z.of_nat (length walkingZeros_data) - 1) (1, 1, 2, 1).

Definition OneZero_data : list Z := [
  0x00000000; 0xffffffff ].

Definition OneZero : PatternData :=
  mkPatternData "OneZero" OneZero_data (Z.of_nat (length OneZero_data) - 1) (5, 5, 15, 5).

Definition JustZero_data : list Z := [
  0x00000000; 0x00000000 ].

Definition JustZero : PatternData :=
  mkPatternData "JustZero" JustZero_data (Z.of_nat (length JustZero_data) - 1) (2, 0, 0, 0).

Definition JustOne_data : list Z := [
  0xffffffff; 0xffffffff ].

Definition JustOne : PatternData :=
  mkPatternData "JustOne" JustOne_data (Z.of_nat (length JustOne_data) - 1) (2, 0, 0, 0).

Definition JustFive_data : list Z := [
  0x55555555; 0x55555555 ].

Definition JustFive : PatternData :=
  mkPatternData "JustFive" JustFive_data (Z.of_nat (length JustFive_data) - 1) (2, 0, 0, 0).

Definition JustA_data : list Z := [
  0xaaaaaaaa; 0xaaaaaaaa ].

Definition JustA : PatternData :=
  mkPatternData "JustA" JustA_data (Z.of_nat (length JustA_data) - 1) (2, 0, 0, 0).

Definition FiveA_data : list Z := [
  0x55555555; 0xaaaaaaaa ].

Definition FiveA : PatternData :=
  mkPatternData "FiveA" FiveA_data (Z.of_nat (length FiveA_data) - 1) (1, 1, 1, 1).

Definition FiveA8_data : list Z := [
  0x5aa5a55a; 0xa55a5aa5; 0xa55a5aa5; 0x5aa5a55a ].

Definition FiveA8 : PatternData :=
  mkPatternData "FiveA8" FiveA8_data (Z.of_nat (length FiveA8_data) - 1) (1, 1, 1, 1).

Definition Long8b10b_data : list Z := [
  0x16161616; 0x16161616 ].

Definition Long8b10b : PatternData :=
  mkPatternData "Long8b10b" Long8b10b_data (Z.of_nat (length Long8b10b_data) - 1) (2, 0, 0, 0).

Definition Short8b10b_data : list Z := [
  0xb5b5b5b5; 0xb5b5b5b5 ].

Definition Short8b10b : PatternData :=
  mkPatternData "Short8b10b" Short8b10b_data (Z.of_nat (length Short8b10b_data) - 1) (2, 0, 0, 0).

Definition Checker8b10b_data : list Z := [
  0xb5b5b5b5; 0x4a4a4a4a ].

Definition Checker8b10b : PatternData :=
  mkPatternData "Checker8b10b" Checker8b10b_data (Z.of_nat (length Checker8b10b_data) - 1) (1, 0, 0, 1).

Definition Five7_data : list Z := [
  0x55555557; 0x55575555 ].

Definition Five7 : PatternData :=
  mkPatternData "Five7" Five7_data (Z.of_nat (length Five7_data) - 1) (0, 2, 0, 0).

Definition Zero2fd_data : list Z := [
  0x00020002; 0xfffdfffd ].

Definition Zero2fd : PatternData :=
  mkPatternData "Zero2fd" Zero2fd_data (Z.of_nat (length Zero2fd_data) - 1) (0, 2, 0, 0).

Definition pattern_array : list PatternData := [
  walkingOnes; walkingInvOnes; walkingZeros; OneZero; JustZero;
  JustOne; JustFive; JustA; FiveA; FiveA8;
  Long8b10b; Short8b10b; Checker8b10b; Five7; Zero2fd ].

Definition pattern_array_size : Z := Z.of_nat (length pattern_array).

(** ** [class Pattern] *)

Record Pattern := mkPattern {
  pattern_ : PatternData; busshift_ : Z; word_offset_ : Z; inverse_ : bool;
  crc_ : option AdlerChecksum; name_ : string; weight_ : Z
}.

Definition pattern_unshifted (p : Pattern) (offset : Z) : Z :=
  let data := aget 0 (pat (pattern_ p))
    (Z.land (Z.shiftr offset (busshift_ p)) (pd_mask (pattern_ p))) in
  if inverse_ p then not32 data else data.

Definition pattern (p : Pattern) (offset : Z) : Z :=
  if word_offset_ p =? 0 then pattern_unshifted p offset
  else
    let data := aget 0 (pat (pattern_ p))
      (Z.land (Z.shiftr (u32 (offset + word_offset_ p)) (busshift_ p))
         (pd_mask (pattern_ p))) in
    if inverse_ p then not32 data else data.

Definition crc (p : Pattern) : option AdlerChecksum := crc_ p.
Definition mask (p : Pattern) : Z := pd_mask (pattern_ p).
Definition weight (p : Pattern) : Z := u32 (weight_ p).
Definition byte_offset (p : Pattern) : Z := u32 (word_offset_ p * 4).
Definition name (p : Pattern) : string := name_ p.

(** The constructor leaves the other members unset; [crc_ = NULL]. *)
Definition new_Pattern (d : PatternData) : Pattern :=
  mkPattern d 0 0 false None "" 0.

(** The [while (i < count)] loop of [CalculateCrc]. *)
Fixpoint crc_loop (fuel : nat) (p : Pattern) (count i a1 b1 a2 b2 : Z) : AdlerChecksum :=
  match fuel with
  | O => Set_ a1 a2 b1 b2
  | S fuel' =>
      if i <? count then
        let a1 := a1 +64 pattern p i in
        let b1 := b1 +64 a1 in
        let i := i + 1 in
        let a1 := a1 +64 pattern p i in
        let b1 := b1 +64 a1 in
        let i := i + 1 in
        let a2 := a2 +64 pattern p i in
        let b2 := b2 +64 a2 in
        let i := i + 1 in
        let a2 := a2 +64 pattern p i in
        let b2 := b2 +64 a2 in
        let i := i + 1 in
        crc_loop fuel' p count i a1 b1 a2 b2
      else Set_ a1 a2 b1 b2
  end.

(** [blocksize / sizeof i]: 1024 words, four per iteration. *)
Definition CalculateCrc (p : Pattern) : Pattern :=
  let blocksize := 4096 in
  let count := blocksize / 4 in
  {| pattern_ := pattern_ p; busshift_ := busshift_ p; word_offset_ := word_offset_ p;
     inverse_ := inverse_ p; crc_ := Some (crc_loop 1025 p count 0 1 0 1 0);
     name_ := name_ p; weight_ := weight_ p |}.

(** Returns the [result] flag and the initialised object. *)
Definition Initialize (pattern_init : PatternData) (buswidth : Z) (invert : bool)
    (weight byte_offset : Z) : Z * Pattern :=
  let base := (pd_name pattern_init ++ (if invert then "~" else ""))%string in
  let '(result, nm, shift) :=
    if buswidth =? 32 then (1, (base ++ "32")%string, 0)
    else if buswidth =? 64 then (1, (base ++ "64")%string, 1)
    else if buswidth =? 128 then (1, (base ++ "128")%string, 2)
    else if buswidth =? 256 then (1, (base ++ "256")%string, 3)
    else (0, (base ++ "Broken")%string, 2) in
  (result,
   CalculateCrc {| pattern_ := pattern_init; busshift_ := shift;
                   word_offset_ := byte_offset / 4; inverse_ := invert; crc_ := None;
                   name_ := nm; weight_ := weight |}).

(** ** [class PatternList] *)

Record PatternList := mkPatternList {
  patterns_ : list Pattern; weightcount_ : Z; size_ : Z; initialized_ : Z;
  selected_pattern_ids_ : list Z; selected_pattern_cursor_ : Z;
  pattern_byte_offset_ : Z
}.

Definition new_PatternList : PatternList := mkPatternList [] 0 0 0 [] 0 0.

Definition SetByteOffset (pl : PatternList) (byte_offset : Z) : PatternList :=
  mkPatternList (patterns_ pl) (weightcount_ pl) (size_ pl) (initialized_ pl)
    (selected_pattern_ids_ pl) (selected_pattern_cursor_ pl) byte_offset.

(** The body of the loop over [pattern_array]: eight patterns and their weights. *)
Definition init_one (offset : Z) (d : PatternData) : list Pattern * Z :=
  let '(w0, w1, w2, w3) := pd_weight d in
  ([snd (Initialize d 32 false w0 offset); snd (Initialize d 64 false w1 offset);
    snd (Initialize d 128 false w2 offset); snd (Initialize d 256 false w3 offset);
    snd (Initialize d 32 true w0 offset); snd (Initialize d 64 true w1 offset);
    snd (Initialize d 128 true w2 offset); snd (Initialize d 256 true w3 offset)],
   w0 + w1 + w2 + w3 + w0 + w1 + w2 + w3).

Definition PatternList_Initialize (pl : PatternList) : Z * PatternList :=
  let '(ps, weightcount) :=
    fold_left (fun acc d =>
      let '(ps, wc) := acc in
      let '(eight, w) := init_one (pattern_byte_offset_ pl) d in (ps ++ eight, wc + w))
      pattern_array ([], 0) in
  (1, mkPatternList ps weightcount (Z.of_nat (length ps)) 1
        (selected_pattern_ids_ pl) (selected_pattern_cursor_ pl) (pattern_byte_offset_ pl)).

Definition Destroy (pl : PatternList) : Z * PatternList :=
  if initialized_ pl =? 0 then (0, pl)
  else (1, mkPatternList [] (weightcount_ pl) 0 0 [] 0 (pattern_byte_offset_ pl)).

(** A [Pattern *] is the index of the object in [patterns_], or NULL. *)
Definition GetPattern (pl : PatternList) (i : Z) : option Z :=
  if u32 i <? size_ pl then Some i else None.

(** *** Selector parsing *)

Definition chars := list ascii.

Definition is_digit (c : ascii) : bool :=
  let n := Z.of_N (N_of_ascii c) in (48 <=? n) && (n <=? 57).

(** [isspace] in the C locale. *)
Definition is_space (c : ascii) : bool :=
  let n := Z.of_N (N_of_ascii c) in (n =? 32) || ((9 <=? n) && (n <=? 13)).

Definition is_blank (c : ascii) : bool :=
  let n := Z.of_N (N_of_ascii c) in (n =? 32) || (n =? 9).

Fixpoint drop_while (f : ascii -> bool) (l : chars) : chars :=
  match l with [] => [] | c :: r => if f c then drop_while f r else l end.

(** The digits read by [strtol], their value and what is left. *)
Fixpoint read_digits (l : chars) (v : Z) : Z * chars :=
  match l with
  | c :: r => if is_digit c then read_digits r (v * 10 + (Z.of_N (N_of_ascii c) - 48))
              else (v, l)
  | [] => (v, l)
  end.

(** [strtol (s, &end, 10)] with [errno] cleared before: the value when no range error
    occurred and at least one digit was read, with the unread rest. *)
Definition strtol10 (s : chars) : option (Z * chars) :=
  let s := drop_while is_space s in
  let '(neg, s) := match s with
                   | "-"%char :: r => (true, r)
                   | "+"%char :: r => (false, r)
                   | _ => (false, s)
                   end in
  match s with
  | c :: _ =>
      if is_digit c then
        let '(v, rest) := read_digits s 0 in
        let v := if (neg : bool) then - v else v in
        if (v <? - 2 ^ 63) || (2 ^ 63 - 1 <? v) then None else Some (v, rest)
      else None
  | [] => None
  end.

Definition tolower (c : ascii) : ascii :=
  let n := N_of_ascii c in
  if ((65 <=? Z.of_N n) && (Z.of_N n <=? 90))%Z then ascii_of_N (n + 32) else c.

(** [strcasecmp (a, b) == 0]. *)
Definition strcaseeq (a b : chars) : bool :=
  bool_decide (map tolower a = map tolower b).

(** The search loop over the names, from index [i]. *)
Fixpoint find_name (sel : chars) (ps : list Pattern) (i : Z) : Z :=
  match ps with
  | [] => -1
  | p :: r => if strcaseeq sel (list_ascii_of_string (name_ p)) then i
              else find_name sel r (i + 1)
  end.

(** [selector.substr(first, last - first + 1)]. *)
Definition trim (s : chars) : chars :=
  rev (drop_while is_blank (rev (drop_while is_blank s))).

(** One selector: [None] for a [return false]. *)
Definition resolve (pl : PatternList) (selector : chars) : option Z :=
  match trim selector with
  | [] => None
  | sel =>
      match strtol10 sel with
      | Some (pattern_id, []) =>
          if (pattern_id <? 0) || (2 ^ 31 - 1 <? pattern_id) ||
             (size_ pl <=? u32 pattern_id) then None
          else Some pattern_id
      | _ =>
          let id := find_name sel (patterns_ pl) 0 in
          if id <? 0 then None else Some id
      end
  end.

(** The text up to the first comma, and what follows it if there is one. *)
Fixpoint until_comma (s : chars) : chars * option chars :=
  match s with
  | [] => ([], None)
  | c :: r => if ascii_dec c ","%char then ([], Some r)
              else let '(seg, rest) := until_comma r in (c :: seg, rest)
  end.

(** The [while (start <= selectors.size())] loop; [None] is [return false]. *)
Fixpoint selector_loop (fuel : nat) (pl : PatternList) (s : chars) (ids : list Z)
  : option (list Z) :=
  match fuel with
  | O => None
  | S fuel' =>
      let '(seg, rest) := until_comma s in
      match resolve pl seg with
      | None => None
      | Some id =>
          match rest with
          | None => Some (ids ++ [id])
          | Some r => selector_loop fuel' pl r (ids ++ [id])
          end
      end
  end.

Definition SetPatternSequence (pl : PatternList) (selectors : string)
  : bool * PatternList :=
  let s := list_ascii_of_string selectors in
  if (initialized_ pl =? 0) || bool_decide (s = []) then (false, pl)
  else match selector_loop (S (length s)) pl s [] with
       | None => (false, pl)
       | Some ids =>
           (true, mkPatternList (patterns_ pl) (weightcount_ pl) (size_ pl)
                    (initialized_ pl) ids 0 (pattern_byte_offset_ pl))
       end.

(** The [do ... while (i < size_)] loop of [GetRandomPattern]: the index at which the
    remaining target drops to zero or below. *)
Fixpoint weight_loop (ps : list Pattern) (i target : Z) : option Z :=
  match ps with
  | [] => None
  | p :: r =>
      let target := s32 (target - weight p) in
      if target <=? 0 then Some i else weight_loop r (i + 1) target
  end.

(** [rand] is the value [random()] returns. *)
Definition GetRandomPattern (pl : PatternList) (rand : Z) : option Z * PatternList :=
  match selected_pattern_ids_ pl with
  | [] =>
      let target := Z.rem rand (weightcount_ pl) + 1 in
      (weight_loop (patterns_ pl) 0 target, pl)
  | ids =>
      let cursor := selected_pattern_cursor_ pl in
      (Some (aget 0 ids (cursor mod Z.of_nat (length ids))),
       mkPatternList (patterns_ pl) (weightcount_ pl) (size_ pl) (initialized_ pl)
         ids (u32 (cursor + 1)) (pattern_byte_offset_ pl))
  end.

End Patterns.

Module PatternFacts.
Import Adler AdlerFacts Patterns.
Local Open Scope Z_scope.
Local Open Scope list_scope.

(** ** Well-formed pattern data: a power of two of 32-bit words, at most 128 *)

Definition wf_datab (k : nat) (d : PatternData) : bool :=
  (Z.of_nat (length (pat d)) =? 2 ^ Z.of_nat k) && (pd_mask d =? 2 ^ Z.of_nat k - 1) &&
  (k <=? 7)%nat && forallb (fun x => (0 <=? x) && (x <? 2 ^ 32)) (pat d).

Definition wf_data (d : PatternData) : Prop := exists k, wf_datab k d = true.

Record wf_pattern (p : Pattern) : Prop := {
  wf_pd : wf_data (pattern_ p);
  wf_shift : 0 <= busshift_ p <= 3;
  wf_off : 0 <= word_offset_ p < 2 ^ 30
}.

Lemma wf_pattern_array : Forall wf_data pattern_array.
Proof.
  repeat apply Forall_cons_2; [..|apply Forall_nil_2];
    first [by exists 1%nat | by exists 2%nat | by exists 6%nat | by exists 7%nat].
Qed.

Lemma wf_datab_spec k d :
  wf_datab k d = true ->
  Z.of_nat (length (pat d)) = 2 ^ Z.of_nat k /\ pd_mask d = 2 ^ Z.of_nat k - 1 /\
  (k <= 7)%nat /\ Forall (fun x => 0 <= x < 2 ^ 32) (pat d).
Proof.
  unfold wf_datab. rewrite !andb_true_iff, forallb_forall. intros [[[Hl Hm] Hk] Hall].
  bool_to_prop. apply Nat.leb_le in Hk. do 3 (split; [done|]).
  apply List.Forall_forall. intros x Hx. specialize (Hall x Hx). bool_to_prop. lia.
Qed.

(** The word a pattern gives before inversion, as arithmetic on the offset. *)
Definition raw_index (p : Pattern) (offset : Z) : Z :=
  Z.land (Z.shiftr (u32 (offset + word_offset_ p)) (busshift_ p)) (pd_mask (pattern_ p)).

Lemma pattern_raw p offset :
  0 <= offset < 2 ^ 32 ->
  pattern p offset =
  let data := aget 0 (pat (pattern_ p)) (raw_index p offset) in
  if inverse_ p then not32 data else data.
Proof.
  intros Ho. unfold pattern, pattern_unshifted, raw_index. case_if_eqn; [|done].
  bool_to_prop. by rewrite E, Z.add_0_r, u32_id.
Qed.

Lemma raw_index_spec p offset k :
  wf_pattern p -> wf_datab k (pattern_ p) = true ->
  raw_index p offset =
  (u32 (offset + word_offset_ p) / 2 ^ busshift_ p) mod 2 ^ Z.of_nat k.
Proof.
  intros [_ Hs _] Hk. destruct (wf_datab_spec _ _ Hk) as (_ & Hm & _). unfold raw_index.
  rewrite Hm, Z.shiftr_div_pow2 by lia.
  change (2 ^ Z.of_nat k - 1) with (Z.pred (2 ^ Z.of_nat k)).
  rewrite <- Z.ones_equiv. apply Z.land_ones. lia.
Qed.

Lemma raw_index_bounds p offset :
  wf_pattern p -> 0 <= raw_index p offset < Z.of_nat (length (pat (pattern_ p))).
Proof.
  intros Hp. destruct (wf_pd p Hp) as [k Hk]. rewrite (raw_index_spec p offset k Hp Hk).
  destruct (wf_datab_spec _ _ Hk) as (Hl & _). rewrite Hl. apply Z.mod_pos_bound. lia.
Qed.

Lemma pattern_value_bounds p offset :
  wf_pattern p -> 0 <= offset < 2 ^ 32 -> 0 <= pattern p offset < 2 ^ 32.
Proof.
  intros Hp Ho. rewrite pattern_raw by done. cbv zeta.
  destruct (wf_pd p Hp) as [k Hk]. destruct (wf_datab_spec _ _ Hk) as (_ & _ & _ & Hall).
  assert (Hd : 0 <= aget 0 (pat (pattern_ p)) (raw_index p offset) < 2 ^ 32).
  { apply (nth_In_or_default (fun x => 0 <= x < 2 ^ 32)); [done | lia]. }
  destruct (inverse_ p); [by apply not32_bound | done].
Qed.

(** An index shifted by a multiple of the period reads the same element. *)
Lemma div_mod_period x s k m :
  0 <= s -> 0 <= k -> ((x + m * 2 ^ (s + k)) / 2 ^ s) mod 2 ^ k = (x / 2 ^ s) mod 2 ^ k.
Proof.
  intros Hs Hk. rewrite Z.pow_add_r by lia.
  replace (x + m * (2 ^ s * 2 ^ k)) with (x + (m * 2 ^ k) * 2 ^ s) by lia.
  rewrite Z.div_add by lia. apply Z_mod_plus_full.
Qed.

Lemma pattern_period p offset m :
  wf_pattern p -> 0 <= offset < 2 ^ 32 -> 0 <= offset + 1024 * m < 2 ^ 32 ->
  pattern p (offset + 1024 * m) = pattern p offset.
Proof.
  intros Hp Ho Ho'. rewrite !pattern_raw by done. cbv zeta.
  assert (raw_index p (offset + 1024 * m) = raw_index p offset) as ->; [|done].
  destruct (wf_pd p Hp) as [k Hk]. rewrite !(raw_index_spec p _ k Hp Hk).
  destruct (wf_datab_spec _ _ Hk) as (_ & _ & Hk7 & _).
  destruct Hp as [_ Hs Hw].
  set (s := busshift_ p) in *. set (kk := Z.of_nat k).
  pose (y := offset + word_offset_ p).
  assert (Hperiod : 1024 = 2 ^ (10 - (s + kk)) * 2 ^ (s + kk)).
  { rewrite <- Z.pow_add_r by lia. by replace (10 - (s + kk) + (s + kk)) with 10 by lia. }
  assert (Hbig : 2 ^ 32 = 2 ^ (32 - (s + kk)) * 2 ^ (s + kk)).
  { rewrite <- Z.pow_add_r by lia. by replace (32 - (s + kk) + (s + kk)) with 32 by lia. }
  assert (Hu : forall z, u32 z = z + (- (z / 2 ^ 32) * 2 ^ (32 - (s + kk))) * 2 ^ (s + kk)).
  { intros z. unfold u32. pose proof (Z.div_mod z (2 ^ 32)).
    rewrite <- Z.mul_assoc, <- Hbig. lia. }
  rewrite !Hu, !div_mod_period by lia.
  replace (offset + 1024 * m + word_offset_ p)
    with (offset + word_offset_ p + (m * 2 ^ (10 - (s + kk))) * 2 ^ (s + kk))
    by (rewrite <- Z.mul_assoc, <- Hperiod; lia).
  apply div_mod_period; lia.
Qed.

(** ** The list that [Initialize] builds *)

Definition initialized (off : Z) : PatternList :=
  snd (PatternList_Initialize (SetByteOffset new_PatternList off)).

Lemma initialized_patterns off :
  patterns_ (initialized off) = flat_map (fun d => (init_one off d).1) pattern_array.
Proof.
  unfold initialized, PatternList_Initialize, SetByteOffset. cbn [pattern_byte_offset_].
  generalize pattern_array. intros ds.
  assert (H : forall acc w, (fold_left (fun acc d =>
      let '(ps, wc) := acc in
      let '(eight, w) := init_one off d in (ps ++ eight, wc + w)) ds (acc, w)).1 =
      acc ++ flat_map (fun d => (init_one off d).1) ds).
  { induction ds as [|d ds IH]; intros acc w; cbn [fold_left flat_map].
    - by rewrite app_nil_r.
    - destruct (init_one off d) as [eight w']. by rewrite IH, <- app_assoc. }
  specialize (H [] 0). by destruct (fold_left _ _ _).
Qed.

Lemma wf_initialized off :
  0 <= off < 2 ^ 32 -> Forall wf_pattern (patterns_ (initialized off)).
Proof.
  intros Ho. rewrite initialized_patterns. apply List.Forall_forall. intros p Hp.
  apply in_flat_map in Hp as (d & Hd & Hp).
  pose proof (proj1 (List.Forall_forall _ _) wf_pattern_array d Hd) as Hwf.
  unfold init_one in Hp. destruct (pd_weight d) as [[[w0 w1] w2] w3]. cbn [fst In] in Hp.
  assert (0 <= off / 4 < 2 ^ 30)
    by (split; [apply Z.div_pos; lia | apply Z.div_lt_upper_bound; lia]).
  repeat destruct Hp as [<- | Hp]; try (by split; cbn; try lia).
Qed.

(** Every pattern of the list reads its data array in bounds and yields a 32-bit
    word, at every 32-bit offset and for every configured byte offset; and it repeats
    every 1024 words, so each 4096-byte block of a filled page holds the same data. *)
Theorem pattern_total off p :
  0 <= off < 2 ^ 32 -> p ∈ patterns_ (initialized off) ->
  forall offset, 0 <= offset < 2 ^ 32 ->
    0 <= raw_index p offset < Z.of_nat (length (pat (pattern_ p))) /\
    0 <= pattern p offset < 2 ^ 32 /\
    forall m, 0 <= offset + 1024 * m < 2 ^ 32 ->
      pattern p (offset + 1024 * m) = pattern p offset.
Proof.
  intros Hoff Hp offset Ho.
  pose proof (proj1 (Forall_forall _ _) (wf_initialized off Hoff) p Hp) as Hwf.
  split; [by apply raw_index_bounds|]. split; [by apply pattern_value_bounds|].
  intros m Hm. by apply pattern_period.
Qed.

Lemma pattern_total_witness :
  0 <= pattern (nth 24 (patterns_ (initialized 4)) (new_Pattern JustZero)) 1000 < 2 ^ 32.
Proof.
  apply (pattern_total 4 (nth 24 (patterns_ (initialized 4)) (new_Pattern JustZero))).
  - lia.
  - apply list_elem_of_In, nth_In. apply Nat.ltb_lt. vm_compute. reflexivity.
  - lia.
Defined.

(** ** The checksum of a pattern *)

(** The 64-bit word number [i] of memory filled with [p]: two pattern words. *)
Definition pattern_word (p : Pattern) (i : Z) : Z :=
  l64 (pattern p (2 * i)) (pattern p (2 * i + 1)).

Definition pattern_block (p : Pattern) (n : nat) : list Z :=
  map (pattern_word p) (zrange 0 n).

Lemma aget_pattern_block p n i :
  0 <= i < Z.of_nat n -> aget 0 (pattern_block p n) i = pattern_word p i.
Proof.
  intros Hi. apply aget_lookup; [lia|]. unfold pattern_block.
  rewrite list_lookup_fmap, zrange_lookup by lia. cbn. f_equal. f_equal. lia.
Qed.

Lemma pattern_word_bound p i :
  wf_pattern p -> 0 <= i < 2 ^ 31 -> 0 <= pattern_word p i < 2 ^ 64.
Proof.
  intros Hp Hi. apply l64_bound; apply pattern_value_bounds; try done; lia.
Qed.

Lemma pattern_word_period p i m :
  wf_pattern p -> 0 <= i < 2 ^ 31 -> 0 <= i + 512 * m < 2 ^ 31 ->
  pattern_word p (i + 512 * m) = pattern_word p i.
Proof.
  intros Hp Hi Hm. unfold pattern_word.
  replace (2 * (i + 512 * m)) with (2 * i + 1024 * m) by lia.
  replace (2 * i + 1024 * m + 1) with (2 * i + 1 + 1024 * m) by lia.
  rewrite !pattern_period by (done || lia). done.
Qed.

Lemma add_pattern_word p i a b :
  wf_pattern p -> 0 <= i < 2 ^ 31 ->
  add_word (pattern_word p i) (a, b) =
  let a1 := u64 (a + pattern p (2 * i)) in
  let b1 := u64 (b + a1) in
  let a2 := u64 (a1 + pattern p (2 * i + 1)) in
  (a2, u64 (b1 + a2)).
Proof.
  intros Hp Hi. unfold add_word, pattern_word.
  rewrite l64_l32_l, l64_l32_h by (apply pattern_value_bounds; [done | lia]). done.
Qed.

Lemma crc_loop_ref p n k fuel s :
  wf_pattern p -> (n < fuel)%nat -> 0 <= k -> k + Z.of_nat n <= 2 ^ 20 ->
  forall blk, (forall i, 2 * k <= i < 2 * (k + Z.of_nat n) ->
               aget 0 blk i = pattern_word p i) ->
  crc_loop fuel p (4 * (k + Z.of_nat n)) (4 * k) s.1.1 s.1.2 s.2.1 s.2.2 =
  checksum_of (run_from blk k n s).
Proof.
  intros Hp. revert k fuel s.
  induction n as [|n IH]; intros k [|fuel] s Hf Hk Hmax blk Hblk; try lia; cbn [crc_loop].
  - rewrite (proj2 (Z.ltb_ge _ _)) by lia. done.
  - rewrite (proj2 (Z.ltb_lt _ _)) by lia.
    replace (k + Z.of_nat (S n)) with (k + 1 + Z.of_nat n) in * by lia.
    change (run_from blk k (S n) s) with (run_from blk (k + 1) n (pair_step blk s k)).
    assert (Hs : pair_step blk s k =
      (add_word (pattern_word p (2 * k)) s.1, add_word (pattern_word p (2 * k + 1)) s.2)).
    { unfold pair_step. by rewrite !Hblk by lia. }
    rewrite Hs. destruct s as [[a1 b1] [a2 b2]]. cbn [fst snd].
    rewrite !add_pattern_word by (done || lia).
    replace (4 * k + 1 + 1 + 1 + 1) with (4 * (k + 1)) by lia.
    replace (2 * (2 * k)) with (4 * k) by lia.
    replace (2 * (2 * k + 1)) with (4 * k + 1 + 1) by lia.
    match goal with |- _ = checksum_of (run_from _ _ _ ?s') =>
      refine (IH (k + 1) fuel s' _ _ _ blk _); try lia end.
    intros i Hi. apply Hblk. lia.
Qed.

Lemma CalculateCrc_ref p :
  wf_pattern p -> crc_ (CalculateCrc p) = Some (adler_ref (pattern_block p 512) 256).
Proof.
  intros Hp. unfold CalculateCrc, adler_ref. cbn [crc_]. f_equal.
  apply (crc_loop_ref p 256 0 1025 ((1, 0), (1, 0))); try done; try lia.
  intros i Hi. apply aget_pattern_block. lia.
Qed.

Lemma Initialize_crc d bw inv w off :
  exists p0, snd (Initialize d bw inv w off) = CalculateCrc p0.
Proof.
  unfold Initialize. repeat case_if_eqn; match goal with
  | |- exists p0, snd (_, CalculateCrc ?q) = _ => by exists q end.
Qed.

Lemma initialized_crc off p :
  p ∈ patterns_ (initialized off) -> exists p0, p = CalculateCrc p0.
Proof.
  rewrite initialized_patterns, list_elem_of_In, in_flat_map. intros (d & _ & Hp).
  unfold init_one in Hp. destruct (pd_weight d) as [[[w0 w1] w2] w3]. cbn [fst In] in Hp.
  repeat destruct Hp as [<- | Hp]; try apply Initialize_crc; done.
Qed.

(** The checksum stored with a pattern is the one [CalculateAdlerChecksum] finds
    on any 4096-byte block, at any 4096-byte position of a page below 8 GiB, that
    holds the pattern: the fast check accepts every correctly filled block. *)
Theorem crc_matches_filled_block off p b :
  0 <= off < 2 ^ 32 -> p ∈ patterns_ (initialized off) -> 0 <= b < 2 ^ 21 ->
  CalculateAdlerChecksum (map (pattern_word p) (zrange (512 * b) 512)) 4096 = crc p.
Proof.
  intros Hoff Hp Hb.
  pose proof (proj1 (Forall_forall _ _) (wf_initialized off Hoff) p Hp) as Hwf.
  destruct (initialized_crc off p Hp) as [p0 ->].
  assert (Hwf0 : wf_pattern p0) by (by destruct Hwf).
  unfold crc. rewrite CalculateCrc_ref by done.
  change 4096 with (16 * Z.of_nat 256). rewrite Calculate_ref by lia.
  apply (f_equal (fun blk => Some (adler_ref blk 256))).
  unfold pattern_block. apply list_eq. intros i. rewrite !list_lookup_fmap.
  destruct (decide (i < 512)%nat) as [Hi|Hi].
  - rewrite !zrange_lookup by done. cbn. f_equal.
    change (pattern_word (CalculateCrc p0)) with (pattern_word p0).
    replace (512 * b + Z.of_nat i) with (Z.of_nat i + 512 * b) by lia.
    by rewrite pattern_word_period by (done || lia).
  - rewrite !lookup_ge_None_2 by (rewrite length_zrange; lia). done.
Qed.

Lemma crc_matches_filled_block_witness :
  CalculateAdlerChecksum
    (map (pattern_word (snd (Initialize OneZero 64 false 5 8))) (zrange (512 * 3) 512)) 4096
  = crc (snd (Initialize OneZero 64 false 5 8)).
Proof.
  apply (crc_matches_filled_block 8); [lia | | lia].
  rewrite initialized_patterns. apply list_elem_of_In, in_flat_map.
  exists OneZero. split; [do 3 right; left; reflexivity | right; left; reflexivity].
Defined.

(** ** Weighted choice *)

Fixpoint weight_sum (ws : list Z) : Z :=
  match ws with [] => 0 | w :: r => w + weight_sum r end.

(** [W off i] is the total weight of the patterns before index [i]. *)
Definition W (off : Z) (i : nat) : Z :=
  weight_sum (take i (map weight (patterns_ (initialized off)))).

Lemma weight_sum_nonneg ws : Forall (fun w => 0 <= w) ws -> 0 <= weight_sum ws.
Proof. induction 1; cbn; lia. Qed.

Lemma weight_sum_mono ws i j :
  Forall (fun w => 0 <= w) ws -> (i <= j)%nat ->
  weight_sum (take i ws) <= weight_sum (take j ws).
Proof.
  intros Hws. revert i j. induction Hws as [|w ws Hw Hws IH]; intros [|i] [|j] Hij;
    cbn; try lia.
  - pose proof (weight_sum_nonneg (take j ws) (Forall_take _ _ _ Hws)). lia.
  - specialize (IH i j). lia.
Qed.

Lemma weight_loop_spec ps j target :
  Forall (fun w => 0 <= w) (map weight ps) ->
  0 < target <= weight_sum (map weight ps) -> weight_sum (map weight ps) < 2 ^ 31 ->
  exists i : nat, weight_loop ps j target = Some (j + Z.of_nat i) /\
    (i < length ps)%nat /\
    weight_sum (take i (map weight ps)) < target <= weight_sum (take (S i) (map weight ps)).
Proof.
  revert j target. induction ps as [|p ps IH]; intros j target Hpos Ht Hmax;
    cbn [map weight_sum length weight_loop] in *; [lia|].
  apply Forall_cons in Hpos as [Hp Hpos].
  pose proof (weight_sum_nonneg _ Hpos).
  rewrite s32_id by lia. case_if_eqn; bool_to_prop.
  - exists O. cbn [firstn weight_sum]. rewrite take_0. cbn [weight_sum].
    split; [f_equal|]; lia.
  - destruct (IH (j + 1) (target - weight p)) as (i & Hi & Hlen & Hw); [done | lia | lia |].
    exists (S i). rewrite Hi. split; [f_equal; lia|]. split; [lia|].
    change (take (S i) (weight p :: map weight ps)) with (weight p :: take i (map weight ps)).
    change (take (S (S i)) (weight p :: map weight ps))
      with (weight p :: take (S i) (map weight ps)). cbn [weight_sum]. lia.
Qed.

Lemma initialized_weights off :
  map weight (patterns_ (initialized off)) =
  flat_map (fun d => let '(w0, w1, w2, w3) := pd_weight d in
                     [w0; w1; w2; w3; w0; w1; w2; w3]) pattern_array.
Proof. rewrite initialized_patterns. reflexivity. Qed.

Lemma initialized_size off : length (patterns_ (initialized off)) = 120%nat.
Proof. rewrite initialized_patterns. reflexivity. Qed.

Lemma weights_nonneg off : Forall (fun w => 0 <= w) (map weight (patterns_ (initialized off))).
Proof.
  rewrite initialized_weights. apply List.Forall_forall. intros w Hw.
  apply Z.leb_le. revert w Hw. apply (forallb_forall (Z.leb 0)). reflexivity.
Qed.

Lemma W_total off : W off 120 = 160 /\ weightcount_ (initialized off) = 160.
Proof. unfold W. rewrite initialized_weights. split; reflexivity. Qed.

(** Without a -P list the choice is total and exactly weighted: among the 160
    residues of the random value, pattern [i] is chosen for precisely the [weight i]
    consecutive ones from [W i] on, so no call runs past the list, patterns of weight
    zero are never chosen and a pattern of weight [w] is chosen [w] times out of 160. *)
Theorem GetRandomPattern_weighted off rand i :
  0 <= rand < 2 ^ 31 ->
  (exists k, GetRandomPattern (initialized off) rand = (Some k, initialized off) /\
             0 <= k < 120) /\
  ((i < 120)%nat ->
   ((GetRandomPattern (initialized off) rand).1 = Some (Z.of_nat i) <->
    W off i <= rand mod 160 < W off (S i))).
Proof.
  intros Hr. destruct (W_total off) as [HW Hwc].
  assert (Hg : GetRandomPattern (initialized off) rand =
    (weight_loop (patterns_ (initialized off)) 0 (rand mod 160 + 1), initialized off)).
  { unfold GetRandomPattern. change (selected_pattern_ids_ (initialized off)) with (@nil Z).
    cbv beta iota zeta. rewrite Hwc, Z.rem_mod_nonneg by lia. done. }
  assert (Hall : weight_sum (map weight (patterns_ (initialized off))) = 160).
  { rewrite <- HW. unfold W. rewrite take_ge; [done|].
    rewrite length_map, initialized_size. lia. }
  pose proof (Z.mod_pos_bound rand 160).
  destruct (weight_loop_spec (patterns_ (initialized off)) 0 (rand mod 160 + 1))
    as (k & Hk & Hlen & HkW); [apply weights_nonneg | lia | lia |].
  rewrite initialized_size in Hlen. rewrite Hg, Hk.
  fold (W off k) in HkW. fold (W off (S k)) in HkW. split.
  - exists (0 + Z.of_nat k). split; [done | lia].
  - intros Hi. cbn [fst]. pose proof (weights_nonneg off) as Hpos.
    assert (Hmono : forall a b, (a <= b)%nat -> W off a <= W off b)
      by (intros a b Hab; by apply weight_sum_mono). split.
    + intros [= He]. assert (k = i) as -> by lia. lia.
    + intros Hw. f_equal. destruct (lt_eq_lt_dec k i) as [[Hlt| ->]|Hlt]; [|lia|].
      * pose proof (Hmono (S k) i Hlt). lia.
      * pose proof (Hmono (S i) k Hlt). lia.
Qed.

Lemma GetRandomPattern_weighted_witness :
  (GetRandomPattern (initialized 0) 163).1 = Some (Z.of_nat 2).
Proof. apply (GetRandomPattern_weighted 0 163 2); [lia | lia |]. split; reflexivity || discriminate. Defined.

(** ** The -P list *)

Definition wf_list (pl : PatternList) : Prop :=
  size_ pl = Z.of_nat (length (patterns_ pl)) /\ size_ pl <= 2 ^ 31.

Lemma find_name_range sel ps i :
  0 <= i -> find_name sel ps i = -1 \/ i <= find_name sel ps i < i + Z.of_nat (length ps).
Proof.
  revert i. induction ps as [|p ps IH]; intros i Hi; cbn [find_name length]; [by left|].
  case_if_eqn; [right; lia|]. destruct (IH (i + 1)) as [H|H]; [lia | by left | right; lia].
Qed.

Lemma resolve_range pl s id :
  wf_list pl -> resolve pl s = Some id -> 0 <= id < size_ pl.
Proof.
  intros [Hs Hmax]. unfold resolve.
  assert (Hname : forall sel, (if find_name sel (patterns_ pl) 0 <? 0 then None
             else Some (find_name sel (patterns_ pl) 0)) = Some id -> 0 <= id < size_ pl).
  { intros sel. pose proof (find_name_range sel (patterns_ pl) 0).
    case_if_eqn; [done|]. intros [= <-]. bool_to_prop. lia. }
  destruct (trim s) as [|c sel]; [done|].
  destruct (strtol10 (c :: sel)) as [[v [|]]|]; [| apply Hname ..].
  case_if_eqn; [done|]. intros [= <-]. bool_to_prop.
  rewrite u32_id in * by lia. lia.
Qed.

Lemma selector_loop_range fuel pl s acc ids :
  wf_list pl -> Forall (fun id => 0 <= id < size_ pl) acc ->
  selector_loop fuel pl s acc = Some ids ->
  ids <> [] /\ Forall (fun id => 0 <= id < size_ pl) ids.
Proof.
  intros Hwf. revert s acc. induction fuel as [|fuel IH]; intros s acc Hacc; [done|].
  cbn [selector_loop]. destruct (until_comma s) as [seg rest].
  destruct (resolve pl seg) as [id|] eqn:Hr; [|done].
  apply resolve_range in Hr; [|done].
  assert (Hacc' : Forall (fun id => 0 <= id < size_ pl) (acc ++ [id]))
    by (apply Forall_app_2; auto).
  destruct rest; [by apply IH|]. intros [= <-]. split; [by destruct acc | done].
Qed.

(** Successive calls, one per random value. *)
Fixpoint calls (pl : PatternList) (rands : list Z) : list (option Z) :=
  match rands with
  | [] => []
  | r :: rands' => let '(res, pl') := GetRandomPattern pl r in res :: calls pl' rands'
  end.

Lemma calls_cycle pl rands k ids :
  selected_pattern_ids_ pl = ids -> ids <> [] -> 0 <= selected_pattern_cursor_ pl ->
  selected_pattern_cursor_ pl + Z.of_nat (length rands) <= 2 ^ 32 ->
  (k < length rands)%nat ->
  calls pl rands !! k =
  Some (Some (aget 0 ids ((selected_pattern_cursor_ pl + Z.of_nat k) mod Z.of_nat (length ids)))).
Proof.
  revert pl k. induction rands as [|r rands IH]; intros pl k Hids Hne Hc Hmax Hk;
    cbn [length calls] in *; [lia|].
  unfold GetRandomPattern. rewrite Hids. destruct ids as [|id ids]; [done|].
  destruct k as [|k]; [by rewrite Z.add_0_r|].
  cbn [lookup list_lookup]. rewrite IH; cbn [selected_pattern_ids_ selected_pattern_cursor_];
    try done; try apply u32_bound; try lia.
  - destruct (decide (length rands = O)); [lia|]. rewrite u32_id by lia.
    do 4 f_equal. lia.
  - destruct (decide (selected_pattern_cursor_ pl + 1 < 2 ^ 32)); [rewrite u32_id; lia|].
    assert (length rands = O) by lia. lia.
Qed.

(** [SetPatternSequence] either rejects the text and leaves the list as it was, or
    installs a non-empty list of valid ids which the following calls hand out in
    order, cyclically and whatever the random values, for the first 2^32 calls. *)
Theorem SetPatternSequence_spec pl text ok pl' :
  wf_list pl -> SetPatternSequence pl text = (ok, pl') ->
  if ok then
    let ids := selected_pattern_ids_ pl' in
    ids <> [] /\ Forall (fun id => 0 <= id < size_ pl') ids /\
    patterns_ pl' = patterns_ pl /\ wf_list pl' /\
    forall rands k, Z.of_nat (length rands) <= 2 ^ 32 -> (k < length rands)%nat ->
      calls pl' rands !! k = Some (Some (aget 0 ids (Z.of_nat k mod Z.of_nat (length ids))))
  else pl' = pl.
Proof.
  intros Hwf. unfold SetPatternSequence. case_if_eqn; [by intros [= <- <-]|].
  destruct (selector_loop _ _ _ _) as [ids|] eqn:Hl; intros [= <- <-]; [|done].
  destruct (selector_loop_range _ _ _ _ _ Hwf (List.Forall_nil _) Hl) as [Hne Hall].
  cbn. do 4 (split; [done|]). intros rands k Hmax Hk.
  by rewrite (calls_cycle _ _ _ ids).
Qed.

Lemma SetPatternSequence_spec_witness :
  let pl := initialized 0 in
  (SetPatternSequence pl "17 , walkingones~256,3").1 = true /\
  exists pl', SetPatternSequence pl "17 , walkingones~256,3" = (true, pl') /\
    calls pl' [5; 5; 5; 5] !! 3%nat = Some (Some 17).
Proof.
  intros pl. assert (Hwf : wf_list pl).
  { split; [reflexivity|]. discriminate. }
  assert (He : SetPatternSequence pl "17 , walkingones~256,3" =
    (true, mkPatternList (patterns_ pl) (weightcount_ pl) (size_ pl) (initialized_ pl)
             [17; 7; 3] 0 (pattern_byte_offset_ pl))) by reflexivity.
  split; [by rewrite He|]. eexists. split; [exact He|].
  pose proof (SetPatternSequence_spec pl "17 , walkingones~256,3" _ _ Hwf He) as Hs.
  cbv beta iota zeta in Hs. destruct Hs as (_ & _ & _ & _ & Hs).
  rewrite Hs; [reflexivity | discriminate | cbn; lia].
Defined.

(** The text of a -P list given by names. *)
Definition names : list string :=
  flat_map (fun d => map (fun suffix => (pd_name d ++ suffix)%string)
    ["32"; "64"; "128"; "256"; "~32"; "~64"; "~128"; "~256"]%string) pattern_array.

Lemma initialized_names off : map name_ (patterns_ (initialized off)) = names.
Proof. rewrite initialized_patterns. reflexivity. Qed.

Lemma find_name_map sel ps ps' i :
  map name_ ps = map name_ ps' -> find_name sel ps i = find_name sel ps' i.
Proof.
  revert ps' i. induction ps as [|p ps IH]; intros [|p' ps'] i H; try done.
  injection H as H1 H2. cbn [find_name]. rewrite H1. by rewrite (IH ps').
Qed.

(** A list with the same names and no data: enough to run the selector parser. *)
Definition name_only (n : string) : Pattern := mkPattern JustZero 0 0 false None n 0.
Definition skeleton : PatternList :=
  mkPatternList (map name_only names) 0 120 1 [] 0 0.

Lemma resolve_skeleton off sel : resolve (initialized off) sel = resolve skeleton sel.
Proof.
  unfold resolve. change (size_ (initialized off)) with (size_ skeleton).
  destruct (trim sel) as [|c l]; [done|].
  rewrite (find_name_map _ (patterns_ (initialized off)) (patterns_ skeleton));
    [done | rewrite initialized_names; reflexivity].
Qed.

Definition no_comma (l : chars) : bool :=
  forallb (fun c => if ascii_dec c ","%char then false else true) l.

Definition name_chars (i : Z) : chars := list_ascii_of_string (aget EmptyString names i).

Lemma names_resolve i :
  0 <= i < 120 ->
  resolve skeleton (name_chars i) = Some i /\ no_comma (name_chars i) = true.
Proof.
  intros Hi.
  assert (Hc : forallbZ 0 120 (fun i => bool_decide (resolve skeleton (name_chars i) = Some i)
               && no_comma (name_chars i)) = true) by (vm_compute; reflexivity).
  pose proof (forallbZ_spec _ _ _ Hc i) as H. cbv beta in H.
  specialize (H ltac:(lia)). apply andb_true_iff in H as [H1 H2].
  split; [exact (bool_decide_eq_true_1 _ H1) | exact H2].
Qed.

Lemma until_comma_end l : no_comma l = true -> until_comma l = (l, None).
Proof.
  induction l as [|c l IH]; [done|]. cbn. destruct (ascii_dec c ","%char); [done|].
  intros H. by rewrite IH.
Qed.

Lemma until_comma_app l r :
  no_comma l = true -> until_comma (l ++ ","%char :: r) = (l, Some r).
Proof.
  induction l as [|c l IH]; [done|]. cbn. destruct (ascii_dec c ","%char); [done|].
  intros H. by rewrite IH.
Qed.

(** [id1,id2,...] as characters. *)
Fixpoint join (ids : list Z) : chars :=
  match ids with
  | [] => []
  | [i] => name_chars i
  | i :: ids' => name_chars i ++ ","%char :: join ids'
  end.

Lemma join_length ids : (length ids <= S (length (join ids)))%nat.
Proof.
  induction ids as [|i [|j ids] IH]; [cbn; lia | cbn [length]; lia |].
  change (join (i :: j :: ids)) with (name_chars i ++ ","%char :: join (j :: ids)).
  rewrite length_app. cbn [length] in *. lia.
Qed.

Lemma selector_loop_join off fuel ids acc :
  Forall (fun i => 0 <= i < 120) ids -> ids <> [] -> (length ids <= fuel)%nat ->
  selector_loop fuel (initialized off) (join ids) acc = Some (acc ++ ids).
Proof.
  intros Hall. revert fuel acc. induction Hall as [|i ids Hi Hall IH]; [done|].
  intros [|fuel] acc _ Hf; [cbn in Hf; lia|]. cbn [length] in Hf.
  destruct (names_resolve i Hi) as [Hr Hc]. destruct ids as [|j ids].
  - cbn [join selector_loop]. by rewrite (until_comma_end _ Hc), resolve_skeleton, Hr.
  - change (join (i :: j :: ids)) with (name_chars i ++ ","%char :: join (j :: ids)).
    cbn [selector_loop]. rewrite (until_comma_app _ _ Hc), resolve_skeleton, Hr.
    rewrite IH by (done || lia). by rewrite <- app_assoc.
Qed.

(** Naming patterns round-trips: the names the list gives its 120 patterns are
    unambiguous, so the comma-separated names of any non-empty sequence of patterns
    select exactly that sequence. *)
Theorem SetPatternSequence_names off ids :
  ids <> [] -> Forall (fun i => 0 <= i < 120) ids ->
  let text := string_of_list_ascii (join ids) in
  (SetPatternSequence (initialized off) text).1 = true /\
  selected_pattern_ids_ (SetPatternSequence (initialized off) text).2 = ids.
Proof.
  intros Hne Hall text. unfold SetPatternSequence, text.
  rewrite list_ascii_of_string_of_list_ascii.
  change (initialized_ (initialized off)) with 1. cbn [Z.eqb orb].
  rewrite bool_decide_eq_false_2.
  - rewrite (selector_loop_join off _ ids []); [done..|].
    pose proof (join_length ids). lia.
  - destruct ids as [|i [|j ids]]; [done| |].
    + apply Forall_cons in Hall as [Hi _]. intros Hj. cbn [join] in Hj.
      destruct (names_resolve i Hi) as [Hr _]. rewrite Hj in Hr. done.
    + change (join (i :: j :: ids)) with (name_chars i ++ ","%char :: join (j :: ids)).
      by destruct (name_chars i).
Qed.

Lemma SetPatternSequence_names_witness :
  selected_pattern_ids_ (SetPatternSequence (initialized 0)
    "walkingOnes~256,OneZero32,JustA128").2 = [7; 24; 58].
Proof.
  apply (SetPatternSequence_names 0 [7; 24; 58]); [done|].
  repeat constructor; lia || discriminate.
Defined.

End PatternFacts.
