(* ===== verification/Invert.v ===== *)
(** The Invert workload: [src/src/invert_workload.h], the page passes of
    [InvertThread] in [src/src/worker.cc] and the range selection of [src/src/sat.h].

    Memory is a list of 32-bit words and a pointer an index into it.  The flush hints
    do not change memory; the model records the addresses they are called with. *)

From S2P Require Import Prelude.

Module Invert.

(** The inner [for] loop of [InvertWordsUp]: [n] words from [iter] on. *)
Fixpoint up_line (n : nat) (mem : list Z) (iter : Z) : list Z * Z :=
  match n with
  | O => (mem, iter)
  | S n' => up_line n' (aset mem iter (not32 (aget 0 mem iter))) (iter + 1)
  end.

(** [while (iter != end)]; [None] when the fuel runs out first. *)
Fixpoint up_loop (fuel : nat) (mem : list Z) (iter end_ flush_interval_words : Z)
    (hints : list Z) : option (list Z * list Z) :=
  match fuel with
  | O => None
  | S fuel' =>
      if iter =? end_ then Some (mem, hints)
      else
        let '(mem, iter) := up_line (Z.to_nat flush_interval_words) mem iter in
        up_loop fuel' mem iter end_ flush_interval_words
          (hints ++ [iter - flush_interval_words])
  end.

Fixpoint down_line (n : nat) (mem : list Z) (iter : Z) : list Z * Z :=
  match n with
  | O => (mem, iter)
  | S n' =>
      let iter := iter - 1 in
      down_line n' (aset mem iter (not32 (aget 0 mem iter))) iter
  end.

Fixpoint down_loop (fuel : nat) (mem : list Z) (iter base flush_interval_words : Z)
    (hints : list Z) : option (list Z * list Z) :=
  match fuel with
  | O => None
  | S fuel' =>
      if iter =? base then Some (mem, hints)
      else
        let '(mem, iter) := down_line (Z.to_nat flush_interval_words) mem iter in
        down_loop fuel' mem iter base flush_interval_words (hints ++ [iter])
  end.

(** The guard both functions share; [base = None] is a null pointer and
    [flush_hint = false] a null function pointer. *)
Definition bad_arguments (base : option Z) (words flush_interval_words : Z)
    (flush_hint : bool) : bool :=
  match base with None => true | Some _ => false end || (words <? 0) ||
  (flush_interval_words <=? 0) || negb (Z.rem words flush_interval_words =? 0) ||
  negb flush_hint.

(** The result, the memory and the hint addresses; [None]: the loop did not finish. *)
Definition InvertWordsUp (mem : list Z) (base : option Z)
    (words flush_interval_words : Z) (flush_hint : bool)
  : option (bool * list Z * list Z) :=
  if bad_arguments base words flush_interval_words flush_hint then Some (false, mem, [])
  else
    let base := default 0 base in
    match up_loop (S (Z.to_nat words)) mem base (base + words) flush_interval_words [] with
    | Some (mem, hints) => Some (true, mem, hints)
    | None => None
    end.

Definition InvertWordsDown (mem : list Z) (base : option Z)
    (words flush_interval_words : Z) (flush_hint : bool)
  : option (bool * list Z * list Z) :=
  if bad_arguments base words flush_interval_words flush_hint then Some (false, mem, [])
  else
    let base := default 0 base in
    match down_loop (S (Z.to_nat words)) mem (base + words) base flush_interval_words [] with
    | Some (mem, hints) => Some (true, mem, hints)
    | None => None
    end.

(** *** [Sat::invert_range_bytes], and the page passes *)

Inductive InvertRange := INVERT_RANGE_FULL | INVERT_RANGE_LEGACY.

Definition invert_range_bytes (invert_range : InvertRange) (page_length : Z) : Z :=
  match invert_range with
  | INVERT_RANGE_FULL => page_length
  | INVERT_RANGE_LEGACY =>
      let block_size := 4096 in
      let uint64_words_per_block := block_size / 8 in
      page_length / block_size * uint64_words_per_block * 4
  end.

Definition kCacheLineSize : Z := 64.

(** The memory effect of [InvertPageUp] and [InvertPageDown] on the page at [addr];
    [None]: [sat_assert(inverted)] fails. *)
Definition InvertPageUp (range : InvertRange) (page_length : Z) (addr : Z) (mem : list Z)
  : option (list Z) :=
  let invert_flush_interval := kCacheLineSize / 4 in
  let words := invert_range_bytes range page_length / 4 in
  match InvertWordsUp mem (Some addr) words invert_flush_interval true with
  | Some (true, mem, _) => Some mem
  | _ => None
  end.

Definition InvertPageDown (range : InvertRange) (page_length : Z) (addr : Z) (mem : list Z)
  : option (list Z) :=
  let invert_flush_interval := kCacheLineSize / 4 in
  let words := invert_range_bytes range page_length / 4 in
  match InvertWordsDown mem (Some addr) words invert_flush_interval true with
  | Some (true, mem, _) => Some mem
  | _ => None
  end.

(** The four passes of one iteration of [InvertThread::Work]. *)
Definition invert_passes (range : InvertRange) (page_length addr : Z) (mem : list Z)
  : option (list Z) :=
  InvertPageUp range page_length addr mem ≫= fun mem =>
  InvertPageDown range page_length addr mem ≫= fun mem =>
  InvertPageDown range page_length addr mem ≫= fun mem =>
  InvertPageUp range page_length addr mem.

End Invert.

Module InvertFacts.
Import Invert.

(** The specification: complement the words of [[base, base + n)]. *)
Definition inverted (mem : list Z) (base : Z) (n : nat) : list Z :=
  imap (fun i w => if decide (base <= Z.of_nat i < base + Z.of_nat n) then not32 w else w) mem.

Lemma lookup_inverted mem base n i :
  inverted mem base n !! i =
  (fun w => if decide (base <= Z.of_nat i < base + Z.of_nat n) then not32 w else w) <$> mem !! i.
Proof. unfold inverted. rewrite list_lookup_imap. done. Qed.

Lemma length_inverted mem base n : length (inverted mem base n) = length mem.
Proof. apply length_imap. Qed.

(** One store: [*iter = ~*iter]. *)
Lemma flip_inverted mem base n i :
  0 <= i < Z.of_nat (length mem) -> 0 <= base ->
  i = base + Z.of_nat n \/ i = base - 1 ->
  aset (inverted mem base n) i (not32 (aget 0 (inverted mem base n) i)) =
  inverted mem (Z.min i base) (S n).
Proof.
  intros Hi Hb Hend. unfold aset. apply list_eq. intros j.
  destruct (lookup_lt_is_Some_2 mem (Z.to_nat i)) as [w Hw]; [lia|].
  assert (Hg : aget 0 (inverted mem base n) i = w).
  { unfold aget. apply nth_lookup_Some. rewrite lookup_inverted, Hw. cbn.
    by rewrite decide_False by lia. }
  rewrite Hg. destruct (decide (j = Z.to_nat i)) as [->|Hne].
  - rewrite list_lookup_insert_eq by (rewrite length_inverted; lia).
    rewrite lookup_inverted, Hw. cbn. by rewrite decide_True by lia.
  - rewrite list_lookup_insert_ne by done. rewrite !lookup_inverted.
    destruct (mem !! j) as [v|]; [|done]. cbn.
    f_equal. apply decide_ext. lia.
Qed.

Lemma inverted_0 mem base : inverted mem base 0 = mem.
Proof.
  apply list_eq. intros i. rewrite lookup_inverted. destruct (mem !! i); [|done].
  cbn. by rewrite decide_False by lia.
Qed.

Lemma inverted_involutive mem base n : inverted (inverted mem base n) base n = mem.
Proof.
  apply list_eq. intros i. rewrite !lookup_inverted. destruct (mem !! i) as [w|]; [|done].
  cbn. case_decide; [by rewrite not32_involutive | done].
Qed.

Lemma up_line_spec n mem base d :
  0 <= base -> base + Z.of_nat (d + n) <= Z.of_nat (length mem) ->
  up_line n (inverted mem base d) (base + Z.of_nat d) =
  (inverted mem base (d + n), base + Z.of_nat (d + n)).
Proof.
  revert d. induction n as [|n IH]; intros d Hb Hl; cbn [up_line].
  - by rewrite Nat.add_0_r.
  - rewrite flip_inverted by lia. rewrite Z.min_r by lia.
    replace (base + Z.of_nat d + 1) with (base + Z.of_nat (S d)) by lia.
    rewrite IH by lia. by replace (S d + n)%nat with (d + S n)%nat by lia.
Qed.

Lemma down_line_spec n mem base d :
  0 <= base - Z.of_nat n -> base + Z.of_nat d <= Z.of_nat (length mem) ->
  down_line n (inverted mem base d) base =
  (inverted mem (base - Z.of_nat n) (d + n), base - Z.of_nat n).
Proof.
  revert base d. induction n as [|n IH]; intros base d Hb Hl; cbn [down_line].
  - by rewrite Nat.add_0_r, Z.sub_0_r.
  - rewrite flip_inverted by lia. rewrite Z.min_l by lia.
    rewrite IH by lia.
    replace (S d + n)%nat with (d + S n)%nat by lia.
    by replace (base - 1 - Z.of_nat n) with (base - Z.of_nat (S n)) by lia.
Qed.

(** The first word of each flush line, in increasing order. *)
Definition line_starts (base iv : Z) (k : nat) : list Z :=
  map (fun i => base + i * iv) (zrange 0 k).

Lemma up_loop_spec k j fuel mem base iv hints :
  0 <= base -> (0 < iv)%nat -> (k < fuel)%nat ->
  base + Z.of_nat ((j + k) * iv) <= Z.of_nat (length mem) ->
  up_loop fuel (inverted mem base (j * iv)) (base + Z.of_nat (j * iv))
    (base + Z.of_nat ((j + k) * iv)) (Z.of_nat iv) hints =
  Some (inverted mem base ((j + k) * iv),
        hints ++ map (fun i => base + i * Z.of_nat iv) (zrange (Z.of_nat j) k)).
Proof.
  intros Hb Hiv. revert j fuel hints.
  induction k as [|k IH]; intros j [|fuel] hints Hf Hl; try lia; cbn [up_loop].
  - rewrite (proj2 (Z.eqb_eq _ _)) by (f_equal; lia).
    by rewrite Nat.add_0_r, app_nil_r.
  - rewrite (proj2 (Z.eqb_neq _ _)) by nia.
    rewrite Nat2Z.id, up_line_spec by (done || nia).
    replace (j * iv + iv)%nat with (S j * iv)%nat by lia.
    replace (j + S k)%nat with (S j + k)%nat in * by lia.
    rewrite IH by lia. cbn [zrange map]. rewrite <- app_assoc.
    replace (base + Z.of_nat (S j * iv) - Z.of_nat iv) with (base + Z.of_nat j * Z.of_nat iv)
      by lia.
    by replace (Z.of_nat (S j)) with (Z.of_nat j + 1) by lia.
Qed.

Lemma down_loop_spec k j fuel mem base iv hints :
  0 <= base -> (0 < iv)%nat -> (k < fuel)%nat ->
  base + Z.of_nat ((k + j) * iv) <= Z.of_nat (length mem) ->
  down_loop fuel (inverted mem (base + Z.of_nat (k * iv)) (j * iv))
    (base + Z.of_nat (k * iv)) base (Z.of_nat iv) hints =
  Some (inverted mem base ((k + j) * iv), hints ++ rev (line_starts base (Z.of_nat iv) k)).
Proof.
  intros Hb Hiv. unfold line_starts. revert j fuel hints.
  induction k as [|k IH]; intros j [|fuel] hints Hf Hl; try lia; cbn [down_loop].
  - rewrite (proj2 (Z.eqb_eq _ _)) by lia.
    replace (base + Z.of_nat (0 * iv)) with base by lia. cbn. by rewrite app_nil_r.
  - rewrite (proj2 (Z.eqb_neq _ _)) by nia.
    rewrite Nat2Z.id, down_line_spec by nia.
    replace (base + Z.of_nat (S k * iv) - Z.of_nat iv) with (base + Z.of_nat (k * iv)) by lia.
    replace (j * iv + iv)%nat with (S j * iv)%nat by lia.
    replace (S k + j)%nat with (k + S j)%nat in * by lia.
    rewrite IH by lia. rewrite zrange_S_r, map_app, rev_app_distr. cbn [map rev app].
    rewrite <- app_assoc. cbn [app]. do 4 f_equal. lia.
Qed.

Lemma good_arguments base k iv :
  (0 < iv)%nat ->
  bad_arguments (Some base) (Z.of_nat (k * iv)) (Z.of_nat iv) true = false.
Proof.
  intros Hiv. unfold bad_arguments. cbn [orb negb].
  rewrite Nat2Z.inj_mul, Z.rem_mul by lia.
  rewrite (proj2 (Z.ltb_ge _ _)), (proj2 (Z.leb_gt _ _)) by lia. done.
Qed.

Lemma InvertWordsUp_ok mem base k iv :
  0 <= base -> (0 < iv)%nat -> base + Z.of_nat (k * iv) <= Z.of_nat (length mem) ->
  InvertWordsUp mem (Some base) (Z.of_nat (k * iv)) (Z.of_nat iv) true =
  Some (true, inverted mem base (k * iv), line_starts base (Z.of_nat iv) k).
Proof.
  intros Hb Hiv Hl. unfold InvertWordsUp. rewrite good_arguments by done.
  change (default 0 (Some base)) with base.
  pose proof (up_loop_spec k 0 (S (k * iv)) mem base iv []) as H.
  cbn [Nat.mul Nat.add] in H. rewrite inverted_0 in H.
  rewrite Nat2Z.id. replace (base + Z.of_nat 0) with base in H by lia.
  rewrite H by (done || nia). done.
Qed.

Lemma InvertWordsDown_ok mem base k iv :
  0 <= base -> (0 < iv)%nat -> base + Z.of_nat (k * iv) <= Z.of_nat (length mem) ->
  InvertWordsDown mem (Some base) (Z.of_nat (k * iv)) (Z.of_nat iv) true =
  Some (true, inverted mem base (k * iv), rev (line_starts base (Z.of_nat iv) k)).
Proof.
  intros Hb Hiv Hl. unfold InvertWordsDown. rewrite good_arguments by done.
  change (default 0 (Some base)) with base.
  pose proof (down_loop_spec k 0 (S (k * iv)) mem base iv []) as H.
  rewrite Nat.add_0_r, Nat.mul_0_l, inverted_0 in H. rewrite Nat2Z.id.
  rewrite H by (done || nia). done.
Qed.

(** Both directions invert exactly the requested range, one hint per line: for
    every argument list the call terminates; a null pointer, a negative count, a
    non-positive interval, a count that is no multiple of it or a null hint is refused
    with memory untouched; otherwise the words of the range are complemented, the
    others kept, and the hint is called once per line, on the line's first word, in
    the direction of the walk. *)
Theorem InvertWords_spec mem base words iv hint :
  (bad_arguments base words iv hint = true ->
     InvertWordsUp mem base words iv hint = Some (false, mem, []) /\
     InvertWordsDown mem base words iv hint = Some (false, mem, [])) /\
  (bad_arguments base words iv hint = false ->
     exists b, base = Some b /\
     (0 <= b -> b + words <= Z.of_nat (length mem) ->
      let starts := line_starts b iv (Z.to_nat (words / iv)) in
      let mem' := inverted mem b (Z.to_nat words) in
      InvertWordsUp mem base words iv hint = Some (true, mem', starts) /\
      InvertWordsDown mem base words iv hint = Some (true, mem', rev starts))).
Proof.
  split.
  - intros H. unfold InvertWordsUp, InvertWordsDown. by rewrite H.
  - intros H. unfold bad_arguments in H.
    destruct base as [b|]; [|done]. exists b. split; [done|]. intros Hb Hl starts mem'.
    destruct hint; [|by rewrite orb_true_r in H]. bool_to_prop.
    rewrite Z.rem_mod_nonneg in * by lia.
    pose proof (Z.div_mod words iv). pose proof (Z.div_pos words iv).
    assert (exists k n, words = Z.of_nat (k * n) /\ iv = Z.of_nat n /\ (0 < n)%nat)
      as (k & n & -> & -> & Hn)
      by (exists (Z.to_nat (words / iv)), (Z.to_nat iv); repeat split; nia).
    unfold mem', starts. rewrite InvertWordsUp_ok, InvertWordsDown_ok by (done || lia).
    rewrite Nat2Z.inj_mul, Z.div_mul, <- Nat2Z.inj_mul, !Nat2Z.id by lia. done.
Qed.

Lemma InvertWords_spec_witness :
  InvertWordsDown [1; 2; 3; 4; 5; 6] (Some 1) 4 2 true =
  Some (true, [1; not32 2; not32 3; not32 4; not32 5; 6], [3; 1]).
Proof.
  destruct (InvertWords_spec [1; 2; 3; 4; 5; 6] (Some 1) 4 2 true) as [_ H].
  destruct (H eq_refl) as (b & Hb & H'). injection Hb as <-.
  destruct H' as [_ Hd]; [lia | cbn; lia |]. rewrite Hd. reflexivity.
Defined.

(** The range is a whole number of cache lines inside the page. *)
Lemma invert_range_words range page_length :
  0 <= page_length -> page_length mod 64 = 0 ->
  exists k, invert_range_bytes range page_length / 4 = Z.of_nat (k * 16) /\
            Z.of_nat (k * 16) <= page_length / 4.
Proof.
  intros H0 Hm. pose proof (Z.div_mod page_length 64).
  destruct range; cbn [invert_range_bytes].
  - exists (Z.to_nat (page_length / 64)).
    assert (page_length / 4 = page_length / 64 * 16); [|lia].
    replace page_length with (page_length / 64 * 16 * 4) at 1 by lia. apply Z.div_mul. lia.
  - change (4096 / 8) with 512. exists (Z.to_nat (page_length / 4096 * 32)).
    rewrite Z.div_mul by lia. pose proof (Z.div_pos page_length 4096).
    split; [lia|]. apply Z.div_le_lower_bound; [lia|].
    pose proof (Z.mul_div_le page_length 4096). lia.
Qed.

Lemma InvertPage_ok range page_length addr mem :
  0 <= page_length -> page_length mod 64 = 0 -> 0 <= addr ->
  addr + page_length / 4 <= Z.of_nat (length mem) ->
  let mem' := inverted mem addr (Z.to_nat (invert_range_bytes range page_length / 4)) in
  InvertPageUp range page_length addr mem = Some mem' /\
  InvertPageDown range page_length addr mem = Some mem'.
Proof.
  intros H0 Hm Ha Hl. destruct (invert_range_words range page_length H0 Hm) as (k & Hk & Hle).
  unfold InvertPageUp, InvertPageDown. rewrite Hk, Nat2Z.id.
  change (kCacheLineSize / 4) with (Z.of_nat 16).
  by rewrite InvertWordsUp_ok, InvertWordsDown_ok by lia.
Qed.

Lemma aget_inverted mem base n i :
  0 <= i < Z.of_nat (length mem) ->
  aget 0 (inverted mem base n) i = if decide (base <= i < base + Z.of_nat n) then not32 (aget 0 mem i) else aget 0 mem i.
Proof.
  intros Hi. destruct (lookup_lt_is_Some_2 mem (Z.to_nat i)) as [w Hw]; [lia|].
  assert (Hg : aget 0 mem i = w) by (by apply nth_lookup_Some). rewrite Hg. unfold aget. apply nth_lookup_Some.
  rewrite lookup_inverted, Hw. cbn. f_equal. apply decide_ext. lia.
Qed.

(** The share of the page each setting inverts. *)
Lemma invert_range_share range page_length :
  0 <= page_length -> page_length mod 4096 = 0 ->
  invert_range_bytes range page_length / 4 * (match range with INVERT_RANGE_FULL => 1 | INVERT_RANGE_LEGACY => 2 end) = page_length / 4.
Proof.
  intros H0 Hm. pose proof (Z.div_mod page_length 4096 ltac:(lia)). set (q := page_length / 4096) in *.
  replace page_length with (q * 1024 * 4) by lia. rewrite Z.div_mul by lia. destruct range; cbn [invert_range_bytes].
  - rewrite Z.div_mul by lia. lia.
  - replace (q * 1024 * 4) with (q * 4096) by lia. rewrite Z.div_mul by lia. change (4096 / 8) with 512. rewrite Z.div_mul by lia. lia.
Qed.

(** C40. The passes of an Invert iteration.  On a page of whole cache lines the assertions hold,
    the upward pass and the downward pass each complement every word of the configured range
    (the whole page, or its first half with the legacy setting and a page of whole 4096-byte
    blocks) and change no other word of memory; the second pass of either direction takes the
    first back; and the four passes up, down, down, up leave memory as it was. *)
Theorem invert_passes_restore range page_length addr mem :
  0 <= page_length -> page_length mod 64 = 0 -> 0 <= addr ->
  addr + page_length / 4 <= Z.of_nat (length mem) ->
  let n := invert_range_bytes range page_length / 4 in
  0 <= n <= page_length / 4 /\
  (page_length mod 4096 = 0 -> n * (match range with INVERT_RANGE_FULL => 1 | INVERT_RANGE_LEGACY => 2 end) = page_length / 4) /\
  exists mem', length mem' = length mem /\
    (forall i, 0 <= i < Z.of_nat (length mem) ->
       aget 0 mem' i = if decide (addr <= i < addr + n) then not32 (aget 0 mem i) else aget 0 mem i) /\
    InvertPageUp range page_length addr mem = Some mem' /\ InvertPageDown range page_length addr mem = Some mem' /\
    InvertPageUp range page_length addr mem' = Some mem /\ InvertPageDown range page_length addr mem' = Some mem /\
    invert_passes range page_length addr mem = Some mem.
Proof.
  intros H0 Hm Ha Hl n. destruct (invert_range_words range page_length H0 Hm) as (k & Hk & Hle). fold n in Hk.
  split; [lia|]. split; [by apply invert_range_share|]. exists (inverted mem addr (Z.to_nat n)).
  split; [apply length_inverted|]. split; [intros i Hi; rewrite aget_inverted, Z2Nat.id by lia; done|].
  destruct (InvertPage_ok range page_length addr mem) as [Hu Hd]; auto.
  destruct (InvertPage_ok range page_length addr (inverted mem addr (Z.to_nat n))) as [Hu' Hd']; auto; [by rewrite length_inverted|].
  fold n in Hu, Hd, Hu', Hd'. rewrite inverted_involutive in Hu', Hd'. do 4 (split; [done|]).
  unfold invert_passes. rewrite Hu. cbn [mbind option_bind]. rewrite Hd'. cbn [mbind option_bind]. rewrite Hd. cbn [mbind option_bind]. done.
Qed.

Lemma invert_passes_restore_witness :
  invert_passes INVERT_RANGE_FULL 64 1 (zrange 5 20) = Some (zrange 5 20).
Proof.
  destruct (invert_passes_restore INVERT_RANGE_FULL 64 1 (zrange 5 20)) as (_ & _ & mem' & H);
    [lia | reflexivity | lia | vm_compute; discriminate | apply H].
Defined.

End InvertFacts.
