(* ===== verification/PageQueue.v ===== *)
(** Work blocks and their queue: [struct page_entry], [init_pe] and
    [class PageEntryQueue] of [src/src/queue.h] and [src/src/queue.cc].

    Each operation runs under the queue's mutex, so an execution of several threads is
    a sequence of operations.  A [Pattern *] is an index of the pattern list, [None]
    being NULL; an address is a number, 0 being NULL. *)

From stdpp Require Import sorting.
From S2P Require Import Prelude.

Module PageQueue.

Definition kDontCareTag : Z := -1.
Definition kInvalidTag : Z := 0xf001.

Record page_entry := mk_page_entry {
  offset : Z; addr : Z; paddr : Z; pattern : option Z; tag : Z; touch : Z; ts : Z;
  lastcpu : Z; write_dram_frequency : Z; lastpattern : option Z
}.

#[export] Instance page_entry_eq_dec : EqDecision page_entry.
Proof. solve_decision. Defined.

(** [paddr] and [lastpattern] keep their values. *)
Definition init_pe (pe : page_entry) : page_entry :=
  {| offset := 0; addr := 0; paddr := paddr pe; pattern := None; tag := kInvalidTag;
     touch := 0; ts := 0; lastcpu := 0; write_dram_frequency := -1;
     lastpattern := lastpattern pe |}.

Definition null_pe : page_entry := init_pe (mk_page_entry 0 0 0 None 0 0 0 0 0 None).

Record PageEntryQueue := mkQueue {
  pages_ : list page_entry; nextin_ : Z; nextout_ : Z; q_size_ : Z;
  pushed_ : Z; popped_ : Z
}.

(** [new page_entry[q_size_]] does not initialise its [queuesize + 1] entries: they
    are the argument [heap]. *)
Definition new_PageEntryQueue (queuesize : Z) (heap : list page_entry) : PageEntryQueue :=
  mkQueue heap 0 0 (queuesize + 1) 0 0.

(** [pe = None] is a null pointer. *)
Definition Push (q : PageEntryQueue) (pe : option page_entry) : Z * PageEntryQueue :=
  match pe with
  | None => (0, q)
  | Some pe =>
      let nextnextin := Z.rem (nextin_ q + 1) (q_size_ q) in
      if nextnextin =? nextout_ q then (0, q)
      else (1, mkQueue (aset (pages_ q) (nextin_ q) pe) nextnextin (nextout_ q) (q_size_ q)
                 (pushed_ q + 1) (popped_ q))
  end.

(** [rand] is what [random()] returns; the entry is [None] when [*pe] is not set. *)
Definition PopRandom (q : PageEntryQueue) (pe_null : bool) (rand : Z)
  : Z * option page_entry * PageEntryQueue :=
  if pe_null then (0, None, q)
  else if nextin_ q =? nextout_ q then (0, None, q)
  else
    let lastin := Z.rem (nextin_ q - 1 + q_size_ q) (q_size_ q) in
    let entries := Z.rem (lastin - nextout_ q + q_size_ q) (q_size_ q) in
    let newindex :=
      if entries =? 0 then nextout_ q
      else Z.rem (Z.rem rand entries + nextout_ q) (q_size_ q) in
    let tmp := aget null_pe (pages_ q) (nextout_ q) in
    let pages := aset (pages_ q) (nextout_ q) (aget null_pe (pages_ q) newindex) in
    let pages := aset pages newindex tmp in
    (1, Some (aget null_pe pages (nextout_ q)),
     mkQueue pages (nextin_ q) (Z.rem (nextout_ q + 1) (q_size_ q)) (q_size_ q)
       (pushed_ q) (popped_ q + 1)).

End PageQueue.

Module PageQueueFacts.
Import PageQueue.

(** The ring buffer invariant; the size bound keeps the [int64] index arithmetic
    from overflowing. *)
Record queue_inv (q : PageEntryQueue) : Prop := {
  inv_size : 0 < q_size_ q < 2 ^ 61;
  inv_len : Z.of_nat (length (pages_ q)) = q_size_ q;
  inv_in : 0 <= nextin_ q < q_size_ q;
  inv_out : 0 <= nextout_ q < q_size_ q;
  inv_count : (pushed_ q - popped_ q) = (nextin_ q - nextout_ q) mod q_size_ q
}.

Definition count (q : PageEntryQueue) : Z := (nextin_ q - nextout_ q) mod q_size_ q.

(** Slot of the [k]-th oldest entry. *)
Definition slot (q : PageEntryQueue) (k : Z) : Z := (nextout_ q + k) mod q_size_ q.

(** The abstract queue: the entries in slot order. *)
Definition contents (q : PageEntryQueue) : list page_entry :=
  map (fun k => aget null_pe (pages_ q) (slot q k)) (zrange 0 (Z.to_nat (count q))).

(** Case analysis of a wrapped sum of two positions. *)
Lemma wrap_add a n : 0 < n -> 0 <= a < 2 * n ->
  a mod n = if decide (a < n) then a else a - n.
Proof.
  intros Hn Ha. case_decide; [apply Z.mod_small; lia|].
  symmetry. apply Z.mod_unique with 1; lia.
Qed.

Lemma wrap_sub a n : 0 < n -> - n <= a < n ->
  a mod n = if decide (0 <= a) then a else a + n.
Proof.
  intros Hn Ha. case_decide; [apply Z.mod_small; lia|].
  symmetry. apply Z.mod_unique with (-1); lia.
Qed.

(** Innermost remainders first; the bounds of the inner ones are then known. *)
Ltac wrap := repeat (match goal with
  | |- context [?a mod ?n] =>
      lazymatch a with
      | context [_ mod _] => fail
      | _ => first [rewrite (wrap_add a n) by lia | rewrite (wrap_sub a n) by lia]
      end
  | _ => case_decide
  end); try lia.

Section Inv.
Context (q : PageEntryQueue) (Hq : queue_inv q).

Lemma count_bound : 0 <= count q < q_size_ q.
Proof. apply Z.mod_pos_bound, Hq. Qed.

Lemma slot_bound k : 0 <= slot q k < q_size_ q.
Proof. apply Z.mod_pos_bound, Hq. Qed.

Lemma slot_inj j k : 0 <= j < q_size_ q -> 0 <= k < q_size_ q -> slot q j = slot q k -> j = k.
Proof. destruct Hq as [? ? ? ? _]. unfold slot. intros Hj Hk. wrap. Qed.

Lemma slot_count : slot q (count q) = nextin_ q.
Proof.
  destruct Hq as [? ? ? ? _]. pose proof count_bound as Hc. unfold slot, count in *.
  rewrite Zplus_mod_idemp_r. replace (nextout_ q + _) with (nextin_ q) by lia.
  apply Z.mod_small. lia.
Qed.

Lemma slot_0 : slot q 0 = nextout_ q.
Proof. destruct Hq. unfold slot. rewrite Z.add_0_r. apply Z.mod_small. lia. Qed.

Lemma length_contents : length (contents q) = Z.to_nat (count q).
Proof. unfold contents. by rewrite length_map, length_zrange. Qed.

Lemma lookup_contents k :
  0 <= k < count q -> contents q !! Z.to_nat k = Some (aget null_pe (pages_ q) (slot q k)).
Proof.
  intros Hk. unfold contents. rewrite list_lookup_fmap, zrange_lookup by lia. cbn.
  do 3 f_equal. lia.
Qed.

End Inv.

Lemma contents_eq q l :
  length l = Z.to_nat (count q) ->
  (forall k, 0 <= k < count q -> l !! Z.to_nat k = Some (aget null_pe (pages_ q) (slot q k))) ->
  contents q = l.
Proof.
  intros Hl H. apply list_eq. intros i. destruct (decide (i < length l)%nat) as [Hi|Hi].
  - rewrite <- (Nat2Z.id i). rewrite lookup_contents by lia. symmetry. apply H. lia.
  - rewrite !lookup_ge_None_2; [done | lia | rewrite length_contents; lia].
Qed.

Lemma full_iff q :
  queue_inv q -> Z.rem (nextin_ q + 1) (q_size_ q) = nextout_ q <-> count q = q_size_ q - 1.
Proof.
  intros [? ? ? ? _]. rewrite Z.rem_mod_nonneg by lia. unfold count. wrap.
Qed.

(** [Push] on a queue with room appends; on a full one it changes nothing. *)
Lemma Push_refines q pe :
  queue_inv q ->
  if decide (count q = q_size_ q - 1) then Push q (Some pe) = (0, q)
  else exists q', Push q (Some pe) = (1, q') /\ queue_inv q' /\
    q_size_ q' = q_size_ q /\ contents q' = contents q ++ [pe].
Proof.
  intros Hq. pose proof (full_iff q Hq) as Hfull. pose proof (count_bound q Hq) as Hc.
  unfold Push. case_decide as Hd.
  - by rewrite (proj2 (Z.eqb_eq _ _)) by tauto.
  - rewrite (proj2 (Z.eqb_neq _ _)) by tauto. eexists. split; [reflexivity|].
    destruct Hq as [Hs Hl Hi Ho Hn]. rewrite Z.rem_mod_nonneg in * by lia.
    match goal with |- queue_inv ?x /\ _ => set (q' := x) end.
    assert (Hcount : count q' = count q + 1).
    { unfold count in *. cbn. revert Hd Hc. wrap. }
    split; [split; cbn; rewrite ?length_aset; try lia|].
    + apply Z.mod_pos_bound. lia.
    + unfold count in Hcount. cbn in Hcount. rewrite Hcount. unfold count. lia.
    + split; [done|]. assert (Hq : queue_inv q) by done.
      apply contents_eq.
      * rewrite length_app, length_contents, Hcount. cbn [length]. lia.
      * intros k Hk. rewrite Hcount in Hk.
        change (pages_ q') with (aset (pages_ q) (nextin_ q) pe).
        change (slot q' k) with (slot q k).
        pose proof (slot_bound q Hq k).
        destruct (decide (k = count q)) as [->|Hne].
        -- rewrite slot_count, aget_aset_eq by (done || lia).
           rewrite lookup_app_r; rewrite length_contents; [|lia].
           by rewrite Nat.sub_diag.
        -- rewrite aget_aset_ne; try lia.
           ++ rewrite lookup_app_l by (rewrite length_contents; lia).
              apply lookup_contents. lia.
           ++ rewrite <- (slot_count q Hq). intros He. apply slot_inj in He; lia || done.
Qed.

(** Position, in the abstract queue, of the entry [PopRandom] takes. *)
Definition pick (n rand : Z) : Z := if n =? 1 then 0 else rand mod (n - 1).

Lemma entries_count q :
  queue_inv q -> 0 < count q ->
  Z.rem (Z.rem (nextin_ q - 1 + q_size_ q) (q_size_ q) - nextout_ q + q_size_ q) (q_size_ q)
  = count q - 1.
Proof.
  intros [? ? ? ? _] Hc. unfold count in *. rewrite (Z.rem_mod_nonneg (nextin_ q - 1 + _)) by lia.
  pose proof (Z.mod_pos_bound (nextin_ q - 1 + q_size_ q) (q_size_ q)).
  rewrite Z.rem_mod_nonneg by lia. revert Hc. wrap.
Qed.

Lemma empty_iff q : queue_inv q -> nextin_ q = nextout_ q <-> count q = 0.
Proof. intros [? ? ? ? _]. unfold count. wrap. Qed.

(** [PopRandom] in slot terms: swap the picked entry to the front and drop it. *)
Lemma PopRandom_unfold q rand :
  queue_inv q -> 0 <= rand -> 0 < count q ->
  let j := slot q (pick (count q) rand) in
  let pages := aset (aset (pages_ q) (nextout_ q) (aget null_pe (pages_ q) j)) j
                 (aget null_pe (pages_ q) (nextout_ q)) in
  PopRandom q false rand =
    (1, Some (aget null_pe pages (nextout_ q)),
     mkQueue pages (nextin_ q) ((nextout_ q + 1) mod q_size_ q) (q_size_ q)
       (pushed_ q) (popped_ q + 1)).
Proof.
  intros Hq Hr Hc j pages. unfold PopRandom.
  rewrite (proj2 (Z.eqb_neq _ _)) by (rewrite empty_iff by done; lia).
  rewrite entries_count by done. pose proof (count_bound q Hq).
  assert (Hj : (if count q - 1 =? 0 then nextout_ q
     else Z.rem (Z.rem rand (count q - 1) + nextout_ q) (q_size_ q)) = j).
  { unfold j, pick. destruct Hq as [? ? ? ? _].
    destruct (Z.eqb_spec (count q - 1) 0).
    - rewrite (proj2 (Z.eqb_eq _ _)) by lia. unfold slot. rewrite Z.add_0_r.
      symmetry. apply Z.mod_small. lia.
    - rewrite (proj2 (Z.eqb_neq _ _)) by lia.
      rewrite (Z.rem_mod_nonneg rand) by lia.
      pose proof (Z.mod_pos_bound rand (count q - 1)).
      rewrite Z.rem_mod_nonneg by lia. unfold slot. f_equal. lia. }
  rewrite Hj. cbv zeta. destruct Hq as [? ? ? ? _].
  by rewrite (Z.rem_mod_nonneg (nextout_ q + 1)) by lia.
Qed.

Lemma swap_out_perm {A} (h e : A) t j :
  t !! j = Some e -> h :: t ≡ₚ e :: <[j := h]> t.
Proof.
  revert j. induction t as [|x t IH]; intros [|j] Hj; try done; cbn in *.
  - injection Hj as ->. apply Permutation_swap.
  - rewrite Permutation_swap, (IH j Hj). apply Permutation_swap.
Qed.

(** What remains after the entry at [j] has been swapped to the front and taken. *)
Definition taken (c : list page_entry) (j : nat) : list page_entry :=
  drop 1 (<[j := default null_pe (head c)]> c).

Lemma taken_perm c j e : c !! j = Some e -> c ≡ₚ e :: taken c j.
Proof.
  destruct c as [|h t]; [done|]. destruct j as [|j]; cbn.
  - intros [= ->]. by rewrite drop_0.
  - intros Hj. rewrite drop_0. by apply swap_out_perm.
Qed.

Lemma pick_bound n rand : 0 < n -> 0 <= pick n rand < n.
Proof.
  intros Hn. unfold pick. destruct (Z.eqb_spec n 1); [lia|].
  pose proof (Z.mod_pos_bound rand (n - 1)). lia.
Qed.

Lemma contents_head q :
  queue_inv q -> 0 < count q ->
  default null_pe (head (contents q)) = aget null_pe (pages_ q) (nextout_ q).
Proof.
  intros Hq Hc. rewrite <- (slot_0 q Hq). pose proof (lookup_contents q 0 ltac:(lia)) as H.
  destruct (contents q); [done|]. by injection H as ->.
Qed.

Lemma PopRandom_refines q rand :
  queue_inv q -> 0 <= rand -> 0 < count q ->
  exists e q', PopRandom q false rand = (1, Some e, q') /\ queue_inv q' /\
    q_size_ q' = q_size_ q /\
    contents q !! Z.to_nat (pick (count q) rand) = Some e /\
    contents q' = taken (contents q) (Z.to_nat (pick (count q) rand)).
Proof.
  intros Hq Hr Hc. rewrite (PopRandom_unfold q rand Hq Hr Hc). cbv zeta.
  pose proof (pick_bound (count q) rand Hc) as Hj. pose proof (count_bound q Hq) as Hn.
  pose proof (contents_head q Hq Hc) as Hhead.
  set (j := pick (count q) rand) in *.
  pose proof (slot_bound q Hq j) as Hsj. pose proof (slot_0 q Hq) as Hs0.
  assert (Hinj : forall k, 0 <= k < count q -> slot q k = slot q j -> k = j)
    by (intros k Hk He; apply slot_inj in He; lia || done).
  destruct Hq as [Hs Hl Hi Ho Hcnt] eqn:HqE. clear HqE.
  eexists _, _. split; [reflexivity|].
  match goal with |- queue_inv ?x /\ _ => set (q' := x) end.
  assert (Hcount : count q' = count q - 1).
  { unfold count in *. cbn. revert Hc. wrap. }
  split; [split; cbn; rewrite ?length_aset; try lia; try (apply Z.mod_pos_bound; lia)|].
  { unfold count in Hcount. cbn in Hcount. rewrite Hcount. unfold count. lia. }
  split; [done|]. split.
  - rewrite lookup_contents by done. f_equal.
    destruct (decide (nextout_ q = slot q j)) as [He|Hne].
    + rewrite <- He. rewrite aget_aset_eq by (rewrite length_aset; lia). done.
    + rewrite aget_aset_ne, aget_aset_eq by lia. done.
  - apply contents_eq.
    { unfold taken. rewrite length_drop, length_insert, length_contents, Hcount. lia. }
    intros k Hk. rewrite Hcount in Hk. unfold taken. rewrite lookup_drop, Hhead.
    replace (1 + Z.to_nat k)%nat with (Z.to_nat (k + 1)) by lia.
    assert (Hslot : slot q' k = slot q (k + 1)).
    { unfold slot. cbn. rewrite Zplus_mod_idemp_l. f_equal. lia. }
    rewrite Hslot.
    change (pages_ q') with (aset (aset (pages_ q) (nextout_ q) (aget null_pe (pages_ q) (slot q j)))
      (slot q j) (aget null_pe (pages_ q) (nextout_ q))).
    pose proof (slot_bound q Hq (k + 1)).
    destruct (decide (k + 1 = j)) as [Hkj|Hkj].
    + rewrite Hkj, list_lookup_insert_eq by (rewrite length_contents; lia).
      by rewrite aget_aset_eq by (rewrite length_aset; lia).
    + rewrite list_lookup_insert_ne by lia. rewrite lookup_contents by lia.
      rewrite aget_aset_ne; [|lia..|intros He; apply Hkj; apply Hinj; [lia | by symmetry]].
      rewrite aget_aset_ne; [done|lia..|].
      rewrite <- Hs0. intros He. apply slot_inj in He; lia || done.
Qed.

(** C37. The ring buffer refines a bounded bag.  [Push] appends to the contents unless
    they already are [q_size_ - 1] entries, when it reports failure and changes
    nothing; [PopRandom] fails exactly on the empty queue and otherwise removes and
    returns the entry at the position drawn from the random value, keeping all the
    others; the ring invariant is preserved throughout. *)
Theorem PageEntryQueue_refines_bag q pe rand :
  queue_inv q -> 0 <= rand ->
  (if decide (Z.of_nat (length (contents q)) = q_size_ q - 1)
   then Push q (Some pe) = (0, q)
   else exists q', Push q (Some pe) = (1, q') /\ queue_inv q' /\ q_size_ q' = q_size_ q /\
     contents q' = contents q ++ [pe]) /\
  (if decide (contents q = [])
   then PopRandom q false rand = (0, None, q)
   else exists e q', PopRandom q false rand = (1, Some e, q') /\ queue_inv q' /\
     q_size_ q' = q_size_ q /\
     contents q !! Z.to_nat (pick (Z.of_nat (length (contents q))) rand) = Some e /\
     contents q ≡ₚ e :: contents q').
Proof.
  intros Hq Hr. pose proof (count_bound q Hq) as Hc.
  rewrite length_contents, Z2Nat.id by lia. split; [by apply Push_refines|].
  pose proof (length_contents q) as Hlen. case_decide as Hd.
  - rewrite Hd in Hlen. cbn in Hlen. unfold PopRandom.
    rewrite (proj2 (Z.eqb_eq _ _)); [done|]. apply empty_iff; [done | lia].
  - destruct (PopRandom_refines q rand Hq Hr) as (e & q' & H1 & H2 & H3 & H4 & H5).
    { destruct (contents q); [done|]. cbn in Hlen. lia. }
    exists e, q'. do 4 (split; [done|]). rewrite H5. by apply taken_perm.
Qed.

(** A queue of capacity 2 after one [Push]. *)
Definition sample_queue : PageEntryQueue :=
  (Push (new_PageEntryQueue 2 (replicate 3 null_pe)) (Some null_pe)).2.

Lemma PageEntryQueue_refines_bag_witness :
  exists e q', PopRandom sample_queue false 7 = (1, Some e, q') /\
    contents sample_queue ≡ₚ e :: contents q'.
Proof.
  destruct (PageEntryQueue_refines_bag sample_queue null_pe 7) as [_ H].
  - split; first [reflexivity | split; reflexivity || discriminate].
  - lia.
  - rewrite decide_False in H by discriminate.
    destruct H as (e & q' & H1 & _ & _ & _ & H2). exists e, q'. auto.
Defined.

(** ** Executions *)

Inductive op := OpPush (pe : page_entry) | OpPop (rand : Z).

(** The queue with the entries accepted and the entries handed out so far. *)
Definition exec_op (st : PageEntryQueue * list page_entry * list page_entry) (o : op)
  : PageEntryQueue * list page_entry * list page_entry :=
  let '(q, ins, outs) := st in
  match o with
  | OpPush pe => let '(r, q') := Push q (Some pe) in
                 (q', if r =? 1 then pe :: ins else ins, outs)
  | OpPop rand => let '(_, e, q') := PopRandom q false rand in
                  (q', ins, match e with Some e => e :: outs | None => outs end)
  end.

Definition ops_ok (ops : list op) : Prop :=
  Forall (fun o => match o with OpPush _ => True | OpPop r => 0 <= r end) ops.

Definition exec_inv (n : Z) (st : PageEntryQueue * list page_entry * list page_entry) : Prop :=
  let '(q, ins, outs) := st in
  queue_inv q /\ q_size_ q = n + 1 /\ ins ≡ₚ outs ++ contents q.

Lemma exec_op_inv n st o :
  exec_inv n st -> match o with OpPush _ => True | OpPop r => 0 <= r end ->
  exec_inv n (exec_op st o).
Proof.
  destruct st as [[q ins] outs]. intros (Hq & Hs & Hp) Ho. destruct o as [pe|rand]; cbn [exec_op].
  - pose proof (Push_refines q pe Hq) as H. case_decide as Hd.
    + by rewrite H.
    + destruct H as (q' & -> & Hq' & Hs' & Hc). cbn [Z.eqb Pos.eqb]. split; [done|].
      split; [congruence|]. rewrite Hc, app_assoc, <- Hp. apply Permutation_cons_append.
  - destruct (decide (count q = 0)) as [H0|H0].
    + unfold PopRandom. rewrite (proj2 (Z.eqb_eq _ _)) by (by apply empty_iff). done.
    + pose proof (count_bound q Hq).
      destruct (PopRandom_refines q rand Hq Ho) as (e & q' & -> & H2 & H3 & H4 & H5); [lia|].
      split; [done|]. split; [congruence|].
      rewrite Hp, (taken_perm _ _ _ H4), H5. symmetry. apply Permutation_middle.
Qed.

(** No page is lost or duplicated.  In every execution of a queue of capacity
    [n], whatever the order of the operations and the random values, the entries the
    queue accepted are, as a multiset, those it handed out and those it still holds,
    and it never holds more than [n]. *)
Theorem queue_conserves_pages n heap ops :
  0 <= n < 2 ^ 60 -> Z.of_nat (length heap) = n + 1 -> ops_ok ops ->
  let '(q, ins, outs) := fold_left exec_op ops (new_PageEntryQueue n heap, [], []) in
  ins ≡ₚ outs ++ contents q /\ Z.of_nat (length (contents q)) <= n /\
  pushed_ q - popped_ q = Z.of_nat (length (contents q)).
Proof.
  intros Hn Hh Hops.
  assert (H0 : exec_inv n (new_PageEntryQueue n heap, [], [])).
  { cbn [exec_inv]. split; [split|split];
      cbn [new_PageEntryQueue pages_ nextin_ nextout_ q_size_ pushed_ popped_]; try lia.
    - by rewrite !Z.sub_diag, Z.mod_0_l by lia.
    - unfold contents, count. cbn [new_PageEntryQueue nextin_ nextout_ q_size_].
      by rewrite Z.sub_diag, Z.mod_0_l by lia. }
  revert H0. generalize (new_PageEntryQueue n heap, @nil page_entry, @nil page_entry).
  induction Hops as [|o ops Ho Hops IH]; intros st Hst; cbn [fold_left].
  - destruct st as [[q ins] outs]. destruct Hst as (Hq & Hs & Hp). split; [done|].
    pose proof (count_bound q Hq). rewrite length_contents, Z2Nat.id by lia.
    split; [lia | apply Hq].
  - apply IH. by apply exec_op_inv.
Qed.

Lemma queue_conserves_pages_witness :
  let '(q, ins, outs) :=
    fold_left exec_op [OpPush null_pe; OpPush null_pe; OpPop 3; OpPush null_pe; OpPush null_pe]
      (new_PageEntryQueue 2 (replicate 3 null_pe), [], []) in
  ins ≡ₚ outs ++ contents q /\ Z.of_nat (length (contents q)) <= 2 /\
  pushed_ q - popped_ q = Z.of_nat (length (contents q)).
Proof.
  apply (queue_conserves_pages 2 (replicate 3 null_pe)
    [OpPush null_pe; OpPush null_pe; OpPop 3; OpPush null_pe; OpPush null_pe]).
  - lia.
  - reflexivity.
  - repeat constructor; lia || discriminate.
Defined.

(** With two or more entries the one in the last slot is never drawn, whatever the
    random value: [rand % entries] ranges over one slot too few. *)
Lemma PopRandom_never_last q rand :
  queue_inv q -> 0 <= rand -> 2 <= count q ->
  pick (count q) rand < count q - 1.
Proof.
  intros Hq Hr Hc. unfold pick. rewrite (proj2 (Z.eqb_neq _ _)) by lia.
  pose proof (Z.mod_pos_bound rand (count q - 1)). lia.
Qed.

End PageQueueFacts.
