(* ===== verification/NumTheory.v ===== *)
(** Full-period linear congruential generators (the Hull-Dobell theorem), for the
    generator [FineLockPEQueue] walks its pages with. *)

From Stdlib Require Import Znumtheory.
From S2P Require Import Prelude.

Module NumTheory.

(** ** Primes *)

Lemma prime_divisor n : 1 < n -> exists p, Z.prime p /\ (p | n).
Proof.
  intros Hn. assert (H0 : 0 <= n) by lia. revert Hn.
  pattern n. apply Z_lt_induction; [|done]. clear n H0. intros n IH Hn.
  destruct (prime_dec n) as [Hp|Hp].
  - exists n. split; [by apply prime_alt | apply Z.divide_refl].
  - destruct (not_prime_divide n Hn Hp) as (d & Hd & Hdiv).
    destruct (IH d) as (p & Hp' & Hpd); [lia | lia |].
    exists p. split; [done|]. by apply Z.divide_trans with d.
Qed.

Lemma coprime_by_primes u m :
  0 < m -> (forall q, Z.prime q -> (q | m) -> ~ (q | u)) -> Z.gcd m u = 1.
Proof.
  intros Hm H.
  pose proof (Z.gcd_nonneg m u). assert (Z.gcd m u <> 0) by (intros E; apply Z.gcd_eq_0_l in E; lia).
  destruct (Z.eq_dec (Z.gcd m u) 1) as [E|E]; [done|]. exfalso.
  destruct (prime_divisor (Z.gcd m u)) as (q & Hq & Hd); [lia|].
  apply (H q Hq); eapply Z.divide_trans; try exact Hd; [apply Z.gcd_divide_l | apply Z.gcd_divide_r].
Qed.

(** ** Geometric sums *)

(** [geo b n] is 1 + b + ... + b^(n-1). *)
Fixpoint geo (b : Z) (n : nat) : Z :=
  match n with O => 0 | S n' => 1 + b * geo b n' end.

Lemma geo_pow b n : (b - 1) * geo b n = b ^ Z.of_nat n - 1.
Proof.
  induction n as [|n IH]; [cbn; lia|]. cbn [geo].
  rewrite Nat2Z.inj_succ, Z.pow_succ_r by lia. nia.
Qed.

Lemma geo_add b n m : geo b (n + m) = geo b n + b ^ Z.of_nat n * geo b m.
Proof.
  induction n as [|n IH]; [cbn [geo Nat.add Z.of_nat]; lia|].
  cbn [geo Nat.add]. rewrite IH, Nat2Z.inj_succ, Z.pow_succ_r by lia. lia.
Qed.

Lemma geo_mul b n m : geo b (n * m) = geo b n * geo (b ^ Z.of_nat n) m.
Proof.
  induction m as [|m IH]; [rewrite Nat.mul_0_r; cbn; lia|].
  rewrite Nat.mul_succ_r, Nat.add_comm, geo_add, IH. cbn [geo]. lia.
Qed.

(** Modulo a divisor of [b - 1] the sum is [n]. *)
Lemma geo_mod q b n : (q | b - 1) -> (q | geo b n - Z.of_nat n).
Proof.
  intros Hq. induction n as [|n IH]; [apply Z.divide_0_r|]. cbn [geo].
  replace (1 + b * geo b n - Z.of_nat (S n))
    with ((b - 1) * geo b n + (geo b n - Z.of_nat n)) by lia.
  apply Z.divide_add_r; [by apply Z.divide_mul_l | done].
Qed.

Lemma pow_mod_1 q b n : (q | b - 1) -> (q | b ^ Z.of_nat n - 1).
Proof. intros H. rewrite <- geo_pow. by apply Z.divide_mul_l. Qed.

(** Second order: with [b = 1 + p k], modulo [p^2]. *)
Lemma geo_mod_square p k n :
  (2 * p * p | 2 * geo (1 + p * k) n
               - (2 * Z.of_nat n + p * k * (Z.of_nat n * (Z.of_nat n - 1)))).
Proof.
  induction n as [|n IH]; [exists 0; cbn [geo Z.of_nat]; lia|]. cbn [geo].
  destruct (geo_mod p (1 + p * k) n) as [t Ht].
  { replace (1 + p * k - 1) with (k * p) by lia. apply Z.divide_factor_r. }
  assert (Hg : geo (1 + p * k) n = Z.of_nat n + t * p) by lia.
  replace (2 * (1 + (1 + p * k) * geo (1 + p * k) n) -
    (2 * Z.of_nat (S n) + p * k * (Z.of_nat (S n) * (Z.of_nat (S n) - 1))))
    with ((2 * geo (1 + p * k) n - (2 * Z.of_nat n + p * k * (Z.of_nat n * (Z.of_nat n - 1))))
          + k * t * (2 * p * p)) by (rewrite Hg; lia).
  apply Z.divide_add_r; [done | apply Z.divide_factor_r].
Qed.

Lemma prime_two_or_odd p : Z.prime p -> p = 2 \/ Z.odd p = true.
Proof.
  intros Hp. destruct (Z.odd p) eqn:Ho; [by right|]. left.
  rewrite <- Z.negb_even in Ho. apply negb_false_iff, Z.even_spec in Ho as [k Hk].
  symmetry. apply Z.divide_prime_prime; [apply Z.prime_2 | done | exists k; lia].
Qed.

(** The sum of [p] powers of [b] is divisible by [p] exactly once. *)
Lemma geo_prime_once p b :
  Z.prime p -> (p | b - 1) -> (p = 2 -> (4 | b - 1)) ->
  ~ (p * p | geo b (Z.to_nat p)).
Proof.
  intros Hp [k Hk] H2 Hd. pose proof (Z.prime_ge_2 p Hp) as Hp2.
  destruct (prime_two_or_odd p Hp) as [->|Hodd].
  - destruct (H2 eq_refl) as [k' Hk']. change (Z.to_nat 2) with 2%nat in Hd. cbn [geo] in Hd.
    destruct Hd as [d Hd]. lia.
  - replace b with (1 + p * k) in Hd by lia.
    pose proof (geo_mod_square p k (Z.to_nat p)) as Hs. rewrite Z2Nat.id in Hs by lia.
    apply Z.odd_spec in Hodd as [h Hh]. destruct Hs as [t Ht]. destruct Hd as [d Hd].
    rewrite Hd in Ht. replace (p - 1) with (2 * h) in Ht by lia.
    assert (He : p * (1 - p * (d - k * h - t)) = 0) by nia.
    apply Z.mul_eq_0 in He as [He|He]; [lia|].
    assert (p | 1) as H1 by (exists (d - k * h - t); lia).
    apply Z.divide_1_r_nonneg in H1; lia.
Qed.

(** ** The period of a generator *)

(** The conditions of Hull and Dobell on the multiplier. *)
Definition hull_dobell (a m : Z) : Prop :=
  (forall p, Z.prime p -> (p | m) -> (p | a - 1)) /\ ((4 | m) -> (4 | a - 1)).

Lemma hull_dobell_divisor a m d : hull_dobell a m -> (d | m) -> hull_dobell a d.
Proof.
  intros [H1 H2] Hd. split.
  - intros p Hp Hpd. apply H1; [done|]. by apply Z.divide_trans with d.
  - intros H4. apply H2. by apply Z.divide_trans with d.
Qed.

(** The cofactor of [p] in the sum of [p] powers is coprime to the rest of [m]. *)
Lemma geo_cofactor a p m' n u :
  Z.prime p -> 0 < m' -> hull_dobell a (p * m') ->
  geo (a ^ Z.of_nat n) (Z.to_nat p) = p * u -> Z.gcd m' u = 1.
Proof.
  intros Hp Hm [H1 H2] Hu. pose proof (Z.prime_ge_2 p Hp).
  apply coprime_by_primes; [done|]. intros q Hq Hqm Hqu.
  assert (Hqb : (q | a ^ Z.of_nat n - 1)) by (apply pow_mod_1, H1; [done | by apply Z.divide_mul_r]).
  destruct (Z.eq_dec q p) as [->|Hne].
  - apply (geo_prime_once p (a ^ Z.of_nat n)); [done | done | |].
    + intros ->. apply pow_mod_1, H2. destruct Hqm as [k ->]. exists k. lia.
    + rewrite Hu. by apply Z.mul_divide_mono_l.
  - apply Hne. apply Z.divide_prime_prime; [done..|].
    pose proof (geo_mod q _ (Z.to_nat p) Hqb) as Hs. rewrite Z2Nat.id, Hu in Hs by lia.
    replace p with (p * u - (p * u - p)) by lia.
    apply Z.divide_sub_r; [by apply Z.divide_mul_r | done].
Qed.

Lemma geo_divides a m n :
  0 < m -> hull_dobell a m -> (m | geo a n) -> (m | Z.of_nat n).
Proof.
  intros Hm. assert (H0 : 0 <= m) by lia. revert n Hm.
  pattern m. apply Z_lt_induction; [|done]. clear m H0. intros m IH n Hm Hhd Hd.
  destruct (Z.eq_dec m 1) as [->|Hm1]; [apply Z.divide_1_l|].
  destruct (prime_divisor m) as (p & Hp & m' & Hmp); [lia|].
  pose proof (Z.prime_ge_2 p Hp). rewrite Z.mul_comm in Hmp. subst m.
  assert (Hpn : (p | Z.of_nat n)).
  { pose proof (geo_mod p a n) as Hs.
    replace (Z.of_nat n) with (geo a n - (geo a n - Z.of_nat n)) by lia.
    apply Z.divide_sub_r; [eapply Z.divide_trans; [apply Z.divide_factor_l | exact Hd]|].
    apply Hs, Hhd; [done | apply Z.divide_factor_l]. }
  destruct Hpn as [n' Hn']. assert (Hn0 : 0 <= n') by nia.
  assert (Hn : n = (Z.to_nat n' * Z.to_nat p)%nat) by nia.
  rewrite Hn, geo_mul in Hd.
  destruct (geo_mod p (a ^ Z.of_nat (Z.to_nat n')) (Z.to_nat p)) as [u Hu].
  { apply pow_mod_1, Hhd; [done | apply Z.divide_factor_l]. }
  rewrite (Z2Nat.id p) in Hu by lia.
  assert (Hpu : geo (a ^ Z.of_nat (Z.to_nat n')) (Z.to_nat p) = p * (u + 1)) by lia.
  rewrite Hpu in Hd.
  assert (Hd' : (m' | (u + 1) * geo a (Z.to_nat n'))).
  { apply (Z.mul_divide_cancel_l _ _ p); [lia|].
    eapply Z.divide_trans; [exact Hd|]. exists 1. ring. }
  assert (0 < m') by nia.
  apply Z.gauss in Hd'; [|by apply (geo_cofactor a p m' (Z.to_nat n'))].
  apply IH in Hd'; [|nia|lia|by apply (hull_dobell_divisor a (p * m')); [|apply Z.divide_factor_r]].
  rewrite Z2Nat.id in Hd' by lia. rewrite Hn', Z.mul_comm. by apply Z.mul_divide_mono_r.
Qed.

Section Lcg.
Context (a c m : Z) (Hm : 0 < m) (Hhd : hull_dobell a m) (Hc : Z.gcd m c = 1).

Definition lcg (x : Z) : Z := (a * x + c) mod m.

(** The [n]-th successor of [x]. *)
Definition orbit (x : Z) (n : nat) : Z := Nat.iter n lcg x.

Lemma orbit_bound x n : 0 <= x < m -> 0 <= orbit x n < m.
Proof. intros Hx. destruct n; [done|]. apply Z.mod_pos_bound, Hm. Qed.

Lemma orbit_add x n k : orbit x (n + k) = orbit (orbit x n) k.
Proof. unfold orbit. rewrite Nat.add_comm. apply Nat.iter_add. Qed.

Lemma orbit_S x n : orbit x (S n) = orbit (lcg x) n.
Proof. exact (orbit_add x 1 n). Qed.

Lemma orbit_formula x n :
  0 <= x < m -> orbit x n = (a ^ Z.of_nat n * x + c * geo a n) mod m.
Proof.
  intros Hx. induction n as [|n IH].
  - cbn [orbit Nat.iter geo Z.of_nat]. rewrite Z.pow_0_r, Z.mul_0_r, Z.mul_1_l, Z.add_0_r.
    symmetry. by apply Z.mod_small.
  - change (orbit x (S n)) with (lcg (orbit x n)). rewrite IH. unfold lcg.
    rewrite <- Zplus_mod_idemp_l, Zmult_mod_idemp_r, Zplus_mod_idemp_l. f_equal.
    cbn [geo]. rewrite Nat2Z.inj_succ, Z.pow_succ_r by lia. ring.
Qed.

(** The generator returns to its start only after a multiple of [m] steps. *)
Lemma orbit_return x n : 0 <= x < m -> orbit x n = x -> (m | Z.of_nat n).
Proof.
  intros Hx Hr. rewrite orbit_formula in Hr by done.
  apply (geo_divides a m n Hm Hhd).
  assert (Hg : Z.gcd m ((a - 1) * x + c) = 1).
  { apply coprime_by_primes; [done|]. intros q Hq Hqm Hqd.
    assert (Hqc : (q | c)).
    { replace c with ((a - 1) * x + c - (a - 1) * x) by lia.
      apply Z.divide_sub_r; [done|]. apply Z.divide_mul_l. by apply Hhd. }
    pose proof (Z.prime_ge_2 q Hq).
    assert (q | 1) as H1 by (rewrite <- Hc; by apply Z.gcd_greatest).
    apply Z.divide_1_r_nonneg in H1; lia. }
  apply Z.gauss with ((a - 1) * x + c); [|done].
  replace (((a - 1) * x + c) * geo a n)
    with (a ^ Z.of_nat n * x + c * geo a n - x)
    by (pose proof (geo_pow a n); nia).
  apply Z.mod_divide; [lia|]. rewrite <- Hr at 2.
  by rewrite Zminus_mod_idemp_r, Z.sub_diag.
Qed.

Lemma orbit_NoDup x k :
  0 <= x < m -> Z.of_nat k <= m -> NoDup (map (orbit x) (seq 0 k)).
Proof.
  intros Hx Hk. apply NoDup_alt. intros i j y Hi Hj.
  apply list_lookup_fmap_Some in Hi as (i' & -> & Hi). apply list_lookup_fmap_Some in Hj as (j' & He & Hj).
  apply lookup_seq in Hi as [-> Hi]. apply lookup_seq in Hj as [-> Hj]. cbn in *.
  assert (Hret : forall p q, (p < q < k)%nat -> orbit x p <> orbit x q).
  { intros p q Hpq E. replace q with (p + (q - p))%nat in E by lia. rewrite orbit_add in E.
    symmetry in E. apply orbit_return in E; [|by apply orbit_bound].
    apply Z.divide_pos_le in E; lia. }
  destruct (lt_eq_lt_dec i j) as [[H|H]|H]; [|done|].
  - exfalso. by apply (Hret i j); [lia|].
  - exfalso. by apply (Hret j i); [lia|].
Qed.

(** Hull and Dobell: the first [m] values are all the residues. *)
Lemma orbit_full x :
  0 <= x < m -> map (orbit x) (seq 0 (Z.to_nat m)) ≡ₚ zrange 0 (Z.to_nat m).
Proof.
  intros Hx. apply NoDup_Permutation_bis.
  - apply NoDup_ListNoDup, orbit_NoDup; [done | lia].
  - by rewrite length_map, length_seq, length_zrange.
  - intros y Hy. apply list_elem_of_In, elem_of_zrange.
    apply in_map_iff in Hy as (i & <- & _). pose proof (orbit_bound x i Hx). lia.
Qed.

Lemma orbit_reaches x y : 0 <= x < m -> 0 <= y < m -> exists n, (n < Z.to_nat m)%nat /\ orbit x n = y.
Proof.
  intros Hx Hy. assert (Hin : y ∈ map (orbit x) (seq 0 (Z.to_nat m))).
  { rewrite (orbit_full x Hx), elem_of_zrange. lia. }
  apply list_elem_of_fmap in Hin as (n & -> & Hn). apply elem_of_seq in Hn. exists n. split; [lia | done].
Qed.

Lemma orbit_period x : 0 <= x < m -> orbit x (Z.to_nat m) = x.
Proof.
  intros Hx. rewrite orbit_formula by done. rewrite Z2Nat.id by lia.
  destruct (orbit_reaches (lcg x) x) as (n & Hn & He); [by apply Z.mod_pos_bound|done|].
  rewrite <- orbit_S in He. pose proof (orbit_return x (S n) Hx He) as Hd.
  apply Z.divide_pos_le in Hd; [|lia].
  assert (Z.of_nat (S n) = m) as HS by lia.
  rewrite orbit_formula in He by done. rewrite HS in He.
  by replace (Z.to_nat m) with (S n) by lia.
Qed.

End Lcg.

End NumTheory.
