(* ===== verification/FineLock.v ===== *)
(** The page queue with one lock per page: [src/src/finelock_queue.h] and
    [src/src/finelock_queue.cc].

    [pagelocks_] is the list of mutex states, [true] being locked.
    [GetRandomWithPredicateTag] is a search that no other thread disturbs; [advance] is
    the same search one access at a time, for executions in which threads interleave.
    The four generator mutexes appear as the set of slots whose [trylock] fails at the
    moment of the call.
    Index arithmetic is that of [uint64] and [int64]. *)

From S2P Require Import Prelude NumTheory PageQueue.

Module FineLock.
Import PageQueue.

Inductive metric := kTries | kTouch.

Record FineLockPEQueue := mkFineLock {
  pagelocks_ : list bool; pages_ : list page_entry; q_size_ : Z; page_size_ : Z;
  queue_metric_ : metric; a_ : Z; c_ : Z; modlength_ : Z; rand_seed_ : list Z
}.

(** *** Building the generator *)

(** [while (((remaining / i) * i) == remaining) remaining /= i;] *)
Fixpoint divide_out (fuel : nat) (remaining i : Z) : Z :=
  match fuel with
  | O => remaining
  | S fuel' =>
      if (remaining / i) * i =? remaining then divide_out fuel' (remaining / i) i
      else remaining
  end.

(** Body of [for (int64 i = 2; i <= m; i++)] on [(remaining, a)]. *)
Definition getA_step (s : Z * Z) (i : Z) : Z * Z :=
  let '(remaining, a) := s in
  if (remaining / i) * i =? remaining then
    let remaining := remaining / i in
    (divide_out (Z.to_nat remaining) remaining i, s64 (a * i))
  else (remaining, a).

Definition getA (m : Z) : Z :=
  let remaining := m in
  let a := if (remaining / 4) * 4 =? remaining then 2 else 1 in
  let '(_, a) := fold_left getA_step (zrange 2 (Z.to_nat (m - 1))) (remaining, a) in
  Z.rem (s64 (a + 1)) m.

(** [failed] after the inner loop over [i]. *)
Definition composite (possible_prime : Z) : bool :=
  existsb (fun i => (possible_prime / i) * i =? possible_prime)
    (zrange 2 (Z.to_nat (possible_prime - 2))).

Fixpoint getC_loop (n : nat) (possible_prime : Z) : Z :=
  match n with
  | O => 1
  | S n' => if 1 <? possible_prime then
              if composite possible_prime then getC_loop n' (possible_prime - 1)
              else possible_prime
            else 1
  end.

Definition getC (m : Z) : Z :=
  let start := 3 * m / 4 + 1 in
  getC_loop (Z.to_nat start) start.

(** [while (a == 1)]; [None] when the fuel runs out. *)
Fixpoint modlength_loop (fuel : nat) (modlength a : Z) : option (Z * Z) :=
  match fuel with
  | O => None
  | S fuel' =>
      if a =? 1 then
        let modlength := modlength + 1 in
        modlength_loop fuel' modlength (Z.rem (getA modlength) modlength)
      else Some (modlength, a)
  end.

(** [(a, c, modlength)]; nine rounds always suffice. *)
Definition generator (length : Z) : option (Z * Z * Z) :=
  if length <? 3 then Some (1, 1, length)
  else match modlength_loop 9 length (Z.rem (getA length) length) with
       | Some (modlength, a) => Some (a, getC modlength, modlength)
       | None => None
       end.

(** The pages are not initialised ([heap]) and all of them start out locked. *)
Definition new_FineLockPEQueue (queuesize pagesize : Z) (heap : list page_entry)
  : option FineLockPEQueue :=
  match generator queuesize with
  | Some (a, c, modlength) =>
      Some (mkFineLock (replicate (Z.to_nat queuesize) true) heap queuesize pagesize kTouch
              a c modlength (map (fun i => i + 0xbeef) (zrange 0 4)))
  | None => None
  end.

(** *** Random numbers *)

Definition set_seeds (q : FineLockPEQueue) (seeds : list Z) : FineLockPEQueue :=
  mkFineLock (pagelocks_ q) (pages_ q) (q_size_ q) (page_size_ q) (queue_metric_ q)
    (a_ q) (c_ q) (modlength_ q) seeds.

Definition GetRandom64FromSlot (q : FineLockPEQueue) (slot : Z) : Z * FineLockPEQueue :=
  let result := u64 (u64 (2862933555777941757 * aget 0 (rand_seed_ q) slot) + 3037000493) in
  (result, set_seeds q (aset (rand_seed_ q) slot result)).

(** The slot whose mutex is taken: the first free one, or slot 0 after waiting. *)
Definition pick_slot (busy : Z -> bool) : Z :=
  match List.find (fun i => negb (busy i)) (zrange 0 4) with Some i => i | None => 0 end.

Definition GetRandom64 (q : FineLockPEQueue) (busy : Z -> bool) : Z * FineLockPEQueue :=
  GetRandom64FromSlot q (pick_slot busy).

(** *** Get *)

Definition valid_index (q : FineLockPEQueue) (index : Z) : bool :=
  (0 <=? index) && (u64 index <? q_size_ q).

Inductive predicate := is_valid | is_empty.

Definition page_is_valid (pe : page_entry) : bool := bool_decide (pattern pe <> None).
Definition page_is_empty (pe : page_entry) : bool := bool_decide (pattern pe = None).

Definition pred_func (p : predicate) : page_entry -> bool :=
  match p with is_valid => page_is_valid | is_empty => page_is_empty end.

Definition next (q : FineLockPEQueue) (next_try : Z) : Z :=
  u64 (u64 (a_ q * next_try) + c_ q) mod modlength_ q.

(** [while (next_try >= q_size_)]; [None] when the fuel runs out. *)
Fixpoint skip_loop (fuel : nat) (q : FineLockPEQueue) (next_try : Z) : option Z :=
  match fuel with
  | O => None
  | S fuel' => if q_size_ q <=? next_try then skip_loop fuel' q (next q next_try)
               else Some next_try
  end.

(** The tests an entry has to pass: predicate, tag, [trylock], predicate again. *)
Definition acquirable (q : FineLockPEQueue) (p : predicate) (want : Z) (index : Z) : bool :=
  let pe := aget null_pe (pages_ q) index in
  pred_func p pe &&
  negb (negb (want =? kDontCareTag) && (Z.land (tag pe) want =? 0)) &&
  negb (aget true (pagelocks_ q) index) &&
  pred_func p pe.

(** The search loop from iteration [i]: the index found and its iteration; the outer
    [None] is an inner loop that does not end. *)
Fixpoint get_loop (n : nat) (q : FineLockPEQueue) (p : predicate) (want first_try next_try i : Z)
  : option (option (Z * Z)) :=
  match n with
  | O => Some None
  | S n' =>
      let index := u64 (next_try + first_try) mod q_size_ q in
      match skip_loop (S (Z.to_nat (modlength_ q))) q (next q next_try) with
      | None => None
      | Some next_try =>
          if acquirable q p want index then Some (Some (index, i))
          else get_loop n' q p want first_try next_try (i + 1)
      end
  end.

Definition set_touch (pe : page_entry) (t : Z) : page_entry :=
  mk_page_entry (offset pe) (addr pe) (paddr pe) (pattern pe) (tag pe) t (ts pe)
    (lastcpu pe) (write_dram_frequency pe) (lastpattern pe).

(** The copy handed to the caller, with its metric. *)
Definition fetched (q : FineLockPEQueue) (p : predicate) (index i : Z) : page_entry :=
  let pe := aget null_pe (pages_ q) index in
  match p, queue_metric_ q with
  | is_valid, kTries => set_touch pe (u32 i)
  | is_valid, kTouch => set_touch pe (u32 (touch pe + 1))
  | is_empty, _ => pe
  end.

Definition set_lock (q : FineLockPEQueue) (index : Z) (v : bool) : FineLockPEQueue :=
  mkFineLock (aset (pagelocks_ q) index v) (pages_ q) (q_size_ q) (page_size_ q)
    (queue_metric_ q) (a_ q) (c_ q) (modlength_ q) (rand_seed_ q).

Definition set_page (q : FineLockPEQueue) (index : Z) (pe : page_entry) : FineLockPEQueue :=
  mkFineLock (pagelocks_ q) (aset (pages_ q) index pe) (q_size_ q) (page_size_ q)
    (queue_metric_ q) (a_ q) (c_ q) (modlength_ q) (rand_seed_ q).

(** [Some (Some pe, q')] is [true] with [*pe] set, [Some (None, q')] is [false]. *)
Definition GetRandomWithPredicateTag (q : FineLockPEQueue) (pe_null : bool) (p : predicate)
    (want : Z) (busy : Z -> bool) : option (option page_entry * FineLockPEQueue) :=
  if pe_null || (q_size_ q =? 0) then Some (None, q)
  else
    let '(r, q) := GetRandom64 q busy in
    let first_try := r mod q_size_ q in
    match get_loop (Z.to_nat (q_size_ q)) q p want first_try 1 0 with
    | None => None
    | Some None => Some (None, q)
    | Some (Some (index, i)) => Some (Some (fetched q p index i), set_lock q index true)
    end.

Definition GetRandomWithPredicate (q : FineLockPEQueue) (pe_null : bool) (p : predicate)
    (busy : Z -> bool) := GetRandomWithPredicateTag q pe_null p kDontCareTag busy.

Definition GetValid (q : FineLockPEQueue) (pe_null : bool) (busy : Z -> bool) :=
  GetRandomWithPredicate q pe_null is_valid busy.
Definition GetValidTag (q : FineLockPEQueue) (pe_null : bool) (mask : Z) (busy : Z -> bool) :=
  GetRandomWithPredicateTag q pe_null is_valid mask busy.
Definition GetEmpty (q : FineLockPEQueue) (pe_null : bool) (busy : Z -> bool) :=
  GetRandomWithPredicate q pe_null is_empty busy.
Definition GetEmptyTag (q : FineLockPEQueue) (pe_null : bool) (mask : Z) (busy : Z -> bool) :=
  GetRandomWithPredicateTag q pe_null is_empty mask busy.

(** *** Get, access by access

    Several threads search at once.  A search is a sequence of single accesses to shared
    state: the predicate read without the lock, the tag read, [trylock], and the predicate
    read again with the lock held. *)
Record Walk := mkWalk {
  w_pred : predicate; w_tag : Z; w_first_try : Z; w_next_try : Z; w_i : Z
}.

Inductive Getter :=
| Search (w : Walk)
| TagTest (w : Walk) (index : Z)
| TryLock (w : Walk) (index : Z)
| Recheck (w : Walk) (index : Z).

(** Up to the head of the loop; [pe] is not null and the queue not empty. *)
Definition begin_get (q : FineLockPEQueue) (p : predicate) (want : Z) (busy : Z -> bool)
  : Getter * FineLockPEQueue :=
  let '(r, q) := GetRandom64 q busy in (Search (mkWalk p want (r mod q_size_ q) 1 0), q).

(** [continue]. *)
Definition continue (w : Walk) : Getter :=
  Search (mkWalk (w_pred w) (w_tag w) (w_first_try w) (w_next_try w) (w_i w + 1)).

(** One access: the search goes on, or it returns. *)
Definition advance (q : FineLockPEQueue) (g : Getter)
  : option (FineLockPEQueue * (Getter + option page_entry)) :=
  match g with
  | Search w =>
      if w_i w <? q_size_ q then
        let index := u64 (w_next_try w + w_first_try w) mod q_size_ q in
        next_try ← skip_loop (S (Z.to_nat (modlength_ q))) q (next q (w_next_try w));
        let w := mkWalk (w_pred w) (w_tag w) (w_first_try w) next_try (w_i w) in
        Some (q, inl (if pred_func (w_pred w) (aget null_pe (pages_ q) index)
                      then TagTest w index else continue w))
      else Some (q, inr None)
  | TagTest w index =>
      Some (q, inl (if negb (w_tag w =? kDontCareTag) &&
                       (Z.land (tag (aget null_pe (pages_ q) index)) (w_tag w) =? 0)
                    then continue w else TryLock w index))
  | TryLock w index =>
      if aget true (pagelocks_ q) index then Some (q, inl (continue w))
      else Some (set_lock q index true, inl (Recheck w index))
  | Recheck w index =>
      if pred_func (w_pred w) (aget null_pe (pages_ q) index)
      then Some (q, inr (Some (fetched q (w_pred w) index (w_i w))))
      else Some (set_lock q index false, inl (continue w))
  end.

(** *** Put *)

(** [int64 index = pe->offset / page_size_], an unsigned division. *)
Definition page_index (q : FineLockPEQueue) (off : Z) : Z := s64 (off / u64 (page_size_ q)).

Definition emptied (pe : page_entry) : page_entry :=
  mk_page_entry (offset pe) (addr pe) (paddr pe) None (tag pe) (touch pe) (ts pe)
    (lastcpu pe) (-1) (lastpattern pe).

Definition PutEmpty (q : FineLockPEQueue) (pe : option page_entry) : bool * FineLockPEQueue :=
  match pe with
  | None => (false, q)
  | Some pe =>
      if q_size_ q =? 0 then (false, q)
      else
        let index := page_index q (offset pe) in
        if valid_index q index then
          (true, set_lock (set_page q index (emptied pe)) index false)
        else (false, q)
  end.

Definition PutValid (q : FineLockPEQueue) (pe : option page_entry) : bool * FineLockPEQueue :=
  match pe with
  | None => (false, q)
  | Some pe =>
      if negb (page_is_valid pe) || (q_size_ q =? 0) then (false, q)
      else
        let index := page_index q (offset pe) in
        if valid_index q index then
          (true, set_lock (set_page q index pe) index false)
        else (false, q)
  end.

(** *** Lookups *)

Definition GetPageFromPhysical (q : FineLockPEQueue) (paddr_ : Z) : option page_entry :=
  List.find (fun pe => (paddr pe <=? paddr_) && (paddr_ <? u64 (paddr pe + u64 (page_size_ q))))
    (take (Z.to_nat (q_size_ q)) (pages_ q)).

(** Runs when no other thread holds the entry; the lock is taken and released. *)
Definition GetValidByOffset (q : FineLockPEQueue) (off : Z) (pe_null : bool) : option page_entry :=
  if pe_null || (page_size_ q <=? 0) || negb (off mod page_size_ q =? 0) then None
  else
    let index := page_index q off in
    if negb (valid_index q index) then None
    else
      let pe := aget null_pe (pages_ q) index in
      if page_is_valid pe && (offset pe =? off) then Some pe else None.

(** The bucket of a page: the loop [for (b = 0; b < 31; b++)] with its [break]. *)
Definition bucket (readcount : Z) : Z :=
  match List.find (fun b => readcount <? Z.shiftl 1 b) (zrange 0 31) with
  | Some b => b | None => 31 end.

(** The histogram [QueueAnalysis] logs. *)
Definition QueueAnalysis (q : FineLockPEQueue) : list Z :=
  fold_left (fun buckets pe =>
      let b := bucket (touch pe) in aset buckets b (u64 (aget 0 buckets b + 1)))
    (take (Z.to_nat (q_size_ q)) (pages_ q)) (replicate 32 0).

End FineLock.

Module FineLockFacts.
Import PageQueue FineLock NumTheory.

(** ** [getA]: the multiplier meets the conditions of Hull and Dobell *)

Lemma divides_test r i : 0 < i -> ((r / i) * i =? r) = true <-> (i | r).
Proof.
  intros Hi. rewrite Z.eqb_eq. split.
  - intros H. exists (r / i). lia.
  - intros [k ->]. by rewrite Z.div_mul by lia.
Qed.

Lemma divide_out_spec fuel r i :
  1 <= r -> 2 <= i -> (Z.to_nat r <= fuel)%nat ->
  let r' := divide_out fuel r i in
  1 <= r' <= r /\ (r' | r) /\ ~ (i | r') /\
  forall p, Z.prime p -> ~ (p | i) -> (p | r) -> (p | r').
Proof.
  revert r. induction fuel as [|fuel IH]; intros r Hr Hi Hf; [lia|]. cbn [divide_out].
  destruct ((r / i) * i =? r) eqn:E.
  - apply Z.eqb_eq in E. destruct (IH (r / i)) as (H1 & H2 & H3 & H4); [nia | done | nia |].
    split; [nia|]. split; [apply Z.divide_trans with (r / i); [done | exists i; lia]|].
    split; [done|]. intros p Hp Hpi Hpr. apply H4; [done..|].
    rewrite <- E in Hpr. apply Z.divide_prime_mul in Hpr; [|done]. tauto.
  - split; [lia|]. split; [apply Z.divide_refl|]. split; [|done].
    intros Hd. apply divides_test in Hd; [|lia]. congruence.
Qed.

(** Loop invariant of [getA] before iteration [i]. *)
Record getA_inv (m i : Z) (s : Z * Z) : Prop := {
  gi_pos : 1 <= s.1 /\ 1 <= s.2;
  gi_bound : s.2 * s.1 <= 2 * m;
  gi_rem : (s.1 | m);
  gi_primes : forall p, Z.prime p -> (p | m) -> if decide (p < i) then (p | s.2) else (p | s.1);
  gi_four : (4 | m) -> if decide (2 < i) then (4 | s.2) else (2 | s.2);
  gi_eight : (8 | m) -> if decide (2 < i) then ~ (2 | s.1) /\ ~ (8 | s.2) else s.2 = 2
}.

Lemma getA_step_eq m i s :
  m < 2 ^ 61 -> 2 <= i -> getA_inv m i s ->
  ((i | s.1) /\ exists r', getA_step s i = (r', s.2 * i) /\ 1 <= r' /\ r' * i <= s.1 /\
     (r' | s.1) /\ ~ (i | r') /\ forall p, Z.prime p -> ~ (p | i) -> (p | s.1) -> (p | r')) \/
  (~ (i | s.1) /\ getA_step s i = s).
Proof.
  intros Hm Hi [[Hr Ha] Hb _ _ _ _]. destruct s as [r a]. cbn [fst snd] in *. unfold getA_step.
  destruct ((r / i) * i =? r) eqn:E.
  - left. assert (Hd : (i | r)) by (apply divides_test; [lia | done]). split; [done|].
    apply Z.eqb_eq in E.
    destruct (divide_out_spec (Z.to_nat (r / i)) (r / i) i) as (H1 & H2 & H3 & H4); [nia..|].
    eexists. rewrite s64_id by nia. split; [reflexivity|]. split; [lia|]. split; [nia|].
    split; [apply Z.divide_trans with (r / i); [done | exists i; lia]|]. split; [done|].
    intros p Hp Hpi Hpr. apply H4; [done..|]. rewrite <- E in Hpr.
    apply Z.divide_prime_mul in Hpr; tauto.
  - right. split; [|done]. intros Hd. apply divides_test in Hd; [congruence | lia].
Qed.

Lemma prime_not_divides_smaller p i : Z.prime p -> 0 < i < p -> ~ (p | i).
Proof. intros Hp Hi Hd. apply Z.divide_pos_le in Hd; lia. Qed.

(** An odd factor keeps a number from becoming a multiple of 8. *)
Lemma eight_odd a i : (8 | a * i) -> ~ (2 | i) -> (8 | a).
Proof.
  intros Hd Hi. apply Z.gauss with i; [by rewrite Z.mul_comm|].
  change 8 with (2 ^ 3). apply coprime_by_primes; [lia|]. intros q Hq Hq2.
  apply Z.divide_prime_pp in Hq2; [by subst q | done | apply Z.prime_2 | lia].
Qed.

Lemma getA_step_inv m i s :
  m < 2 ^ 61 -> 2 <= i -> getA_inv m i s -> getA_inv m (i + 1) (getA_step s i).
Proof.
  intros Hm Hi Hinv.
  destruct (getA_step_eq m i s Hm Hi Hinv) as [(Hd & r' & -> & H1 & H2 & H3 & H4 & H5)|(Hd & ->)];
    destruct Hinv as [[Hr Ha] Hb Hrem Hp H4' H8]; split; cbn [fst snd] in *; try done.
  - nia.
  - nia.
  - by apply Z.divide_trans with s.1.
  - intros p Hpp Hpm. specialize (Hp p Hpp Hpm). clear H4' H8. do 2 case_decide; try lia.
    + by apply Z.divide_mul_l.
    + assert (p = i) as -> by lia. apply Z.divide_factor_r.
    + apply H5; [done | apply prime_not_divides_smaller; [done | lia] | done].
  - intros Hm4. clear H8. specialize (H4' Hm4). rewrite decide_True by lia.
    case_decide; [by apply Z.divide_mul_l|]. assert (i = 2) as -> by lia.
    by apply (Z.mul_divide_mono_r 2 s.2 2).
  - intros Hm8. clear H4'. specialize (H8 Hm8). rewrite decide_True by lia. case_decide as Hi2.
    + destruct H8 as [Hodd H8]. split.
      * intros Hd2. apply Hodd. by apply Z.divide_trans with r'.
      * intros H8'. apply H8. apply (eight_odd s.2 i H8').
        intros Hd2. apply Hodd. by apply Z.divide_trans with i.
    + assert (i = 2) as -> by lia. split; [done|]. rewrite H8. intros [k Hk]. lia.
  - intros p Hpp Hpm. specialize (Hp p Hpp Hpm). clear H4' H8. do 2 case_decide; try lia; try done.
    assert (p = i) as -> by lia. done.
  - intros Hm4. clear H8. rewrite decide_True by lia. specialize (H4' Hm4). case_decide; [done|].
    assert (i = 2) as -> by lia. exfalso.
    pose proof (Hp 2 Z.prime_2) as H2. rewrite decide_False in H2 by lia. apply Hd, H2.
    apply Z.divide_trans with 4; [by exists 2 | done].
  - intros Hm8. clear H4'. rewrite decide_True by lia. specialize (H8 Hm8). case_decide; [done|].
    assert (i = 2) as -> by lia. exfalso.
    pose proof (Hp 2 Z.prime_2) as H2. rewrite decide_False in H2 by lia. apply Hd, H2.
    apply Z.divide_trans with 8; [by exists 4 | done].
Qed.

Lemma getA_fold_inv m n i s :
  m < 2 ^ 61 -> 2 <= i -> getA_inv m i s ->
  getA_inv m (i + Z.of_nat n) (fold_left getA_step (zrange i n) s).
Proof.
  intros Hm. revert i s. induction n as [|n IH]; intros i s Hi Hs; cbn [zrange fold_left].
  - by rewrite Z.add_0_r.
  - replace (i + Z.of_nat (S n)) with (i + 1 + Z.of_nat n) by lia.
    apply IH; [lia|]. by apply getA_step_inv.
Qed.

Lemma getA_spec m :
  2 <= m < 2 ^ 61 -> exists a0, getA m = (a0 + 1) mod m /\
  (forall p, Z.prime p -> (p | m) -> (p | a0)) /\ ((4 | m) -> (4 | a0)) /\
  ((8 | m) -> ~ (8 | a0)).
Proof.
  intros Hm.
  assert (H0 : getA_inv m 2 (m, if (m / 4) * 4 =? m then 2 else 1)).
  { split; cbn [fst snd].
    - destruct (_ =? m); lia.
    - destruct (_ =? m); lia.
    - apply Z.divide_refl.
    - intros p Hp Hpm. rewrite decide_False; [done|]. pose proof (Z.prime_ge_2 p Hp). lia.
    - intros H4. rewrite (proj2 (divides_test m 4 ltac:(lia)) H4). by exists 1.
    - intros H8. rewrite (proj2 (divides_test m 4 ltac:(lia))); [done|].
      apply Z.divide_trans with 8; [by exists 2 | done]. }
  apply (getA_fold_inv m (Z.to_nat (m - 1)) 2) in H0; [|lia|lia].
  unfold getA. destruct (fold_left _ _ _) as [r a]. destruct H0 as [[Hr Ha] Hb _ Hp H4 H8].
  cbn [fst snd] in *. exists a. rewrite s64_id, Z.rem_mod_nonneg by nia.
  split; [done|]. split; [|split].
  - intros p Hpp Hpm. specialize (Hp p Hpp Hpm). apply Z.divide_pos_le in Hpm as Hle; [|lia].
    rewrite decide_True in Hp; [done | lia].
  - intros Hm4. specialize (H4 Hm4). apply Z.divide_pos_le in Hm4; [|lia].
    rewrite decide_True in H4; [done | lia].
  - intros Hm8. specialize (H8 Hm8). apply Z.divide_pos_le in Hm8; [|lia].
    rewrite decide_True in H8; [tauto | lia].
Qed.

Lemma getA_hull_dobell m : 2 <= m < 2 ^ 61 -> hull_dobell (getA m) m.
Proof.
  intros Hm. destruct (getA_spec m Hm) as (a0 & -> & Hp & H4 & _).
  assert (He : (a0 + 1) mod m - 1 = a0 - m * ((a0 + 1) / m)) by (rewrite Z.mod_eq; lia).
  split.
  - intros p Hpp Hpm. rewrite He. apply Z.divide_sub_r; [by apply Hp | by apply Z.divide_mul_l].
  - intros Hm4. rewrite He. apply Z.divide_sub_r; [by apply H4 | by apply Z.divide_mul_l].
Qed.

Lemma getA_range m : 2 <= m < 2 ^ 61 -> 0 <= getA m < m.
Proof. intros Hm. destruct (getA_spec m Hm) as (a0 & -> & _). apply Z.mod_pos_bound. lia. Qed.

(** A multiple of 8 always has a non-trivial multiplier. *)
Lemma getA_eight m : 2 <= m < 2 ^ 61 -> (8 | m) -> getA m <> 1.
Proof.
  intros Hm H8 H1. destruct (getA_spec m Hm) as (a0 & Ha & _ & _ & Hn).
  apply (Hn H8). apply Z.divide_trans with m; [done|].
  rewrite Ha in H1. rewrite Z.mod_eq in H1 by lia. exists ((a0 + 1) / m). lia.
Qed.

Lemma getA_rem m : 2 <= m < 2 ^ 61 -> Z.rem (getA m) m = getA m.
Proof.
  intros Hm. pose proof (getA_range m Hm). rewrite Z.rem_mod_nonneg by lia.
  apply Z.mod_small. lia.
Qed.

Lemma modlength_loop_spec fuel m t :
  2 <= m -> m + t < 2 ^ 61 -> 0 <= t < Z.of_nat fuel -> (8 | m + t) ->
  exists m', modlength_loop fuel m (Z.rem (getA m) m) = Some (m', getA m') /\
    m <= m' <= m + t /\ getA m' <> 1.
Proof.
  revert m t. induction fuel as [|fuel IH]; intros m t Hm Hmax Ht H8; [lia|].
  cbn [modlength_loop]. rewrite getA_rem by lia. destruct (Z.eqb_spec (getA m) 1) as [E|E].
  - destruct (Z.eq_dec t 0) as [->|Ht0].
    + exfalso. apply (getA_eight m); [lia | by rewrite Z.add_0_r in H8 | done].
    + destruct (IH (m + 1) (t - 1)) as (m' & -> & Hm' & H1); [lia..| |].
      { by replace (m + 1 + (t - 1)) with (m + t) by lia. }
      exists m'. split; [done|]. split; [lia | done].
  - exists m. split; [done|]. split; [lia | done].
Qed.

(** ** [getC]: a prime *)

Lemma composite_prime n : 1 < n -> composite n = false <-> Z.prime n.
Proof.
  intros Hn. unfold composite. split.
  - intros H. split; [done|]. intros d Hd Hdiv.
    apply not_true_iff_false in H. apply H, existsb_exists. exists d. split.
    + apply list_elem_of_In, elem_of_zrange. lia.
    + apply divides_test; [lia | done].
  - intros [_ H]. apply not_true_iff_false. intros Hex. apply existsb_exists in Hex as (d & Hd & Hdiv).
    apply list_elem_of_In, elem_of_zrange in Hd. apply divides_test in Hdiv; [|lia].
    apply (H d); [lia | done].
Qed.

(** The largest prime not above the starting point. *)
Lemma getC_loop_spec n p :
  2 <= p -> (Z.to_nat p <= n)%nat ->
  Z.prime (getC_loop n p) /\ getC_loop n p <= p /\
  forall r, Z.prime r -> r <= p -> r <= getC_loop n p.
Proof.
  revert p. induction n as [|n IH]; intros p Hp Hn; [lia|]. cbn [getC_loop].
  rewrite (proj2 (Z.ltb_lt _ _)) by lia. destruct (composite p) eqn:E.
  - destruct (Z.eq_dec p 2) as [->|Hne].
    { exfalso. pose proof (proj2 (composite_prime 2 ltac:(lia)) Z.prime_2). congruence. }
    destruct (IH (p - 1)) as (H1 & H2 & H3); [lia..|].
    split; [done|]. split; [lia|]. intros r Hr Hrp. apply H3; [done|].
    destruct (Z.eq_dec r p) as [->|]; [|lia].
    pose proof (proj2 (composite_prime p ltac:(lia)) Hr). congruence.
  - apply composite_prime in E; [|lia]. split; [done|]. split; [lia|]. done.
Qed.

(** A prime between half and three quarters of [m] makes the increment coprime. *)
Lemma getC_coprime m :
  5 <= m -> (exists r, Z.prime r /\ m < 2 * r /\ r <= 3 * m / 4 + 1) ->
  Z.gcd m (getC m) = 1 /\ Z.prime (getC m) /\ getC m < m.
Proof.
  intros Hm (r & Hr & H1 & H2). unfold getC.
  assert (3 * m / 4 + 1 < m) by (pose proof (Z.mul_div_le (3 * m) 4); lia).
  destruct (getC_loop_spec (Z.to_nat (3 * m / 4 + 1)) (3 * m / 4 + 1)) as (Hp & Hle & Hmax).
  { pose proof (Z.prime_ge_2 r Hr). lia. }
  { done. }
  specialize (Hmax r Hr H2). set (c := getC_loop _ _) in *.
  split; [|split; [done | lia]].
  rewrite Z.gcd_comm. apply Z.coprime_prime_l; [done|]. intros [k Hk].
  pose proof (Z.prime_ge_2 c Hp). assert (k = 1) by nia. subst k. lia.
Qed.

(** *** Primes close enough together for every queue up to 2^26 pages *)

Definition trial_prime (n : Z) : bool :=
  (1 <? n) && forallb (fun i => negb (n mod i =? 0)) (zrange 2 (Z.to_nat (Z.sqrt n - 1))).

Lemma trial_prime_sound n : trial_prime n = true -> Z.prime n.
Proof.
  unfold trial_prime. rewrite andb_true_iff, forallb_forall. intros [Hn Hall].
  apply Z.ltb_lt in Hn. split; [done|].
  assert (Hsmall : forall d, 1 < d -> d * d <= n -> ~ (d | n)).
  { intros d Hd Hdd Hdiv. specialize (Hall d). apply Z.mod_divide in Hdiv; [|lia].
    rewrite Hdiv in Hall. discriminate Hall. apply list_elem_of_In, elem_of_zrange.
    apply Z.sqrt_le_square in Hdd; lia. }
  intros d Hd [k Hk]. destruct (Z_le_dec (d * d) n).
  - apply (Hsmall d); [lia | done | by exists k].
  - apply (Hsmall k); [nia | nia | exists d; lia].
Qed.

Definition ladder : list Z :=
  [3; 5; 7; 11; 17; 23; 31; 47; 71; 107; 157; 233; 349; 523; 773; 1153; 1723; 2579;
   3863; 5791; 8681; 13009; 19507; 29251; 43867; 65789; 98669; 147997; 221989; 332951;
   499423; 749129; 1123693; 1685527; 2528269; 3792391; 5688577; 8532833; 12799231;
   19198847; 28798271; 43197367].

(** Every [m] below twice the last prime lies in the interval of one of them. *)
Fixpoint covers (lo : Z) (l : list Z) : bool :=
  match l with
  | [] => true
  | r :: l' => trial_prime r && (r <=? 3 * lo / 4 + 1) && covers (2 * r) l'
  end.

Lemma covers_spec l lo m :
  0 <= lo -> covers lo l = true -> lo <= m < 2 * List.last l 0 ->
  exists r, Z.prime r /\ m < 2 * r /\ r <= 3 * m / 4 + 1.
Proof.
  revert lo. induction l as [|r l IH]; intros lo Hlo Hc Hm; [cbn in *; lia|].
  cbn [covers] in Hc. apply andb_true_iff in Hc as [Hc Hl]. apply andb_true_iff in Hc as [Hp Hr].
  destruct (Z_lt_dec m (2 * r)) as [Hlt|Hge].
  - exists r. split; [by apply trial_prime_sound|]. split; [done|].
    apply Z.leb_le in Hr. assert (3 * lo / 4 <= 3 * m / 4) by (apply Z.div_le_mono; lia). lia.
  - destruct l as [|r' l]; [cbn in Hm; lia|].
    apply trial_prime_sound in Hp as [Hp1 _]. apply (IH (2 * r)); [lia | done |].
    change (List.last (r :: r' :: l) 0) with (List.last (r' :: l) 0) in Hm. lia.
Qed.

Lemma prime_in_range m :
  5 <= m <= 2 ^ 26 + 8 -> exists r, Z.prime r /\ m < 2 * r /\ r <= 3 * m / 4 + 1.
Proof.
  intros Hm. apply (covers_spec ladder 5); [lia | by vm_compute |].
  assert (2 ^ 26 + 8 < 2 * List.last ladder 0) by reflexivity. lia.
Qed.

(** ** The generator *)

(** What the constructor's search has to deliver for a queue of [n] pages. *)
Record good_generator (n a c m : Z) : Prop := {
  gg_mod : n <= m <= n + 7;
  gg_one : n = 1 -> m = 1;
  gg_a : 0 <= a <= m;
  gg_c : 0 <= c <= m;
  gg_hull : hull_dobell a m;
  gg_gcd : Z.gcd m c = 1
}.

Lemma hull_dobell_1 m : hull_dobell 1 m.
Proof. split; intros; apply Z.divide_0_r. Qed.

Lemma generator_good n :
  1 <= n <= 2 ^ 26 ->
  exists a c m, generator n = Some (a, c, m) /\ good_generator n a c m /\
    (3 <= n -> a <> 1 /\ Z.prime c).
Proof.
  intros Hn. unfold generator. destruct (Z.ltb_spec n 3).
  - exists 1, 1, n. split; [done|]. split; [|lia].
    split; [lia | lia | lia | lia | apply hull_dobell_1 | apply Z.gcd_1_r].
  - destruct (modlength_loop_spec 9 n ((- n) mod 8)) as (m & -> & Hm & Ha).
    + lia.
    + pose proof (Z.mod_pos_bound (- n) 8). lia.
    + pose proof (Z.mod_pos_bound (- n) 8). lia.
    + exists (- (- n / 8)). pose proof (Z.div_mod (- n) 8). lia.
    + pose proof (Z.mod_pos_bound (- n) 8).
      assert (5 <= m).
      { destruct (decide (m = 3)) as [->|]; [by contradict Ha|].
        destruct (decide (m = 4)) as [->|]; [by contradict Ha | lia]. }
      destruct (getC_coprime m) as (Hg & Hp & Hlt); [done | apply prime_in_range; lia |].
      pose proof (getA_range m ltac:(lia)). pose proof (Z.prime_ge_2 _ Hp).
      eexists _, _, _. split; [reflexivity|]. split; [|done].
      split; try lia. apply getA_hull_dobell. lia.
Qed.

(** The invariant of a queue. *)
Record wf_queue (q : FineLockPEQueue) : Prop := {
  wq_size : 1 <= q_size_ q <= 2 ^ 26;
  wq_gen : good_generator (q_size_ q) (a_ q) (c_ q) (modlength_ q);
  wq_locks : Z.of_nat (length (pagelocks_ q)) = q_size_ q;
  wq_pages : Z.of_nat (length (pages_ q)) = q_size_ q;
  wq_seeds : length (rand_seed_ q) = 4%nat;
  wq_psize : 0 < page_size_ q < 2 ^ 36
}.

(** ** The walk *)

Section Walk.
Context (q : FineLockPEQueue) (Hq : wf_queue q).
Abbreviation m := (modlength_ q).
Abbreviation orb := (orbit (a_ q) (c_ q) m).

Lemma next_lcg x : 0 <= x <= m -> next q x = lcg (a_ q) (c_ q) m x.
Proof.
  destruct Hq as [Hs [Hm _ Ha Hc _ _] _ _ _ _]. intros Hx. unfold next, lcg.
  assert (0 <= a_ q * x <= 2 ^ 27 * 2 ^ 27) by (split; [nia | apply Z.mul_le_mono_nonneg; lia]).
  rewrite (u64_id (a_ q * x)) by lia. rewrite u64_id by lia. done.
Qed.

Section Big.
Context (Hbig : 2 <= m).

Lemma orb_bound n : 0 <= orb 1 n < m.
Proof. apply orbit_bound; lia. Qed.

Lemma next_orb n : next q (orb 1 n) = orb 1 (S n).
Proof. rewrite next_lcg; [done|]. pose proof (orb_bound n). lia. Qed.

(** Positions of the orbit whose value is a page number. *)
Definition in_range (n : nat) : Prop := orb 1 n < q_size_ q.
#[local] Instance in_range_dec n : Decision (in_range n).
Proof. unfold in_range. apply _. Defined.

Lemma skip_loop_spec len j fuel :
  (len < fuel)%nat -> (exists i, (j <= i <= j + len)%nat /\ in_range i) ->
  exists d, (d <= len)%nat /\ skip_loop fuel q (orb 1 j) = Some (orb 1 (j + d)) /\
    in_range (j + d) /\ forall i, (j <= i < j + d)%nat -> ~ in_range i.
Proof.
  revert j fuel. induction len as [|len IH]; intros j [|fuel] Hf (i & Hi & Hin); try lia;
    cbn [skip_loop]; destruct (Z.leb_spec (q_size_ q) (orb 1 j)) as [Hle|Hlt].
  - assert (i = j) as -> by lia. unfold in_range in Hin. lia.
  - exists O. rewrite Nat.add_0_r. split; [lia|]. split; [done|]. split; [done|]. lia.
  - rewrite next_orb. destruct (IH (S j) fuel) as (d & Hd & Hs & Hr & Hn); [lia| |].
    { exists i. split; [|done]. destruct (decide (i = j)) as [->|]; [|lia].
      unfold in_range in Hin. lia. }
    exists (S d). replace (j + S d)%nat with (S j + d)%nat by lia.
    split; [lia|]. split; [done|]. split; [done|]. intros i' Hi'.
    destruct (decide (i' = j)) as [->|]; [unfold in_range; lia|]. apply Hn. lia.
  - exists O. rewrite Nat.add_0_r. split; [lia|]. split; [done|]. split; [done|]. lia.
Qed.

(** Within any [m] consecutive positions the walk meets a page number. *)
Lemma in_range_soon j : exists i, (j <= i <= j + Z.to_nat m)%nat /\ in_range i.
Proof.
  destruct Hq as [Hs [Hm _ Ha Hc Hhd Hg] _ _ _ _].
  destruct (orbit_reaches (a_ q) (c_ q) m ltac:(lia) Hhd Hg (orb 1 j) 0) as (n & Hn & He).
  - apply orb_bound.
  - lia.
  - exists (j + n)%nat. split; [lia|]. unfold in_range.
    rewrite (orbit_add (a_ q) (c_ q) m 1 j n), He. lia.
Qed.

Lemma filter_skip j d K :
  (forall i, (j <= i < j + d)%nat -> ~ in_range i) -> (d <= K)%nat ->
  filter in_range (seq j K) = filter in_range (seq (j + d) (K - d)).
Proof.
  revert j K. induction d as [|d IH]; intros j K Hn Hd.
  - by rewrite Nat.add_0_r, Nat.sub_0_r.
  - destruct K as [|K]; [lia|]. cbn [seq]. rewrite filter_cons_False by (apply Hn; lia).
    rewrite IH; [by rewrite Nat.add_succ_comm | intros; apply Hn; lia | lia].
Qed.

(** The search over an explicit list of tries. *)
Fixpoint search (p : predicate) (want first_try : Z) (tries : list Z) (i : Z) : option (Z * Z) :=
  match tries with
  | [] => None
  | t :: tries' =>
      let index := (t + first_try) mod q_size_ q in
      if acquirable q p want index then Some (index, i)
      else search p want first_try tries' (i + 1)
  end.

Lemma get_loop_search n j K p want first i :
  0 <= first < q_size_ q -> in_range j -> (n * S (Z.to_nat m) < K)%nat ->
  get_loop n q p want first (orb 1 j) i =
  Some (search p want first (map (orb 1) (take n (filter in_range (seq j K)))) i).
Proof.
  intros Hf. revert j K i. induction n as [|n IH]; intros j K i Hj HK; cbn [get_loop].
  - by rewrite take_0.
  - destruct K as [|K]; [lia|]. cbn [seq]. rewrite filter_cons_True by done.
    cbn [firstn map search]. rewrite next_orb.
    destruct (skip_loop_spec (Z.to_nat m) (S j) (S (Z.to_nat m))) as (d & Hd & Hs & Hr & Hn);
      [lia | apply in_range_soon |].
    rewrite Hs. pose proof (orb_bound j). destruct Hq as [Hsz _ _ _ _ _]. unfold in_range in Hj.
    rewrite u64_id by lia. case_if_eqn; [done|].
    rewrite (filter_skip (S j) d K Hn) by lia. apply IH; [done | lia].
Qed.

Lemma walk_values : 
  map (orb 1) (filter in_range (seq 0 (Z.to_nat m))) ≡ₚ zrange 0 (Z.to_nat (q_size_ q)).
Proof.
  destruct Hq as [Hs [Hm _ Ha Hc Hhd Hg] _ _ _ _].
  assert (Hmap : map (orb 1) (filter in_range (seq 0 (Z.to_nat m))) =
    filter (fun x => x < q_size_ q) (map (orb 1) (seq 0 (Z.to_nat m)))).
  { generalize (seq 0 (Z.to_nat m)). intros l. induction l as [|x l IH]; [done|].
    cbn [map]. rewrite !filter_cons. unfold in_range at 1.
    repeat case_decide; try done. cbn [map]. by rewrite IH. }
  rewrite Hmap. rewrite (orbit_full (a_ q) (c_ q) m ltac:(lia) Hhd Hg 1) by lia.
  apply NoDup_Permutation.
  - apply NoDup_filter, NoDup_zrange.
  - apply NoDup_zrange.
  - intros x. rewrite list_elem_of_filter, !elem_of_zrange. lia.
Qed.

End Big.

(** All the tries of one call: every page number exactly once. *)
Lemma get_loop_walk p want first :
  0 <= first < q_size_ q ->
  exists tries, tries ≡ₚ zrange 0 (Z.to_nat (q_size_ q)) /\
    get_loop (Z.to_nat (q_size_ q)) q p want first 1 0 = Some (search p want first tries 0).
Proof.
  intros Hf. destruct (Z_le_dec 2 m) as [Hbig|Hsmall].
  - pose proof (walk_values Hbig) as Hw. eexists. split; [exact Hw|].
    destruct Hq as [Hs [Hm H1 _ _ _ _] _ _ _ _].
    assert (Hin : in_range O) by (unfold in_range; change (orb 1 0) with 1; lia).
    set (n := Z.to_nat (q_size_ q)) in *. set (K := (n * S (Z.to_nat m) + 1)%nat).
    change 1 with (orb 1 0) at 1.
    rewrite (get_loop_search Hbig n 0 (Z.to_nat m + K)) by (done || lia).
    rewrite seq_app, filter_app, take_app_length'; [done|].
    apply Permutation_length in Hw. rewrite length_map, length_zrange in Hw. done.
  - destruct Hq as [Hs [Hm _ _ _ _ _] _ _ _ _].
    assert (Hm1 : m = 1) by lia. assert (Hq1 : q_size_ q = 1) by lia.
    exists [0]. split; [by rewrite Hq1|]. rewrite Hq1. change (Z.to_nat 1) with 1%nat.
    cbn [get_loop search]. unfold next. rewrite Hm1, !Z.mod_1_r, Hq1, !Z.mod_1_r.
    change (Z.to_nat 1) with 1%nat. cbn [skip_loop]. rewrite Hq1. cbn [Z.leb Z.compare].
    by case_if_eqn.
Qed.

Lemma search_spec p want first tries i :
  match search p want first tries i with
  | Some (index, _) => exists t, t ∈ tries /\ index = (t + first) mod q_size_ q /\
      acquirable q p want index = true
  | None => forall t, t ∈ tries -> acquirable q p want ((t + first) mod q_size_ q) = false
  end.
Proof.
  revert i. induction tries as [|t tries IH]; intros i; cbn [search].
  - intros t Ht. by apply elem_of_nil in Ht.
  - case_if_eqn.
    + exists t. split; [constructor | done].
    + specialize (IH (i + 1)). destruct (search _ _ _ tries _) as [[index i']|].
      * destruct IH as (t' & Ht & H). exists t'. split; [by constructor | done].
      * intros t' Ht'. apply elem_of_cons in Ht' as [->|Ht']; [done | by apply IH].
Qed.

End Walk.

(** An entry another thread could take now. *)
Definition available (q : FineLockPEQueue) (p : predicate) (want index : Z) : Prop :=
  let pe := aget null_pe (pages_ q) index in
  aget true (pagelocks_ q) index = false /\ pred_func p pe = true /\
  (want = kDontCareTag \/ Z.land (tag pe) want <> 0).

Lemma acquirable_available q p want index :
  acquirable q p want index = true <-> available q p want index.
Proof.
  unfold acquirable, available. cbv zeta. destruct (pred_func _ _), (aget true _ _);
    destruct (Z.eqb_spec want kDontCareTag), (Z.eqb_spec (Z.land (tag (aget null_pe (pages_ q) index)) want) 0);
    cbn; intuition congruence.
Qed.

Lemma get_loop_complete q p want first :
  wf_queue q -> 0 <= first < q_size_ q ->
  match get_loop (Z.to_nat (q_size_ q)) q p want first 1 0 with
  | Some (Some (index, _)) => 0 <= index < q_size_ q /\ available q p want index
  | Some None => forall index, 0 <= index < q_size_ q -> ~ available q p want index
  | None => False
  end.
Proof.
  intros Hq Hf. destruct (get_loop_walk q Hq p want first Hf) as (tries & Hp & ->).
  pose proof (search_spec q p want first tries 0) as Hs. pose proof (wq_size q Hq).
  destruct (search _ _ _ _ tries 0) as [[index i]|].
  - destruct Hs as (t & _ & -> & Ha). split; [apply Z.mod_pos_bound; lia|].
    by apply acquirable_available.
  - intros index Hi Ha. apply acquirable_available in Ha.
    rewrite <- (Z.mod_small index (q_size_ q)) in Ha by lia.
    replace (index mod q_size_ q) with (((index - first) mod q_size_ q + first) mod q_size_ q) in Ha
      by (rewrite Zplus_mod_idemp_l; f_equal; lia).
    rewrite Hs in Ha; [done|]. rewrite Hp, elem_of_zrange.
    pose proof (Z.mod_pos_bound (index - first) (q_size_ q)). lia.
Qed.

Lemma get_complete q p want busy :
  wf_queue q ->
  exists seeds, length seeds = 4%nat /\
  match GetRandomWithPredicateTag q false p want busy with
  | Some (Some pe, q') => exists index i,
      0 <= index < q_size_ q /\ available q p want index /\
      pe = fetched q p index i /\ q' = set_lock (set_seeds q seeds) index true
  | Some (None, q') => q' = set_seeds q seeds /\
      forall index, 0 <= index < q_size_ q -> ~ available q p want index
  | None => False
  end.
Proof.
  intros Hq. pose proof (wq_size q Hq). unfold GetRandomWithPredicateTag.
  rewrite orb_false_l, (proj2 (Z.eqb_neq _ _)) by lia.
  unfold GetRandom64, GetRandom64FromSlot. cbv zeta.
  set (r := u64 _). set (seeds := aset (rand_seed_ q) _ r). exists seeds.
  split; [unfold seeds; rewrite length_aset; apply Hq|].
  assert (Hq' : wf_queue (set_seeds q seeds)).
  { destruct Hq. split; try done. cbn. unfold seeds. by rewrite length_aset. }
  pose proof (get_loop_complete (set_seeds q seeds) p want (r mod q_size_ q) Hq') as Hg.
  change (q_size_ (set_seeds q seeds)) with (q_size_ q) in *.
  specialize (Hg (Z.mod_pos_bound r (q_size_ q) ltac:(lia))).
  destruct (get_loop _ _ _ _ _ _ _) as [[[index i]|]|]; [|done..].
  destruct Hg as [Hi Ha]. by exists index, i.
Qed.


(** The constructor's search for a generator succeeds, within seven steps above
    the queue size, for every queue of 1 to 2^26 pages, and the generator has full
    period: from any start the first [modlength] values are all the residues, each
    once.  From three pages on the multiplier is not trivial and the increment is a
    prime. *)
Theorem generator_full_period n x :
  1 <= n <= 2 ^ 26 ->
  exists a c m, generator n = Some (a, c, m) /\ n <= m <= n + 7 /\
    (3 <= n -> a <> 1 /\ Z.prime c) /\
    (0 <= x < m -> map (orbit a c m x) (seq 0 (Z.to_nat m)) ≡ₚ zrange 0 (Z.to_nat m)).
Proof.
  intros Hn. destruct (generator_good n Hn) as (a & c & m & Hg & [Hm _ _ _ Hhd Hgcd] & Hp).
  exists a, c, m. do 3 (split; [done|]). intros Hx. apply orbit_full; [lia | done..].
Qed.

Lemma generator_full_period_witness :
  exists a c m, generator 11 = Some (a, c, m) /\ (3 <= 11 -> a <> 1 /\ Z.prime c).
Proof.
  destruct (generator_full_period 11 0 ltac:(lia)) as (a & c & m & H1 & _ & H2 & _).
  exists a, c, m. auto.
Defined.

Lemma new_queue_wf n psize heap :
  1 <= n <= 2 ^ 26 -> 0 < psize < 2 ^ 36 -> Z.of_nat (length heap) = n ->
  exists q, new_FineLockPEQueue n psize heap = Some q /\ wf_queue q /\
    pagelocks_ q = replicate (Z.to_nat n) true /\ pages_ q = heap /\
    q_size_ q = n /\ page_size_ q = psize.
Proof.
  intros Hn Hp Hh. unfold new_FineLockPEQueue.
  destruct (generator_good n Hn) as (a & c & m & -> & Hg & _). eexists. split; [reflexivity|].
  split; [|done]. split; cbn [q_size_ a_ c_ modlength_ pagelocks_ pages_ rand_seed_ page_size_];
    try done. rewrite length_replicate. lia.
Qed.

(** A valid page. *)
Definition sample_page : page_entry :=
  mk_page_entry 4096 0 0 (Some 7) 1 0 0 0 0 None.

Lemma wf_set_lock q i v : wf_queue q -> wf_queue (set_lock q i v).
Proof. intros []. split; cbn; try done. by rewrite length_aset. Qed.

Lemma wf_set_page q i pe : wf_queue q -> wf_queue (set_page q i pe).
Proof. intros []. split; cbn; try done. by rewrite length_aset. Qed.

(** ** The search alone

    A thread that is not disturbed computes [GetRandomWithPredicateTag]. *)
Fixpoint run_getter (fuel : nat) (q : FineLockPEQueue) (g : Getter)
  : option (option page_entry * FineLockPEQueue) :=
  match fuel with
  | O => None
  | S fuel' => match advance q g with
               | Some (q', inl g') => run_getter fuel' q' g'
               | Some (q', inr r) => Some (r, q')
               | None => None
               end
  end.

Lemma run_getter_S fuel q g :
  run_getter (S fuel) q g = match advance q g with
                            | Some (q', inl g') => run_getter fuel q' g'
                            | Some (q', inr r) => Some (r, q')
                            | None => None
                            end.
Proof. done. Qed.

Lemma run_getter_mono k fuel q g x :
  run_getter fuel q g = Some x -> run_getter (k + fuel) q g = Some x.
Proof.
  revert q g. induction fuel as [|fuel IH]; intros q g H; [done|].
  rewrite Nat.add_succ_r. rewrite run_getter_S in *.
  destruct (advance q g) as [[q2 [g2|]]|]; [|done..]. by apply IH.
Qed.

Lemma run_getter_loop n q p want first next_try i r :
  i + Z.of_nat n = q_size_ q -> get_loop n q p want first next_try i = Some r ->
  exists fuel, run_getter fuel q (Search (mkWalk p want first next_try i)) =
    Some (match r with
          | None => (None, q)
          | Some (index, i') => (Some (fetched q p index i'), set_lock q index true)
          end).
Proof.
  revert next_try i. induction n as [|n IH]; intros nt i Hn H; cbn [get_loop] in H.
  - injection H as <-. exists 1%nat. cbn. by rewrite (proj2 (Z.ltb_ge _ _)) by lia.
  - set (index := u64 (nt + first) mod q_size_ q) in *.
    destruct (skip_loop _ _ _) as [nt'|] eqn:Hs; [|done].
    assert (Hgo : exists fuel, acquirable q p want index = false ->
      run_getter fuel q (continue (mkWalk p want first nt' i)) = Some (match r with
          | None => (None, q)
          | Some (index, i') => (Some (fetched q p index i'), set_lock q index true)
          end)).
    { destruct (acquirable q p want index); [by exists 0%nat|].
      destruct (IH nt' (i + 1)) as [fuel Hf]; [lia | done |]. by exists fuel. }
    destruct Hgo as [fuel Hgo]. exists (S (S (S (S fuel)))).
    rewrite run_getter_S. cbn [advance w_i w_next_try w_first_try w_pred w_tag].
    rewrite (proj2 (Z.ltb_lt _ _)) by lia. fold index. rewrite Hs. cbn [mbind option_bind].
    unfold acquirable in *.
    destruct (pred_func p _) eqn:Hp; cbn [andb] in *; [|by apply (run_getter_mono 3), Hgo].
    rewrite run_getter_S. cbn [advance w_tag].
    destruct (negb (want =? kDontCareTag) && _); cbn [negb andb] in *;
      [by apply (run_getter_mono 2), Hgo|].
    rewrite run_getter_S. cbn [advance].
    destruct (aget true (pagelocks_ q) index); cbn [negb andb] in *;
      [by apply (run_getter_mono 1), Hgo|].
    rewrite run_getter_S. cbn [advance w_pred w_i pages_ set_lock]. rewrite Hp. by injection H as <-.
Qed.

Lemma Get_alone q p want busy :
  wf_queue q ->
  exists fuel, run_getter fuel (begin_get q p want busy).2 (begin_get q p want busy).1 =
    GetRandomWithPredicateTag q false p want busy.
Proof.
  intros Hq. pose proof (get_complete q p want busy Hq) as (seeds & _ & H). revert H.
  unfold GetRandomWithPredicateTag, begin_get.
  rewrite (proj2 (Z.eqb_neq _ _)) by (pose proof (wq_size q Hq); lia). cbn [orb].
  destruct (GetRandom64 q busy) as [r q1] eqn:Hr. cbn [fst snd].
  assert (Hs : q_size_ q1 = q_size_ q) by (unfold GetRandom64, GetRandom64FromSlot in Hr; by injection Hr as _ <-).
  pose proof (wq_size q Hq).
  destruct (get_loop _ _ _ _ _ _ _) as [r'|] eqn:Hg; [|done]. intros _.
  apply run_getter_loop in Hg as [fuel Hf]; [|lia].
  exists fuel. rewrite Hf. by destruct r' as [[]|].
Qed.

(** C8. Finding a page never fails when there is one.  On a well-formed queue a [Get]
    terminates; it returns [false] only if no entry is at once unlocked, of the wanted
    kind and of a matching tag; otherwise it returns a copy of such an entry and its lock
    is the only one that changes.  Besides, only the random seeds change.  The search
    taken access by access computes the same when no other thread interferes. *)
Theorem GetRandomWithPredicateTag_complete q p want busy :
  wf_queue q ->
  (exists seeds, length seeds = 4%nat /\
   match GetRandomWithPredicateTag q false p want busy with
   | Some (Some pe, q') => exists index i,
       0 <= index < q_size_ q /\ available q p want index /\
       pe = fetched q p index i /\ q' = set_lock (set_seeds q seeds) index true
   | Some (None, q') => q' = set_seeds q seeds /\
       forall index, 0 <= index < q_size_ q -> ~ available q p want index
   | None => False
   end) /\
  exists fuel, run_getter fuel (begin_get q p want busy).2 (begin_get q p want busy).1 =
    GetRandomWithPredicateTag q false p want busy.
Proof. intros Hq. split; [by apply get_complete | by apply Get_alone]. Qed.

Lemma GetRandomWithPredicateTag_complete_witness :
  exists q pe q', wf_queue q /\
    GetRandomWithPredicateTag q false is_valid kDontCareTag (fun _ => false) = Some (Some pe, q').
Proof.
  destruct (new_queue_wf 3 4096 (replicate 3 null_pe))
    as (q0 & _ & Hwf & Hl & Hpg & Hsz & Hps); [lia.. | reflexivity |].
  set (q := set_lock (set_page q0 1 sample_page) 1 false).
  assert (Hq : wf_queue q) by apply wf_set_lock, wf_set_page, Hwf.
  destruct (GetRandomWithPredicateTag_complete q is_valid kDontCareTag (fun _ => false) Hq)
    as [(seeds & _ & H) _].
  exists q. destruct (GetRandomWithPredicateTag q _ _ _ _) as [[[pe|] q']|].
  - by exists pe, q'.
  - exfalso. destruct H as [_ H]. apply (H 1); [cbn; rewrite Hsz; lia|].
    unfold available, q. cbn [pages_ pagelocks_ set_lock set_page]. rewrite Hl, Hpg.
    split; [reflexivity|]. split; [reflexivity | by left].
  - done.
Defined.

(** ** Ownership

    [held] are the entries the worker threads have fetched and not yet put back, and
    [getters] the searches under way.  A worker may change its copy, but not the block it
    stands for.  [step_store] is the state of a Put between its store and its unlock. *)
Record sys := mkSys { queue : FineLockPEQueue; held : list page_entry; getters : list Getter }.

Inductive step : sys -> sys -> Prop :=
| step_begin q h gs p want busy :
    step (mkSys q h gs) (mkSys (begin_get q p want busy).2 h ((begin_get q p want busy).1 :: gs))
| step_advance q h gs gs' g q' g' :
    gs ≡ₚ g :: gs' -> advance q g = Some (q', inl g') ->
    step (mkSys q h gs) (mkSys q' h (g' :: gs'))
| step_return q h gs gs' g q' r :
    gs ≡ₚ g :: gs' -> advance q g = Some (q', inr r) ->
    step (mkSys q h gs) (mkSys q' (match r with Some pe => pe :: h | None => h end) gs')
| step_store q h gs pe pe' :
    pe ∈ h -> offset pe' = offset pe ->
    step (mkSys q h gs) (mkSys (set_page q (page_index q (offset pe')) pe') h gs)
| step_put_empty q h h' gs pe pe' :
    h ≡ₚ pe :: h' -> offset pe' = offset pe ->
    step (mkSys q h gs) (mkSys (PutEmpty q (Some pe')).2 h' gs)
| step_put_valid q h h' gs pe pe' :
    h ≡ₚ pe :: h' -> offset pe' = offset pe -> page_is_valid pe' = true ->
    step (mkSys q h gs) (mkSys (PutValid q (Some pe')).2 h' gs)
| step_put_invalid q h gs pe' :
    page_is_valid pe' = false -> step (mkSys q h gs) (mkSys (PutValid q (Some pe')).2 h gs).

(** The block number an entry stands for, and the blocks a state of the system owns:
    those of the held entries and those a search has just locked. *)
Definition block (psize : Z) (pe : page_entry) : Z := offset pe / psize.
Definition lock_of (g : Getter) : option Z :=
  match g with Recheck _ index => Some index | _ => None end.
Definition owned_blocks (psize : Z) (s : sys) : list Z :=
  map (block psize) (held s) ++ omap lock_of (getters s).

Definition locked (q : FineLockPEQueue) (i : Z) : bool := aget true (pagelocks_ q) i.
Definition page_offset (q : FineLockPEQueue) (i : Z) : Z := offset (aget null_pe (pages_ q) i).

Record owned (n psize : Z) (q : FineLockPEQueue) (bl : list Z) : Prop := {
  ow_wf : wf_queue q;
  ow_params : q_size_ q = n /\ page_size_ q = psize;
  ow_nodup : NoDup bl;
  ow_locked : forall i, 0 <= i < n -> locked q i = true <-> i ∈ bl;
  ow_free : forall i, 0 <= i < n -> locked q i = false -> page_offset q i = i * psize
}.

#[local] Instance owned_proper n psize q : Proper (Permutation ==> iff) (owned n psize q).
Proof.
  intros l l' Hl.
  split; intros [H1 H2 H3 H4 H5]; split; try done; try (by rewrite Hl in * || rewrite <- Hl in * );
    intros i Hi; rewrite H4 by done; [by rewrite Hl | by rewrite Hl].
Qed.

Lemma locked_set_lock q i j v :
  0 <= i -> 0 <= j < Z.of_nat (length (pagelocks_ q)) ->
  locked (set_lock q j v) i = if decide (i = j) then v else locked q i.
Proof.
  intros Hi Hj. unfold locked. cbn [pagelocks_ set_lock]. case_decide as Hd.
  - subst i. by apply aget_aset_eq.
  - apply aget_aset_ne; lia.
Qed.

Lemma owned_len n psize q bl :
  owned n psize q bl -> Z.of_nat (length (pagelocks_ q)) = n /\ Z.of_nat (length (pages_ q)) = n.
Proof. intros [Hwf [<- _] _ _ _]. split; apply Hwf. Qed.

Lemma owned_seeds n psize q bl seeds :
  owned n psize q bl -> length seeds = 4%nat -> owned n psize (set_seeds q seeds) bl.
Proof. intros [[] ? ? ? ?] Hs. by split; [split|..]. Qed.

Lemma owned_lock n psize q bl j :
  owned n psize q bl -> 0 <= j < n -> locked q j = false -> owned n psize (set_lock q j true) (j :: bl).
Proof.
  intros Ho Hj Hfree. destruct (owned_len _ _ _ _ Ho) as [Hlen _].
  destruct Ho as [Hwf Hp Hnd Hl Hf]. split.
  - by apply wf_set_lock.
  - done.
  - constructor; [|done]. rewrite <- Hl by done. congruence.
  - intros i Hi. rewrite locked_set_lock, elem_of_cons, <- Hl by lia.
    case_decide; split; auto. intros [?|?]; done.
  - intros i Hi. rewrite locked_set_lock by lia. case_decide; [done|]. by apply Hf.
Qed.

Lemma owned_unlock n psize q bl j :
  owned n psize q (j :: bl) -> 0 <= j < n -> page_offset q j = j * psize ->
  owned n psize (set_lock q j false) bl.
Proof.
  intros Ho Hj Hoff. destruct (owned_len _ _ _ _ Ho) as [Hlen _].
  destruct Ho as [Hwf Hp [Hnin Hnd]%NoDup_cons Hl Hf]. split.
  - by apply wf_set_lock.
  - done.
  - done.
  - intros i Hi. rewrite locked_set_lock by lia. case_decide as Hd; [subst i; by split|].
    rewrite Hl, elem_of_cons by done. tauto.
  - intros i Hi. rewrite locked_set_lock by lia. case_decide; [by subst i|]. by apply Hf.
Qed.

Lemma page_offset_set_page q j i pe :
  0 <= i -> 0 <= j < Z.of_nat (length (pages_ q)) ->
  page_offset (set_page q j pe) i = if decide (i = j) then offset pe else page_offset q i.
Proof.
  intros Hi Hj. unfold page_offset. cbn [pages_ set_page]. case_decide as Hd.
  - subst i. by rewrite aget_aset_eq.
  - by rewrite aget_aset_ne by lia.
Qed.

Lemma owned_store n psize q bl j pe :
  owned n psize q bl -> 0 <= j < n -> j ∈ bl -> owned n psize (set_page q j pe) bl.
Proof.
  intros Ho Hj Hin. destruct (owned_len _ _ _ _ Ho) as [_ Hlen].
  destruct Ho as [Hwf Hp Hnd Hl Hf]. split; [by apply wf_set_page | done | done | done |].
  intros i Hi Hfree. rewrite page_offset_set_page by lia. case_decide as Hd; [|by apply Hf].
  subst i. apply Hl in Hin; [|done]. by change (locked q j = false) in Hfree; rewrite Hin in Hfree.
Qed.

(** *** The system *)

Definition getter_ok (n psize : Z) (q : FineLockPEQueue) (g : Getter) : Prop :=
  match g with
  | Search _ => True
  | TagTest _ index | TryLock _ index => 0 <= index < n
  | Recheck _ index => 0 <= index < n /\ page_offset q index = index * psize
  end.

Record sys_owned (n psize : Z) (s : sys) : Prop := {
  so_owned : owned n psize (queue s) (owned_blocks psize s);
  so_held : Forall (fun pe => exists i, 0 <= i < n /\ offset pe = i * psize) (held s);
  so_getters : Forall (getter_ok n psize (queue s)) (getters s)
}.

Lemma block_offset psize pe i : 0 < psize -> offset pe = i * psize -> block psize pe = i.
Proof. intros Hp H. unfold block. rewrite H. apply Z.div_mul. lia. Qed.

Lemma page_index_eq q i :
  wf_queue q -> 0 <= i < q_size_ q ->
  page_index q (i * page_size_ q) = i /\ valid_index q i = true.
Proof.
  intros [Hs _ _ _ _ Hp] Hi. unfold page_index, valid_index.
  rewrite (u64_id (page_size_ q)), Z.div_mul, s64_id, u64_id by lia. split; [done|].
  apply andb_true_iff. split; [apply Z.leb_le | apply Z.ltb_lt]; lia.
Qed.

Lemma fetched_offset q p index i : offset (fetched q p index i) = page_offset q index.
Proof. unfold fetched, page_offset. by destruct p, (queue_metric_ q). Qed.

Lemma sys_owned_perm n psize q h h' gs gs' :
  h ≡ₚ h' -> gs ≡ₚ gs' -> sys_owned n psize (mkSys q h gs) -> sys_owned n psize (mkSys q h' gs').
Proof.
  intros Hh Hg [H1 H2 H3]. split; cbn in *.
  - unfold owned_blocks in *. cbn in *. by rewrite <- Hh, <- Hg.
  - by rewrite <- Hh.
  - by rewrite <- Hg.
Qed.

Lemma sys_owned_queue n psize q q' h gs gs' :
  sys_owned n psize (mkSys q h gs) -> pages_ q' = pages_ q ->
  owned n psize q' (owned_blocks psize (mkSys q' h gs')) ->
  (forall g, g ∈ gs' -> g ∈ gs \/ getter_ok n psize q' g) -> sys_owned n psize (mkSys q' h gs').
Proof.
  intros [H1 H2 H3] Hp Ho Hg. split; [done | done |]. cbn in *.
  apply Forall_forall. intros g Hin. destruct (Hg g Hin) as [Hold|]; [|done].
  eapply Forall_forall in H3; [|exact Hold]. destruct g; try done.
  cbn in *. unfold page_offset in *. by rewrite Hp.
Qed.

(** A search that moves on without touching the locks. *)
Lemma sys_owned_move n psize q h gs g g' :
  sys_owned n psize (mkSys q h (g :: gs)) -> lock_of g = None -> lock_of g' = None ->
  getter_ok n psize q g' -> sys_owned n psize (mkSys q h (g' :: gs)).
Proof.
  intros H Hg Hg' Hok. eapply sys_owned_queue; [exact H | done | | ].
  - pose proof (so_owned _ _ _ H) as Ho. unfold owned_blocks in *. cbn in *. by rewrite Hg, Hg' in *.
  - intros x [->|Hx]%elem_of_cons; [by right | left]. by apply elem_of_cons; right.
Qed.

Lemma sys_owned_drop n psize q h gs g :
  sys_owned n psize (mkSys q h (g :: gs)) -> lock_of g = None -> sys_owned n psize (mkSys q h gs).
Proof.
  intros H Hg. eapply sys_owned_queue; [exact H | done | | ].
  - pose proof (so_owned _ _ _ H) as Ho. unfold owned_blocks in *. cbn in *. by rewrite Hg in *.
  - intros x Hx. left. by apply elem_of_cons; right.
Qed.

Lemma recheck_blocks psize q h gs w j :
  owned_blocks psize (mkSys q h (Recheck w j :: gs)) ≡ₚ j :: owned_blocks psize (mkSys q h gs).
Proof. unfold owned_blocks. cbn. symmetry. apply Permutation_middle. Qed.

Lemma advance_owned n psize q h gs g q' r :
  sys_owned n psize (mkSys q h (g :: gs)) -> advance q g = Some (q', r) ->
  sys_owned n psize (match r with
                     | inl g' => mkSys q' h (g' :: gs)
                     | inr (Some pe) => mkSys q' (pe :: h) gs
                     | inr None => mkSys q' h gs
                     end).
Proof.
  intros H Ha. pose proof (so_owned _ _ _ H) as Ho. cbn [queue] in Ho.
  destruct (ow_params _ _ _ _ Ho) as [Hn Hps]. pose proof (ow_wf _ _ _ _ Ho) as Hwf.
  pose proof (wq_size q Hwf) as Hs. pose proof (wq_psize q Hwf) as Hp.
  pose proof (so_getters _ _ _ H) as [Hok _]%Forall_cons. cbn in Hok.
  destruct g as [w|w j|w j|w j]; cbn [advance] in Ha.
  - destruct (w_i w <? q_size_ q); [|injection Ha as <- <-; by eapply sys_owned_drop].
    destruct (skip_loop _ _ _); [|done]. cbn in Ha. injection Ha as <- <-.
    destruct (pred_func _ _); eapply sys_owned_move; try done.
    cbn. rewrite <- Hn. apply Z.mod_pos_bound. lia.
  - injection Ha as <- <-. destruct (negb _ && _); by eapply sys_owned_move.
  - destruct (aget true (pagelocks_ q) j) eqn:Hl; injection Ha as <- <-; [by eapply sys_owned_move|].
    eapply sys_owned_queue; [exact H | done | | ].
    + rewrite recheck_blocks. apply (owned_lock n psize q); [|done..].
      by apply (so_owned _ _ _ (sys_owned_drop _ _ _ _ _ _ H eq_refl)).
    + intros g [->|Hg]%elem_of_cons; [right | left; by apply elem_of_cons; right].
      split; [done|]. by apply (ow_free _ _ _ _ Ho).
  - destruct Hok as [Hj Hoff]. rewrite recheck_blocks in Ho.
    destruct (pred_func _ _); injection Ha as <- <-.
    + assert (Hpe : offset (fetched q (w_pred w) j (w_i w)) = j * psize) by (by rewrite fetched_offset).
      destruct H as [_ H2 H3]. cbn in *. apply Forall_cons in H3 as [_ H3]. split; cbn; [|by constructor; [exists j|]|done].
      unfold owned_blocks in *. cbn. by rewrite (block_offset psize _ j) by (lia || done).
    + eapply sys_owned_queue; [exact H | done | | ].
      * by apply owned_unlock.
      * intros g [->|Hg]%elem_of_cons; [by right | left; by apply elem_of_cons; right].
Qed.

(** A held entry is stored at its place. *)
Lemma held_place n psize s pe :
  sys_owned n psize s -> pe ∈ held s ->
  exists j, 0 <= j < n /\ offset pe = j * psize /\ page_index (queue s) (offset pe) = j /\
    valid_index (queue s) j = true /\ block psize pe = j /\ j ∈ owned_blocks psize s.
Proof.
  intros [Ho Hh _] Hin. destruct (ow_params _ _ _ _ Ho) as [Hn Hps].
  pose proof (ow_wf _ _ _ _ Ho) as Hwf. pose proof (wq_psize _ Hwf) as Hp.
  eapply Forall_forall in Hh as (j & Hj & Hoff); [|exact Hin]. exists j.
  destruct (page_index_eq (queue s) j Hwf) as [Hi Hv]; [lia|].
  assert (Hb : block psize pe = j) by (apply block_offset; [lia | done]).
  rewrite Hoff, <- Hps, Hi, Hps. do 5 (split; [done|]).
  unfold owned_blocks. apply elem_of_app. left. rewrite <- Hb. by apply list_elem_of_fmap_2.
Qed.

Lemma sys_owned_store n psize q h gs pe pe' :
  sys_owned n psize (mkSys q h gs) -> pe ∈ h -> offset pe' = offset pe ->
  sys_owned n psize (mkSys (set_page q (page_index q (offset pe')) pe') h gs).
Proof.
  intros H Hin Hoff. destruct (held_place _ _ _ _ H Hin) as (j & Hj & Hpe & Hi & _ & Hb & Hbl).
  cbn [queue] in Hi. rewrite Hoff, Hi. destruct H as [Ho Hh Hg]. cbn in *.
  destruct (owned_len _ _ _ _ Ho) as [_ Hlen].
  split; [by apply owned_store | done |]. cbn. apply Forall_forall. intros g Hin'.
  eapply Forall_forall in Hg as Hg'; [|exact Hin']. destruct g as [| | |w i]; try done.
  destruct Hg' as [Hi' Ho']. split; [done|]. rewrite page_offset_set_page by lia.
  case_decide; [congruence | done].
Qed.

(** Putting one back. *)
Lemma sys_owned_put n psize q h h' gs pe pe' :
  sys_owned n psize (mkSys q h gs) -> h ≡ₚ pe :: h' -> offset pe' = offset pe ->
  sys_owned n psize (mkSys (set_lock (set_page q (page_index q (offset pe')) pe')
                              (page_index q (offset pe')) false) h' gs) /\
  valid_index q (page_index q (offset pe')) = true.
Proof.
  intros H Hperm Hoff. assert (Hin : pe ∈ h) by (rewrite Hperm; by apply elem_of_cons; left).
  destruct (held_place _ _ _ _ H Hin) as (j & Hj & Hpe & Hi & Hv & Hb & _).
  pose proof (sys_owned_store _ _ _ _ _ _ pe' H Hin Hoff) as Hst.
  apply (sys_owned_perm _ _ _ _ (pe :: h') _ gs) in Hst; [|done..].
  cbn [queue] in Hi, Hv. rewrite Hoff, Hi in *. split; [|done].
  destruct (owned_len _ _ _ _ (so_owned _ _ _ H)) as [_ Hlen]. cbn in Hlen.
  destruct Hst as [Ho [_ Hh]%Forall_cons Hg]. cbn in *. split; [|done|done].
  apply owned_unlock; [|done|].
  - unfold owned_blocks in *. cbn in *. by rewrite Hb in Ho.
  - rewrite page_offset_set_page by lia. rewrite decide_True by done. by rewrite Hoff.
Qed.

Lemma PutEmpty_eq q pe :
  wf_queue q -> valid_index q (page_index q (offset pe)) = true ->
  PutEmpty q (Some pe) =
  (true, set_lock (set_page q (page_index q (offset pe)) (emptied pe)) (page_index q (offset pe)) false).
Proof.
  intros Hq Hv. unfold PutEmpty. rewrite (proj2 (Z.eqb_neq _ _)), Hv; [done|].
  pose proof (wq_size q Hq). lia.
Qed.

Lemma PutValid_eq q pe :
  wf_queue q -> page_is_valid pe = true -> valid_index q (page_index q (offset pe)) = true ->
  PutValid q (Some pe) =
  (true, set_lock (set_page q (page_index q (offset pe)) pe) (page_index q (offset pe)) false).
Proof.
  intros Hq Hpe Hv. unfold PutValid. rewrite Hpe, (proj2 (Z.eqb_neq _ _)), Hv; [done|].
  pose proof (wq_size q Hq). lia.
Qed.

Lemma step_owned n psize s s' : sys_owned n psize s -> step s s' -> sys_owned n psize s'.
Proof.
  intros H Hstep. destruct Hstep as [q h gs p want busy|q h gs gs' g q' g' Hperm Ha
    |q h gs gs' g q' r Hperm Ha|q h gs pe pe' Hin Hoff
    |q h h' gs pe pe' Hperm Hoff|q h h' gs pe pe' Hperm Hoff Hv|q h gs pe' Hv].
  - eapply sys_owned_queue; [exact H | done | | ].
    + apply owned_seeds; [apply H|]. rewrite length_aset. apply H.
    + intros g [->|Hg]%elem_of_cons; [by right | by left].
  - apply (sys_owned_perm _ _ _ _ h _ (g :: gs')) in H; [|done..].
    exact (advance_owned _ _ _ _ _ _ _ _ H Ha).
  - apply (sys_owned_perm _ _ _ _ h _ (g :: gs')) in H; [|done..].
    pose proof (advance_owned _ _ _ _ _ _ _ _ H Ha) as H'. by destruct r.
  - by eapply sys_owned_store.
  - destruct (sys_owned_put n psize q h h' gs pe (emptied pe') H Hperm Hoff) as [H' Hvi].
    by rewrite PutEmpty_eq by (apply H || done).
  - destruct (sys_owned_put n psize q h h' gs pe pe' H Hperm Hoff) as [H' Hvi].
    by rewrite PutValid_eq by (apply H || done).
  - unfold PutValid. by rewrite Hv.
Qed.

(** The state [Sat::InitializePages] starts from: every page locked, and one entry to
    put for each block. *)
Lemma owned_init n psize heap h :
  1 <= n <= 2 ^ 26 -> 0 < psize < 2 ^ 36 -> Z.of_nat (length heap) = n ->
  map offset h = map (fun i => i * psize) (zrange 0 (Z.to_nat n)) ->
  exists q, new_FineLockPEQueue n psize heap = Some q /\ sys_owned n psize (mkSys q h []).
Proof.
  intros Hn Hp Hh Hoff.
  destruct (new_queue_wf n psize heap Hn Hp Hh) as (q & Hq & Hwf & Hl & Hpg & Hsz & Hps).
  exists q. split; [done|].
  assert (Hblk : owned_blocks psize (mkSys q h []) = zrange 0 (Z.to_nat n)).
  { unfold owned_blocks, block. cbn. rewrite app_nil_r.
    rewrite <- (map_map offset (fun o => o / psize)), Hoff, map_map.
    rewrite <- (map_id (zrange 0 (Z.to_nat n))) at 2. apply map_ext. intros i. apply Z.div_mul. lia. }
  assert (Hlk : forall i, 0 <= i < n -> locked q i = true).
  { intros i Hi. unfold locked, aget. rewrite Hl. apply nth_lookup_Some, lookup_replicate_2. lia. }
  split; cbn [queue held getters]; [|apply Forall_forall; intros pe Hpe|done].
  - rewrite Hblk. split; try done.
    + apply NoDup_zrange.
    + intros i Hi. rewrite elem_of_zrange, Hlk by done. split; [lia | done].
    + intros i Hi Hf. by rewrite Hlk in Hf.
  - assert (Hin : offset pe ∈ map offset h) by (by apply list_elem_of_fmap_2).
    rewrite Hoff in Hin. apply list_elem_of_fmap in Hin as (i & -> & Hi).
    apply elem_of_zrange in Hi. exists i. split; [lia | done].
Qed.

(** C7. Pages are never shared.  In every execution of any number of threads from the
    initial state, interleaved between any two accesses to the queue that their Gets and
    Puts make, no block is owned twice: two held entries never stand for the same block,
    and no search has locked a block that is held or locked by another search; the locked
    entries are exactly the owned blocks; and a worker can always put back what it holds. *)
Theorem page_ownership n psize heap h q0 s :
  1 <= n <= 2 ^ 26 -> 0 < psize < 2 ^ 36 -> Z.of_nat (length heap) = n ->
  map offset h = map (fun i => i * psize) (zrange 0 (Z.to_nat n)) ->
  new_FineLockPEQueue n psize heap = Some q0 -> rtc step (mkSys q0 h []) s ->
  NoDup (owned_blocks psize s) /\
  (forall i, 0 <= i < n -> locked (queue s) i = true <-> i ∈ owned_blocks psize s) /\
  forall pe, pe ∈ held s -> (PutEmpty (queue s) (Some pe)).1 = true.
Proof.
  intros Hn Hp Hh Hoff Hq0 Hsteps.
  destruct (owned_init n psize heap h Hn Hp Hh Hoff) as (q0' & Hq0' & Ho).
  assert (q0' = q0) as -> by congruence.
  assert (Ho' : sys_owned n psize s).
  { revert Ho. induction Hsteps; intros Ho; [done|]. apply IHHsteps. by eapply step_owned. }
  split; [apply Ho'|]. split; [apply Ho'|].
  intros pe Hpe. destruct (held_place _ _ _ _ Ho' Hpe) as (j & _ & _ & Hi & Hv & _).
  rewrite PutEmpty_eq; [done | apply Ho' | by rewrite Hi].
Qed.

Definition block0 : page_entry := mk_page_entry 0 0 0 (Some 7) 1 0 0 0 0 None.

(** One thread puts a block back while another searches for it and locks it. *)
Lemma page_ownership_witness :
  exists q0, new_FineLockPEQueue 1 4096 [null_pe] = Some q0 /\
  exists q w, NoDup (owned_blocks 4096 (mkSys q [] [Recheck w 0])).
Proof.
  eexists. split; [reflexivity|]. do 2 eexists.
  eapply (page_ownership 1 4096 [null_pe] [block0]);
    [lia | lia | reflexivity | reflexivity | reflexivity |].
  eapply rtc_l; [by apply (step_put_valid _ _ [] _ block0 block0)|].
  eapply rtc_l; [apply (step_begin _ _ _ is_valid kDontCareTag (fun _ => false))|].
  do 2 (eapply rtc_l; [eapply (step_advance _ _ _ []); [reflexivity | vm_compute; reflexivity]|]).
  apply rtc_once. eapply (step_advance _ _ _ []); [reflexivity | vm_compute; reflexivity].
Defined.

(** ** Lookups and statistics *)

(** A valid page put into the queue is found again: by its offset, which returns
    exactly that entry, and by any physical address inside it, which returns an entry
    whose physical range contains the address. *)
Theorem put_then_lookup q pe i x :
  wf_queue q -> 0 <= i < q_size_ q -> offset pe = i * page_size_ q -> page_is_valid pe = true ->
  0 <= paddr pe <= x -> x < paddr pe + page_size_ q -> paddr pe < 2 ^ 63 ->
  exists q', PutValid q (Some pe) = (true, q') /\
    GetValidByOffset q' (offset pe) false = Some pe /\
    exists pe', GetPageFromPhysical q' x = Some pe' /\
      paddr pe' <= x < u64 (paddr pe' + page_size_ q).
Proof.
  intros Hq Hi Hoff Hv Hx1 Hx2 Hmax. pose proof (wq_psize q Hq) as Hp.
  destruct (page_index_eq q i Hq Hi) as [Hidx Hvi].
  rewrite PutValid_eq by (rewrite ?Hoff, ?Hidx; done). rewrite Hoff, Hidx.
  eexists. split; [reflexivity|].
  assert (Hlen : Z.of_nat (length (pages_ q)) = q_size_ q) by apply Hq.
  set (q' := set_lock _ i false).
  assert (Hget : aget null_pe (pages_ q') i = pe) by (apply aget_aset_eq; lia). split.
  - unfold GetValidByOffset. change (page_size_ q') with (page_size_ q).
    rewrite (proj2 (Z.leb_gt _ _)) by lia. rewrite Z.mod_mul by lia. cbn [orb negb Z.eqb].
    change (page_index q' (i * page_size_ q)) with (page_index q (i * page_size_ q)).
    change (valid_index q') with (valid_index q). rewrite Hidx, Hvi. cbn [negb].
    by rewrite Hget, Hv, Hoff, Z.eqb_refl.
  - unfold GetPageFromPhysical. change (page_size_ q') with (page_size_ q).
    change (q_size_ q') with (q_size_ q). rewrite (u64_id (page_size_ q)) by lia.
    destruct (List.find _ _) as [pe'|] eqn:Hf.
    + apply find_some in Hf as [_ Hf]. bool_to_prop. exists pe'. split; [done | lia].
    + exfalso. pose proof (find_none _ _ Hf pe) as Hn. cbv beta in Hn.
      rewrite u64_id in Hn by lia.
      rewrite (proj2 (Z.leb_le _ _)), (proj2 (Z.ltb_lt _ _)) in Hn by lia.
      discriminate Hn. apply list_elem_of_In. rewrite take_ge by (cbn; rewrite length_aset; lia).
      rewrite <- Hget. apply list_elem_of_In, nth_In. cbn. rewrite length_aset. lia.
Qed.

Lemma put_then_lookup_witness :
  exists q q', wf_queue q /\ PutValid q (Some sample_page) = (true, q') /\
    GetValidByOffset q' 4096 false = Some sample_page.
Proof.
  destruct (new_queue_wf 3 4096 (replicate 3 null_pe))
    as (q & _ & Hwf & _ & _ & Hsz & Hps); [lia.. | reflexivity |].
  destruct (put_then_lookup q sample_page 1 5 Hwf) as (q' & H1 & H2 & _);
    rewrite ?Hsz, ?Hps; try (cbn; lia); try reflexivity.
  by exists q, q'.
Defined.

Lemma bucket_spec r : 0 <= r < 2 ^ 32 ->
  0 <= bucket r < 32 /\ (bucket r < 31 -> r < 2 ^ bucket r) /\ (0 < bucket r -> 2 ^ (bucket r - 1) <= r).
Proof.
  intros Hr. unfold bucket.
  assert (Hgen : forall n a, 0 <= a -> (0 < a -> 2 ^ (a - 1) <= r) ->
    match List.find (fun b => r <? Z.shiftl 1 b) (zrange a n) with
    | Some b => a <= b < a + Z.of_nat n /\ r < 2 ^ b /\ (0 < b -> 2 ^ (b - 1) <= r)
    | None => 0 < a + Z.of_nat n -> 2 ^ (a + Z.of_nat n - 1) <= r
    end).
  { induction n as [|n IH]; intros a Ha Hlow; cbn [zrange List.find].
    - by rewrite Z.add_0_r.
    - rewrite Z.shiftl_mul_pow2, Z.mul_1_l by lia. destruct (Z.ltb_spec r (2 ^ a)).
      + split; [lia|]. done.
      + specialize (IH (a + 1)). replace (a + 1 + Z.of_nat n) with (a + Z.of_nat (S n)) in IH by lia.
        assert (Hl : 0 < a + 1 -> 2 ^ (a + 1 - 1) <= r) by (intros; by replace (a + 1 - 1) with a by lia).
        specialize (IH ltac:(lia) Hl). destruct (List.find _ _); [|done]. split; [lia | tauto]. }
  specialize (Hgen 31%nat 0 ltac:(lia) ltac:(lia)). destruct (List.find _ _) as [b|].
  - split; [lia|]. tauto.
  - split; [lia|]. split; [lia|]. intros _. apply Hgen. lia.
Qed.

Lemma aget_replicate0 b : aget 0 (replicate 32 0) b = 0.
Proof. apply (nth_In_or_default (fun x => x = 0)); [repeat constructor | done]. Qed.

Definition in_bucket (b : Z) (pe : page_entry) : Prop := bucket (touch pe) = b.
#[export] Instance in_bucket_dec b pe : Decision (in_bucket b pe).
Proof. unfold in_bucket. apply _. Defined.

Lemma histogram_count l bs b :
  length bs = 32%nat -> 0 <= b < 32 ->
  Forall (fun pe => 0 <= touch pe < 2 ^ 32) l ->
  0 <= aget 0 bs b -> aget 0 bs b + Z.of_nat (length l) < 2 ^ 64 ->
  aget 0 (fold_left (fun buckets pe =>
      let b := bucket (touch pe) in aset buckets b (u64 (aget 0 buckets b + 1))) l bs) b =
  aget 0 bs b + Z.of_nat (length (filter (in_bucket b) l)).
Proof.
  intros Hl Hb Ht. revert bs Hl. induction Ht as [|pe l Hpe Ht IH]; intros bs Hl Hp Hmax.
  - cbn [fold_left]. rewrite filter_nil. cbn [length]. lia.
  - cbn [fold_left length] in *. destruct (bucket_spec (touch pe) Hpe) as [Hbk _].
    rewrite filter_cons. unfold in_bucket at 2. case_decide as Hd.
    + rewrite Hd. assert (Hb' : aget 0 (aset bs b (u64 (aget 0 bs b + 1))) b = aget 0 bs b + 1)
        by (rewrite aget_aset_eq, u64_id by lia; done).
      rewrite IH; rewrite ?length_aset, ?Hb'; [cbn [length]; lia | done | lia | lia].
    + assert (Hb' : aget 0 (aset bs (bucket (touch pe)) (u64 (aget 0 bs (bucket (touch pe)) + 1))) b
        = aget 0 bs b) by (apply aget_aset_ne; lia || done).
      rewrite IH; rewrite ?length_aset, ?Hb'; done || lia.
Qed.

(** The histogram is right: bucket [b] of [QueueAnalysis] is the number of pages
    whose read count has [b] significant bits, the last bucket also taking everything
    from 2^31 on. *)
Theorem QueueAnalysis_counts q b :
  wf_queue q -> Forall (fun pe => 0 <= touch pe < 2 ^ 32) (pages_ q) -> 0 <= b < 32 ->
  aget 0 (QueueAnalysis q) b = Z.of_nat (length (filter (in_bucket b) (pages_ q))) /\
  forall pe, pe ∈ pages_ q -> in_bucket b pe <->
    (b = 0 \/ 2 ^ (b - 1) <= touch pe) /\ (b = 31 \/ touch pe < 2 ^ b).
Proof.
  intros Hq Ht Hb. pose proof (wq_pages q Hq) as Hlen. pose proof (wq_size q Hq).
  unfold QueueAnalysis. rewrite take_ge by lia. split.
  - rewrite histogram_count; [| done | lia | done | |].
    + by rewrite (aget_replicate0 b).
    + by rewrite (aget_replicate0 b).
    + rewrite (aget_replicate0 b). lia.
  - intros pe Hpe. rewrite Forall_forall in Ht. specialize (Ht pe Hpe).
    destruct (bucket_spec (touch pe) Ht) as (H1 & H2 & H3). unfold in_bucket.
    set (k := bucket (touch pe)) in *. split.
    + intros <-. split; [destruct (decide (k = 0)); [by left | right; apply H3; lia]|].
      destruct (decide (k = 31)); [by left | right; apply H2; lia].
    + intros [Hlo Hhi]. destruct (lt_eq_lt_dec (Z.to_nat k) (Z.to_nat b)) as [[Hlt|He]|Hgt]; [|lia|].
      * exfalso. assert (touch pe < 2 ^ k) by (apply H2; lia).
        assert (2 ^ k <= 2 ^ (b - 1)) by (apply Z.pow_le_mono_r; lia).
        destruct Hlo as [->|Hlo]; lia.
      * exfalso. assert (2 ^ (k - 1) <= touch pe) by (apply H3; lia).
        assert (2 ^ b <= 2 ^ (k - 1)) by (apply Z.pow_le_mono_r; lia).
        destruct Hhi as [->|Hhi]; lia.
Qed.

Lemma QueueAnalysis_counts_witness :
  exists q, wf_queue q /\ aget 0 (QueueAnalysis q) 0 = 3.
Proof.
  destruct (new_queue_wf 3 4096 (replicate 3 null_pe))
    as (q & _ & Hwf & _ & Hpg & _); [lia.. | reflexivity |].
  exists q. split; [done|].
  destruct (QueueAnalysis_counts q 0 Hwf) as [-> _]; rewrite ?Hpg; try lia; try reflexivity.
  repeat constructor; discriminate.
Defined.

End FineLockFacts.
