(* ===== verification/DiskBlocks.v ===== *)
(** The table of blocks written to disk: [src/src/disk_blocks.h] and
    [src/src/disk_blocks.cc].

    [BlockData] objects live in a store indexed by pointer; deleting one removes it,
    and an operation that would use a deleted object, or whose [sat_assert] fails,
    returns [None].

    [InsertOnStructure] and [RemoveBlock] read the table before they take [data_mutex_]:
    their unlocked reads ([new_StorageData]; [remove_find], [remove_last],
    [remove_last_addr]) and their critical sections ([insert_locked], [remove_locked]) are
    definitions of their own, which [writer_step] runs one at a time, with the steps of the
    other threads of the device in between; [InsertOnStructure], [RemoveBlock] and
    [GetUnusedBlock] compose them, for a caller that runs alone.  [sat.cc] gives each table
    one writing thread ([DiskThread]) and any number of reading ones ([RandomDiskThread]),
    and the reading ones keep the mutex for the whole of [GetRandomBlock] and
    [ReleaseBlock]. *)

From S2P Require Import Prelude.

Module DiskBlocks.

Record BlockData := mkBlock {
  address : Z; size : Z; references_ : Z; initialized_ : bool; bd_pattern : option Z
}.

Definition new_BlockData : BlockData := mkBlock 0 0 0 false None.

Definition IncreaseReferenceCounter (b : BlockData) : BlockData :=
  mkBlock (address b) (size b) (references_ b + 1) (initialized_ b) (bd_pattern b).
Definition DecreaseReferenceCounter (b : BlockData) : BlockData :=
  mkBlock (address b) (size b) (references_ b - 1) (initialized_ b) (bd_pattern b).
Definition set_initialized (b : BlockData) : BlockData :=
  mkBlock (address b) (size b) (references_ b) true (bd_pattern b).
Definition set_address (b : BlockData) (a : Z) : BlockData :=
  mkBlock (u64 a) (size b) (references_ b) (initialized_ b) (bd_pattern b).
Definition set_size (b : BlockData) (n : Z) : BlockData :=
  mkBlock (address b) (u64 n) (references_ b) (initialized_ b) (bd_pattern b).
Definition set_pattern (b : BlockData) (p : option Z) : BlockData :=
  mkBlock (address b) (size b) (references_ b) (initialized_ b) p.

Record StorageData := mkStorage { block : Z; pos : Z }.

Record DiskBlockTable := mkTable {
  pos_to_addr_ : list Z; addr_to_block_ : gmap Z StorageData;
  sector_size_ : Z; write_block_size_ : Z; device_sectors_ : Z; segment_size_ : Z; size_ : Z
}.

Definition new_DiskBlockTable : DiskBlockTable := mkTable [] ∅ 0 0 0 0 0.

(** The objects that exist, by pointer. *)
Abbreviation store := (gmap Z BlockData).

(** [r1], [r2], [r3] are the values [random()] returns. *)
Definition Random64 (r1 r2 r3 : Z) : Z :=
  let x := r1 in
  let x := s64 (Z.lxor (s64 (Z.shiftl x 30)) r2) in
  let x := s64 (Z.lxor (s64 (Z.shiftl x 30)) r3) in
  if 0 <=? x then x else s64 (- x).

Definition Size (t : DiskBlockTable) : Z := size_ t.

Definition with_data (t : DiskBlockTable) (p2a : list Z) (a2b : gmap Z StorageData) (n : Z)
  : DiskBlockTable :=
  mkTable p2a a2b (sector_size_ t) (write_block_size_ t) (device_sectors_ t) (segment_size_ t) n.

(** The entry [InsertOnStructure] makes before it takes the mutex. *)
Definition new_StorageData (t : DiskBlockTable) (ptr : Z) : StorageData :=
  mkStorage ptr (s32 (size_ t)).

(** Its critical section. *)
Definition insert_locked (t : DiskBlockTable) (addr : Z) (sd : StorageData) : DiskBlockTable :=
  let p2a := if Z.of_nat (length (pos_to_addr_ t)) <=? size_ t
             then pos_to_addr_ t ++ [addr]
             else aset (pos_to_addr_ t) (size_ t) addr in
  with_data t p2a (<[addr := sd]> (addr_to_block_ t)) (size_ t + 1).

Definition InsertOnStructure (t : DiskBlockTable) (h : store) (ptr : Z) : option DiskBlockTable :=
  match h !! ptr with
  | None => None
  | Some b => Some (insert_locked t (s64 (address b)) (new_StorageData t ptr))
  end.

(** The reads of [RemoveBlock] before it takes the mutex: the entry [it] (by its address) with
    its position, or nothing when the block is not in the table; *)
Definition remove_find (t : DiskBlockTable) (h : store) (ptr : Z) : option (option (Z * Z)) :=
  match h !! ptr with
  | None => None
  | Some b => let addr := s64 (address b) in
              Some ((fun sd => (addr, pos sd)) <$> addr_to_block_ t !! addr)
  end.

(** [last_pos]; *)
Definition remove_last (t : DiskBlockTable) : Z := s32 (size_ t - 1).

(** and the entry [last_it] (by its address), with the two assertions. *)
Definition remove_last_addr (t : DiskBlockTable) (last_pos : Z) : option Z :=
  let last_addr := aget 0 (pos_to_addr_ t) last_pos in
  if (0 <? size_ t) && bool_decide (is_Some (addr_to_block_ t !! last_addr)) then Some last_addr else None.

(** The critical section; [None] when an entry or the block it uses is gone. *)
Definition remove_locked (t : DiskBlockTable) (h : store) (ptr addr curr_pos last_pos last_addr : Z)
  : option (Z * DiskBlockTable * store) :=
  match addr_to_block_ t !! addr, addr_to_block_ t !! last_addr, h !! ptr with
  | Some _, Some last_sd, Some b =>
      let p2a := aset (pos_to_addr_ t) curr_pos (aget 0 (pos_to_addr_ t) last_pos) in
      let a2b := <[last_addr := mkStorage (block last_sd) curr_pos]> (addr_to_block_ t) in
      let a2b := delete addr a2b in
      let b := DecreaseReferenceCounter b in
      let h' := if references_ b =? 0 then delete ptr h else <[ptr := b]> h in
      let ret := if references_ b <? 0 then 0 else 1 in
      Some (ret, with_data t p2a a2b (size_ t - 1), h')
  | _, _, _ => None
  end.

Definition RemoveBlock (t : DiskBlockTable) (h : store) (ptr : Z)
  : option (Z * DiskBlockTable * store) :=
  match remove_find t h ptr with
  | None => None
  | Some None => Some (0, t, h)
  | Some (Some (addr, curr_pos)) =>
      let last_pos := remove_last t in
      match remove_last_addr t last_pos with
      | None => None
      | Some last_addr => remove_locked t h ptr addr curr_pos last_pos last_addr
      end
  end.

Definition ReleaseBlock (h : store) (ptr : Z) : option (Z * store) :=
  match h !! ptr with
  | None => None
  | Some b =>
      let references := references_ b in
      if references =? 1 then Some (1, delete ptr h)
      else if 0 <? references then Some (1, <[ptr := DecreaseReferenceCounter b]> h)
      else Some (0, h)
  end.

(** [timed_out]: the wait for a non-empty table ended with ETIMEDOUT.  The wait ends
    otherwise only when the table has entries.  The block is [None] for NULL. *)
Definition GetRandomBlock (t : DiskBlockTable) (h : store) (timed_out : bool) (random_number : Z)
  : option (option Z * store) :=
  if timed_out then Some (None, h)
  else
    let random_pos := random_number mod size_ t in
    let addr := aget 0 (pos_to_addr_ t) random_pos in
    match addr_to_block_ t !! addr with
    | None => None
    | Some sd =>
        match h !! block sd with
        | None => None
        | Some b => if initialized_ b
                    then Some (Some (block sd), <[block sd := IncreaseReferenceCounter b]> h)
                    else Some (None, h)
        end
    end.

(** [None]: [sat_assert(size_ == 0)] fails. *)
Definition SetParameters (t : DiskBlockTable) (sector_size write_block_size device_sectors
    segment_size : Z) : option DiskBlockTable :=
  if size_ t =? 0 then
    Some (mkTable (pos_to_addr_ t) (addr_to_block_ t) sector_size write_block_size
            device_sectors segment_size (size_ t))
  else None.

Definition kBlockRetry : nat := 100.

(** One candidate sector; [None] when the attempt is not a good sequence. *)
Definition try_sector (t : DiskBlockTable) (num_sectors segment rand : Z) : option Z :=
  let rand := Z.land rand 0x7FFFFFFFFFFFFFFF in
  let candidate :=
    if segment_size_ t =? -1 then
      Some (Z.rem rand (device_sectors_ t / num_sectors) * num_sectors)
    else
      let sector := Z.rem rand (segment_size_ t / num_sectors) * num_sectors in
      let sector := sector + segment * segment_size_ t in
      if (segment + 1) * segment_size_ t <? sector + num_sectors then None else Some sector in
  match candidate with
  | None => None
  | Some sector =>
      if device_sectors_ t <? sector + num_sectors then None
      else match addr_to_block_ t !! sector with Some _ => None | None => Some sector end
  end.

(** The retry loop; [rands] are the successive values of [Random64]. *)
Fixpoint retry_loop (n i : nat) (t : DiskBlockTable) (num_sectors segment : Z)
    (rands : nat -> Z) : option Z :=
  match n with
  | O => None
  | S n' =>
      match try_sector t num_sectors segment (rands i) with
      | Some sector => Some sector
      | None => retry_loop n' (S i) t num_sectors segment rands
      end
  end.

(** The block [GetUnusedBlock] fills in before it inserts it. *)
Definition unused_block (t : DiskBlockTable) (sector : Z) : BlockData :=
  IncreaseReferenceCounter (set_size (set_address new_BlockData sector) (write_block_size_ t)).

(** [ptr] is the pointer [new BlockData()] yields; the outer [None] is a failed
    [sat_assert], the inner one a NULL result. *)
Definition GetUnusedBlock (t : DiskBlockTable) (h : store) (segment ptr : Z) (rands : nat -> Z)
  : option (option Z * DiskBlockTable * store) :=
  if device_sectors_ t =? 0 then None
  else
    let num_sectors := write_block_size_ t / sector_size_ t in
    match retry_loop kBlockRetry 0 t num_sectors segment rands with
    | Some sector =>
        let h := <[ptr := unused_block t sector]> h in
        match InsertOnStructure t h ptr with
        | Some t => Some (Some ptr, t, h)
        | None => None
        end
    | None => Some (None, t, h)
    end.

(** Where the writing thread of a table is: outside the table's operations; in
    [GetUnusedBlock] (called; with [n] attempts left; with a free sector found; with the
    block filled in and its entry made, before the mutex; returned); in [RemoveBlock]
    (called; [it] found; [last_pos] computed; [last_it] found, before the mutex; returned). *)
Inductive Writer :=
| Idle
| CallUnused (segment ptr : Z) (rands : nat -> Z)
| Trying (n i : nat) (segment ptr : Z) (rands : nat -> Z)
| Found (segment ptr : Z) (rands : nat -> Z) (sector : Z)
| Inserting (segment ptr : Z) (rands : nat -> Z) (b : BlockData) (sd : StorageData)
| Unused (res : option Z)
| CallRemove (ptr : Z)
| RemovingFrom (ptr addr curr_pos : Z)
| RemovingLast (ptr addr curr_pos last_pos : Z)
| RemovingAt (ptr addr curr_pos last_pos last_addr : Z)
| Removed (ret : Z).

(** Its next step: one read of the table, or one critical section.  The new block is its
    own until the insertion. *)
Definition writer_step (t : DiskBlockTable) (h : store) (pc : Writer)
  : option (DiskBlockTable * store * Writer) :=
  match pc with
  | Idle | Unused _ | Removed _ => Some (t, h, Idle)
  | CallUnused segment ptr rands =>
      if device_sectors_ t =? 0 then None else Some (t, h, Trying kBlockRetry 0 segment ptr rands)
  | Trying 0 _ _ _ _ => Some (t, h, Unused None)
  | Trying (S n) i segment ptr rands =>
      match try_sector t (write_block_size_ t / sector_size_ t) segment (rands i) with
      | Some sector => Some (t, h, Found segment ptr rands sector)
      | None => Some (t, h, Trying n (S i) segment ptr rands)
      end
  | Found segment ptr rands sector =>
      Some (t, h, Inserting segment ptr rands (unused_block t sector) (new_StorageData t ptr))
  | Inserting _ ptr _ b sd =>
      Some (insert_locked t (s64 (address b)) sd, <[ptr := b]> h, Unused (Some ptr))
  | CallRemove ptr =>
      match remove_find t h ptr with
      | None => None
      | Some None => Some (t, h, Removed 0)
      | Some (Some (addr, curr_pos)) => Some (t, h, RemovingFrom ptr addr curr_pos)
      end
  | RemovingFrom ptr addr curr_pos => Some (t, h, RemovingLast ptr addr curr_pos (remove_last t))
  | RemovingLast ptr addr curr_pos last_pos =>
      match remove_last_addr t last_pos with
      | None => None
      | Some last_addr => Some (t, h, RemovingAt ptr addr curr_pos last_pos last_addr)
      end
  | RemovingAt ptr addr curr_pos last_pos last_addr =>
      match remove_locked t h ptr addr curr_pos last_pos last_addr with
      | None => None
      | Some (ret, t', h') => Some (t', h', Removed ret)
      end
  end.

End DiskBlocks.

Module DiskBlocksFacts.
Import DiskBlocks.

(** ** The invariant *)

(** Parameters a table can work with; the bounds keep every product in 64 bits. *)
Record good_params (t : DiskBlockTable) : Prop := {
  gp_sector : 0 < sector_size_ t;
  gp_block : sector_size_ t <= write_block_size_ t < 2 ^ 31;
  gp_dev : 0 < device_sectors_ t < 2 ^ 55;
  gp_fit : write_block_size_ t / sector_size_ t <= device_sectors_ t;
  gp_seg : segment_size_ t = -1 \/
           write_block_size_ t / sector_size_ t <= segment_size_ t < 2 ^ 55
}.

Definition num_sectors (t : DiskBlockTable) : Z := write_block_size_ t / sector_size_ t.

(** Where a block may start: at a multiple of the block length, counted from the
    start of the device or of its segment, and inside it. *)
Definition placed (t : DiskBlockTable) (a : Z) : Prop :=
  0 <= a /\ a + num_sectors t <= device_sectors_ t /\
  if segment_size_ t =? -1 then (num_sectors t | a)
  else exists seg k, 0 <= k /\ a = k * num_sectors t + seg * segment_size_ t /\
       a + num_sectors t <= (seg + 1) * segment_size_ t.

Record table_inv (t : DiskBlockTable) (h : store) : Prop := {
  ti_params : good_params t;
  ti_size : 0 <= size_ t < 2 ^ 31;
  ti_len : size_ t <= Z.of_nat (length (pos_to_addr_ t));
  ti_pos : forall p, 0 <= p < size_ t ->
    exists ptr, addr_to_block_ t !! aget 0 (pos_to_addr_ t) p = Some (mkStorage ptr p);
  ti_addr : forall a sd, addr_to_block_ t !! a = Some sd ->
    0 <= pos sd < size_ t /\ aget 0 (pos_to_addr_ t) (pos sd) = a /\ placed t a /\
    exists b, h !! block sd = Some b /\ address b = a
}.

Lemma num_sectors_pos t : good_params t -> 1 <= num_sectors t.
Proof.
  intros [H1 H2 _ _ _]. unfold num_sectors. apply Z.div_le_lower_bound; lia.
Qed.

Lemma rem_range r n : 0 < n -> 0 <= Z.rem (Z.land r 0x7FFFFFFFFFFFFFFF) n < n.
Proof.
  intros Hn. apply Z.rem_bound_pos; [|done]. apply Z.land_nonneg. by right.
Qed.

Lemma try_sector_spec t segment rand a :
  good_params t -> 0 <= segment ->
  try_sector t (num_sectors t) segment rand = Some a ->
  placed t a /\ addr_to_block_ t !! a = None.
Proof.
  intros Hp Hseg. pose proof (num_sectors_pos t Hp) as Hn.
  assert (Hdiv : forall x, num_sectors t <= x -> 0 < x / num_sectors t)
    by (intros x Hx; assert (1 <= x / num_sectors t) by (apply Z.div_le_lower_bound; lia); lia).
  destruct Hp as [H1 H2 H3 H4 H5]. fold (num_sectors t) in H4, H5.
  unfold try_sector, placed. set (n := num_sectors t) in *.
  destruct (segment_size_ t =? -1) eqn:Es; bool_to_prop.
  - pose proof (rem_range rand (device_sectors_ t / n)) as Hr. specialize (Hdiv _ H4).
    case_if_eqn; [done|]. bool_to_prop. destruct (_ !! _) eqn:El; [done|].
    intros [= <-]. repeat split; [nia | lia | apply Z.divide_factor_r | done].
  - pose proof (rem_range rand (segment_size_ t / n)) as Hr. specialize (Hdiv (segment_size_ t)).
    destruct (Z.ltb_spec ((segment + 1) * segment_size_ t)
      (Z.rem (Z.land rand 0x7FFFFFFFFFFFFFFF) (segment_size_ t / n) * n + segment * segment_size_ t + n));
      [done|].
    case_if_eqn; [done|]. bool_to_prop. destruct (_ !! _) eqn:El; [done|].
    intros [= <-]. repeat split; [nia | lia | | done].
    exists segment, (Z.rem (Z.land rand 0x7FFFFFFFFFFFFFFF) (segment_size_ t / n)).
    split; [lia|]. done.
Qed.

Lemma retry_loop_spec k i t segment rands a :
  good_params t -> 0 <= segment -> retry_loop k i t (num_sectors t) segment rands = Some a ->
  placed t a /\ addr_to_block_ t !! a = None.
Proof.
  intros Hp Hs. revert i. induction k as [|k IH]; intros i; cbn [retry_loop]; [done|].
  destruct (try_sector _ _ _ _) as [x|] eqn:E; [|apply IH].
  intros [= ->]. by apply (try_sector_spec t segment (rands i)).
Qed.

(** Two placed blocks are equal or at least one block apart. *)
Lemma placed_disjoint t a a' :
  good_params t -> placed t a -> placed t a' -> a <> a' ->
  a + num_sectors t <= a' \/ a' + num_sectors t <= a.
Proof.
  intros Hp (H0 & _ & H) (H0' & _ & H') Hne. pose proof (num_sectors_pos t Hp) as Hn.
  destruct Hp as [_ _ _ _ Hseg]. fold (num_sectors t) in Hseg.
  destruct (segment_size_ t =? -1) eqn:Es; bool_to_prop.
  - destruct H as [k ->], H' as [k' ->]. assert (k <> k') by congruence. nia.
  - destruct H as (s & k & Hk & Ha & Hle), H' as (s' & k' & Hk' & Ha' & Hle').
    destruct (Z.lt_trichotomy s s') as [Hlt|[->|Hlt]].
    + left. nia.
    + assert (k <> k') by (intros ->; congruence). nia.
    + right. nia.
Qed.

(** ** Insertion and removal *)

Lemma pos_inj t h p p' :
  table_inv t h -> 0 <= p < size_ t -> 0 <= p' < size_ t ->
  aget 0 (pos_to_addr_ t) p = aget 0 (pos_to_addr_ t) p' -> p = p'.
Proof.
  intros Hi Hp Hp' He. destruct (ti_pos _ _ Hi p Hp) as [x Hx], (ti_pos _ _ Hi p' Hp') as [y Hy].
  rewrite He in Hx. congruence.
Qed.

(** The first [size_ + 1] positions after an insertion. *)
Lemma p2a_insert (l : list Z) n a :
  0 <= n <= Z.of_nat (length l) ->
  let l' := if Z.of_nat (length l) <=? n then l ++ [a] else aset l n a in
  aget 0 l' n = a /\ n + 1 <= Z.of_nat (length l') /\
  forall p, 0 <= p < n -> aget 0 l' p = aget 0 l p.
Proof.
  intros Hn. cbv zeta. case_if_eqn; bool_to_prop.
  - assert (n = Z.of_nat (length l)) as -> by lia. split; [|split].
    + unfold aget. by rewrite Nat2Z.id, nth_middle.
    + rewrite length_app. cbn [length]. lia.
    + intros p Hp. unfold aget. apply app_nth1. lia.
  - split; [apply aget_aset_eq; lia|]. split; [rewrite length_aset; lia|].
    intros p Hp. apply aget_aset_ne; lia.
Qed.

Lemma InsertOnStructure_inv t h ptr b :
  table_inv t h -> h !! ptr = Some b -> placed t (address b) -> size_ t < 2 ^ 31 - 1 ->
  addr_to_block_ t !! address b = None ->
  exists t', InsertOnStructure t h ptr = Some t' /\ table_inv t' h /\ size_ t' = size_ t + 1 /\
    addr_to_block_ t' = <[address b := mkStorage ptr (size_ t)]> (addr_to_block_ t).
Proof.
  intros Hi Hb Hpl Hmax Hnone. unfold InsertOnStructure, insert_locked, new_StorageData. rewrite Hb.
  assert (Ha : s64 (address b) = address b).
  { destruct Hpl as (H0 & H1 & _). pose proof (num_sectors_pos t (ti_params _ _ Hi)).
    pose proof (gp_dev t (ti_params _ _ Hi)). apply s64_id. lia. }
  pose proof (ti_size _ _ Hi) as Hsz.
  rewrite Ha, (s32_id (size_ t)) by lia. eexists. split; [reflexivity|].
  destruct (p2a_insert (pos_to_addr_ t) (size_ t) (address b)) as (Hn & Hl & Hold).
  { pose proof (ti_len _ _ Hi). lia. }
  cbv zeta in *. set (l' := if Z.of_nat (length (pos_to_addr_ t)) <=? size_ t then pos_to_addr_ t ++ [address b]
    else aset (pos_to_addr_ t) (size_ t) (address b)) in *.
  destruct Hi as [Hpar _ Hlen Hpos Haddr].
  split; [|done]. split; cbn [size_ pos_to_addr_ addr_to_block_ with_data]; try lia.
  - by destruct Hpar.
  - intros p Hp. destruct (decide (p = size_ t)) as [->|Hne].
    + exists ptr. rewrite Hn. apply lookup_insert_eq.
    + rewrite Hold by lia. destruct (Hpos p) as [x Hx]; [lia|]. exists x.
      rewrite lookup_insert_ne; [done|]. intros He. rewrite He in Hnone. congruence.
  - intros a sd Hsd. destruct (decide (a = address b)) as [->|Hne].
    + rewrite lookup_insert_eq in Hsd. injection Hsd as <-. cbn [pos block].
      split; [lia|]. split; [done|]. split; [done|]. by exists b.
    + rewrite lookup_insert_ne in Hsd by done. destruct (Haddr a sd Hsd) as (H1 & H2 & H3 & H4).
      split; [lia|]. split; [rewrite Hold by lia; done|]. done.
Qed.

(** The blocks the table knows, by address. *)
Definition table_blocks (t : DiskBlockTable) : gmap Z Z := block <$> addr_to_block_ t.

Definition release (h : store) (ptr : Z) (b : BlockData) : store :=
  if references_ b =? 1 then delete ptr h else <[ptr := DecreaseReferenceCounter b]> h.

Lemma placed_s64 t a : good_params t -> placed t a -> s64 a = a.
Proof.
  intros Hp (H0 & H1 & _). pose proof (num_sectors_pos t Hp). pose proof (gp_dev t Hp).
  apply s64_id. lia.
Qed.

(** What [RemoveBlock] does to the two maps: the last position moves into the hole. *)
Lemma RemoveBlock_eq t h ptr b c :
  table_inv t h -> h !! ptr = Some b -> 1 <= references_ b ->
  addr_to_block_ t !! address b = Some (mkStorage ptr c) ->
  let last := size_ t - 1 in
  let last_addr := aget 0 (pos_to_addr_ t) last in
  exists lptr, addr_to_block_ t !! last_addr = Some (mkStorage lptr last) /\
    RemoveBlock t h ptr =
    Some (1, with_data t (aset (pos_to_addr_ t) c last_addr)
               (delete (address b) (<[last_addr := mkStorage lptr c]> (addr_to_block_ t)))
               (size_ t - 1), release h ptr b).
Proof.
  intros Hi Hb Hr Hsd. cbv zeta. destruct (ti_addr _ _ Hi _ _ Hsd) as (Hc & _ & Hpl & _).
  cbn [pos] in Hc. pose proof (ti_size _ _ Hi).
  destruct (ti_pos _ _ Hi (size_ t - 1)) as [lptr Hl]; [lia|]. exists lptr. split; [done|].
  unfold RemoveBlock, remove_find. rewrite Hb, (placed_s64 t _ (ti_params _ _ Hi) Hpl), Hsd.
  cbn [fmap option_fmap option_map]. unfold remove_last_addr, remove_last.
  rewrite (s32_id (size_ t - 1)) by lia. rewrite (proj2 (Z.ltb_lt 0 (size_ t))) by lia.
  rewrite bool_decide_true by (by rewrite Hl). cbn [andb]. unfold remove_locked. rewrite Hsd, Hl, Hb.
  cbn [pos block]. unfold release. cbn [references_ DecreaseReferenceCounter].
  rewrite (proj2 (Z.ltb_ge (references_ b - 1) 0)) by lia.
  destruct (Z.eqb_spec (references_ b - 1) 0), (Z.eqb_spec (references_ b) 1); done || lia.
Qed.

Lemma release_other h ptr b x : x <> ptr -> release h ptr b !! x = h !! x.
Proof.
  intros Hne. unfold release. case_if_eqn; [by rewrite lookup_delete_ne | by rewrite lookup_insert_ne].
Qed.

Lemma removed_blocks t h ptr b c lptr :
  table_inv t h -> addr_to_block_ t !! address b = Some (mkStorage ptr c) ->
  let last_addr := aget 0 (pos_to_addr_ t) (size_ t - 1) in
  addr_to_block_ t !! last_addr = Some (mkStorage lptr (size_ t - 1)) ->
  block <$> delete (address b) (<[last_addr := mkStorage lptr c]> (addr_to_block_ t)) =
  delete (address b) (table_blocks t).
Proof.
  intros Hi Hsd last_addr Hl. unfold table_blocks. rewrite fmap_delete, fmap_insert.
  cbn [block]. f_equal. apply insert_id. by rewrite lookup_fmap, Hl.
Qed.

Lemma RemoveBlock_inv t h ptr b c :
  table_inv t h -> h !! ptr = Some b -> 1 <= references_ b ->
  addr_to_block_ t !! address b = Some (mkStorage ptr c) ->
  exists t', RemoveBlock t h ptr = Some (1, t', release h ptr b) /\
    table_inv t' (release h ptr b) /\
    table_blocks t' = delete (address b) (table_blocks t) /\ size_ t' = size_ t - 1.
Proof.
  intros Hi Hb Hr Hsd. destruct (RemoveBlock_eq t h ptr b c Hi Hb Hr Hsd) as (lptr & Hl & ->).
  eexists. split; [reflexivity|]. split; [|split; [by apply (removed_blocks t h ptr b c) | done]].
  pose proof (pos_inj t h) as Hinj. destruct (ti_addr _ _ Hi _ _ Hsd) as (Hc & Hcaddr & _).
  cbn [pos] in Hc, Hcaddr.
  assert (Hi' := Hi). destruct Hi' as [Hpar Hsize Hlen Hpos Haddr].
  set (last_addr := aget 0 (pos_to_addr_ t) (size_ t - 1)) in *.
  assert (Hother : forall p, 0 <= p -> p <> c ->
    aget 0 (aset (pos_to_addr_ t) c last_addr) p = aget 0 (pos_to_addr_ t) p)
    by (intros; apply aget_aset_ne; lia).
  assert (Hhole : aget 0 (aset (pos_to_addr_ t) c last_addr) c = last_addr)
    by (apply aget_aset_eq; lia).
  split; cbn [size_ pos_to_addr_ addr_to_block_ with_data]; rewrite ?length_aset; try lia.
  - by destruct Hpar.
  - intros p Hp. destruct (decide (p = c)) as [->|Hne].
    + exists lptr. rewrite Hhole, lookup_delete_ne; [apply lookup_insert_eq|].
      rewrite <- Hcaddr. intros He. apply Hinj in He; lia || done.
    + rewrite Hother by lia. destruct (Hpos p) as [x Hx]; [lia|]. exists x.
      rewrite lookup_delete_ne, lookup_insert_ne; [done| |].
      * intros He. apply Hinj in He; lia || done.
      * rewrite <- Hcaddr. intros He. apply Hinj in He; lia || done.
  - intros a sd Ha. apply lookup_delete_Some in Ha as [Hane Ha].
    assert (Hheap : forall x bb, h !! x = Some bb -> address bb = a ->
      exists b', release h ptr b !! x = Some b' /\ address b' = a).
    { intros x bb Hx Hxa. exists bb. split; [|done]. rewrite release_other; [done|].
      intros ->. congruence. }
    destruct (decide (a = last_addr)) as [->|Hnl].
    + rewrite lookup_insert_eq in Ha. injection Ha as <-. cbn [pos block].
      destruct (Haddr _ _ Hl) as (_ & _ & H3 & bb & H4 & H5). cbn [block] in H4.
      assert (c <> size_ t - 1) by
        (intros Hce; rewrite Hce in Hcaddr; unfold last_addr in Hane; congruence).
      split; [lia|]. split; [done|]. split; [done|]. by apply (Hheap lptr bb).
    + rewrite lookup_insert_ne in Ha by done.
      destruct (Haddr a sd Ha) as (H1 & H2 & H3 & bb & H4 & H5).
      assert (pos sd <> size_ t - 1) by (intros He; rewrite He in H2; by subst a).
      assert (pos sd <> c) by (intros He; rewrite He in H2; congruence).
      split; [lia|]. split; [by rewrite Hother by lia|]. split; [done|].
      by apply (Hheap (block sd) bb).
Qed.

(** ** Reference counting

    A write thread owns the blocks it got from [GetUnusedBlock] until it removes them;
    a read thread owns the block [GetRandomBlock] gave it until it releases it. *)
Record sys := mkSys { tbl : DiskBlockTable; objs : store; writers : list Z; readers : list Z }.

Definition push (r : option Z) (l : list Z) : list Z :=
  match r with Some p => p :: l | None => l end.

Inductive step : sys -> sys -> Prop :=
| step_unused t h w r segment ptr rands res t' h' :
    h !! ptr = None -> 0 <= segment -> size_ t < 2 ^ 31 - 1 ->
    GetUnusedBlock t h segment ptr rands = Some (res, t', h') ->
    step (mkSys t h w r) (mkSys t' h' (push res w) r)
| step_written t h w r ptr b :
    ptr ∈ w -> h !! ptr = Some b ->
    step (mkSys t h w r) (mkSys t (<[ptr := set_initialized b]> h) w r)
| step_random t h w r timed_out rand res h' :
    (timed_out = false -> 0 < size_ t) -> 0 <= rand ->
    GetRandomBlock t h timed_out rand = Some (res, h') ->
    step (mkSys t h w r) (mkSys t h' w (push res r))
| step_remove t h w r w' ptr ret t' h' :
    w ≡ₚ ptr :: w' -> RemoveBlock t h ptr = Some (ret, t', h') ->
    step (mkSys t h w r) (mkSys t' h' w' r)
| step_release t h w r r' ptr ret h' :
    r ≡ₚ ptr :: r' -> ReleaseBlock h ptr = Some (ret, h') ->
    step (mkSys t h w r) (mkSys t h' w r').

Definition cnt (p : Z) (l : list Z) : Z := Z.of_nat (count_occ Z.eq_dec l p).

Lemma cnt_cons p x l : cnt p (x :: l) = (if decide (x = p) then 1 else 0) + cnt p l.
Proof.
  unfold cnt. cbn [count_occ]. destruct (Z.eq_dec x p), (decide (x = p)); done || lia.
Qed.

Lemma cnt_pos p l : p ∈ l <-> 0 < cnt p l.
Proof. unfold cnt. rewrite list_elem_of_In, (count_occ_In Z.eq_dec). lia. Qed.

Lemma cnt_nonneg p l : 0 <= cnt p l.
Proof. unfold cnt. lia. Qed.

#[global] Instance cnt_proper p : Proper (Permutation ==> eq) (cnt p).
Proof.
  intros l l' H. unfold cnt. f_equal. by apply (Permutation_count_occ Z.eq_dec).
Qed.

Record sys_inv (s : sys) : Prop := {
  si_table : table_inv (tbl s) (objs s);
  si_nodup : NoDup (writers s);
  si_refs : forall p, match objs s !! p with
      | Some b => references_ b = cnt p (writers s) + cnt p (readers s) /\ 1 <= references_ b
      | None => (p ∉ writers s) /\ (p ∉ readers s)
      end;
  si_owner : forall p, p ∈ writers s <-> exists b, objs s !! p = Some b /\
      table_blocks (tbl s) !! address b = Some p
}.

Lemma table_inv_ext t h h' :
  table_inv t h ->
  (forall p b, h !! p = Some b -> exists b', h' !! p = Some b' /\ address b' = address b) ->
  table_inv t h'.
Proof.
  intros [H1 H2 H3 H4 H5] Hh. split; try done. intros a sd Ha.
  destruct (H5 a sd Ha) as (Hp & Hq & Hr & b & Hb & Hab). do 3 (split; [done|]).
  destruct (Hh _ _ Hb) as (b' & Hb' & Heq). exists b'. split; [done | congruence].
Qed.

(** Changing one object without moving it. *)
Lemma table_inv_update t h p b b' :
  table_inv t h -> h !! p = Some b -> address b' = address b -> table_inv t (<[p := b']> h).
Proof.
  intros Hi Hb Ha. apply (table_inv_ext t h); [done|]. intros x bx Hx.
  destruct (decide (x = p)) as [->|Hne].
  - exists b'. rewrite lookup_insert_eq. split; [done | congruence].
  - exists bx. by rewrite lookup_insert_ne.
Qed.

Lemma owner_update s p b b' t :
  (forall x, x ∈ writers s <-> exists b, objs s !! x = Some b /\ table_blocks t !! address b = Some x) ->
  objs s !! p = Some b -> address b' = address b ->
  forall x, x ∈ writers s <-> exists bx, <[p := b']> (objs s) !! x = Some bx /\
    table_blocks t !! address bx = Some x.
Proof.
  intros Ho Hb Ha x. rewrite Ho. destruct (decide (x = p)) as [->|Hne].
  - rewrite lookup_insert_eq, Hb. split; intros (bx & [= <-] & H); eexists; (split; [reflexivity|]).
    + by rewrite Ha.
    + by rewrite <- Ha.
  - by rewrite lookup_insert_ne.
Qed.

Lemma refs_other (h h' : store) (w w' r r' : list Z) p :
  h' !! p = h !! p -> cnt p w' = cnt p w -> cnt p r' = cnt p r ->
  match h !! p with
  | Some b => references_ b = cnt p w + cnt p r /\ 1 <= references_ b
  | None => (p ∉ w) /\ (p ∉ r)
  end ->
  match h' !! p with
  | Some b => references_ b = cnt p w' + cnt p r' /\ 1 <= references_ b
  | None => (p ∉ w') /\ (p ∉ r')
  end.
Proof.
  intros -> Hw Hr. destruct (h !! p); [by rewrite Hw, Hr | by rewrite !cnt_pos, Hw, Hr].
Qed.

(** The object a writer owns, with its table entry. *)
Lemma writer_owns s p :
  sys_inv s -> p ∈ writers s -> exists b c, objs s !! p = Some b /\
    addr_to_block_ (tbl s) !! address b = Some (mkStorage p c) /\
    references_ b = cnt p (writers s) + cnt p (readers s) /\ 1 <= references_ b.
Proof.
  intros Hs Hp. destruct (proj1 (si_owner s Hs p) Hp) as (b & Hb & Ht).
  pose proof (si_refs s Hs p) as Hr. rewrite Hb in Hr. unfold table_blocks in Ht.
  rewrite lookup_fmap in Ht. destruct (addr_to_block_ (tbl s) !! address b) as [[x c]|] eqn:E; [|done].
  injection Ht as ->. exists b, c. done.
Qed.

Lemma unused_inv t h w r segment ptr rands :
  sys_inv (mkSys t h w r) -> h !! ptr = None -> 0 <= segment -> size_ t < 2 ^ 31 - 1 ->
  exists res t' h', GetUnusedBlock t h segment ptr rands = Some (res, t', h') /\
    sys_inv (mkSys t' h' (push res w) r).
Proof.
  intros Hs Hptr Hseg Hsz. assert (Hs' := Hs). destruct Hs as [Ht Hnd Hrefs Hown]. cbn in *.
  pose proof (ti_params _ _ Ht) as Hp. unfold GetUnusedBlock.
  rewrite (proj2 (Z.eqb_neq _ _)) by (pose proof (gp_dev _ Hp); lia). fold (num_sectors t).
  destruct (retry_loop _ _ _ _ _ _) as [a|] eqn:Er; [|by exists None, t, h].
  apply retry_loop_spec in Er as [Hpl Hnone]; [|done..].
  assert (Ha : u64 a = a).
  { destruct Hpl as (H0 & H1 & _). pose proof (num_sectors_pos t Hp). pose proof (gp_dev t Hp).
    apply u64_id. lia. }
  set (b := unused_block t a). assert (Hba : address b = a) by exact Ha.
  assert (Hti : table_inv t (<[ptr := b]> h)).
  { apply (table_inv_ext t h); [done|]. intros x bx Hx. exists bx.
    rewrite lookup_insert_ne; [done | congruence]. }
  destruct (InsertOnStructure_inv t (<[ptr := b]> h) ptr b) as (t' & -> & Hti' & _ & Hm);
    [done | apply lookup_insert_eq | by rewrite Hba | done | by rewrite Hba |].
  exists (Some ptr), t', (<[ptr := b]> h). split; [done|].
  pose proof (Hrefs ptr) as Hrp. rewrite Hptr in Hrp. destruct Hrp as [Hnw Hnr].
  assert (Hblocks : table_blocks t' = <[a := ptr]> (table_blocks t)).
  { unfold table_blocks. rewrite Hm, Hba, fmap_insert. done. }
  split; cbn [tbl objs writers readers push]; [done | by constructor | |].
  - intros p. destruct (decide (p = ptr)) as [->|Hne].
    + rewrite lookup_insert_eq, cnt_cons, decide_True by done.
      rewrite cnt_pos in Hnw, Hnr. pose proof (cnt_nonneg ptr w). pose proof (cnt_nonneg ptr r).
      change (references_ b) with 1. lia.
    + apply (refs_other h _ w _ r); [by rewrite lookup_insert_ne | | done | apply Hrefs].
      by rewrite cnt_cons, decide_False.
  - intros p. rewrite elem_of_cons, Hblocks. destruct (decide (p = ptr)) as [->|Hne].
    + split; [|by left]. intros _. exists b. rewrite lookup_insert_eq, Hba. split; [done|].
      apply lookup_insert_eq.
    + rewrite (lookup_insert_ne h) by done. rewrite Hown. split.
      * intros [?|(bx & Hbx & Hx)]; [done|]. exists bx. split; [done|].
        rewrite lookup_insert_ne; [done|]. intros He. unfold table_blocks in Hx.
        by rewrite lookup_fmap, <- He, Hnone in Hx.
      * intros (bx & Hbx & Hx). right. exists bx. split; [done|].
        destruct (decide (a = address bx)) as [He|Hd].
        -- rewrite <- He, lookup_insert_eq in Hx. congruence.
        -- by rewrite lookup_insert_ne in Hx.
Qed.

Lemma random_inv t h w r timed_out rand :
  sys_inv (mkSys t h w r) -> (timed_out = false -> 0 < size_ t) -> 0 <= rand ->
  exists res h', GetRandomBlock t h timed_out rand = Some (res, h') /\
    sys_inv (mkSys t h' w (push res r)).
Proof.
  intros Hs Hsz Hr. unfold GetRandomBlock. destruct timed_out; [by exists None, h|].
  specialize (Hsz eq_refl). pose proof (Z.mod_pos_bound rand (size_ t) Hsz) as Hm.
  destruct (ti_pos _ _ (si_table _ Hs) _ Hm) as [p Hp]. cbn [tbl] in Hp. rewrite Hp. cbn [block].
  destruct (ti_addr _ _ (si_table _ Hs) _ _ Hp) as (_ & _ & _ & b & Hb & _). cbn [objs block] in Hb.
  rewrite Hb. destruct (initialized_ b); [|by exists None, h].
  eexists _, _. split; [reflexivity|]. destruct Hs as [Ht Hnd Hrefs Hown].
  cbn [tbl objs writers readers push] in *. split; cbn [tbl objs writers readers].
  - by apply (table_inv_update t h p b).
  - done.
  - intros x. destruct (decide (x = p)) as [->|Hne].
    + specialize (Hrefs p). rewrite Hb in Hrefs. rewrite lookup_insert_eq, cnt_cons, decide_True by done.
      cbn. lia.
    + apply (refs_other h _ w _ r); [by rewrite lookup_insert_ne | done | | apply Hrefs].
      by rewrite cnt_cons, decide_False.
  - by apply (owner_update (mkSys t h w r) p b).
Qed.

Lemma written_inv t h w r ptr b :
  sys_inv (mkSys t h w r) -> h !! ptr = Some b ->
  sys_inv (mkSys t (<[ptr := set_initialized b]> h) w r).
Proof.
  intros [Ht Hnd Hrefs Hown] Hb. cbn [tbl objs writers readers] in *.
  split; cbn [tbl objs writers readers]; [by apply (table_inv_update t h ptr b) | done | |].
  - intros x. destruct (decide (x = ptr)) as [->|Hne].
    + specialize (Hrefs ptr). rewrite Hb in Hrefs. by rewrite lookup_insert_eq.
    + apply (refs_other h _ w _ r); [by rewrite lookup_insert_ne | done | done | apply Hrefs].
  - by apply (owner_update (mkSys t h w r) ptr b).
Qed.

(** Dropping one reference: the object goes when it was the last. *)
Lemma release_refs h w r w' r' ptr b :
  h !! ptr = Some b -> references_ b = cnt ptr w + cnt ptr r ->
  cnt ptr w' + cnt ptr r' = cnt ptr w + cnt ptr r - 1 ->
  match release h ptr b !! ptr with
  | Some b => references_ b = cnt ptr w' + cnt ptr r' /\ 1 <= references_ b
  | None => (ptr ∉ w') /\ (ptr ∉ r')
  end.
Proof.
  intros Hb Hr Hd. pose proof (cnt_nonneg ptr w'). pose proof (cnt_nonneg ptr r').
  unfold release. case_if_eqn; bool_to_prop.
  - rewrite lookup_delete_eq, !cnt_pos. lia.
  - rewrite lookup_insert_eq. cbn. lia.
Qed.

Lemma release_address h ptr b x b' :
  h !! ptr = Some b -> release h ptr b !! x = Some b' ->
  exists b0, h !! x = Some b0 /\ address b0 = address b'.
Proof.
  intros Hb. unfold release. case_if_eqn.
  - rewrite lookup_delete_Some. intros [_ Hx]. by exists b'.
  - destruct (decide (x = ptr)) as [->|Hne].
    + rewrite lookup_insert_eq. intros [= <-]. by exists b.
    + rewrite lookup_insert_ne by done. intros Hx. by exists b'.
Qed.

Lemma remove_inv t h w r w' ptr :
  sys_inv (mkSys t h w r) -> w ≡ₚ ptr :: w' ->
  exists t' h', RemoveBlock t h ptr = Some (1, t', h') /\ sys_inv (mkSys t' h' w' r).
Proof.
  intros Hs Hw. assert (Hin : ptr ∈ w) by (rewrite Hw; constructor).
  destruct (writer_owns _ ptr Hs Hin) as (b & c & Hb & Hsd & Href & Hpos).
  cbn [tbl objs writers readers] in *.
  destruct (RemoveBlock_inv t h ptr b c (si_table _ Hs) Hb Hpos Hsd) as (t' & -> & Ht' & Hbl & _).
  exists t', (release h ptr b). split; [done|]. destruct Hs as [Ht Hnd Hrefs Hown].
  cbn [tbl objs writers readers] in *. rewrite Hw in Hnd. apply NoDup_cons in Hnd as [Hnin Hnd].
  split; cbn [tbl objs writers readers]; [done..| |].
  - intros x. destruct (decide (x = ptr)) as [->|Hne].
    + apply (release_refs h w r); [done..|]. rewrite (cnt_proper ptr w _ Hw), cnt_cons, decide_True by done. lia.
    + apply (refs_other h _ w _ r); [by apply release_other | | done | apply Hrefs].
      by rewrite (cnt_proper x w _ Hw), cnt_cons, decide_False.
  - intros x. rewrite Hbl. destruct (decide (x = ptr)) as [->|Hne].
    + split; [done|]. intros (b' & Hb' & Hx). exfalso.
      destruct (release_address h ptr b ptr b' Hb Hb') as (b0 & Hb0 & Ha).
      rewrite Hb in Hb0. injection Hb0 as <-. by rewrite <- Ha, lookup_delete_eq in Hx.
    + rewrite release_other by done. pose proof (Hown x) as Hx. rewrite Hw, elem_of_cons in Hx.
      transitivity (x = ptr \/ x ∈ w'); [tauto|]. rewrite Hx. split; intros (b' & Hb' & Hb2);
        exists b'; (split; [done|]).
      * rewrite lookup_delete_ne; [done|]. intros He. rewrite <- He in Hb2. unfold table_blocks in Hb2.
        rewrite lookup_fmap, Hsd in Hb2. cbn in Hb2. congruence.
      * by apply lookup_delete_Some in Hb2 as [_ Hb2].
Qed.

Lemma ReleaseBlock_eq h ptr b :
  h !! ptr = Some b -> 1 <= references_ b -> ReleaseBlock h ptr = Some (1, release h ptr b).
Proof.
  intros Hb Hr. unfold ReleaseBlock, release. rewrite Hb. case_if_eqn; [done|].
  by rewrite (proj2 (Z.ltb_lt _ _)) by lia.
Qed.

(** A block that is not the last reference, or not in the table, can be released. *)
Lemma release_keeps_table t h w r r' ptr b :
  sys_inv (mkSys t h w r) -> r ≡ₚ ptr :: r' -> h !! ptr = Some b ->
  forall p, p ∈ w -> exists b0 b', h !! p = Some b0 /\ release h ptr b !! p = Some b' /\
    address b' = address b0.
Proof.
  intros Hs Hr Hb p Hp. destruct (writer_owns _ p Hs Hp) as (b0 & c & Hb0 & _ & Href & _).
  cbn [objs writers readers] in *. exists b0. destruct (decide (p = ptr)) as [->|Hne].
  - rewrite Hb in Hb0. injection Hb0 as <-. rewrite (cnt_proper ptr r _ Hr), cnt_cons in Href.
    rewrite decide_True in Href by done. apply cnt_pos in Hp. pose proof (cnt_nonneg ptr r').
    unfold release. rewrite (proj2 (Z.eqb_neq _ _)) by lia. rewrite lookup_insert_eq. by eexists.
  - rewrite release_other by done. by exists b0.
Qed.

Lemma release_inv t h w r r' ptr :
  sys_inv (mkSys t h w r) -> r ≡ₚ ptr :: r' ->
  exists h', ReleaseBlock h ptr = Some (1, h') /\ sys_inv (mkSys t h' w r').
Proof.
  intros Hs Hr. pose proof (si_refs _ Hs ptr) as Hrp. cbn [objs writers readers] in Hrp.
  destruct (h !! ptr) as [b|] eqn:Hb; [|rewrite Hr in Hrp; destruct Hrp as [_ []]; constructor].
  destruct Hrp as [Href Hpos]. rewrite (ReleaseBlock_eq h ptr b Hb Hpos).
  exists (release h ptr b). split; [done|].
  pose proof (release_keeps_table t h w r r' ptr b Hs Hr Hb) as Hkeep.
  destruct Hs as [Ht Hnd Hrefs Hown]. cbn [tbl objs writers readers] in *.
  split; cbn [tbl objs writers readers].
  - destruct Ht as [H1 H2 H3 H4 H5]. split; try done. intros a sd Ha.
    destruct (H5 a sd Ha) as (G1 & G2 & G3 & bb & G4 & G5). do 3 (split; [done|]).
    destruct (Hkeep (block sd)) as (b0 & b' & K1 & K2 & K3).
    + apply Hown. exists bb. split; [done|]. unfold table_blocks. by rewrite G5, lookup_fmap, Ha.
    + exists b'. split; [done | congruence].
  - done.
  - intros x. destruct (decide (x = ptr)) as [->|Hne].
    + apply (release_refs h w r); [done..|].
      rewrite (cnt_proper ptr r _ Hr), cnt_cons, decide_True by done. lia.
    + apply (refs_other h _ w _ r); [by apply release_other | done | | apply Hrefs].
      by rewrite (cnt_proper x r _ Hr), cnt_cons, decide_False.
  - intros x. split.
    + intros Hx. destruct (Hkeep x Hx) as (b0 & b' & K1 & K2 & K3).
      exists b'. split; [done|]. rewrite K3. destruct (proj1 (Hown x) Hx) as (b1 & L1 & L2). congruence.
    + intros (b' & Hb' & Hx). destruct (release_address h ptr b x b' Hb Hb') as (b0 & Hb0 & Ha).
      apply Hown. exists b0. split; [done | congruence].
Qed.

Lemma table_step_inv s s' : sys_inv s -> step s s' -> sys_inv s'.
Proof.
  intros Hs Hstep. destruct Hstep as [t h w r segment ptr rands res t' h' H1 H2 H3 H4
    |t h w r ptr b H1 H2|t h w r timed_out rand res h' H1 H2 H3|t h w r w' ptr ret t' h' H1 H2
    |t h w r r' ptr ret h' H1 H2].
  - destruct (unused_inv t h w r segment ptr rands Hs H1 H2 H3) as (? & ? & ? & He & Hi). congruence.
  - by apply written_inv.
  - destruct (random_inv t h w r timed_out rand Hs H1 H2) as (? & ? & He & Hi). congruence.
  - destruct (remove_inv t h w r w' ptr Hs H1) as (? & ? & He & Hi). congruence.
  - destruct (release_inv t h w r r' ptr Hs H1) as (? & He & Hi). congruence.
Qed.

Lemma table_init_inv t : good_params t -> pos_to_addr_ t = [] -> addr_to_block_ t = ∅ -> size_ t = 0 ->
  sys_inv (mkSys t ∅ [] []).
Proof.
  intros Hp H1 H2 H3. split; cbn [tbl objs writers readers].
  - split; rewrite ?H1, ?H2, ?H3; try done; try lia.
  - constructor.
  - intros p. rewrite lookup_empty. split; apply not_elem_of_nil.
  - intros p. rewrite elem_of_nil. split; [done|]. intros (b & Hb & _). by rewrite lookup_empty in Hb.
Qed.

Lemma table_reachable_inv t s :
  good_params t -> pos_to_addr_ t = [] -> addr_to_block_ t = ∅ -> size_ t = 0 ->
  rtc step (mkSys t ∅ [] []) s -> sys_inv s.
Proof.
  intros Hp H1 H2 H3 Hsteps. pose proof (table_init_inv t Hp H1 H2 H3) as H0. clear -Hsteps H0.
  induction Hsteps; [done|]. by apply IHHsteps, (table_step_inv x).
Qed.

(** ** The operations step by step

    The relation above runs each operation at once.  Here the writing thread runs one access
    at a time, and the reading threads run between any two of them. *)
Record fine := mkFine { sys_of : sys; writer : Writer }.

(** The writer's blocks after a step at [pc]. *)
Definition without (ptr : Z) (w : list Z) : list Z := filter (fun p : Z => p <> ptr) w.

Definition owned (pc : Writer) (w : list Z) : list Z :=
  match pc with
  | Inserting _ ptr _ _ _ => ptr :: w
  | RemovingAt ptr _ _ _ _ => without ptr w
  | _ => w
  end.

(** What the reading threads do, and a writer marking a block it owns as written. *)
Inductive mutex_step : sys -> sys -> Prop :=
| mutex_written t h w r ptr b :
    ptr ∈ w -> h !! ptr = Some b ->
    mutex_step (mkSys t h w r) (mkSys t (<[ptr := set_initialized b]> h) w r)
| mutex_random t h w r timed_out rand res h' :
    (timed_out = false -> 0 < size_ t) -> 0 <= rand ->
    GetRandomBlock t h timed_out rand = Some (res, h') ->
    mutex_step (mkSys t h w r) (mkSys t h' w (push res r))
| mutex_release t h w r r' ptr ret h' :
    r ≡ₚ ptr :: r' -> ReleaseBlock h ptr = Some (ret, h') ->
    mutex_step (mkSys t h w r) (mkSys t h' w r').

(** A call of [GetUnusedBlock]: the pointer [new] yields is not in use, and the table is not
    at the largest size its positions can count. *)
Definition may_call (s : sys) (segment ptr : Z) : Prop :=
  objs s !! ptr = None /\ 0 <= segment /\ size_ (tbl s) < 2 ^ 31 - 1.

Inductive fine_step : fine -> fine -> Prop :=
| fine_unused s segment ptr rands :
    may_call s segment ptr -> fine_step (mkFine s Idle) (mkFine s (CallUnused segment ptr rands))
| fine_remove s ptr :
    ptr ∈ writers s -> fine_step (mkFine s Idle) (mkFine s (CallRemove ptr))
| fine_writer t h w r pc t' h' pc' :
    writer_step t h pc = Some (t', h', pc') ->
    fine_step (mkFine (mkSys t h w r) pc) (mkFine (mkSys t' h' (owned pc w) r) pc')
| fine_other s s' pc : mutex_step s s' -> fine_step (mkFine s pc) (mkFine s' pc).

(** What the writing thread has read is still so: no other thread changes the table. *)
Definition chosen (t : DiskBlockTable) (segment : Z) (rands : nat -> Z) : option Z :=
  retry_loop kBlockRetry 0 t (num_sectors t) segment rands.

Definition pc_ok (s : sys) (pc : Writer) : Prop :=
  match pc with
  | Idle | Unused _ => True
  | CallUnused segment ptr _ => may_call s segment ptr
  | Trying n i segment ptr rands =>
      may_call s segment ptr /\
      chosen (tbl s) segment rands = retry_loop n i (tbl s) (num_sectors (tbl s)) segment rands
  | Found segment ptr rands sector =>
      may_call s segment ptr /\ chosen (tbl s) segment rands = Some sector
  | Inserting segment ptr rands b sd =>
      may_call s segment ptr /\
      exists sector, chosen (tbl s) segment rands = Some sector /\ b = unused_block (tbl s) sector /\
        sd = new_StorageData (tbl s) ptr
  | CallRemove ptr => ptr ∈ writers s
  | RemovingFrom ptr addr curr_pos =>
      ptr ∈ writers s /\ remove_find (tbl s) (objs s) ptr = Some (Some (addr, curr_pos))
  | RemovingLast ptr addr curr_pos last_pos =>
      ptr ∈ writers s /\ remove_find (tbl s) (objs s) ptr = Some (Some (addr, curr_pos)) /\
      last_pos = remove_last (tbl s)
  | RemovingAt ptr addr curr_pos last_pos last_addr =>
      ptr ∈ writers s /\ remove_find (tbl s) (objs s) ptr = Some (Some (addr, curr_pos)) /\
      last_pos = remove_last (tbl s) /\ remove_last_addr (tbl s) last_pos = Some last_addr
  | Removed ret => ret = 1
  end.

Definition fine_inv (s : fine) : Prop := sys_inv (sys_of s) /\ pc_ok (sys_of s) (writer s).

(** A step under the mutex is one of the relation above; it changes neither the table nor the
    writer's blocks nor where they are, and makes no object. *)
Lemma mutex_step_step s s' : mutex_step s s' -> step s s'.
Proof. intros []; by econstructor. Qed.

Lemma mutex_step_keeps s s' :
  sys_inv s -> mutex_step s s' ->
  tbl s' = tbl s /\ writers s' = writers s /\ (forall p, objs s !! p = None -> objs s' !! p = None) /\
  (forall p b, p ∈ writers s -> objs s !! p = Some b -> exists b', objs s' !! p = Some b' /\ address b' = address b).
Proof.
  assert (Hins : forall (h : store) ptr b b', h !! ptr = Some b -> address b' = address b ->
    (forall p, h !! p = None -> <[ptr := b']> h !! p = None) /\
    (forall p bp, h !! p = Some bp -> exists b2, <[ptr := b']> h !! p = Some b2 /\ address b2 = address bp)).
  { intros h ptr b b' Hb Ha. split; intros p.
    - intros Hp. rewrite lookup_insert_ne; [done | congruence].
    - intros bp Hp. destruct (decide (p = ptr)) as [->|Hne].
      + exists b'. rewrite lookup_insert_eq. split; [done | congruence].
      + exists bp. by rewrite lookup_insert_ne. }
  intros Hs Hm. destruct Hm as [t h w r ptr b Hp Hb|t h w r timed_out rand res h' Ht Hr He|t h w r r' ptr ret h' Hr He];
    cbn [tbl writers objs]; (split; [done|]); (split; [done|]).
  - destruct (Hins h ptr b (set_initialized b) Hb eq_refl) as [H1 H2]. split; [done|]. intros p bp _. apply H2.
  - unfold GetRandomBlock in He. destruct timed_out; [injection He as _ <-; split; [done|]; intros p b _ Hb; by exists b|].
    destruct (addr_to_block_ t !! _) as [sd|]; [|done]. destruct (h !! block sd) as [b|] eqn:Hb; [|done].
    destruct (initialized_ b); injection He as _ <-; [|split; [done|]; intros p b' _ Hb'; by exists b'].
    destruct (Hins h (block sd) b (IncreaseReferenceCounter b) Hb eq_refl) as [H1 H2]. split; [done|]. intros p bp _. apply H2.
  - pose proof (si_refs _ Hs ptr) as Hrp. cbn [objs writers readers] in Hrp.
    destruct (h !! ptr) as [b|] eqn:Hb; [|rewrite Hr in Hrp; destruct Hrp as [_ []]; constructor].
    rewrite (ReleaseBlock_eq h ptr b Hb) in He by lia. injection He as _ <-. split.
    + intros p Hp. rewrite release_other; [done | congruence].
    + intros p bp Hp Hbp. destruct (release_keeps_table t h w r r' ptr b Hs Hr Hb p Hp) as (b0 & b' & K1 & K2 & K3).
      exists b'. split; [done | congruence].
Qed.

Lemma mutex_pc_ok s s' pc : sys_inv s -> mutex_step s s' -> pc_ok s pc -> pc_ok s' pc.
Proof.
  intros Hs Hstep. destruct (mutex_step_keeps s s' Hs Hstep) as (Ht & Hw & Hn & Ha).
  assert (Hm : forall segment ptr, may_call s segment ptr -> may_call s' segment ptr).
  { intros segment ptr (H1 & H2 & H3). unfold may_call. rewrite Ht. auto. }
  assert (Hf : forall ptr x, ptr ∈ writers s -> remove_find (tbl s) (objs s) ptr = Some x ->
    remove_find (tbl s) (objs s') ptr = Some x).
  { intros ptr x Hp. unfold remove_find. destruct (objs s !! ptr) as [b|] eqn:Hb; [|done].
    destruct (Ha ptr b Hp Hb) as (b' & -> & ->). done. }
  destruct pc; cbn [pc_ok]; rewrite ?Ht, ?Hw; intuition auto.
Qed.

(** One step of the writing thread: it does not fail, and it changes nothing or runs the
    whole operation. *)
Definition advances (s : sys) (pc : Writer) : Prop :=
  exists t' h' pc', writer_step (tbl s) (objs s) pc = Some (t', h', pc') /\
    let s' := mkSys t' h' (owned pc (writers s)) (readers s) in
    (s' = s \/ step s s') /\ fine_inv (mkFine s' pc').

(** A step that only reads. *)
Lemma progress_read s pc pc' :
  sys_inv s -> writer_step (tbl s) (objs s) pc = Some (tbl s, objs s, pc') ->
  owned pc (writers s) = writers s -> pc_ok s pc' -> advances s pc.
Proof.
  intros Hs He Ho Hp. exists (tbl s), (objs s), pc'. split; [done|]. cbv zeta. rewrite Ho.
  destruct s as [t h w r]. cbn [tbl objs writers readers] in *. split; [by left | done].
Qed.

Lemma insert_progress s segment ptr rands b sd :
  sys_inv s -> pc_ok s (Inserting segment ptr rands b sd) -> advances s (Inserting segment ptr rands b sd).
Proof.
  destruct s as [t h w r]. intros Hs ((Hptr & Hseg & Hsz) & sector & Hc & -> & ->). cbn [tbl objs] in *.
  destruct (unused_inv t h w r segment ptr rands Hs Hptr Hseg Hsz) as (res & t' & h' & He & Hs').
  pose proof He as He'. unfold GetUnusedBlock in He'. destruct (device_sectors_ t =? 0); [done|].
  unfold chosen, num_sectors in Hc. rewrite Hc in He'. unfold InsertOnStructure in He'.
  rewrite lookup_insert_eq in He'. injection He' as <- <- <-.
  eexists _, _, _. split; [reflexivity|]. cbn [owned writers readers]. split; [right | by split].
  by apply (step_unused t h w r segment ptr rands (Some ptr)).
Qed.

Lemma filter_own ptr w : NoDup w -> ptr ∈ w -> w ≡ₚ ptr :: without ptr w.
Proof.
  intros Hn Hp. unfold without. apply NoDup_Permutation; [done| |].
  - constructor; [|by apply NoDup_filter]. rewrite list_elem_of_filter. tauto.
  - intros x. rewrite elem_of_cons, list_elem_of_filter. destruct (decide (x = ptr)) as [->|]; tauto.
Qed.

Lemma remove_progress s ptr addr curr_pos last_pos last_addr :
  sys_inv s -> pc_ok s (RemovingAt ptr addr curr_pos last_pos last_addr) ->
  advances s (RemovingAt ptr addr curr_pos last_pos last_addr).
Proof.
  destruct s as [t h w r]. intros Hs (Hp & Hf & -> & Hl). cbn [tbl objs writers] in *.
  pose proof (filter_own ptr w (si_nodup _ Hs) Hp) as Hw.
  destruct (remove_inv t h w r _ ptr Hs Hw) as (t' & h' & He & Hs').
  pose proof He as He'. unfold RemoveBlock in He'. rewrite Hf, Hl in He'.
  exists t', h', (Removed 1). cbn [writer_step tbl objs]. rewrite He'. split; [done|].
  cbn [owned writers readers]. split; [right; by apply (step_remove t h w r _ ptr 1) | by split].
Qed.

Lemma writer_progress s : fine_inv s -> advances (sys_of s) (writer s).
Proof.
  destruct s as [s pc]. intros [Hs Hp]. cbn [sys_of writer] in *.
  destruct pc as [|segment ptr rands|n i segment ptr rands|segment ptr rands sector|segment ptr rands b sd
    |res|ptr|ptr addr curr|ptr addr curr last|ptr addr curr last last_addr|ret].
  - by apply (progress_read s _ Idle).
  - apply (progress_read s _ (Trying kBlockRetry 0 segment ptr rands)); try done. cbn [writer_step].
    pose proof (gp_dev _ (ti_params _ _ (si_table _ Hs))). by rewrite (proj2 (Z.eqb_neq _ _)) by lia.
  - destruct Hp as [Hm Hc]. destruct n as [|n]; [by apply (progress_read s _ (Unused None))|].
    cbn [retry_loop] in Hc. destruct (try_sector _ _ _ _) as [sector|] eqn:Et.
    + apply (progress_read s _ (Found segment ptr rands sector)); try done. cbn [writer_step].
      fold (num_sectors (tbl s)). by rewrite Et.
    + apply (progress_read s _ (Trying n (S i) segment ptr rands)); try done. cbn [writer_step].
      fold (num_sectors (tbl s)). by rewrite Et.
  - destruct Hp as [Hm Hc]. eapply (progress_read s); try done. cbn [pc_ok]. split; [done|]. by exists sector.
  - by apply insert_progress.
  - by apply (progress_read s _ Idle).
  - destruct (writer_owns s ptr Hs Hp) as (b & c & Hb & Hsd & _).
    assert (Hf : remove_find (tbl s) (objs s) ptr = Some (Some (address b, c))).
    { unfold remove_find. rewrite Hb. destruct (ti_addr _ _ (si_table _ Hs) _ _ Hsd) as (_ & _ & Hpl & _).
      by rewrite (placed_s64 (tbl s) _ (ti_params _ _ (si_table _ Hs)) Hpl), Hsd. }
    apply (progress_read s _ (RemovingFrom ptr (address b) c)); try done. cbn [writer_step]. by rewrite Hf.
  - destruct Hp as [Hp Hf]. by eapply (progress_read s).
  - destruct Hp as (Hp & Hf & ->). pose proof (filter_own ptr _ (si_nodup _ Hs) Hp) as Hw.
    destruct s as [t h w r]. cbn [tbl objs writers] in *.
    destruct (remove_inv t h w r _ ptr Hs Hw) as (t' & h' & He & _). unfold RemoveBlock in He. rewrite Hf in He.
    destruct (remove_last_addr t (remove_last t)) as [la|] eqn:El; [|done].
    apply (progress_read (mkSys t h w r) _ (RemovingAt ptr addr curr (remove_last t) la)); try done.
    cbn [writer_step tbl]. by rewrite El.
  - by apply remove_progress.
  - by apply (progress_read s _ Idle).
Qed.

(** The accesses simulate the operations at once. *)
Lemma fine_step_simulates s s' :
  fine_inv s -> fine_step s s' -> (sys_of s' = sys_of s \/ step (sys_of s) (sys_of s')) /\ fine_inv s'.
Proof.
  intros Hi Hstep. destruct Hstep as [s segment ptr rands Hm|s ptr Hp|t h w r pc t' h' pc' He|s s2 pc Hm].
  - split; [by left|]. destruct Hi as [Hs _]. by split.
  - split; [by left|]. destruct Hi as [Hs _]. by split.
  - destruct (writer_progress _ Hi) as (t2 & h2 & pc2 & He2 & Hb & Hi2). cbn [sys_of writer tbl objs] in He2.
    rewrite He in He2. injection He2 as <- <- <-. by split.
  - destruct Hi as [Hs Hp]. cbn [sys_of writer] in *. split; [right; by apply mutex_step_step|]. split; cbn [sys_of writer].
    + apply (table_step_inv s); [done|]. by apply mutex_step_step.
    + by apply (mutex_pc_ok s).
Qed.

Lemma fine_reachable t s :
  good_params t -> pos_to_addr_ t = [] -> addr_to_block_ t = ∅ -> size_ t = 0 ->
  rtc fine_step (mkFine (mkSys t ∅ [] []) Idle) s ->
  fine_inv s /\ rtc step (mkSys t ∅ [] []) (sys_of s).
Proof.
  intros Hp H1 H2 H3. set (s0 := mkFine (mkSys t ∅ [] []) Idle).
  assert (H0 : fine_inv s0) by (split; [by apply table_init_inv | done]).
  change (mkSys t ∅ [] []) with (sys_of s0). clearbody s0. intros Hsteps. clear -H0 Hsteps.
  induction Hsteps as [s|s s' s'' Hs _ IH]; [done|].
  destruct (fine_step_simulates s s' H0 Hs) as [Hb Hi]. destruct (IH Hi) as [Hi' Hr]. split; [done|].
  destruct Hb as [<-|Hb]; [done|]. by apply (rtc_l _ _ (sys_of s')).
Qed.

(** C36. Reference counting of disk blocks is safe although [InsertOnStructure] and
    [RemoveBlock] read the table before they take its mutex.  The threads are those [sat.cc]
    gives a table, one writing thread and any number of reading threads, interleaved at every
    read of the table and every critical section; the table has usable parameters (a sector no
    longer than a write block, a write block no longer than the device or a segment, sizes
    without overflow), starts empty and holds fewer than 2^31 - 1 blocks when a block is asked
    for.  Then in every reachable state: the next step of the writing thread, wherever it is in
    [GetUnusedBlock] or [RemoveBlock], fails no assertion and uses no deleted block or entry; a
    call of [RemoveBlock] on a block of the writer returns 1; the writer's blocks exist; a
    reader releases each of its blocks with result 1, and [GetRandomBlock] on a table that is
    not empty fails no assertion and uses no deleted block; the position index agrees with the
    map; and the table, the blocks and their owners are ones that operations run without
    interruption also reach. *)
Theorem refcount_safe t s :
  good_params t -> pos_to_addr_ t = [] -> addr_to_block_ t = ∅ -> size_ t = 0 ->
  rtc fine_step (mkFine (mkSys t ∅ [] []) Idle) s ->
  writer_step (tbl (sys_of s)) (objs (sys_of s)) (writer s) <> None /\
  (forall ret, writer s = Removed ret -> ret = 1) /\
  (forall p, p ∈ writers (sys_of s) -> is_Some (objs (sys_of s) !! p)) /\
  (forall p, p ∈ readers (sys_of s) -> exists h', ReleaseBlock (objs (sys_of s)) p = Some (1, h')) /\
  (forall rand, 0 < size_ (tbl (sys_of s)) -> 0 <= rand ->
     GetRandomBlock (tbl (sys_of s)) (objs (sys_of s)) false rand <> None) /\
  table_inv (tbl (sys_of s)) (objs (sys_of s)) /\
  rtc step (mkSys t ∅ [] []) (sys_of s).
Proof.
  intros Hp H1 H2 H3 Hsteps.
  destruct (fine_reachable t s Hp H1 H2 H3 Hsteps) as [Hi Hr]. split.
  { destruct (writer_progress s Hi) as (? & ? & ? & -> & _). done. }
  destruct Hi as [Hs Hpc]. split; [by intros ret Hw; rewrite Hw in Hpc|].
  split; [intros p Hpw; destruct (writer_owns _ p Hs Hpw) as (b & c & -> & _); done|].
  destruct s as [[t' h w r] pc]. cbn [sys_of writer tbl objs writers readers] in *.
  split; [|split; [|split; [apply Hs | done]]].
  - intros p Hpr. apply elem_of_Permutation in Hpr as [r' Hr'].
    destruct (release_inv t' h w r r' p Hs Hr') as (h2 & He & _). by exists h2.
  - intros rand Hsz Hrd. destruct (random_inv t' h w r false rand Hs (fun _ => Hsz) Hrd) as (? & ? & -> & _).
    done.
Qed.

Definition sample_table : DiskBlockTable := mkTable [] ∅ 512 4096 1000 100 0.

Lemma sample_params : good_params sample_table.
Proof.
  assert (H : 4096 / 512 = 8) by reflexivity.
  split; cbn [sector_size_ write_block_size_ device_sectors_ segment_size_ sample_table];
    rewrite ?H; lia.
Qed.

(** One write thread has allocated a block. *)
Lemma sample_run :
  exists s, rtc step (mkSys sample_table ∅ [] []) s /\ writers s = [7] /\
    addr_to_block_ (tbl s) !! 340 = Some (mkStorage 7 0) /\ num_sectors (tbl s) = 8.
Proof.
  eexists. split; [|split; [|split]].
  - apply rtc_once. apply (step_unused sample_table ∅ [] [] 3 7 (fun i => Z.of_nat i + 5) (Some 7));
      reflexivity || discriminate.
  - reflexivity.
  - reflexivity.
  - reflexivity.
Qed.

(** The writing thread, asked for a block, runs alone. *)
Fixpoint run_writer (n : nat) (s : fine) : option fine :=
  match n, s with
  | O, _ => Some s
  | S n, mkFine (mkSys t h w r) pc =>
      match writer_step t h pc with
      | Some (t', h', pc') => run_writer n (mkFine (mkSys t' h' (owned pc w) r) pc')
      | None => None
      end
  end.

Lemma run_writer_steps n s s' : run_writer n s = Some s' -> rtc fine_step s s'.
Proof.
  revert s. induction n as [|n IH]; intros [[t h w r] pc]; cbn [run_writer]; [by intros [= <-]|].
  destruct (writer_step t h pc) as [[[t' h'] pc']|] eqn:E; [|done]. intros Hr.
  eapply rtc_l; [by apply fine_writer | by apply IH].
Qed.

(** The thread has allocated a block and, removing it, has read where it is but not taken
    the mutex yet. *)
Lemma sample_fine_reachable :
  exists s, rtc fine_step (mkFine (mkSys sample_table ∅ [] []) Idle) s /\
    writer s = RemovingAt 7 340 0 0 340.
Proof.
  destruct (run_writer 5 (mkFine (mkSys sample_table ∅ [] []) (CallUnused 3 7 (fun i => Z.of_nat i + 5)))) as [[s1 pc]|] eqn:E1;
    [|by vm_compute in E1].
  assert (Hpc : pc = Idle) by (vm_compute in E1; congruence). subst pc.
  assert (Hw : 7 ∈ writers s1) by (vm_compute in E1; injection E1 as <-; constructor).
  destruct (run_writer 3 (mkFine s1 (CallRemove 7))) as [s2|] eqn:E2;
    [|vm_compute in E1; injection E1 as <-; by vm_compute in E2].
  exists s2. split; [|vm_compute in E1; injection E1 as <-; vm_compute in E2; by injection E2 as <-].
  eapply rtc_l; [by apply (fine_unused _ 3 7 (fun i => Z.of_nat i + 5))|].
  etransitivity; [apply (run_writer_steps _ _ _ E1)|].
  eapply rtc_l; [by apply (fine_remove s1 7)|]. apply (run_writer_steps _ _ _ E2).
Qed.

Lemma refcount_safe_witness :
  exists s, rtc fine_step (mkFine (mkSys sample_table ∅ [] []) Idle) s /\ writer s = RemovingAt 7 340 0 0 340 /\
    writer_step (tbl (sys_of s)) (objs (sys_of s)) (writer s) <> None.
Proof.
  destruct sample_fine_reachable as (s & Hs & Hw). exists s. split; [exact Hs|]. split; [exact Hw|].
  apply (refcount_safe sample_table s sample_params eq_refl eq_refl eq_refl Hs).
Defined.

(** Two writing threads would not be safe: each has read where the entries are, one of them
    removes its block, and the other one then uses an erased entry. *)
Definition shared_blocks : DiskBlockTable * store :=
  (mkTable [0; 8] {[0 := mkStorage 1 0; 8 := mkStorage 2 1]} 512 4096 1000 (-1) 2,
   {[1 := mkBlock 0 4096 1 true None; 2 := mkBlock 8 4096 1 true None]}).

Lemma two_writers_unsafe :
  let '(t, h) := shared_blocks in
  table_inv t h /\
  exists x y t' h',
    remove_find t h 1 = Some (Some (0, 0)) /\ remove_last_addr t (remove_last t) = Some x /\
    remove_find t h 2 = Some (Some (8, 1)) /\ remove_last_addr t (remove_last t) = Some y /\
    remove_locked t h 2 8 1 (remove_last t) y = Some (1, t', h') /\
    remove_locked t' h' 1 0 0 (remove_last t) x = None.
Proof.
  cbn [shared_blocks]. split.
  - split; cbn [size_ pos_to_addr_ addr_to_block_].
    + assert (H : 4096 / 512 = 8) by reflexivity.
      split; cbn [sector_size_ write_block_size_ device_sectors_ segment_size_]; rewrite ?H; lia.
    + lia.
    + cbn. lia.
    + intros q Hq. assert (q = 0 \/ q = 1) as [->| ->] by lia; by eexists.
    + intros a sd. rewrite lookup_insert_Some. intros [[<- <-]|[_ H]].
      * split; [done|]. split; [done|]. split; [|by eexists].
        split; [done|]. split; [done|]. cbn. apply Z.divide_0_r.
      * apply lookup_singleton_Some in H as [<- <-].
        split; [done|]. split; [done|]. split; [|by eexists].
        split; [done|]. split; [done|]. apply Z.divide_refl.
  - do 4 eexists. repeat split; reflexivity.
Qed.

(** Blocks on disk never overlap.  In every reachable table each block lies inside
    the device and two different blocks share no sector, whether blocks come from the
    whole device or from segments of any length: the test of the first sector alone in
    [GetUnusedBlock] is enough. *)
Theorem blocks_disjoint t s a a' sd sd' :
  good_params t -> pos_to_addr_ t = [] -> addr_to_block_ t = ∅ -> size_ t = 0 ->
  rtc step (mkSys t ∅ [] []) s ->
  addr_to_block_ (tbl s) !! a = Some sd -> addr_to_block_ (tbl s) !! a' = Some sd' ->
  0 <= a /\ a + num_sectors (tbl s) <= device_sectors_ (tbl s) /\
  (a = a' \/ a + num_sectors (tbl s) <= a' \/ a' + num_sectors (tbl s) <= a).
Proof.
  intros Hp H1 H2 H3 Hsteps Ha Ha'.
  pose proof (table_reachable_inv t s Hp H1 H2 H3 Hsteps) as Hs.
  pose proof (si_table _ Hs) as Hi.
  destruct (ti_addr _ _ Hi _ _ Ha) as (_ & _ & Hpa & _).
  destruct (ti_addr _ _ Hi _ _ Ha') as (_ & _ & Hpa' & _).
  split; [apply Hpa|]. split; [apply Hpa|].
  destruct (decide (a = a')) as [|Hne]; [by left | right].
  by apply (placed_disjoint (tbl s)); [apply Hi|..].
Qed.

Lemma blocks_disjoint_witness :
  exists s, rtc step (mkSys sample_table ∅ [] []) s /\
    340 + num_sectors (tbl s) <= device_sectors_ (tbl s).
Proof.
  destruct sample_run as (s & Hs & _ & Ha & _). exists s. split; [exact Hs|].
  apply (blocks_disjoint sample_table s 340 340 _ _ sample_params eq_refl eq_refl eq_refl Hs Ha Ha).
Defined.

End DiskBlocksFacts.
