(* ===== verification/OsLayer.v ===== *)
(** The platform layer: the parts of [src/src/os.cc] that compute, the CPU set helpers of
    [src/src/sattypes.h], and the channel options of [Sat::ParseArgs] that feed
    [OsLayer::FindDimm].

    The kernel's page map is a parameter of [VirtualToPhysical]: the 8 bytes read at an
    offset of [/proc/self/pagemap], or [None] when the file cannot be opened or read.
    Flushes, MSR and PCI accesses are not modelled. *)

From Stdlib Require Import Ascii String.
From S2P Require Import Prelude.

Module OsLayer.

(** ** CPU sets

    A [cpu_set_t] is the number whose bit [i] is CPU [i]; the C library ignores an index
    outside the set. *)
Definition CPU_SETSIZE : Z := 1024.
Abbreviation cpu_set_t := Z (only parsing).
Definition in_set (i : Z) : bool := (0 <=? i) && (i <? CPU_SETSIZE).
Definition CPU_ISSET (i : Z) (s : cpu_set_t) : bool := in_set i && Z.testbit s i.
Definition CPU_SET (i : Z) (s : cpu_set_t) : cpu_set_t := if in_set i then Z.setbit s i else s.
Definition CPU_ZERO : cpu_set_t := 0.

Definition cpus : list Z := zrange 0 (Z.to_nat CPU_SETSIZE).

Definition cpuset_isequal (c1 c2 : cpu_set_t) : bool :=
  forallb (fun i => Bool.eqb (CPU_ISSET i c1) (CPU_ISSET i c2)) cpus.

Definition cpuset_issubset (c1 c2 : cpu_set_t) : bool :=
  forallb (fun i => negb (CPU_ISSET i c1 && negb (CPU_ISSET i c2))) cpus.

Definition cpuset_count (s : cpu_set_t) : Z :=
  fold_left (fun count i => if CPU_ISSET i s then count + 1 else count) cpus 0.

Definition cpuset_set_ab (a b : Z) : cpu_set_t :=
  fold_left (fun s i => CPU_SET i s) (zrange a (Z.to_nat (b - a))) CPU_ZERO.

(** [digit <= 9 ? '0' + digit : 'A' + digit - 10]. *)
Definition hex_char (digit : Z) : ascii :=
  Ascii.ascii_of_nat (Z.to_nat (if digit <=? 9 then 48 + digit else 65 + digit - 10)).

(** The loop of [cpuset_format] over the remaining CPUs: [format], [digit] and
    [last_non_zero_size]. *)
Fixpoint format_loop (is_ : list Z) (s : cpu_set_t) (format : list ascii) (digit last : Z)
  : list ascii * Z * Z :=
  match is_ with
  | [] => (format, digit, last)
  | i :: is' =>
      let digit := if CPU_ISSET i s then Z.lor digit (Z.shiftl 1 (Z.land i 3)) else digit in
      if Z.land i 3 =? 3 then
        let format := format ++ [hex_char digit] in
        if negb (digit =? 0) then format_loop is' s format 0 (Z.of_nat (List.length format))
        else format_loop is' s format digit last
      else format_loop is' s format digit last
  end.

Definition cpuset_format (s : cpu_set_t) : list ascii :=
  let '(format, digit, last) := format_loop cpus s [] 0 1 in
  let '(format, last) :=
    if negb (digit =? 0)
    then let format := format ++ [hex_char digit] in (format, Z.of_nat (length format))
    else (format, last) in
  rev (take (Z.to_nat last) format).

(** ** The platform object *)

Definition kMegabyte : Z := 1024 * 1024.

Record OsLayer := mkOs {
  totalmemsize_ : Z; regionsize_ : Z; regioncount_ : Z;
  num_nodes_ : Z; num_cpus_per_node_ : Z;
  cpu_sets_ : list cpu_set_t; cpu_sets_valid_ : list bool;
  channels_ : option (list (list string)); channel_hash_ : Z; channel_width_ : Z;
  testmem_ : Z; testmemsize_ : Z; dynamic_mapped_shmem_ : bool
}.

Definition SetDramMappingParams (os : OsLayer) (channel_hash channel_width : Z)
    (channels : option (list (list string))) : OsLayer :=
  mkOs (totalmemsize_ os) (regionsize_ os) (regioncount_ os) (num_nodes_ os)
    (num_cpus_per_node_ os) (cpu_sets_ os) (cpu_sets_valid_ os) channels channel_hash
    channel_width (testmem_ os) (testmemsize_ os) (dynamic_mapped_shmem_ os).

(** [pagemap off] are the 8 bytes at [off]; every failure of the access gives 0. *)
Definition VirtualToPhysical (pagesize : Z) (pagemap : Z -> option Z) (vaddr : Z) : Z :=
  let off := vaddr / pagesize * 8 in
  match pagemap off with
  | None => 0
  | Some frame =>
      if negb (Z.testbit frame 63) || Z.testbit frame 62 then 0
      else
        let pfnmask := Z.shiftl 1 55 - 1 in
        let pagemask := pagesize - 1 in
        Z.lor (u64 (Z.land frame pfnmask * pagesize)) (Z.land vaddr pagemask)
  end.

(** [__builtin_parity] of a 32-bit value. *)
Fixpoint parity_from (n : nat) (x : Z) : bool :=
  match n with O => false | S n' => xorb (Z.odd x) (parity_from n' (Z.div2 x)) end.
Definition builtin_parity (x : Z) : Z := Z.b2z (parity_from 32 x).

(** [None]: the code indexes a vector outside its bounds. *)
Definition FindDimm (os : OsLayer) (addr : Z) : option (Z * string) :=
  match channels_ os with
  | None => Some (-1, "DIMM Unknown"%string)
  | Some channels =>
      let low := u32 (Z.land addr (channel_hash_ os)) in
      let high := u32 (Z.shiftr (Z.land addr (channel_hash_ os)) 32) in
      channel ← channels !! Z.to_nat (Z.lxor (builtin_parity high) (builtin_parity low));
      let width := channel_width_ os / 8 in
      let chip := (addr mod width) / (width / Z.of_nat (length channel)) in
      name ← channel !! Z.to_nat chip;
      Some (1, name)
  end.

Definition set_regions (os : OsLayer) (size count : Z) : OsLayer :=
  mkOs (totalmemsize_ os) size count (num_nodes_ os) (num_cpus_per_node_ os) (cpu_sets_ os)
    (cpu_sets_valid_ os) (channels_ os) (channel_hash_ os) (channel_width_ os) (testmem_ os)
    (testmemsize_ os) (dynamic_mapped_shmem_ os).

Definition FindRegion (os : OsLayer) (addr : Z) : Z * OsLayer :=
  let os :=
    if regionsize_ os =? 0 then
      let size := totalmemsize_ os / 8 in
      let size := if size <? 512 * kMegabyte then 512 * kMegabyte else size in
      let count := s32 (totalmemsize_ os / size) in
      let count := if count <? 1 then 1 else count in
      set_regions os size count
    else os in
  let region_num := s32 (addr / regionsize_ os) in
  (if regioncount_ os <=? region_num then region_num mod regioncount_ os else region_num, os).

Definition set_cpu_set (os : OsLayer) (region : Z) (s : cpu_set_t) : OsLayer :=
  mkOs (totalmemsize_ os) (regionsize_ os) (regioncount_ os) (num_nodes_ os)
    (num_cpus_per_node_ os) (aset (cpu_sets_ os) region s) (aset (cpu_sets_valid_ os) region true)
    (channels_ os) (channel_hash_ os) (channel_width_ os) (testmem_ os) (testmemsize_ os)
    (dynamic_mapped_shmem_ os).

(** The assertion [region >= 0] is a precondition. *)
Definition FindCoreMask (os : OsLayer) (region : Z) : cpu_set_t * OsLayer :=
  let region := region mod num_nodes_ os in
  let os :=
    if negb (aget false (cpu_sets_valid_ os) region) then
      set_cpu_set os region
        (fold_left (fun s i => CPU_SET (i + region * num_cpus_per_node_ os) s)
           (zrange 0 (Z.to_nat (num_cpus_per_node_ os))) CPU_ZERO)
    else os in
  (aget 0 (cpu_sets_ os) region, os).

Definition FindCoreMaskFormat (os : OsLayer) (region : Z) : list ascii * OsLayer :=
  let '(mask, os) := FindCoreMask os region in
  let format := cpuset_format mask in
  (if (length format <? 8)%nat then replicate (8 - length format) "0"%char ++ format else format, os).

(** ** Test memory

    A mapping request is the pair (length, file offset) passed to [mmap]; [map_at] is what
    [mmap] returns, [MAP_FAILED] for an error.  [None]: an assertion fails. *)
Definition MAP_FAILED : Z := -1.

Definition PrepareTestMem (os : OsLayer) (os_page_size : Z) (map_at : Z) (offset length : Z)
  : option (Z * option (Z * Z)) :=
  if testmemsize_ os <? u64 (offset + length) then None
  else if dynamic_mapped_shmem_ os then
    if os_page_size <=? 0 then None
    else
      let mapping_offset := offset - offset mod os_page_size in
      let mapping_delta := offset - mapping_offset in
      let mapping_length := u64 (length + mapping_delta) in
      if map_at =? MAP_FAILED then None
      else Some (map_at + mapping_delta, Some (mapping_length, mapping_offset))
  else Some (testmem_ os + offset, None).

(** The address and length passed to [munmap], if it is called; [retval] is what it returns.
    [None]: an assertion fails. *)
Definition ReleaseTestMem (os : OsLayer) (os_page_size retval : Z) (addr offset length : Z)
  : option (option (Z * Z)) :=
  if dynamic_mapped_shmem_ os then
    if os_page_size <=? 0 then None
    else
      let mapping_delta := offset mod os_page_size in
      if retval =? -1 then None
      else Some (Some (addr - mapping_delta, u64 (length + mapping_delta)))
  else Some None.

(** ** The channel options of [Sat::ParseArgs] *)

(** [--memory_channel]: the text up to each comma, then the rest. *)
Fixpoint split_channel (s cur : list ascii) : list string :=
  match s with
  | [] => [string_of_list_ascii cur]
  | c :: s' =>
      if Ascii.eqb c ","%char then string_of_list_ascii cur :: split_channel s' []
      else split_channel s' (cur ++ [c])
  end.

Definition memory_channel (arg : string) : list string := split_channel (list_ascii_of_string arg) [].

(** The validation at the end: the channel hash to use, or [None] for [return false]. *)
Definition validate_channels (channels : list (list string)) (channel_hash channel_width : Z)
  : option Z :=
  match channels with
  | [] => Some channel_hash
  | c0 :: _ =>
      let n := Z.of_nat (length channels) in
      let size := Z.of_nat (length c0) in
      if 2 <? n then None
      else
        let channel_hash := if n =? 1 then 0 else channel_hash in
        if negb (forallb (fun c => (length c =? length c0)%nat) channels) then None
        else if negb (Z.land size (size - 1) =? 0) then None
        else if (channel_width <? 16) || negb (Z.land channel_width (channel_width - 1) =? 0) then None
        else if channel_width / size <? 8 then None
        else Some channel_hash
  end.

(** The power-of-two test on [page_length_]. *)
Definition valid_page_length (page_length : Z) : bool :=
  negb (page_length =? 0) && (Z.land page_length (page_length - 1) =? 0) && (1023 <? page_length).

End OsLayer.

Module OsLayerFacts.
Import OsLayer.

(** ** CPU sets *)

Lemma elem_of_cpus i : i ∈ cpus <-> 0 <= i < CPU_SETSIZE.
Proof. unfold cpus, CPU_SETSIZE. rewrite elem_of_zrange. lia. Qed.

Lemma in_set_spec i : in_set i = true <-> 0 <= i < CPU_SETSIZE.
Proof. unfold in_set. rewrite andb_true_iff, Z.leb_le, Z.ltb_lt. done. Qed.

Lemma forallb_cpus f : forallb f cpus = true <-> forall i, 0 <= i < CPU_SETSIZE -> f i = true.
Proof.
  rewrite forallb_forall. split; intros H i Hi.
  - apply H, list_elem_of_In, elem_of_cpus, Hi.
  - apply H, elem_of_cpus, list_elem_of_In, Hi.
Qed.

Lemma CPU_ISSET_SET i j s :
  0 <= i < CPU_SETSIZE -> CPU_ISSET i (CPU_SET j s) = bool_decide (i = j) || CPU_ISSET i s.
Proof.
  intros Hi. unfold CPU_ISSET, CPU_SET. rewrite (proj2 (in_set_spec i) Hi). cbn [andb].
  destruct (in_set j) eqn:Hj.
  - apply in_set_spec in Hj. destruct (decide (i = j)) as [->|Hne].
    + rewrite Z.setbit_eq, bool_decide_true by lia. done.
    + rewrite Z.setbit_neq, bool_decide_false by lia. done.
  - rewrite bool_decide_false; [done|]. intros <-. by rewrite (proj2 (in_set_spec i) Hi) in Hj.
Qed.

Lemma CPU_ISSET_fold i (g : Z -> Z) l s :
  0 <= i < CPU_SETSIZE ->
  CPU_ISSET i (fold_left (fun s j => CPU_SET (g j) s) l s) =
  bool_decide (Exists (fun j => i = g j) l) || CPU_ISSET i s.
Proof.
  intros Hi. revert s. induction l as [|j l IH]; intros s; cbn [fold_left].
  - rewrite bool_decide_false; [done|]. by intros H%Exists_nil.
  - rewrite IH, CPU_ISSET_SET by done.
    destruct (decide (i = g j)) as [He|Hne].
    + rewrite (bool_decide_true (i = g j)) by done.
      rewrite (bool_decide_true (Exists _ (j :: l))) by (by constructor). by rewrite orb_true_r.
    + rewrite (bool_decide_false (i = g j)) by done. cbn [orb]. f_equal.
      apply bool_decide_ext. rewrite Exists_cons. tauto.
Qed.

Lemma cpuset_set_ab_spec a b i :
  0 <= i < CPU_SETSIZE -> CPU_ISSET i (cpuset_set_ab a b) = bool_decide (a <= i < b).
Proof.
  intros Hi. unfold cpuset_set_ab. rewrite (CPU_ISSET_fold i (fun j => j)) by done.
  unfold CPU_ISSET, CPU_ZERO. rewrite Z.bits_0, andb_false_r, orb_false_r.
  apply bool_decide_ext. rewrite Exists_exists. split.
  - intros (j & Hj & ->). apply elem_of_zrange in Hj. lia.
  - intros H. exists i. rewrite elem_of_zrange. split; [lia | done].
Qed.

(** *** The printed mask *)

(** Hexadecimal digit [k] of the mask. *)
Definition nib (s k : Z) : Z := (s / 2 ^ (4 * k)) mod 16.

Fixpoint le_value (ds : list Z) : Z :=
  match ds with [] => 0 | d :: ds' => d + 16 * le_value ds' end.

(** Reading a numeral, most significant digit first. *)
Definition hex_digit (c : ascii) : Z :=
  let n := Z.of_nat (Ascii.nat_of_ascii c) in if n <=? 57 then n - 48 else n - 55.
Definition hex_value (l : list ascii) : Z := fold_left (fun v c => 16 * v + hex_digit c) l 0.

Lemma nib_bound s k : 0 <= nib s k < 16.
Proof. apply Z.mod_pos_bound. lia. Qed.

Lemma hex_digit_char d : 0 <= d < 16 -> hex_digit (hex_char d) = d.
Proof.
  intros Hd. apply Z.eqb_eq.
  apply (forallbZ_spec 0 16 (fun d => hex_digit (hex_char d) =? d)); [reflexivity | lia].
Qed.

Lemma hex_value_rev ds :
  Forall (fun d => 0 <= d < 16) ds -> hex_value (rev (map hex_char ds)) = le_value ds.
Proof.
  unfold hex_value. induction 1 as [|d ds Hd _ IH]; [done|]. cbn [map rev le_value].
  rewrite fold_left_app, IH. cbn [fold_left]. rewrite hex_digit_char by done. lia.
Qed.

Lemma le_value_app a b : le_value (a ++ b) = le_value a + 16 ^ Z.of_nat (length a) * le_value b.
Proof.
  induction a as [|d a IH]; cbn [app le_value length]; [lia|].
  rewrite IH, Nat2Z.inj_succ, Z.pow_succ_r by lia. lia.
Qed.

Lemma le_value_zero ds : Forall (fun d => d = 0) ds -> le_value ds = 0.
Proof. induction 1 as [|d ds -> _ IH]; [done|]. cbn. lia. Qed.

Lemma le_value_nibs s k n :
  0 <= s -> 0 <= k -> le_value (map (nib s) (zrange k n)) = (s / 2 ^ (4 * k)) mod 16 ^ Z.of_nat n.
Proof.
  intros Hs. revert k. induction n as [|n IH]; intros k Hk.
  - by rewrite Z.mod_1_r.
  - cbn [zrange map le_value]. rewrite IH by lia. rewrite Nat2Z.inj_succ, Z.pow_succ_r by lia.
    replace (4 * (k + 1)) with (4 * k + 4) by lia. rewrite Z.pow_add_r by lia. change (2 ^ 4) with 16.
    rewrite <- Z.div_div by lia. rewrite (Z.rem_mul_r _ 16) by lia. done.
Qed.

Lemma nibble_bits s k :
  0 <= k ->
  nib s k = bitsZ [Z.testbit s (4 * k); Z.testbit s (4 * k + 1); Z.testbit s (4 * k + 2);
                   Z.testbit s (4 * k + 3)].
Proof.
  intros Hk. unfold nib. change 16 with (2 ^ Z.of_nat 4).
  rewrite <- (bitsZ_bits_from s (4 * k) 4) by lia. unfold bits_from. cbn [zrange map].
  by replace (4 * k + 1 + 1) with (4 * k + 2) by lia;
    replace (4 * k + 2 + 1) with (4 * k + 3) by lia.
Qed.

Lemma land3 k j : 0 <= j < 4 -> Z.land (4 * k + j) 3 = j.
Proof.
  intros Hj. change 3 with (Z.ones 2). rewrite Z.land_ones by lia. change (2 ^ 2) with 4.
  rewrite Z.add_comm, Z.mul_comm, Z_mod_plus_full. apply Z.mod_small, Hj.
Qed.

(** Four steps of the loop print one digit. *)
Lemma format_nibble s k format last rest :
  0 <= k -> 4 * k + 3 < CPU_SETSIZE ->
  format_loop (zrange (4 * k) 4 ++ rest) s format 0 last =
  format_loop rest s (format ++ [hex_char (nib s k)]) 0
    (if nib s k =? 0 then last else Z.of_nat (length format) + 1).
Proof.
  intros Hk Hlt. rewrite nibble_bits by done. cbn [zrange app].
  replace (4 * k + 1 + 1) with (4 * k + 2) by lia. replace (4 * k + 2 + 1) with (4 * k + 3) by lia.
  assert (Hin : forall j, 0 <= j < 4 -> CPU_ISSET (4 * k + j) s = Z.testbit s (4 * k + j)).
  { intros j Hj. unfold CPU_ISSET. by rewrite (proj2 (in_set_spec _)) by lia. }
  pose proof (Hin 0) as H0. rewrite Z.add_0_r in H0. pose proof (land3 k 0) as L0. rewrite Z.add_0_r in L0.
  cbn [format_loop]. rewrite H0, !Hin, L0, !land3 by lia. cbn [Z.eqb Pos.eqb].
  assert (Hl : Z.of_nat (length format) + 1 = Z.of_nat (length (format ++ [" "%char]))).
  { rewrite length_app. cbn [length]. lia. }
  destruct (Z.testbit s (4 * k)), (Z.testbit s (4 * k + 1)), (Z.testbit s (4 * k + 2)),
    (Z.testbit s (4 * k + 3)); rewrite Hl, ?length_app; reflexivity.
Qed.

(** What holds of [last_non_zero_size] after [k] digits. *)
Record last_ok (s k last : Z) : Prop := {
  last_range : 1 <= last <= Z.max 1 k;
  last_zero : forall i, last <= i < k -> nib s i = 0;
  last_head : last = 1 \/ nib s (last - 1) <> 0
}.

Lemma format_loop_spec s n k format last :
  0 <= k -> 4 * (k + Z.of_nat n) <= CPU_SETSIZE -> Z.of_nat (length format) = k -> last_ok s k last ->
  exists last', format_loop (zrange (4 * k) (4 * n)) s format 0 last =
    (format ++ map hex_char (map (nib s) (zrange k n)), 0, last') /\ last_ok s (k + Z.of_nat n) last'.
Proof.
  revert k format last. induction n as [|n IH]; intros k format last Hk Hn Hl Hok.
  - exists last. rewrite Z.add_0_r. cbn. by rewrite app_nil_r.
  - replace (4 * S n)%nat with (4 + 4 * n)%nat by lia. rewrite zrange_app, format_nibble by lia.
    change (Z.of_nat 4) with 4. replace (4 * k + 4) with (4 * (k + 1)) by lia.
    edestruct (IH (k + 1) (format ++ [hex_char (nib s k)])
      (if nib s k =? 0 then last else Z.of_nat (length format) + 1)) as (last' & -> & Hok').
    + lia.
    + lia.
    + rewrite length_app. cbn [length]. lia.
    + destruct Hok as [H1 H2 H3]. destruct (Z.eqb_spec (nib s k) 0) as [Hz|Hz]; split.
      * lia.
      * intros i Hi. destruct (Z.eq_dec i k) as [->|]; [done | apply H2; lia].
      * done.
      * lia.
      * intros i Hi. lia.
      * right. by replace (Z.of_nat (length format) + 1 - 1) with k by lia.
    + exists last'. split; [by rewrite <- app_assoc|]. by replace (k + Z.of_nat (S n)) with (k + 1 + Z.of_nat n) by lia.
Qed.

Lemma cpus_nibbles : cpus = zrange (4 * 0) (4 * Z.to_nat 256).
Proof. reflexivity. Qed.

Lemma nib_top s last n :
  0 <= s < 16 ^ Z.of_nat n -> last_ok s (Z.of_nat n) last -> (1 <= n)%nat ->
  le_value (map (nib s) (zrange 0 (Z.to_nat last))) = s.
Proof.
  intros Hs [H1 H2 _] Hn.
  assert (Hfull : le_value (map (nib s) (zrange 0 n)) = s).
  { rewrite le_value_nibs by lia. rewrite Z.mul_0_r, Z.div_1_r. apply Z.mod_small, Hs. }
  replace n with (Z.to_nat last + (n - Z.to_nat last))%nat in Hfull by lia.
  rewrite zrange_app, map_app, le_value_app in Hfull.
  assert (Hz : le_value (map (nib s) (zrange (0 + Z.of_nat (Z.to_nat last)) (n - Z.to_nat last))) = 0);
    [|rewrite Hz, Z.mul_0_r, Z.add_0_r in Hfull; exact Hfull].
  apply le_value_zero, Forall_forall. intros d Hd. apply list_elem_of_fmap in Hd as (i & -> & Hi).
  apply elem_of_zrange in Hi. apply H2. lia.
Qed.

Lemma take_zrange a n m : (n <= m)%nat -> take n (zrange a m) = zrange a n.
Proof.
  intros H. replace m with (n + (m - n))%nat by lia. rewrite zrange_app.
  rewrite take_app_le by (rewrite length_zrange; lia). apply take_ge. rewrite length_zrange. lia.
Qed.

(** The printed CPU mask is the mask: for every set of the 1024 CPUs the text of
    [cpuset_format], read as a hexadecimal numeral, is the number whose bits are the CPUs,
    and it has no leading zero except for the empty set, printed as a single 0. *)
Theorem cpuset_format_hex s :
  0 <= s < 2 ^ CPU_SETSIZE ->
  hex_value (cpuset_format s) = s /\
  (length (cpuset_format s) = 1%nat \/ exists c l, cpuset_format s = c :: l /\ hex_digit c <> 0).
Proof.
  intros Hs. unfold cpuset_format. rewrite cpus_nibbles.
  destruct (format_loop_spec s (Z.to_nat 256) 0 [] 1) as (last & -> & Hok);
    [lia | unfold CPU_SETSIZE; lia | done | split; [lia | lia | by left] |].

  cbn [Z.eqb negb app]. rewrite !firstn_map.
  assert (Hl : 1 <= last <= 256) by (destruct Hok as [? _ _]; lia).
  rewrite take_zrange by lia. split.
  - rewrite hex_value_rev.
    + apply (nib_top s last (Z.to_nat 256)); [|done|lia].
      split; [lia|]. replace (16 ^ Z.of_nat (Z.to_nat 256)) with (2 ^ CPU_SETSIZE); [lia|].
      rewrite Z2Nat.id by lia. change 16 with (2 ^ 4). by rewrite <- Z.pow_mul_r by lia.
    + apply Forall_forall. intros d Hd. apply list_elem_of_fmap in Hd as (i & -> & _). apply nib_bound.
  - destruct (last_head _ _ _ Hok) as [->|Hh]; [by left|]. right.
    replace (Z.to_nat last) with (S (Z.to_nat (last - 1))) by lia.
    rewrite zrange_S_r, !map_app, rev_app_distr. cbn [map rev app].
    eexists _, _. split; [done|]. rewrite hex_digit_char by apply nib_bound.
    by replace (0 + Z.of_nat (Z.to_nat (last - 1))) with (last - 1) by lia.
Qed.

Lemma cpuset_format_hex_witness :
  hex_value (cpuset_format 0x1f0a) = 0x1f0a /\
  cpuset_format 0x1f0a = list_ascii_of_string "1F0A".
Proof.
  split; [|vm_compute; reflexivity].
  apply (cpuset_format_hex 0x1f0a). split; [lia|]. vm_compute. reflexivity.
Defined.

(** ** Addresses and modules *)

Lemma split_channel_nonempty s cur : (1 <= length (split_channel s cur))%nat.
Proof.
  revert cur. induction s as [|c s IH]; intros cur; cbn [split_channel]; [cbn; lia|].
  destruct (Ascii.eqb c ","%char); [cbn [length]; lia | apply IH].
Qed.

Lemma builtin_parity_cases x : builtin_parity x = 0 \/ builtin_parity x = 1.
Proof. unfold builtin_parity. destruct (parity_from 32 x); auto. Qed.

Lemma parity_zero : builtin_parity 0 = 0.
Proof. reflexivity. Qed.

(** What the validation guarantees of an accepted configuration. *)
Lemma validate_channels_ok channels c0 rest hash width hash' :
  channels = c0 :: rest -> (1 <= length c0)%nat ->
  validate_channels channels hash width = Some hash' ->
  exists a b, 0 <= b /\ b + 3 <= a /\ width = 2 ^ a /\ Z.of_nat (length c0) = 2 ^ b /\
    Forall (fun c => length c = length c0) channels /\
    (length channels = 1%nat /\ hash' = 0 \/ length channels = 2%nat /\ hash' = hash).
Proof.
  intros Hc H0. unfold validate_channels. rewrite Hc. rewrite <- Hc.
  destruct (Z.ltb_spec 2 (Z.of_nat (length channels))) as [|Hn]; [done|].
  destruct (forallb _ channels) eqn:Hall; [|done]. cbn [negb].
  destruct (Z.eqb_spec (Z.land (Z.of_nat (length c0)) (Z.of_nat (length c0) - 1)) 0) as [Hs|]; [|done].
  cbn [negb]. destruct (Z.ltb_spec width 16) as [|Hw]; [done|]. cbn [orb].
  destruct (Z.eqb_spec (Z.land width (width - 1)) 0) as [Hw2|]; [|done]. cbn [negb].
  destruct (Z.ltb_spec (width / Z.of_nat (length c0)) 8) as [|H8]; [done|].
  intros [= Hh]. destruct (land_pred_pow2 (Z.of_nat (length c0))) as (b & Hb & Eb); [lia | done|].
  destruct (land_pred_pow2 width) as (a & Ha & Ea); [lia | done|].
  exists a, b. split; [done|]. split; [|split; [done|split; [done|split]]].
  - rewrite Ea, Eb in H8. destruct (Z.lt_ge_cases a (b + 3)) as [Hlt|]; [|done]. exfalso.
    assert (2 ^ a < 8 * 2 ^ b).
    { change 8 with (2 ^ 3). rewrite <- Z.pow_add_r by lia. apply Z.pow_lt_mono_r; lia. }
    pose proof (Z.div_lt_upper_bound (2 ^ a) (2 ^ b) 8). pose proof (Z.pow_pos_nonneg 2 b). lia.
  - apply Forall_forall. intros c Hin. rewrite forallb_forall in Hall.
    apply Nat.eqb_eq, Hall, list_elem_of_In, Hin.
  - assert (length channels = 1 \/ length channels = 2)%nat as [E|E].
    { rewrite Hc in *. cbn [length] in *. lia. }
    + left. split; [done|]. by rewrite E in Hh.
    + right. split; [done|]. by rewrite E in Hh.
Qed.

(** The chip that holds a byte of the channel. *)
Lemma chip_index a b x :
  0 <= b -> b + 3 <= a ->
  let w := 2 ^ a / 8 / 2 ^ b in
  1 <= w /\ 2 ^ a / 8 = w * 2 ^ b /\ 0 <= (x mod (2 ^ a / 8)) / w < 2 ^ b.
Proof.
  intros Hb Ha. cbv zeta. assert (E8 : 2 ^ a / 8 = 2 ^ (a - 3)).
  { change 8 with (2 ^ 3). symmetry. apply Z.pow_sub_r; lia. }
  rewrite E8. rewrite <- Z.pow_sub_r by lia.
  pose proof (Z.pow_pos_nonneg 2 (a - 3 - b)). pose proof (Z.pow_pos_nonneg 2 (a - 3)).
  assert (Em : 2 ^ (a - 3) = 2 ^ (a - 3 - b) * 2 ^ b) by (rewrite <- Z.pow_add_r by lia; f_equal; lia).
  split; [lia|]. split; [done|]. pose proof (Z.mod_pos_bound x (2 ^ (a - 3))). split.
  - apply Z.div_pos; lia.
  - apply Z.div_lt_upper_bound; lia.
Qed.

(** Module lookup is total on accepted configurations: when [ParseArgs] accepts the
    channels given by the [--memory_channel] options, [FindDimm] never indexes outside
    its vectors; for every address it names a module of a configured channel, the one
    whose share of the channel's bytes holds the address, and with a single channel that
    channel is used. *)
Theorem FindDimm_total os args hash width hash' addr :
  args <> [] ->
  let channels := map memory_channel args in
  validate_channels channels hash width = Some hash' ->
  exists k channel chip name,
    FindDimm (SetDramMappingParams os hash' width (Some channels)) addr = Some (1, name) /\
    channels !! k = Some channel /\ channel !! Z.to_nat chip = Some name /\
    (length args = 1%nat -> k = 0%nat) /\
    let w := width / 8 / Z.of_nat (length channel) in
    1 <= w /\ 0 <= chip /\ chip * w <= addr mod (width / 8) < (chip + 1) * w.
Proof.
  intros Hne channels Hv. destruct args as [|a0 args]; [done|].
  assert (Hc : channels = memory_channel a0 :: map memory_channel args) by done.
  assert (H0 : (1 <= length (memory_channel a0))%nat) by apply split_channel_nonempty.
  destruct (validate_channels_ok _ _ _ _ _ _ Hc H0 Hv) as (a & b & Hb & Ha & Ew & Es & Hall & Hn).
  unfold FindDimm. cbn [SetDramMappingParams channels_ channel_hash_ channel_width_].
  set (par := Z.lxor _ _).
  assert (Hk : (Z.to_nat par < length channels)%nat /\ (length channels = 1%nat -> Z.to_nat par = 0%nat)).
  { destruct Hn as [[El Eh]|[El Eh]].
    - unfold par. rewrite Eh, Z.land_0_r. rewrite El. split; [|done].
      change (Z.lxor _ _) with 0. cbn. lia.
    - rewrite El. split; [|lia]. unfold par.
      destruct (builtin_parity_cases (u32 (Z.shiftr (Z.land addr hash') 32))) as [->| ->],
        (builtin_parity_cases (u32 (Z.land addr hash'))) as [->| ->];
        apply Nat.ltb_lt; reflexivity. }
  destruct Hk as [Hk Hk1]. destruct (lookup_lt_is_Some_2 channels (Z.to_nat par) Hk) as [channel Hch].
  rewrite Hch. cbn [mbind option_bind].
  assert (El : Z.of_nat (length channel) = 2 ^ b).
  { rewrite <- Es. f_equal. rewrite Forall_lookup in Hall. by apply (Hall (Z.to_nat par)). }
  destruct (chip_index a b addr Hb Ha) as (Hw & Em & Hchip). rewrite Ew, El.
  set (w := 2 ^ a / 8 / 2 ^ b) in *. set (chip := addr mod (2 ^ a / 8) / w) in *.
  destruct (lookup_lt_is_Some_2 channel (Z.to_nat chip)) as [name Hname]; [lia|].
  exists (Z.to_nat par), channel, chip, name. rewrite Hname. cbn [mbind option_bind].
  split; [done|]. split; [done|]. split; [done|]. split.
  { intros E1. apply Hk1. unfold channels. by rewrite length_map. }
  rewrite El. cbv zeta. fold w. split; [done|]. split; [lia|].
  pose proof (Z.mul_div_le (addr mod (2 ^ a / 8)) w). pose proof (Z.mul_succ_div_gt (addr mod (2 ^ a / 8)) w).
  unfold chip. lia.
Qed.

Definition sample_os : OsLayer := mkOs 0 0 1 1 4 [0] [false] None 0 0 0 0 false.

Lemma FindDimm_total_witness :
  validate_channels (map memory_channel ["DDR0,DDR1"; "DDR2,DDR3"]%string) 64 64 = Some 64 /\
  exists name, FindDimm (SetDramMappingParams sample_os 64 64
    (Some (map memory_channel ["DDR0,DDR1"; "DDR2,DDR3"]%string))) 0x45 = Some (1, name).
Proof.
  split; [reflexivity|].
  destruct (FindDimm_total sample_os ["DDR0,DDR1"; "DDR2,DDR3"]%string 64 64 64 0x45)
    as (k & channel & chip & name & H & _); [discriminate | reflexivity |].
  exists name. exact H.
Defined.

(** ** Regions and core masks *)

(** Regions are in range: for addresses below 2^60 the region number is a valid
    index, from 0 to the region count, which the first call fixes and later calls keep. *)
Theorem FindRegion_bounds os addr :
  0 <= addr < 2 ^ 60 -> 0 <= totalmemsize_ os < 2 ^ 60 ->
  (regionsize_ os = 0 \/ 512 * kMegabyte <= regionsize_ os /\ 1 <= regioncount_ os) ->
  let '(r, os') := FindRegion os addr in
  0 <= r < regioncount_ os' /\ 512 * kMegabyte <= regionsize_ os' /\
  (regionsize_ os <> 0 -> os' = os) /\ (forall a, (FindRegion os' a).2 = os').
Proof.
  intros Ha Ht Hr. unfold FindRegion. set (os1 := if regionsize_ os =? 0 then _ else os).
  assert (H1 : 512 * kMegabyte <= regionsize_ os1 /\ 1 <= regioncount_ os1 /\
               (regionsize_ os <> 0 -> os1 = os)).
  { unfold os1. destruct (Z.eqb_spec (regionsize_ os) 0) as [E|E]; [|tauto].
    cbn [set_regions regionsize_ regioncount_]. split; [|split; [|done]].
    - destruct (Z.ltb_spec (totalmemsize_ os / 8) (512 * kMegabyte)); lia.
    - destruct (Z.ltb_spec (s32 (totalmemsize_ os /
        (if totalmemsize_ os / 8 <? 512 * kMegabyte then 512 * kMegabyte else totalmemsize_ os / 8))) 1); lia. }
  destruct H1 as (H1 & H2 & H3). unfold kMegabyte in H1.
  assert (Hq : 0 <= addr / regionsize_ os1 < 2 ^ 31).
  { split; [apply Z.div_pos; lia | apply Z.div_lt_upper_bound; [lia|]]. nia. }
  rewrite s32_id by lia. split; [|split; [exact H1 | split; [exact H3|]]].
  - destruct (Z.leb_spec (regioncount_ os1) (addr / regionsize_ os1)); [|lia].
    apply Z.mod_pos_bound. lia.
  - intros a. destruct (Z.eqb_spec (regionsize_ os1) 0); [lia | done].
Qed.

Lemma FindRegion_bounds_witness :
  let '(r, os') := FindRegion (mkOs (2 ^ 33) 0 1 1 4 [0] [false] None 0 0 0 0 false) (2 ^ 32) in
  0 <= r < regioncount_ os'.
Proof.
  apply (FindRegion_bounds (mkOs (2 ^ 33) 0 1 1 4 [0] [false] None 0 0 0 0 false) (2 ^ 32));
    cbn [totalmemsize_ regionsize_ regioncount_]; [lia | lia | by left].
Defined.

(** The masks computed so far are right. *)
Record masks_ok (os : OsLayer) : Prop := {
  mk_nodes : 1 <= num_nodes_ os;
  mk_cpus : 0 <= num_cpus_per_node_ os;
  mk_sets : Z.of_nat (length (cpu_sets_ os)) = num_nodes_ os;
  mk_valid_len : Z.of_nat (length (cpu_sets_valid_ os)) = num_nodes_ os;
  mk_valid : forall r i, 0 <= r < num_nodes_ os -> aget false (cpu_sets_valid_ os) r = true ->
    0 <= i < CPU_SETSIZE ->
    CPU_ISSET i (aget 0 (cpu_sets_ os) r) =
    bool_decide (r * num_cpus_per_node_ os <= i < (r + 1) * num_cpus_per_node_ os)
}.

Lemma FindCoreMask_ok os region :
  masks_ok os -> 0 <= region ->
  let r := region mod num_nodes_ os in
  let '(mask, os') := FindCoreMask os region in
  masks_ok os' /\ num_nodes_ os' = num_nodes_ os /\ num_cpus_per_node_ os' = num_cpus_per_node_ os /\
  forall i, 0 <= i < CPU_SETSIZE ->
    CPU_ISSET i mask = bool_decide (r * num_cpus_per_node_ os <= i < (r + 1) * num_cpus_per_node_ os).
Proof.
  intros [H1 H2 H3 H4 H5] Hr. cbv zeta. unfold FindCoreMask. set (r := region mod num_nodes_ os).
  assert (Hb : 0 <= r < num_nodes_ os) by (apply Z.mod_pos_bound; lia).
  destruct (aget false (cpu_sets_valid_ os) r) eqn:Hv; cbn [negb].
  - split; [done|]. split; [done|]. split; [done|]. intros i Hi. by apply H5.
  - set (mask := fold_left _ _ _).
    assert (Hm : forall i, 0 <= i < CPU_SETSIZE -> CPU_ISSET i mask =
      bool_decide (r * num_cpus_per_node_ os <= i < (r + 1) * num_cpus_per_node_ os)).
    { intros i Hi. unfold mask. rewrite (CPU_ISSET_fold i (fun j => j + r * num_cpus_per_node_ os)) by done.
      unfold CPU_ISSET, CPU_ZERO. rewrite Z.bits_0, andb_false_r, orb_false_r.
      apply bool_decide_ext. rewrite Exists_exists. split.
      - intros (j & Hj & ->). apply elem_of_zrange in Hj. lia.
      - intros H. exists (i - r * num_cpus_per_node_ os). rewrite elem_of_zrange. lia. }
    cbn [set_cpu_set cpu_sets_ num_nodes_ num_cpus_per_node_]. rewrite aget_aset_eq by lia.
    split; [|done]. split; cbn [set_cpu_set cpu_sets_ cpu_sets_valid_ num_nodes_ num_cpus_per_node_];
      autorewrite with arr; try done.
    intros r' i Hr' Hv' Hi. destruct (Z.eq_dec r r') as [<-|Hne].
    + rewrite aget_aset_eq by lia. by apply Hm.
    + rewrite aget_aset_ne by lia. apply H5; [done | | done].
      by rewrite aget_aset_ne in Hv' by lia.
Qed.

(** Core masks partition the CPUs: the mask returned for region [r] has exactly the
    CPUs of node [r mod num_nodes_], and every CPU of the machine is in the mask of the
    region numbered by its node; the cached masks stay right. *)
Theorem FindCoreMask_partition os region :
  masks_ok os -> 0 <= region ->
  let '(mask, os') := FindCoreMask os region in
  masks_ok os' /\
  forall i, 0 <= i < CPU_SETSIZE -> 0 <= i < num_nodes_ os * num_cpus_per_node_ os ->
    (CPU_ISSET i mask = true <-> i / num_cpus_per_node_ os = region mod num_nodes_ os).
Proof.
  intros Hok Hr. pose proof (FindCoreMask_ok os region Hok Hr) as H.
  destruct (FindCoreMask os region) as [mask os']. destruct H as (H1 & _ & _ & H2).
  split; [done|]. intros i Hi Hc. rewrite H2 by done. rewrite bool_decide_eq_true.
  pose proof (mk_nodes os Hok) as Hn. pose proof (mk_cpus os Hok) as Hcp.
  set (r := region mod num_nodes_ os). clear H2.
  revert Hc Hcp. generalize (num_cpus_per_node_ os) as c. intros c Hc Hcp.
  assert (0 < c) by nia.
  pose proof (Z.div_mod i c) as Hd. pose proof (Z.mod_pos_bound i c) as Hmb. split.
  - intros [Hl Hh]. symmetry. apply (Z.div_unique i c r (i - r * c)); lia.
  - intros <-. nia.
Qed.

Lemma FindCoreMask_partition_witness :
  masks_ok (mkOs 0 0 1 2 4 [0; 0] [false; false] None 0 0 0 0 false) /\
  let '(mask, os') := FindCoreMask (mkOs 0 0 1 2 4 [0; 0] [false; false] None 0 0 0 0 false) 3 in
  masks_ok os' /\ mask = 0xf0.
Proof.
  assert (Hok : masks_ok (mkOs 0 0 1 2 4 [0; 0] [false; false] None 0 0 0 0 false)).
  { split; cbn [num_nodes_ num_cpus_per_node_ cpu_sets_ cpu_sets_valid_ length]; try lia.
    intros r i Hr Hv. exfalso. assert (r = 0 \/ r = 1) as [-> | ->] by lia; discriminate Hv. }
  split; [exact Hok|].
  destruct (FindCoreMask_partition (mkOs 0 0 1 2 4 [0; 0] [false; false] None 0 0 0 0 false) 3 Hok)
    as [H _]; [lia|].
  split; [exact H | vm_compute; reflexivity].
Defined.

(** ** Test memory *)

(** Mapping and unmapping match: for a work block inside the test memory,
    [PrepareTestMem] requests a page-aligned mapping that covers the block, returns the
    address of the block in it, and [ReleaseTestMem] given that address unmaps exactly
    that mapping.  [mmap] and [munmap] succeed: the code aborts when they do not. *)
Theorem test_mem_roundtrip os page map_at offset length :
  0 < page -> map_at <> MAP_FAILED -> 0 <= offset -> 0 <= length -> testmemsize_ os < 2 ^ 63 ->
  offset + length <= testmemsize_ os -> page < 2 ^ 62 ->
  exists addr req, PrepareTestMem os page map_at offset length = Some (addr, req) /\
      (dynamic_mapped_shmem_ os = true ->
       exists ml mo, req = Some (ml, mo) /\ mo mod page = 0 /\ mo <= offset /\
         offset + length = mo + ml /\ addr - map_at = offset - mo /\
         ReleaseTestMem os page 0 addr offset length = Some (Some (map_at, ml))) /\
      (dynamic_mapped_shmem_ os = false ->
       req = None /\ addr = testmem_ os + offset /\ ReleaseTestMem os page 0 addr offset length = Some None).
Proof.
  intros Hp Hmap Ho Hl Hs Hfit Hpg. unfold PrepareTestMem, ReleaseTestMem.
  rewrite (proj2 (Z.leb_gt page 0)), (proj2 (Z.eqb_neq map_at MAP_FAILED)) by done. cbn [Z.eqb].
  rewrite (u64_id (offset + length)) by lia.
  destruct (Z.ltb_spec (testmemsize_ os) (offset + length)); [lia|].
  pose proof (Z.mod_pos_bound offset page Hp) as Hm. pose proof (Z.mod_le offset page Ho Hp) as Hle.
  destruct (dynamic_mapped_shmem_ os); eexists _, _; (split; [reflexivity|]); split; try done.
  - intros _. replace (offset - (offset - offset mod page)) with (offset mod page) by lia.
    rewrite u64_id by lia. eexists _, _. split; [reflexivity|]. split.
    { rewrite Zminus_mod_idemp_r, Z.sub_diag. by apply Z.mod_0_l; lia. }
    split; [lia|]. split; [lia|]. split; [lia|]. do 3 f_equal. lia.
Qed.

Lemma test_mem_roundtrip_witness :
  PrepareTestMem (mkOs 0 0 1 1 4 [0] [false] None 0 0 0 65536 true) 4096 0x700000 5120 1024 =
    Some (0x700400, Some (2048, 4096)) /\
  ReleaseTestMem (mkOs 0 0 1 1 4 [0] [false] None 0 0 0 65536 true) 4096 0 0x700400 5120 1024 =
    Some (Some (0x700000, 2048)).
Proof.
  destruct (test_mem_roundtrip (mkOs 0 0 1 1 4 [0] [false] None 0 0 0 65536 true) 4096 0x700000 5120 1024)
    as (addr & req & H & Hd & _); cbn [testmemsize_ dynamic_mapped_shmem_] in *; try (unfold MAP_FAILED; lia).
  destruct (Hd eq_refl) as (ml & mo & _ & _ & _ & _ & _ & Hr).
  assert (Ha : addr = 0x700400) by (vm_compute in H; congruence).
  rewrite Ha in Hr. split; [reflexivity|]. rewrite Hr. vm_compute in Hr. congruence.
Defined.

End OsLayerFacts.
