(* ===== verification/LastTransaction.v ===== *)
(** What is said about the last use of a physical address: [ErrorLogCallback] of
    [src/src/finelock_queue.cc], which the platform may call when the hardware reports an error.

    The message is represented by the values printed in it. *)

From S2P Require Import Prelude Patterns PageQueue OsLayer FineLock.

Module LastTransaction.
Import Patterns PageQueue FineLock.

(** The name and the data of the pattern, if there is one, and the time stamp. *)
Record Message := mkMessage { last_pattern : option (string * Z); tsc : Z }.

Section Callback.
(** The page map of the process, its page size, and where [mmap] puts a block. *)
Context (pagesize : Z) (pagemap : Z -> option Z) (map_at : Z).
Context (os : OsLayer.OsLayer) (patterns : list Pattern).

(** The data word of the pattern at byte [addr_diff] of a block. *)
Definition last_data (p : Pattern) (addr_diff : Z) : Z :=
  let offset := s32 (addr_diff / 8) in
  l64 (Patterns.pattern p (u32 (Z.shiftl offset 1))) (Patterns.pattern p (u32 (Z.shiftl offset 1 + 1))).

(** [Some None] is [return false]; [None]: an assertion fails. *)
Definition ErrorLogCallback (q : FineLockPEQueue) (paddr_ : Z) : option (option Message) :=
  match GetPageFromPhysical q paddr_ with
  | None => Some None
  | Some pe =>
      let addr_diff := u64 (paddr_ - paddr pe) in
      match OsLayer.PrepareTestMem os pagesize map_at (offset pe) (page_size_ q) with
      | None => None
      | Some (vaddr, _) =>
          let new_paddr := OsLayer.VirtualToPhysical pagesize pagemap (vaddr + addr_diff) in
          if negb (new_paddr =? paddr_) then Some None
          else
            let data := p ← (lastpattern pe ≫= fun k => patterns !! Z.to_nat k); Some (name_ p, last_data p addr_diff) in
            Some (Some (mkMessage data (ts pe)))
      end
  end.
End Callback.

End LastTransaction.

Module LastTransactionFacts.
Import Patterns PatternFacts PageQueue FineLock FineLockFacts LastTransaction.

Lemma last_data_word p n diff :
  0 <= diff < 8 * Z.of_nat n -> 8 * Z.of_nat n < 2 ^ 31 -> last_data p diff = aget 0 (pattern_block p n) (diff / 8).
Proof.
  intros Hd Hn. assert (Hq : 0 <= diff / 8 < Z.of_nat n) by (split; [apply Z.div_pos; lia | apply Z.div_lt_upper_bound; lia]).
  rewrite aget_pattern_block by done. unfold last_data, pattern_word. rewrite s32_id by lia. rewrite Z.shiftl_mul_pow2 by lia.
  change (2 ^ 1) with 2. rewrite !u32_id by lia. do 2 f_equal; lia.
Qed.

(** A message describes the block that has the address: the block is found by its physical
    range, the address is where the block is mapped, the time stamp is that of the block, and
    the data is the word a fill with the pattern of the last read puts there. *)
Theorem last_transaction_truthful pagesize pagemap map_at os patterns q x msg n :
  page_size_ q = 8 * Z.of_nat n -> 8 * Z.of_nat n < 2 ^ 31 -> (forall pe, pe ∈ pages_ q -> 0 <= paddr pe < 2 ^ 63) ->
  ErrorLogCallback pagesize pagemap map_at os patterns q x = Some (Some msg) ->
  exists pe vaddr req, pe ∈ pages_ q /\ paddr pe <= x < paddr pe + page_size_ q /\
    OsLayer.PrepareTestMem os pagesize map_at (offset pe) (page_size_ q) = Some (vaddr, req) /\
    OsLayer.VirtualToPhysical pagesize pagemap (vaddr + (x - paddr pe)) = x /\
    tsc msg = ts pe /\
    forall k p, lastpattern pe = Some k -> patterns !! Z.to_nat k = Some p ->
      last_pattern msg = Some (name_ p, aget 0 (pattern_block p n) ((x - paddr pe) / 8)).
Proof.
  intros Hsize Hn Hp. unfold ErrorLogCallback, GetPageFromPhysical. destruct (List.find _ _) as [pe|] eqn:Hf; [|done].
  apply find_some in Hf as [Hin Hf]. apply list_elem_of_In in Hin.
  assert (Hpe : pe ∈ pages_ q) by (rewrite <- (take_drop (Z.to_nat (q_size_ q)) (pages_ q)); apply elem_of_app; by left).
  specialize (Hp pe Hpe). rewrite Hsize, (u64_id (8 * _)), u64_id in Hf by lia. bool_to_prop. rewrite (u64_id (x - paddr pe)) by lia.
  destruct (OsLayer.PrepareTestMem _ _ _ _ _) as [[vaddr req]|] eqn:Hv; [|done].
  destruct (Z.eqb_spec (OsLayer.VirtualToPhysical pagesize pagemap (vaddr + (x - paddr pe))) x) as [Hx|]; [|done].
  intros [= <-]. exists pe, vaddr, req. split; [done|]. split; [lia|]. do 2 (split; [done|]). split; [done|].
  intros k p Hk Hpat. cbn [last_pattern]. rewrite Hk. cbn. rewrite Hpat. cbn. do 2 f_equal. apply last_data_word; lia.
Qed.

(** An address of a physically contiguous block of one physical range is always described. *)
Theorem last_transaction_found pagesize pagemap map_at os patterns q x pe vaddr req :
  GetPageFromPhysical q x = Some pe -> 0 <= x - paddr pe < 2 ^ 64 ->
  OsLayer.PrepareTestMem os pagesize map_at (offset pe) (page_size_ q) = Some (vaddr, req) ->
  OsLayer.VirtualToPhysical pagesize pagemap (vaddr + (x - paddr pe)) = x ->
  exists msg, ErrorLogCallback pagesize pagemap map_at os patterns q x = Some (Some msg).
Proof.
  intros Hg Hd Hv Hx. unfold ErrorLogCallback. rewrite Hg, u64_id, Hv, Hx, Z.eqb_refl by lia. by eexists.
Qed.

End LastTransactionFacts.
