(* ===== verification/ErrorDiag.v ===== *)
(** The error diagnoser: [src/src/error_diag.h] and [src/src/error_diag.cc].

    A device is a tree of named sub-devices; a pointer to a device is the path of names
    that leads to it from the root.  The sub-device map is the list of its entries in key
    order.  Error instances live in a store, a device holds their indices, so that the
    severity assigned after an instance was added is the severity the device sees.  Each
    operation runs with the tree's mutex held where it touches the tree and is atomic.
    [new] never returns a null pointer.  [dimm_string] is what [FindDimm] writes for an
    address; the reports sent to [OsLayer::ErrorReport] are kept in order. *)

From Stdlib Require Import Ascii String.
From S2P Require Import Prelude.

Module ErrorDiag.

Inductive SATErrorType := SAT_ERROR_NONE | SAT_ERROR_ECC | SAT_ERROR_MISCOMPARE | SAT_ERROR_SECTOR_TAG.
Inductive SATErrorSeverity := SAT_ERROR_CORRECTABLE | SAT_ERROR_FATAL.

#[global] Instance severity_eq_dec : EqDecision SATErrorSeverity.
Proof. solve_decision. Defined.

Definition path : Type := list string.

(** The members the subclasses add. *)
Inductive Details :=
| ECCErrorInstance
| MiscompareErrorInstance (addr_ : Z)
| HDDMiscompareErrorInstance (addr_ addr2_ offset_ block_ : Z)
| HDDSectorTagErrorInstance (addr_ addr2_ sector_ block_ : Z).

Record ErrorInstance := mkInstance {
  type_ : SATErrorType; severity_ : SATErrorSeverity; causes_ : list path; details : Details
}.

#[local] Set Warnings "-register-all".

(** A device: its name, the indices of its errors, its sub-devices. *)
Inductive DeviceTree := Device (name_ : string) (errors_ : list nat)
                               (subdevices_ : list (string * DeviceTree)).

Definition errors_ (t : DeviceTree) : list nat := let 'Device _ e _ := t in e.
Definition subdevices_ (t : DeviceTree) : list (string * DeviceTree) := let 'Device _ _ s := t in s.

Definition new_DeviceTree (name : string) : DeviceTree := Device name [] [].

(** [subdevices_.find(name)]. *)
Fixpoint map_find (name : string) (subs : list (string * DeviceTree)) : option DeviceTree :=
  match subs with
  | [] => None
  | (k, d) :: subs' => if String.eqb k name then Some d else map_find name subs'
  end.

(** [subdevices_[name] = d] for an absent key, in key order. *)
Fixpoint map_insert (name : string) (d : DeviceTree) (subs : list (string * DeviceTree))
  : list (string * DeviceTree) :=
  match subs with
  | [] => [(name, d)]
  | (k, d') :: subs' =>
      if String.leb name k then (name, d) :: (k, d') :: subs' else (k, d') :: map_insert name d subs'
  end.

(** Search of the sub-trees, in key order. *)
Fixpoint UnlockedFindInSubTree (name : string) (t : DeviceTree) : option path :=
  match t with
  | Device _ _ subs =>
      match map_find name subs with
      | Some _ => Some [name]
      | None =>
          (fix search (l : list (string * DeviceTree)) : option path :=
             match l with
             | [] => None
             | (k, d) :: l' =>
                 match UnlockedFindInSubTree name d with
                 | Some p => Some (k :: p)
                 | None => search l'
                 end
             end) subs
      end
  end.

Definition FindInSubTree := UnlockedFindInSubTree.

Definition InsertSubDevice (name : string) (t : DeviceTree) : DeviceTree :=
  match UnlockedFindInSubTree name t with
  | Some _ => t
  | None => let 'Device n e subs := t in Device n e (map_insert name (new_DeviceTree name) subs)
  end.

Definition FindOrAddDevice (name : string) (t : DeviceTree) : DeviceTree * option path :=
  let t := InsertSubDevice name t in (t, FindInSubTree name t).

(** The device a pointer denotes. *)
Fixpoint device_at (t : DeviceTree) (p : path) : option DeviceTree :=
  match p with
  | [] => Some t
  | k :: p' => match map_find k (subdevices_ t) with Some d => device_at d p' | None => None end
  end.

(** A change of the device a pointer denotes. *)
Fixpoint map_update (name : string) (f : DeviceTree -> DeviceTree) (subs : list (string * DeviceTree))
  : list (string * DeviceTree) :=
  match subs with
  | [] => []
  | (k, d) :: subs' => if String.eqb k name then (k, f d) :: subs' else (k, d) :: map_update name f subs'
  end.

Fixpoint update_at (f : DeviceTree -> DeviceTree) (t : DeviceTree) (p : path) : DeviceTree :=
  match p with
  | [] => f t
  | k :: p' => let 'Device n e subs := t in Device n e (map_update k (fun d => update_at f d p') subs)
  end.

Definition push_error (i : nat) (t : DeviceTree) : DeviceTree :=
  let 'Device n e subs := t in Device n (e ++ [i]) subs.

(** [dev->AddErrorInstance(error)]. *)
Definition AddErrorInstance (t : DeviceTree) (dev : path) (i : nat) : DeviceTree :=
  update_at (push_error i) t dev.

Definition is_fatal (store : list ErrorInstance) (i : nat) : bool :=
  match store !! i with Some e => bool_decide (severity_ e = SAT_ERROR_FATAL) | None => false end.

(** [dev->KnownBad()]. *)
Definition KnownBad (store : list ErrorInstance) (t : DeviceTree) (dev : path) : bool :=
  match device_at t dev with Some d => existsb (is_fatal store) (errors_ d) | None => false end.

(** ** The diagnoser *)

Record ErrorDiag := mkDiag {
  system_tree_root_ : DeviceTree; instances : list ErrorInstance;
  external_reports : list (string * string * Z)
}.

Definition InitializeDeviceTree : ErrorDiag := mkDiag (new_DeviceTree "system_root") [] [].

Definition set_tree (d : ErrorDiag) (t : DeviceTree) : ErrorDiag :=
  mkDiag t (instances d) (external_reports d).
Definition ErrorReport (d : ErrorDiag) (part symptom : string) (count : Z) : ErrorDiag :=
  mkDiag (system_tree_root_ d) (instances d) (external_reports d ++ [(part, symptom, count)]).
Definition set_severity (d : ErrorDiag) (i : nat) (s : SATErrorSeverity) : ErrorDiag :=
  mkDiag (system_tree_root_ d)
    (alter (fun e => mkInstance (type_ e) s (causes_ e) (details e)) i (instances d))
    (external_reports d).

(** [new] of an instance and [dev->AddErrorInstance] of it. *)
Definition add_error (d : ErrorDiag) (dev : path) (e : ErrorInstance) : ErrorDiag * nat :=
  let i := List.length (instances d) in
  (mkDiag (AddErrorInstance (system_tree_root_ d) dev i) (instances d ++ [e]) (external_reports d), i).

(** [system_tree_root_->FindOrAddDevice(name)]; the search cannot fail after the
    insertion, a null pointer would be the empty path. *)
Definition find_or_add (d : ErrorDiag) (name : string) : ErrorDiag * path :=
  let '(t, p) := FindOrAddDevice name (system_tree_root_ d) in
  (set_tree d t, default [] p).

Definition AddCeccError (d : ErrorDiag) (dimm_string : string) : ErrorDiag * Z :=
  let '(d, dimm_device) := find_or_add d dimm_string in
  let '(d, _) := add_error d dimm_device
    (mkInstance SAT_ERROR_ECC SAT_ERROR_CORRECTABLE [] ECCErrorInstance) in
  (d, 0).

Definition AddUeccError (d : ErrorDiag) (dimm_string : string) : ErrorDiag * Z :=
  let '(d, dimm_device) := find_or_add d dimm_string in
  let '(d, _) := add_error d dimm_device
    (mkInstance SAT_ERROR_ECC SAT_ERROR_FATAL [] ECCErrorInstance) in
  (d, 0).

Definition AddMiscompareError (d : ErrorDiag) (dimm_string : string) (addr count : Z) : ErrorDiag * Z :=
  let '(d, dimm_device) := find_or_add d dimm_string in
  let '(d, _) := add_error d dimm_device
    (mkInstance SAT_ERROR_MISCOMPARE SAT_ERROR_FATAL [] (MiscompareErrorInstance addr)) in
  (ErrorReport d dimm_string "miscompare" count, 1).

(** One of the two blocks that consider a DIMM as the cause of a disk error: the
    diagnoser, the causes found so far, and whether the disk error is masked. *)
Definition consider_dimm (d : ErrorDiag) (dimm : string) (causes : list path) (mask_hdd_error : bool)
  : ErrorDiag * list path * bool :=
  if negb (String.eqb dimm "DIMM Unknown") then
    let '(d, dev) := find_or_add d dimm in
    let causes := if bool_decide (dev ∈ causes) then causes else causes ++ [dev] in
    (d, causes, if KnownBad (instances d) (system_tree_root_ d) dev then true else mask_hdd_error)
  else (d, causes, mask_hdd_error).

(** The common body of the two disk operations. *)
Definition add_hdd_error (d : ErrorDiag) (devicename src_dimm dst_dimm symptom : string)
    (type : SATErrorType) (det : Details) : ErrorDiag * Z :=
  let '(d, causes, mask_hdd_error) := consider_dimm d src_dimm [] false in
  let '(d, causes, mask_hdd_error) := consider_dimm d dst_dimm causes mask_hdd_error in
  let '(d, hdd_dev) := find_or_add d devicename in
  let '(d, error) := add_error d hdd_dev (mkInstance type SAT_ERROR_CORRECTABLE causes det) in
  if negb mask_hdd_error then
    (set_severity (ErrorReport d devicename symptom 1) error SAT_ERROR_FATAL, 1)
  else (d, 0).

Section Disk.
(** [AddressToDimmString(os_, addr, offset)]. *)
Context (AddressToDimmString : Z -> Z -> string).

Definition AddHDDMiscompareError (d : ErrorDiag) (devicename : string) (block offset src_addr dst_addr : Z)
  : ErrorDiag * Z :=
  add_hdd_error d devicename (AddressToDimmString src_addr offset) (AddressToDimmString dst_addr offset)
    "miscompare" SAT_ERROR_MISCOMPARE (HDDMiscompareErrorInstance src_addr dst_addr offset block).

Definition AddHDDSectorTagError (d : ErrorDiag) (devicename : string)
    (block offset sector src_addr dst_addr : Z) : ErrorDiag * Z :=
  add_hdd_error d devicename (AddressToDimmString src_addr offset) (AddressToDimmString dst_addr offset)
    "sector" SAT_ERROR_SECTOR_TAG (HDDSectorTagErrorInstance src_addr dst_addr sector block).
End Disk.

End ErrorDiag.

Module ErrorDiagFacts.
Import ErrorDiag.

(** ** The sub-device map *)

Lemma map_find_insert k name d subs :
  map_find name subs = None ->
  map_find k (map_insert name d subs) = if String.eqb name k then Some d else map_find k subs.
Proof.
  induction subs as [|[k' d'] subs IH]; cbn [map_find map_insert]; intros H; [done|].
  destruct (String.eqb k' name) eqn:E; [done|]. destruct (String.leb name k'); cbn [map_find].
  - done.
  - rewrite IH by done. destruct (String.eqb_spec k' k) as [->|]; [|done].
    destruct (String.eqb_spec name k) as [->|]; [|done]. by rewrite String.eqb_refl in E.
Qed.

Lemma map_find_update k name f subs :
  map_find k (map_update name f subs) =
  if String.eqb name k then f <$> map_find k subs else map_find k subs.
Proof.
  induction subs as [|[k' d'] subs IH]; cbn [map_find map_update].
  - by destruct (String.eqb name k).
  - destruct (String.eqb_spec k' name) as [->|Hne]; cbn [map_find].
    + by destruct (String.eqb_spec name k) as [->|].
    + rewrite IH. destruct (String.eqb_spec k' k) as [->|]; [|done].
      destruct (String.eqb_spec name k) as [->|]; done.
Qed.

Lemma map_find_elem k d subs : map_find k subs = Some d -> (k, d) ∈ subs.
Proof.
  induction subs as [|[k' d'] subs IH]; cbn [map_find]; [done|].
  destruct (String.eqb_spec k' k) as [->|]; intros H.
  - injection H as ->. by left.
  - right. by apply IH.
Qed.

Lemma map_find_keys k subs : map_find k subs <> None <-> k ∈ map fst subs.
Proof.
  induction subs as [|[k' d'] subs IH]; cbn [map_find map fst].
  - rewrite elem_of_nil. tauto.
  - rewrite elem_of_cons. destruct (String.eqb_spec k' k) as [->|Hne].
    + split; [by left | done].
    + rewrite IH. split; [by right | by intros [?|?]].
Qed.

Lemma elem_of_map_insert name d subs x :
  x ∈ map_insert name d subs <-> x = (name, d) \/ x ∈ subs.
Proof.
  induction subs as [|[k' d'] subs IH]; cbn [map_insert].
  - by rewrite list_elem_of_singleton, elem_of_nil; tauto.
  - destruct (String.leb name k'); rewrite ?elem_of_cons, ?IH; tauto.
Qed.

Lemma map_fst_insert name d subs : map fst (map_insert name d subs) ≡ₚ name :: map fst subs.
Proof.
  induction subs as [|[k' d'] subs IH]; cbn [map_insert map fst]; [done|].
  destruct (String.leb name k'); cbn [map fst]; [done|]. rewrite IH. apply Permutation_swap.
Qed.

Lemma map_fst_update name f subs : map fst (map_update name f subs) = map fst subs.
Proof.
  induction subs as [|[k' d'] subs IH]; cbn [map_update map fst]; [done|].
  destruct (String.eqb k' name); cbn [map fst]; [done | by rewrite IH].
Qed.

Lemma elem_of_map_update name f subs k d :
  (k, d) ∈ map_update name f subs -> exists d', (k, d') ∈ subs /\ (d = d' \/ d = f d').
Proof.
  induction subs as [|[k' d'] subs IH]; cbn [map_update]; [by intros ?%elem_of_nil|].
  destruct (String.eqb k' name); rewrite elem_of_cons; intros [H|H].
  - injection H as -> ->. exists d'. split; [by left | by right].
  - exists d. split; [by right | by left].
  - injection H as -> ->. exists d'. split; [by left | by left].
  - destruct (IH H) as (d'' & ? & ?). exists d''. split; [by right | done].
Qed.

Lemma NoDup_key subs k d d' :
  NoDup (map fst subs) -> (k, d) ∈ subs -> map_find k subs = Some d' -> d = d'.
Proof.
  induction subs as [|[k0 d0] subs IH]; cbn [map fst map_find]; [by intros _ ?%elem_of_nil|].
  rewrite NoDup_cons. intros [Hn Hd] Hin Hf. apply elem_of_cons in Hin as [Heq|Hin].
  - injection Heq as -> ->. rewrite String.eqb_refl in Hf. by injection Hf.
  - destruct (String.eqb_spec k0 k) as [->|]; [|by apply IH].
    exfalso. apply Hn, list_elem_of_fmap. by exists (k, d).
Qed.

(** ** Device trees *)

(** Names of siblings differ, at every level. *)
Inductive wf_tree : DeviceTree -> Prop :=
| wf_Device n e subs :
    NoDup (map fst subs) -> (forall k d, (k, d) ∈ subs -> wf_tree d) -> wf_tree (Device n e subs).

(** The search of the sub-trees, as a function of its own. *)
Fixpoint search (name : string) (l : list (string * DeviceTree)) : option path :=
  match l with
  | [] => None
  | (k, d) :: l' =>
      match UnlockedFindInSubTree name d with Some p => Some (k :: p) | None => search name l' end
  end.

Lemma Find_unfold name n e subs :
  UnlockedFindInSubTree name (Device n e subs) =
  match map_find name subs with Some _ => Some [name] | None => search name subs end.
Proof.
  cbn [UnlockedFindInSubTree]. destruct (map_find name subs); [done|].
  induction subs as [|[k d] subs IH]; cbn [search]; [done|].
  destruct (UnlockedFindInSubTree name d); [done | apply IH].
Qed.

Lemma search_Some name l p :
  search name l = Some p ->
  exists k d q, (k, d) ∈ l /\ p = k :: q /\ UnlockedFindInSubTree name d = Some q.
Proof.
  induction l as [|[k d] l IH]; cbn [search]; [done|].
  destruct (UnlockedFindInSubTree name d) as [q|] eqn:Hq; intros H.
  - injection H as <-. exists k, d, q. split; [by left | done].
  - destruct (IH H) as (k' & d' & q' & ? & ?). exists k', d', q'. split; [by right | done].
Qed.

(** A pointer that is found denotes a device, and ends with the name searched for. *)
Lemma Find_device name t p :
  wf_tree t -> UnlockedFindInSubTree name t = Some p ->
  is_Some (device_at t p) /\ last p = Some name.
Proof.
  intros Hwf. revert p. induction Hwf as [n e subs Hnd Hsub IH]. intros p. rewrite Find_unfold.
  destruct (map_find name subs) as [d|] eqn:Hm.
  - intros [= <-]. cbn [device_at subdevices_ last]. rewrite Hm. done.
  - intros (k & d & q & Hin & -> & Hq)%search_Some. destruct (IH k d Hin q Hq) as [H1 H2].
    cbn [device_at subdevices_]. destruct (map_find k subs) as [d'|] eqn:Hk.
    + rewrite <- (NoDup_key subs k d d' Hnd Hin Hk). split; [done|].
      destruct q as [|x q]; [done | exact H2].
    + exfalso. apply (proj2 (map_find_keys k subs)); [|done]. apply list_elem_of_fmap. by exists (k, d).
Qed.

Lemma wf_InsertSubDevice name t : wf_tree t -> wf_tree (InsertSubDevice name t).
Proof.
  unfold InsertSubDevice. destruct (UnlockedFindInSubTree name t) eqn:Hf; [done|].
  intros Hwf. destruct Hwf as [n e subs Hnd Hsub]. rewrite Find_unfold in Hf.
  destruct (map_find name subs) eqn:Hm; [done|]. constructor.
  - rewrite map_fst_insert. apply NoDup_cons. split; [|done].
    intros Hk. apply map_find_keys in Hk. done.
  - intros k d Hd. apply elem_of_map_insert in Hd as [[= -> ->]|Hd]; [|by apply (Hsub k)].
    constructor; [constructor | by intros ? ? ?%elem_of_nil].
Qed.

(** Looking up a device by name always succeeds and never disturbs the tree: on a
    tree whose siblings have different names [FindOrAddDevice] returns a pointer to a
    device of that name, keeps the tree well-formed, keeps every device with its errors
    at its place, returns the tree unchanged when the device was already there, and
    finds the same device when asked again. *)
Theorem FindOrAddDevice_spec name t :
  wf_tree t ->
  let '(t', r) := FindOrAddDevice name t in
  wf_tree t' /\
  (exists p, r = Some p /\ last p = Some name /\ is_Some (device_at t' p)) /\
  (forall p d, device_at t p = Some d -> exists d', device_at t' p = Some d' /\ errors_ d' = errors_ d) /\
  (is_Some (FindInSubTree name t) -> t' = t) /\
  FindOrAddDevice name t' = (t', r).
Proof.
  intros Hwf. unfold FindOrAddDevice, FindInSubTree. pose proof (wf_InsertSubDevice name t Hwf) as Hwf'.
  assert (Hp : exists p, UnlockedFindInSubTree name (InsertSubDevice name t) = Some p).
  { unfold InsertSubDevice. destruct (UnlockedFindInSubTree name t) as [p|] eqn:Hf; [by exists p|].
    destruct t as [n e subs]. rewrite Find_unfold in Hf. destruct (map_find name subs) eqn:Hm; [done|].
    exists [name]. by rewrite Find_unfold, map_find_insert, String.eqb_refl by done. }
  destruct Hp as [p Hp]. destruct (Find_device _ _ _ Hwf' Hp) as [Hd Hl]. rewrite Hp.
  split; [done|]. split; [by exists p|]. split; [|split].
  - intros q d Hq. unfold InsertSubDevice.
    destruct (UnlockedFindInSubTree name t) eqn:Hf; [by exists d|].
    destruct t as [n e subs]. rewrite Find_unfold in Hf. destruct (map_find name subs) eqn:Hm; [done|].
    destruct q as [|k q]; cbn [device_at subdevices_] in *.
    + injection Hq as <-. by eexists.
    + rewrite map_find_insert by done. destruct (String.eqb_spec name k) as [<-|]; [by rewrite Hm in Hq|].
      by exists d.
  - intros [x Hx]. unfold InsertSubDevice. by rewrite Hx.
  - assert (E : InsertSubDevice name (InsertSubDevice name t) = InsertSubDevice name t).
    { unfold InsertSubDevice at 1. by rewrite Hp. }
    by rewrite E, Hp.
Qed.

Lemma FindOrAddDevice_spec_witness :
  wf_tree (new_DeviceTree "system_root") /\
  wf_tree (FindOrAddDevice "DIMM0" (new_DeviceTree "system_root")).1.
Proof.
  assert (Hwf : wf_tree (new_DeviceTree "system_root")).
  { constructor; [constructor | intros ? ? H; by apply elem_of_nil in H]. }
  split; [exact Hwf|]. exact (proj1 (FindOrAddDevice_spec "DIMM0" (new_DeviceTree "system_root") Hwf)).
Defined.

(** ** The diagnoser as a set of bad devices *)

Abbreviation bad d k := (KnownBad (instances d) (system_tree_root_ d) [k]).

(** The tree the diagnoser builds: every device is a child of the root. *)
Record diag_inv (d : ErrorDiag) : Prop := {
  di_keys : NoDup (map fst (subdevices_ (system_tree_root_ d)));
  di_flat : forall k t, (k, t) ∈ subdevices_ (system_tree_root_ d) -> subdevices_ t = [];
  di_index : forall k t i, (k, t) ∈ subdevices_ (system_tree_root_ d) -> i ∈ errors_ t ->
               (i < length (instances d))%nat
}.

Lemma bad_unfold store root k :
  KnownBad store root [k] =
  match map_find k (subdevices_ root) with
  | Some t => existsb (is_fatal store) (errors_ t) | None => false end.
Proof. unfold KnownBad. cbn [device_at]. by destruct (map_find k _). Qed.

Lemma find_flat name t :
  (forall k d, (k, d) ∈ subdevices_ t -> subdevices_ d = []) ->
  UnlockedFindInSubTree name t =
  match map_find name (subdevices_ t) with Some _ => Some [name] | None => None end.
Proof.
  destruct t as [n e subs]. intros Hflat. rewrite Find_unfold. cbn [subdevices_] in *.
  destruct (map_find name subs); [done|]. destruct (search name subs) as [p|] eqn:Hs; [|done].
  apply search_Some in Hs as (k & d & q & Hin & _ & Hq). specialize (Hflat k d Hin).
  destruct d as [n' e' subs']. cbn [subdevices_] in Hflat. subst. discriminate Hq.
Qed.

Lemma find_or_add_flat d name :
  diag_inv d ->
  exists d', find_or_add d name = (d', [name]) /\ diag_inv d' /\
    map_find name (subdevices_ (system_tree_root_ d')) <> None /\
    instances d' = instances d /\ external_reports d' = external_reports d /\
    forall k, bad d' k = bad d k.
Proof.
  intros [H1 H2 H3]. unfold find_or_add, FindOrAddDevice, FindInSubTree, InsertSubDevice.
  rewrite find_flat by done. destruct (system_tree_root_ d) as [n e subs] eqn:Hr. cbn [subdevices_] in *.
  destruct (map_find name subs) as [t|] eqn:Hm.
  - rewrite find_flat by done. cbn [subdevices_]. rewrite Hm. cbn [default].
    exists (set_tree d (Device n e subs)). split; [done|]. cbn [set_tree system_tree_root_ subdevices_].
    split; [by split|]. split; [by rewrite Hm|]. split; [done|]. split; [done|].
    done.
  - set (t' := Device n e _).
    assert (Hflat : forall k t, (k, t) ∈ subdevices_ t' -> subdevices_ t = []).
    { intros k t Hin. apply elem_of_map_insert in Hin as [[= -> ->]|Hin]; [done | by apply (H2 k)]. }
    assert (Hf : map_find name (subdevices_ t') = Some (new_DeviceTree name)).
    { cbn [t' subdevices_]. by rewrite map_find_insert, String.eqb_refl. }
    rewrite find_flat, Hf by done. cbn [default]. exists (set_tree d t').
    split; [done|]. cbn [set_tree system_tree_root_ instances external_reports]. split; [split|].
    + cbn. rewrite map_fst_insert. apply NoDup_cons. split; [|done].
      intros Hk. by apply map_find_keys in Hk.
    + exact Hflat.
    + intros k t i Hin Hi. apply elem_of_map_insert in Hin as [[= -> ->]|Hin]; [|by apply (H3 k t)].
      by apply elem_of_nil in Hi.
    + split; [by rewrite Hf|]. split; [done|]. split; [done|]. intros k. rewrite !bad_unfold.
      cbn [set_tree system_tree_root_ instances t' subdevices_]. rewrite map_find_insert by done.
      destruct (String.eqb_spec name k) as [<-|]; [by rewrite Hm | done].
Qed.

Lemma is_fatal_app store e i :
  (i < length store)%nat -> is_fatal (store ++ [e]) i = is_fatal store i.
Proof. intros Hi. unfold is_fatal. by rewrite lookup_app_l. Qed.

Lemma is_fatal_last store e :
  is_fatal (store ++ [e]) (length store) = bool_decide (severity_ e = SAT_ERROR_FATAL).
Proof. unfold is_fatal. by rewrite lookup_app_r, Nat.sub_diag by lia. Qed.

Lemma existsb_fatal_app store e l :
  (forall i, i ∈ l -> (i < length store)%nat) ->
  existsb (is_fatal (store ++ [e])) l = existsb (is_fatal store) l.
Proof.
  induction l as [|i l IH]; intros H; [done|]. cbn [existsb].
  rewrite is_fatal_app by (apply H; by left). rewrite IH; [done|]. intros j Hj. apply H. by right.
Qed.

(** A new error makes its device bad exactly if it is fatal. *)
Lemma add_error_flat d name e :
  diag_inv d -> map_find name (subdevices_ (system_tree_root_ d)) <> None ->
  let '(d', i) := add_error d [name] e in
  i = length (instances d) /\ diag_inv d' /\ external_reports d' = external_reports d /\
  instances d' = instances d ++ [e] /\
  forall k, bad d' k = bad d k || (String.eqb name k && bool_decide (severity_ e = SAT_ERROR_FATAL)).
Proof.
  intros [H1 H2 H3] Hm. unfold add_error, AddErrorInstance.
  destruct (system_tree_root_ d) as [n er subs] eqn:Hr. cbn [subdevices_ update_at] in *.
  split; [done|]. split; [split; cbn [system_tree_root_ instances subdevices_]|].
  - by rewrite map_fst_update.
  - intros k t Hin. apply elem_of_map_update in Hin as (t' & Hin & [->| ->]); [by apply (H2 k)|].
    destruct t' as [n' e' s']. by apply (H2 k (Device n' e' s')).
  - intros k t i Hin Hi. rewrite length_app. cbn [length].
    apply elem_of_map_update in Hin as (t' & Hin & [->| ->]).
    + specialize (H3 k t' i Hin Hi). lia.
    + destruct t' as [n' e' s']. cbn [push_error errors_] in Hi. apply elem_of_app in Hi as [Hi|Hi].
      * specialize (H3 k _ i Hin Hi). lia.
      * apply list_elem_of_singleton in Hi. lia.
  - split; [done|]. split; [done|]. intros k. rewrite !bad_unfold.
    cbn [system_tree_root_ instances subdevices_]. rewrite map_find_update.
    destruct (map_find k subs) as [t|] eqn:Hk.
    + assert (Hi : forall i, i ∈ errors_ t -> (i < length (instances d))%nat).
      { intros i. by apply (H3 k t i), map_find_elem. }
      destruct (String.eqb_spec name k) as [->|]; cbn [fmap option_fmap option_map andb].
      * destruct t as [n' e' s']. cbn [update_at push_error errors_] in *.
        rewrite existsb_app. cbn [existsb]. by rewrite existsb_fatal_app, is_fatal_last, orb_false_r.
      * by rewrite existsb_fatal_app, orb_false_r.
    + destruct (String.eqb_spec name k) as [->|]; [done | done].
Qed.

(** Raising the severity afterwards is adding a fatal error. *)
Lemma set_severity_last d dev e part symptom n s :
  let '(d1, i) := add_error d dev e in
  set_severity (ErrorReport d1 part symptom n) i s =
  ErrorReport (add_error d dev (mkInstance (type_ e) s (causes_ e) (details e))).1 part symptom n.
Proof.
  unfold add_error, set_severity, ErrorReport. cbn. f_equal.
  rewrite alter_app_r_alt by lia. by rewrite Nat.sub_diag.
Qed.

Lemma consider_dimm_flat d dimm causes mask :
  diag_inv d ->
  let '(d', _, mask') := consider_dimm d dimm causes mask in
  diag_inv d' /\ external_reports d' = external_reports d /\ (forall k, bad d' k = bad d k) /\
  mask' = mask || (negb (String.eqb dimm "DIMM Unknown") && bad d dimm).
Proof.
  intros Hd. unfold consider_dimm. destruct (String.eqb dimm "DIMM Unknown"); cbn [negb andb].
  - by rewrite orb_false_r.
  - destruct (find_or_add_flat d dimm Hd) as (d' & -> & H1 & _ & _ & H2 & H3).
    split; [done|]. split; [done|]. split; [done|]. rewrite H3. destruct (bad d dimm), mask; done.
Qed.

Lemma add_hdd_error_flat d dev src dst symptom ty det :
  diag_inv d ->
  let masked := (negb (String.eqb src "DIMM Unknown") && bad d src) ||
                (negb (String.eqb dst "DIMM Unknown") && bad d dst) in
  let '(d', r) := add_hdd_error d dev src dst symptom ty det in
  diag_inv d' /\ r = (if masked then 0 else 1) /\
  external_reports d' = external_reports d ++ (if masked then [] else [(dev, symptom, 1)]) /\
  forall k, bad d' k = bad d k || (String.eqb dev k && negb masked).
Proof.
  intros Hd masked. unfold add_hdd_error.
  pose proof (consider_dimm_flat d src [] false Hd) as C1.
  destruct (consider_dimm d src [] false) as [[d1 c1] m1]. destruct C1 as (I1 & R1 & B1 & M1).
  pose proof (consider_dimm_flat d1 dst c1 m1 I1) as C2.
  destruct (consider_dimm d1 dst c1 m1) as [[d2 c2] m2]. destruct C2 as (I2 & R2 & B2 & M2).
  destruct (find_or_add_flat d2 dev I2) as (d3 & -> & I3 & F3 & _ & R3 & B3).
  assert (Em : m2 = masked). { rewrite M2, M1, B1. by unfold masked. }
  set (e := mkInstance ty SAT_ERROR_CORRECTABLE c2 det).
  pose proof (add_error_flat d3 dev e I3 F3) as A.
  pose proof (add_error_flat d3 dev (mkInstance ty SAT_ERROR_FATAL c2 det) I3 F3) as A'.
  pose proof (set_severity_last d3 [dev] e dev symptom 1 SAT_ERROR_FATAL) as S.
  destruct (add_error d3 [dev] e) as [d4 i]. destruct (add_error d3 [dev] (mkInstance ty SAT_ERROR_FATAL c2 det))
    as [d4' i'] eqn:E'. destruct A as (_ & I4 & R4 & _ & B4). destruct A' as (_ & I4' & R4' & _ & B4').
  rewrite Em. destruct masked; cbn [negb].
  - split; [done|]. split; [done|]. split; [congruence || by rewrite app_nil_r; congruence|].
    intros k. rewrite B4, B3, B2, B1. cbn. by rewrite !andb_false_r.
  - rewrite S. cbn [type_ causes_ details e]. rewrite E'. cbn [fst].
    split; [by destruct I4'; split|]. split; [done|]. split.
    + cbn [ErrorReport external_reports]. congruence.
    + intros k. change (bad (ErrorReport d4' dev symptom 1) k) with (bad d4' k).
      rewrite B4', B3, B2, B1. cbn. by rewrite !andb_true_r.
Qed.

(** The operations, the DIMM names already looked up. *)
Inductive op :=
| Cecc (dimm : string)
| Uecc (dimm : string)
| Miscompare (dimm : string) (addr count : Z)
| HDDMiscompare (dev : string) (block offset src dst : Z)
| HDDSectorTag (dev : string) (block offset sector src dst : Z).

Section Refinement.
Context (dimm_of : Z -> Z -> string).

Definition exec (d : ErrorDiag) (o : op) : ErrorDiag * Z :=
  match o with
  | Cecc s => AddCeccError d s
  | Uecc s => AddUeccError d s
  | Miscompare s a n => AddMiscompareError d s a n
  | HDDMiscompare dev b o s t => AddHDDMiscompareError dimm_of d dev b o s t
  | HDDSectorTag dev b o x s t => AddHDDSectorTagError dimm_of d dev b o x s t
  end.

(** What the diagnoser promises: a set of bad devices and a log of reports. *)
Record Spec := mkSpec { bad_devices : gset string; reported : list (string * string * Z) }.

Definition is_masked (B : gset string) (src dst : string) : bool :=
  (negb (String.eqb src "DIMM Unknown") && bool_decide (src ∈ B)) ||
  (negb (String.eqb dst "DIMM Unknown") && bool_decide (dst ∈ B)).

Definition spec_hdd (a : Spec) (dev src dst symptom : string) : Spec * Z :=
  if is_masked (bad_devices a) src dst then (a, 0)
  else (mkSpec ({[dev]} ∪ bad_devices a) (reported a ++ [(dev, symptom, 1)]), 1).

Definition spec (a : Spec) (o : op) : Spec * Z :=
  match o with
  | Cecc _ => (a, 0)
  | Uecc s => (mkSpec ({[s]} ∪ bad_devices a) (reported a), 0)
  | Miscompare s _ n => (mkSpec ({[s]} ∪ bad_devices a) (reported a ++ [(s, "miscompare"%string, n)]), 1)
  | HDDMiscompare dev _ o s t => spec_hdd a dev (dimm_of s o) (dimm_of t o) "miscompare"
  | HDDSectorTag dev _ o _ s t => spec_hdd a dev (dimm_of s o) (dimm_of t o) "sector"
  end.

Record represents (d : ErrorDiag) (a : Spec) : Prop := {
  rp_inv : diag_inv d;
  rp_bad : forall k, bad d k = bool_decide (k ∈ bad_devices a);
  rp_reports : external_reports d = reported a
}.

Lemma bool_decide_add k s (B : gset string) :
  bool_decide (k ∈ {[s]} ∪ B) = bool_decide (k ∈ B) || String.eqb s k.
Proof.
  destruct (String.eqb_spec s k) as [->|]; destruct (bool_decide_reflect (k ∈ B));
    first [apply bool_decide_true; set_solver | apply bool_decide_false; set_solver].
Qed.

Lemma hdd_represents d a dev src dst symptom ty det :
  represents d a ->
  let '(d', r) := add_hdd_error d dev src dst symptom ty det in
  let '(a', r') := spec_hdd a dev src dst symptom in
  represents d' a' /\ r = r'.
Proof.
  intros [H1 H2 H3]. pose proof (add_hdd_error_flat d dev src dst symptom ty det H1) as H. cbv zeta in H.
  rewrite !H2 in H. fold (is_masked (bad_devices a) src dst) in H. unfold spec_hdd.
  destruct (add_hdd_error d dev src dst symptom ty det) as [d' r]. destruct H as (I & -> & R & B).
  destruct (is_masked (bad_devices a) src dst); (split; [split|]); try done.
  - intros k. by rewrite B, H2, andb_false_r, orb_false_r.
  - by rewrite R, app_nil_r.
  - intros k. rewrite B, H2. cbn [bad_devices negb]. by rewrite bool_decide_add, andb_true_r.
  - rewrite R. cbn. by rewrite H3.
Qed.

(** An error on a DIMM of the tree. *)
Lemma dimm_represents d a s e :
  represents d a ->
  let '(d1, p) := find_or_add d s in
  let '(d2, _) := add_error d1 p e in
  represents d2 (mkSpec (if bool_decide (severity_ e = SAT_ERROR_FATAL) then {[s]} ∪ bad_devices a
                         else bad_devices a) (reported a)).
Proof.
  intros [H1 H2 H3]. destruct (find_or_add_flat d s H1) as (d1 & -> & I1 & F1 & _ & R1 & B1).
  pose proof (add_error_flat d1 s e I1 F1) as A. destruct (add_error d1 [s] e) as [d2 i].
  destruct A as (_ & I2 & R2 & _ & B2). split; [done| |cbn; congruence].
  intros k. rewrite B2, B1, H2. destruct (bool_decide (severity_ e = SAT_ERROR_FATAL)); cbn [bad_devices].
  - by rewrite bool_decide_add, andb_true_r.
  - by rewrite andb_false_r, orb_false_r.
Qed.

Lemma exec_represents d a o :
  represents d a ->
  represents (exec d o).1 (spec a o).1 /\ (exec d o).2 = (spec a o).2.
Proof.
  intros H. destruct o as [s|s|s ad n|dev b o s t|dev b o x s t]; cbn [exec spec].
  - unfold AddCeccError. pose proof (dimm_represents d a s
      (mkInstance SAT_ERROR_ECC SAT_ERROR_CORRECTABLE [] ECCErrorInstance) H) as D.
    destruct (find_or_add d s), (add_error _ _ _). cbn in D. by destruct a.
  - unfold AddUeccError. pose proof (dimm_represents d a s
      (mkInstance SAT_ERROR_ECC SAT_ERROR_FATAL [] ECCErrorInstance) H) as D.
    destruct (find_or_add d s), (add_error _ _ _). by cbn in D.
  - unfold AddMiscompareError. pose proof (dimm_represents d a s
      (mkInstance SAT_ERROR_MISCOMPARE SAT_ERROR_FATAL [] (MiscompareErrorInstance ad)) H) as D.
    destruct (find_or_add d s), (add_error _ _ _). destruct D as [D1 D2 D3]. split; [|done].
    split; [by destruct D1; split | done | cbn in *; by rewrite D3].
  - unfold AddHDDMiscompareError. pose proof (hdd_represents d a dev (dimm_of s o) (dimm_of t o) "miscompare"
      SAT_ERROR_MISCOMPARE (HDDMiscompareErrorInstance s t o b) H) as D.
    destruct (add_hdd_error _ _ _ _ _ _ _), (spec_hdd _ _ _ _ _). done.
  - unfold AddHDDSectorTagError. pose proof (hdd_represents d a dev (dimm_of s o) (dimm_of t o) "sector"
      SAT_ERROR_SECTOR_TAG (HDDSectorTagErrorInstance s t x b) H) as D.
    destruct (add_hdd_error _ _ _ _ _ _ _), (spec_hdd _ _ _ _ _). done.
Qed.

(** Sequences of operations and the values they return. *)
Fixpoint run {S} (f : S -> op -> S * Z) (s : S) (ops : list op) : S * list Z :=
  match ops with
  | [] => (s, [])
  | o :: ops' => let '(s, r) := f s o in let '(s, rs) := run f s ops' in (s, r :: rs)
  end.

Lemma run_represents ops d a :
  represents d a ->
  represents (run exec d ops).1 (run spec a ops).1 /\ (run exec d ops).2 = (run spec a ops).2.
Proof.
  revert d a. induction ops as [|o ops IH]; intros d a H; [done|]. cbn [run].
  destruct (exec_represents d a o H) as [H1 H2].
  destruct (exec d o) as [d' r], (spec a o) as [a' r']. cbn [fst snd] in *. subst r'.
  destruct (IH d' a' H1) as [H3 H4].
  destruct (run exec d' ops), (run spec a' ops). cbn [fst snd] in *. by subst.
Qed.

Lemma represents_init : represents InitializeDeviceTree (mkSpec ∅ []).
Proof.
  split; [split; cbn | | done].
  - constructor.
  - by intros ? ? ?%elem_of_nil.
  - by intros ? ? ? ?%elem_of_nil.
  - done.
Qed.

End Refinement.

(** C35. The diagnoser refines a set of bad devices.  Whatever sequence of operations is
    performed on a fresh diagnoser: a device is known to be bad exactly if it is in the
    set, to which uncorrectable and miscompare errors add their DIMM; a disk error is
    charged to the disk and reported externally exactly when neither the source nor the
    destination DIMM, where they can be named, is in the set; each operation returns the
    specified code; the external reports are the specified ones, in order; and a device
    once bad stays bad, since the set only grows. *)
Theorem ErrorDiag_refines dimm_of ops :
  let '(d, rs) := run (exec dimm_of) InitializeDeviceTree ops in
  let '(a, rs') := run (spec dimm_of) (mkSpec ∅ []) ops in
  rs = rs' /\ external_reports d = reported a /\
  forall k, KnownBad (instances d) (system_tree_root_ d) [k] = bool_decide (k ∈ bad_devices a).
Proof.
  destruct (run_represents dimm_of ops _ _ represents_init) as [[_ H1 H2] H3].
  destruct (run (exec dimm_of) InitializeDeviceTree ops), (run (spec dimm_of) (mkSpec ∅ []) ops). done.
Qed.

End ErrorDiagFacts.
