(* ===== verification/Diagnostics.v ===== *)
(** Run-time diagnostics: the per-phase counters of a worker and their global sum, the
    budget of detailed error lines, the write history of the work blocks and the choice of
    the blocks that are verified while filling ([src/src/worker.cc], [src/src/sat.h] and
    [src/src/sat.cc]).

    A reading of the clock and of the frequency epoch is an argument of the operation that
    takes it.  The counters of [Sat] are updated atomically or under a mutex. *)

From Stdlib Require Import Ascii String.
From S2P Require Import Prelude.

Module Diagnostics.

(** ** Phases *)

Inductive DiagnosticPhase :=
| DIAG_PHASE_PRESET_FILL | DIAG_PHASE_INITIAL_FILL | DIAG_PHASE_FILL_IMMEDIATE_CHECK
| DIAG_PHASE_POST_FILL_CHECK | DIAG_PHASE_COPY_TRANSFER | DIAG_PHASE_COPY_DESTINATION_CHECK
| DIAG_PHASE_INVERT_PRECHECK | DIAG_PHASE_INVERT_RMW | DIAG_PHASE_INVERT_POSTCHECK
| DIAG_PHASE_RUNTIME_CHECK | DIAG_PHASE_FINAL_CHECK | DIAG_PHASE_COUNT.

(** The value of the enumerator. *)
Definition phase_value (p : DiagnosticPhase) : Z :=
  match p with
  | DIAG_PHASE_PRESET_FILL => 0 | DIAG_PHASE_INITIAL_FILL => 1
  | DIAG_PHASE_FILL_IMMEDIATE_CHECK => 2 | DIAG_PHASE_POST_FILL_CHECK => 3
  | DIAG_PHASE_COPY_TRANSFER => 4 | DIAG_PHASE_COPY_DESTINATION_CHECK => 5
  | DIAG_PHASE_INVERT_PRECHECK => 6 | DIAG_PHASE_INVERT_RMW => 7
  | DIAG_PHASE_INVERT_POSTCHECK => 8 | DIAG_PHASE_RUNTIME_CHECK => 9
  | DIAG_PHASE_FINAL_CHECK => 10 | DIAG_PHASE_COUNT => 11
  end.

Definition DiagnosticPhaseName (p : DiagnosticPhase) : string :=
  match p with
  | DIAG_PHASE_PRESET_FILL => "preset_fill" | DIAG_PHASE_INITIAL_FILL => "initial_fill"
  | DIAG_PHASE_FILL_IMMEDIATE_CHECK => "fill/immediate_check"
  | DIAG_PHASE_POST_FILL_CHECK => "post_fill/full_check"
  | DIAG_PHASE_COPY_TRANSFER => "copy/transfer"
  | DIAG_PHASE_COPY_DESTINATION_CHECK => "copy/destination_check"
  | DIAG_PHASE_INVERT_PRECHECK => "invert/precheck" | DIAG_PHASE_INVERT_RMW => "invert/rmw"
  | DIAG_PHASE_INVERT_POSTCHECK => "invert/postcheck"
  | DIAG_PHASE_RUNTIME_CHECK => "check/runtime_check"
  | DIAG_PHASE_FINAL_CHECK => "check/final_check"
  | DIAG_PHASE_COUNT => "unknown"
  end%string.

(** Null pointers are [None]. *)
Definition GetDiagnosticPhase (worker_name phase : option string) : DiagnosticPhase :=
  match worker_name, phase with
  | Some w, Some ph =>
      let names a b := (String.eqb w a && String.eqb ph b)%string in
      if names "fill" "immediate_check" then DIAG_PHASE_FILL_IMMEDIATE_CHECK
      else if names "post_fill" "full_check" then DIAG_PHASE_POST_FILL_CHECK
      else if names "copy" "source_check" then DIAG_PHASE_COPY_TRANSFER
      else if names "copy" "destination_check" then DIAG_PHASE_COPY_DESTINATION_CHECK
      else if names "invert" "precheck" then DIAG_PHASE_INVERT_PRECHECK
      else if names "invert" "postcheck" then DIAG_PHASE_INVERT_POSTCHECK
      else if names "check" "runtime_check" then DIAG_PHASE_RUNTIME_CHECK
      else if names "check" "final_check" then DIAG_PHASE_FINAL_CHECK
      else DIAG_PHASE_COUNT
  | _, _ => DIAG_PHASE_COUNT
  end%string.

(** ** Counters *)

Record DiagnosticPhaseStats := mkStats {
  blocks : Z; read_bytes : Z; write_bytes : Z; checksum_mismatch_regions : Z;
  word_mismatches : Z; first_error_us : Z; first_error_epoch : Z; first_error_worker_bytes : Z
}.

Definition zero_stats : DiagnosticPhaseStats := mkStats 0 0 0 0 0 (-1) 0 0.

(** The array [InitThread] allocates when the summary is enabled. *)
Definition new_phase_stats : list DiagnosticPhaseStats := replicate 11 zero_stats.

(** [diagnostic_phase_stats_]: null, or one entry per phase. *)
Definition PhaseStats : Type := option (list DiagnosticPhaseStats).

(** The entry of [phase] replaced, unless the array is null or the phase is unknown. *)
Definition on_phase (stats : PhaseStats) (phase : DiagnosticPhase)
    (f : DiagnosticPhaseStats -> DiagnosticPhaseStats) : PhaseStats :=
  match stats with
  | None => None
  | Some l => if 11 <=? phase_value phase then Some l
              else Some (aset l (phase_value phase) (f (aget zero_stats l (phase_value phase))))
  end.

Definition note_first_error (elapsed_us epoch : Z) (s : DiagnosticPhaseStats) : DiagnosticPhaseStats :=
  mkStats (blocks s) (read_bytes s) (write_bytes s) (checksum_mismatch_regions s) (word_mismatches s)
    elapsed_us epoch (u64 (read_bytes s + write_bytes s)).

Definition record_operation (rd wr errors elapsed_us epoch : Z) (s : DiagnosticPhaseStats)
  : DiagnosticPhaseStats :=
  let s := if (0 <? errors) && (first_error_us s <? 0) then note_first_error elapsed_us epoch s else s in
  mkStats (u64 (blocks s + 1)) (u64 (read_bytes s + rd)) (u64 (write_bytes s + wr))
    (checksum_mismatch_regions s)
    (if 0 <? errors then u64 (word_mismatches s + errors) else word_mismatches s)
    (first_error_us s) (first_error_epoch s) (first_error_worker_bytes s).

Definition RecordDiagnosticOperation (stats : PhaseStats) (phase : DiagnosticPhase)
    (rd wr errors elapsed_us epoch : Z) : PhaseStats :=
  on_phase stats phase (record_operation rd wr errors elapsed_us epoch).

Definition record_checksum_mismatch (s : DiagnosticPhaseStats) : DiagnosticPhaseStats :=
  mkStats (blocks s) (read_bytes s) (write_bytes s) (u64 (checksum_mismatch_regions s + 1))
    (word_mismatches s) (first_error_us s) (first_error_epoch s) (first_error_worker_bytes s).

Definition RecordDiagnosticChecksumMismatch (stats : PhaseStats) (phase : DiagnosticPhase) : PhaseStats :=
  on_phase stats phase record_checksum_mismatch.

Definition record_first_error (elapsed_us epoch : Z) (s : DiagnosticPhaseStats) : DiagnosticPhaseStats :=
  if 0 <=? first_error_us s then s else note_first_error elapsed_us epoch s.

Definition RecordDiagnosticFirstError (stats : PhaseStats) (phase : DiagnosticPhase)
    (elapsed_us epoch : Z) : PhaseStats :=
  on_phase stats phase (record_first_error elapsed_us epoch).

(** *** The global sum *)

Definition merge_phase (total s : DiagnosticPhaseStats) : DiagnosticPhaseStats :=
  let earlier := (0 <=? first_error_us s) &&
                 ((first_error_us total <? 0) || (first_error_us s <? first_error_us total)) in
  mkStats (u64 (blocks total + blocks s)) (u64 (read_bytes total + read_bytes s))
    (u64 (write_bytes total + write_bytes s))
    (u64 (checksum_mismatch_regions total + checksum_mismatch_regions s))
    (u64 (word_mismatches total + word_mismatches s))
    (if earlier then first_error_us s else first_error_us total)
    (if earlier then first_error_epoch s else first_error_epoch total)
    (if earlier then first_error_worker_bytes s else first_error_worker_bytes total).

Definition MergeDiagnosticPhaseStats (diag_phase_summary : bool) (total : list DiagnosticPhaseStats)
    (stats : PhaseStats) (count : Z) : list DiagnosticPhaseStats :=
  if negb diag_phase_summary then total
  else match stats with
       | None => total
       | Some l =>
           let limit := if count <? 11 then count else 11 in
           fold_left (fun total i => aset total i (merge_phase (aget zero_stats total i) (aget zero_stats l i)))
             (zrange 0 (Z.to_nat limit)) total
       end.

(** The worker's flag and the global totals. *)
Definition PublishDiagnosticStats (diag_phase_summary published : bool) (stats : PhaseStats)
    (total : list DiagnosticPhaseStats) : bool * list DiagnosticPhaseStats :=
  if published || bool_decide (stats = None) then (published, total)
  else (true, MergeDiagnosticPhaseStats diag_phase_summary total stats 11).

(** ** The budget of detailed error lines *)

Record ErrorLog := mkErrorLog {
  error_log_attempted_ : Z; error_log_detailed_ : Z; error_log_suppressed_ : Z
}.

Definition ClaimDetailedErrorLog (error_log_limit_ : Z) (l : ErrorLog) : bool * ErrorLog :=
  if error_log_limit_ <? 0 then (true, l)
  else
    let index := error_log_attempted_ l in
    let attempted := u64 (index + 1) in
    if index <? error_log_limit_
    then (true, mkErrorLog attempted (u64 (error_log_detailed_ l + 1)) (error_log_suppressed_ l))
    else (false, mkErrorLog attempted (error_log_detailed_ l) (u64 (error_log_suppressed_ l + 1))).

(** ** Write history *)

Inductive BlockWriter :=
| BLOCK_WRITER_UNKNOWN | BLOCK_WRITER_PRESET | BLOCK_WRITER_INITIAL_FILL | BLOCK_WRITER_COPY
| BLOCK_WRITER_INVERT | BLOCK_WRITER_REPAIR | BLOCK_WRITER_FILE | BLOCK_WRITER_NETWORK.

Record BlockHistory := mkHistory {
  generation : Z; write_complete_us : Z; frequency_epoch_begin : Z; frequency_epoch_end : Z;
  writer_thread : Z; writer_cpu : Z; writer : BlockWriter
}.

Definition new_history : BlockHistory := mkHistory 0 (-1) 0 0 (-1) (-1) BLOCK_WRITER_UNKNOWN.

(** The block an offset belongs to, if it is tracked: [diag_block_history_] is set, the
    array is there and the block exists. *)
Definition history_block (diag_block_history : bool) (page_length pages page_offset : Z)
    (history : option (list BlockHistory)) : option (list BlockHistory * Z) :=
  match history with
  | Some h =>
      if negb diag_block_history || (page_length <=? 0) then None
      else let block := page_offset / page_length in
           if u64 pages <=? block then None else Some (h, block)
  | None => None
  end.

Definition RecordBlockWrite (diag_block_history : bool) (page_length pages : Z)
    (history : option (list BlockHistory)) (page_offset : Z) (w : BlockWriter)
    (thread cpu epoch_begin epoch_end now_us : Z) : option (list BlockHistory) :=
  match history_block diag_block_history page_length pages page_offset history with
  | None => history
  | Some (h, block) =>
      let old := aget new_history h block in
      Some (aset h block (mkHistory (u64 (generation old + 1)) now_us epoch_begin epoch_end thread cpu w))
  end.

Definition writer_name (w : BlockWriter) : string :=
  match w with
  | BLOCK_WRITER_UNKNOWN => "unknown" | BLOCK_WRITER_PRESET => "preset"
  | BLOCK_WRITER_INITIAL_FILL => "initial_fill" | BLOCK_WRITER_COPY => "copy"
  | BLOCK_WRITER_INVERT => "invert" | BLOCK_WRITER_REPAIR => "repair"
  | BLOCK_WRITER_FILE => "file" | BLOCK_WRITER_NETWORK => "network"
  end%string.

(** The fields [FormatBlockHistory] prints: writer, generation, thread, CPU, age, the two
    epochs and the span; [None] for [return false]. *)
Definition FormatBlockHistory (diag_block_history : bool) (page_length pages : Z)
    (history : option (list BlockHistory)) (page_offset now_us : Z)
  : option (string * Z * Z * Z * Z * Z * Z * string) :=
  match history_block diag_block_history page_length pages page_offset history with
  | None => None
  | Some (h, block) =>
      let e := aget new_history h block in
      let age_us := if 0 <=? write_complete_us e then now_us - write_complete_us e else -1 in
      let span := if frequency_epoch_begin e =? frequency_epoch_end e then "single"%string else "mixed"%string in
      Some (writer_name (writer e), generation e, writer_thread e, writer_cpu e, age_us,
            frequency_epoch_begin e, frequency_epoch_end e, span)
  end.

(** ** Blocks verified while filling *)

Definition ShouldVerifyFilledPage (fill_verify_every page_length page_offset : Z) : bool :=
  if fill_verify_every <=? 0 then false
  else
    let block_number := u64 (page_offset / page_length + 1) in
    block_number mod fill_verify_every =? 0.

End Diagnostics.

Module DiagnosticsFacts.
Import Diagnostics.

(** ** The log budget *)

(** [n] claims, one after the other. *)
Fixpoint claims (limit : Z) (n : nat) (l : ErrorLog) : list bool * ErrorLog :=
  match n with
  | O => ([], l)
  | S n' => let '(b, l) := ClaimDetailedErrorLog limit l in
            let '(bs, l) := claims limit n' l in (b :: bs, l)
  end.

Lemma claims_limited limit n k :
  0 <= limit -> 0 <= k -> k + Z.of_nat n < 2 ^ 64 ->
  claims limit n (mkErrorLog k (Z.min k limit) (k - Z.min k limit)) =
  (replicate (Z.to_nat (Z.min (k + Z.of_nat n) limit - Z.min k limit)) true ++
   replicate (Z.to_nat ((k + Z.of_nat n - Z.min (k + Z.of_nat n) limit) - (k - Z.min k limit))) false,
   mkErrorLog (k + Z.of_nat n) (Z.min (k + Z.of_nat n) limit)
     (k + Z.of_nat n - Z.min (k + Z.of_nat n) limit)).
Proof.
  intros Hl. revert k. induction n as [|n IH]; intros k Hk Hn.
  - cbn [claims]. rewrite !Z.add_0_r, !Z.sub_diag. done.
  - cbn [claims]. unfold ClaimDetailedErrorLog.
    destruct (Z.ltb_spec limit 0); [lia|]. cbn [error_log_attempted_ error_log_detailed_ error_log_suppressed_].
    assert (E : Z.of_nat (S n) = Z.of_nat n + 1) by lia.
    destruct (Z.ltb_spec k limit).
    + rewrite (u64_id (k + 1)), (u64_id (Z.min k limit + 1)) by lia.
      replace (Z.min k limit + 1) with (Z.min (k + 1) limit) by lia.
      replace (k - Z.min k limit) with (k + 1 - Z.min (k + 1) limit) by lia.
      rewrite IH by lia. replace (k + 1 + Z.of_nat n) with (k + Z.of_nat (S n)) by lia.
      replace (Z.to_nat (Z.min (k + Z.of_nat (S n)) limit - Z.min k limit))
        with (S (Z.to_nat (Z.min (k + Z.of_nat (S n)) limit - Z.min (k + 1) limit))) by lia. done.
    + rewrite (u64_id (k + 1)), (u64_id (k - Z.min k limit + 1)) by lia.
      replace (k - Z.min k limit + 1) with (k + 1 - Z.min (k + 1) limit) by lia.
      replace (Z.min k limit) with (Z.min (k + 1) limit) at 1 by lia.
      rewrite IH by lia. replace (k + 1 + Z.of_nat n) with (k + Z.of_nat (S n)) by lia.
      replace (Z.to_nat (Z.min (k + Z.of_nat (S n)) limit - Z.min (k + 1) limit)) with O by lia.
      replace (Z.to_nat (Z.min (k + Z.of_nat (S n)) limit - Z.min k limit)) with O by lia.
      replace (Z.to_nat (k + Z.of_nat (S n) - Z.min (k + Z.of_nat (S n)) limit - (k - Z.min k limit)))
        with (S (Z.to_nat (k + Z.of_nat (S n) - Z.min (k + Z.of_nat (S n)) limit - (k + 1 - Z.min (k + 1) limit)))) by lia.
      done.
Qed.

(** The budget of detailed error lines is exact.  With a limit of [L] the first [L]
    claims are granted and all later ones refused, and the three counters say so: all
    claims attempted, the granted ones detailed, the others suppressed.  Without a limit
    every claim is granted and nothing is counted. *)
Theorem ClaimDetailedErrorLog_budget limit n :
  Z.of_nat n < 2 ^ 64 ->
  let granted := if limit <? 0 then n else Nat.min n (Z.to_nat limit) in
  claims limit n (mkErrorLog 0 0 0) =
  (replicate granted true ++ replicate (n - granted) false,
   if limit <? 0 then mkErrorLog 0 0 0
   else mkErrorLog (Z.of_nat n) (Z.of_nat granted) (Z.of_nat (n - granted))).
Proof.
  intros Hn. cbv zeta. destruct (Z.ltb_spec limit 0) as [Hl|Hl].
  - rewrite Nat.sub_diag, app_nil_r. clear Hn. induction n as [|n IH]; [done|].
    cbn [claims]. unfold ClaimDetailedErrorLog. destruct (Z.ltb_spec limit 0); [|lia]. by rewrite IH.
  - pose proof (claims_limited limit n 0 Hl) as H.
    replace (mkErrorLog 0 (Z.min 0 limit) (0 - Z.min 0 limit)) with (mkErrorLog 0 0 0) in H by (f_equal; lia).
    rewrite H by lia. f_equal; [f_equal; f_equal; lia | f_equal; lia].
Qed.

Lemma ClaimDetailedErrorLog_budget_witness :
  claims 2 5 (mkErrorLog 0 0 0) = ([true; true; false; false; false], mkErrorLog 5 2 3).
Proof. apply (ClaimDetailedErrorLog_budget 2 5). lia. Defined.

(** ** The global sum *)

Abbreviation phase_of l i := (aget zero_stats l i).

Definition merged (total : list DiagnosticPhaseStats) (ws : list (list DiagnosticPhaseStats))
  : list DiagnosticPhaseStats :=
  fold_left (fun t w => MergeDiagnosticPhaseStats true t (Some w) 11) ws total.

Lemma merge_fold l n total i :
  Z.of_nat n <= Z.of_nat (length total) -> 0 <= i ->
  length (fold_left (fun t j => aset t j (merge_phase (phase_of t j) (phase_of l j))) (zrange 0 n) total) =
    length total /\
  phase_of (fold_left (fun t j => aset t j (merge_phase (phase_of t j) (phase_of l j))) (zrange 0 n) total) i =
  if i <? Z.of_nat n then merge_phase (phase_of total i) (phase_of l i) else phase_of total i.
Proof.
  intros Hn Hi. induction n as [|n IH].
  - split; [done|]. by destruct (Z.ltb_spec i (Z.of_nat 0)); [lia|].
  - rewrite zrange_S_r, fold_left_app. cbn [fold_left]. rewrite Z.add_0_l.
    destruct IH as [IH1 IH2]; [lia|]. split; [by rewrite length_aset|].
    destruct (Z.eq_dec i (Z.of_nat n)) as [->|Hne].
    + rewrite aget_aset_eq by (rewrite IH1; lia). rewrite IH2.
      destruct (Z.ltb_spec (Z.of_nat n) (Z.of_nat n)), (Z.ltb_spec (Z.of_nat n) (Z.of_nat (S n))); try lia. done.
    + rewrite aget_aset_ne by lia. rewrite IH2.
      destruct (Z.ltb_spec i (Z.of_nat n)), (Z.ltb_spec i (Z.of_nat (S n))); try lia; done.
Qed.

Lemma Merge_phase total w i :
  length total = 11%nat -> 0 <= i < 11 ->
  length (MergeDiagnosticPhaseStats true total (Some w) 11) = 11%nat /\
  phase_of (MergeDiagnosticPhaseStats true total (Some w) 11) i =
  merge_phase (phase_of total i) (phase_of w i).
Proof.
  intros Hl Hi. unfold MergeDiagnosticPhaseStats. cbn [negb]. change (11 <? 11) with false. cbv iota.
  destruct (merge_fold w (Z.to_nat 11) total i) as [H1 H2]; [lia | lia|].
  rewrite H1, H2. split; [done|]. by destruct (Z.ltb_spec i (Z.of_nat (Z.to_nat 11))); [|lia].
Qed.

Lemma merged_phase ws total i :
  length total = 11%nat -> 0 <= i < 11 ->
  phase_of (merged total ws) i = fold_left merge_phase (map (fun w => phase_of w i) ws) (phase_of total i).
Proof.
  intros Hl Hi. revert total Hl. induction ws as [|w ws IH]; intros total Hl; [done|].
  destruct (Merge_phase total w i Hl Hi) as [H1 H2]. cbn [merged fold_left map].
  change (fold_left _ ws ?t) with (merged t ws). rewrite IH by done. by rewrite H2.
Qed.

(** The earliest of the times that are set; -1 if there is none. *)
Definition earliest (a b : Z) : Z := if (0 <=? b) && ((a <? 0) || (b <? a)) then b else a.
Definition sum (l : list Z) : Z := fold_left Z.add l 0.

Lemma fold_u64 (f : DiagnosticPhaseStats -> Z) ss t :
  (forall a b, f (merge_phase a b) = u64 (f a + f b)) ->
  0 <= f t < 2 ^ 64 ->
  f (fold_left merge_phase ss t) = u64 (fold_left Z.add (map f ss) (f t)).
Proof.
  intros Hf. revert t. induction ss as [|s ss IH]; intros t Ht; cbn [fold_left map].
  - by rewrite u64_id.
  - rewrite IH by (rewrite Hf; apply u64_bound). rewrite Hf.
    assert (Hadd : forall l a, u64 (fold_left Z.add l (u64 a)) = u64 (fold_left Z.add l a)).
    { clear. intros l a. revert a. induction l as [|x l IH]; intros a; cbn [fold_left].
      - unfold u64. by rewrite Z.mod_mod by lia.
      - rewrite <- (IH (u64 a + x)), <- (IH (a + x)). unfold u64. by rewrite Zplus_mod_idemp_l. }
    apply Hadd.
Qed.

Lemma fold_earliest ss t :
  first_error_us (fold_left merge_phase ss t) = fold_left earliest (map first_error_us ss) (first_error_us t).
Proof. revert t. induction ss as [|s ss IH]; intros t; cbn [fold_left map]; [done|]. by rewrite IH. Qed.

Lemma fold_earliest_spec l a :
  -1 <= a -> Forall (fun x => -1 <= x) l ->
  let m := fold_left earliest l a in
  m ∈ a :: l /\ -1 <= m /\ (m = -1 -> Forall (fun x => x = -1) (a :: l)) /\
  (0 <= m -> Forall (fun x => 0 <= x -> m <= x) (a :: l)).
Proof.
  cbv zeta. intros Ha Hl. revert a Ha. induction Hl as [|x l Hx Hl IH]; intros a Ha.
  - cbn. rewrite list_elem_of_singleton, !Forall_singleton. lia.
  - cbn [fold_left]. assert (He : earliest a x = a \/ earliest a x = x).
    { unfold earliest. case_if_eqn; auto. }
    destruct (IH (earliest a x)) as (H1 & H2 & H3 & H4); [destruct He as [-> | ->]; done|].
    revert H1 H2 H3 H4. generalize (fold_left earliest l (earliest a x)) as m. intros m H1 H2 H3 H4.
    rewrite !Forall_cons in *. split; [|split; [done|split]].
    + rewrite !elem_of_cons in *. destruct H1 as [->|]; [|tauto]. destruct He as [-> | ->]; tauto.
    + intros Hm. destruct (H3 Hm) as [K1 K2]. revert K1. unfold earliest.
      destruct (Z.leb_spec 0 x), (Z.ltb_spec a 0), (Z.ltb_spec x a); cbn; intros; repeat split; done || lia.
    + intros Hm. destruct (H4 Hm) as [K1 K2]. revert K1. unfold earliest.
      destruct (Z.leb_spec 0 x), (Z.ltb_spec a 0), (Z.ltb_spec x a); cbn; intros; repeat split; done || lia.
Qed.

(** The global summary is the sum of the workers.  Whatever the order in which the
    workers' counters are merged into zeroed totals, each phase's counters are the sums
    over the workers (as 64-bit numbers) and its first error time is the earliest one any
    worker recorded, or -1 if none did. *)
Theorem MergeDiagnosticPhaseStats_sum ws i :
  0 <= i < 11 -> Forall (fun w => -1 <= first_error_us (phase_of w i)) ws ->
  let t := phase_of (merged new_phase_stats ws) i in
  let col f := map (fun w => f (phase_of w i)) ws in
  blocks t = u64 (sum (col blocks)) /\ read_bytes t = u64 (sum (col read_bytes)) /\
  write_bytes t = u64 (sum (col write_bytes)) /\
  checksum_mismatch_regions t = u64 (sum (col checksum_mismatch_regions)) /\
  word_mismatches t = u64 (sum (col word_mismatches)) /\
  (first_error_us t = -1 -> Forall (fun x => x = -1) (col first_error_us)) /\
  (0 <= first_error_us t -> first_error_us t ∈ col first_error_us /\
     Forall (fun x => 0 <= x -> first_error_us t <= x) (col first_error_us)).
Proof.
  intros Hi Hw. cbv zeta. rewrite merged_phase by done.
  assert (E0 : phase_of new_phase_stats i = zero_stats).
  { unfold aget, new_phase_stats. destruct (nth_in_or_default (Z.to_nat i) (replicate 11 zero_stats) zero_stats) as [H|H];
      [|done]. by apply list_elem_of_In, elem_of_replicate in H as [-> _]. }
  rewrite E0. set (ss := map _ ws).
  assert (Hsum : forall f, (forall a b, f (merge_phase a b) = u64 (f a + f b)) -> f zero_stats = 0 ->
    f (fold_left merge_phase ss zero_stats) = u64 (sum (map (fun w => f (phase_of w i)) ws))).
  { intros f Hf H0. rewrite (fold_u64 f) by (done || rewrite H0; lia). rewrite H0.
    unfold sum, ss. by rewrite map_map. }
  do 5 (split; [by apply Hsum|]). rewrite fold_earliest.
  replace (map first_error_us ss) with (map (fun w => first_error_us (phase_of w i)) ws)
    by (unfold ss; by rewrite map_map).
  destruct (fold_earliest_spec (map (fun w => first_error_us (phase_of w i)) ws) (-1)) as (H1 & H2 & H3 & H4).
  - lia.
  - by apply Forall_fmap.
  - change (first_error_us zero_stats) with (-1). rewrite !Forall_cons in *. split.
    + intros Hm. by apply H3.
    + intros Hm. split; [|by apply H4]. apply elem_of_cons in H1 as [H1|H1]; [lia | done].
Qed.

Lemma MergeDiagnosticPhaseStats_sum_witness :
  blocks (phase_of (merged new_phase_stats
    [replicate 11 (mkStats 3 0 0 0 1 50 2 0); replicate 11 (mkStats 4 0 0 0 1 20 1 0)]) 4) = 7.
Proof.
  destruct (MergeDiagnosticPhaseStats_sum
    [replicate 11 (mkStats 3 0 0 0 1 50 2 0); replicate 11 (mkStats 4 0 0 0 1 20 1 0)] 4) as [H _].
  - lia.
  - repeat constructor; discriminate.
  - rewrite H. reflexivity.
Defined.

(** ** The first error of a worker *)

(** What a worker records in a phase, with the clock and epoch it reads. *)
Inductive event :=
| Operation (rd wr errors elapsed_us epoch : Z)
| Mismatch
| FirstError (elapsed_us epoch : Z).

Definition apply_event (s : DiagnosticPhaseStats) (e : event) : DiagnosticPhaseStats :=
  match e with
  | Operation rd wr errors us ep => record_operation rd wr errors us ep s
  | Mismatch => record_checksum_mismatch s
  | FirstError us ep => record_first_error us ep s
  end.

(** The clock and epoch of an event that is an error. *)
Definition error_of (e : event) : option (Z * Z) :=
  match e with
  | Operation _ _ errors us ep => if 0 <? errors then Some (us, ep) else None
  | Mismatch => None
  | FirstError us ep => Some (us, ep)
  end.

Definition event_bytes (e : event) : Z :=
  match e with Operation rd wr _ _ _ => rd + wr | _ => 0 end.

Lemma event_once s e :
  0 <= first_error_us s ->
  first_error_us (apply_event s e) = first_error_us s /\
  first_error_epoch (apply_event s e) = first_error_epoch s /\
  first_error_worker_bytes (apply_event s e) = first_error_worker_bytes s.
Proof.
  intros H. destruct e as [rd wr er us ep| |us ep]; cbn [apply_event].
  - unfold record_operation. destruct (Z.ltb_spec (first_error_us s) 0); [lia|]. by rewrite andb_false_r.
  - done.
  - unfold record_first_error. by destruct (Z.leb_spec 0 (first_error_us s)); [|lia].
Qed.

Lemma events_once es s :
  0 <= first_error_us s ->
  first_error_us (fold_left apply_event es s) = first_error_us s /\
  first_error_epoch (fold_left apply_event es s) = first_error_epoch s /\
  first_error_worker_bytes (fold_left apply_event es s) = first_error_worker_bytes s.
Proof.
  revert s. induction es as [|e es IH]; intros s H; [done|]. cbn [fold_left].
  destruct (event_once s e H) as (H1 & H2 & H3).
  destruct (IH (apply_event s e)) as (K1 & K2 & K3); [lia|]. rewrite K1, K2, K3. done.
Qed.

Lemma event_clean s e :
  error_of e = None -> first_error_us s = -1 ->
  first_error_us (apply_event s e) = -1 /\
  u64 (read_bytes (apply_event s e) + write_bytes (apply_event s e)) =
  u64 (read_bytes s + write_bytes s + event_bytes e).
Proof.
  destruct e as [rd wr er us ep| |us ep]; cbn [error_of apply_event event_bytes]; [| |done].
  - destruct (Z.ltb_spec 0 er) as [|Her]; [done|]. intros _ Hs. unfold record_operation.
    destruct (Z.ltb_spec 0 er); [lia|]. cbn. split; [done|]. unfold u64.
    rewrite <- Zplus_mod. f_equal. lia.
  - intros _ Hs. rewrite Z.add_0_r. done.
Qed.

Lemma events_clean es s :
  Forall (fun e => error_of e = None) es -> first_error_us s = -1 ->
  first_error_us (fold_left apply_event es s) = -1 /\
  u64 (read_bytes (fold_left apply_event es s) + write_bytes (fold_left apply_event es s)) =
  u64 (read_bytes s + write_bytes s + sum (map event_bytes es)).
Proof.
  intros Hes. revert s. induction Hes as [|e es He _ IH]; intros s Hs.
  - cbn. by rewrite Z.add_0_r.
  - cbn [fold_left map]. destruct (event_clean s e He Hs) as [H1 H2]. destruct (IH _ H1) as [K1 K2].
    split; [done|]. rewrite K2. unfold sum. cbn [fold_left]. rewrite Z.add_0_l.
    assert (Hs2 : forall l a, fold_left Z.add l a = a + fold_left Z.add l 0).
    { clear. induction l as [|x l IH]; intros a; cbn [fold_left]; [lia|]. rewrite IH, (IH (0 + x)). lia. }
    rewrite (Hs2 _ (event_bytes e)). unfold u64 in *. rewrite <- Zplus_mod_idemp_l, H2, Zplus_mod_idemp_l.
    f_equal. lia.
Qed.

(** The first error of a phase is recorded once and truthfully.  After any sequence
    of events in which [e] is the first that is an error, the recorded time and epoch are
    those [e] read, and the recorded amount of work is the bytes of the operations
    completed before it; nothing later changes them. *)
Theorem first_error_recorded before e after us ep :
  Forall (fun e => error_of e = None) before -> error_of e = Some (us, ep) -> 0 <= us ->
  let s := fold_left apply_event (before ++ e :: after) zero_stats in
  first_error_us s = us /\ first_error_epoch s = ep /\
  first_error_worker_bytes s = u64 (sum (map event_bytes before)).
Proof.
  intros Hb He Hus. cbv zeta. rewrite fold_left_app. cbn [fold_left].
  destruct (events_clean before zero_stats Hb eq_refl) as [H1 H2]. cbn [zero_stats read_bytes write_bytes] in H2.
  rewrite !Z.add_0_l in H2. set (s := fold_left apply_event before zero_stats) in *.
  assert (K : first_error_us (apply_event s e) = us /\ first_error_epoch (apply_event s e) = ep /\
              first_error_worker_bytes (apply_event s e) = u64 (read_bytes s + write_bytes s)).
  { destruct e as [rd wr er us' ep'| |us' ep']; cbn [error_of apply_event] in *; [| done |].
    - destruct (Z.ltb_spec 0 er) as [Her|]; [|done]. injection He as -> ->. unfold record_operation.
      destruct (Z.ltb_spec 0 er); [|lia]. rewrite H1. done.
    - injection He as -> ->. unfold record_first_error. rewrite H1. done. }
  destruct K as (K1 & K2 & K3). destruct (events_once after (apply_event s e)) as (L1 & L2 & L3); [lia|].
  rewrite L1, L2, L3, K1, K2, K3. done.
Qed.

Lemma first_error_recorded_witness :
  first_error_worker_bytes (fold_left apply_event
    ([Operation 100 50 0 7 1; Mismatch] ++ FirstError 9 2 :: [Operation 100 50 3 12 2]) zero_stats) = 150.
Proof.
  destruct (first_error_recorded [Operation 100 50 0 7 1; Mismatch] (FirstError 9 2)
    [Operation 100 50 3 12 2] 9 2) as (_ & _ & H).
  - repeat constructor.
  - reflexivity.
  - lia.
  - rewrite H. reflexivity.
Defined.

(** ** Blocks verified while filling *)

(** Verification while filling is deterministic and evenly spaced: for work blocks
    numbered from 0 by their offset, block [k] is verified exactly if [k + 1] is a
    multiple of the interval, so that each window of that many blocks has exactly one;
    an interval of 0 verifies nothing. *)
Theorem ShouldVerifyFilledPage_every every page_length k :
  0 < page_length -> 0 <= k < 2 ^ 64 - 1 ->
  ShouldVerifyFilledPage every page_length (k * page_length) = true <->
  0 < every /\ exists q, k + 1 = q * every.
Proof.
  intros Hp Hk. unfold ShouldVerifyFilledPage. rewrite Z.div_mul by lia.
  destruct (Z.leb_spec every 0) as [|He]; [split; [done | lia]|].
  rewrite u64_id, Z.eqb_eq by lia. split.
  - intros H. split; [done|]. exists ((k + 1) / every). rewrite (Z.div_mod (k + 1) every) at 1 by lia. lia.
  - intros [_ [q ->]]. apply Z.mod_mul. lia.
Qed.

Lemma ShouldVerifyFilledPage_every_witness :
  ShouldVerifyFilledPage 4 1048576 (7 * 1048576) = true.
Proof.
  apply (ShouldVerifyFilledPage_every 4 1048576 7); [lia | lia |]. split; [lia|]. exists 2. lia.
Defined.

(** ** Write history *)

Record write := mkWrite { w_offset : Z; w_writer : BlockWriter; w_thread : Z; w_cpu : Z; w_begin : Z; w_end : Z; w_now : Z }.

Section History.
Context (page_length pages : Z) (Hp : 0 < page_length) (Hpages : 0 <= pages < 2 ^ 63).

Definition record_write (h : option (list BlockHistory)) (w : write) : option (list BlockHistory) :=
  RecordBlockWrite true page_length pages h (w_offset w) (w_writer w) (w_thread w) (w_cpu w)
    (w_begin w) (w_end w) (w_now w).

(** The writes, among [ws], to block [b]. *)
Definition writes_to (b : Z) (ws : list write) : list write :=
  filter (fun w => w_offset w / page_length = b) ws.

Definition entry_of (b : Z) (ws : list write) : BlockHistory :=
  match last (writes_to b ws) with
  | None => new_history
  | Some w => mkHistory (u64 (Z.of_nat (length (writes_to b ws)))) (w_now w) (w_begin w) (w_end w)
                (w_thread w) (w_cpu w) (w_writer w)
  end.

Lemma writes_to_snoc b ws w :
  writes_to b (ws ++ [w]) = writes_to b ws ++ (if decide (w_offset w / page_length = b) then [w] else []).
Proof. unfold writes_to. rewrite filter_app. cbn. by case_decide. Qed.

Lemma generation_entry b ws : generation (entry_of b ws) = u64 (Z.of_nat (length (writes_to b ws))).
Proof.
  unfold entry_of. destruct (last (writes_to b ws)) as [w|] eqn:Hl; [done|].
  apply last_None in Hl. by rewrite Hl.
Qed.

Lemma history_step ws h :
  Forall (fun w => 0 <= w_offset w) ws -> length h = Z.to_nat pages ->
  (forall b, 0 <= b < pages -> aget new_history h b = new_history) ->
  exists h', fold_left record_write ws (Some h) = Some h' /\ length h' = length h /\
    forall b, 0 <= b < pages -> aget new_history h' b = entry_of b ws.
Proof.
  intros Hws Hlen H0. induction ws as [|w ws IH] using rev_ind.
  - exists h. split; [done|]. split; [done|]. intros b Hb. by rewrite H0.
  - apply Forall_app in Hws as [Hws Hw]. rewrite Forall_singleton in Hw.
    destruct (IH Hws) as (h' & E & Hl & He). rewrite fold_left_app, E. cbn [fold_left].
    unfold record_write at 1, RecordBlockWrite, history_block. cbn [negb orb].
    destruct (Z.leb_spec page_length 0); [lia|]. rewrite u64_id by lia.
    assert (Hb0 : 0 <= w_offset w / page_length) by (apply Z.div_pos; lia).
    destruct (Z.leb_spec pages (w_offset w / page_length)) as [Hout|Hin].
    + exists h'. split; [done|]. split; [done|]. intros b Hb. rewrite He by done.
      unfold entry_of. rewrite writes_to_snoc, decide_False by lia. by rewrite app_nil_r.
    + eexists. split; [reflexivity|]. split; [by rewrite length_aset|]. intros b Hb.
      destruct (Z.eq_dec (w_offset w / page_length) b) as [<-|Hne].
      * rewrite aget_aset_eq by lia. rewrite He by lia. unfold entry_of at 2.
        rewrite writes_to_snoc, decide_True by done. rewrite last_snoc, length_app, generation_entry.
        f_equal. unfold u64. rewrite Zplus_mod_idemp_l. f_equal. cbn [length]. lia.
      * rewrite aget_aset_ne by lia. rewrite He by done. unfold entry_of.
        rewrite writes_to_snoc, decide_False by done. by rewrite app_nil_r.
Qed.

End History.

(** The write history names the last writer.  After any sequence of recorded writes
    the entry of a block has as generation the number of writes to that block, and the
    writer, thread, CPU, time and epochs of the last of them; writes to other blocks and
    writes outside the test memory leave it alone; and that is what an error line prints
    for any offset inside the block. *)
Theorem block_history_last page_length pages ws b off now :
  0 < page_length -> 0 <= pages < 2 ^ 63 -> Forall (fun w => 0 <= w_offset w) ws ->
  0 <= b < pages -> off / page_length = b ->
  let h := fold_left (record_write page_length pages) ws (Some (replicate (Z.to_nat pages) new_history)) in
  let e := entry_of page_length b ws in
  FormatBlockHistory true page_length pages h off now =
  Some (writer_name (writer e), u64 (Z.of_nat (length (writes_to page_length b ws))),
        writer_thread e, writer_cpu e,
        (if 0 <=? write_complete_us e then now - write_complete_us e else -1),
        frequency_epoch_begin e, frequency_epoch_end e,
        if frequency_epoch_begin e =? frequency_epoch_end e then "single"%string else "mixed"%string).
Proof.
  intros Hp Hpages Hws Hb Ho. cbv zeta.
  destruct (history_step page_length pages Hp Hpages ws (replicate (Z.to_nat pages) new_history) Hws)
    as (h' & -> & Hl & He).
  - by rewrite length_replicate.
  - intros c Hc. unfold aget. destruct (nth_in_or_default (Z.to_nat c) (replicate (Z.to_nat pages) new_history) new_history)
      as [H|H]; [|done]. by apply list_elem_of_In, elem_of_replicate in H as [-> _].
  - unfold FormatBlockHistory, history_block. cbn [negb orb].
    destruct (Z.leb_spec page_length 0); [lia|]. rewrite Ho, (u64_id pages) by lia.
    destruct (Z.leb_spec pages b); [lia|]. rewrite He by done. by rewrite generation_entry.
Qed.

Lemma block_history_last_witness :
  FormatBlockHistory true 1024 4
    (fold_left (record_write 1024 4)
       [mkWrite 1024 BLOCK_WRITER_INITIAL_FILL 1 0 3 3 10; mkWrite 0 BLOCK_WRITER_COPY 2 1 3 3 20;
        mkWrite 1024 BLOCK_WRITER_COPY 5 7 3 4 30] (Some (replicate (Z.to_nat 4) new_history))) 1500 100 =
  Some ("copy"%string, 2, 5, 7, 70, 3, 4, "mixed"%string).
Proof.
  rewrite (block_history_last 1024 4
    [mkWrite 1024 BLOCK_WRITER_INITIAL_FILL 1 0 3 3 10; mkWrite 0 BLOCK_WRITER_COPY 2 1 3 3 20;
     mkWrite 1024 BLOCK_WRITER_COPY 5 7 3 4 30] 1 1500 100).
  - vm_compute. reflexivity.
  - lia.
  - lia.
  - repeat constructor; discriminate.
  - lia.
  - reflexivity.
Defined.

End DiagnosticsFacts.
