(* ===== verification/Worker.v ===== *)
(** Filling, checking and copying work blocks: the page operations of [WorkerThread] in
    [src/src/worker.cc].

    Memory is the list of the 64-bit words of the test region, which starts at virtual
    address [mem_base]; a pointer into it is a word index.  Memory is stable: a load
    returns the last value stored, so a fault is a difference between the stored words
    and the expected ones.  Flushes, yields and the texts of log lines are not
    modelled; the errors passed to [ProcessError] are, in order, with their priority, and
    so are the diagnoser, the budget of detailed lines and the phase counters they update.
    What the code reads from its surroundings while it works (the DRAM frequency request,
    the clock, the frequency epoch, the kernel's page map) is a function in [World], given
    the word being handled.  A [Pattern] argument is the object [pe->pattern] points to. *)

From Stdlib Require Import Ascii String.
From S2P Require Import Prelude Adler Patterns PageQueue OsLayer ErrorDiag Diagnostics.

Module Worker.
Import Adler Patterns.
Local Open Scope word_scope.

Inductive FillDirection := FILL_DIRECTION_UP | FILL_DIRECTION_DOWN.

(** The calls of [current_dram_frequency]: before a first read, before the reread, before
    a repair write. *)
Inductive FrequencyRead := BeforeRead | BeforeReread | BeforeRepair.

(** The surroundings: the readings made for a word, the platform and the kernel's page map. *)
Record World := mkWorld {
  current_dram_frequency : FrequencyRead -> Z -> Z; diagnostic_elapsed_us : Z -> Z;
  dram_frequency_epoch : Z -> Z; os_ : OsLayer.OsLayer; pagesize : Z; pagemap : Z -> option Z
}.

(** What [FileThread::ProcessError] reads of its thread: the device, and while [crc_page_] is
    set that page with the addresses [src] and [dst] of its record. *)
Record FileContext := mkFileContext { devicename_ : string; crc_page_ : option (Z * Z * Z) }.

(** The settings the page operations read from [Sat] and from the thread; [file_thread] is
    set when the thread is a [FileThread]. *)
Record Config := mkConfig {
  page_length : Z; fill_direction : FillDirection; fill_yield_bytes : Z;
  stop_on_error : bool; tag_mode_ : bool; mem_base : Z; verbosity : Z; error_log_limit : Z;
  world : World; file_thread : option FileContext
}.

Definition wordsize_ : Z := 8.

Inductive Message := HardwareError | PageError | BlockError.

(** [vaddr] is a word index, [vbyteaddr] and [tagvaddr] are addresses. *)
Record ErrorRecord := mkError {
  actual : Z; reread : Z; expected : Z; vaddr : Z; vbyteaddr : Z; paddr : Z; tagvaddr : Z;
  tagpaddr : Z; lastcpu : Z; patternname : option string; worker_name : string; phase : string;
  pattern_byte_offset : Z; sat_page_offset : Z; offset_in_page : Z;
  er_write_dram_frequency : Z; read_dram_frequency : Z; reread_dram_frequency : Z
}.

(** State that does not feed back into memory: the worker's phase counters, the budget of
    detailed lines, the diagnoser and the detailed lines printed. *)
Record Observed := mkObserved {
  diagnostic_phase_stats_ : Diagnostics.PhaseStats; error_log : Diagnostics.ErrorLog;
  error_diagnoser_ : ErrorDiag.ErrorDiag; printed : list (ErrorRecord * Message)
}.

(** What a thread changes: memory, its error count, the stop request, the errors it has
    processed and the observed state. *)
Record Thread := mkThread {
  mem : list Z; errorcount_ : Z; error_stop : bool; reports : list (ErrorRecord * Z * Message);
  observed : Observed
}.

Definition set_mem (st : Thread) (m : list Z) : Thread :=
  mkThread m (errorcount_ st) (error_stop st) (reports st) (observed st).
Definition set_observed (st : Thread) (o : Observed) : Thread :=
  mkThread (mem st) (errorcount_ st) (error_stop st) (reports st) o.
Definition add_errors (st : Thread) (n : Z) : Thread :=
  mkThread (mem st) (errorcount_ st + n) (error_stop st) (reports st) (observed st).

Section Ops.
Context (cfg : Config).

(** Virtual address of a word; [addr_to_tag] is the address itself. *)
Definition addr_of (w : Z) : Z := mem_base cfg + 8 * w.
Definition addr_to_tag (w : Z) : Z := u64 (addr_of w).

(** *** Filling *)

(** The word the default path stores at index [i] of the page at [memwords]. *)
Definition default_word (p : Pattern) (memwords i : Z) : Z :=
  if tag_mode_ cfg && (Z.land i 0x7 =? 0) then addr_to_tag (memwords + i)
  else l64 (pattern_unshifted p (u32 (Z.shiftl i 1))) (pattern_unshifted p (u32 (Z.shiftl i 1 + 1))).

Definition general_word (p : Pattern) (memwords i : Z) : Z :=
  if tag_mode_ cfg && (Z.land i 0x7 =? 0) then addr_to_tag (memwords + i)
  else l64 (pattern p (u32 (Z.shiftl i 1))) (pattern p (u32 (Z.shiftl i 1 + 1))).

(** [memwords[i] = f i] for the given sequence of indices. *)
Definition store_words (f : Z -> Z) (memwords : Z) (is_ : list Z) (m : list Z) : list Z :=
  fold_left (fun m i => aset m (memwords + i) (f i)) is_ m.

Definition is_up : bool :=
  match fill_direction cfg with FILL_DIRECTION_UP => true | FILL_DIRECTION_DOWN => false end.

(** The index [i] of each step, in the configured direction. *)
Definition step_index (words step : Z) : Z := if is_up then step else words - step - 1.

(** The memory part of [FillPage]. *)
Definition FillPage_mem (p : Pattern) (memwords : Z) (m : list Z) : list Z :=
  let words := page_length cfg / wordsize_ in
  let default_fill_path := is_up && (fill_yield_bytes cfg =? 0) && (byte_offset p =? 0) in
  if default_fill_path
  then store_words (default_word p memwords) memwords (zrange 0 (Z.to_nat words)) m
  else store_words (general_word p memwords) memwords
         (map (step_index words) (zrange 0 (Z.to_nat words))) m.

Definition set_written (pe : PageQueue.page_entry) (pat : option Z) (cpu freq : Z)
  : PageQueue.page_entry :=
  PageQueue.mk_page_entry (PageQueue.offset pe) (PageQueue.addr pe) (PageQueue.paddr pe) pat
    (PageQueue.tag pe) (PageQueue.touch pe) (PageQueue.ts pe) cpu freq (PageQueue.lastpattern pe).

(** Word index of the page's first word. *)
Definition page_base (pe : PageQueue.page_entry) : Z := (PageQueue.addr pe - mem_base cfg) / 8.

(** [cpu] and [freq] are the CPU number and the frequency request the code reads; [None]
    is a null entry. *)
Definition FillPage (p : Pattern) (pe : option PageQueue.page_entry) (cpu freq : Z) (m : list Z)
  : bool * option PageQueue.page_entry * list Z :=
  match pe with
  | None => (false, None, m)
  | Some pe => (true, Some (set_written pe (PageQueue.pattern pe) cpu freq),
                FillPage_mem p (page_base pe) m)
  end.

Definition FillPageWithConstant (pe : option PageQueue.page_entry) (value : Z) (m : list Z)
  : bool * list Z :=
  match pe with
  | None => (false, m)
  | Some pe =>
      let words := page_length cfg / wordsize_ in
      if is_up && (fill_yield_bytes cfg =? 0)
      then (true, store_words (fun _ => value) (page_base pe) (zrange 0 (Z.to_nat words)) m)
      else (true, store_words (fun _ => value) (page_base pe)
                    (map (step_index words) (zrange 0 (Z.to_nat words))) m)
  end.

(** *** Checking *)

(** [VirtualToPhysical] and [FindDimm] of the platform. *)
Definition virtual_to_physical (a : Z) : Z :=
  OsLayer.VirtualToPhysical (pagesize (world cfg)) (pagemap (world cfg)) a.
Definition dimm_string (pa : Z) : string :=
  match OsLayer.FindDimm (os_ (world cfg)) pa with Some (_, name) => name | None => EmptyString end.

(** The first byte, among the low seven, in which two words differ; 7 if there is none. *)
Fixpoint first_difference (n : nat) (offset good bad : Z) : Z :=
  match n with
  | O => offset
  | S n' =>
      if Z.land (Z.shiftr good (8 * offset)) 0xff =? Z.land (Z.shiftr bad (8 * offset)) 0xff
      then first_difference n' (offset + 1) good bad else offset
  end.

(** A detailed line is printed if the verbosity admits it and the budget grants it. *)
Definition print_detailed (er : ErrorRecord) (priority : Z) (msg : Message) (o : Observed) : Observed :=
  if priority <=? verbosity cfg then
    let '(granted, l) := Diagnostics.ClaimDetailedErrorLog (error_log_limit cfg) (error_log o) in
    mkObserved (diagnostic_phase_stats_ o) l (error_diagnoser_ o)
      (if granted then printed o ++ [(er, msg)] else printed o)
  else o.

Definition diagnose (er : ErrorRecord) (o : Observed) : Observed :=
  mkObserved (diagnostic_phase_stats_ o) (error_log o)
    (ErrorDiag.AddMiscompareError (error_diagnoser_ o) (dimm_string (paddr er)) (addr_of (vaddr er)) 1).1
    (printed o).

(** [ErrorDiag::AddressToDimmString]. *)
Definition AddressToDimmString (addr offset : Z) : string := dimm_string (virtual_to_physical (addr + offset)).

(** The diagnoser's part of [FileThread::ProcessError]. *)
Definition diagnose_file (f : FileContext) (er : ErrorRecord) (o : Observed) : Observed :=
  match crc_page_ f with
  | Some (page, src, dst) =>
      mkObserved (diagnostic_phase_stats_ o) (error_log o)
        (ErrorDiag.AddHDDMiscompareError AddressToDimmString (error_diagnoser_ o) (devicename_ f) page
           (s32 (vbyteaddr er - dst)) src dst).1
        (printed o)
  | None => diagnose er o
  end.

(** The record once the word has been reread and located. *)
Definition located (st : Thread) (er : ErrorRecord) : ErrorRecord :=
  let w := vaddr er in
  let offset := first_difference 7 0 (expected er) (actual er) in
  mkError (actual er) (aget 0 (mem st) w) (expected er) w (addr_of w + offset)
    (virtual_to_physical (addr_of w)) (tagvaddr er) (tagpaddr er) (lastcpu er)
    (patternname er) (worker_name er) (phase er) (pattern_byte_offset er)
    (sat_page_offset er) (offset_in_page er) (er_write_dram_frequency er)
    (read_dram_frequency er) (current_dram_frequency (world cfg) BeforeReread w).

(** The word is overwritten with the expected value, and the test stops if asked to. *)
Definition repair_word (st : Thread) (er : ErrorRecord) (priority : Z) (msg : Message) (o : Observed) : Thread :=
  mkThread (aset (mem st) (vaddr er) (expected er)) (errorcount_ st) (error_stop st || stop_on_error cfg)
    (reports st ++ [(er, priority, msg)]) o.

Definition WorkerThread_ProcessError (st : Thread) (er : ErrorRecord) (priority : Z) (msg : Message) : Thread :=
  let er := located st er in
  repair_word st er priority msg
    (if priority <? 5 then print_detailed er priority msg (diagnose er (observed st)) else observed st).

Definition FileThread_ProcessError (f : FileContext) (st : Thread) (er : ErrorRecord) (priority : Z) (msg : Message) : Thread :=
  let er := located st er in
  repair_word st er priority msg (print_detailed er priority msg (diagnose_file f er (observed st))).

(** The virtual [ProcessError].  Its assertion that the expected and the actual word differ is
    left out: the callers only pass records of words that differ (likewise for
    [ProcessTagError]). *)
Definition ProcessError (st : Thread) (er : ErrorRecord) (priority : Z) (msg : Message) : Thread :=
  match file_thread cfg with
  | None => WorkerThread_ProcessError st er priority msg
  | Some f => FileThread_ProcessError f st er priority msg
  end.

(** The value [CheckRegion] expects in word [i] of the region at [memblock]. *)
Definition expected_word (p : Pattern) (memblock pattern_offset i : Z) : Z :=
  let index := s32 (2 * i + pattern_offset) in
  let data := l64 (pattern p (u32 index)) (pattern p (u32 (index + 1))) in
  if tag_mode_ cfg && (Z.land (u64 (addr_of (memblock + i))) 0x3f =? 0)
  then addr_to_tag (memblock + i) else data.

Definition kErrorLimit : Z := 128.

(** Identification of a region, carried into its error records. *)
Record Region := mkRegion {
  rg_lastcpu : Z; rg_offset : Z; rg_write_freq : Z; rg_worker_name : string; rg_phase : string;
  rg_sat_page_offset : Z
}.

Definition record_of (p : Pattern) (rg : Region) (memblock i act exp : Z) : ErrorRecord :=
  mkError act 0 exp (memblock + i) 0 0 0 0 (rg_lastcpu rg) (Some (name p)) (rg_worker_name rg)
    (rg_phase rg) (byte_offset p) (rg_sat_page_offset rg) (rg_offset rg + i * wordsize_)
    (rg_write_freq rg) (current_dram_frequency (world cfg) BeforeRead (memblock + i)) (-1).

(** The slot of the phase counters, unknown while there are none. *)
Definition diagnostic_phase (st : Thread) (worker phase : string) : Diagnostics.DiagnosticPhase :=
  match diagnostic_phase_stats_ (observed st) with
  | Some _ => Diagnostics.GetDiagnosticPhase (Some worker) (Some phase)
  | None => Diagnostics.DIAG_PHASE_COUNT
  end.

Definition set_stats (st : Thread) (s : Diagnostics.PhaseStats) : Thread :=
  let o := observed st in
  set_observed st (mkObserved s (error_log o) (error_diagnoser_ o) (printed o)).

(** [RecordDiagnosticFirstError] while word [w] is compared. *)
Definition record_first_error (st : Thread) (ph : Diagnostics.DiagnosticPhase) (w : Z) : Thread :=
  set_stats st (Diagnostics.RecordDiagnosticFirstError (diagnostic_phase_stats_ (observed st)) ph
                  (diagnostic_elapsed_us (world cfg) w) (dram_frequency_epoch (world cfg) w)).

(** First loop: collect up to [kErrorLimit] records; the last component is
    [overflow_start_word] when the limit was exceeded. *)
Fixpoint scan_loop (n : nat) (st : Thread) (p : Pattern) (rg : Region)
    (ph : Diagnostics.DiagnosticPhase) (memblock pattern_offset i : Z)
    (recorded : list ErrorRecord) : Thread * list ErrorRecord * option Z :=
  match n with
  | O => (st, recorded, None)
  | S n' =>
      let act := aget 0 (mem st) (memblock + i) in
      let exp := expected_word p memblock pattern_offset i in
      if negb (act =? exp) then
        let st := record_first_error st ph (memblock + i) in
        if Z.of_nat (List.length recorded) <? kErrorLimit
        then scan_loop n' st p rg ph memblock pattern_offset (i + 1)
               (recorded ++ [record_of p rg memblock i act exp])
        else (st, recorded, Some i)
      else scan_loop n' st p rg ph memblock pattern_offset (i + 1) recorded
  end.

(** Processing of the queued errors, [err] counting from 0. *)
Fixpoint process_loop (st : Thread) (recorded : list ErrorRecord) (err : Z) (msg : Message)
  : Thread :=
  match recorded with
  | [] => st
  | er :: rest =>
      let priority := if errorcount_ st + err <? 30 then 0 else 5 in
      process_loop (ProcessError st er priority msg) rest (err + 1) msg
  end.

(** Last loop: the words from [overflow_start_word] on. *)
Fixpoint overflow_loop (n : nat) (st : Thread) (p : Pattern) (rg : Region)
    (memblock pattern_offset i : Z) (overflowerrors : Z) (msg : Message) : Thread * Z :=
  match n with
  | O => (st, overflowerrors)
  | S n' =>
      let act := aget 0 (mem st) (memblock + i) in
      let exp := expected_word p memblock pattern_offset i in
      if negb (act =? exp)
      then overflow_loop n' (ProcessError st (record_of p rg memblock i act exp) 12 msg) p rg
             memblock pattern_offset (i + 1) (overflowerrors + 1) msg
      else overflow_loop n' st p rg memblock pattern_offset (i + 1) overflowerrors msg
  end.

(** *** Whole block corruption *)

Inductive AltState := kGood | kBad | kGoodAgain | kNoMatch.

(** Two pattern words as a 64-bit value, without tags. *)
Definition plain_word (p : Pattern) (pattern_offset i : Z) : Z :=
  let index := s32 (2 * i + pattern_offset) in
  l64 (pattern p (u32 index)) (pattern p (u32 (index + 1))).

(** The loop that matches the region against [altpattern]: state, [badstart] and
    [badend]. *)
Fixpoint alt_loop (n : nat) (m : list Z) (p altpattern : Pattern) (memblock pattern_offset i : Z)
    (state : AltState) (badstart badend : Z) : AltState * Z * Z :=
  match n with
  | O => (state, badstart, badend)
  | S n' =>
      let act := aget 0 m (memblock + i) in
      let exp := plain_word p pattern_offset i in
      let possible := plain_word altpattern pattern_offset i in
      match state with
      | kGood =>
          if act =? exp
          then alt_loop n' m p altpattern memblock pattern_offset (i + 1) kGood badstart badend
          else if act =? possible
          then alt_loop n' m p altpattern memblock pattern_offset (i + 1) kBad i i
          else (kNoMatch, badstart, badend)
      | kBad =>
          if act =? possible
          then alt_loop n' m p altpattern memblock pattern_offset (i + 1) kBad badstart i
          else if act =? exp
          then alt_loop n' m p altpattern memblock pattern_offset (i + 1) kGoodAgain badstart badend
          else (kNoMatch, badstart, badend)
      | kGoodAgain =>
          if act =? exp
          then alt_loop n' m p altpattern memblock pattern_offset (i + 1) kGoodAgain badstart badend
          else (kNoMatch, badstart, badend)
      | kNoMatch => (kNoMatch, badstart, badend)
      end
  end.

(** Whether [altpattern] explains the region. *)
Definition alt_matches (n : nat) (m : list Z) (p altpattern : Pattern) (memblock pattern_offset : Z)
  : option (Z * Z) :=
  match alt_loop n m p altpattern memblock pattern_offset 0 kGood 0 0 with
  | (kGoodAgain, badstart, badend) | (kBad, badstart, badend) => Some (badstart, badend)
  | _ => None
  end.

(** The patterns of the list, other than entry [pidx], that explain the region. *)
Definition block_errors (n : nat) (m : list Z) (pl : PatternList) (p : Pattern) (pidx : Z)
    (memblock pattern_offset : Z) : list (Z * (Z * Z)) :=
  omap (fun ia : Z * Pattern => let '(i, alt) := ia in
          if i =? pidx then None
          else (fun r => (i, r)) <$> alt_matches n m p alt memblock pattern_offset)
    (zip (zrange 0 (length (patterns_ pl))) (patterns_ pl)).

(** [p] is entry [pidx] of the pattern list.  Returns the thread and the number of
    errors. *)
Definition CheckRegion (st : Thread) (pl : PatternList) (p : Pattern) (pidx : Z) (rg : Region)
    (memblock length pattern_offset : Z) : Thread * Z :=
  let words := Z.to_nat (length / wordsize_) in
  let ph := diagnostic_phase st (rg_worker_name rg) (rg_phase rg) in
  let '(st, recorded, overflow_start_word) := scan_loop words st p rg ph memblock pattern_offset 0 [] in
  let page_error := match overflow_start_word with Some _ => true | None => false end in
  let errormessage :=
    if page_error then
      if negb (tag_mode_ cfg) &&
         negb (bool_decide (block_errors words (mem st) pl p pidx memblock pattern_offset = []))
      then BlockError else PageError
    else HardwareError in
  let errors := Z.of_nat (List.length recorded) in
  let st := process_loop st recorded 0 errormessage in
  let '(st, overflowerrors) :=
    match overflow_start_word with
    | Some start => overflow_loop (Z.to_nat (length / wordsize_ - start)) st p rg memblock
                      pattern_offset start 0 errormessage
    | None => (st, 0)
    end in
  (add_errors st (errors + overflowerrors), errors + overflowerrors).

(** *** Address tags *)

Definition ProcessTagError (st : Thread) (er : ErrorRecord) (priority : Z) (msg : Message) : Thread :=
  let w := vaddr er in
  let er := mkError (actual er) (aget 0 (mem st) w) (expected er) w (addr_of w)
              (virtual_to_physical (addr_of w)) (tagvaddr er) (virtual_to_physical (tagvaddr er))
              (lastcpu er) (patternname er) (worker_name er) (phase er) (pattern_byte_offset er)
              (sat_page_offset er) (offset_in_page er) (er_write_dram_frequency er)
              (read_dram_frequency er) (current_dram_frequency (world cfg) BeforeReread w) in
  let o := observed st in
  let o := if priority <? 5 then print_detailed er priority msg o else o in
  mkThread (aset (mem st) w (expected er)) (errorcount_ st + 1) (error_stop st || stop_on_error cfg)
    (reports st ++ [(er, priority, msg)]) o.

(** The other members of the record keep their initial values. *)
Definition ReportTagError (st : Thread) (w act tag : Z) (write_freq : Z) : Thread :=
  let er := mkError act 0 tag w 0 0 act 0 0 None "unknown" "unknown" 0 (2 ^ 64 - 1) (2 ^ 64 - 1)
              write_freq (current_dram_frequency (world cfg) BeforeRead w) (-1) in
  ProcessTagError st er 0 HardwareError.

(** One iteration of the tagged loops on word [i]: the value that enters the checksum,
    after the tag of a tagged word was checked. *)
Definition tag_check (st : Thread) (p : Pattern) (srcmem write_freq i : Z) : Thread * Z :=
  if Z.land i 0x7 =? 0 then
    let act := aget 0 (mem st) (srcmem + i) in
    let src_tag := addr_to_tag (srcmem + i) in
    let st := if negb (act =? src_tag) then ReportTagError st (srcmem + i) act src_tag write_freq
              else st in
    (st, l64 (pattern p (u32 (Z.shiftl i 1))) (pattern p (u32 (Z.shiftl i 1 + 1))))
  else (st, aget 0 (mem st) (srcmem + i)).

(** The loop of [AdlerAddrCrcC]. *)
Fixpoint addr_crc_loop (fuel : nat) (st : Thread) (p : Pattern) (srcmem write_freq count i : Z)
    (s1 s2 : Z * Z) : option (Thread * ((Z * Z) * (Z * Z))) :=
  match fuel with
  | O => None
  | S fuel' =>
      if i <? count then
        let '(st, w) := tag_check st p srcmem write_freq i in
        let s1 := add_word w s1 in
        let i := i + 1 in
        let s2 := add_word (aget 0 (mem st) (srcmem + i)) s2 in
        let i := i + 1 in
        addr_crc_loop fuel' st p srcmem write_freq count i s1 s2
      else Some (st, (s1, s2))
  end.

Definition AdlerAddrCrcC (st : Thread) (p : Pattern) (srcmem size_in_bytes write_freq : Z)
  : option (Thread * AdlerChecksum) :=
  let count := size_in_bytes / 8 in
  if Z.shiftl 1 19 <? count then None
  else match addr_crc_loop (loop_fuel count) st p srcmem write_freq count 0 (1, 0) (1, 0) with
       | Some (st, ((a1, b1), (a2, b2))) => Some (st, Set_ a1 a2 b1 b2)
       | None => None
       end.

(** [TagAddrC]: every eighth word becomes its own address. *)
Definition TagAddrC (m : list Z) (memwords size_in_bytes : Z) : list Z :=
  let length := size_in_bytes / wordsize_ in
  fold_left (fun m k => aset m (memwords + 8 * k) (addr_to_tag (memwords + 8 * k)))
    (zrange 0 (Z.to_nat ((length + 7) / 8))) m.

(** The loop of [AdlerAddrMemcpyC]: both tags are checked, the data is copied and the
    destination gets its own tags. *)
Fixpoint addr_memcpy_loop (fuel : nat) (st : Thread) (p : Pattern) (dstmem srcmem write_freq count i : Z)
    (s1 s2 : Z * Z) : option (Thread * ((Z * Z) * (Z * Z))) :=
  match fuel with
  | O => None
  | S fuel' =>
      if i <? count then
        let '(st, s1) :=
          if Z.land i 0x7 =? 0 then
            let data := aget 0 (mem st) (srcmem + i) in
            let dstdata := aget 0 (mem st) (dstmem + i) in
            let src_tag := addr_to_tag (srcmem + i) in
            let dst_tag := addr_to_tag (dstmem + i) in
            let st := if negb (data =? src_tag)
                      then ReportTagError st (srcmem + i) data src_tag write_freq else st in
            let st := if negb (dstdata =? dst_tag)
                      then ReportTagError st (dstmem + i) dstdata dst_tag (-1) else st in
            (set_mem st (aset (mem st) (dstmem + i) dst_tag),
             add_word (l64 (pattern p (u32 (Z.shiftl i 1))) (pattern p (u32 (Z.shiftl i 1 + 1)))) s1)
          else
            let data := aget 0 (mem st) (srcmem + i) in
            (set_mem st (aset (mem st) (dstmem + i) data), add_word data s1) in
        let i := i + 1 in
        let data := aget 0 (mem st) (srcmem + i) in
        let s2 := add_word data s2 in
        let st := set_mem st (aset (mem st) (dstmem + i) data) in
        let i := i + 1 in
        addr_memcpy_loop fuel' st p dstmem srcmem write_freq count i s1 s2
      else Some (st, (s1, s2))
  end.

Definition AdlerAddrMemcpyC (st : Thread) (p : Pattern) (dstmem srcmem size_in_bytes write_freq : Z)
  : option (Thread * AdlerChecksum) :=
  let count := size_in_bytes / 8 in
  if Z.shiftl 1 19 <? count then None
  else match addr_memcpy_loop (loop_fuel count) st p dstmem srcmem write_freq count 0 (1, 0) (1, 0) with
       | Some (st, ((a1, b1), (a2, b2))) => Some (st, Set_ a1 a2 b1 b2)
       | None => None
       end.

(** *** Whole pages *)

Definition blocksize : Z := 4096.
Definition blockwords : Z := blocksize / wordsize_.

(** What the page operations need to know of the source page, and the names their caller
    passes. *)
Record Source := mkSource {
  src_pattern : Pattern; src_pidx : Z; src_lastcpu : Z; src_write_freq : Z; src_offset : Z;
  src_worker_name : string; src_phase : string
}.

Definition region_of (s : Source) (write_freq currentblock : Z) : Region :=
  mkRegion (src_lastcpu s) (currentblock * blocksize) write_freq (src_worker_name s) (src_phase s)
    (src_offset s).

(** [RecordDiagnosticChecksumMismatch]. *)
Definition record_mismatch (st : Thread) (s : Source) : Thread :=
  set_stats st (Diagnostics.RecordDiagnosticChecksumMismatch (diagnostic_phase_stats_ (observed st))
                  (diagnostic_phase st (src_worker_name s) (src_phase s))).

(** Checksum of a block, in either mode. *)
Definition block_crc (st : Thread) (s : Source) (memslice : Z) : option (Thread * AdlerChecksum) :=
  if tag_mode_ cfg
  then AdlerAddrCrcC st (src_pattern s) memslice blocksize (src_write_freq s)
  else (fun c => (st, c)) <$> CalculateAdlerChecksum (drop (Z.to_nat memslice) (mem st)) blocksize.

(** [crc.Equals( *expectedcrc)]; a pattern of the list always has a checksum. *)
Definition crc_ok (c : AdlerChecksum) (p : Pattern) : bool :=
  match crc p with Some e => Equals c e | None => false end.

(** The loop over the complete 4096-byte blocks of [CrcCheckPage]. *)
Fixpoint check_blocks (n : nat) (st : Thread) (pl : PatternList) (s : Source)
    (memblock currentblock errors : Z) : option (Thread * Z) :=
  match n with
  | O => Some (st, errors)
  | S n' =>
      let memslice := memblock + currentblock * blockwords in
      match block_crc st s memslice with
      | None => None
      | Some (st, c) =>
          let '(st, errorcount) :=
            if crc_ok c (src_pattern s) then (st, 0)
            else CheckRegion (record_mismatch st s) pl (src_pattern s) (src_pidx s)
                   (region_of s (src_write_freq s) currentblock) memslice blocksize 0 in
          check_blocks n' st pl s memblock (currentblock + 1) (errors + errorcount)
      end
  end.

(** [None]: a checksum routine refuses the size, which 4096 bytes never makes it do. *)
Definition CrcCheckPage (st : Thread) (pl : PatternList) (s : Source) (memblock : Z)
  : option (Thread * Z) :=
  let blocks := page_length cfg / blocksize in
  match check_blocks (Z.to_nat blocks) st pl s memblock 0 0 with
  | None => None
  | Some (st, errors) =>
      let leftovers := page_length cfg mod blocksize in
      if leftovers =? 0 then Some (st, errors)
      else
        let '(st, e) := CheckRegion st pl (src_pattern s) (src_pidx s)
                          (region_of s (src_write_freq s) blocks)
                          (memblock + blocks * blockwords) leftovers 0 in
        Some (st, errors + e)
  end.

(** [memcpy] of [n] bytes between word pointers. *)
Definition memcpy (m : list Z) (dst src n : Z) : list Z :=
  fold_left (fun m i => aset m (dst + i) (aget 0 m (src + i))) (zrange 0 (Z.to_nat (n / 8))) m.

(** A copy routine applied inside memory. *)
Definition copy_in (f : list Z -> list Z -> Z -> option (list Z * AdlerChecksum))
    (st : Thread) (dst src n : Z) : option (Thread * AdlerChecksum) :=
  match f (drop (Z.to_nat dst) (mem st)) (drop (Z.to_nat src) (mem st)) n with
  | Some (d, c) => Some (set_mem st (take (Z.to_nat dst) (mem st) ++ d), c)
  | None => None
  end.

(** [OsLayer::AdlerMemcpyWarm]; [regs] are the vector registers on entry. *)
Inductive Arch := Arch_x86_64 | Arch_aarch64.
Definition AdlerMemcpyWarm (has_vector : option Arch) (regs : vec * vec)
  : list Z -> list Z -> Z -> option (list Z * AdlerChecksum) :=
  match has_vector with
  | Some Arch_x86_64 => AdlerMemcpyAsm_x86_64 regs
  | Some Arch_aarch64 => AdlerMemcpyAsm_aarch64 regs
  | None => AdlerMemcpyWarmC
  end.

Definition AdlerAddrMemcpyWarm (warm : list Z -> list Z -> Z -> option (list Z * AdlerChecksum))
    (st : Thread) (p : Pattern) (dstmem srcmem size_in_bytes write_freq : Z)
  : option (Thread * AdlerChecksum) :=
  let st := match copy_in warm st dstmem srcmem size_in_bytes with
            | Some (st, _) => st | None => st end in
  match AdlerAddrCrcC st p srcmem size_in_bytes write_freq with
  | Some (st, c) => Some (set_mem st (TagAddrC (mem st) dstmem size_in_bytes), c)
  | None => None
  end.

(** The two copy paths differ in the copy routine and in the marker value of an error
    that disappears on the second pass. *)
Inductive CopyKind :=
| Plain
| Warm (f : list Z -> list Z -> Z -> option (list Z * AdlerChecksum)).

Definition copy_crc (k : CopyKind) (st : Thread) (s : Source) (dst src : Z)
  : option (Thread * AdlerChecksum) :=
  match k with
  | Plain => if tag_mode_ cfg
             then AdlerAddrMemcpyC st (src_pattern s) dst src blocksize (src_write_freq s)
             else copy_in AdlerMemcpyC st dst src blocksize
  | Warm f => if tag_mode_ cfg
              then AdlerAddrMemcpyWarm f st (src_pattern s) dst src blocksize (src_write_freq s)
              else copy_in f st dst src blocksize
  end.

Definition marker (k : CopyKind) : Z :=
  match k with Plain => Z.shiftl 0xbad00000 32 | Warm _ => 0xbad end.

(** The slow path after a checksum mismatch: the thread and the errors to add. *)
Definition copy_mismatch (k : CopyKind) (st : Thread) (pl : PatternList) (s : Source)
    (dst src currentblock : Z) : Thread * Z :=
  let '(st, errorcount) :=
    CheckRegion (record_mismatch st s) pl (src_pattern s) (src_pidx s)
      (region_of s (src_write_freq s) currentblock) src blocksize 0 in
  if (errorcount =? 0) && negb (tag_mode_ cfg) then
    let repair_write_frequency := current_dram_frequency (world cfg) BeforeRepair src in
    let st := set_mem st (memcpy (mem st) src dst blocksize) in
    let '(st, errorcount) :=
      CheckRegion st pl (src_pattern s) (src_pidx s) (region_of s repair_write_frequency currentblock)
        src blocksize 0 in
    if errorcount =? 0 then
      let er := record_of (src_pattern s) (region_of s repair_write_frequency currentblock) src 0
                  (aget 0 (mem st) src) (marker k) in
      (add_errors (ProcessError st er 0 HardwareError) 1, 1)
    else (st, errorcount)
  else (st, errorcount).

Fixpoint copy_blocks (n : nat) (k : CopyKind) (st : Thread) (pl : PatternList) (s : Source)
    (targetmembase sourcemembase currentblock errors : Z) : option (Thread * Z) :=
  match n with
  | O => Some (st, errors)
  | S n' =>
      let dst := targetmembase + currentblock * blockwords in
      let src := sourcemembase + currentblock * blockwords in
      match copy_crc k st s dst src with
      | None => None
      | Some (st, c) =>
          let '(st, e) := if crc_ok c (src_pattern s) then (st, 0)
                          else copy_mismatch k st pl s dst src currentblock in
          copy_blocks n' k st pl s targetmembase sourcemembase (currentblock + 1) (errors + e)
      end
  end.

(** The loop and the rest of the page, common to both copy operations: memory as the
    source was checked and copied, and the errors. *)
Definition copy_page (k : CopyKind) (st : Thread) (pl : PatternList) (s : Source)
    (targetmembase sourcemembase : Z) : option (Thread * Z) :=
  let blocks := page_length cfg / blocksize in
  match copy_blocks (Z.to_nat blocks) k st pl s targetmembase sourcemembase 0 0 with
  | None => None
  | Some (st, errors) =>
      let leftovers := page_length cfg mod blocksize in
      if leftovers =? 0 then Some (st, errors)
      else
        let targetmem := targetmembase + blocks * blockwords in
        let sourcemem := sourcemembase + blocks * blockwords in
        let '(st, e) := CheckRegion st pl (src_pattern s) (src_pidx s)
                          (region_of s (src_write_freq s) blocks) sourcemem leftovers 0 in
        let m := memcpy (mem st) targetmem sourcemem leftovers in
        let m := if tag_mode_ cfg then TagAddrC m targetmem leftovers else m in
        Some (set_mem st m, errors + e)
  end.

(** A CPU number and a frequency request, as read by the copy and, if it finds errors, by
    the [FillPage] that follows. *)
Record Readings := mkReadings { copy_cpu : Z; copy_freq : Z; fill_cpu : Z; fill_freq : Z }.

(** The end of both operations: the destination takes over the source's pattern, and is
    filled afresh if the source had errors. *)
Definition finish_copy (st : Thread) (errors : Z) (s : Source) (dstpe srcpe : PageQueue.page_entry)
    (r : Readings) : Thread * PageQueue.page_entry * Z :=
  let dstpe := set_written dstpe (PageQueue.pattern srcpe) (copy_cpu r) (copy_freq r) in
  if errors =? 0 then (st, dstpe, errors)
  else
    let '(_, pe, m) := FillPage (src_pattern s) (Some dstpe) (fill_cpu r) (fill_freq r) (mem st) in
    (set_mem st m, default dstpe pe, errors).

Definition CrcCopyPage (st : Thread) (pl : PatternList) (s : Source)
    (dstpe srcpe : PageQueue.page_entry) (r : Readings) : option (Thread * PageQueue.page_entry * Z) :=
  match copy_page Plain st pl s (page_base dstpe) (page_base srcpe) with
  | Some (st, errors) => Some (finish_copy st errors s dstpe srcpe r)
  | None => None
  end.

Definition CrcWarmCopyPage (warm : list Z -> list Z -> Z -> option (list Z * AdlerChecksum))
    (st : Thread) (pl : PatternList) (s : Source)
    (dstpe srcpe : PageQueue.page_entry) (r : Readings) : option (Thread * PageQueue.page_entry * Z) :=
  match copy_page (Warm warm) st pl s (page_base dstpe) (page_base srcpe) with
  | Some (st, errors) => Some (finish_copy st errors s dstpe srcpe r)
  | None => None
  end.

End Ops.
End Worker.

Module WorkerFacts.
Import Adler AdlerFacts Patterns PatternFacts Worker.

(** ** Stores into a range *)

(** Memory with the [n] words from [b] on given by [f]. *)
Definition filled (f : Z -> Z) (b : Z) (n : nat) (m : list Z) : list Z :=
  imap (fun k w => if decide (b <= Z.of_nat k < b + Z.of_nat n) then f (Z.of_nat k - b) else w) m.

Lemma lookup_filled f b n m k :
  filled f b n m !! k =
  (fun w => if decide (b <= Z.of_nat k < b + Z.of_nat n) then f (Z.of_nat k - b) else w) <$> m !! k.
Proof. unfold filled. by rewrite list_lookup_imap. Qed.

Lemma length_filled f b n m : length (filled f b n m) = length m.
Proof. apply length_imap. Qed.

Lemma length_store_words f b l m : length (store_words f b l m) = length m.
Proof.
  revert m. induction l as [|i l IH]; intros m; [done|]. cbn [store_words fold_left].
  unfold store_words in IH. by rewrite IH, length_aset.
Qed.

Lemma lookup_store_words f b l m k :
  0 <= b -> Forall (fun i => 0 <= i) l -> (k < length m)%nat ->
  store_words f b l m !! k =
  if decide (Z.of_nat k - b ∈ l) then Some (f (Z.of_nat k - b)) else m !! k.
Proof.
  intros Hb Hl. revert m. induction Hl as [|i l Hi Hl IH]; intros m Hk; cbn [store_words fold_left].
  - rewrite decide_False by (apply not_elem_of_nil). done.
  - unfold store_words in IH. rewrite IH by (by rewrite length_aset).
    destruct (decide (Z.of_nat k - b ∈ l)) as [Hin|Hin].
    + by rewrite decide_True by (by constructor).
    + destruct (decide (Z.of_nat k - b = i)) as [He|Hne].
      * rewrite decide_True by (rewrite He; constructor). unfold aset.
        replace (Z.to_nat (b + i)) with k by lia. rewrite list_lookup_insert_eq by done. by rewrite He.
      * rewrite decide_False by (rewrite elem_of_cons; tauto). unfold aset.
        apply list_lookup_insert_ne. lia.
Qed.

(** Storing at a set of offsets that includes every word that has to change. *)
Lemma store_words_filled f b n l m :
  0 <= b -> b + Z.of_nat n <= Z.of_nat (length m) ->
  (forall i, i ∈ l -> 0 <= i < Z.of_nat n) ->
  (forall i, 0 <= i < Z.of_nat n -> (i ∉ l) -> aget 0 m (b + i) = f i) ->
  store_words f b l m = filled f b n m.
Proof.
  intros Hb Hn Hl Hrest. apply list_eq. intros k. destruct (decide (k < length m)%nat) as [Hk|Hk].
  - rewrite lookup_store_words, lookup_filled; [|done| |done].
    2: { apply Forall_forall. intros i Hi. apply Hl in Hi. lia. }
    destruct (lookup_lt_is_Some_2 m k Hk) as [w Hw]. rewrite Hw. cbn [fmap option_fmap option_map].
    destruct (decide (Z.of_nat k - b ∈ l)) as [Hin|Hin].
    + apply Hl in Hin. by rewrite decide_True by lia.
    + case_decide as Hr; [|done]. f_equal.
      rewrite <- (Hrest (Z.of_nat k - b)) by (done || lia).
      replace (b + (Z.of_nat k - b)) with (Z.of_nat k) by lia. symmetry.
      apply aget_lookup; [lia | by rewrite Nat2Z.id].
  - rewrite !lookup_ge_None_2; [done | rewrite length_filled; lia | rewrite length_store_words; lia].
Qed.

Lemma filled_ext f g b n m :
  (forall i, 0 <= i < Z.of_nat n -> f i = g i) -> filled f b n m = filled g b n m.
Proof.
  intros H. apply list_eq. intros k. rewrite !lookup_filled. destruct (m !! k); [|done]. cbn.
  case_decide; [|done]. f_equal. apply H. lia.
Qed.

Lemma aget_filled f b n m i :
  0 <= b -> b + Z.of_nat n <= Z.of_nat (length m) -> 0 <= i < Z.of_nat n ->
  aget 0 (filled f b n m) (b + i) = f i.
Proof.
  intros Hb Hn Hi. apply aget_lookup; [lia|]. rewrite lookup_filled.
  destruct (lookup_lt_is_Some_2 m (Z.to_nat (b + i))) as [w ->]; [lia|]. cbn.
  rewrite decide_True by lia. f_equal. f_equal. lia.
Qed.

Lemma aget_filled_out f b n m j :
  0 <= j -> ~ (b <= j < b + Z.of_nat n) -> aget 0 (filled f b n m) j = aget 0 m j.
Proof.
  intros Hj Hout. unfold aget. rewrite !nth_lookup, lookup_filled.
  destruct (m !! Z.to_nat j); [|done]. cbn. by rewrite decide_False by lia.
Qed.

(** ** Filling *)

Section Fill.
Context (cfg : Config).

Definition page_words : nat := Z.to_nat (page_length cfg / wordsize_).

Lemma default_general p memwords i :
  wf_pattern p -> byte_offset p = 0 -> 0 <= i < 2 ^ 30 ->
  default_word cfg p memwords i = general_word cfg p memwords i.
Proof.
  intros Hp Hb Hi. assert (Hw : word_offset_ p = 0).
  { unfold byte_offset in Hb. pose proof (wf_off p Hp). rewrite u32_id in Hb by lia. lia. }
  unfold default_word, general_word, pattern. by rewrite Hw.
Qed.

Lemma step_index_elem n i :
  i ∈ map (step_index cfg (Z.of_nat n)) (zrange 0 n) <-> 0 <= i < Z.of_nat n.
Proof.
  rewrite list_elem_of_fmap. unfold step_index. split.
  - intros (j & -> & Hj). apply elem_of_zrange in Hj. destruct (is_up cfg); lia.
  - intros Hi. exists (if is_up cfg then i else Z.of_nat n - i - 1).
    rewrite elem_of_zrange. destruct (is_up cfg); lia.
Qed.

Lemma FillPage_filled p memwords m :
  wf_pattern p -> 0 <= page_length cfg < 2 ^ 31 -> 0 <= memwords ->
  memwords + Z.of_nat page_words <= Z.of_nat (length m) ->
  FillPage_mem cfg p memwords m = filled (general_word cfg p memwords) memwords page_words m.
Proof.
  intros Hp Hl Hm Hlen. unfold FillPage_mem.
  assert (Hw : 0 <= page_length cfg / wordsize_ < 2 ^ 28).
  { unfold wordsize_. split; [apply Z.div_pos; lia | apply Z.div_lt_upper_bound; lia]. }
  fold page_words. case_if_eqn.
  - rewrite (store_words_filled _ _ page_words); try done.
    + apply filled_ext. intros i Hi. unfold page_words in Hi. bool_to_prop.
      apply default_general; [done | done | lia].
    + intros i Hi. apply elem_of_zrange in Hi. lia.
    + intros i Hi Hn. exfalso. apply Hn, elem_of_zrange. lia.
  - replace (page_length cfg / wordsize_) with (Z.of_nat page_words) by (unfold page_words; lia).
    apply store_words_filled; try done.
    + intros i Hi. by apply step_index_elem.
    + intros i Hi Hn. exfalso. by apply Hn, step_index_elem.
Qed.

End Fill.

(** ** The detailed comparison *)

Section Check.
Context (cfg : Config) (p : Pattern) (rg : Region) (mb po : Z).
Abbreviation E := (expected_word cfg p mb po).

(** Offsets, among [n] from [i] on, of the words of [m] that are wrong. *)
Definition wrong (m : list Z) (i : Z) (n : nat) : list Z :=
  filter (fun j => aget 0 m (mb + j) <> E j) (zrange i n).

Definition rec (m : list Z) (j : Z) : ErrorRecord :=
  record_of cfg p rg mb j (aget 0 m (mb + j)) (E j).

Lemma wrong_S m i n :
  wrong m i (S n) =
  if aget 0 m (mb + i) =? E i then wrong m (i + 1) n else i :: wrong m (i + 1) n.
Proof.
  unfold wrong. cbn [zrange]. rewrite filter_cons.
  destruct (Z.eqb_spec (aget 0 m (mb + i)) (E i)); case_decide; done.
Qed.

Lemma elem_of_wrong m i n j :
  j ∈ wrong m i n <-> i <= j < i + Z.of_nat n /\ aget 0 m (mb + j) <> E j.
Proof. unfold wrong. rewrite list_elem_of_filter, elem_of_zrange. tauto. Qed.

Lemma wrong_ext m m' i n :
  (forall j, i <= j < i + Z.of_nat n -> aget 0 m (mb + j) = aget 0 m' (mb + j)) ->
  wrong m i n = wrong m' i n.
Proof.
  revert i. induction n as [|n IH]; intros i H; [done|]. rewrite !wrong_S, (H i) by lia.
  rewrite (IH (i + 1)); [done|]. intros j Hj. apply H. lia.
Qed.

(** The first loop: everything, or the first 128 and the place of the next one; of the
    thread only the counters change, and only if a word is wrong. *)
Lemma scan_loop_spec st ph n i recorded :
  let l := wrong (mem st) i n in
  let room := (128 - length recorded)%nat in
  (length recorded <= 128)%nat ->
  exists o, scan_loop cfg n st p rg ph mb po i recorded =
  (set_observed st o, recorded ++ map (rec (mem st)) (take room l), l !! room) /\
  (l = [] -> o = observed st).
Proof.
  cbv zeta. revert st i recorded. induction n as [|n IH]; intros st i recorded Hr.
  - exists (observed st). cbn. rewrite take_nil, lookup_nil, app_nil_r. by destruct st.
  - cbn [scan_loop]. rewrite wrong_S. destruct (aget 0 (mem st) (mb + i) =? E i); cbn [negb].
    + by apply IH.
    + unfold kErrorLimit. set (st1 := record_first_error cfg st ph (mb + i)).
      destruct (Z.ltb_spec (Z.of_nat (length recorded)) 128) as [Hlt|Hge].
      * edestruct (IH st1 (i + 1)) as (o & Ho & _); [|rewrite Ho; exists o].
        { rewrite length_app. cbn [length]. lia. }
        split; [|done]. rewrite length_app. cbn [length].
        replace (128 - length recorded)%nat with (S (128 - (length recorded + 1)))%nat by lia.
        cbn [firstn map]. by rewrite <- app_assoc.
      * exists (observed st1). split; [|done].
        replace (128 - length recorded)%nat with O by lia. rewrite take_0. cbn. by rewrite app_nil_r.
Qed.

(** What remains in memory, and the sequence of reports, after processing. *)
Definition triple (r : ErrorRecord * Z * Message) : Z * Z * Z :=
  (vaddr r.1.1, actual r.1.1, expected r.1.1).

Definition wrong_triple (m : list Z) (j : Z) : Z * Z * Z := (mb + j, aget 0 m (mb + j), E j).

(** [st'] is [st] after the wrong words at the offsets [l] were handled; [m] is the
    memory the values were read from. *)
Record handled (m : list Z) (l : list Z) (st st' : Thread) : Prop := {
  hd_mem : mem st' = store_words E mb l (mem st);
  hd_count : errorcount_ st' = errorcount_ st;
  hd_stop : error_stop st' = error_stop st || (stop_on_error cfg && negb (bool_decide (l = [])));
  hd_reports : map triple (reports st') = map triple (reports st) ++ map (wrong_triple m) l
}.

Lemma handled_nil m st : handled m [] st st.
Proof.
  split; cbn; [done | done | | by rewrite app_nil_r].
  by rewrite andb_false_r, orb_false_r.
Qed.

Lemma handled_app m l l' st st' st'' :
  handled m l st st' -> handled m l' st' st'' -> handled m (l ++ l') st st''.
Proof.
  intros [H1 H2 H3 H4] [K1 K2 K3 K4]. split.
  - unfold store_words. rewrite fold_left_app. unfold store_words in *. by rewrite K1, H1.
  - congruence.
  - rewrite K3, H3. destruct (error_stop st), (stop_on_error cfg), l, l'; done.
  - rewrite K4, H4, map_app, app_assoc. done.
Qed.

Lemma handled_one m st j prio msg :
  handled m [j] st (ProcessError cfg st (rec m j) prio msg).
Proof.
  unfold ProcessError. destruct (file_thread cfg); split; cbn; by rewrite ?andb_true_r, ?map_app.
Qed.

Lemma process_loop_handled m st l err msg :
  handled m l st (process_loop cfg st (map (rec m) l) err msg).
Proof.
  revert st err. induction l as [|j l IH]; intros st err; cbn [map process_loop].
  - apply handled_nil.
  - change (j :: l) with ([j] ++ l). eapply handled_app; [apply handled_one | apply IH].
Qed.

Lemma aget_store_later l st i :
  0 <= mb -> Forall (fun j => 0 <= j < i) l -> 
  forall j, i <= j -> aget 0 (store_words E mb l (mem st)) (mb + j) = aget 0 (mem st) (mb + j).
Proof.
  intros Hb Hl j Hj. revert st. induction Hl as [|x l Hx Hl IH]; intros st; [done|].
  cbn [store_words fold_left]. unfold store_words in IH.
  specialize (IH (set_mem st (aset (mem st) (mb + x) (E x)))). cbn [mem set_mem] in IH.
  rewrite IH. apply aget_aset_ne; lia.
Qed.

Lemma overflow_loop_handled m st n i k msg :
  0 <= mb -> 0 <= i ->
  (forall j, i <= j -> aget 0 (mem st) (mb + j) = aget 0 m (mb + j)) ->
  exists st', overflow_loop cfg n st p rg mb po i k msg =
    (st', k + Z.of_nat (length (wrong m i n))) /\ handled m (wrong m i n) st st'.
Proof.
  intros Hb. revert st i k. induction n as [|n IH]; intros st i k Hi Hm; cbn [overflow_loop].
  - exists st. split; [f_equal; cbn; lia | apply handled_nil].
  - rewrite wrong_S, Hm by lia. destruct (aget 0 m (mb + i) =? E i) eqn:He; cbn [negb].
    + apply IH; [lia|]. intros j Hj. apply Hm. lia.
    + destruct (IH (ProcessError cfg st (rec m i) 12 msg) (i + 1) (k + 1)) as (st' & Hst & Hh).
      { lia. }
      { intros j Hj. rewrite (hd_mem _ _ _ _ (handled_one m st i 12 msg)). cbn [store_words fold_left].
        rewrite aget_aset_ne by lia. apply Hm. lia. }
      exists st'. unfold rec in Hst. rewrite Hst. split; [f_equal; cbn [length]; lia|].
      change (i :: wrong m (i + 1) n) with ([i] ++ wrong m (i + 1) n).
      eapply handled_app; [apply handled_one | exact Hh].
Qed.

(** The wrong offsets are found in increasing order. *)
Lemma wrong_split m i n k s :
  wrong m i n !! k = Some s ->
  i <= s < i + Z.of_nat n /\
  drop k (wrong m i n) = wrong m s (Z.to_nat (i + Z.of_nat n - s)) /\
  Forall (fun j => i <= j < s) (take k (wrong m i n)).
Proof.
  revert i k. induction n as [|n IH]; intros i k Hk; [by destruct k|].
  rewrite wrong_S in *. destruct (aget 0 m (mb + i) =? E i) eqn:He.
  - destruct (IH (i + 1) k Hk) as (H1 & H2 & H3). split; [lia|]. rewrite H2. split.
    + f_equal. lia.
    + eapply Forall_impl; [exact H3|]. cbn. lia.
  - destruct k as [|k].
    + injection Hk as <-. split; [lia|]. rewrite drop_0. split; [|by rewrite take_0].
      replace (Z.to_nat (i + Z.of_nat (S n) - i)) with (S n) by lia. by rewrite wrong_S, He.
    + cbn in Hk. destruct (IH (i + 1) k Hk) as (H1 & H2 & H3). cbn [firstn skipn].
      split; [lia|]. split; [rewrite H2; f_equal; lia|].
      constructor; [lia|]. eapply Forall_impl; [exact H3|]. cbn. lia.
Qed.

Lemma CheckRegion_handled st pl pidx len :
  0 <= mb -> 0 <= len ->
  let n := Z.to_nat (len / wordsize_) in
  let l := wrong (mem st) 0 n in
  exists st', handled (mem st) l st st' /\
    CheckRegion cfg st pl p pidx rg mb len po =
    (add_errors st' (Z.of_nat (length l)), Z.of_nat (length l)).
Proof.
  intros Hb Hlen. cbv zeta. set (n := Z.to_nat (len / wordsize_)). set (l := wrong (mem st) 0 n).
  unfold CheckRegion. fold n.
  destruct (scan_loop_spec st (diagnostic_phase st (rg_worker_name rg) (rg_phase rg)) n 0 []) as (o & -> & _);
    [cbn; lia|]. cbn [app length]. rewrite Nat.sub_0_r.
  fold l. set (msg := if match l !! 128%nat with Some _ => true | None => false end then _ else _).
  set (st0 := set_observed st o).
  pose proof (process_loop_handled (mem st) st0 (take 128 l) 0 msg) as Hp.
  assert (Hobs : forall l' st', handled (mem st) l' st0 st' -> handled (mem st) l' st st')
    by (intros l' st' [? ? ? ?]; by split).
  destruct (l !! 128%nat) as [start|] eqn:Hl.
  - destruct (wrong_split (mem st) 0 n 128 start Hl) as (H1 & H2 & H3). fold l in H2, H3.
    destruct (overflow_loop_handled (mem st) (process_loop cfg st0 (map (rec (mem st)) (take 128 l)) 0 msg)
      (Z.to_nat (len / wordsize_ - start)) start 0 msg Hb) as (st' & Ho & Hh); [lia| |].
    { intros j Hj. rewrite (hd_mem _ _ _ _ Hp). by apply (aget_store_later _ st0 start). }
    assert (Hw : wrong (mem st) start (Z.to_nat (len / wordsize_ - start)) = drop 128 l).
    { rewrite H2. f_equal. unfold n. lia. }
    rewrite Hw in Ho, Hh. rewrite Ho. exists st'. split.
    + apply Hobs. rewrite <- (take_drop 128 l). eapply handled_app; [exact Hp | exact Hh].
    + assert (Hsz : Z.of_nat (length (map (rec (mem st)) (take 128 l))) +
        (0 + Z.of_nat (length (drop 128 l))) = Z.of_nat (length l)).
      { rewrite length_map, length_take, length_drop.
        apply lookup_lt_Some in Hl. lia. }
      by rewrite Hsz.
  - apply lookup_ge_None in Hl. rewrite take_ge in * by lia.
    exists (process_loop cfg st0 (map (rec (mem st)) l) 0 msg). split; [by apply Hobs|].
    by rewrite length_map, Z.add_0_r.
Qed.

Lemma CheckRegion_nothing st pl pidx len :
  wrong (mem st) 0 (Z.to_nat (len / wordsize_)) = [] ->
  CheckRegion cfg st pl p pidx rg mb len po = (st, 0).
Proof.
  intros Hn. unfold CheckRegion.
  destruct (scan_loop_spec st (diagnostic_phase st (rg_worker_name rg) (rg_phase rg))
    (Z.to_nat (len / wordsize_)) 0 []) as (o & -> & Ho); [cbn; lia|].
  rewrite Hn, take_nil, lookup_nil, (Ho Hn). unfold add_errors. cbn. rewrite Z.add_0_r. by destruct st.
Qed.

Lemma CheckRegion_repairs st pl pidx len :
  0 <= mb -> 0 <= len -> mb + len / wordsize_ <= Z.of_nat (length (mem st)) ->
  let n := Z.to_nat (len / wordsize_) in
  let l := wrong (mem st) 0 n in
  exists st', CheckRegion cfg st pl p pidx rg mb len po = (st', Z.of_nat (length l)) /\
    mem st' = filled E mb n (mem st) /\
    errorcount_ st' = errorcount_ st + Z.of_nat (length l) /\
    error_stop st' = error_stop st || (stop_on_error cfg && negb (bool_decide (l = []))) /\
    map triple (reports st') = map triple (reports st) ++ map (wrong_triple (mem st)) l.
Proof.
  intros Hb Hlen Hfit. cbv zeta. set (n := Z.to_nat (len / wordsize_)).
  assert (0 <= len / wordsize_) by (apply Z.div_pos; [done | unfold wordsize_; lia]).
  destruct (CheckRegion_handled st pl pidx len Hb Hlen) as (st' & [H1 H2 H3 H4] & ->). fold n in H1, H3, H4 |- *.
  eexists. split; [reflexivity|]. cbn [add_errors mem errorcount_ error_stop reports].
  rewrite H1, H2. split; [|done]. apply store_words_filled; [done | unfold n; lia | |].
  - intros i Hi. apply elem_of_wrong in Hi. lia.
  - intros i Hi Hn. destruct (decide (aget 0 (mem st) (mb + i) = E i)) as [|Hd]; [done|].
    exfalso. apply Hn, elem_of_wrong. split; [lia | done].
Qed.

End Check.

(** C3. The detailed comparison is exact.  However many words of the region are wrong,
    more than the 128 records included, [CheckRegion] returns their number and adds it
    to the thread's count; it passes each wrong word to [ProcessError] exactly once, in
    address order, with the value read and the value expected; the region then holds
    the expected values and no other word has changed; and a stop is requested exactly
    if an error was found and stopping is configured. *)
Theorem CheckRegion_exact cfg st pl p pidx rg mb len po :
  0 <= mb -> 0 <= len -> mb + len / wordsize_ <= Z.of_nat (length (mem st)) ->
  let n := Z.to_nat (len / wordsize_) in
  let l := wrong cfg p mb po (mem st) 0 n in
  exists st', CheckRegion cfg st pl p pidx rg mb len po = (st', Z.of_nat (length l)) /\
    mem st' = filled (expected_word cfg p mb po) mb n (mem st) /\
    errorcount_ st' = errorcount_ st + Z.of_nat (length l) /\
    error_stop st' = error_stop st || (stop_on_error cfg && negb (bool_decide (l = []))) /\
    map triple (reports st') = map triple (reports st) ++ map (wrong_triple cfg p mb po (mem st)) l.
Proof. apply CheckRegion_repairs. Qed.

(** A machine without channel information or page map, at a fixed frequency. *)
Definition sample_world : World :=
  mkWorld (fun _ _ => 800) (fun _ => 0) (fun _ => 1) OsLayerFacts.sample_os 4096 (fun _ => None).
Definition sample_observed : Observed :=
  mkObserved (Some Diagnostics.new_phase_stats) (Diagnostics.mkErrorLog 0 0 0)
    ErrorDiag.InitializeDeviceTree [].
Definition sample_source (p : Pattern) : Source := mkSource p 24 0 0 0 "check" "runtime_check".
Definition sample_config : Config := mkConfig 1024 FILL_DIRECTION_UP 0 true false 0 8 (-1) sample_world None.
Definition sample_pattern : Pattern := snd (Initialize OneZero 32 false 5 0).
Definition sample_thread : Thread := mkThread [0xffffffff00000000; 7; 0xffffffff00000000; 9] 0 false []
  sample_observed.

Lemma CheckRegion_exact_witness :
  exists st', CheckRegion sample_config sample_thread new_PatternList sample_pattern 24
    (mkRegion 0 0 0 "check" "runtime_check" 0) 0 32 0 = (st', 2) /\
    mem st' = replicate 4 0xffffffff00000000 /\ error_stop st' = true.
Proof.
  destruct (CheckRegion_exact sample_config sample_thread new_PatternList sample_pattern 24
    (mkRegion 0 0 0 "check" "runtime_check" 0) 0 32 0) as (st' & H1 & H2 & H3 & H4 & H5).
  - lia.
  - lia.
  - discriminate.
  - exists st'. split; [exact H1|]. rewrite H2, H4. split; reflexivity.
Defined.

(** ** Pages *)

(** A pattern as the list provides it. *)
Record good_pattern (p : Pattern) : Prop := {
  good_wf : wf_pattern p;
  good_crc : crc p = Some (adler_ref (pattern_block p 512) 256)
}.

Lemma initialized_good off p :
  0 <= off < 2 ^ 32 -> p ∈ patterns_ (initialized off) -> good_pattern p.
Proof.
  intros Hoff Hp. pose proof (proj1 (Forall_forall _ _) (wf_initialized off Hoff) p Hp) as Hwf.
  destruct (initialized_crc off p Hp) as [p0 ->]. split; [done|].
  unfold crc. rewrite CalculateCrc_ref; [done|]. by destruct Hwf.
Qed.

Lemma run_from_ext mem mem' k n s :
  (forall i, 2 * k <= i < 2 * (k + Z.of_nat n) -> aget 0 mem i = aget 0 mem' i) ->
  run_from mem k n s = run_from mem' k n s.
Proof.
  revert k s. induction n as [|n IH]; intros k s H; [done|].
  change (run_from mem k (S n) s) with (run_from mem (k + 1) n (pair_step mem s k)).
  change (run_from mem' k (S n) s) with (run_from mem' (k + 1) n (pair_step mem' s k)).
  unfold pair_step. rewrite !(H (2 * k)), !(H (2 * k + 1)) by lia. apply IH.
  intros i Hi. apply H. lia.
Qed.

Lemma aget_drop m a i : 0 <= a -> 0 <= i -> aget 0 (drop (Z.to_nat a) m) i = aget 0 m (a + i).
Proof.
  intros Ha Hi. unfold aget. rewrite !nth_lookup, lookup_drop. do 2 f_equal. lia.
Qed.

(** The checksum accepts a correct block and rejects one with a single wrong word. *)
Lemma block_crc_accepts p m a :
  good_pattern p -> 0 <= a ->
  (forall i, 0 <= i < 512 -> aget 0 m (a + i) = pattern_word p i) ->
  crc_ok (adler_ref (drop (Z.to_nat a) m) 256) p = true.
Proof.
  intros [Hwf Hc] Ha Hm. unfold crc_ok. rewrite Hc. apply Equals_spec.
  unfold adler_ref. f_equal. apply run_from_ext. intros i Hi.
  rewrite aget_drop, Hm, aget_pattern_block by lia. done.
Qed.

Lemma block_crc_rejects p m a j :
  good_pattern p -> 0 <= a -> 0 <= j < 512 ->
  Forall (fun w => 0 <= w < 2 ^ 64) m ->
  (forall i, 0 <= i < 512 -> i <> j -> aget 0 m (a + i) = pattern_word p i) ->
  aget 0 m (a + j) <> pattern_word p j ->
  crc_ok (adler_ref (drop (Z.to_nat a) m) 256) p = false.
Proof.
  intros [Hwf Hc] Ha Hj Hr Hsame Hne. unfold crc_ok. rewrite Hc.
  apply not_true_iff_false. intros He. apply Equals_spec in He.
  revert He. apply (adler_ref_detects _ _ 256 j); [lia | | | |].
  - intros i Hi Hij. by rewrite aget_drop, Hsame, aget_pattern_block by lia.
  - rewrite aget_drop by lia. apply (nth_In_or_default (fun w => 0 <= w < 2 ^ 64)); [done | lia].
  - rewrite aget_pattern_block by lia. apply pattern_word_bound; [done | lia].
  - by rewrite aget_drop, aget_pattern_block by lia.
Qed.

Lemma zrange_shift a b n : zrange (a + b) n = map (Z.add a) (zrange b n).
Proof.
  revert b. induction n as [|n IH]; intros b; [done|]. cbn [zrange map]. f_equal.
  rewrite <- IH. f_equal. lia.
Qed.

Lemma filter_map {A B} (f : A -> B) (P : B -> Prop) `{!forall x, Decision (P x)} (l : list A) :
  filter P (map f l) = map f (filter (fun x => P (f x)) l).
Proof.
  induction l as [|x l IH]; [done|]. cbn [map]. rewrite !filter_cons.
  destruct (decide (P (f x))); cbn [map]; by rewrite IH.
Qed.

Section Page.
Context (cfg : Config) (p : Pattern) (Hp : good_pattern p) (base : Z) (Hbase : 0 <= base).
Context (Htag : tag_mode_ cfg = false).

Lemma expected_plain mb i : 0 <= i < 2 ^ 29 -> expected_word cfg p mb 0 i = pattern_word p i.
Proof.
  intros Hi. unfold expected_word. rewrite Htag. cbn [andb]. rewrite Z.add_0_r, s32_id by lia.
  by rewrite !u32_id by lia.
Qed.

Lemma general_plain i : 0 <= i < 2 ^ 29 -> general_word cfg p base i = pattern_word p i.
Proof.
  intros Hi. unfold general_word. rewrite Htag. cbn [andb].
  rewrite Z.shiftl_mul_pow2, (Z.mul_comm i) by lia. change (2 ^ 1) with 2. by rewrite !u32_id by lia.
Qed.

(** Offsets in the page of the wrong words among [n] from [lo] on. *)
Definition bad_words (m : list Z) (lo : Z) (n : nat) : list Z :=
  filter (fun j => aget 0 m (base + j) <> pattern_word p j) (zrange lo n).

Lemma elem_of_bad_words m lo n j :
  j ∈ bad_words m lo n <-> lo <= j < lo + Z.of_nat n /\ aget 0 m (base + j) <> pattern_word p j.
Proof. unfold bad_words. rewrite list_elem_of_filter, elem_of_zrange. tauto. Qed.

Lemma bad_words_app m lo n k :
  bad_words m lo (n + k) = bad_words m lo n ++ bad_words m (lo + Z.of_nat n) k.
Proof. unfold bad_words. by rewrite zrange_app, filter_app. Qed.

Lemma filter_ext_in {A} (P Q : A -> Prop) `{!forall x, Decision (P x)} `{!forall x, Decision (Q x)}
    (l : list A) : (forall x, x ∈ l -> P x <-> Q x) -> filter P l = filter Q l.
Proof.
  induction l as [|x l IH]; intros Heq; [done|]. rewrite !filter_cons.
  pose proof (Heq x (list_elem_of_here _ _)) as Hx.
  rewrite IH by (intros y Hy; apply Heq; by constructor). repeat case_decide; tauto || done.
Qed.

(** A region of the page that starts at a multiple of 512 words. *)
Lemma wrong_bad_words m cb n :
  0 <= cb -> 512 * cb + Z.of_nat n <= 2 ^ 29 ->
  map (Z.add (512 * cb)) (wrong cfg p (base + 512 * cb) 0 m 0 n) = bad_words m (512 * cb) n.
Proof.
  intros Hcb Hn. unfold bad_words, wrong.
  replace (zrange (512 * cb) n) with (zrange (512 * cb + 0) n) by (f_equal; lia).
  rewrite zrange_shift, filter_map. f_equal.
  apply filter_ext_in. intros j Hj. apply elem_of_zrange in Hj.
  rewrite expected_plain by lia. rewrite (Z.add_comm (512 * cb) j), pattern_word_period;
    [| apply Hp | lia | lia].
  by replace (base + (j + 512 * cb)) with (base + 512 * cb + j) by lia.
Qed.

(** [st'] is [st] with [n] words of the page from [lo] on checked and repaired. *)
Record repaired (lo : Z) (n : nat) (st st' : Thread) : Prop := {
  rp_mem : mem st' = filled (fun i => pattern_word p (lo + i)) (base + lo) n (mem st);
  rp_count : errorcount_ st' = errorcount_ st + Z.of_nat (length (bad_words (mem st) lo n));
  rp_stop : error_stop st' = error_stop st ||
              (stop_on_error cfg && negb (bool_decide (bad_words (mem st) lo n = [])));
  rp_reports : map triple (reports st') = map triple (reports st) ++
     map (fun j => (base + j, aget 0 (mem st) (base + j), pattern_word p j))
       (bad_words (mem st) lo n)
}.

Lemma filled_app f b k n m :
  0 <= b -> filled (fun i => f (Z.of_nat k + i)) (b + Z.of_nat k) n (filled f b k m) = filled f b (k + n) m.
Proof.
  intros Hb. apply list_eq. intros x. rewrite !lookup_filled. destruct (m !! x) as [w|]; [|done].
  cbn. f_equal. repeat case_decide; try lia; try done. f_equal. lia.
Qed.

Lemma filled_same f b n m :
  (forall i, 0 <= i < Z.of_nat n -> aget 0 m (b + i) = f i) -> 0 <= b -> filled f b n m = m.
Proof.
  intros H Hb. apply list_eq. intros k. rewrite lookup_filled. destruct (m !! k) as [w|] eqn:Hw; [|done].
  cbn. case_decide as Hd; [|done]. f_equal. rewrite <- H by lia.
  apply aget_lookup; [lia|]. by replace (Z.to_nat (b + (Z.of_nat k - b))) with k by lia.
Qed.

Lemma bad_words_later m f lo k n :
  0 <= lo -> bad_words (filled f (base + lo) k m) (lo + Z.of_nat k) n = bad_words m (lo + Z.of_nat k) n.
Proof.
  intros Hlo. apply filter_ext_in. intros j Hj. apply elem_of_zrange in Hj.
  by rewrite aget_filled_out by lia.
Qed.

Lemma repaired_app lo k n st st1 st2 :
  0 <= lo -> repaired lo k st st1 -> repaired (lo + Z.of_nat k) n st1 st2 -> repaired lo (k + n) st st2.
Proof.
  intros Hlo [H1 H2 H3 H4] [K1 K2 K3 K4].
  assert (Hb : bad_words (mem st1) (lo + Z.of_nat k) n = bad_words (mem st) (lo + Z.of_nat k) n)
    by (rewrite H1; by apply bad_words_later).
  split.
  - rewrite K1, H1. rewrite <- (filled_app _ (base + lo) k n) by lia.
    replace (base + (lo + Z.of_nat k)) with (base + lo + Z.of_nat k) by lia.
    apply filled_ext. intros i Hi. f_equal. lia.
  - rewrite K2, H2, Hb, bad_words_app, length_app. lia.
  - rewrite K3, H3, Hb, bad_words_app. destruct (error_stop st), (stop_on_error cfg),
      (bad_words (mem st) lo k), (bad_words (mem st) (lo + Z.of_nat k) n); done.
  - rewrite K4, H4, Hb, bad_words_app, map_app, app_assoc. f_equal.
    apply map_ext_in. intros j Hj%list_elem_of_In. rewrite <- Hb in Hj.
    apply elem_of_bad_words in Hj as [Hj _]. rewrite H1, aget_filled_out by lia. done.
Qed.

Lemma region_repaired st pl pidx rg cb len :
  0 <= cb -> 0 <= len -> 512 * cb + len / 8 <= 2 ^ 29 ->
  base + 512 * cb + len / 8 <= Z.of_nat (length (mem st)) ->
  let n := Z.to_nat (len / 8) in
  exists st', CheckRegion cfg st pl p pidx rg (base + 512 * cb) len 0 =
    (st', Z.of_nat (length (bad_words (mem st) (512 * cb) n))) /\ repaired (512 * cb) n st st'.
Proof.
  intros Hcb Hlen Hmax Hfit n. pose proof (Z.div_pos len 8 Hlen ltac:(lia)).
  destruct (CheckRegion_repairs cfg p rg (base + 512 * cb) 0 st pl pidx len)
    as (st' & H1 & H2 & H3 & H4 & H5); [lia | done | done |].
  change (len / wordsize_) with (len / 8) in *. fold n in H1, H2, H3, H4, H5.
  assert (Hw := wrong_bad_words (mem st) cb n Hcb ltac:(unfold n; lia)).
  assert (Hlw : length (wrong cfg p (base + 512 * cb) 0 (mem st) 0 n) =
    length (bad_words (mem st) (512 * cb) n)) by (by rewrite <- Hw, length_map).
  exists st'. rewrite H1, Hlw. split; [done|]. split.
  - rewrite H2. apply filled_ext. intros i Hi. rewrite expected_plain by lia.
    rewrite Z.add_comm, pattern_word_period; [done | apply Hp | unfold n in Hi; lia | unfold n in Hi; lia].
  - by rewrite H3, Hlw.
  - rewrite H4. do 3 f_equal. apply bool_decide_ext. rewrite <- Hw.
    by destruct (wrong cfg p (base + 512 * cb) 0 (mem st) 0 n).
  - rewrite H5. f_equal. rewrite <- Hw, map_map. apply map_ext_in.
    intros j Hj%list_elem_of_In. apply elem_of_wrong in Hj as [Hj _].
    unfold wrong_triple. rewrite expected_plain by (unfold n in Hj; lia).
    rewrite (Z.add_comm (512 * cb) j), pattern_word_period; [| apply Hp | unfold n in Hj; lia | unfold n in Hj; lia].
    by replace (base + (j + 512 * cb)) with (base + 512 * cb + j) by lia.
Qed.

Lemma repaired_nothing lo n st :
  0 <= lo -> bad_words (mem st) lo n = [] -> repaired lo n st st.
Proof.
  intros Hlo Hb. split; rewrite ?Hb; cbn [length map].
  - symmetry. apply filled_same; [|lia]. intros i Hi.
    destruct (decide (aget 0 (mem st) (base + lo + i) = pattern_word p (lo + i))) as [|Hd]; [done|].
    exfalso. assert (Hin : lo + i ∈ bad_words (mem st) lo n).
    { apply elem_of_bad_words. split; [lia|]. by rewrite Z.add_assoc. }
    rewrite Hb in Hin. by apply elem_of_nil in Hin.
  - lia.
  - rewrite bool_decide_eq_true_2 by done. by rewrite andb_false_r, orb_false_r.
  - by rewrite app_nil_r.
Qed.

Definition words64 (m : list Z) : Prop := Forall (fun w => 0 <= w < 2 ^ 64) m.

Lemma repaired_words64 lo n st st' :
  0 <= lo -> lo + Z.of_nat n <= 2 ^ 29 -> repaired lo n st st' -> words64 (mem st) -> words64 (mem st').
Proof.
  intros Hlo Hn [-> _ _ _] Hm. apply Forall_lookup. intros k w Hk. rewrite lookup_filled in Hk.
  destruct (mem st !! k) as [v|] eqn:Hv; [|done]. cbn in Hk. injection Hk as <-.
  case_decide; [apply pattern_word_bound; [apply Hp | lia]|].
  exact (proj1 (Forall_lookup _ _) Hm k v Hv).
Qed.

(** Whether the checksum of the block at page offset [512 cb] tells right from wrong. *)
Lemma block_crc_decides m cb :
  0 <= cb -> 512 * cb + 512 <= 2 ^ 29 -> words64 m ->
  (length (bad_words m (512 * cb) 512) <= 1)%nat ->
  crc_ok (adler_ref (drop (Z.to_nat (base + 512 * cb)) m) 256) p =
  bool_decide (bad_words m (512 * cb) 512 = []).
Proof.
  intros Hcb Hmax Hm Hone.
  assert (Hper : forall i, 0 <= i < 512 -> pattern_word p (512 * cb + i) = pattern_word p i).
  { intros i Hi. rewrite Z.add_comm. apply pattern_word_period; [apply Hp | lia | lia]. }
  assert (Hgood : forall i, 0 <= i < 512 -> 512 * cb + i ∉ bad_words m (512 * cb) 512 ->
    aget 0 m (base + 512 * cb + i) = pattern_word p i).
  { intros i Hi Hn. rewrite <- Hper, <- Z.add_assoc by done.
    destruct (decide (aget 0 m (base + (512 * cb + i)) = pattern_word p (512 * cb + i))); [done|].
    exfalso. apply Hn, elem_of_bad_words. split; [lia | done]. }
  destruct (bad_words m (512 * cb) 512) as [|j [|]] eqn:Hb; [| |cbn in Hone; lia].
  - apply block_crc_accepts; [done | lia|]. intros i Hi. apply Hgood; [done | apply not_elem_of_nil].
  - assert (Hj : j ∈ bad_words m (512 * cb) 512) by (rewrite Hb; constructor).
    apply elem_of_bad_words in Hj as [Hj Hne].
    apply (block_crc_rejects p m (base + 512 * cb) (j - 512 * cb)); [done | lia | lia | done | |].
    + intros i Hi Hij. apply Hgood; [done|]. rewrite list_elem_of_singleton. lia.
    + rewrite <- Hper by lia. replace (base + 512 * cb + (j - 512 * cb)) with (base + j) by lia.
      by replace (512 * cb + (j - 512 * cb)) with j by lia.
Qed.

(** Every complete block has at most one wrong word. *)
Definition sparse (m : list Z) (lo : Z) (n : nat) : Prop :=
  forall b, lo <= b < lo + Z.of_nat n -> (length (bad_words m (512 * b) 512) <= 1)%nat.

Lemma sparse_later st st' cb n :
  0 <= cb -> repaired (512 * cb) 512 st st' -> sparse (mem st) cb (S n) -> sparse (mem st') (cb + 1) n.
Proof.
  intros Hcb Hr Hs b Hb. rewrite (rp_mem _ _ _ _ Hr).
  assert (Hbw : bad_words (filled (fun i => pattern_word p (512 * cb + i)) (base + 512 * cb) 512 (mem st))
    (512 * b) 512 = bad_words (mem st) (512 * b) 512).
  { apply filter_ext_in. intros j Hj. apply elem_of_zrange in Hj. by rewrite aget_filled_out by lia. }
  rewrite Hbw. apply Hs. lia.
Qed.

Lemma repaired_observed lo n st o st' :
  repaired lo n (set_observed st o) st' -> repaired lo n st st'.
Proof. intros [? ? ? ?]. by split. Qed.

Lemma length_repaired lo n st st' : repaired lo n st st' -> length (mem st') = length (mem st).
Proof. intros [-> _ _ _]. apply length_filled. Qed.

Lemma CalculateAdlerChecksum_block m : CalculateAdlerChecksum m blocksize = Some (adler_ref m 256).
Proof. apply (Calculate_ref m 256). lia. Qed.

Lemma check_blocks_spec n st pl s cb e :
  src_pattern s = p -> 0 <= cb -> 512 * (cb + Z.of_nat n) <= 2 ^ 29 ->
  base + 512 * (cb + Z.of_nat n) <= Z.of_nat (length (mem st)) ->
  words64 (mem st) -> sparse (mem st) cb n ->
  exists st', check_blocks cfg n st pl s base cb e =
    Some (st', e + Z.of_nat (length (bad_words (mem st) (512 * cb) (512 * n)))) /\
    repaired (512 * cb) (512 * n) st st'.
Proof.
  intros Hsp. revert st cb e. induction n as [|n IH]; intros st cb e Hcb Hmax Hfit Hm Hs.
  - exists st. rewrite Nat.mul_0_r. split; [cbn; f_equal; f_equal; lia|].
    apply repaired_nothing; [lia | done].
  - cbn [check_blocks]. unfold block_crc. rewrite Htag, CalculateAdlerChecksum_block, Hsp.
    change (cb * blockwords) with (cb * 512). rewrite (Z.mul_comm cb 512).
    cbn [fmap option_fmap option_map].
    rewrite block_crc_decides; [| done | lia | done | apply Hs; lia].
    assert (Hstep : exists st1, (if bool_decide (bad_words (mem st) (512 * cb) 512 = []) then (st, 0)
       else CheckRegion cfg (record_mismatch st s) pl p (src_pidx s) (region_of s (src_write_freq s) cb)
              (base + 512 * cb) blocksize 0) =
       (st1, Z.of_nat (length (bad_words (mem st) (512 * cb) 512))) /\ repaired (512 * cb) 512 st st1).
    { case_bool_decide as Hb.
      - exists st. rewrite Hb. split; [done|]. apply repaired_nothing; [lia | done].
      - destruct (region_repaired (record_mismatch st s) pl (src_pidx s) (region_of s (src_write_freq s) cb)
          cb blocksize) as (st1 & Hc & Hr);
          [lia | unfold blocksize; lia | change (blocksize / 8) with 512; lia
          | change (blocksize / 8) with 512; cbn [record_mismatch set_stats set_observed mem]; lia |].
        exists st1. split; [exact Hc|]. exact (repaired_observed _ _ _ _ _ Hr). }
    destruct Hstep as (st1 & -> & Hr1).
    destruct (IH st1 (cb + 1) (e + Z.of_nat (length (bad_words (mem st) (512 * cb) 512))))
      as (st' & -> & Hr).
    + lia.
    + lia.
    + rewrite (length_repaired _ _ _ _ Hr1). lia.
    + eapply repaired_words64; [| | exact Hr1 | exact Hm]; lia.
    + by apply (sparse_later st).
    + exists st'. replace (512 * (cb + 1)) with (512 * cb + Z.of_nat 512) in * by lia.
      replace (512 * S n)%nat with (512 + 512 * n)%nat by lia. split.
      * rewrite bad_words_app, length_app. rewrite (rp_mem _ _ _ _ Hr1), bad_words_later by lia.
        f_equal. f_equal. lia.
      * apply (repaired_app _ _ _ _ st1); [lia | done | done].
Qed.

(** The page as its complete blocks and the rest. *)
Lemma page_words_split :
  0 <= page_length cfg -> page_length cfg mod 8 = 0 ->
  page_words cfg = (512 * Z.to_nat (page_length cfg / 4096) +
                    Z.to_nat (page_length cfg mod 4096 / 8))%nat.
Proof.
  intros H0 H8. unfold page_words, wordsize_.
  pose proof (Z.div_mod (page_length cfg) 4096). pose proof (Z.mod_pos_bound (page_length cfg) 4096).
  pose proof (Z.div_pos (page_length cfg) 4096). pose proof (Z.div_pos (page_length cfg mod 4096) 8).
  assert (page_length cfg / 8 = 512 * (page_length cfg / 4096) + page_length cfg mod 4096 / 8); [|lia].
  rewrite (Z.div_mod (page_length cfg) 4096) at 1 by lia.
  replace (4096 * (page_length cfg / 4096)) with (512 * (page_length cfg / 4096) * 8) by lia.
  by rewrite Z.div_add_l by lia.
Qed.

Lemma CrcCheckPage_spec st pl s :
  src_pattern s = p -> 0 <= page_length cfg < 2 ^ 31 -> page_length cfg mod 8 = 0 ->
  base + page_length cfg / 8 <= Z.of_nat (length (mem st)) ->
  words64 (mem st) -> sparse (mem st) 0 (Z.to_nat (page_length cfg / 4096)) ->
  exists st', CrcCheckPage cfg st pl s base =
    Some (st', Z.of_nat (length (bad_words (mem st) 0 (page_words cfg)))) /\
    repaired 0 (page_words cfg) st st'.
Proof.
  intros Hsp Hl H8 Hfit Hm Hs. unfold CrcCheckPage. change blocksize with 4096.
  pose proof (page_words_split ltac:(lia) H8) as Hw.
  set (nb := page_length cfg / 4096) in *. set (lo := page_length cfg mod 4096) in *.
  pose proof (Z.div_mod (page_length cfg) 4096). pose proof (Z.mod_pos_bound (page_length cfg) 4096).
  assert (Hnb : 0 <= nb) by (apply Z.div_pos; lia).
  assert (Hlo8 : 0 <= lo / 8) by (apply Z.div_pos; unfold lo; lia).
  assert (Hwords : Z.of_nat (page_words cfg) = page_length cfg / 8)
    by (unfold page_words, wordsize_; pose proof (Z.div_pos (page_length cfg) 8); lia).
  assert (Hmax : page_length cfg / 8 < 2 ^ 28) by (apply Z.div_lt_upper_bound; lia).
  destruct (check_blocks_spec (Z.to_nat nb) st pl s 0 0 Hsp) as (st1 & -> & Hr1); [lia.. | done | done |].
  rewrite !Z.mul_0_r in *. rewrite Z.add_0_l. destruct (Z.eqb_spec lo 0) as [Hz|Hz].
  - exists st1. rewrite Hw, Hz. change (Z.to_nat (0 / 8)) with O. rewrite Nat.add_0_r. done.
  - rewrite Hsp. change blockwords with 512. rewrite (Z.mul_comm nb 512).
    destruct (region_repaired st1 pl (src_pidx s) (region_of s (src_write_freq s) nb) nb lo)
      as (st2 & -> & Hr2); [lia | unfold lo; lia | lia | rewrite (length_repaired _ _ _ _ Hr1); lia |].
    exists st2. replace (512 * nb) with (0 + Z.of_nat (512 * Z.to_nat nb)) in * by lia. rewrite Hw. split.
    + rewrite (bad_words_app _ 0), length_app, (rp_mem _ _ _ _ Hr1).
      rewrite <- (Z.add_0_l (Z.of_nat (512 * Z.to_nat nb))) at 1.
      rewrite bad_words_later by lia. f_equal. f_equal. lia.
    + by apply (repaired_app _ _ _ _ st1).
Qed.

End Page.

(** ** Clean pages, with and without tags *)

Section Clean.
Context (cfg : Config) (p : Pattern) (Hp : good_pattern p) (base : Z) (Hbase : 0 <= base).

(** Tagged pages start on a cache line, in the 64-bit address space. *)
Definition aligned : Prop :=
  tag_mode_ cfg = true -> mem_base cfg mod 64 = 0 /\ base mod 8 = 0 /\ 0 <= mem_base cfg < 2 ^ 63 /\
  base < 2 ^ 58.

Context (Hal : aligned).

Lemma land_7 i : Z.land i 0x7 = i mod 8.
Proof. exact (Z.land_ones i 3 ltac:(lia)). Qed.

(** The two tests for a tagged word agree. *)
Lemma tag_tests w :
  tag_mode_ cfg = true -> 0 <= w < 2 ^ 58 ->
  (Z.land (u64 (addr_of cfg (base + w))) 0x3f =? 0) = (Z.land w 0x7 =? 0).
Proof.
  intros Ht Hw. destruct (Hal Ht) as (H1 & H2 & H3 & H4). unfold addr_of.
  rewrite u64_id by lia. rewrite land_7. change 0x3f with (Z.ones 6). rewrite Z.land_ones by lia.
  change (2 ^ 6) with 64.
  pose proof (Z.div_mod (mem_base cfg) 64). pose proof (Z.div_mod base 8). pose proof (Z.div_mod w 8).
  pose proof (Z.mod_pos_bound w 8).
  assert (He : (mem_base cfg + 8 * (base + w)) mod 64 = 8 * (w mod 8)).
  { symmetry. apply Z.mod_unique with (mem_base cfg / 64 + base / 8 + w / 8); lia. }
  rewrite He. destruct (Z.eqb_spec (8 * (w mod 8)) 0), (Z.eqb_spec (w mod 8) 0); lia || done.
Qed.

(** What a slice of the page at a multiple of 512 words should hold. *)
Lemma general_block cb i :
  0 <= cb -> 0 <= i < 512 -> 512 * cb + i < 2 ^ 29 ->
  general_word cfg p base (512 * cb + i) =
  if tag_mode_ cfg && (Z.land i 0x7 =? 0) then addr_to_tag cfg (base + 512 * cb + i) else pattern_word p i.
Proof.
  intros Hcb Hi Hmax. unfold general_word. rewrite !land_7.
  replace ((512 * cb + i) mod 8) with (i mod 8)
    by (replace (512 * cb + i) with (i + 64 * cb * 8) by lia; by rewrite Z_mod_plus_full).
  rewrite Z.add_assoc. case_if_eqn; [done|].
  rewrite Z.shiftl_mul_pow2 by lia. change (2 ^ 1) with 2. rewrite !u32_id by lia.
  replace ((512 * cb + i) * 2) with (2 * i + 1024 * cb) by lia.
  replace (2 * i + 1024 * cb + 1) with (2 * i + 1 + 1024 * cb) by lia.
  rewrite !pattern_period by (apply Hp || lia). done.
Qed.

Lemma addr_crc_loop_clean st srcmem wf n k fuel s blk :
  tag_mode_ cfg = true -> (n < fuel)%nat -> 0 <= k -> k + Z.of_nat n <= 256 ->
  (forall i, 0 <= i < 512 -> aget 0 (mem st) (srcmem + i) =
     if Z.land i 0x7 =? 0 then addr_to_tag cfg (srcmem + i) else pattern_word p i) ->
  (forall i, 0 <= i < 512 -> aget 0 blk i = pattern_word p i) ->
  addr_crc_loop cfg fuel st p srcmem wf (2 * (k + Z.of_nat n)) (2 * k) s.1 s.2 =
  Some (st, run_from blk k n s).
Proof.
  intros Ht Hf Hk Hmax Hmem Hblk. revert k fuel s Hf Hk Hmax.
  induction n as [|n IH]; intros k [|fuel] s Hf Hk Hmax; try lia; cbn [addr_crc_loop].
  - rewrite (proj2 (Z.ltb_ge _ _)) by lia. by destruct s.
  - rewrite (proj2 (Z.ltb_lt _ _)) by lia.
    assert (Hodd : (Z.land (2 * k + 1) 0x7 =? 0) = false).
    { rewrite land_7. apply Z.eqb_neq. intros H0. pose proof (Z.div_mod (2 * k + 1) 8). lia. }
    assert (Htc : tag_check cfg st p srcmem wf (2 * k) = (st, pattern_word p (2 * k))).
    { unfold tag_check. rewrite Hmem by lia. destruct (Z.land (2 * k) 0x7 =? 0); [|done].
      rewrite Z.eqb_refl. cbn [negb]. f_equal. unfold pattern_word.
      rewrite Z.shiftl_mul_pow2 by lia. change (2 ^ 1) with 2. rewrite !u32_id by lia.
      by rewrite (Z.mul_comm (2 * k) 2). }
    rewrite Htc, Hmem, Hodd by lia.
    replace (2 * k + 1 + 1) with (2 * (k + 1)) by lia.
    replace (k + Z.of_nat (S n)) with (k + 1 + Z.of_nat n) by lia.
    change (run_from blk k (S n) s) with (run_from blk (k + 1) n (pair_step blk s k)).
    unfold pair_step. rewrite !Hblk by lia.
    by rewrite <- (IH (k + 1) fuel (_, _)) by lia.
Qed.

Lemma AdlerAddrCrcC_clean st srcmem wf n blk :
  tag_mode_ cfg = true -> Z.of_nat n <= 256 ->
  (forall i, 0 <= i < 512 -> aget 0 (mem st) (srcmem + i) =
     if Z.land i 0x7 =? 0 then addr_to_tag cfg (srcmem + i) else pattern_word p i) ->
  (forall i, 0 <= i < 512 -> aget 0 blk i = pattern_word p i) ->
  AdlerAddrCrcC cfg st p srcmem (16 * Z.of_nat n) wf = Some (st, adler_ref blk n).
Proof.
  intros Ht Hn Hmem Hblk. unfold AdlerAddrCrcC, loop_fuel.
  replace (16 * Z.of_nat n / 8) with (2 * (0 + Z.of_nat n))
    by (replace (16 * Z.of_nat n) with (2 * Z.of_nat n * 8) by lia; by rewrite Z.div_mul by lia).
  rewrite (proj2 (Z.ltb_ge _ _)) by (change (Z.shiftl 1 19) with (2 ^ 19); lia).
  pose proof (addr_crc_loop_clean st srcmem wf n 0 (S (Z.to_nat (2 * (0 + Z.of_nat n)))) ((1, 0), (1, 0))
    blk Ht) as H.
  cbn [fst snd] in H. change (2 * 0) with 0 in H. rewrite H by (done || lia).
  unfold adler_ref. by destruct (run_from _ _ _ _) as [[? ?] [? ?]].
Qed.

Lemma block_crc_clean st s cb :
  src_pattern s = p -> 0 <= cb -> 512 * cb + 512 <= 2 ^ 29 ->
  (forall i, 0 <= i < 512 -> aget 0 (mem st) (base + (512 * cb + i)) = general_word cfg p base (512 * cb + i)) ->
  exists c, block_crc cfg st s (base + 512 * cb) = Some (st, c) /\ crc_ok c p = true.
Proof.
  intros Hs Hcb Hmax Hmem. unfold block_crc. rewrite Hs.
  assert (Hslice : forall i, 0 <= i < 512 -> aget 0 (mem st) (base + 512 * cb + i) =
    if tag_mode_ cfg && (Z.land i 0x7 =? 0) then addr_to_tag cfg (base + 512 * cb + i) else pattern_word p i).
  { intros i Hi. rewrite <- general_block, <- Z.add_assoc, <- Hmem by lia. done. }
  destruct (tag_mode_ cfg) eqn:Ht.
  - exists (adler_ref (pattern_block p 512) 256). split.
    + change blocksize with (16 * Z.of_nat 256).
      rewrite (AdlerAddrCrcC_clean st _ _ 256 (pattern_block p 512)); [done | done | lia | done |].
      intros i Hi. by apply aget_pattern_block.
    + unfold crc_ok. rewrite (good_crc p Hp). by apply Equals_spec.
  - rewrite CalculateAdlerChecksum_block. cbn. eexists. split; [reflexivity|].
    apply block_crc_accepts; [done | lia | done].
Qed.

Lemma expected_general cb i :
  0 <= cb -> 0 <= i < 512 -> 512 * cb + i < 2 ^ 29 ->
  expected_word cfg p (base + 512 * cb) 0 i = general_word cfg p base (512 * cb + i).
Proof.
  intros Hcb Hi Hmax. rewrite general_block by done. unfold expected_word.
  assert (Hpw : l64 (pattern p (u32 (s32 (2 * i + 0)))) (pattern p (u32 (s32 (2 * i + 0) + 1))) = pattern_word p i)
    by (rewrite Z.add_0_r, s32_id by lia; by rewrite !u32_id by lia).
  rewrite Hpw. destruct (tag_mode_ cfg) eqn:Ht; [|done]. cbn [andb].
  pose proof (tag_tests (512 * cb + i) Ht ltac:(lia)) as He. rewrite Z.add_assoc in He.
  assert (Hl : Z.land (512 * cb + i) 0x7 = Z.land i 0x7).
  { rewrite !land_7. replace (512 * cb + i) with (i + 64 * cb * 8) by lia. apply Z_mod_plus_full. }
  by rewrite He, Hl.
Qed.

(** The page holds what [FillPage] writes. *)
Definition clean (m : list Z) : Prop :=
  forall i, 0 <= i < Z.of_nat (page_words cfg) -> aget 0 m (base + i) = general_word cfg p base i.

Lemma check_blocks_clean n st pl s cb e :
  src_pattern s = p -> 0 <= cb -> 512 * (cb + Z.of_nat n) <= 2 ^ 29 ->
  512 * (cb + Z.of_nat n) <= Z.of_nat (page_words cfg) -> clean (mem st) ->
  check_blocks cfg n st pl s base cb e = Some (st, e).
Proof.
  intros Hs. revert cb e. induction n as [|n IH]; intros cb e Hcb Hmax Hw Hc; [done|].
  cbn [check_blocks]. change blockwords with 512. rewrite (Z.mul_comm cb 512).
  destruct (block_crc_clean st s cb Hs) as (c & -> & Hok); [lia | lia | |].
  { intros i Hi. apply Hc. lia. }
  rewrite Hs, Hok. rewrite IH by (done || lia). f_equal. f_equal. lia.
Qed.

Lemma CheckRegion_clean st pl pidx rg cb len :
  0 <= cb -> 0 <= len < 4096 -> 512 * cb + len / 8 <= 2 ^ 29 ->
  512 * cb + len / 8 <= Z.of_nat (page_words cfg) -> clean (mem st) ->
  CheckRegion cfg st pl p pidx rg (base + 512 * cb) len 0 = (st, 0).
Proof.
  intros Hcb Hlen Hmax Hw Hc. apply CheckRegion_nothing.
  destruct (wrong _ _ _ _ _ _ _) as [|j l] eqn:Hj; [done|]. exfalso.
  assert (Hin : j ∈ wrong cfg p (base + 512 * cb) 0 (mem st) 0 (Z.to_nat (len / wordsize_)))
    by (rewrite Hj; constructor).
  apply elem_of_wrong in Hin as [Hr Hne]. change (len / wordsize_) with (len / 8) in Hr.
  pose proof (Z.div_pos len 8). assert (len / 8 < 512) by (apply Z.div_lt_upper_bound; lia).
  apply Hne. rewrite expected_general by lia. rewrite <- Z.add_assoc. apply Hc. lia.
Qed.

Lemma CrcCheckPage_clean st pl s :
  src_pattern s = p -> 0 <= page_length cfg < 2 ^ 31 -> page_length cfg mod 8 = 0 ->
  clean (mem st) -> CrcCheckPage cfg st pl s base = Some (st, 0).
Proof.
  intros Hsp Hl H8 Hc. unfold CrcCheckPage. change blocksize with 4096.
  pose proof (page_words_split cfg ltac:(lia) H8) as Hw.
  pose proof (Z.mod_pos_bound (page_length cfg) 4096). pose proof (Z.div_pos (page_length cfg) 4096).
  assert (Hlo8 : 0 <= page_length cfg mod 4096 / 8) by (apply Z.div_pos; lia).
  assert (Hwords : Z.of_nat (page_words cfg) < 2 ^ 28).
  { unfold page_words, wordsize_. pose proof (Z.div_pos (page_length cfg) 8).
    assert (page_length cfg / 8 < 2 ^ 28) by (apply Z.div_lt_upper_bound; lia). lia. }
  rewrite check_blocks_clean by (done || lia). case_if_eqn; [done|].
  change blockwords with 512. rewrite Hsp, (Z.mul_comm _ 512).
  by rewrite CheckRegion_clean by (done || lia).
Qed.

End Clean.

(** ** Copying *)

(** A routine that copies and checksums 4096 bytes. *)
Definition copies (f : list Z -> list Z -> Z -> option (list Z * AdlerChecksum)) : Prop :=
  forall dst src, (512 <= length src)%nat -> (512 <= length dst)%nat ->
    f dst src 4096 = Some (take 512 src ++ drop 512 dst, adler_ref src 256).

(** From the equivalence of the copy routines, at 256 pairs of words. *)
Lemma copies_pairs f n :
  Z.of_nat n = 256 ->
  (forall dst src, (2 * n <= length src)%nat -> (2 * n <= length dst)%nat ->
     f dst src (16 * Z.of_nat n) = Some (take (2 * n) src ++ drop (2 * n) dst, adler_ref src n)) ->
  copies f.
Proof.
  intros Hn Hf dst src Hs Hd. assert (H2 : (2 * n)%nat = 512%nat) by lia.
  assert (H16 : 16 * Z.of_nat n = 4096) by lia. assert (Hn' : n = 256%nat) by lia.
  specialize (Hf dst src). rewrite H2, H16, Hn' in Hf. exact (Hf Hs Hd).
Qed.

Lemma AdlerMemcpyC_copies : copies AdlerMemcpyC.
Proof.
  apply (copies_pairs _ (Z.to_nat 256)); [lia|]. generalize (Z.to_nat 256) (Z2Nat.id 256 ltac:(lia)).
  intros n Hn dst src Hs Hd. apply (memcpy_equivalent ((0, 0), (0, 0)) dst src n); [lia | done | done].
Qed.

Lemma AdlerMemcpyWarm_copies has_vector regs : copies (AdlerMemcpyWarm has_vector regs).
Proof.
  apply (copies_pairs _ (Z.to_nat 256)); [lia|]. generalize (Z.to_nat 256) (Z2Nat.id 256 ltac:(lia)).
  intros n Hn dst src Hs Hd.
  pose proof (memcpy_equivalent regs dst src n ltac:(lia) Hs Hd) as H. cbv zeta in H.
  destruct H as (_ & _ & Hw & Hx & Ha). destruct has_vector as [[|]|]; cbn [AdlerMemcpyWarm].
  - apply Hx. lia.
  - apply Ha; [lia|]. exists 64%nat. lia.
  - exact Hw.
Qed.

(** A block copied inside memory. *)
Lemma copy_block_filled m d s n :
  0 <= d -> 0 <= s -> d + Z.of_nat n <= Z.of_nat (length m) -> s + Z.of_nat n <= Z.of_nat (length m) ->
  take (Z.to_nat d) m ++ take n (drop (Z.to_nat s) m) ++ drop n (drop (Z.to_nat d) m) =
  filled (fun i => aget 0 m (s + i)) d n m.
Proof.
  intros Hd Hs Hdn Hsn. apply list_eq. intros k. rewrite lookup_filled.
  assert (Hlen : length (take (Z.to_nat d) m) = Z.to_nat d) by (rewrite length_take; lia).
  assert (Hlen2 : length (take n (drop (Z.to_nat s) m)) = n) by (rewrite length_take, length_drop; lia).
  destruct (decide (k < Z.to_nat d)%nat) as [H1|H1].
  - rewrite lookup_app_l by lia. rewrite lookup_take_lt by lia. destruct (m !! k); [|done]. cbn.
    by rewrite decide_False by lia.
  - rewrite lookup_app_r by lia. rewrite Hlen. destruct (decide (k < Z.to_nat d + n)%nat) as [H2|H2].
    + rewrite lookup_app_l by lia. rewrite lookup_take_lt, lookup_drop by lia.
      destruct (lookup_lt_is_Some_2 m k) as [w ->]; [lia|]. cbn. rewrite decide_True by lia.
      destruct (lookup_lt_is_Some_2 m (Z.to_nat s + (k - Z.to_nat d))) as [v Hv]; [lia|].
      rewrite Hv. f_equal. symmetry. apply aget_lookup; [lia|]. rewrite <- Hv. f_equal. lia.
    + rewrite lookup_app_r by lia. rewrite Hlen2, !lookup_drop.
      replace (Z.to_nat d + (n + (k - Z.to_nat d - n)))%nat with k by lia.
      destruct (m !! k); [|done]. cbn. by rewrite decide_False by lia.
Qed.

Lemma copy_in_spec f st d s :
  copies f -> 0 <= d -> 0 <= s -> d + 512 <= Z.of_nat (length (mem st)) ->
  s + 512 <= Z.of_nat (length (mem st)) ->
  copy_in f st d s blocksize =
  Some (set_mem st (filled (fun i => aget 0 (mem st) (s + i)) d 512 (mem st)),
        adler_ref (drop (Z.to_nat s) (mem st)) 256).
Proof.
  intros Hf Hd Hs Hdn Hsn. unfold copy_in. change blocksize with 4096.
  rewrite Hf by (rewrite length_drop; lia).
  by rewrite (copy_block_filled (mem st) d s 512) by lia.
Qed.

Lemma memcpy_filled m d s len :
  0 <= d -> 0 <= s -> 0 <= len -> d + len / 8 <= Z.of_nat (length m) ->
  (d + len / 8 <= s \/ s + len / 8 <= d) ->
  memcpy m d s len = filled (fun i => aget 0 m (s + i)) d (Z.to_nat (len / 8)) m.
Proof.
  intros Hd Hs Hlen Hfit Hdis. pose proof (Z.div_pos len 8 Hlen ltac:(lia)).
  unfold memcpy. set (n := Z.to_nat (len / 8)).
  rewrite <- (store_words_filled (fun i => aget 0 m (s + i)) d n (zrange 0 n) m); try lia.
  - unfold store_words.
    assert (Hgen : forall l m', (forall i, i ∈ l -> 0 <= i < Z.of_nat n) ->
      (forall i, 0 <= i < Z.of_nat n -> aget 0 m' (s + i) = aget 0 m (s + i)) ->
      fold_left (fun m i => aset m (d + i) (aget 0 m (s + i))) l m' =
      fold_left (fun m0 i => aset m0 (d + i) (aget 0 m (s + i))) l m').
    { induction l as [|x l IH]; intros m' Hl Hm'; [done|]. cbn [fold_left].
      pose proof (Hl x ltac:(constructor)) as Hx. rewrite Hm' by done. apply IH.
      - intros i Hi. apply Hl. by constructor.
      - intros i Hi. rewrite aget_aset_ne by (unfold n in *; lia). by apply Hm'. }
    apply Hgen; [|done]. intros i Hi. apply elem_of_zrange in Hi. lia.
  - intros i Hi. apply elem_of_zrange in Hi. lia.
  - intros i Hi Hn. exfalso. apply Hn, elem_of_zrange. lia.
Qed.

Section Copy.
Context (cfg : Config) (p : Pattern) (Hp : good_pattern p) (src dst : Z).
Context (Hsrc : 0 <= src) (Hdst : 0 <= dst) (Htag : tag_mode_ cfg = false).
Abbreviation pw := (Z.of_nat (page_words cfg)).
Context (Hdis : src + pw <= dst \/ dst + pw <= src) (Hpw : pw < 2 ^ 28).

(** [st'] is [st] with [n] words copied from page offset [lo] on: outside the
    destination page memory is the repaired memory, and if no source word was wrong
    the destination holds its share of the pattern. *)
Record copied (lo : Z) (n : nat) (st st' : Thread) : Prop := {
  cp_len : length (mem st') = length (mem st);
  cp_out : forall k, ~ (dst <= Z.of_nat k < dst + pw) ->
    mem st' !! k = filled (fun i => pattern_word p (lo + i)) (src + lo) n (mem st) !! k;
  cp_clean : bad_words p src (mem st) lo n = [] ->
    mem st' = filled (fun i => pattern_word p (lo + i)) (dst + lo) n (mem st);
  cp_count : errorcount_ st' = errorcount_ st + Z.of_nat (length (bad_words p src (mem st) lo n));
  cp_words : words64 (mem st) -> words64 (mem st')
}.

Lemma aget_ext (m m' : list Z) j : m !! Z.to_nat j = m' !! Z.to_nat j -> aget 0 m j = aget 0 m' j.
Proof. intros H. unfold aget. by rewrite !nth_lookup, H. Qed.

(** Source words after a copied stretch. *)
Lemma copied_source lo n st st' j :
  copied lo n st st' -> 0 <= lo -> lo + Z.of_nat n <= j < pw ->
  aget 0 (mem st') (src + j) = aget 0 (mem st) (src + j).
Proof.
  intros Hc Hlo Hj. rewrite (aget_ext _ (filled (fun i => pattern_word p (lo + i)) (src + lo) n (mem st))).
  - apply aget_filled_out; lia.
  - apply (cp_out _ _ _ _ Hc). lia.
Qed.

Lemma copied_bad_words lo n st st' lo' k :
  copied lo n st st' -> 0 <= lo -> lo + Z.of_nat n <= lo' -> lo' + Z.of_nat k <= pw ->
  bad_words p src (mem st') lo' k = bad_words p src (mem st) lo' k.
Proof.
  intros Hc Hlo Hlo' Hk. apply filter_ext_in. intros j Hj. apply elem_of_zrange in Hj.
  by rewrite (copied_source lo n st st') by (done || lia).
Qed.

Lemma copied_app lo k n st st1 st2 :
  0 <= lo -> lo + Z.of_nat (k + n) <= pw ->
  copied lo k st st1 -> copied (lo + Z.of_nat k) n st1 st2 -> copied lo (k + n) st st2.
Proof.
  intros Hlo Hmax H1 H2. pose proof (copied_bad_words lo k st st1 (lo + Z.of_nat k) n H1 Hlo) as Hb.
  specialize (Hb ltac:(lia) ltac:(lia)).
  assert (Happ : forall b m, 0 <= b ->
    filled (fun i => pattern_word p (lo + Z.of_nat k + i)) (b + (lo + Z.of_nat k)) n
      (filled (fun i => pattern_word p (lo + i)) (b + lo) k m) =
    filled (fun i => pattern_word p (lo + i)) (b + lo) (k + n) m).
  { intros b m Hb0. rewrite <- (filled_app _ (b + lo) k n) by lia. rewrite Z.add_assoc.
    apply filled_ext. intros i Hi. f_equal. lia. }
  split.
  - by rewrite (cp_len _ _ _ _ H2), (cp_len _ _ _ _ H1).
  - intros x Hx. rewrite (cp_out _ _ _ _ H2 x Hx), <- Happ by done.
    rewrite !lookup_filled, (cp_out _ _ _ _ H1 x Hx), lookup_filled. done.
  - rewrite bad_words_app. intros [E1 E2]%app_eq_nil. rewrite <- Hb in E2.
    by rewrite (cp_clean _ _ _ _ H2 E2), (cp_clean _ _ _ _ H1 E1), Happ.
  - rewrite (cp_count _ _ _ _ H2), (cp_count _ _ _ _ H1), Hb, bad_words_app, length_app. lia.
  - intros Hm. by apply (cp_words _ _ _ _ H2), (cp_words _ _ _ _ H1).
Qed.

Lemma words64_filled f b n m :
  words64 m -> (forall i, 0 <= i < Z.of_nat n -> 0 <= f i < 2 ^ 64) -> words64 (filled f b n m).
Proof.
  intros Hm Hf. apply Forall_lookup. intros k w Hk. rewrite lookup_filled in Hk.
  destruct (m !! k) as [v|] eqn:Hv; [|done]. cbn in Hk. injection Hk as <-.
  case_decide; [apply Hf; lia|]. exact (proj1 (Forall_lookup _ _) Hm k v Hv).
Qed.

Lemma words64_aget m j : words64 m -> 0 <= aget 0 m j < 2 ^ 64.
Proof. intros Hm. apply (nth_In_or_default (fun w => 0 <= w < 2 ^ 64)); [done | lia]. Qed.

(** A stretch whose data went to the destination before the source was repaired. *)
Lemma copied_stretch lo n st st1 st' f :
  0 <= lo -> lo + Z.of_nat n <= pw ->
  mem st1 = filled f (dst + lo) n (mem st) ->
  (bad_words p src (mem st) lo n = [] -> forall i, 0 <= i < Z.of_nat n -> f i = pattern_word p (lo + i)) ->
  (words64 (mem st) -> forall i, 0 <= i < Z.of_nat n -> 0 <= f i < 2 ^ 64) ->
  errorcount_ st1 = errorcount_ st ->
  repaired cfg p src lo n st1 st' -> copied lo n st st'.
Proof.
  intros Hlo Hmax Hm1 Hf Hf64 Hec Hr.
  assert (Hb : bad_words p src (mem st1) lo n = bad_words p src (mem st) lo n).
  { rewrite Hm1. apply filter_ext_in. intros j Hj. apply elem_of_zrange in Hj.
    by rewrite aget_filled_out by lia. }
  destruct Hr as [R1 R2 _ _]. split.
  - by rewrite R1, length_filled, Hm1, length_filled.
  - intros k Hk. rewrite R1, Hm1, !lookup_filled. destruct (mem st !! k); [|done]. cbn.
    by rewrite (decide_False (P := dst + lo <= _ < _)) by lia.
  - intros Hn. rewrite R1. rewrite <- Hb in Hn.
    assert (Hsame : filled (fun i => pattern_word p (lo + i)) (src + lo) n (mem st1) = mem st1)
      by (symmetry; apply (rp_mem _ _ _ _ _ _ _ (repaired_nothing cfg p src Hsrc lo n st1 Hlo Hn))).
    rewrite Hsame, Hm1. apply filled_ext. rewrite Hb in Hn. by apply Hf.
  - by rewrite R2, Hb, Hec.
  - intros Hw. rewrite R1. apply words64_filled; [rewrite Hm1; apply words64_filled; auto|].
    intros i Hi. apply pattern_word_bound; [apply Hp | lia].
Qed.

Definition kind_fn (k : CopyKind) : list Z -> list Z -> Z -> option (list Z * AdlerChecksum) :=
  match k with Plain => AdlerMemcpyC | Warm f => f end.

(** Reading a source block that is free of errors. *)
Lemma good_source m lo n i :
  bad_words p src m lo n = [] -> 0 <= i < Z.of_nat n ->
  aget 0 m (src + lo + i) = pattern_word p (lo + i).
Proof.
  intros Hb Hi. destruct (decide (aget 0 m (src + (lo + i)) = pattern_word p (lo + i))) as [H|H].
  - by rewrite Z.add_assoc in H.
  - exfalso. assert (Hin : lo + i ∈ bad_words p src m lo n) by (apply elem_of_bad_words; split; [lia | done]).
    rewrite Hb in Hin. by apply elem_of_nil in Hin.
Qed.

Lemma copy_block_step k st pl s cb :
  copies (kind_fn k) -> src_pattern s = p -> 0 <= cb -> 512 * cb + 512 <= pw ->
  src + pw <= Z.of_nat (length (mem st)) -> dst + pw <= Z.of_nat (length (mem st)) ->
  words64 (mem st) -> (length (bad_words p src (mem st) (512 * cb) 512) <= 1)%nat ->
  exists st1 c st2, copy_crc cfg k st s (dst + 512 * cb) (src + 512 * cb) = Some (st1, c) /\
    (if crc_ok c p then (st1, 0)
     else copy_mismatch cfg k st1 pl s (dst + 512 * cb) (src + 512 * cb) cb) =
    (st2, Z.of_nat (length (bad_words p src (mem st) (512 * cb) 512))) /\
    copied (512 * cb) 512 st st2.
Proof.
  intros Hk Hs Hcb Hmax Hfs Hfd Hm Hone.
  assert (Hcrc : copy_crc cfg k st s (dst + 512 * cb) (src + 512 * cb) =
    copy_in (kind_fn k) st (dst + 512 * cb) (src + 512 * cb) blocksize)
    by (unfold copy_crc; rewrite Htag; by destruct k).
  rewrite Hcrc, copy_in_spec by (done || lia).
  set (st1 := set_mem st _). exists st1, (adler_ref (drop (Z.to_nat (src + 512 * cb)) (mem st)) 256).
  rewrite (block_crc_decides p Hp src Hsrc) by (done || lia).
  assert (Hb1 : bad_words p src (mem st1) (512 * cb) 512 = bad_words p src (mem st) (512 * cb) 512).
  { apply filter_ext_in. intros j Hj. apply elem_of_zrange in Hj. cbn [mem set_mem st1].
    by rewrite aget_filled_out by lia. }
  assert (Hcop : forall st2, repaired cfg p src (512 * cb) 512 st1 st2 -> copied (512 * cb) 512 st st2).
  { intros st2. apply (copied_stretch _ _ st st1 st2 (fun i => aget 0 (mem st) (src + 512 * cb + i)));
      try done; try lia.
    - intros Hb i Hi. by apply (good_source _ _ 512).
    - intros Hw i Hi. by apply words64_aget. }
  case_bool_decide as Hb.
  - exists st1. split; [reflexivity|]. rewrite Hb. split; [done|]. apply Hcop.
    apply repaired_nothing; [done | lia | by rewrite Hb1].
  - unfold copy_mismatch. rewrite Hs.
    destruct (region_repaired cfg p Hp src Hsrc Htag (record_mismatch st1 s) pl (src_pidx s)
      (region_of s (src_write_freq s) cb) cb blocksize) as (st2 & -> & Hr);
      [done | unfold blocksize; lia | change (blocksize / 8) with 512; lia
      | change (blocksize / 8) with 512; cbn [record_mismatch set_stats set_observed mem set_mem st1];
        rewrite length_filled; lia |].
    change (Z.to_nat (blocksize / 8)) with 512%nat in *. apply repaired_observed in Hr.
    cbn [record_mismatch set_stats set_observed mem] in *. change (mem (record_mismatch st1 s)) with (mem st1) in *.
    rewrite Hb1 in *.
    rewrite (proj2 (Z.eqb_neq _ _)) by (destruct (bad_words p src (mem st) (512 * cb) 512); [done | cbn [length]; lia]).
    cbn [andb]. exists st2. split; [reflexivity|]. split; [done|]. by apply Hcop.
Qed.

Lemma copy_blocks_spec n k st pl s cb e :
  copies (kind_fn k) -> src_pattern s = p -> 0 <= cb -> 512 * (cb + Z.of_nat n) <= pw ->
  src + pw <= Z.of_nat (length (mem st)) -> dst + pw <= Z.of_nat (length (mem st)) ->
  words64 (mem st) -> sparse p src (mem st) cb n ->
  exists st', copy_blocks cfg n k st pl s dst src cb e =
    Some (st', e + Z.of_nat (length (bad_words p src (mem st) (512 * cb) (512 * n)))) /\
    copied (512 * cb) (512 * n) st st'.
Proof.
  intros Hk Hs. revert st cb e. induction n as [|n IH]; intros st cb e Hcb Hmax Hfs Hfd Hm Hsp.
  - exists st. rewrite Nat.mul_0_r. split; [cbn; f_equal; f_equal; lia|].
    split; try done; [| |cbn; lia].
    + intros x _. rewrite lookup_filled. destruct (mem st !! x); [|done]. cbn. by rewrite decide_False by lia.
    + intros _. symmetry. apply filled_same; lia.
  - cbn [copy_blocks]. change blockwords with 512. rewrite (Z.mul_comm cb 512).
    destruct (copy_block_step k st pl s cb) as (st1 & c & st2 & -> & Hstep & Hc1);
      try done; try lia; [apply Hsp; lia|].
    rewrite Hs, Hstep.
    destruct (IH st2 (cb + 1) (e + Z.of_nat (length (bad_words p src (mem st) (512 * cb) 512))))
      as (st' & -> & Hc2); try lia; try (rewrite (cp_len _ _ _ _ Hc1); lia).
    + by apply (cp_words _ _ _ _ Hc1).
    + intros b Hb. rewrite (copied_bad_words (512 * cb) 512 st st2) by (done || lia). apply Hsp. lia.
    + exists st'. replace (512 * (cb + 1)) with (512 * cb + Z.of_nat 512) in * by lia.
      replace (512 * S n)%nat with (512 + 512 * n)%nat by lia. split.
      * rewrite bad_words_app, length_app.
        rewrite (copied_bad_words (512 * cb) 512 st st2) by (done || lia). f_equal. f_equal. lia.
      * by apply (copied_app _ _ _ _ st2); try lia.
Qed.

(** The rest of the page: checked, then copied word by word. *)
Lemma copy_rest_step st pl pidx rg cb len :
  0 <= cb -> 0 <= len < 4096 -> 512 * cb + len / 8 <= pw ->
  src + pw <= Z.of_nat (length (mem st)) -> dst + pw <= Z.of_nat (length (mem st)) ->
  let n := Z.to_nat (len / 8) in
  exists st1, CheckRegion cfg st pl p pidx rg (src + 512 * cb) len 0 =
    (st1, Z.of_nat (length (bad_words p src (mem st) (512 * cb) n))) /\
    copied (512 * cb) n st (set_mem st1 (memcpy (mem st1) (dst + 512 * cb) (src + 512 * cb) len)).
Proof.
  intros Hcb Hlen Hmax Hfs Hfd n. pose proof (Z.div_pos len 8 ltac:(lia) ltac:(lia)).
  destruct (region_repaired cfg p Hp src Hsrc Htag st pl pidx rg cb len) as (st1 & H1 & Hr); try lia.
  fold n in H1, Hr. exists st1. split; [done|]. pose proof (length_repaired _ _ _ _ _ _ _ Hr) as Hl1.
  destruct Hr as [R1 R2 _ _].
  assert (Hn : Z.of_nat n = len / 8) by (unfold n; lia).
  assert (Hsrcw : forall i, 0 <= i < Z.of_nat n ->
    aget 0 (mem st1) (src + 512 * cb + i) = pattern_word p (512 * cb + i))
    by (intros i Hi; rewrite R1; apply (aget_filled (fun i => pattern_word p (512 * cb + i))); lia).
  rewrite memcpy_filled by lia. fold n.
  rewrite (filled_ext _ (fun i => pattern_word p (512 * cb + i)) _ _ _ Hsrcw).
  split; cbn [mem set_mem errorcount_].
  - by rewrite length_filled.
  - intros k Hk. rewrite lookup_filled, R1. destruct (filled _ (src + 512 * cb) n (mem st) !! k); [|done].
    cbn. by rewrite decide_False by lia.
  - intros Hb. f_equal. rewrite R1. apply filled_same; [|lia]. intros i Hi. by apply (good_source _ _ n).
  - by rewrite R2.
  - intros Hw. rewrite R1.
    apply words64_filled; [apply words64_filled; [done|]|];
      intros i Hi; apply pattern_word_bound; apply Hp || lia.
Qed.

Lemma copied_final st st' :
  copied 0 (page_words cfg) st st' -> dst + pw <= Z.of_nat (length (mem st)) ->
  src + pw <= Z.of_nat (length (mem st)) -> 0 <= page_length cfg < 2 ^ 31 ->
  (if Z.of_nat (length (bad_words p src (mem st) 0 (page_words cfg))) =? 0 then mem st'
   else FillPage_mem cfg p dst (mem st')) =
  filled (pattern_word p) dst (page_words cfg) (filled (pattern_word p) src (page_words cfg) (mem st)).
Proof.
  intros Hc Hfd Hfs Hl. destruct (bad_words p src (mem st) 0 (page_words cfg)) as [|j l] eqn:Hb;
    cbn [length].
  - rewrite (cp_clean _ _ _ _ Hc Hb), Z.add_0_r.
    assert (Hsame : filled (pattern_word p) src (page_words cfg) (mem st) = mem st).
    { apply filled_same; [|done]. intros i Hi. rewrite <- (Z.add_0_r src).
      rewrite (good_source (mem st) 0 (page_words cfg) i Hb Hi). f_equal. }
    rewrite Hsame. done.
  - rewrite (proj2 (Z.eqb_neq _ _)) by lia. rewrite FillPage_filled; [|apply Hp|done|done|].
    2: { rewrite (cp_len _ _ _ _ Hc). lia. }
    rewrite (filled_ext _ (pattern_word p)) by (intros i Hi; apply (general_plain cfg p dst Htag); lia).
    apply list_eq. intros k. rewrite (lookup_filled _ dst), (lookup_filled _ dst).
    destruct (decide (dst <= Z.of_nat k < dst + pw)) as [Hin|Hout].
    + destruct (lookup_lt_is_Some_2 (mem st') k) as [w ->]; [rewrite (cp_len _ _ _ _ Hc); lia|].
      destruct (lookup_lt_is_Some_2 (filled (pattern_word p) src (page_words cfg) (mem st)) k)
        as [v ->]; [rewrite length_filled; lia|]. done.
    + rewrite (cp_out _ _ _ _ Hc k Hout), Z.add_0_r. done.
Qed.

Lemma copy_page_spec k st pl s dstpe srcpe r :
  copies (kind_fn k) -> src_pattern s = p -> 0 <= page_length cfg < 2 ^ 31 -> page_length cfg mod 8 = 0 ->
  page_base cfg dstpe = dst ->
  src + pw <= Z.of_nat (length (mem st)) -> dst + pw <= Z.of_nat (length (mem st)) ->
  words64 (mem st) -> sparse p src (mem st) 0 (Z.to_nat (page_length cfg / 4096)) ->
  let bad := bad_words p src (mem st) 0 (page_words cfg) in
  exists st1 st2, copy_page cfg k st pl s dst src = Some (st1, Z.of_nat (length bad)) /\
    finish_copy cfg st1 (Z.of_nat (length bad)) s dstpe srcpe r =
    (st2, set_written dstpe (PageQueue.pattern srcpe)
            (if bool_decide (bad = []) then copy_cpu r else fill_cpu r)
            (if bool_decide (bad = []) then copy_freq r else fill_freq r), Z.of_nat (length bad)) /\
    mem st2 = filled (pattern_word p) dst (page_words cfg)
                (filled (pattern_word p) src (page_words cfg) (mem st)) /\
    errorcount_ st2 = errorcount_ st + Z.of_nat (length bad).
Proof.
  intros Hk Hs Hl H8 Hpb Hfs Hfd Hm Hsp. cbv zeta. unfold copy_page. change blocksize with 4096.
  pose proof (page_words_split cfg ltac:(lia) H8) as Hw.
  pose proof (Z.mod_pos_bound (page_length cfg) 4096 ltac:(lia)).
  pose proof (Z.div_pos (page_length cfg) 4096 ltac:(lia) ltac:(lia)).
  set (nb := page_length cfg / 4096) in *. set (lo := page_length cfg mod 4096) in *.
  assert (Hlo8 : 0 <= lo / 8) by (apply Z.div_pos; lia).
  destruct (copy_blocks_spec (Z.to_nat nb) k st pl s 0 0 Hk Hs) as (st1 & -> & Hc1); try lia; try done.
  rewrite Z.mul_0_r in *. rewrite Z.add_0_l. rewrite Hs, Htag. change blockwords with 512.
  rewrite (Z.mul_comm nb 512).
  set (bad := bad_words p src (mem st) 0 (page_words cfg)).
  assert (Hrest : exists st2, (if lo =? 0 then Some (st1, Z.of_nat (length (bad_words p src (mem st) 0 (512 * Z.to_nat nb))))
      else let '(st0, e) := CheckRegion cfg st1 pl p (src_pidx s) (region_of s (src_write_freq s) nb)
                              (src + 512 * nb) lo 0 in
           Some (set_mem st0 (memcpy (mem st0) (dst + 512 * nb) (src + 512 * nb) lo),
            Z.of_nat (length (bad_words p src (mem st) 0 (512 * Z.to_nat nb))) + e)) =
      Some (st2, Z.of_nat (length bad)) /\ copied 0 (page_words cfg) st st2).
  { unfold bad. destruct (Z.eqb_spec lo 0) as [Hz|Hz].
    - exists st1. rewrite Hw, Hz. change (Z.to_nat (0 / 8)) with O. by rewrite Nat.add_0_r.
    - destruct (copy_rest_step st1 pl (src_pidx s) (region_of s (src_write_freq s) nb) nb lo)
        as (st2 & -> & Hc2); try lia; try (rewrite (cp_len _ _ _ _ Hc1); lia).
      eexists. split; [f_equal; f_equal|].
      + rewrite Hw, bad_words_app, length_app.
        replace (512 * nb) with (0 + Z.of_nat (512 * Z.to_nat nb)) by lia.
        rewrite (copied_bad_words 0 (512 * Z.to_nat nb) st st1) by (done || lia). lia.
      + rewrite Hw. apply (copied_app _ _ _ _ st1); try done; try lia.
        by replace (0 + Z.of_nat (512 * Z.to_nat nb)) with (512 * nb) by lia. }
  destruct Hrest as (st2 & Hr & Hc2). exists st2. rewrite Hr.
  pose proof (copied_final st st2 Hc2 Hfd Hfs Hl) as Hfin. pose proof (cp_count _ _ _ _ Hc2) as Hcount.
  fold bad in Hfin, Hcount. unfold finish_copy. rewrite Hs.
  destruct bad as [|j l]; cbn [length Z.of_nat Z.eqb] in *.
  - exists st2. by rewrite bool_decide_true.
  - eexists. split; [reflexivity|]. rewrite (proj2 (Z.eqb_neq _ _)) in Hfin |- * by lia.
    rewrite bool_decide_false by done. cbn [FillPage default].
    split; [reflexivity|]. cbn [mem set_mem errorcount_]. split; [|done].
    rewrite <- Hfin, <- Hpb. done.
Qed.

End Copy.

(** ** Properties of the page operations *)

(** C6. Filling is complete and passes its own check.  In either direction, on the
    default or the general path, with or without address tags, [FillPage] writes every
    word of the page and nothing else, and [CrcCheckPage] on the result finds no error
    and changes nothing. *)
Theorem FillPage_CrcCheckPage cfg p pe pl s st cpu freq :
  good_pattern p -> src_pattern s = p ->
  0 <= page_length cfg < 2 ^ 31 -> page_length cfg mod 8 = 0 ->
  0 <= page_base cfg pe -> aligned cfg (page_base cfg pe) ->
  page_base cfg pe + page_length cfg / 8 <= Z.of_nat (length (mem st)) ->
  let m := (FillPage cfg p (Some pe) cpu freq (mem st)).2 in
  m = filled (general_word cfg p (page_base cfg pe)) (page_base cfg pe) (page_words cfg) (mem st) /\
  CrcCheckPage cfg (set_mem st m) pl s (page_base cfg pe) = Some (set_mem st m, 0).
Proof.
  intros Hp Hs Hl H8 Hb Hal Hfit. cbv zeta. unfold FillPage. cbn [snd].
  assert (Hw : Z.of_nat (page_words cfg) = page_length cfg / 8).
  { unfold page_words, wordsize_. pose proof (Z.div_pos (page_length cfg) 8). lia. }
  rewrite FillPage_filled by (apply Hp || done || lia). split; [done|].
  apply (CrcCheckPage_clean cfg p Hp (page_base cfg pe) Hb Hal); try done.
  intros i Hi. cbn [mem set_mem]. apply aget_filled; lia.
Qed.

Lemma sample_good : good_pattern sample_pattern.
Proof.
  apply (initialized_good 0); [lia|]. rewrite initialized_patterns.
  apply list_elem_of_In, in_flat_map. exists OneZero.
  split; [do 3 right; left; reflexivity | left; reflexivity].
Qed.

Lemma FillPage_CrcCheckPage_witness :
  let cfg := mkConfig 1024 FILL_DIRECTION_DOWN 64 false true 0 8 (-1) sample_world None in
  let st := mkThread (replicate 200 5) 0 false [] sample_observed in
  let m := (FillPage cfg sample_pattern (Some PageQueue.null_pe) 0 0 (mem st)).2 in
  CrcCheckPage cfg (set_mem st m) new_PatternList (sample_source sample_pattern) 0 =
  Some (set_mem st m, 0).
Proof.
  intros cfg st m.
  apply (FillPage_CrcCheckPage cfg sample_pattern PageQueue.null_pe new_PatternList
    (sample_source sample_pattern) st 0 0).
  - apply sample_good.
  - reflexivity.
  - cbn; lia.
  - reflexivity.
  - discriminate.
  - intros _. repeat split; discriminate || reflexivity.
  - discriminate.
Defined.

(** C5. The fast check finds and repairs what the checksum can see.  Without tags, on a
    page where no complete 4096-byte block has more than one wrong word (and the rest
    of the page any number), [CrcCheckPage] returns exactly the number of wrong words,
    reports each of them once, in address order, and leaves the page holding its
    pattern with the rest of memory unchanged. *)
Theorem CrcCheckPage_detects cfg p base st pl s :
  good_pattern p -> 0 <= base -> tag_mode_ cfg = false -> src_pattern s = p ->
  0 <= page_length cfg < 2 ^ 31 -> page_length cfg mod 8 = 0 ->
  base + page_length cfg / 8 <= Z.of_nat (length (mem st)) -> words64 (mem st) ->
  sparse p base (mem st) 0 (Z.to_nat (page_length cfg / 4096)) ->
  let bad := bad_words p base (mem st) 0 (page_words cfg) in
  exists st', CrcCheckPage cfg st pl s base = Some (st', Z.of_nat (length bad)) /\
    mem st' = filled (pattern_word p) base (page_words cfg) (mem st) /\
    errorcount_ st' = errorcount_ st + Z.of_nat (length bad) /\
    map triple (reports st') = map triple (reports st) ++
      map (fun j => (base + j, aget 0 (mem st) (base + j), pattern_word p j)) bad.
Proof.
  intros Hp Hb Ht Hs Hl H8 Hfit Hm Hsp bad.
  destruct (CrcCheckPage_spec cfg p Hp base Hb Ht st pl s Hs Hl H8 Hfit Hm Hsp)
    as (st' & H1 & [H2 H3 _ H4]).
  exists st'. rewrite Z.add_0_r in H2. auto.
Qed.

Lemma CrcCheckPage_detects_witness :
  let cfg := mkConfig 4096 FILL_DIRECTION_UP 0 false false 0 8 10 sample_world None in
  let st := mkThread (<[3%nat := 7]> (pattern_block sample_pattern 512)) 0 false [] sample_observed in
  exists st', CrcCheckPage cfg st new_PatternList (sample_source sample_pattern) 0 =
    Some (st', Z.of_nat (length (bad_words sample_pattern 0 (mem st) 0 512))).
Proof.
  intros cfg st.
  destruct (CrcCheckPage_detects cfg sample_pattern 0 st new_PatternList
    (sample_source sample_pattern)) as (st' & H & _).
  - apply sample_good.
  - lia.
  - reflexivity.
  - reflexivity.
  - cbn; lia.
  - reflexivity.
  - vm_compute. discriminate.
  - apply Forall_insert; [|lia]. apply Forall_lookup. intros k w Hk.
    unfold pattern_block in Hk. apply list_lookup_fmap_Some in Hk as (x & -> & Hx).
    apply list_elem_of_lookup_2, elem_of_zrange in Hx.
    apply pattern_word_bound; [apply sample_good | lia].
  - intros b Hb. change (Z.of_nat (Z.to_nat (page_length cfg / 4096))) with 1 in Hb.
    assert (b = 0) as -> by lia. apply Nat.leb_le. vm_compute. reflexivity.
  - exists st'. exact H.
Defined.

(** C4. Copying verifies, repairs and never spreads a fault.  Without tags, for disjoint
    pages and a source in which no complete block has more than one wrong word, the
    plain copy and the warm copy, on every vector unit or in C, both terminate with the
    number of wrong source words; afterwards source and destination both hold the
    source's pattern, the rest of memory is unchanged and the thread's count has grown
    by that number.  The destination entry takes over the source's pattern, and records
    the CPU and frequency of the copy, or of the refill when there were errors. *)
Theorem CrcCopyPage_correct cfg p st pl s dstpe srcpe r has_vector regs :
  good_pattern p -> src_pattern s = p -> tag_mode_ cfg = false ->
  0 <= page_length cfg < 2 ^ 31 -> page_length cfg mod 8 = 0 ->
  let src := page_base cfg srcpe in
  let dst := page_base cfg dstpe in
  let n := page_words cfg in
  0 <= src -> 0 <= dst -> (src + Z.of_nat n <= dst \/ dst + Z.of_nat n <= src) ->
  src + Z.of_nat n <= Z.of_nat (length (mem st)) -> dst + Z.of_nat n <= Z.of_nat (length (mem st)) ->
  words64 (mem st) -> sparse p src (mem st) 0 (Z.to_nat (page_length cfg / 4096)) ->
  let bad := bad_words p src (mem st) 0 n in
  let correct res := exists st' dstpe',
    res = Some (st', dstpe', Z.of_nat (length bad)) /\
    mem st' = filled (pattern_word p) dst n (filled (pattern_word p) src n (mem st)) /\
    errorcount_ st' = errorcount_ st + Z.of_nat (length bad) /\
    dstpe' = set_written dstpe (PageQueue.pattern srcpe)
               (if bool_decide (bad = []) then copy_cpu r else fill_cpu r)
               (if bool_decide (bad = []) then copy_freq r else fill_freq r) in
  correct (CrcCopyPage cfg st pl s dstpe srcpe r) /\
  correct (CrcWarmCopyPage cfg (AdlerMemcpyWarm has_vector regs) st pl s dstpe srcpe r).
Proof.
  intros Hp Hs Ht Hl H8 src dst n Hsrc Hdst Hdis Hfs Hfd Hm Hsp bad correct.
  assert (Hpw : Z.of_nat n < 2 ^ 28).
  { unfold n, page_words, wordsize_. pose proof (Z.div_pos (page_length cfg) 8).
    assert (page_length cfg / 8 < 2 ^ 28) by (apply Z.div_lt_upper_bound; lia). lia. }
  unfold correct, CrcCopyPage, CrcWarmCopyPage. fold src dst.
  split.
  - destruct (copy_page_spec cfg p Hp src dst Hsrc Hdst Ht Hdis Hpw Plain st pl s dstpe srcpe r)
      as (st1 & st2 & -> & -> & H1 & H2); [apply AdlerMemcpyC_copies | done.. |]. by eexists _, _.
  - destruct (copy_page_spec cfg p Hp src dst Hsrc Hdst Ht Hdis Hpw
      (Warm (AdlerMemcpyWarm has_vector regs)) st pl s dstpe srcpe r)
      as (st1 & st2 & -> & -> & H1 & H2); [apply AdlerMemcpyWarm_copies | done.. |]. by eexists _, _.
Qed.

Lemma CrcCopyPage_correct_witness :
  let cfg := mkConfig 1024 FILL_DIRECTION_UP 0 false false 0 8 10 sample_world None in
  let st := mkThread (replicate 256 5) 0 false [] sample_observed in
  let srcpe := PageQueue.mk_page_entry 0 0 0 (Some 24) 1 0 0 0 0 None in
  let dstpe := PageQueue.mk_page_entry 1024 1024 0 None 1 0 0 0 0 None in
  exists res, CrcCopyPage cfg st new_PatternList (sample_source sample_pattern) dstpe srcpe
    (mkReadings 1 2 3 4) = Some res.
Proof.
  intros cfg st srcpe dstpe.
  unshelve epose proof (CrcCopyPage_correct cfg sample_pattern st new_PatternList
    (sample_source sample_pattern) dstpe srcpe (mkReadings 1 2 3 4) None ((0, 0), (0, 0))
    _ _ _ _ _ _ _ _ _ _ _ _) as Hc.
  - apply sample_good.
  - reflexivity.
  - reflexivity.
  - cbn; lia.
  - reflexivity.
  - discriminate.
  - discriminate.
  - left. discriminate.
  - discriminate.
  - discriminate.
  - apply Forall_replicate. lia.
  - intros b Hb. change (Z.to_nat (page_length cfg / 4096)) with O in Hb. lia.
  - cbv zeta in Hc. destruct Hc as [(st' & pe' & H & _) _]. eexists. exact H.
Defined.

(** ** Whole block corruption *)

Section Alt.
Context (m : list Z) (p alt : Pattern) (mb po : Z).

(** What the words before [i] look like in each state. *)
Definition alt_inv (state : AltState) (bs be i : Z) : Prop :=
  let act j := aget 0 m (mb + j) in
  match state with
  | kGood => forall j, 0 <= j < i -> act j = plain_word p po j
  | kBad => 0 <= bs <= be /\ be = i - 1 /\ act bs <> plain_word p po bs /\
      (forall j, 0 <= j < bs -> act j = plain_word p po j) /\
      (forall j, bs <= j <= be -> act j = plain_word alt po j)
  | kGoodAgain => 0 <= bs <= be /\ be < i /\ act bs <> plain_word p po bs /\
      (forall j, 0 <= j < i -> ~ (bs <= j <= be) -> act j = plain_word p po j) /\
      (forall j, bs <= j <= be -> act j = plain_word alt po j)
  | kNoMatch => True
  end.

Ltac split_at j i := destruct (decide (j = i)) as [->|?]; [congruence|].

Lemma alt_loop_inv n i state bs be :
  0 <= i -> alt_inv state bs be i ->
  let '(state', bs', be') := alt_loop n m p alt mb po i state bs be in
  alt_inv state' bs' be' (i + Z.of_nat n).
Proof.
  revert i state bs be. induction n as [|n IH]; intros i state bs be Hi Hinv; cbn [alt_loop].
  - by rewrite Z.add_0_r.
  - replace (i + Z.of_nat (S n)) with (i + 1 + Z.of_nat n) by lia.
    destruct state; cbn [alt_inv] in Hinv; [..|done].
    + destruct (Z.eqb_spec (aget 0 m (mb + i)) (plain_word p po i)).
      * apply IH; [lia|]. intros j Hj. split_at j i. apply Hinv. lia.
      * destruct (Z.eqb_spec (aget 0 m (mb + i)) (plain_word alt po i)); [|done].
        apply IH; [lia|]. cbn [alt_inv]. split; [lia|]. split; [lia|]. split; [done|].
        split; [intros j Hj; apply Hinv; lia|]. intros j Hj. by assert (j = i) as -> by lia.
    + destruct Hinv as (H1 & H2 & H3 & H4 & H5).
      destruct (Z.eqb_spec (aget 0 m (mb + i)) (plain_word alt po i)).
      * apply IH; [lia|]. cbn [alt_inv]. split; [lia|]. split; [lia|]. split; [done|].
        split; [done|]. intros j Hj. split_at j i. apply H5. lia.
      * destruct (Z.eqb_spec (aget 0 m (mb + i)) (plain_word p po i)); [|done].
        apply IH; [lia|]. cbn [alt_inv]. split; [lia|]. split; [lia|]. split; [done|].
        split; [|done]. intros j Hj Hout. split_at j i. apply H4. lia.
    + destruct Hinv as (H1 & H2 & H3 & H4 & H5).
      destruct (Z.eqb_spec (aget 0 m (mb + i)) (plain_word p po i)); [|done].
      apply IH; [lia|]. cbn [alt_inv]. split; [lia|]. split; [lia|]. split; [done|].
      split; [|done]. intros j Hj Hout. split_at j i. apply H4; lia.
Qed.

End Alt.

(** A block error names the right words: when another pattern is reported for the
    words from [bs] to [be] of a region, these are a non-empty range of the region that
    starts with a wrong word, every word in it is the other pattern's, and every word
    outside it is the expected one. *)
Theorem alt_matches_sound n m p alt mb po bs be :
  alt_matches n m p alt mb po = Some (bs, be) ->
  0 <= bs <= be /\ be < Z.of_nat n /\ aget 0 m (mb + bs) <> plain_word p po bs /\
  forall j, 0 <= j < Z.of_nat n ->
    aget 0 m (mb + j) = plain_word (if decide (bs <= j <= be) then alt else p) po j.
Proof.
  unfold alt_matches. pose proof (alt_loop_inv m p alt mb po n 0 kGood 0 0) as H.
  cbn [alt_inv] in H. specialize (H ltac:(lia) ltac:(lia)). rewrite Z.add_0_l in H.
  destruct (alt_loop _ _ _ _ _ _ _ _ _ _) as [[[] bs'] be']; intros [= -> ->]; cbn [alt_inv] in H;
    destruct H as (H1 & H2 & H3 & H4 & H5).
  - split; [done|]. split; [lia|]. split; [done|]. intros j Hj. case_decide; [by apply H5 | apply H4; lia].
  - split; [done|]. split; [lia|]. split; [done|]. intros j Hj. case_decide; [by apply H5 | by apply H4].
Qed.

Lemma alt_matches_sound_witness :
  alt_matches 3 [0xffffffff00000000; 0; 0xffffffff00000000] sample_pattern
    (snd (Initialize JustZero 32 false 2 0)) 0 0 = Some (1, 1) /\ 0 <= 1 <= 1.
Proof.
  split; [reflexivity|].
  apply (alt_matches_sound 3 [0xffffffff00000000; 0; 0xffffffff00000000] sample_pattern
    (snd (Initialize JustZero 32 false 2 0)) 0 0 1 1). reflexivity.
Defined.

End WorkerFacts.
