(* ===== verification/WorkerStatus.v ===== *)
(** The pause and stop protocol between the control thread and the workers: [WorkerStatus]
    in [src/src/worker.h] and [src/src/worker.cc], with pthread barriers.

    The state holds the shared object and, for the control thread and each worker, the
    place it has reached in the methods below.  A step is one access to the shared object:
    a read or write of [status_] under its lock, an arrival at the barrier, the locked
    part of [RemoveSelf].  Steps of different threads interleave freely.  A barrier blocks
    the threads that arrive until as many have arrived as it was initialised for; the last
    arrival releases them all.  The control thread uses the object as its comments ask:
    [ResumeWorkers] only after [PauseWorkers], [StopWorkers] once. *)

From S2P Require Import Prelude.

Module WorkerStatus.

Inductive Status := RUN | PAUSE | STOP.

#[global] Instance Status_eq_dec : EqDecision Status.
Proof. solve_decision. Defined.

(** Where a worker is.  The flag tells [RemoveSelf] from [ContinueRunning]. *)
Inductive WorkerPc :=
| Working                    (* between two calls *)
| Check (removing : bool)    (* about to read [status_] *)
| ToFirst (removing : bool)  (* has read PAUSE, about to wait on the barrier *)
| AtFirst (removing : bool)  (* waiting for [PauseWorkers] *)
| ToSecond (removing : bool) (* released, about to wait again *)
| AtSecond (removing : bool) (* waiting for [ResumeWorkers] or [StopWorkers] *)
| Stopped                    (* [ContinueRunning] has returned false *)
| Gone.                      (* [RemoveSelf] has returned *)

(** Where the control thread is. *)
Inductive ControlPc :=
| Running                    (* the workers run *)
| ToPause | AtPause          (* in [PauseWorkers], before and at the barrier *)
| Paused                     (* [PauseWorkers] has returned *)
| ToResume | AtResume        (* in [ResumeWorkers] *)
| ToStop | AtStop            (* in [StopWorkers] after a pause *)
| AllStopped.                (* [StopWorkers] has returned *)

Record WorkerStatus := mkStatus {
  status_ : Status; num_workers_ : Z; pause_barrier_ : Z;
  control : ControlPc; workers : list WorkerPc
}.

(** [AddWorkers] for each worker, then [Initialize]. *)
Definition Initialize (n : nat) : WorkerStatus :=
  mkStatus RUN (Z.of_nat n) (Z.of_nat n + 1) Running (replicate n Working).

Definition set_control (s : WorkerStatus) (c : ControlPc) : WorkerStatus :=
  mkStatus (status_ s) (num_workers_ s) (pause_barrier_ s) c (workers s).
Definition set_worker (s : WorkerStatus) (i : nat) (w : WorkerPc) : WorkerStatus :=
  mkStatus (status_ s) (num_workers_ s) (pause_barrier_ s) (control s) (<[i := w]> (workers s)).

(** [SetStatus]: the previous status. *)
Definition SetStatus (s : WorkerStatus) (st : Status) : Status * WorkerStatus :=
  (status_ s, mkStatus st (num_workers_ s) (pause_barrier_ s) (control s) (workers s)).

Definition GetStatus (s : WorkerStatus) : Status := status_ s.

(** *** The barrier *)

Definition worker_waits (w : WorkerPc) : bool :=
  match w with AtFirst _ | AtSecond _ => true | _ => false end.
Definition control_waits (c : ControlPc) : bool :=
  match c with AtPause | AtResume | AtStop => true | _ => false end.

Definition waiting (s : WorkerStatus) : Z :=
  Z.of_nat (List.length (List.filter worker_waits (workers s))) + Z.b2z (control_waits (control s)).

(** What a released thread does next: a worker goes on to the second wait, or back to
    reading the status; the control thread returns. *)
Definition release_worker (w : WorkerPc) : WorkerPc :=
  match w with AtFirst r => ToSecond r | AtSecond r => Check r | _ => w end.
Definition release_control (c : ControlPc) : ControlPc :=
  match c with AtPause => Paused | AtResume => Running | AtStop => AllStopped | _ => c end.

(** The end of an arrival at the barrier. *)
Definition WaitOnPauseBarrier (s : WorkerStatus) : WorkerStatus :=
  if waiting s =? pause_barrier_ s
  then mkStatus (status_ s) (num_workers_ s) (pause_barrier_ s) (release_control (control s))
         (map release_worker (workers s))
  else s.

(** *** The control thread *)

Definition PauseWorkers (s : WorkerStatus) : WorkerStatus :=
  let '(prev, s) := SetStatus s PAUSE in
  if bool_decide (prev <> PAUSE) then set_control s ToPause else set_control s Paused.

Definition ResumeWorkers (s : WorkerStatus) : WorkerStatus :=
  let '(prev, s) := SetStatus s RUN in
  if bool_decide (prev = PAUSE) then set_control s ToResume else set_control s Running.

Definition StopWorkers (s : WorkerStatus) : WorkerStatus :=
  let '(prev, s) := SetStatus s STOP in
  if bool_decide (prev = PAUSE) then set_control s ToStop else set_control s AllStopped.

(** The call of [WaitOnPauseBarrier] in each of the three. *)
Definition control_arrives (c : ControlPc) : option ControlPc :=
  match c with
  | ToPause => Some AtPause | ToResume => Some AtResume | ToStop => Some AtStop | _ => None
  end.

(** *** The workers *)

(** The [switch] of [ContinueRunning]. *)
Definition ContinueRunning (s : WorkerStatus) : WorkerPc :=
  match GetStatus s with RUN => Working | PAUSE => ToFirst false | STOP => Stopped end.

(** A read that changes nothing; any worker may make it between two steps. *)
Definition ContinueRunningNoPause (s : WorkerStatus) : bool := bool_decide (GetStatus s <> STOP).

(** One turn of the loop of [RemoveSelf]: under the status lock, and when the status is
    not PAUSE, the barrier is initialised for one thread less and the worker leaves. *)
Definition RemoveSelf (s : WorkerStatus) (i : nat) : WorkerStatus :=
  if bool_decide (status_ s <> PAUSE)
  then mkStatus (status_ s) (num_workers_ s - 1) (num_workers_ s) (control s) (<[i := Gone]> (workers s))
  else set_worker s i (ToFirst true).

Definition worker_arrives (w : WorkerPc) : option WorkerPc :=
  match w with ToFirst r => Some (AtFirst r) | ToSecond r => Some (AtSecond r) | _ => None end.

(** *** Steps *)

Inductive step : WorkerStatus -> WorkerStatus -> Prop :=
| step_pause s : control s = Running -> step s (PauseWorkers s)
| step_resume s : control s = Paused -> step s (ResumeWorkers s)
| step_stop s : control s = Running \/ control s = Paused -> step s (StopWorkers s)
| step_control_wait s c :
    control_arrives (control s) = Some c -> step s (WaitOnPauseBarrier (set_control s c))
| step_call s i : workers s !! i = Some Working -> step s (set_worker s i (Check false))
| step_leave s i :
    workers s !! i = Some Working \/ workers s !! i = Some Stopped -> step s (set_worker s i (Check true))
| step_continue s i : workers s !! i = Some (Check false) -> step s (set_worker s i (ContinueRunning s))
| step_remove s i : workers s !! i = Some (Check true) -> step s (RemoveSelf s i)
| step_worker_wait s i w w' :
    workers s !! i = Some w -> worker_arrives w = Some w' -> step s (WaitOnPauseBarrier (set_worker s i w')).

Definition reachable (n : nat) (s : WorkerStatus) : Prop := rtc step (Initialize n) s.

End WorkerStatus.

Module WorkerStatusFacts.
Import WorkerStatus.

(** ** The invariant *)

Definition is_active (w : WorkerPc) : bool := match w with Gone => false | _ => true end.

(** The status while the control thread is at a given place. *)
Definition status_of (c : ControlPc) : Status :=
  match c with
  | Running | ToResume | AtResume => RUN
  | ToPause | AtPause | Paused => PAUSE
  | ToStop | AtStop | AllStopped => STOP
  end.

(** Where a worker can be while the control thread is at a given place. *)
Definition allowed (c : ControlPc) (w : WorkerPc) : bool :=
  match c with
  | Running => match w with Working | Check _ | Gone => true | _ => false end
  | ToPause | AtPause =>
      match w with Working | Check _ | ToFirst _ | AtFirst _ | Gone => true | _ => false end
  | Paused | ToResume | AtResume | ToStop | AtStop =>
      match w with ToSecond _ | AtSecond _ | Gone => true | _ => false end
  | AllStopped => match w with Working | Check _ | Stopped | Gone => true | _ => false end
  end.

Record inv (s : WorkerStatus) : Prop := {
  inv_status : status_ s = status_of (control s);
  inv_count : num_workers_ s = Z.of_nat (length (List.filter is_active (workers s)));
  inv_barrier : pause_barrier_ s = num_workers_ s + 1;
  inv_allowed : Forall (fun w => allowed (control s) w = true) (workers s);
  inv_room : waiting s < pause_barrier_ s
}.

(** ** Counting *)

Lemma filter_insert_count (f : WorkerPc -> bool) l i w w' :
  l !! i = Some w ->
  Z.of_nat (length (List.filter f (<[i := w']> l))) =
  Z.of_nat (length (List.filter f l)) + Z.b2z (f w') - Z.b2z (f w).
Proof.
  revert i. induction l as [|x l IH]; intros [|i] H; cbn in H; [done | done | |].
  - injection H as ->. cbn. destruct (f w), (f w'); cbn [length Z.b2z]; lia.
  - change (<[S i := w']> (x :: l)) with (x :: <[i := w']> l). specialize (IH i H).
    cbn [List.filter]. destruct (f x); cbn [length] in *; lia.
Qed.

Lemma filter_weaken (f g : WorkerPc -> bool) l :
  (forall w, f w = true -> g w = true) ->
  (length (List.filter f l) <= length (List.filter g l))%nat.
Proof.
  intros H. induction l as [|x l IH]; cbn; [lia|]. specialize (H x).
  destruct (f x), (g x); cbn; lia.
Qed.

Lemma filter_strict (f g : WorkerPc -> bool) l i w :
  (forall w, f w = true -> g w = true) -> l !! i = Some w -> g w = true -> f w = false ->
  (length (List.filter f l) < length (List.filter g l))%nat.
Proof.
  intros H. revert i. induction l as [|x l IH]; intros [|i] Hl Hg Hf; cbn in Hl; [done|done| |].
  - injection Hl as ->. cbn. rewrite Hg, Hf. pose proof (filter_weaken f g l H). cbn. lia.
  - cbn. specialize (IH i Hl Hg Hf). pose proof (H x) as Hx. destruct (f x), (g x); cbn; lia.
Qed.

(** All active workers wait exactly if the counts agree. *)
Lemma all_waiting l :
  length (List.filter worker_waits l) = length (List.filter is_active l) ->
  Forall (fun w => is_active w = true -> worker_waits w = true) l.
Proof.
  intros Heq. apply Forall_lookup. intros i w Hi Ha. destruct (worker_waits w) eqn:Hw; [done|].
  pose proof (filter_strict worker_waits is_active l i w) as H.
  rewrite Heq in H. exfalso. apply (Nat.lt_irrefl (length (List.filter is_active l))), H; try done.
  intros x. by destruct x.
Qed.

Lemma waits_active l :
  (length (List.filter worker_waits l) <= length (List.filter is_active l))%nat.
Proof. apply filter_weaken. intros w. by destruct w. Qed.

Lemma no_waiting l :
  Forall (fun w => worker_waits w = false) l -> List.filter worker_waits l = [].
Proof. induction 1 as [|w l Hw _ IH]; [done|]. cbn. by rewrite Hw. Qed.

Lemma filter_release l :
  length (List.filter is_active (map release_worker l)) = length (List.filter is_active l).
Proof. induction l as [|w l IH]; [done|]. cbn. destruct w; cbn; by rewrite ?IH. Qed.

Lemma release_not_waiting l : List.filter worker_waits (map release_worker l) = [].
Proof. apply no_waiting, Forall_map, Forall_true. intros w. by destruct w. Qed.

Lemma active_length l : (length (List.filter is_active l) <= length l)%nat.
Proof. induction l as [|w l IH]; cbn; [lia|]. destruct (is_active w); cbn; lia. Qed.

(** ** Preservation *)

Lemma allowed_at s i w : inv s -> workers s !! i = Some w -> allowed (control s) w = true.
Proof. intros Hi. exact (proj1 (Forall_lookup _ _) (inv_allowed s Hi) i w). Qed.

Lemma barrier_inv s :
  status_ s = status_of (control s) ->
  num_workers_ s = Z.of_nat (length (List.filter is_active (workers s))) ->
  pause_barrier_ s = num_workers_ s + 1 ->
  Forall (fun w => allowed (control s) w = true) (workers s) ->
  waiting s <= pause_barrier_ s ->
  inv (WaitOnPauseBarrier s).
Proof.
  intros Hst Hn Hb Hal Hw. unfold WaitOnPauseBarrier.
  destruct (Z.eqb_spec (waiting s) (pause_barrier_ s)) as [Heq|Hne]; [|split; done || lia].
  unfold waiting in Heq. pose proof (waits_active (workers s)) as Hle.
  assert (Hc : control_waits (control s) = true) by (destruct (control_waits (control s)); cbn in Heq; [done | lia]).
  rewrite Hc in Heq. change (Z.b2z true) with 1 in Heq.
  pose proof (all_waiting (workers s) ltac:(lia)) as Hall.
  split; cbn [status_ num_workers_ pause_barrier_ control workers].
  - rewrite Hst. destruct (control s); done.
  - by rewrite filter_release.
  - done.
  - apply Forall_map. apply Forall_lookup. intros i w Hi.
    pose proof (proj1 (Forall_lookup _ _) Hal i w Hi) as Ha. pose proof (proj1 (Forall_lookup _ _) Hall i w Hi) as Hg.
    cbv beta in Ha, Hg. destruct (control s), w; try done; cbn in Hg; by specialize (Hg eq_refl).
  - unfold waiting. cbn [set_worker set_control SetStatus snd workers control]. rewrite release_not_waiting.
    destruct (control s); cbn; lia.
Qed.

(** A step of a worker that does not touch the barrier. *)
Lemma set_worker_inv s i w w' :
  inv s -> workers s !! i = Some w -> is_active w = true -> is_active w' = true ->
  worker_waits w = false -> worker_waits w' = false -> allowed (control s) w' = true ->
  inv (set_worker s i w').
Proof.
  intros [H1 H2 H3 H4 H5] Hi Ha Ha' Hw Hw' Hal. split; cbn [set_worker status_ num_workers_ pause_barrier_ control workers].
  - done.
  - rewrite (filter_insert_count _ _ _ _ _ Hi), Ha, Ha'. lia.
  - done.
  - by apply Forall_insert.
  - unfold waiting in *. cbn [set_worker set_control SetStatus snd workers control]. rewrite (filter_insert_count _ _ _ _ _ Hi), Hw, Hw'. lia.
Qed.

Lemma set_control_inv s st c :
  inv s -> status_of c = st -> control_waits (control s) = false -> control_waits c = false ->
  (forall w, allowed (control s) w = true -> allowed c w = true) ->
  inv (set_control (SetStatus s st).2 c).
Proof.
  intros [H1 H2 H3 H4 H5] Hst Hc Hc' Hal. split; cbn [set_control SetStatus snd status_ num_workers_ pause_barrier_ control workers].
  - done.
  - done.
  - done.
  - eapply Forall_impl; [exact H4 | exact Hal].
  - unfold waiting in *. cbn [set_worker set_control SetStatus snd workers control]. by rewrite Hc' in *; rewrite Hc in H5.
Qed.

(** Nobody is at the barrier when it is initialised again. *)
Lemma remove_quiet s i :
  inv s -> workers s !! i = Some (Check true) -> status_ s <> PAUSE ->
  (control s = Running \/ control s = AllStopped) /\ waiting s = 0.
Proof.
  intros Hinv Hi Hs. pose proof (allowed_at s i _ Hinv Hi) as Ha.
  rewrite (inv_status s Hinv) in Hs.
  assert (Hc : control s = Running \/ control s = AllStopped) by (destruct (control s); cbn in *; auto; done).
  split; [done|]. unfold waiting. rewrite no_waiting.
  - by destruct Hc as [-> | ->].
  - eapply Forall_impl; [exact (inv_allowed s Hinv)|]. intros w. cbv beta.
    destruct Hc as [-> | ->]; by destruct w.
Qed.

Lemma step_inv s s' : inv s -> step s s' -> inv s'.
Proof.
  intros Hinv Hstep. destruct Hstep as
    [s Hc|s Hc|s Hc|s c Hc|s i Hi|s i Hi|s i Hi|s i Hi|s i w w' Hi Hw].
  - unfold PauseWorkers. cbn [SetStatus]. rewrite bool_decide_true by (by rewrite (inv_status s Hinv), Hc).
    apply (set_control_inv s PAUSE); [done | done | by rewrite Hc | done |].
    rewrite Hc. intros w. by destruct w.
  - unfold ResumeWorkers. cbn [SetStatus]. rewrite bool_decide_true by (by rewrite (inv_status s Hinv), Hc).
    apply (set_control_inv s RUN); [done | done | by rewrite Hc | done |]. by rewrite Hc.
  - unfold StopWorkers. cbn [SetStatus]. destruct Hc as [Hc|Hc].
    + rewrite bool_decide_false by (by rewrite (inv_status s Hinv), Hc).
      apply (set_control_inv s STOP); [done | done | by rewrite Hc | done |]. rewrite Hc. intros w. by destruct w.
    + rewrite bool_decide_true by (by rewrite (inv_status s Hinv), Hc).
      apply (set_control_inv s STOP); [done | done | by rewrite Hc | done |]. by rewrite Hc.
  - destruct Hinv as [H1 H2 H3 H4 H5].
    assert (Hf : status_of c = status_of (control s) /\ (forall w, allowed c w = allowed (control s) w) /\
                 control_waits (control s) = false)
      by (destruct (control s); cbn in Hc; try done; by injection Hc as <-).
    destruct Hf as (F1 & F2 & F3). apply barrier_inv; cbn [set_control status_ num_workers_ pause_barrier_ control workers].
    + by rewrite F1.
    + done.
    + done.
    + eapply Forall_impl; [exact H4|]. intros w. by rewrite F2.
    + unfold waiting in *. cbn [set_worker set_control SetStatus snd workers control]. rewrite F3 in H5. cbn in H5. destruct (control_waits c); cbn; lia.
  - pose proof (allowed_at s i _ Hinv Hi). apply (set_worker_inv s i Working); try done;
    by destruct (control s).
  - destruct Hi as [Hi|Hi]; pose proof (allowed_at s i _ Hinv Hi).
    + apply (set_worker_inv s i Working); try done; by destruct (control s).
    + apply (set_worker_inv s i Stopped); try done; by destruct (control s).
  - pose proof (allowed_at s i _ Hinv Hi) as Ha. unfold ContinueRunning, GetStatus. rewrite (inv_status s Hinv).
    apply (set_worker_inv s i (Check false)); try done; by destruct (control s).
  - unfold RemoveSelf. case_bool_decide as Hs.
    + destruct (remove_quiet s i Hinv Hi Hs) as [Hc Hq]. destruct Hinv as [H1 H2 H3 H4 H5].
      pose proof (filter_insert_count is_active _ _ _ Gone Hi) as Hcnt. cbn [is_active Z.b2z] in Hcnt.
      assert (Hpos : 0 < num_workers_ s) by lia.
      split; cbn [status_ num_workers_ pause_barrier_ control workers]; try done; try lia.
      * apply Forall_insert; [done|]. by destruct Hc as [-> | ->].
      * unfold waiting in *. cbn [set_worker set_control SetStatus snd workers control]. rewrite (filter_insert_count _ _ _ _ _ Hi). cbn [worker_waits Z.b2z]. lia.
    + pose proof (allowed_at s i _ Hinv Hi) as Ha.
      rewrite (inv_status s Hinv) in Hs. apply (set_worker_inv s i (Check true)); try done; by destruct (control s).
  - pose proof (allowed_at s i _ Hinv Hi) as Ha. destruct Hinv as [H1 H2 H3 H4 H5].
    assert (Hf : is_active w = true /\ is_active w' = true /\ worker_waits w = false /\
                 allowed (control s) w' = true)
      by (destruct w; cbn in Hw; try done; injection Hw as <-; by destruct (control s)).
    destruct Hf as (F1 & F2 & F3 & F4).
    apply barrier_inv; cbn [set_worker status_ num_workers_ pause_barrier_ control workers].
    + done.
    + rewrite (filter_insert_count _ _ _ _ _ Hi), F1, F2. lia.
    + done.
    + by apply Forall_insert.
    + unfold waiting in *. cbn [set_worker set_control SetStatus snd workers control]. rewrite (filter_insert_count _ _ _ _ _ Hi), F3.
      destruct (worker_waits w'); cbn [Z.b2z]; lia.
Qed.

Lemma init_inv n : inv (Initialize n).
Proof.
  split; cbn [Initialize status_ num_workers_ pause_barrier_ control workers]; try done.
  - assert (E : List.filter is_active (replicate n Working) = replicate n Working)
      by (induction n as [|n IH]; cbn; [done | by rewrite IH]).
    by rewrite E, length_replicate.
  - apply Forall_replicate. done.
  - unfold waiting. cbn [workers control Initialize]. rewrite no_waiting by (by apply Forall_replicate).
    cbn. lia.
Qed.

Lemma reachable_inv n s : reachable n s -> inv s.
Proof.
  intros H. unfold reachable in H. remember (Initialize n) as s0 eqn:E.
  assert (Hi : inv s0) by (subst; apply init_inv). clear E. induction H as [|s0 s1 s2 H1 _ IH]; [done|].
  apply IH. by apply (step_inv s0).
Qed.

(** A stop is final: a worker that has seen it with [ContinueRunningNoPause] sees it again. *)
Lemma stop_is_final s s' :
  inv s -> step s s' -> ContinueRunningNoPause s = false -> ContinueRunningNoPause s' = false.
Proof.
  unfold ContinueRunningNoPause, GetStatus. rewrite !bool_decide_eq_false. intros Hi Hstep Hs Hs'. apply Hs. intros Hstop.
  apply Hs'. clear Hs Hs'. pose proof (inv_status s Hi) as Hc. rewrite Hstop in Hc.
  assert (Hb : forall x, status_ x = STOP -> status_ (WaitOnPauseBarrier x) = STOP)
    by (intros x Hx; unfold WaitOnPauseBarrier; by destruct (_ =? _)).
  destruct Hstep as [s Hr|s Hr|s Hr| | | | |s i ?|]; cbn; try done; try (by apply Hb); try (rewrite Hr in Hc; done).
  - by destruct (bool_decide _).
  - unfold RemoveSelf. by destruct (bool_decide _).
Qed.

(** ** Progress *)

(** Steps a worker still has to take before it waits for [PauseWorkers], or, after it,
    before it waits again. *)
Definition to_first (w : WorkerPc) : nat :=
  match w with Working => 3 | Check _ => 2 | ToFirst _ => 1 | _ => 0 end.
Definition to_second (w : WorkerPc) : nat := match w with ToSecond _ => 1 | _ => 0 end.

Fixpoint total (f : WorkerPc -> nat) (l : list WorkerPc) : nat :=
  match l with [] => O | w :: l' => (f w + total f l')%nat end.

Lemma total_insert f l i w w' :
  l !! i = Some w -> (total f (<[i := w']> l) + f w = total f l + f w')%nat.
Proof.
  revert i. induction l as [|x l IH]; intros [|i] H; cbn in H; [done|done| |].
  - injection H as ->. cbn. lia.
  - change (<[S i := w']> (x :: l)) with (x :: <[i := w']> l). specialize (IH i H). cbn [total]. lia.
Qed.

Definition pausing (c : ControlPc) : bool := match c with ToPause | AtPause => true | _ => false end.
Definition resuming (c : ControlPc) : bool :=
  match c with ToResume | AtResume | ToStop | AtStop => true | _ => false end.

(** The steps left until the call of the control thread returns. *)
Definition remaining (s : WorkerStatus) : nat :=
  (match control s with ToPause | ToResume | ToStop => 1 | _ => 0 end +
   total (if pausing (control s) then to_first else to_second) (workers s))%nat.

Lemma total_zero f l : total f l = 0%nat -> Forall (fun w => f w = 0%nat) l.
Proof.
  induction l as [|w l IH]; [constructor|]. cbn. intros H. constructor; [lia|].
  apply IH. lia.
Qed.

Lemma total_pos f l : total f l <> 0%nat -> exists i w, l !! i = Some w /\ f w <> 0%nat.
Proof.
  induction l as [|w l IH]; [done|]. cbn. intros H.
  destruct (decide (f w = 0%nat)) as [E|E].
  - destruct IH as (i & w' & H1 & H2); [lia|]. by exists (S i), w'.
  - by exists O, w.
Qed.

(** While the control thread waits, somebody can move. *)
Lemma waiting_moves s :
  inv s -> pausing (control s) = true \/ resuming (control s) = true -> exists s', step s s'.
Proof.
  intros Hinv Hc. destruct (control_arrives (control s)) as [c|] eqn:Hca.
  { eexists. by apply step_control_wait. }
  assert (Hw : control_waits (control s) = true) by (destruct (control s); cbn in *; destruct Hc; done).
  destruct (decide (length (List.filter worker_waits (workers s)) = length (List.filter is_active (workers s))))
    as [Heq|Hne].
  { exfalso. destruct Hinv as [_ H2 H3 _ H5]. unfold waiting in H5. rewrite Hw in H5. cbn in H5. lia. }
  assert (exists i w, workers s !! i = Some w /\ is_active w = true /\ worker_waits w = false)
    as (i & w & Hi & Ha & Hn).
  { destruct (decide (Forall (fun w => is_active w = true -> worker_waits w = true) (workers s))) as [Hf|Hf].
    - exfalso. apply Hne. clear -Hf. induction Hf as [|w l Hw _ IH]; [done|]. cbn.
      destruct w; cbn in *; try done; try (by rewrite IH); by specialize (Hw eq_refl).
    - apply not_Forall_Exists in Hf; [|apply _]. apply Exists_exists in Hf as (w & Hin & Hw').
      apply list_elem_of_lookup in Hin as [i Hi]. exists i, w.
      unfold compose in Hw'. destruct (is_active w), (worker_waits w); try done; by destruct Hw'. }
  pose proof (allowed_at s i w Hinv Hi) as Hal.
  destruct w as [|[]|r|r|r|r| |]; cbn in Ha, Hn; try done.
  - eexists. by apply (step_call s i).
  - eexists. by apply (step_remove s i).
  - eexists. by apply (step_continue s i).
  - eexists. by eapply (step_worker_wait s i (ToFirst r)).
  - eexists. by eapply (step_worker_wait s i (ToSecond r)).
  - destruct (control s); cbn in *; done || (destruct Hc; done).
Qed.

(** An arrival either releases the control thread or nobody. *)
Lemma barrier_result s :
  num_workers_ s = Z.of_nat (length (List.filter is_active (workers s))) ->
  pause_barrier_ s = num_workers_ s + 1 ->
  WaitOnPauseBarrier s = s \/
  control_waits (control s) = true /\ control (WaitOnPauseBarrier s) = release_control (control s).
Proof.
  intros Hn Hb. unfold WaitOnPauseBarrier.
  destruct (Z.eqb_spec (waiting s) (pause_barrier_ s)) as [Heq|]; [|by left]. right. split; [|done].
  pose proof (waits_active (workers s)). unfold waiting in Heq.
  destruct (control_waits (control s)); [done | cbn in Heq; lia].
Qed.

(** The call has returned, or is still under way with less left to do. *)
Definition advances (s s' : WorkerStatus) : Prop :=
  control s' = release_control (control s) /\ control_waits (control s) = true \/
  control s' = release_control (default (control s) (control_arrives (control s))) /\
    is_Some (control_arrives (control s)) \/
  pausing (control s') = pausing (control s) /\ resuming (control s') = resuming (control s) /\
  release_control (default (control s') (control_arrives (control s'))) =
    release_control (default (control s) (control_arrives (control s))) /\
  (remaining s' < remaining s)%nat.

(** A step of a worker towards the barrier. *)
Lemma set_worker_advances s i w w' :
  workers s !! i = Some w ->
  ((if pausing (control s) then to_first else to_second) w' <
   (if pausing (control s) then to_first else to_second) w)%nat ->
  advances s (set_worker s i w').
Proof.
  intros Hi Hlt. right; right. split; [done|]. split; [done|]. split; [done|].
  unfold remaining. cbn [set_worker control workers].
  pose proof (total_insert (if pausing (control s) then to_first else to_second) _ _ _ w' Hi). lia.
Qed.

Lemma step_advances s s' :
  inv s -> pausing (control s) = true \/ resuming (control s) = true -> step s s' -> advances s s'.
Proof.
  intros Hinv Hc Hstep.
  assert (Hno : control s <> Running /\ control s <> Paused) by (destruct (control s); by destruct Hc).
  destruct Hno as [Hn1 Hn2]. destruct Hstep as
    [s Hs|s Hs|s Hs|s c Hs|s i Hi|s i Hi|s i Hi|s i Hi|s i w w' Hi Hw]; try done.
  - destruct Hs; done.
  - destruct Hinv as [_ H2 H3 _ _].
    destruct (barrier_result (set_control s c) H2 H3) as [-> |[_ Hr]].
    + right; right. destruct (control s) eqn:E; cbn in Hs; try done; injection Hs as <-;
        unfold remaining; cbn [set_control control workers]; rewrite E;
        repeat split; cbn; lia.
    + right; left. rewrite Hr, Hs. cbn. done.
  - pose proof (allowed_at s i _ Hinv Hi) as Ha. apply (set_worker_advances s i Working); [done|].
    destruct (control s); cbn in *; try done; lia.
  - destruct Hi as [Hi|Hi]; pose proof (allowed_at s i _ Hinv Hi) as Ha.
    + apply (set_worker_advances s i Working); [done|]. destruct (control s); cbn in *; try done; lia.
    + destruct (control s); by destruct Hc.
  - pose proof (allowed_at s i _ Hinv Hi) as Ha. apply (set_worker_advances s i (Check false)); [done|].
    unfold ContinueRunning, GetStatus. rewrite (inv_status s Hinv).
    destruct (control s); cbn in *; try done; destruct Hc; try done; lia.
  - pose proof (allowed_at s i _ Hinv Hi) as Ha. unfold RemoveSelf. rewrite (inv_status s Hinv).
    rewrite bool_decide_false by (intros H; destruct (control s); cbn in *; try done; first [by destruct Hc | by apply H]).
    apply (set_worker_advances s i (Check true)); [done|]. destruct (control s); cbn in *; try done; lia.
  - pose proof (allowed_at s i _ Hinv Hi) as Ha. destruct Hinv as [_ H2 H3 _ _].
    assert (Hact : is_active w = true /\ is_active w' = true) by (destruct w; cbn in Hw; try done; by injection Hw as <-).
    destruct Hact as [A1 A2].
    destruct (barrier_result (set_worker s i w')) as [-> |[Hcw Hr]].
    + cbn [set_worker num_workers_ workers]. rewrite (filter_insert_count _ _ _ _ _ Hi), A1, A2. lia.
    + done.
    + apply (set_worker_advances s i w); [done|].
      destruct w; cbn in Hw; try done; injection Hw as <-; destruct (control s); cbn in *; try done; lia.
    + left. by rewrite Hr.
Qed.

(** The first [k] moves of a sequence of states are steps. *)
Definition executes (k : nat) (run : nat -> WorkerStatus) : Prop :=
  forall i, (i < k)%nat -> step (run i) (run (S i)).

Lemma remaining_bound s :
  pausing (control s) = true \/ resuming (control s) = true ->
  (remaining s <= 3 * length (workers s) + 1)%nat.
Proof.
  intros _. unfold remaining.
  assert (H : forall l, (total (if pausing (control s) then to_first else to_second) l <= 3 * length l)%nat).
  { induction l as [|w l IH]; cbn [total length]; [lia|].
    assert ((if pausing (control s) then to_first else to_second) w <= 3)%nat
      by (destruct (pausing (control s)), w; cbn; lia). lia. }
  specialize (H (workers s)). destruct (control s); lia.
Qed.

(** The control thread's place when its call returns. *)
Definition returned (c : ControlPc) : ControlPc := release_control (default c (control_arrives c)).

Lemma call_completes k : forall run,
  inv (run O) -> pausing (control (run O)) = true \/ resuming (control (run O)) = true ->
  executes k run -> (remaining (run O) < k)%nat ->
  exists j, (j <= k)%nat /\ control (run j) = returned (control (run O)).
Proof.
  induction k as [|k IH]; intros run Hinv Hc Hex Hk; [lia|]. pose proof (Hex O ltac:(lia)) as Hst.
  destruct (step_advances _ _ Hinv Hc Hst) as [[H1 H2]|[[H1 _]|(P1 & P2 & P3 & P4)]].
  - exists 1%nat. split; [lia|]. rewrite H1. unfold returned. by destruct (control (run O)).
  - exists 1%nat. split; [lia | done].
  - destruct (IH (fun i => run (S i))) as (j & Hj & Hr).
    + by apply (step_inv (run O)).
    + by rewrite P1, P2.
    + intros i Hi. apply Hex. lia.
    + lia.
    + exists (S j). split; [lia|]. unfold returned in *. by rewrite Hr, P3.
Qed.

(** ** Properties *)

(** C9. A pause is a pause, and the barrier is never broken.  In every reachable state:
    while [PauseWorkers] has returned and neither [ResumeWorkers] nor [StopWorkers] has
    been called, every worker that has not left is inside its wait for them, none is
    working; the barrier counts exactly the workers still there and the control thread,
    and fewer threads than that wait on it; and when a worker leaves and initialises the
    barrier again, no thread is waiting on it. *)
Theorem pause_protocol_safe n s :
  reachable n s ->
  (control s = Paused ->
   Forall (fun w => (exists r, w = ToSecond r \/ w = AtSecond r) \/ w = Gone) (workers s)) /\
  pause_barrier_ s = Z.of_nat (length (List.filter is_active (workers s))) + 1 /\
  waiting s < pause_barrier_ s /\
  (forall i, workers s !! i = Some (Check true) -> status_ s <> PAUSE -> waiting s = 0).
Proof.
  intros Hr. pose proof (reachable_inv n s Hr) as Hinv. split; [|split; [|split]].
  - intros Hc. eapply Forall_impl; [exact (inv_allowed s Hinv)|]. intros w. rewrite Hc.
    destruct w; cbn; try done; eauto.
  - rewrite (inv_barrier s Hinv), (inv_count s Hinv). done.
  - exact (inv_room s Hinv).
  - intros i Hi Hs. by apply (remove_quiet s i).
Qed.

(** Two workers: one meets the pause in [ContinueRunning], the other while leaving. *)
Lemma pause_protocol_safe_witness :
  let s := mkStatus PAUSE 2 3 Paused [ToSecond false; ToSecond true] in
  reachable 2 s /\ waiting s < pause_barrier_ s.
Proof.
  assert (Hr : reachable 2 (mkStatus PAUSE 2 3 Paused [ToSecond false; ToSecond true])).
  { unfold reachable.
    eapply rtc_l; [exact (step_pause (Initialize 2) eq_refl)|].
    eapply rtc_l; [exact (step_call (mkStatus PAUSE 2 3 ToPause [Working; Working]) 0 eq_refl)|].
    eapply rtc_l; [exact (step_leave (mkStatus PAUSE 2 3 ToPause [Check false; Working]) 1 (or_introl eq_refl))|].
    eapply rtc_l; [exact (step_continue (mkStatus PAUSE 2 3 ToPause [Check false; Check true]) 0 eq_refl)|].
    eapply rtc_l; [exact (step_remove (mkStatus PAUSE 2 3 ToPause [ToFirst false; Check true]) 1 eq_refl)|].
    eapply rtc_l; [exact (step_control_wait (mkStatus PAUSE 2 3 ToPause [ToFirst false; ToFirst true]) AtPause eq_refl)|].
    eapply rtc_l; [exact (step_worker_wait (mkStatus PAUSE 2 3 AtPause [ToFirst false; ToFirst true]) 0 (ToFirst false) (AtFirst false) eq_refl eq_refl)|].
    eapply rtc_l; [exact (step_worker_wait (mkStatus PAUSE 2 3 AtPause [AtFirst false; ToFirst true]) 1 (ToFirst true) (AtFirst true) eq_refl eq_refl)|].
    apply rtc_refl. }
  split; [exact Hr|]. exact (proj1 (proj2 (proj2 (pause_protocol_safe 2 _ Hr)))).
Defined.

(** C10. Pausing, resuming and stopping terminate.  From every reachable state in which the
    control thread is inside one of these calls: some thread can take a step, and in every
    sequence of [3 n + 2] steps of the [n] workers and the control thread, in whatever order
    they are scheduled, one of the states of that sequence is one in which the call has
    returned. *)
Theorem pause_protocol_terminates n s :
  reachable n s -> pausing (control s) = true \/ resuming (control s) = true ->
  (exists s', step s s') /\
  forall run, run O = s -> executes (3 * length (workers s) + 2) run ->
    exists j, (j <= 3 * length (workers s) + 2)%nat /\ control (run j) = returned (control s).
Proof.
  intros Hr Hc. pose proof (reachable_inv n s Hr) as Hinv. split; [by apply waiting_moves|].
  intros run <- Hex. pose proof (remaining_bound (run O) Hc). apply call_completes; [done..|lia].
Qed.

Lemma pause_protocol_terminates_witness :
  exists s', step (PauseWorkers (Initialize 2)) s'.
Proof.
  apply (pause_protocol_terminates 2 (PauseWorkers (Initialize 2))).
  - eapply rtc_l; [exact (step_pause (Initialize 2) eq_refl) | apply rtc_refl].
  - left. reflexivity.
Defined.

End WorkerStatusFacts.
