(* ===== verification/Program.v ===== *)
(** Thread bodies as programs, and their interleavings.

    A program is a sequence of atomic accesses to shared state.  An access reads the
    surroundings (an [answer]: clock, random numbers, scheduling decisions and so on) and
    the shared state, and gives a value and the new state, or [None] when the code's
    assertion fails.  The file has the monad in which the thread bodies are written, the
    step relation that interleaves any number of threads, and a logic of owned resources
    to prove invariants of all interleavings one thread at a time. *)

From S2P Require Import Prelude.

Module Program.

Section Defs.
Context {An W : Type}.

Inductive Prog (A : Type) : Type :=
| Ret (a : A)
| Act (B : Type) (f : An -> W -> option (B * W)) (k : B -> Prog A).

Fixpoint bind {A B : Type} (p : Prog A) (g : A -> Prog B) : Prog B :=
  match p with
  | Ret _ a => g a
  | Act _ C f k => Act _ C f (fun c => bind (k c) g)
  end.

(** One access; an access that only reads the surroundings; one that only changes state. *)
Definition act {B : Type} (f : An -> W -> option (B * W)) : Prog B := Act B B f (Ret B).
Definition ask {B : Type} (f : An -> B) : Prog B := act (fun an w => Some (f an, w)).
Definition get {B : Type} (f : W -> B) : Prog B := act (fun _ w => Some (f w, w)).
Definition modify (f : An -> W -> W) : Prog unit := act (fun an w => Some (tt, f an w)).

(** [while (true)] with [break]: the body returns the next loop state or the result.  At
    most [n] turns are taken; [None] when they are used up. *)
Fixpoint loop {S R : Type} (n : nat) (body : S -> Prog (S + R)) (s : S) : Prog (option R) :=
  match n with
  | O => Ret _ None
  | S n' => bind (body s) (fun r => match r with
                                    | inl s' => loop n' body s'
                                    | inr x => Ret _ (Some x)
                                    end)
  end.

(** Interleaved execution: some thread makes its next access, with some answer. *)
Inductive pstep {A : Type} : W * list (Prog A) -> W * list (Prog A) -> Prop :=
| pstep_act w ths i B f k an b w' :
    ths !! i = Some (Act A B f k) -> f an w = Some (b, w') ->
    pstep (w, ths) (w', <[i := k b]> ths).

(** The same with answers of some kind only. *)
Inductive pstep_in (Ok : An -> Prop) {A : Type} : W * list (Prog A) -> W * list (Prog A) -> Prop :=
| pstep_in_act w ths i B f k an b w' :
    ths !! i = Some (Act A B f k) -> Ok an -> f an w = Some (b, w') ->
    pstep_in Ok (w, ths) (w', <[i := k b]> ths).

(** No thread is about to fail an assertion. *)
Definition no_failure {A : Type} (s : W * list (Prog A)) : Prop :=
  forall i B f k an, s.2 !! i = Some (Act A B f k) -> is_Some (f an s.1).

(** A thread on its own, with the answers it gets; [None] when an assertion fails or the
    answers run out. *)
Fixpoint run_alone {A : Type} (p : Prog A) (ans : list An) (w : W) : option (A * W) :=
  match p, ans with
  | Ret _ a, _ => Some (a, w)
  | Act _ B f k, an :: ans' => match f an w with
                              | Some (b, w') => run_alone (k b) ans' w'
                              | None => None
                              end
  | Act _ _ _ _, [] => None
  end.

(** The threads as a scheduler picks them; a thread that has ended is passed over. *)
Fixpoint run_schedule {A : Type} (sched : list (nat * An)) (s : W * list (Prog A)) : option (W * list (Prog A)) :=
  match sched with
  | [] => Some s
  | (i, an) :: sched' =>
      match s.2 !! i with
      | Some (Act _ B f k) => match f an s.1 with
                              | Some (b, w') => run_schedule sched' (w', <[i := k b]> s.2)
                              | None => None
                              end
      | _ => run_schedule sched' s
      end
  end.

End Defs.

Arguments Prog : clear implicits.
Arguments Ret {An W A} a.
Arguments Act {An W A} B f k.

(** A program over a part of the state, run on the whole. *)
Fixpoint zoom {An W W' A : Type} (view : W' -> W) (upd : W' -> W -> W') (p : Prog An W A)
  : Prog An W' A :=
  match p with
  | Ret a => Ret a
  | Act B f k => Act B (fun an w => match f an (view w) with
                                    | Some (b, v) => Some (b, upd w v)
                                    | None => None
                                    end) (fun b => zoom view upd (k b))
  end.

(** A program with part of the answers and over a part of the state, run on the whole. *)
Fixpoint embed {An An' W W' A : Type} (ans : An' -> An) (view : W' -> W) (upd : W' -> W -> W')
    (p : Prog An W A) : Prog An' W' A :=
  match p with
  | Ret a => Ret a
  | Act B f k => Act B (fun an w => match f (ans an) (view w) with
                                    | Some (b, v) => Some (b, upd w v)
                                    | None => None
                                    end) (fun b => embed ans view upd (k b))
  end.

End Program.

Declare Scope prog_scope.
Delimit Scope prog_scope with prog.
Notation "x <- p ;; q" := (Program.bind p (fun x => q))
  (at level 100, p at next level, right associativity) : prog_scope.
Notation "p ;; q" := (Program.bind p (fun _ => q)) (at level 100, right associativity) : prog_scope.

Module ProgramFacts.
Import Program.

(** ** A logic of owned resources

    [Inv x w R] relates a ghost value, the shared state and the resources of all threads,
    as a multiset.  A thread that owns [l] is [safe] if each of its accesses succeeds
    whatever the others own, keeps the invariant and leaves the others' resources alone. *)
Section Safe.
Context {An W L X : Type} (Inv : X -> W -> list L -> Prop).
Context `{Inv_proper : !forall x w, Proper (Permutation ==> iff) (Inv x w)}.

Fixpoint safe {A : Type} (p : Prog An W A) (l : list L) (Q : A -> list L -> Prop) : Prop :=
  match p with
  | Ret a => Q a l
  | Act B f k => forall x w R an, Inv x w (l ++ R) ->
      exists b w' l', f an w = Some (b, w') /\ Inv x w' (l' ++ R) /\ safe (k b) l' Q
  end.

Lemma safe_mono {A} (p : Prog An W A) l (Q Q' : A -> list L -> Prop) :
  (forall a l, Q a l -> Q' a l) -> safe p l Q -> safe p l Q'.
Proof.
  intros HQ. revert l. induction p as [a|B f k IH]; intros l; cbn; [apply HQ|].
  intros H x w R an Hi. destruct (H x w R an Hi) as (b & w' & l' & Hf & Hi' & Hs).
  exists b, w', l'. auto.
Qed.

Lemma safe_bind {A B} (p : Prog An W A) (g : A -> Prog An W B) l Q :
  safe p l (fun a l' => safe (g a) l' Q) -> safe (bind p g) l Q.
Proof.
  revert l. induction p as [a|C f k IH]; intros l; cbn; [done|].
  intros H x w R an Hi. destruct (H x w R an Hi) as (b & w' & l' & Hf & Hi' & Hs).
  exists b, w', l'. auto.
Qed.

Lemma safe_act {B} (f : An -> W -> option (B * W)) l (Q : B -> list L -> Prop) :
  (forall x w R an, Inv x w (l ++ R) ->
     exists b w' l', f an w = Some (b, w') /\ Inv x w' (l' ++ R) /\ Q b l') ->
  safe (act f) l Q.
Proof. done. Qed.

(** Accesses that change nothing. *)
Lemma safe_ask {B} (f : An -> B) l (Q : B -> list L -> Prop) :
  (forall an, Q (f an) l) -> safe (ask f) l Q.
Proof. intros H x w R an Hi. exists (f an), w, l. repeat split; [done | apply H]. Qed.

Lemma safe_get {B} (f : W -> B) l (Q : B -> list L -> Prop) :
  (forall w, Q (f w) l) -> safe (get f) l Q.
Proof. intros H x w R an Hi. exists (f w), w, l. repeat split; [done | apply H]. Qed.

(** The frame rule. *)
Lemma safe_frame {A} (p : Prog An W A) l F Q :
  safe p l Q -> safe p (l ++ F) (fun a l' => exists l'', l' = l'' ++ F /\ Q a l'').
Proof using Inv_proper.
  revert l. induction p as [a|B f k IH]; intros l; cbn; [by exists l|].
  intros H x w R an Hi. rewrite <- app_assoc in Hi.
  destruct (H x w (F ++ R) an Hi) as (b & w' & l' & Hf & Hi' & Hs).
  exists b, w', (l' ++ F). rewrite <- app_assoc. auto.
Qed.

Lemma safe_perm {A} (p : Prog An W A) l l' Q :
  (forall a, Proper (Permutation ==> iff) (Q a)) -> l ≡ₚ l' -> safe p l Q -> safe p l' Q.
Proof using Inv_proper.
  intros HQ Hl. destruct p as [a|B f k]; cbn; [by rewrite Hl|].
  intros H x w R an Hi. apply H. by rewrite Hl.
Qed.

(** A loop with an invariant. *)
Lemma safe_loop {S A} n (body : S -> Prog An W (S + A)) s l (J : S -> list L -> Prop)
    (Q : option A -> list L -> Prop) :
  (forall s l, J s l -> safe (body s) l (fun r l' => match r with
                                                      | inl s' => J s' l'
                                                      | inr a => Q (Some a) l'
                                                      end)) ->
  (forall s l, J s l -> Q None l) ->
  J s l -> safe (loop n body s) l Q.
Proof.
  intros Hbody Hnone. revert s l. induction n as [|n IH]; intros s l Hj; cbn [loop].
  - by apply (Hnone s).
  - apply safe_bind. eapply safe_mono; [|by apply Hbody].
    intros [s'|a] l' Hr; [by apply IH | done].
Qed.

(** A loop whose number of turns [m] is known, and sufficient. *)
Lemma safe_loop_bounded {S A} n m (body : S -> Prog An W (S + A)) s l
    (J : nat -> S -> list L -> Prop) (Q : option A -> list L -> Prop) :
  (forall m s l, J m s l -> safe (body s) l (fun r l' => match r with
                                                          | inl s' => exists m', m = Datatypes.S m' /\ J m' s' l'
                                                          | inr a => Q (Some a) l'
                                                          end)) ->
  (m < n)%nat -> J m s l -> safe (loop n body s) l Q.
Proof.
  intros Hbody. revert m s l. induction n as [|n IH]; intros m s l Hm Hj; [lia|]. cbn [loop].
  apply safe_bind. eapply safe_mono; [|by apply Hbody].
  intros [s'|a] l' Hr; [|done]. destruct Hr as (m' & -> & Hj'). apply (IH m'); [lia | done].
Qed.

(** ** Interleavings of safe threads *)

(** Each thread owns a list of resources and is safe with it. *)
Definition all_safe {A} (Q : A -> list L -> Prop) (x : X) (s : W * list (Prog An W A)) : Prop :=
  exists ls : list (list L), Inv x s.1 (concat ls) /\ Forall2 (fun p l => safe p l Q) s.2 ls.

Lemma concat_insert (ls : list (list L)) i l :
  ls !! i = Some l -> exists R, concat ls ≡ₚ l ++ R /\ forall l', concat (<[i := l']> ls) ≡ₚ l' ++ R.
Proof.
  revert i. induction ls as [|l0 ls IH]; intros [|i] H; cbn in *; [done|done|..].
  - injection H as ->. by exists (concat ls).
  - destruct (IH i H) as (R & H1 & H2). exists (l0 ++ R). split.
    + rewrite H1, !app_assoc. by rewrite (Permutation_app_comm l0 l).
    + intros l'. rewrite H2, !app_assoc. by rewrite (Permutation_app_comm l0 l').
Qed.

Lemma thread_resources {A} (Q : A -> list L -> Prop) x w ths ls i B f (k : B -> Prog An W A) :
  Inv x w (concat ls) -> Forall2 (fun p l => safe p l Q) ths ls -> ths !! i = Some (Act B f k) ->
  exists l R, ls !! i = Some l /\ Inv x w (l ++ R) /\
    (forall l', concat (<[i := l']> ls) ≡ₚ l' ++ R) /\ safe (Act B f k) l Q.
Proof using Inv_proper.
  intros Hi Hs Hp. destruct (Forall2_lookup_l _ _ _ _ _ Hs Hp) as (l & Hl & Hsafe).
  destruct (concat_insert ls i l Hl) as (R & H1 & H2). rewrite H1 in Hi. by exists l, R.
Qed.

Lemma pstep_safe {A} (Q : A -> list L -> Prop) x s s' :
  all_safe Q x s -> pstep s s' -> all_safe Q x s'.
Proof using Inv_proper.
  intros (ls & Hi & Hs) Hstep. destruct Hstep as [w ths i B f k an b w' Hp Hf].
  destruct (thread_resources Q x w ths ls i B f k Hi Hs Hp) as (l & R & Hl & HiR & Hins & Hsafe).
  destruct (Hsafe x w R an HiR) as (b' & w1 & l' & Hf' & Hi' & Hk).
  rewrite Hf in Hf'. injection Hf' as <- <-. exists (<[i := l']> ls). split; cbn.
  - by rewrite Hins.
  - by apply Forall2_insert.
Qed.

Lemma all_safe_no_failure {A} (Q : A -> list L -> Prop) x s : all_safe Q x s -> no_failure s.
Proof using Inv_proper.
  intros (ls & Hi & Hs) i B f k an Hp. destruct s as [w ths]. cbn in *.
  destruct (thread_resources Q x w ths ls i B f k Hi Hs Hp) as (l & R & _ & HiR & _ & Hsafe).
  destruct (Hsafe x w R an HiR) as (b & w' & l' & -> & _). done.
Qed.

End Safe.

(** The same with a condition on the ghost value. *)
Lemma safe_where {An W L X A : Type} (Inv : X -> W -> list L -> Prop) (phi : X -> Prop) (p : Prog An W A) l Q :
  safe Inv p l Q -> safe (fun x w R => phi x /\ Inv x w R) p l Q.
Proof.
  revert l. induction p as [a|B f k IH]; intros l; cbn [safe]; [done|]. intros H x w R an [Hx Hi].
  destruct (H x w R an Hi) as (b & w' & l' & Hf & Hi' & Hk). exists b, w', l'. auto.
Qed.

(** ** Partial and conditional safety

    The same logic for executions whose answers are [Ok]; that accesses succeed is only
    shown when [tot] holds, so that a second invariant can be proved of executions that are
    known not to fail. *)
Section Cond.
Context {An W L X : Type} (Ok : An -> Prop) (tot : Prop) (Inv : X -> W -> list L -> Prop).
Context `{Inv_proper : !forall x w, Proper (Permutation ==> iff) (Inv x w)}.

Fixpoint gsafe {A : Type} (p : Prog An W A) (l : list L) (Q : A -> list L -> Prop) : Prop :=
  match p with
  | Ret a => Q a l
  | Act B f k => forall x w R an, Ok an -> Inv x w (l ++ R) ->
      (tot -> is_Some (f an w)) /\
      forall b w', f an w = Some (b, w') -> exists l', Inv x w' (l' ++ R) /\ gsafe (k b) l' Q
  end.

Lemma gsafe_mono {A} (p : Prog An W A) l (Q Q' : A -> list L -> Prop) :
  (forall a l, Q a l -> Q' a l) -> gsafe p l Q -> gsafe p l Q'.
Proof.
  intros HQ. revert l. induction p as [a|B f k IH]; intros l; cbn; [apply HQ|].
  intros H x w R an Ha Hi. destruct (H x w R an Ha Hi) as [Ht Hn]. split; [done|]. intros b w' Hf.
  destruct (Hn b w' Hf) as (l' & Hi' & Hs). exists l'. auto.
Qed.

Lemma gsafe_bind {A B} (p : Prog An W A) (g : A -> Prog An W B) l Q :
  gsafe p l (fun a l' => gsafe (g a) l' Q) -> gsafe (bind p g) l Q.
Proof.
  revert l. induction p as [a|C f k IH]; intros l; cbn; [done|].
  intros H x w R an Ha Hi. destruct (H x w R an Ha Hi) as [Ht Hn]. split; [done|]. intros b w' Hf.
  destruct (Hn b w' Hf) as (l' & Hi' & Hs). exists l'. auto.
Qed.

(** An access that succeeds. *)
Lemma gsafe_act {B} (f : An -> W -> option (B * W)) l (Q : B -> list L -> Prop) :
  (forall x w R an, Ok an -> Inv x w (l ++ R) ->
     exists b w' l', f an w = Some (b, w') /\ Inv x w' (l' ++ R) /\ Q b l') ->
  gsafe (act f) l Q.
Proof.
  intros H x w R an Ha Hi. destruct (H x w R an Ha Hi) as (b & w' & l' & Hf & Hi' & HQ). rewrite Hf.
  split; [done|]. intros ? ? [= <- <-]. by exists l'.
Qed.

(** Resources that cannot be: nothing is left to show. *)
Lemma gsafe_absurd {B} (f : An -> W -> option (B * W)) l (Q : B -> list L -> Prop) :
  (forall x w R, Inv x w (l ++ R) -> False) -> gsafe (act f) l Q.
Proof. intros H x w R an _ Hi. by apply H in Hi. Qed.

Lemma gsafe_ask {B} (f : An -> B) l (Q : B -> list L -> Prop) :
  (forall an, Ok an -> Q (f an) l) -> gsafe (ask f) l Q.
Proof. intros H. apply gsafe_act. intros x w R an Ha Hi. exists (f an), w, l. by auto. Qed.

(** A loop whose number of turns [m] is known, and sufficient. *)
Lemma gsafe_loop {S A} n m (body : S -> Prog An W (S + A)) s l
    (J : nat -> S -> list L -> Prop) (Q : option A -> list L -> Prop) :
  (forall m s l, J m s l -> gsafe (body s) l (fun r l' => match r with
                                                           | inl s' => exists m', m = Datatypes.S m' /\ J m' s' l'
                                                           | inr a => Q (Some a) l'
                                                           end)) ->
  (m < n)%nat -> J m s l -> gsafe (loop n body s) l Q.
Proof.
  intros Hbody. revert m s l. induction n as [|n IH]; intros m s l Hm Hj; [lia|]. cbn [loop].
  apply gsafe_bind. eapply gsafe_mono; [|by apply Hbody].
  intros [s'|a] l' Hr; [|done]. destruct Hr as (m' & -> & Hj'). apply (IH m'); [lia | done].
Qed.

(** A loop that may use up its turns. *)
Lemma gsafe_loop_any {S A} n (body : S -> Prog An W (S + A)) s l (K : S -> list L -> Prop) (Q : option A -> list L -> Prop) :
  (forall s l, K s l -> gsafe (body s) l (fun r l' => match r with
                                                      | inl s' => K s' l'
                                                      | inr a => Q (Some a) l'
                                                      end)) ->
  (forall s l, K s l -> Q None l) -> K s l -> gsafe (loop n body s) l Q.
Proof.
  intros Hbody Hnone. revert s l. induction n as [|n IH]; intros s l Hj; cbn [loop].
  - by apply (Hnone s).
  - apply gsafe_bind. eapply gsafe_mono; [|by apply Hbody]. intros [s'|a] l' Hr; [by apply IH | done].
Qed.

Definition all_gsafe {A} (Q : nat -> A -> list L -> Prop) (x : X) (s : W * list (Prog An W A)) : Prop :=
  exists ls : list (list L), Inv x s.1 (concat ls) /\ length ls = length s.2 /\
    forall i p l, s.2 !! i = Some p -> ls !! i = Some l -> gsafe p l (Q i).

Lemma pstep_gsafe {A} (Q : nat -> A -> list L -> Prop) x s s' :
  all_gsafe Q x s -> pstep_in Ok s s' -> all_gsafe Q x s'.
Proof using Inv_proper.
  intros (ls & Hi & Hlen & Hs) Hstep. destruct Hstep as [w ths i B f k an b w' Hp Ha Hf]. cbn [fst snd] in *.
  destruct (lookup_lt_is_Some_2 ls i) as [l Hl]; [rewrite Hlen; by eapply lookup_lt_Some|].
  destruct (concat_insert ls i l Hl) as (R & H1 & H2). rewrite H1 in Hi.
  destruct (Hs i _ l Hp Hl x w R an Ha Hi) as [_ Hn]. destruct (Hn b w' Hf) as (l' & Hi' & Hk).
  exists (<[i := l']> ls). cbn [fst snd]. split; [by rewrite H2|]. split; [by rewrite !length_insert|].
  intros j p l0 Hj Hl0. destruct (decide (i = j)) as [<-|Hne].
  - rewrite list_lookup_insert_eq in Hj by (by eapply lookup_lt_Some). injection Hj as <-.
    rewrite list_lookup_insert_eq in Hl0 by (by eapply lookup_lt_Some). by injection Hl0 as <-.
  - rewrite list_lookup_insert_ne in Hj by done. rewrite list_lookup_insert_ne in Hl0 by done. by apply (Hs j).
Qed.

Lemma all_gsafe_progress {A} (Q : nat -> A -> list L -> Prop) x s i B f (k : B -> Prog An W A) an :
  tot -> all_gsafe Q x s -> s.2 !! i = Some (Act B f k) -> Ok an -> is_Some (f an s.1).
Proof using Inv_proper.
  intros Ht (ls & Hi & Hlen & Hs) Hp Ha. destruct (lookup_lt_is_Some_2 ls i) as [l Hl];
    [rewrite Hlen; by eapply lookup_lt_Some|].
  destruct (concat_insert ls i l Hl) as (R & H1 & _). rewrite H1 in Hi.
  by apply (Hs i _ l Hp Hl x s.1 R an Ha Hi).
Qed.

Lemma psteps_gsafe {A} (Q : nat -> A -> list L -> Prop) x s s' :
  all_gsafe Q x s -> rtc (pstep_in Ok) s s' -> all_gsafe Q x s'.
Proof using Inv_proper. intros Hs Hr. induction Hr; [done|]. eauto using pstep_gsafe. Qed.

End Cond.

(** ** A thread on its own *)
Section Alone.
Context {An W : Type} (Ok : An -> Prop).

(** Whatever the answers, the program runs to its end and the result is in [Q]. *)
Fixpoint wp {A : Type} (p : Prog An W A) (w : W) (Q : A -> W -> Prop) : Prop :=
  match p with
  | Ret a => Q a w
  | Act B f k => forall an, Ok an -> exists b w', f an w = Some (b, w') /\ wp (k b) w' Q
  end.

Lemma wp_mono {A} (p : Prog An W A) w (Q Q' : A -> W -> Prop) :
  (forall a w, Q a w -> Q' a w) -> wp p w Q -> wp p w Q'.
Proof.
  intros HQ. revert w. induction p as [a|B f k IH]; intros w; cbn; [apply HQ|].
  intros H an Ha. destruct (H an Ha) as (b & w' & Hf & Hk). exists b, w'. auto.
Qed.

Lemma wp_bind {A B} (p : Prog An W A) (g : A -> Prog An W B) w Q :
  wp p w (fun a w' => wp (g a) w' Q) -> wp (bind p g) w Q.
Proof.
  revert w. induction p as [a|C f k IH]; intros w; cbn; [done|].
  intros H an Ha. destruct (H an Ha) as (b & w' & Hf & Hk). exists b, w'. auto.
Qed.

(** Every complete execution ends in [Q] ... *)
Lemma wp_run {A} (p : Prog An W A) ans w Q a w' :
  wp p w Q -> Forall Ok ans -> run_alone p ans w = Some (a, w') -> Q a w'.
Proof.
  revert ans w. induction p as [a0|B f k IH]; intros ans w Hp Hans.
  - destruct ans; by intros [= <- <-].
  - destruct ans as [|an ans]; [done|]. apply Forall_cons in Hans as [Ha Hans]. cbn.
    destruct (Hp an Ha) as (b & w1 & -> & Hk). by apply IH.
Qed.

(** ... and with any answer there is one. *)
Lemma wp_exists {A} (p : Prog An W A) w Q an :
  wp p w Q -> Ok an -> exists k a w', run_alone p (replicate k an) w = Some (a, w') /\ Q a w'.
Proof.
  intros Hp Ha. revert w Hp. induction p as [a0|B f k IH]; intros w Hp.
  - by exists O, a0, w.
  - destruct (Hp an Ha) as (b & w1 & Hf & Hk). destruct (IH b w1 Hk) as (m & a & w' & Hr & HQ).
    exists (S m), a, w'. cbn. by rewrite Hf.
Qed.

End Alone.

(** ** Termination

    Programs are finite, however they branch, so every interleaving ends. *)
Section Termination.
Context {An W A : Type}.

Lemma pstep_in_pstep Ok (s s' : W * list (Prog An W A)) : pstep_in Ok s s' -> pstep s s'.
Proof. intros [w ths i B f k an b w' Hp _ Hf]. by econstructor. Qed.

Lemma psteps_length Ok (s s' : W * list (Prog An W A)) : rtc (pstep_in Ok) s s' -> length s'.2 = length s.2.
Proof. induction 1 as [|x y z H1 H2 IH]; [done|]. rewrite IH. destruct H1. cbn. by rewrite length_insert. Qed.

(** A thread that runs on its own among others. *)
Lemma run_alone_steps (Ok : An -> Prop) ths i (p : Prog An W A) ans w a w' :
  run_alone p ans w = Some (a, w') -> Forall Ok ans -> ths !! i = Some p ->
  rtc (pstep_in Ok) (w, ths) (w', <[i := Ret a]> ths).
Proof.
  revert ans w ths. induction p as [a0|B f k IH]; intros ans w ths Hr Ha Hi.
  - destruct ans; injection Hr as <- <-; by rewrite list_insert_id.
  - destruct ans as [|an ans]; [done|]. apply Forall_cons in Ha as [Ha0 Ha]. cbn in Hr.
    destruct (f an w) as [[b w1]|] eqn:Hf; [|done].
    eapply rtc_l; [by econstructor|]. pose proof (lookup_lt_Some _ _ _ Hi).
    rewrite <- (list_insert_insert_eq ths i (Ret a) (k b)). apply (IH b ans w1); [done | done|].
    by apply list_lookup_insert_eq.
Qed.

Lemma run_schedule_steps (Ok : An -> Prop) sched (s s' : W * list (Prog An W A)) :
  Forall (fun x => Ok x.2) sched -> run_schedule sched s = Some s' -> rtc (pstep_in Ok) s s'.
Proof.
  intros Hok. revert s. induction Hok as [|[i an] sched Ha Hok IH]; intros [w ths]; cbn [run_schedule fst snd] in *.
  { by intros [= <-]. }
  destruct (ths !! i) as [[a|B f k]|] eqn:Hi; [apply IH | | apply IH].
  destruct (f an w) as [[b w']|] eqn:Hf; [|done]. intros Hr. eapply rtc_l; [by econstructor | by apply IH].
Qed.

(** One program of the list goes on. *)
Definition goes_on (p p' : Prog An W A) : Prop :=
  match p with Ret _ => False | Act B f k => exists b, p' = k b end.

Inductive sub : list (Prog An W A) -> list (Prog An W A) -> Prop :=
| sub_act ths i p p' : ths !! i = Some p -> goes_on p p' -> sub (<[i := p']> ths) ths.

Lemma sub_acc ths : Acc sub ths.
Proof.
  induction ths as [|p ths IHths].
  { constructor. intros ths' Hs. inversion Hs as [? i ? ? Hi]. by destruct i. }
  revert ths IHths. induction p as [a|B f k IHp]; intros ths Hacc;
    induction Hacc as [ths Hacc IHacc]; constructor; intros ths' Hs;
    inversion Hs as [? i p p' Hi Hp]; subst; destruct i as [|i]; cbn in Hi |- *.
  - by injection Hi as <-.
  - apply IHacc. by econstructor.
  - injection Hi as <-. destruct Hp as [b ->]. apply IHp. by constructor.
  - apply IHacc. by econstructor.
Qed.

Lemma pstep_terminates (s : W * list (Prog An W A)) : Acc (fun s' s => pstep s s') s.
Proof.
  destruct s as [w ths]. revert w. induction (sub_acc ths) as [ths _ IH]. intros w. constructor.
  intros s' Hs. destruct s' as [w' ths']. inversion Hs; subst. apply IH. econstructor; [done|]. by eexists.
Qed.

Lemma all_ended (ths : list (Prog An W A)) :
  (exists rs, ths = map Ret rs) \/ exists i B f (k : B -> Prog An W A), ths !! i = Some (Act B f k).
Proof.
  induction ths as [|[a|B f k] ths IH].
  - left. by exists [].
  - destruct IH as [(rs & ->)|(i & B & f & k & Hi)]; [left; by exists (a :: rs) | right; by exists (S i), B, f, k].
  - right. by exists O, B, f, k.
Qed.

(** Threads that never fail can be joined, whatever they have done so far. *)
Lemma psteps_end (Ok : An -> Prop) an (s : W * list (Prog An W A)) :
  Ok an ->
  (forall y, rtc (pstep_in Ok) s y ->
     forall i B f (k : B -> Prog An W A), y.2 !! i = Some (Act B f k) -> is_Some (f an y.1)) ->
  exists rs w', rtc (pstep_in Ok) s (w', map Ret rs).
Proof.
  intros Ha. induction (pstep_terminates s) as [[w ths] _ IH]. intros Hok.
  destruct (all_ended ths) as [(rs & ->)|(i & B & f & k & Hi)]; [by exists rs, w|].
  destruct (Hok (w, ths) ltac:(apply rtc_refl) i B f k Hi) as [[b w'] Hf].
  assert (Hs : pstep_in Ok (w, ths) (w', <[i := k b]> ths)) by (by econstructor).
  destruct (IH _ (pstep_in_pstep _ _ _ Hs)) as (rs & w2 & Hr).
  { intros y Hy. apply Hok. by eapply rtc_l. }
  exists rs, w2. by eapply rtc_l.
Qed.

End Termination.

(** ** Programs over a part of the state

    A safe program stays safe in a larger state, next to resources of the rest. *)
Section Embed.
Context {An An' W W' L M X : Type} (ans : An' -> An) (view : W' -> W) (upd : W' -> W -> W').
Context (Inv : X -> W -> list L -> Prop) (J : W' -> list M -> Prop) (Ok : An' -> Prop) (tot : Prop).
Context (view_upd : forall w v, view (upd w v) = v) (J_upd : forall w v R, J w R -> J (upd w v) R).

Definition lefts (R : list (L + M)) : list L := omap (fun r => match r with inl x => Some x | inr _ => None end) R.
Definition rights (R : list (L + M)) : list M := omap (fun r => match r with inl _ => None | inr y => Some y end) R.

Definition both (x : X) (w : W') (R : list (L + M)) : Prop := Inv x (view w) (lefts R) /\ J w (rights R).

Lemma lefts_app R R' : lefts (R ++ R') = lefts R ++ lefts R'.
Proof. apply omap_app. Qed.
Lemma rights_app R R' : rights (R ++ R') = rights R ++ rights R'.
Proof. apply omap_app. Qed.
Lemma lefts_inl l : lefts (map inl l) = l.
Proof. unfold lefts. induction l as [|x l IH]; [done|]. cbn. by f_equal. Qed.
Lemma rights_inl l : rights (map inl l) = [].
Proof. by induction l. Qed.
Lemma lefts_inr m : lefts (map inr m) = [].
Proof. by induction m. Qed.
Lemma rights_inr m : rights (map inr m) = m.
Proof. unfold rights. induction m as [|x l IH]; [done|]. cbn. by f_equal. Qed.

Lemma both_proper `{!forall x w, Proper (Permutation ==> iff) (Inv x w)} `{!forall w, Proper (Permutation ==> iff) (J w)} x w :
  Proper (Permutation ==> iff) (both x w).
Proof.
  intros R R' HR. unfold both.
  assert (H1 : lefts R ≡ₚ lefts R') by (unfold lefts; by rewrite HR).
  assert (H2 : rights R ≡ₚ rights R') by (unfold rights; by rewrite HR).
  by rewrite H1, H2.
Qed.

Lemma gsafe_embed {A} (p : Prog An W A) l m (Q : A -> list (L + M) -> Prop) :
  safe Inv p l (fun a l' => Q a (map inl l' ++ m)) -> gsafe Ok tot both (embed ans view upd p) (map inl l ++ m) Q.
Proof using view_upd J_upd.
  revert l. induction p as [a|B f k IH]; intros l; cbn [safe embed gsafe]; [done|].
  intros H x w R an _ [Hi Hj]. rewrite !lefts_app, lefts_inl, <- app_assoc in Hi.
  rewrite !rights_app, rights_inl in Hj.
  destruct (H x (view w) (lefts m ++ lefts R) (ans an) Hi) as (b & v & l' & Hf & Hi' & Hk). rewrite Hf.
  split; [done|]. intros ? ? [= <- <-]. exists (map inl l' ++ m). split; [|by apply IH].
  split; [|rewrite !rights_app, rights_inl; by apply J_upd].
  by rewrite view_upd, !lefts_app, lefts_inl, <- app_assoc.
Qed.

End Embed.

End ProgramFacts.
