(* ===== verification/PageStore.v ===== *)
(** The page queues as the workers see them.

    [Sat] keeps its work blocks either in one fine-lock queue ([SAT_FINELOCK]) or in two
    coarse-lock queues, one of valid and one of empty entries ([SAT_ONELOCK]), and
    [Sat::GetValid] and its relatives in [src/src/sat.cc] choose between them.  The class
    [PageStore] is what the workers rely on; both implementations are instances. *)

From S2P Require Import Prelude NumTheory PageQueue FineLock Program.

(** What an answer of the surroundings tells the queues. *)
Class StoreAnswers (An : Type) := {
  busy_of : An -> Z -> bool;      (** the random generators whose mutex is taken *)
  random_of : An -> N             (** what [random()] returns *)
}.

Module PageStore.
Import PageQueue FineLock Program.

Section Programs.
Context {An : Type} `{SA : StoreAnswers An}.

(** ** One lock per page *)

Fixpoint fine_search (fuel : nat) (g : Getter) : Prog An FineLockPEQueue (option page_entry) :=
  match fuel with
  | O => Act unit (fun _ _ => None) (fun _ => Ret None)
  | S fuel' =>
      Act (Getter + option page_entry)
        (fun _ q => match advance q g with Some (q', r) => Some (r, q') | None => None end)
        (fun r => match r with inl g' => fine_search fuel' g' | inr pe => Ret pe end)
  end.

(** [FineLockPEQueue::GetValid] and [GetEmpty]: at most four accesses for each of the [n]
    pages, and the test that ends the loop. *)
Definition fine_get (n : Z) (p : predicate) (want : Z) : Prog An FineLockPEQueue (option page_entry) :=
  Act (option Getter)
    (fun an q => if FineLock.q_size_ q =? 0 then Some (None, q)
                 else let '(g, q) := begin_get q p want (busy_of an) in Some (Some g, q))
    (fun r => match r with Some g => fine_search (4 * Z.to_nat n + 1) g | None => Ret None end).

Definition fine_put_valid (pe : page_entry) (q : FineLockPEQueue) : bool * FineLockPEQueue :=
  PutValid q (Some pe).
Definition fine_put_empty (pe : page_entry) (q : FineLockPEQueue) : bool * FineLockPEQueue :=
  PutEmpty q (Some pe).

(** ** One lock per queue *)

Record OneLock := mkOneLock { valid_ : PageEntryQueue; empty_ : PageEntryQueue }.

(** The tag is not used. *)
Definition one_get (p : predicate) (want : Z) : Prog An OneLock (option page_entry) :=
  act (fun an q =>
    match p with
    | is_valid => let '(_, pe, v) := PopRandom (valid_ q) false (Z.of_N (random_of an)) in
                  Some (pe, mkOneLock v (empty_ q))
    | is_empty => let '(_, pe, e) := PopRandom (empty_ q) false (Z.of_N (random_of an)) in
                  Some (pe, mkOneLock (valid_ q) e)
    end).

Definition one_put_valid (pe : page_entry) (q : OneLock) : bool * OneLock :=
  let '(r, v) := Push (valid_ q) (Some pe) in (negb (r =? 0), mkOneLock v (empty_ q)).
Definition one_put_empty (pe : page_entry) (q : OneLock) : bool * OneLock :=
  let '(r, e) := Push (empty_ q) (Some pe) in (negb (r =? 0), mkOneLock (valid_ q) e).

End Programs.

(** ** The interface *)

(** Where a search stands: nothing taken, an entry locked and not yet accepted, or an
    entry taken. *)
Inductive GetState := GNone | GProbed (v : bool) (pe : page_entry) | GHeld (v : bool) (pe : page_entry).

Definition in_hand (v : bool) (g : GetState) : list page_entry :=
  match g with
  | GNone => []
  | GProbed v' pe | GHeld v' pe => if Bool.eqb v v' then [pe] else []
  end.
Definition probed (g : GetState) : list (bool * page_entry) :=
  match g with GProbed v pe => [(v, pe)] | _ => [] end.
Definition taken (g : GetState) : list Z :=
  match g with GHeld _ pe => [offset pe] | _ => [] end.

(** A copy handed out differs from the entry in its [touch] count only. *)
Definition copy_of (pe0 pe : page_entry) : Prop := exists t, pe = set_touch pe0 t.

Definition wants_valid (p : predicate) : bool := match p with is_valid => true | is_empty => false end.

(** The test of an entry's tag. *)
Definition tag_matches (want : Z) (pe : page_entry) : bool :=
  (want =? kDontCareTag) || negb (Z.land (tag pe) want =? 0).

(** [rep n psize q V E H P]: of the [n] blocks of [psize] bytes the valid entries at rest
    are [V], the empty ones [E]; the blocks [H] are held by workers; the entries [P] are
    locked by searches that have not accepted them yet. *)
Class PageStore (An Q : Type) := {
  get_page : Z -> predicate -> Z -> Prog An Q (option page_entry);
  put_valid : page_entry -> Q -> bool * Q;
  put_empty : page_entry -> Q -> bool * Q;
  rep : Z -> Z -> Q -> list page_entry -> list page_entry -> list Z -> list (bool * page_entry) -> Prop;
  accepts : Z -> page_entry -> bool      (** whether a search with this tag takes the entry *)
}.

Section Laws.
Context {An Q : Type} `{PS : PageStore An Q} (n psize : Z).

(** A search, from state [g] on, whatever other threads do between its accesses: each
    access succeeds, entries only move between the store and the hand, and the search ends
    with nothing or with a copy of an entry of the wanted kind. *)
Fixpoint get_safe (want_valid : bool) (p : Prog An Q (option page_entry)) (g : GetState) : Prop :=
  match p with
  | Ret None => g = GNone
  | Ret (Some pe) => exists pe0, g = GHeld want_valid pe0 /\ copy_of pe0 pe
  | Act B f k => forall an q V E H P,
      rep n psize q V E (taken g ++ H) (probed g ++ P) ->
      exists b q' V' E' g', f an q = Some (b, q') /\
        rep n psize q' V' E' (taken g' ++ H) (probed g' ++ P) /\
        in_hand true g ++ V ≡ₚ in_hand true g' ++ V' /\
        in_hand false g ++ E ≡ₚ in_hand false g' ++ E' /\
        get_safe want_valid (k b) g'
  end.

(** No entry at rest of the wanted kind, among the blocks already seen, could be taken. *)
Definition unfit (v : bool) (want : Z) (V E : list page_entry) (seen : list Z) : Prop :=
  forall pe, pe ∈ (if v then V else E) -> offset pe ∈ seen -> accepts want pe = false.

(** A search that remembers the blocks it has seen.  As long as no entry among them becomes
    fit again between its accesses, it does not put back an entry of the wanted kind, and it
    ends without an entry only after it has seen every block. *)
Fixpoint get_complete (v : bool) (want : Z) (p : Prog An Q (option page_entry)) (g : GetState)
    (seen : list Z) : Prop :=
  match p with
  | Ret None => g = GNone /\ forall i, 0 <= i < n -> i * psize ∈ seen
  | Ret (Some pe) => exists pe0, g = GHeld v pe0 /\ copy_of pe0 pe
  | Act B f k => forall an q V E H P,
      rep n psize q V E (taken g ++ H) (probed g ++ P) -> unfit v want V E seen ->
      exists b q' V' E' g' seen', f an q = Some (b, q') /\
        rep n psize q' V' E' (taken g' ++ H) (probed g' ++ P) /\
        in_hand true g ++ V ≡ₚ in_hand true g' ++ V' /\
        in_hand false g ++ E ≡ₚ in_hand false g' ++ E' /\
        unfit v want V' E' seen' /\
        (forall pe, in_hand v g = [pe] -> in_hand v g' = [pe]) /\
        get_complete v want (k b) g' seen'
  end.

End Laws.

Class PageStoreLaws (An Q : Type) `{PS : PageStore An Q} (n psize : Z) : Prop := {
  rep_proper q :: Proper (Permutation ==> Permutation ==> Permutation ==> Permutation ==> iff)
                    (rep n psize q);
  rep_blocks q V E H P : rep n psize q V E H P ->
    map offset V ++ map offset E ++ H ++ map (fun p => offset p.2) P ≡ₚ
    map (fun i => i * psize) (zrange 0 (Z.to_nat n));
  rep_valid_unique q V E H P V' E' H' P' :
    rep n psize q V E H P -> rep n psize q V' E' H' P' -> V ≡ₚ V';
  get_page_safe p want : get_safe n psize (wants_valid p) (get_page n p want) GNone;
  put_valid_spec q V E H P pe :
    rep n psize q V E (offset pe :: H) P -> page_is_valid pe = true ->
    exists q', put_valid pe q = (true, q') /\ rep n psize q' (pe :: V) E H P;
  put_empty_spec q V E H P pe :
    rep n psize q V E (offset pe :: H) P ->
    exists q' pe', put_empty pe q = (true, q') /\ offset pe' = offset pe /\ tag pe' = tag pe /\
      rep n psize q' V (pe' :: E) H P
}.

Class PageStoreComplete (An Q : Type) `{PS : PageStore An Q} (n psize : Z) : Prop := {
  get_page_complete p want : get_complete n psize (wants_valid p) want (get_page n p want) GNone [];
  accepts_dont_care pe : accepts kDontCareTag pe = true;
  accepts_invalid pe : tag pe = kInvalidTag -> accepts kInvalidTag pe = true
}.

End PageStore.

Module PageStoreFacts.
Import PageQueue FineLock Program NumTheory PageQueueFacts FineLockFacts PageStore.

(** ** The state of a fine-lock queue as a page store *)

Section Fine.
Context (n psize : Z).

Definition page (q : FineLockPEQueue) (i : Z) : page_entry := aget null_pe (FineLock.pages_ q) i.

(** What page [i] contributes to the entries at rest, and to the blocks not at rest. *)
Definition at_rest (q : FineLockPEQueue) (v : bool) (i : Z) : list page_entry :=
  if negb (locked q i) && Bool.eqb (page_is_valid (page q i)) v then [page q i] else [].
Definition away (q : FineLockPEQueue) (i : Z) : list Z := if locked q i then [i * psize] else [].

Definition indices : list Z := zrange 0 (Z.to_nat n).

(** Page [i] is locked and holds the entry [vp.2], of the kind [vp.1]. *)
Definition probe_at (q : FineLockPEQueue) (vp : bool * page_entry) : Prop :=
  exists i, 0 <= i < n /\ locked q i = true /\ page q i = vp.2 /\
    page_is_valid vp.2 = vp.1 /\ offset vp.2 = i * psize.

Definition probe_offsets (P : list (bool * page_entry)) : list Z := map (fun p => offset p.2) P.

Record fine_rep (q : FineLockPEQueue) (V E : list page_entry) (H : list Z)
    (P : list (bool * page_entry)) : Prop := {
  fr_wf : wf_queue q;
  fr_params : FineLock.q_size_ q = n /\ page_size_ q = psize;
  fr_gen : generator n = Some (a_ q, c_ q, modlength_ q);
  fr_valid : V ≡ₚ flat_map (at_rest q true) indices;
  fr_empty : E ≡ₚ flat_map (at_rest q false) indices;
  fr_away : H ++ probe_offsets P ≡ₚ flat_map (away q) indices;
  fr_free : forall i, 0 <= i < n -> locked q i = false -> offset (page q i) = i * psize;
  fr_probed : Forall (probe_at q) P
}.

#[global] Instance fine_rep_proper q :
  Proper (Permutation ==> Permutation ==> Permutation ==> Permutation ==> iff) (fine_rep q).
Proof.
  enough (Himp : forall V V' E E' H H' P P', V ≡ₚ V' -> E ≡ₚ E' -> H ≡ₚ H' -> P ≡ₚ P' ->
    fine_rep q V E H P -> fine_rep q V' E' H' P').
  { intros V V' HV E E' HE H H' HH P P' HP. by split; apply Himp. }
  intros V V' E E' H H' P P' HV HE HH HP [H1 H2 Hg H3 H4 H5 H6 H7].
  split; [done | done | done | by rewrite <- HV | by rewrite <- HE | | done | by rewrite <- HP].
  unfold probe_offsets in *. by rewrite <- HH, <- HP.
Qed.

Lemma elem_of_indices i : i ∈ indices <-> 0 <= i < n.
Proof. unfold indices. rewrite elem_of_zrange. lia. Qed.

(** Two per-page lists that agree except at page [i]. *)
Lemma flat_map_update {A} (f g : Z -> list A) i :
  0 <= i < n -> (forall j, 0 <= j < n -> j <> i -> f j = g j) ->
  exists R, flat_map f indices ≡ₚ f i ++ R /\ flat_map g indices ≡ₚ g i ++ R.
Proof.
  intros Hi Hfg. apply elem_of_indices, elem_of_Permutation in Hi as [rest Hr].
  exists (flat_map f rest).
  assert (Hrest : forall j, j ∈ rest -> 0 <= j < n /\ j <> i).
  { intros j Hj. pose proof (NoDup_zrange 0 (Z.to_nat n)) as Hnd. fold indices in Hnd.
    rewrite Hr in Hnd. apply NoDup_cons in Hnd as [Hni _]. split; [|by intros ->].
    apply elem_of_indices. rewrite Hr. by apply elem_of_cons; right. }
  assert (Hsame : flat_map f rest = flat_map g rest).
  { clear Hr. induction rest as [|j rest IH]; [done|]. cbn [flat_map].
    destruct (Hrest j) as [H1 H2]; [constructor|]. rewrite (Hfg j H1 H2). f_equal.
    apply IH. intros k Hk. apply Hrest. by constructor. }
  split; [by rewrite Hr | by rewrite Hr, Hsame].
Qed.

Lemma NoDup_away q : 0 < psize -> NoDup (flat_map (away q) indices).
Proof.
  intros Hp. unfold indices. pose proof (NoDup_zrange 0 (Z.to_nat n)) as Hnd.
  induction Hnd as [|i l Hni Hnd IH]; cbn [flat_map]; [constructor|]. apply NoDup_app.
  unfold away at 1 2. destruct (locked q i); [|split; [apply NoDup_nil_2 | split; [|done]];
    intros x Hx; by apply not_elem_of_nil in Hx].
  split; [apply NoDup_singleton|]. split; [|done].
  intros x ->%list_elem_of_singleton. rewrite list_elem_of_In, in_flat_map.
  intros (j & Hj & Hx). apply list_elem_of_In in Hj, Hx. unfold away in Hx.
  destruct (locked q j); [|by apply not_elem_of_nil in Hx].
  apply list_elem_of_singleton in Hx. assert (i = j) as -> by nia. done.
Qed.

Lemma locked_len q V E H P :
  fine_rep q V E H P ->
  Z.of_nat (length (pagelocks_ q)) = n /\ Z.of_nat (length (FineLock.pages_ q)) = n.
Proof. intros [Hwf [<- _] _ _ _ _ _ _]. split; apply Hwf. Qed.

Lemma page_set_page q j i pe :
  0 <= i -> 0 <= j < Z.of_nat (length (FineLock.pages_ q)) ->
  page (set_page q j pe) i = if decide (i = j) then pe else page q i.
Proof.
  intros Hi Hj. unfold page. cbn [FineLock.pages_ set_page]. case_decide as Hd.
  - subst i. by rewrite aget_aset_eq.
  - by rewrite aget_aset_ne by lia.
Qed.

(** The seeds play no role. *)
Lemma fine_rep_seeds q V E H P seeds :
  length seeds = 4%nat -> fine_rep q V E H P -> fine_rep (set_seeds q seeds) V E H P.
Proof. intros Hs [[] H2 Hg H3 H4 H5 H6 H7]. by split; [split|..]. Qed.

(** ** Updates at one page *)

Record changes_at (q q' : FineLockPEQueue) (i : Z) : Prop := {
  ca_wf : wf_queue q';
  ca_params : FineLock.q_size_ q' = FineLock.q_size_ q /\ page_size_ q' = page_size_ q;
  ca_gen : (a_ q', c_ q', modlength_ q') = (a_ q, c_ q, modlength_ q);
  ca_same : forall j, 0 <= j < n -> j <> i -> locked q' j = locked q j /\ page q' j = page q j
}.

Lemma changes_lock q V E H P i v :
  fine_rep q V E H P -> 0 <= i < n -> changes_at q (set_lock q i v) i /\
    locked (set_lock q i v) i = v /\ page (set_lock q i v) i = page q i.
Proof.
  intros Hr Hi. destruct (locked_len _ _ _ _ _ Hr) as [Hlen _].
  split; [split|]; [apply wf_set_lock, Hr | done | done | |].
  - intros j Hj Hne. by rewrite locked_set_lock, decide_False by lia.
  - by rewrite locked_set_lock, decide_True by lia.
Qed.

Lemma changes_put q V E H P i pe :
  fine_rep q V E H P -> 0 <= i < n ->
  let q' := set_lock (set_page q i pe) i false in
  changes_at q q' i /\ locked q' i = false /\ page q' i = pe.
Proof.
  intros Hr Hi q'. destruct (locked_len _ _ _ _ _ Hr) as [Hlen Hlen'].
  assert (Hl : forall j, 0 <= j -> locked q' j = if decide (j = i) then false else locked q j)
    by (intros j Hj; by apply (locked_set_lock (set_page q i pe)); cbn; lia).
  assert (Hp : forall j, 0 <= j -> page q' j = if decide (j = i) then pe else page q j)
    by (intros j Hj; apply page_set_page; lia).
  split; [split|]; [apply wf_set_lock, wf_set_page, Hr | done | done | |].
  - intros j Hj Hne. by rewrite Hl, Hp, !decide_False by lia.
  - by rewrite Hl, Hp, !decide_True by lia.
Qed.

(** What an update at page [i] takes away and puts back. *)
Lemma fine_rep_change q q' V E H P i :
  fine_rep q V E H P -> changes_at q q' i -> 0 <= i < n ->
  exists RV RE RA,
    (V ≡ₚ at_rest q true i ++ RV /\ E ≡ₚ at_rest q false i ++ RE /\
     H ++ probe_offsets P ≡ₚ away q i ++ RA) /\
    forall V' E' H' P',
      V' ≡ₚ at_rest q' true i ++ RV -> E' ≡ₚ at_rest q' false i ++ RE ->
      H' ++ probe_offsets P' ≡ₚ away q' i ++ RA ->
      (locked q' i = false -> offset (page q' i) = i * psize) ->
      Forall (probe_at q') P' -> fine_rep q' V' E' H' P'.
Proof.
  intros [H1 [Hn Hps] Hgen H3 H4 H5 H6 H7] [Hwf [Hn' Hps'] Hgen' Hsame] Hi.
  destruct (flat_map_update (at_rest q true) (at_rest q' true) i Hi) as (RV & HV & HV').
  { intros j Hj Hne. unfold at_rest. by destruct (Hsame j Hj Hne) as [-> ->]. }
  destruct (flat_map_update (at_rest q false) (at_rest q' false) i Hi) as (RE & HE & HE').
  { intros j Hj Hne. unfold at_rest. by destruct (Hsame j Hj Hne) as [-> ->]. }
  destruct (flat_map_update (away q) (away q') i Hi) as (RA & HA & HA').
  { intros j Hj Hne. unfold away. by destruct (Hsame j Hj Hne) as [-> _]. }
  exists RV, RE, RA. split; [by rewrite H3, H4, H5|].
  intros V' E' H' P' HVe HEe HAe Hoff Hpr.
  split; [done | by rewrite Hn', Hps' | by rewrite Hgen' | by rewrite HVe | by rewrite HEe | by rewrite HAe | | done].
  intros j Hj Hlj. destruct (decide (j = i)) as [->|Hne]; [by apply Hoff|].
  destruct (Hsame j Hj Hne) as [Hl ->]. apply H6; [done|]. by rewrite <- Hl.
Qed.

Lemma probe_change q q' i p :
  changes_at q q' i -> probe_at q p -> offset p.2 <> i * psize -> probe_at q' p.
Proof.
  intros [_ _ _ Hsame] (j & Hj & Hl & Hp & Hv & Ho) Hne.
  assert (j <> i) as Hji by (intros ->; done). destruct (Hsame j Hj Hji) as [Hl' Hp'].
  exists j. by rewrite Hl', Hp'.
Qed.

(** Probes other than that of page [i] survive a change there. *)
Lemma probes_change q q' i P :
  changes_at q q' i -> Forall (probe_at q) P -> i * psize ∉ probe_offsets P ->
  Forall (probe_at q') P.
Proof.
  intros Hc HP Hni. apply Forall_forall. intros p Hp. rewrite Forall_forall in HP.
  apply (probe_change q q' i); [done | by apply HP |]. intros He. apply Hni. rewrite <- He.
  by apply (list_elem_of_fmap_2 (fun p => offset p.2)).
Qed.

(** Locking an entry at rest probes it. *)
Lemma fine_rep_lock q V E H P i :
  fine_rep q V E H P -> 0 <= i < n -> locked q i = false ->
  let v := page_is_valid (page q i) in
  exists V' E', fine_rep (set_lock q i true) V' E' H ((v, page q i) :: P) /\
    V ≡ₚ in_hand true (GProbed v (page q i)) ++ V' /\ E ≡ₚ in_hand false (GProbed v (page q i)) ++ E'.
Proof.
  intros Hr Hi Hl v. destruct (changes_lock q V E H P i true Hr Hi) as (Hc & Hl' & Hp').
  destruct (fine_rep_change _ _ _ _ _ _ _ Hr Hc Hi) as (RV & RE & RA & (HV & HE & HA) & Hnew).
  assert (Hoff : offset (page q i) = i * psize) by (by apply Hr).
  exists RV, RE. unfold at_rest in *. unfold away in *. rewrite Hl in *. rewrite Hl', Hp' in *. cbn [negb andb app] in *.
  fold v in HV, HE. split; [|split].
  - apply Hnew; [done..| | done |].
    + unfold probe_offsets in *. cbn [map snd]. by rewrite <- HA, Hoff, Permutation_middle.
    + constructor; [by exists i|]. pose proof (fr_probed _ _ _ _ _ Hr) as HP.
      apply (probes_change q _ i); [done | done |]. intros Hin.
      apply list_elem_of_fmap in Hin as (p & Hpo & Hp).
      eapply Forall_forall in HP as (j & Hj & Hlj & _ & _ & Hoj); [|exact Hp].
      destruct (fr_wf _ _ _ _ _ Hr) as [_ _ _ _ _ Hpos]. destruct (fr_params _ _ _ _ _ Hr) as [_ Hps].
      assert (j = i) as -> by nia. congruence.
  - rewrite HV. by destruct v.
  - rewrite HE. by destruct v.
Qed.

(** The rest when a locked page is released. *)
Lemma away_locked q V E H P i :
  fine_rep q V E H P -> 0 <= i < n -> i * psize ∈ H ++ probe_offsets P -> locked q i = true.
Proof.
  intros Hr Hi Hin. rewrite (fr_away _ _ _ _ _ Hr), list_elem_of_In, in_flat_map in Hin.
  destruct Hin as (j & Hj & Hx). apply list_elem_of_In in Hj, Hx. unfold away in Hx.
  destruct (locked q j) eqn:Hlj; [|by apply not_elem_of_nil in Hx].
  apply list_elem_of_singleton in Hx. destruct (fr_wf _ _ _ _ _ Hr) as [_ _ _ _ _ Hpos].
  destruct (fr_params _ _ _ _ _ Hr) as [_ Hps]. by assert (i = j) as -> by nia.
Qed.

(** Releasing block [i], the first of those away: the entry stored there is at rest. *)
Lemma fine_rep_release q q' V E H H' P P' i :
  fine_rep q V E H P -> changes_at q q' i -> 0 <= i < n ->
  H ++ probe_offsets P ≡ₚ i * psize :: H' ++ probe_offsets P' -> (forall p, p ∈ P' -> p ∈ P) ->
  locked q' i = false -> offset (page q' i) = i * psize ->
  let v := page_is_valid (page q' i) in
  fine_rep q' (in_hand true (GProbed v (page q' i)) ++ V) (in_hand false (GProbed v (page q' i)) ++ E)
    H' P'.
Proof.
  intros Hr Hc Hi Hsplit HP Hl' Hoff v.
  assert (Hl : locked q i = true).
  { apply (away_locked _ _ _ _ _ _ Hr Hi). rewrite Hsplit. apply elem_of_cons. by left. }
  assert (Hnd : NoDup (i * psize :: H' ++ probe_offsets P')).
  { rewrite <- Hsplit, (fr_away _ _ _ _ _ Hr). apply NoDup_away.
    destruct (fr_wf _ _ _ _ _ Hr) as [_ _ _ _ _ Hpos]. destruct (fr_params _ _ _ _ _ Hr). lia. }
  destruct (fine_rep_change _ _ _ _ _ _ _ Hr Hc Hi) as (RV & RE & RA & (HV & HE & HA) & Hnew).
  unfold at_rest, away in *. rewrite Hl in *. rewrite Hl' in *. cbn [negb andb app] in *.
  apply Hnew; [rewrite HV; subst v; by destruct (page_is_valid (page q' i))
    | rewrite HE; subst v; by destruct (page_is_valid (page q' i)) | | done |].
  - apply (Permutation_cons_inv (a := i * psize)). by rewrite <- HA, <- Hsplit.
  - apply (probes_change q _ i); [done | |].
    + apply Forall_forall. intros p Hp. pose proof (fr_probed _ _ _ _ _ Hr) as Hall.
      rewrite Forall_forall in Hall. by apply Hall, HP.
    + apply NoDup_cons in Hnd as [Hni _]. rewrite elem_of_app in Hni. tauto.
Qed.

(** An accepted entry is held. *)
Lemma fine_rep_hold q V E H P p :
  fine_rep q V E H (p :: P) -> fine_rep q V E (offset p.2 :: H) P.
Proof.
  intros [H1 H2 Hg H3 H4 H5 H6 [_ H7]%Forall_cons]. split; try done.
  rewrite <- H5. unfold probe_offsets. cbn [map]. by rewrite <- Permutation_middle.
Qed.

End Fine.

(** Every block is at rest, as valid or as empty, or away. *)
Lemma fine_rep_blocks n psize q V E H P :
  fine_rep n psize q V E H P ->
  map offset V ++ map offset E ++ H ++ probe_offsets P ≡ₚ
  map (fun i => i * psize) (zrange 0 (Z.to_nat n)).
Proof.
  intros [_ _ _ HV HE HA Hf _]. rewrite HA, HV, HE. fold (indices n).
  assert (Hall : forall i, i ∈ indices n -> locked q i = false -> offset (page q i) = i * psize)
    by (intros i Hi%elem_of_indices; by apply Hf).
  clear -Hall. induction (indices n) as [|i l IH]; [done|]. cbn [flat_map map].
  rewrite <- IH by (intros j Hj; apply Hall; by apply elem_of_cons; right).
  rewrite !map_app. unfold at_rest at 1 3, away at 1. destruct (locked q i) eqn:Hl; cbn [negb andb map app].
  - by rewrite !app_assoc, <- Permutation_middle.
  - pose proof (Hall i ltac:(by apply elem_of_cons; left) Hl) as Ho.
    destruct (page_is_valid (page q i)); cbn [Bool.eqb map app]; rewrite Ho; [done|].
    by rewrite <- Permutation_middle.
Qed.

(** ** The fine-lock queue is a page store *)

Section FineStore.
Context {An : Type} `{SA : StoreAnswers An}.

#[global] Instance fine_store : PageStore An FineLockPEQueue := {
  get_page := fine_get; put_valid := fine_put_valid; put_empty := fine_put_empty; rep := fine_rep;
  accepts := tag_matches
}.

Context (n psize : Z).

(** The inner loop of a search ends, whatever page number the walk stands at. *)
Lemma skip_total q x :
  wf_queue q -> 0 <= x < FineLock.q_size_ q \/ x = 1 ->
  exists y, skip_loop (S (Z.to_nat (modlength_ q))) q (next q x) = Some y /\ 0 <= y < FineLock.q_size_ q.
Proof.
  intros Hq Hx. pose proof Hq as [Hs [Hm Hone Ha Hc Hhd Hg] _ _ _ _].
  destruct (Z_le_dec 2 (modlength_ q)) as [Hbig|Hsmall].
  - destruct (orbit_reaches (a_ q) (c_ q) (modlength_ q) ltac:(lia) Hhd Hg 1 x) as (j & _ & Hj);
      [lia | lia |].
    rewrite <- Hj. rewrite (next_orb q Hq Hbig).
    destruct (skip_loop_spec q Hq Hbig (Z.to_nat (modlength_ q)) (S j) (S (Z.to_nat (modlength_ q))))
      as (d & _ & Hskip & Hin & _); [lia | apply (in_range_soon q Hq Hbig) |].
    eexists. split; [exact Hskip|]. split; [apply (orb_bound q Hbig) | exact Hin].
  - assert (modlength_ q = 1) as Hm1 by lia. unfold next. rewrite Hm1, Z.mod_1_r. exists 0.
    split; [|lia]. cbn [skip_loop]. by rewrite (proj2 (Z.leb_gt _ _)) by lia.
Qed.

(** A search between two accesses: how far it is, and what it has locked. *)
Definition walk_ok (p : predicate) (w : Walk) : Prop :=
  w_pred w = p /\ 0 <= w_i w <= n /\ (0 <= w_next_try w < n \/ w_next_try w = 1).

Definition getter_state (p : predicate) (g : Getter) (st : GetState) : Prop :=
  match g with
  | Search w => walk_ok p w /\ st = GNone
  | TagTest w index | TryLock w index => walk_ok p w /\ w_i w < n /\ 0 <= index < n /\ st = GNone
  | Recheck w index => walk_ok p w /\ w_i w < n /\ 0 <= index < n /\
      exists v pe, st = GProbed v pe /\ offset pe = index * psize
  end.

(** The accesses a search still needs at most. *)
Definition getter_fuel (g : Getter) : Z :=
  match g with
  | Search w => 4 * (n - w_i w) + 1
  | TagTest w _ => 4 * (n - w_i w)
  | TryLock w _ => 4 * (n - w_i w) - 1
  | Recheck w _ => 4 * (n - w_i w) - 2
  end.

Lemma pred_func_valid p pe : pred_func p pe = Bool.eqb (page_is_valid pe) (wants_valid p).
Proof. destruct p; cbn; unfold page_is_valid, page_is_empty; by repeat case_bool_decide. Qed.

Lemma fetched_copy q p index i : copy_of (page q index) (fetched q p index i).
Proof.
  unfold fetched, copy_of, page.
  destruct p; [destruct (queue_metric_ q); by eexists|].
  exists (touch (aget null_pe (FineLock.pages_ q) index)). by destruct (aget null_pe _ _).
Qed.

Lemma continue_state p w : walk_ok p w -> w_i w < n -> getter_state p (continue w) GNone.
Proof. intros (Hp & Hi & Hn) Hlt. repeat split; cbn; [done | lia | lia | done]. Qed.

(** One access of a search. *)
Lemma advance_state p g st q V E H P :
  fine_rep n psize q V E (taken st ++ H) (probed st ++ P) -> getter_state p g st ->
  exists q' r V' E' st', advance q g = Some (q', r) /\
    fine_rep n psize q' V' E' (taken st' ++ H) (probed st' ++ P) /\
    in_hand true st ++ V ≡ₚ in_hand true st' ++ V' /\
    in_hand false st ++ E ≡ₚ in_hand false st' ++ E' /\
    match r with
    | inl g' => getter_state p g' st' /\ getter_fuel g' + 1 <= getter_fuel g
    | inr None => st' = GNone
    | inr (Some pe) => exists pe0, st' = GHeld (wants_valid p) pe0 /\ copy_of pe0 pe
    end.
Proof.
  intros Hr Hg. pose proof (fr_params _ _ _ _ _ _ _ Hr) as [Hn Hps].
  pose proof (fr_wf _ _ _ _ _ _ _ Hr) as Hwf.
  destruct g as [w|w index|w index|w index]; cbn [getter_state] in Hg; cbn [advance].
  - destruct Hg as [(Hp & Hi & Hx) ->]. destruct (Z.ltb_spec (w_i w) (FineLock.q_size_ q)) as [Hlt|Hge].
    + destruct (skip_total q (w_next_try w) Hwf) as (y & -> & Hy); [lia|]. cbn [mbind option_bind].
      eexists q, _, V, E, GNone. split; [reflexivity|]. do 3 (split; [done|]). cbn [w_pred w_i].
      destruct (pred_func _ _); cbn [getter_state getter_fuel continue w_i w_pred];
        (split; [|lia]); unfold walk_ok; cbn [w_pred w_i w_next_try]; [|by split; [split|]; [|lia|]].
      split; [by split; [|lia]|]. split; [lia|]. split; [|done].
      rewrite <- Hn. apply Z.mod_pos_bound. lia.
    + by exists q, (inr None), V, E, GNone.
  - destruct Hg as (Hw & Hi & Hx & ->). eexists q, _, V, E, GNone. split; [reflexivity|].
    do 3 (split; [done|]). destruct (_ && _).
    + split; [by apply continue_state | cbn; lia].
    + split; [done | cbn; lia].
  - destruct Hg as (Hw & Hi & Hx & ->). fold (locked q index). destruct (locked q index) eqn:Hl.
    + eexists q, _, V, E, GNone. split; [reflexivity|]. do 3 (split; [done|]).
      split; [by apply continue_state | cbn; lia].
    + destruct (fine_rep_lock n psize q V E H P index Hr Hx Hl) as (V' & E' & Hr' & HV & HE).
      eexists _, _, V', E', (GProbed _ (page q index)). split; [reflexivity|].
      split; [exact Hr'|]. split; [exact HV|]. split; [exact HE|].
      split; [|cbn; lia]. split; [done|]. split; [done|]. split; [done|].
      eexists _, _. split; [done|]. by apply Hr.
  - destruct Hg as (Hw & Hi & Hx & v & pe & -> & Ho). cbn [taken probed app] in Hr.
    pose proof (fr_probed _ _ _ _ _ _ _ Hr) as [(j & Hj & Hl & Hpg & Hv & Hoj) _]%Forall_cons.
    cbn [fst snd] in *. destruct Hwf as [_ _ _ _ _ Hpos]. assert (j = index) as -> by nia.
    fold (page q index). rewrite Hpg, pred_func_valid, Hv, (proj1 Hw).
    destruct (Bool.eqb v (wants_valid p)) eqn:Hvp.
    + apply Bool.eqb_prop in Hvp as ->. exists q, (inr (Some (fetched q p index (w_i w)))), V, E, (GHeld (wants_valid p) pe).
      split; [done|]. split; [by apply (fine_rep_hold _ _ _ _ _ _ _ _ Hr)|].
      do 2 (split; [done|]). exists pe. split; [done|]. rewrite <- Hpg. apply fetched_copy.
    + destruct (changes_lock n psize q _ _ _ _ index false Hr Hj) as (Hc & Hl' & Hp').
      eexists (set_lock q index false), _, _, _, GNone. split; [reflexivity|].
      split; [apply (fine_rep_release n psize q _ V E H H ((v, pe) :: P) P index Hr Hc Hj)|].
      * unfold probe_offsets. cbn [map snd]. by rewrite Hoj, Permutation_middle.
      * intros x Hin. by apply elem_of_cons; right.
      * done.
      * by rewrite Hp', Hpg.
      * rewrite Hp', Hpg, Hv. split; [done|]. split; [done|].
        split; [by apply continue_state | cbn; lia].
Qed.

Lemma fine_search_safe fuel p g st :
  getter_state p g st -> getter_fuel g <= Z.of_nat fuel ->
  get_safe n psize (wants_valid p) (fine_search fuel g) st.
Proof.
  revert g st. induction fuel as [|fuel IH]; intros g st Hg Hf.
  { exfalso. destruct g as [w|w ?|w ?|w ?]; cbn in *; unfold walk_ok in *; lia. }
  cbn [fine_search get_safe]. intros an q V E H P Hr.
  destruct (advance_state p g st q V E H P Hr Hg) as (q' & r & V' & E' & st' & -> & Hr' & HV & HE & Hres).
  exists r, q', V', E', st'. do 4 (split; [done|]). destruct r as [g'|[pe|]]; [|done..].
  apply IH; [apply Hres | lia].
Qed.

Lemma fine_get_safe p want :
  1 <= n -> get_safe n psize (wants_valid p) (fine_get n p want) GNone.
Proof.
  intros Hn. unfold fine_get. cbn [get_safe]. intros an q V E H P Hr.
  pose proof (fr_params _ _ _ _ _ _ _ Hr) as [Hsz _]. rewrite (proj2 (Z.eqb_neq _ _)) by lia.
  unfold begin_get, GetRandom64, GetRandom64FromSlot. eexists _, _, V, E, GNone.
  split; [reflexivity|]. split.
  { apply fine_rep_seeds; [|exact Hr]. rewrite length_aset. apply (fr_wf _ _ _ _ _ _ _ Hr). }
  do 2 (split; [done|]). apply fine_search_safe.
  - split; [|done]. split; [done|]. cbn. lia.
  - cbn. lia.
Qed.

(** A held block has a slot of its own. *)
Lemma held_index q V E H P o :
  fine_rep n psize q V E (o :: H) P ->
  exists i, 0 <= i < n /\ o = i * psize /\ page_index q o = i /\ valid_index q i = true /\
    (FineLock.q_size_ q =? 0) = false.
Proof.
  intros Hr. assert (Hin : o ∈ flat_map (away psize q) (indices n)).
  { rewrite <- (fr_away _ _ _ _ _ _ _ Hr). cbn. apply elem_of_cons. by left. }
  apply list_elem_of_In, in_flat_map in Hin as (i & Hi & Hx). apply list_elem_of_In in Hi, Hx.
  apply elem_of_indices in Hi. unfold away in Hx. destruct (locked q i); [|by apply not_elem_of_nil in Hx].
  apply list_elem_of_singleton in Hx as ->. pose proof (fr_params _ _ _ _ _ _ _ Hr) as [Hn Hps].
  pose proof (fr_wf _ _ _ _ _ _ _ Hr) as Hwf. exists i. rewrite <- Hps.
  destruct (page_index_eq q i Hwf) as [-> ->]; [lia|]. split; [done|]. repeat split.
  apply Z.eqb_neq. destruct Hwf. lia.
Qed.

Lemma fine_put q V E H P i pe :
  fine_rep n psize q V E (i * psize :: H) P -> 0 <= i < n -> offset pe = i * psize ->
  let q' := set_lock (set_page q i pe) i false in
  fine_rep n psize q' (in_hand true (GProbed (page_is_valid pe) pe) ++ V)
    (in_hand false (GProbed (page_is_valid pe) pe) ++ E) H P.
Proof.
  intros Hr Hi Ho q'. destruct (changes_put n psize q _ _ _ _ i pe Hr Hi) as (Hc & Hl & Hp).
  pose proof (fine_rep_release n psize q _ V E _ H P P i Hr Hc Hi) as Hrel. rewrite Hp in Hrel.
  by apply Hrel.
Qed.

#[global] Instance fine_store_laws : 1 <= n -> PageStoreLaws An FineLockPEQueue n psize.
Proof.
  intros Hn. split.
  - intros q. apply fine_rep_proper.
  - intros q V E H P Hr. apply (fine_rep_blocks _ _ _ _ _ _ _ Hr).
  - intros q V E H P V' E' H' P' [_ _ _ HV _ _ _ _] [_ _ _ HV' _ _ _ _]. by rewrite HV, HV'.
  - intros p want. by apply fine_get_safe.
  - intros q V E H P pe Hr Hv. destruct (held_index q V E H P _ Hr) as (i & Hi & Ho & Hpi & Hvi & Hz).
    cbn [put_valid fine_store]. unfold fine_put_valid, PutValid.
    rewrite Hv, Hz, Hpi, Hvi. cbn [negb orb]. eexists. split; [done|]. rewrite Ho in Hr.
    pose proof (fine_put q V E H P i pe Hr Hi Ho) as Hput. by rewrite Hv in Hput.
  - intros q V E H P pe Hr. destruct (held_index q V E H P _ Hr) as (i & Hi & Ho & Hpi & Hvi & Hz).
    cbn [put_empty fine_store]. unfold fine_put_empty, PutEmpty.
    rewrite Hz, Hpi, Hvi. eexists _, (emptied pe). do 3 (split; [done|]). rewrite Ho in Hr.
    exact (fine_put q V E H P i (emptied pe) Hr Hi Ho).
Qed.

End FineStore.

(** ** The two coarse-lock queues are a page store *)

Record one_rep (n psize : Z) (q : OneLock) (V E : list page_entry) (H : list Z)
    (P : list (bool * page_entry)) : Prop := {
  or_valid : queue_inv (valid_ q) /\ PageQueue.q_size_ (valid_ q) = n + 1 /\ V ≡ₚ contents (valid_ q);
  or_empty : queue_inv (empty_ q) /\ PageQueue.q_size_ (empty_ q) = n + 1 /\ E ≡ₚ contents (empty_ q);
  or_blocks : map offset V ++ map offset E ++ H ≡ₚ map (fun i => i * psize) (zrange 0 (Z.to_nat n));
  or_probed : P = []
}.

Lemma one_rep_proper n psize q :
  Proper (Permutation ==> Permutation ==> Permutation ==> Permutation ==> iff) (one_rep n psize q).
Proof.
  enough (Himp : forall V V' E E' H H' P P', V ≡ₚ V' -> E ≡ₚ E' -> H ≡ₚ H' -> P ≡ₚ P' ->
    one_rep n psize q V E H P -> one_rep n psize q V' E' H' P').
  { intros V V' HV E E' HE H H' HH P P' HP. by split; apply Himp. }
  intros V V' E E' H H' P P' HV HE HH HP [H1 H2 H3 ->].
  split; [by rewrite <- HV | by rewrite <- HE | by rewrite <- HV, <- HE, <- HH |].
  by apply Permutation_nil_l in HP as <-.
Qed.

(** A queue with room for all blocks has room for one that is not in it. *)
Lemma queue_room q V n k :
  queue_inv q -> PageQueue.q_size_ q = n + 1 -> V ≡ₚ contents q -> (length V < k)%nat -> Z.of_nat k = n ->
  count q <> PageQueue.q_size_ q - 1.
Proof.
  intros Hq Hs HV Hl Hk He. apply Permutation_length in HV. rewrite length_contents in HV.
  pose proof (count_bound q Hq). lia.
Qed.

Lemma push_room q V n k pe :
  queue_inv q -> PageQueue.q_size_ q = n + 1 -> V ≡ₚ contents q -> (length V < k)%nat -> Z.of_nat k = n ->
  exists q', Push q (Some pe) = (1, q') /\ queue_inv q' /\ PageQueue.q_size_ q' = n + 1 /\
    pe :: V ≡ₚ contents q'.
Proof.
  intros Hq Hs HV Hl Hk. pose proof (Push_refines q pe Hq) as Hp.
  rewrite decide_False in Hp by eauto using queue_room. destruct Hp as (q' & -> & Hq' & Hs' & Hc).
  exists q'. split; [done|]. split; [done|]. split; [lia|]. by rewrite Hc, HV, Permutation_cons_append.
Qed.

(** [PopRandom] takes nothing from an empty queue and one entry from any other. *)
Lemma pop_cases q V n rand :
  queue_inv q -> PageQueue.q_size_ q = n + 1 -> V ≡ₚ contents q -> 0 <= rand ->
  (exists r, PopRandom q false rand = (r, None, q)) \/
  exists r pe q' V', PopRandom q false rand = (r, Some pe, q') /\ queue_inv q' /\
    PageQueue.q_size_ q' = n + 1 /\ V' ≡ₚ contents q' /\ V ≡ₚ pe :: V'.
Proof.
  intros Hq Hs HV Hr. destruct (decide (count q = 0)) as [Hc|Hc].
  - left. exists 0. unfold PopRandom. by rewrite (proj2 (Z.eqb_eq _ _)) by (by apply empty_iff).
  - right. pose proof (count_bound q Hq).
    destruct (PopRandom_refines q rand Hq Hr ltac:(lia)) as (pe & q' & -> & Hq' & Hs' & Hl & Hc').
    exists 1, pe, q', (contents q'). split; [done|]. split; [done|]. split; [lia|]. split; [done|].
    rewrite HV, Hc'. by apply taken_perm.
Qed.

Section OneStore.
Context {An : Type} `{SA : StoreAnswers An}.

#[global] Instance one_store : PageStore An OneLock := {
  get_page := fun _ => one_get; put_valid := one_put_valid; put_empty := one_put_empty; rep := one_rep;
  accepts := fun _ _ => true
}.

Context (n psize : Z).

Lemma touch_self pe : copy_of pe pe.
Proof. exists (touch pe). by destruct pe. Qed.

Lemma one_rep_lengths q V E o H P :
  one_rep n psize q V E (o :: H) P -> 0 <= n ->
  (length V < Z.to_nat n)%nat /\ (length E < Z.to_nat n)%nat.
Proof.
  intros [_ _ Hb _] Hn. apply Permutation_length in Hb.
  rewrite !length_app, !length_map, length_zrange in Hb. cbn in Hb. lia.
Qed.

#[global] Instance one_store_laws : 0 <= n -> PageStoreLaws An OneLock n psize.
Proof.
  intros Hn. split.
  - intros q. apply one_rep_proper.
  - intros q V E H P [_ _ Hb ->]. cbn [map]. by rewrite app_nil_r.
  - intros q V E H P V' E' H' P' [(_ & _ & HV) _ _ _] [(_ & _ & HV') _ _ _]. by rewrite HV, HV'.
  - intros p want an q V E H P [(Hv & Hvs & HV) (He & Hes & HE) Hb HP]. destruct p.
    + destruct (pop_cases (valid_ q) V n (Z.of_N (random_of an)) Hv Hvs HV ltac:(lia))
        as [(r & ->)|(r & pe & q' & V' & -> & Hv' & Hvs' & HV' & Hsp)].
      * exists None, (mkOneLock (valid_ q) (empty_ q)), V, E, GNone. done.
      * exists (Some pe), (mkOneLock q' (empty_ q)), V', E, (GHeld true pe). split; [done|].
        split; [split; [done | done | | done]; cbn [taken app] in *; rewrite <- Hb, Hsp; cbn [map app];
                by rewrite <- !Permutation_middle|].
        do 2 (split; [done|]). exists pe. by split; [|apply touch_self].
    + destruct (pop_cases (empty_ q) E n (Z.of_N (random_of an)) He Hes HE ltac:(lia))
        as [(r & ->)|(r & pe & q' & E' & -> & He' & Hes' & HE' & Hsp)].
      * exists None, (mkOneLock (valid_ q) (empty_ q)), V, E, GNone. done.
      * exists (Some pe), (mkOneLock (valid_ q) q'), V, E', (GHeld false pe). split; [done|].
        split; [split; [done | done | | done]; cbn [taken app] in *; rewrite <- Hb, Hsp; cbn [map app];
                by rewrite <- !Permutation_middle|].
        do 2 (split; [done|]). exists pe. by split; [|apply touch_self].
  - intros q V E H P pe Hr _. destruct (one_rep_lengths _ _ _ _ _ _ Hr Hn) as [Hl _].
    destruct Hr as [(Hv & Hvs & HV) HE Hb HP].
    destruct (push_room (valid_ q) V n _ pe Hv Hvs HV Hl ltac:(lia)) as (v' & Hpush & Hv' & Hvs' & HV').
    cbn [put_valid one_store]. unfold one_put_valid. rewrite Hpush.
    eexists. split; [done|]. split; [done | done | | done].
    rewrite <- Hb. cbn [map app]. by rewrite <- !Permutation_middle.
  - intros q V E H P pe Hr. destruct (one_rep_lengths _ _ _ _ _ _ Hr Hn) as [_ Hl].
    destruct Hr as [HV (He & Hes & HE) Hb HP].
    destruct (push_room (empty_ q) E n _ pe He Hes HE Hl ltac:(lia)) as (e' & Hpush & He' & Hes' & HE').
    cbn [put_empty one_store]. unfold one_put_empty. rewrite Hpush.
    eexists _, pe. do 3 (split; [done|]). split; [done | done | | done].
    rewrite <- Hb. cbn [map app]. by rewrite <- !Permutation_middle.
Qed.

End OneStore.

End PageStoreFacts.
