(* ===== verification/Search.v ===== *)
(** Searches of the page queues leave out no block.

    The fine-lock queue is searched without a lock on the whole: while one thread walks
    over the pages, others take and return them.  This file shows that a search ends
    without an entry only after it has met every page, whatever other threads do between
    its accesses, and so that both queues of [PageStore.v] are complete. *)

From S2P Require Import Prelude NumTheory PageQueue FineLock Program PageStore.

Module SearchFacts.
Import PageQueue FineLock Program NumTheory PageQueueFacts FineLockFacts PageStore PageStoreFacts.

(** ** The walk *)

#[local] Existing Instance in_range_dec.

(** The next [k] values of [next_try], from [x] on. *)
Fixpoint walk (q : FineLockPEQueue) (k : nat) (x : Z) : option (list Z) :=
  match k with
  | O => Some []
  | S k' => y ← skip_loop (S (Z.to_nat (modlength_ q))) q (next q x);
            l ← walk q k' y;
            Some (x :: l)
  end.

Lemma walk_search q (Hq : wf_queue q) (Hbig : 2 <= modlength_ q) k j K :
  in_range q j -> (k * S (Z.to_nat (modlength_ q)) < K)%nat ->
  walk q k (orbit (a_ q) (c_ q) (modlength_ q) 1 j) =
  Some (map (orbit (a_ q) (c_ q) (modlength_ q) 1) (take k (filter (in_range q) (seq j K)))).
Proof.
  revert j K. induction k as [|k IH]; intros j K Hj HK; cbn [walk].
  - by rewrite take_0.
  - destruct K as [|K]; [lia|]. cbn [seq]. rewrite filter_cons_True by done. cbn [firstn map].
    rewrite (next_orb q Hq Hbig).
    destruct (skip_loop_spec q Hq Hbig (Z.to_nat (modlength_ q)) (S j) (S (Z.to_nat (modlength_ q))))
      as (d & Hd & -> & Hr & Hn); [lia | apply (in_range_soon q Hq Hbig) |]. cbn [mbind option_bind].
    rewrite (filter_skip q (S j) d K Hn) by lia. rewrite (IH (S j + d)%nat (K - d)%nat) by (done || lia). done.
Qed.

(** One call tries every page number once. *)
Lemma walk_covers q :
  wf_queue q -> exists tries, walk q (Z.to_nat (q_size_ q)) 1 = Some tries /\
    map (fun x => x mod q_size_ q) tries ≡ₚ zrange 0 (Z.to_nat (q_size_ q)) /\
    Forall (fun x => 0 <= x <= q_size_ q) tries.
Proof.
  intros Hq. destruct (Z_le_dec 2 (modlength_ q)) as [Hbig|Hsmall].
  - pose proof (walk_values q Hq Hbig) as Hw. pose proof Hq as [Hs [Hm H1 _ _ _ _] _ _ _ _].
    assert (Hin : in_range q O) by (unfold in_range; change (orbit _ _ _ 1 0) with 1; lia).
    set (k := Z.to_nat (q_size_ q)) in *. set (K := (k * S (Z.to_nat (modlength_ q)) + 1)%nat).
    pose proof (walk_search q Hq Hbig k 0 (Z.to_nat (modlength_ q) + K) Hin ltac:(lia)) as Hk.
    change (orbit _ _ _ 1 0) with 1 in Hk.
    rewrite seq_app, filter_app, take_app_length' in Hk.
    2: { apply Permutation_length in Hw. rewrite length_map, length_zrange in Hw. done. }
    assert (Hb : forall j, In j (filter (in_range q) (seq 0 (Z.to_nat (modlength_ q)))) ->
      0 <= orbit (a_ q) (c_ q) (modlength_ q) 1 j < q_size_ q).
    { intros j Hj. apply list_elem_of_In, list_elem_of_filter in Hj as [Hj _]. unfold in_range in Hj.
      pose proof (orb_bound q Hbig j). lia. }
    eexists. split; [exact Hk|]. split.
    + rewrite <- Hw, map_map. erewrite map_ext_in; [reflexivity|]. intros j Hj. by apply Z.mod_small, Hb.
    + apply List.Forall_forall. intros x Hx. apply in_map_iff in Hx as (j & <- & Hj). specialize (Hb j Hj). lia.
  - destruct Hq as [Hs [Hm _ _ _ _ _] _ _ _ _]. assert (Hm1 : modlength_ q = 1) by lia.
    assert (Hq1 : q_size_ q = 1) by lia. exists [1]. rewrite Hq1. change (Z.to_nat 1) with 1%nat.
    split; [|split; [done | constructor; [lia | constructor]]]. cbn [walk]. unfold next. rewrite Hm1, Z.mod_1_r. change (Z.to_nat 1) with 1%nat. cbn [skip_loop].
    rewrite Hq1. done.
Qed.

Lemma walk_first q k x l : walk q k x = Some l -> match l with x' :: _ => x' = x | [] => True end.
Proof.
  destruct k as [|k]; cbn [walk]; [by intros [= <-]|]. destruct (skip_loop _ _ _) as [y|]; [|done].
  cbn [mbind option_bind]. destruct (walk q k y); [|done]. by intros [= <-].
Qed.

(** A step of the walk. *)
Lemma walk_step q k x0 tried x rest :
  walk q k x0 = Some (tried ++ x :: rest) ->
  exists y, skip_loop (S (Z.to_nat (modlength_ q))) q (next q x) = Some y /\
    match rest with x' :: _ => y = x' | [] => True end.
Proof.
  revert k x0. induction tried as [|d tried IH]; intros [|k] x0; cbn [walk app]; try done;
    destruct (skip_loop _ q (next q x0)) as [y|] eqn:Hs; try done; cbn [mbind option_bind];
    destruct (walk q k y) as [l|] eqn:Hw; try done; intros [= -> ->].
  - exists y. split; [done|]. apply walk_first in Hw. by destruct rest.
  - by apply (IH k y).
Qed.

Lemma walk_length q k x l : walk q k x = Some l -> length l = k.
Proof.
  revert x l. induction k as [|k IH]; intros x l; cbn [walk]; [by intros [= <-]|].
  destruct (skip_loop _ _ _) as [y|]; [|done]. cbn. destruct (walk q k y) as [l'|] eqn:Hw; [|done].
  intros [= <-]. cbn. by rewrite (IH _ _ Hw).
Qed.

(** The walk depends on the size and the generator only. *)
Lemma walk_same q q' k x :
  q_size_ q' = q_size_ q -> (a_ q', c_ q', modlength_ q') = (a_ q, c_ q, modlength_ q) -> walk q' k x = walk q k x.
Proof.
  intros Hs [= Ha Hc Hm].
  assert (Hn : forall x, next q' x = next q x) by (intros y; unfold next; by rewrite Ha, Hc, Hm).
  assert (Hl : forall f x, skip_loop f q' x = skip_loop f q x).
  { induction f as [|f IH]; intros y; cbn [skip_loop]; [done|]. by rewrite Hs, Hn, IH. }
  revert x. induction k as [|k IH]; intros x; cbn [walk]; [done|]. rewrite Hm, Hn, Hl.
  destruct (skip_loop _ _ _); [|done]. cbn. by rewrite IH.
Qed.

(** ** A search of the fine-lock queue, access by access *)

Section Fine.
Context {An : Type} `{SA : StoreAnswers An} (n psize : Z).

(** An entry at rest is the one stored for its block. *)
Lemma at_rest_entry q (V E : list page_entry) H P (v : bool) (pe : page_entry) i :
  fine_rep n psize q V E H P -> pe ∈ (if v then V else E) -> 0 <= i < n -> offset pe = i * psize ->
  locked q i = false /\ page q i = pe /\ page_is_valid pe = v.
Proof.
  intros Hr Hpe Hi Ho. assert (Hin : pe ∈ flat_map (at_rest q v) (indices n)).
  { destruct v; [by rewrite <- (fr_valid _ _ _ _ _ _ _ Hr) | by rewrite <- (fr_empty _ _ _ _ _ _ _ Hr)]. }
  apply list_elem_of_In, in_flat_map in Hin as (j & Hj & Hx). apply list_elem_of_In in Hj, Hx.
  apply elem_of_indices in Hj. unfold at_rest in Hx. destruct (locked q j) eqn:Hl; [by apply not_elem_of_nil in Hx|].
  cbn [negb andb] in Hx. destruct (Bool.eqb _ _) eqn:He; [|by apply not_elem_of_nil in Hx].
  apply list_elem_of_singleton in Hx as ->. apply Bool.eqb_prop in He.
  destruct (fr_wf _ _ _ _ _ _ _ Hr) as [_ _ _ _ _ Hpos]. destruct (fr_params _ _ _ _ _ _ _ Hr) as [_ Hps].
  rewrite (fr_free _ _ _ _ _ _ _ Hr j Hj Hl) in Ho. by assert (j = i) as -> by nia.
Qed.

(** [tries]: the values of [next_try] of one call. *)
Context (tries : list Z).
Record is_walk : Prop := {
  iw_tries q V E H P : fine_rep n psize q V E H P -> walk q (Z.to_nat n) 1 = Some tries;
  iw_cover : map (fun x => x mod n) tries ≡ₚ zrange 0 (Z.to_nat n);
  iw_bound : Forall (fun x => 0 <= x <= n) tries
}.
Context (WALK : is_walk).

Lemma tries_length : length tries = Z.to_nat n.
Proof using WALK.
  pose proof (Permutation_length (iw_cover WALK)) as H. by rewrite length_map, length_zrange in H.
Qed.

Definition index_of (first x : Z) : Z := (x + first) mod n.
Definition offsets_of (first : Z) (tried : list Z) : list Z := map (fun x => index_of first x * psize) tried.

(** The walk has tried [tried] and goes on with [rest]. *)
Record position (p : predicate) (want : Z) (w : Walk) (tried rest : list Z) : Prop := {
  po_pred : w_pred w = p /\ w_tag w = want;
  po_first : 0 <= w_first_try w < n;
  po_tries : tries = tried ++ rest;
  po_i : w_i w = Z.of_nat (length tried)
}.

(** The search before its next access: what it has locked and which blocks it has seen. *)
Definition searching (p : predicate) (want : Z) (g : Getter) (st : GetState) (seen : list Z) : Prop :=
  match g with
  | Search w => exists tried rest, position p want w tried rest /\ st = GNone /\
      seen = offsets_of (w_first_try w) tried /\
      match rest with x :: _ => w_next_try w = x | [] => True end
  | TagTest w index | TryLock w index | Recheck w index =>
      exists tried x rest, position p want w tried (x :: rest) /\
      match rest with y :: _ => w_next_try w = y | [] => True end /\
      index = index_of (w_first_try w) x /\ seen = offsets_of (w_first_try w) tried /\
      match g with
      | Recheck _ _ => exists v pe, st = GProbed v pe /\ offset pe = index * psize
      | _ => st = GNone
      end
  end.

Lemma searching_continue p want w tried x rest :
  position p want w tried (x :: rest) -> match rest with y :: _ => w_next_try w = y | [] => True end ->
  searching p want (continue w) GNone (offsets_of (w_first_try w) tried ++ [index_of (w_first_try w) x * psize]).
Proof.
  intros [Hp Hf Ht Hi] Hn. exists (tried ++ [x]), rest. split; [split|]; [done | done | by rewrite <- app_assoc | |].
  - cbn. rewrite length_app. cbn. lia.
  - split; [done|]. split; [|done]. unfold offsets_of. by rewrite map_app.
Qed.

Lemma unfit_add (v : bool) want V E seen o :
  unfit (PS := fine_store) v want V E seen ->
  (forall pe, pe ∈ (if v then V else E) -> offset pe = o -> tag_matches want pe = false) ->
  unfit (PS := fine_store) v want V E (seen ++ [o]).
Proof.
  intros Hu Ho pe Hpe Hin. apply elem_of_app in Hin as [Hin|Hin]; [by apply Hu|].
  apply list_elem_of_singleton in Hin. by apply Ho.
Qed.

Lemma position_bounds p want w tried x rest :
  position p want w tried (x :: rest) ->
  w_i w < n /\ 0 <= index_of (w_first_try w) x < n /\ 0 <= x <= n.
Proof using WALK.
  intros [_ Hf Ht Hi]. pose proof tries_length as Hl. pose proof (iw_bound WALK) as Hb. rewrite Ht in Hl, Hb.
  rewrite length_app in Hl. cbn [length] in Hl. apply Forall_app in Hb as [_ [Hx _]%Forall_cons].
  split; [lia|]. split; [apply Z.mod_pos_bound; lia | done].
Qed.

(** The first access of a turn reads the page at the next place of the walk. *)
Lemma search_index q V E H P p want w tried x rest :
  fine_rep n psize q V E H P -> position p want w tried (x :: rest) -> w_next_try w = x ->
  u64 (w_next_try w + w_first_try w) mod FineLock.q_size_ q = index_of (w_first_try w) x /\
  exists y, skip_loop (S (Z.to_nat (modlength_ q))) q (next q (w_next_try w)) = Some y /\
    match rest with x' :: _ => y = x' | [] => True end.
Proof using WALK.
  intros Hr Hpos ->. destruct (position_bounds _ _ _ _ _ _ Hpos) as (_ & _ & Hx). destruct Hpos as [_ Hf Ht Hi].
  pose proof (fr_params _ _ _ _ _ _ _ Hr) as [Hn _].
  pose proof (fr_wf _ _ _ _ _ _ _ Hr) as [Hsz _ _ _ _ _]. split.
  - rewrite u64_id by lia. by rewrite Hn.
  - pose proof (iw_tries WALK _ _ _ _ _ Hr) as Hwk. rewrite Ht in Hwk. by apply walk_step in Hwk.
Qed.

Lemma all_seen first :
  0 <= first -> forall i, 0 <= i < n -> i * psize ∈ offsets_of first tries.
Proof using WALK.
  intros Hf i Hi. assert (Hin : (i - first) mod n ∈ map (fun x => x mod n) tries).
  { rewrite (iw_cover WALK), elem_of_zrange. pose proof (Z.mod_pos_bound (i - first) n). lia. }
  apply list_elem_of_fmap in Hin as (x & He & Hx). apply list_elem_of_fmap. exists x. split; [|done].
  f_equal. unfold index_of. rewrite <- (Zplus_mod_idemp_l x), <- He, Zplus_mod_idemp_l.
  replace (i - first + first) with i by lia. symmetry. by apply Z.mod_small.
Qed.

(** What an access leaves: the new state of queue and search, and what is known of it. *)
Definition next_state (p : predicate) (want : Z) (g : Getter) (st : GetState) (V E : list page_entry)
    (H : list Z) (P : list (bool * page_entry)) (q' : FineLockPEQueue) (r : Getter + option page_entry) : Prop :=
  exists V' E' st' seen',
    fine_rep n psize q' V' E' (taken st' ++ H) (probed st' ++ P) /\
    in_hand true st ++ V ≡ₚ in_hand true st' ++ V' /\ in_hand false st ++ E ≡ₚ in_hand false st' ++ E' /\
    unfit (PS := fine_store) (wants_valid p) want V' E' seen' /\
    (forall pe, in_hand (wants_valid p) st = [pe] -> in_hand (wants_valid p) st' = [pe]) /\
    match r with
    | inl g' => searching p want g' st' seen' /\ getter_fuel n g' + 1 <= getter_fuel n g
    | inr None => st' = GNone /\ forall i, 0 <= i < n -> i * psize ∈ seen'
    | inr (Some pe) => exists pe0, st' = GHeld (wants_valid p) pe0 /\ copy_of pe0 pe
    end.

(** The search goes on behind the page it has looked at, which nobody can take now. *)
Lemma passed q V E H P p want w tried x rest g :
  fine_rep n psize q V E H P -> position p want w tried (x :: rest) ->
  match rest with y :: _ => w_next_try w = y | [] => True end ->
  unfit (PS := fine_store) (wants_valid p) want V E (offsets_of (w_first_try w) tried) ->
  (locked q (index_of (w_first_try w) x) = false ->
   page_is_valid (page q (index_of (w_first_try w) x)) = wants_valid p ->
   tag_matches want (page q (index_of (w_first_try w) x)) = false) ->
  getter_fuel n g >= 4 * (n - w_i w) - 2 ->
  next_state p want g GNone V E H P q (inl (continue w)).
Proof using WALK.
  intros Hr Hpos Hn Hu Hbad Hf. destruct (position_bounds _ _ _ _ _ _ Hpos) as (Hi & Hx & _).
  exists V, E, GNone, (offsets_of (w_first_try w) tried ++ [index_of (w_first_try w) x * psize]).
  do 3 (split; [done|]). split; [|split; [done|]].
  - apply unfit_add; [done|]. intros pe Hpe Ho.
    destruct (at_rest_entry _ _ _ _ _ _ _ _ Hr Hpe Hx Ho) as (Hl & <- & Hv). by apply Hbad.
  - split; [exact (searching_continue _ _ _ _ _ _ Hpos Hn) | cbn in *; lia].
Qed.

Lemma recheck_complete p want w index st seen q V E H P :
  fine_rep n psize q V E (taken st ++ H) (probed st ++ P) -> searching p want (Recheck w index) st seen ->
  unfit (PS := fine_store) (wants_valid p) want V E seen ->
  exists q' r, advance q (Recheck w index) = Some (q', r) /\ next_state p want (Recheck w index) st V E H P q' r.
Proof using WALK.
  intros Hr (tried & x & rest & Hpos & Hn & -> & -> & v & pe & -> & Ho) Hu.
  destruct (position_bounds _ _ _ _ _ _ Hpos) as (Hi & Hx & _). pose proof (po_pred _ _ _ _ _ Hpos) as [Hp _].
  set (index := index_of (w_first_try w) x) in *. cbn [advance]. cbn [taken probed app] in Hr.
  pose proof (fr_probed _ _ _ _ _ _ _ Hr) as [(j & Hj & Hl & Hpg & Hv & Hoj) _]%Forall_cons. cbn [fst snd] in *.
  destruct (fr_wf _ _ _ _ _ _ _ Hr) as [_ _ _ _ _ Hps]. destruct (fr_params _ _ _ _ _ _ _ Hr) as [_ Hpz].
  assert (j = index) as -> by nia. fold (page q index). rewrite Hpg, pred_func_valid, Hv, Hp.
  destruct (Bool.eqb v (wants_valid p)) eqn:Hvp.
  - apply Bool.eqb_prop in Hvp as ->. eexists _, _. split; [done|].
    exists V, E, (GHeld (wants_valid p) pe), (offsets_of (w_first_try w) tried).
    split; [by apply (fine_rep_hold _ _ _ _ _ _ _ _ Hr)|]. do 2 (split; [done|]). split; [done|]. split; [done|].
    exists pe. split; [done|]. rewrite <- Hpg. apply fetched_copy.
  - destruct (changes_lock n psize q _ _ _ _ index false Hr Hj) as (Hc & Hl' & Hp').
    eexists _, _. split; [reflexivity|].
    eexists _, _, GNone, (offsets_of (w_first_try w) tried ++ [index * psize]).
    assert (Hr' := fine_rep_release n psize q _ V E H H ((v, pe) :: P) P index Hr Hc Hj).
    rewrite Hp', Hpg, Hv in Hr'. split; [apply Hr'; try done|].
    + unfold probe_offsets. cbn [map snd]. by rewrite Hoj, Permutation_middle.
    + intros y Hin. by apply elem_of_cons; right.
    + do 2 (split; [done|]). split; [|split; [|split; [exact (searching_continue _ _ _ _ _ _ Hpos Hn) | cbn in *; lia]]].
      * apply unfit_add.
        -- intros pe' Hpe'. apply Hu. by destruct v, (wants_valid p).
        -- intros pe' Hpe' Ho'. exfalso. assert (Hpe2 : pe' ∈ (if wants_valid p then V else E))
             by (by destruct v, (wants_valid p)).
           by destruct (at_rest_entry _ _ _ _ _ _ _ _ Hr Hpe2 Hj Ho') as (? & _); congruence.
      * intros pe'. cbn [in_hand]. destruct v, (wants_valid p); done.
Qed.

(** One access of a search. *)
Lemma advance_complete p want g st seen q V E H P :
  fine_rep n psize q V E (taken st ++ H) (probed st ++ P) -> searching p want g st seen ->
  unfit (PS := fine_store) (wants_valid p) want V E seen ->
  exists q' r, advance q g = Some (q', r) /\ next_state p want g st V E H P q' r.
Proof using WALK.
  intros Hr Hg Hu. pose proof (fr_params _ _ _ _ _ _ _ Hr) as [Hsz _].
  destruct g as [w|w index|w index|w index].
  - destruct Hg as (tried & rest & Hpos & -> & -> & Hn). cbn [advance]. destruct rest as [|x rest].
    + destruct Hpos as [_ Hf Ht Hi]. rewrite app_nil_r in Ht. subst tried. rewrite tries_length in Hi.
      rewrite (proj2 (Z.ltb_ge _ _)) by lia. eexists _, _. split; [done|].
      exists V, E, GNone, (offsets_of (w_first_try w) tries). do 5 (split; [done|]). split; [done|].
      apply all_seen. lia.
    + destruct (position_bounds _ _ _ _ _ _ Hpos) as (Hi & Hx & _). rewrite (proj2 (Z.ltb_lt _ _)) by lia.
      destruct (search_index _ _ _ _ _ _ _ _ _ _ _ Hr Hpos Hn) as (-> & y & -> & Hy). cbn [mbind option_bind].
      eexists _, _. split; [reflexivity|]. cbn [w_pred w_tag w_first_try w_i].
      set (w' := mkWalk _ _ _ y _). assert (Hpos' : position p want w' tried (x :: rest)) by (by destruct Hpos).
      fold (page q (index_of (w_first_try w) x)). rewrite pred_func_valid, (proj1 (po_pred _ _ _ _ _ Hpos)).
      destruct (Bool.eqb _ _) eqn:Hk.
      * exists V, E, GNone, (offsets_of (w_first_try w) tried). do 5 (split; [done|]).
        split; [|cbn; lia]. by exists tried, x, rest.
      * apply (passed q V E H P p want w' tried x rest); try done; [|cbn; lia].
        intros _ Hv. cbn [w' w_first_try] in Hv. by rewrite Hv, Bool.eqb_reflx in Hk.
  - destruct Hg as (tried & x & rest & Hpos & Hn & -> & -> & ->). cbn [advance]. eexists _, _. split; [reflexivity|].
    rewrite (proj2 (po_pred _ _ _ _ _ Hpos)). fold (page q (index_of (w_first_try w) x)).
    destruct (negb (want =? kDontCareTag) && _) eqn:Ht.
    + apply (passed q V E H P p want w tried x rest); try done; [|cbn; lia]. intros _ _. unfold tag_matches.
      by destruct (want =? kDontCareTag), (Z.land (tag (page q (index_of (w_first_try w) x))) want =? 0).
    + exists V, E, GNone, (offsets_of (w_first_try w) tried). do 5 (split; [done|]).
      split; [|cbn; lia]. by exists tried, x, rest.
  - destruct Hg as (tried & x & rest & Hpos & Hn & -> & -> & ->). cbn [advance].
    destruct (position_bounds _ _ _ _ _ _ Hpos) as (Hi & Hx & _).
    fold (locked q (index_of (w_first_try w) x)). destruct (locked q _) eqn:Hl; (eexists _, _; split; [reflexivity|]).
    + apply (passed q V E H P p want w tried x rest); try done; [by rewrite Hl | cbn; lia].
    + destruct (fine_rep_lock n psize q V E H P _ Hr Hx Hl) as (V' & E' & Hr' & HV & HE).
      eexists V', E', (GProbed _ (page q _)), (offsets_of (w_first_try w) tried). split; [exact Hr'|].
      split; [exact HV|]. split; [exact HE|]. split; [|split; [done|]].
      * intros pe Hpe. apply Hu. destruct (wants_valid p); [rewrite HV | rewrite HE]; apply elem_of_app; by right.
      * split; [|cbn; lia]. exists tried, x, rest. do 4 (split; [done|]). eexists _, _. split; [done|]. by apply Hr.
  - exact (recheck_complete p want w index st seen q V E H P Hr Hg Hu).
Qed.

Lemma fine_search_complete fuel p want g st seen :
  searching p want g st seen -> getter_fuel n g <= Z.of_nat fuel ->
  get_complete (PS := fine_store) n psize (wants_valid p) want (fine_search fuel g) st seen.
Proof using WALK.
  revert g st seen. induction fuel as [|fuel IH]; intros g st seen Hg Hf.
  { exfalso. pose proof tries_length as Hl.
    destruct g as [w|w i|w i|w i]; cbn in Hg, Hf.
    - destruct Hg as (tried & rest & [_ Hr Ht Hi] & _). rewrite Ht, length_app in Hl. lia.
    - destruct Hg as (tried & x & rest & Hpos & _). pose proof (position_bounds _ _ _ _ _ _ Hpos). lia.
    - destruct Hg as (tried & x & rest & Hpos & _). pose proof (position_bounds _ _ _ _ _ _ Hpos). lia.
    - destruct Hg as (tried & x & rest & Hpos & _). pose proof (position_bounds _ _ _ _ _ _ Hpos). lia. }
  cbn [fine_search get_complete]. intros an q V E H P Hr Hu.
  destruct (advance_complete p want g st seen q V E H P Hr Hg Hu)
    as (q' & r & -> & V' & E' & st' & seen' & Hr' & HV & HE & Hu' & Hk & Hres).
  exists r, q', V', E', st', seen'. do 6 (split; [done|]). destruct r as [g'|[pe|]]; [|done..].
  apply IH; [apply Hres | lia].
Qed.

End Fine.

(** The generator, and with it the walk, is fixed by the number of pages. *)
Lemma walk_exists n psize q V E H P : fine_rep n psize q V E H P -> exists tries, is_walk n psize tries.
Proof.
  intros Hr. destruct (walk_covers q (fr_wf _ _ _ _ _ _ _ Hr)) as (tries & Hw & Hc & Hb).
  pose proof (fr_params _ _ _ _ _ _ _ Hr) as [Hn _]. rewrite Hn in *. exists tries. split; [|done|done].
  intros q' V' E' H' P' Hr'. pose proof (fr_params _ _ _ _ _ _ _ Hr') as [Hn' _].
  pose proof (fr_gen _ _ _ _ _ _ _ Hr) as Hg. pose proof (fr_gen _ _ _ _ _ _ _ Hr') as Hg'.
  rewrite Hg in Hg'. injection Hg' as Ha Hc' Hm. rewrite <- Hw. apply walk_same; [lia | by rewrite Ha, Hc', Hm].
Qed.

#[global] Instance fine_complete {An} `{SA : StoreAnswers An} n psize :
  1 <= n -> PageStoreComplete An FineLockPEQueue n psize.
Proof.
  intros Hn. split; [|done|intros pe Hpe; cbn; unfold tag_matches; by rewrite Hpe].
  intros p want. cbn [get_page fine_store]. unfold fine_get. cbn [get_complete].
  intros an q V E H P Hr _. destruct (walk_exists _ _ _ _ _ _ _ Hr) as (tries & Hw).
  pose proof (fr_params _ _ _ _ _ _ _ Hr) as [Hsz _]. rewrite (proj2 (Z.eqb_neq _ _)) by lia.
  unfold begin_get, GetRandom64, GetRandom64FromSlot. eexists _, _, V, E, GNone, [].
  split; [reflexivity|]. split.
  { apply fine_rep_seeds; [|exact Hr]. rewrite length_aset. apply (fr_wf _ _ _ _ _ _ _ Hr). }
  do 2 (split; [done|]). split; [by intros pe _ ?%not_elem_of_nil|]. split; [done|].
  apply (fine_search_complete n psize tries Hw); [|cbn; lia].
  exists [], tries. split; [split; [done | | done | done]|].
  - cbn [w_first_try]. cbn [FineLock.q_size_ set_seeds]. rewrite Hsz. apply Z.mod_pos_bound. lia.
  - split; [done|]. split; [done|]. pose proof (walk_first _ _ _ _ (iw_tries _ _ _ Hw _ _ _ _ _ Hr)).
    cbn. by destruct tries.
Qed.

(** [PopRandom] takes an entry whenever there is one. *)
Lemma pop_complete q V n rand :
  queue_inv q -> PageQueue.q_size_ q = n + 1 -> V ≡ₚ contents q -> 0 <= rand ->
  (V = [] /\ exists r, PopRandom q false rand = (r, None, q)) \/
  exists r pe q' V', PopRandom q false rand = (r, Some pe, q') /\ queue_inv q' /\
    PageQueue.q_size_ q' = n + 1 /\ V' ≡ₚ contents q' /\ V ≡ₚ pe :: V'.
Proof.
  intros Hq Hs HV Hr. destruct (pop_cases q V n rand Hq Hs HV Hr) as [(r & He)|?]; [left|by right].
  split; [|by exists r]. destruct (decide (count q = 0)) as [Hc|Hc].
  - apply Permutation_length in HV. rewrite length_contents in HV. rewrite Hc in HV. by destruct V.
  - pose proof (count_bound q Hq).
    destruct (PopRandom_refines q rand Hq Hr ltac:(lia)) as (pe & q' & He' & _). congruence.
Qed.

#[global] Instance one_complete {An} `{SA : StoreAnswers An} n psize :
  0 <= n -> PageStoreComplete An OneLock n psize.
Proof.
  intros Hn. split; [|done|done]. intros p want an q V E H P [(Hv & Hvs & HV) (He & Hes & HE) Hb HP] _.
  assert (Hall : forall L : list Z, L = map (fun i => i * psize) (zrange 0 (Z.to_nat n)) ->
    forall i, 0 <= i < n -> i * psize ∈ L).
  { intros L -> i Hi. apply list_elem_of_fmap. exists i. split; [done|]. apply elem_of_zrange. lia. }
  destruct p; cbn [get_page one_store].
  - destruct (pop_complete (valid_ q) V n (Z.of_N (random_of an)) Hv Hvs HV ltac:(lia))
      as [(-> & r & ->)|(r & pe & q' & V' & -> & Hv' & Hvs' & HV' & Hsp)].
    + eexists None, (mkOneLock (valid_ q) (empty_ q)), [], E, GNone, _. do 4 (split; [done|]).
      split; [by intros pe ?%not_elem_of_nil|]. split; [done|]. split; [done|]. by apply Hall.
    + exists (Some pe), (mkOneLock q' (empty_ q)), V', E, (GHeld true pe), []. split; [done|].
      split; [split; [done | done | | done]; cbn [taken app] in *; rewrite <- Hb, Hsp; cbn [map app];
              by rewrite <- !Permutation_middle|].
      do 2 (split; [done|]). split; [by intros ? _ ?%not_elem_of_nil|]. split; [done|].
      exists pe. by split; [|apply touch_self].
  - destruct (pop_complete (empty_ q) E n (Z.of_N (random_of an)) He Hes HE ltac:(lia))
      as [(-> & r & ->)|(r & pe & q' & E' & -> & He' & Hes' & HE' & Hsp)].
    + eexists None, (mkOneLock (valid_ q) (empty_ q)), V, [], GNone, _. do 4 (split; [done|]).
      split; [by intros pe ?%not_elem_of_nil|]. split; [done|]. split; [done|]. by apply Hall.
    + exists (Some pe), (mkOneLock (valid_ q) q'), V, E', (GHeld false pe), []. split; [done|].
      split; [split; [done | done | | done]; cbn [taken app] in *; rewrite <- Hb, Hsp; cbn [map app];
              by rewrite <- !Permutation_middle|].
      do 2 (split; [done|]). split; [by intros ? _ ?%not_elem_of_nil|]. split; [done|].
      exists pe. by split; [|apply touch_self].
Qed.

End SearchFacts.
