(* ===== verification/Threads.v ===== *)
(** The worker threads that move work blocks: [FillThread], [CheckThread], [CopyThread],
    [InvertThread] and [PostFillCheckThread] of [src/src/worker.cc], with the queue
    operations of [src/src/sat.cc] they call.

    A thread body is a program of [Program.v] over the state the threads share.  One access
    is a call on a queue, a read or write of a shared setting, or one operation on the
    contents of the work blocks the thread holds: no other thread reads or writes those
    blocks meanwhile, and the counters such an operation shares with other threads only
    grow.  What the code reads from its surroundings is the answer that accompanies the
    access.  Log lines and yields are left out. *)

From Stdlib Require Import Ascii String.
From S2P Require Import Prelude Adler Patterns Invert PageQueue FineLock OsLayer ErrorDiag.
From S2P Require Import Diagnostics Worker Program PageStore.

Module Threads.
Import PageQueue FineLock Program PageStore Worker.
Local Open Scope prog_scope.

Inductive FillPreset := FILL_PRESET_NONE | FILL_PRESET_ZERO | FILL_PRESET_ONE.

(** What [Sat] keeps fixed while the threads run. *)
Record Settings := mkSettings {
  cfg : Config; pages : Z; warm : bool; strict : bool; error_injection : bool;
  diag_block_history : bool; diag_phase_summary : bool; fill_verify_every : Z;
  fill_preset : FillPreset; copy_verify_destination : bool; skip_final_check : bool;
  final_check_threads_explicit : bool; invert_range : Invert.InvertRange;
  has_vector : option Arch
}.

Definition legacy_final_check_mode (s : Settings) : bool :=
  negb (skip_final_check s) && negb (final_check_threads_explicit s).

(** The surroundings, as one access sees them: [IsReadyToRun], [random], [sched_getcpu],
    clocks, the frequency request and its epoch, the vector registers, and the readings
    made while the words of a block are handled. *)
Record Answer := mkAnswer {
  ready : bool; busy : Z -> bool; random : N; cpu : Z; timestamp : Z; frequency : Z;
  elapsed_us : Z; epoch : Z; map_at : Z; readings : Readings; registers : Adler.vec * Adler.vec;
  word_frequency : FrequencyRead -> Z -> Z; word_elapsed_us : Z -> Z; word_epoch : Z -> Z
}.

#[export] Instance answer_store : StoreAnswers Answer := { busy_of := busy; random_of := random }.

(** The members of [WorkerThread] that change. *)
Record WorkerState := mkWorkerState {
  w_errorcount : Z; w_stats : Diagnostics.PhaseStats; pages_copied_ : Z; bytes_processed_ : Z;
  status_ : bool
}.

Definition new_worker (stats : Diagnostics.PhaseStats) : WorkerState := mkWorkerState 0 stats 0 0 false.

Section Shared.
Context {Q : Type} `{PS : PageStore Answer Q}.

Record Shared := mkShared {
  store : Q; memory : list Z; error_stop_requested_ : bool; log_budget : Diagnostics.ErrorLog;
  diagnoser : ErrorDiag.ErrorDiag; all_printed : list (ErrorRecord * Message);
  all_reports : list (ErrorRecord * Z * Message); patternlist_ : Patterns.PatternList;
  block_history : option (list Diagnostics.BlockHistory); workers : list WorkerState
}.

Definition set_store (w : Shared) (q : Q) : Shared :=
  mkShared q (memory w) (error_stop_requested_ w) (log_budget w) (diagnoser w) (all_printed w)
    (all_reports w) (patternlist_ w) (block_history w) (workers w).
Definition set_memory (w : Shared) (m : list Z) : Shared :=
  mkShared (store w) m (error_stop_requested_ w) (log_budget w) (diagnoser w) (all_printed w)
    (all_reports w) (patternlist_ w) (block_history w) (workers w).
Definition set_patternlist (w : Shared) (pl : Patterns.PatternList) : Shared :=
  mkShared (store w) (memory w) (error_stop_requested_ w) (log_budget w) (diagnoser w) (all_printed w)
    (all_reports w) pl (block_history w) (workers w).
Definition set_history (w : Shared) (h : option (list Diagnostics.BlockHistory)) : Shared :=
  mkShared (store w) (memory w) (error_stop_requested_ w) (log_budget w) (diagnoser w) (all_printed w)
    (all_reports w) (patternlist_ w) h (workers w).
Definition set_workers (w : Shared) (ws : list WorkerState) : Shared :=
  mkShared (store w) (memory w) (error_stop_requested_ w) (log_budget w) (diagnoser w) (all_printed w)
    (all_reports w) (patternlist_ w) (block_history w) ws.

Definition worker (w : Shared) (t : nat) : WorkerState := nth t (workers w) (new_worker None).

(** The state as worker [t] sees it, and back. *)
Definition thread_view (w : Shared) (t : nat) : Thread :=
  mkThread (memory w) (w_errorcount (worker w t)) (error_stop_requested_ w) (all_reports w)
    (mkObserved (w_stats (worker w t)) (log_budget w) (diagnoser w) (all_printed w)).

Definition thread_update (w : Shared) (t : nat) (st : Thread) : Shared :=
  let wk := worker w t in
  let o := observed st in
  mkShared (store w) (mem st) (error_stop st) (error_log o) (error_diagnoser_ o) (printed o)
    (reports st) (patternlist_ w) (block_history w)
    (<[t := mkWorkerState (errorcount_ st) (diagnostic_phase_stats_ o) (pages_copied_ wk)
              (bytes_processed_ wk) (status_ wk)]> (workers w)).

Abbreviation P := (Prog Answer Shared).

Section Sat.
Context (s : Settings).

Definition page_length_ : Z := page_length (cfg s).

(** The configuration with the readings of one access. *)
Definition cfg_at (an : Answer) : Config :=
  let c := cfg s in
  let wd := world c in
  mkConfig (page_length c) (fill_direction c) (fill_yield_bytes c) (stop_on_error c) (tag_mode_ c)
    (mem_base c) (verbosity c) (error_log_limit c)
    (mkWorld (word_frequency an) (word_elapsed_us an) (word_epoch an) (os_ wd) (pagesize wd) (pagemap wd)) (file_thread c).

(** ** Queue operations of [Sat] *)

Definition set_addr (pe : page_entry) (a : Z) : page_entry :=
  mk_page_entry (offset pe) a (PageQueue.paddr pe) (pattern pe) (tag pe) (touch pe) (ts pe)
    (PageQueue.lastcpu pe) (write_dram_frequency pe) (lastpattern pe).
Definition set_access (pe : page_entry) (stamp : Z) : page_entry :=
  mk_page_entry (offset pe) (addr pe) (PageQueue.paddr pe) (pattern pe) (tag pe) (touch pe) stamp
    (PageQueue.lastcpu pe) (write_dram_frequency pe) (pattern pe).
Definition set_write_frequency (pe : page_entry) (f : Z) : page_entry :=
  mk_page_entry (offset pe) (addr pe) (PageQueue.paddr pe) (pattern pe) (tag pe) (touch pe) (ts pe)
    (PageQueue.lastcpu pe) f (lastpattern pe).

(** [pe->addr = os_->PrepareTestMem(pe->offset, page_length_)]; an assertion may fail. *)
Definition map_page (pe : page_entry) : P page_entry :=
  act (fun an w =>
    match OsLayer.PrepareTestMem (os_ (world (cfg s))) (pagesize (world (cfg s))) (map_at an)
            (offset pe) page_length_ with
    | Some (a, _) => Some (set_addr pe a, w)
    | None => None
    end).

(** The entry, or [None] for [return false]. *)
Definition Sat_GetValid (want : Z) : P (option page_entry) :=
  r <- zoom store set_store (get_page (pages s) is_valid want) ;;
  match r with
  | None => Ret None
  | Some pe =>
      pe <- map_page pe ;;
      stamp <- ask timestamp ;;
      let pe := set_access pe stamp in
      Ret (if addr pe =? 0 then None else Some pe)
  end.

Definition Sat_GetEmpty (want : Z) : P (option page_entry) :=
  r <- zoom store set_store (get_page (pages s) is_empty want) ;;
  match r with
  | None => Ret None
  | Some pe =>
      pe <- map_page pe ;;
      Ret (if addr pe =? 0 then None else Some pe)
  end.

(** The mapping is released, which leaves the block's contents as they are. *)
Definition Sat_PutValid (pe : page_entry) : P bool :=
  act (fun _ w => let '(r, q) := put_valid (set_addr pe 0) (store w) in Some (r, set_store w q)).

Definition Sat_PutEmpty (pe : page_entry) : P bool :=
  act (fun _ w =>
    let '(r, q) := put_empty (set_write_frequency (set_addr pe 0) (-1)) (store w) in
    Some (r, set_store w q)).

(** ** Helpers of the loops *)

Definition IsReadyToRun : P bool := ask ready.
Definition IsReadyToRunNoPause : P bool := ask ready.
Definition error_stop_requested : P bool := get error_stop_requested_.

(** An operation of worker [t] on memory. *)
Definition on_thread {A} (t : nat) (f : Answer -> Shared -> Thread -> option (A * Thread)) : P A :=
  act (fun an w => match f an w (thread_view w t) with
                   | Some (a, st) => Some (a, thread_update w t st)
                   | None => None
                   end).

(** The object a [Pattern *] points to. *)
Definition pattern_object (w : Shared) (p : option Z) : option Patterns.Pattern :=
  match p with Some i => Patterns.patterns_ (patternlist_ w) !! Z.to_nat i | None => None end.

(** A source block and the names its caller passes; [None]: the pattern is null. *)
Definition source_of (w : Shared) (pe : page_entry) (worker_name phase : string) : option Source :=
  match pattern_object w (pattern pe) with
  | Some p => Some (mkSource p (default 0 (pattern pe)) (PageQueue.lastcpu pe)
                      (write_dram_frequency pe) (offset pe) worker_name phase)
  | None => None
  end.

Definition check_page (t : nat) (pe : page_entry) (worker_name phase : string) : P Z :=
  on_thread t (fun an w st =>
    match source_of w pe worker_name phase with
    | None => None
    | Some src =>
        match CrcCheckPage (cfg_at an) st (patternlist_ w) src (page_base (cfg s) pe) with
        | Some (st, errors) => Some (errors, st)
        | None => None
        end
    end).

(** [if (sat_->diag_phase_summary()) RecordDiagnosticOperation(...)]. *)
Definition record_operation (t : nat) (phase : Diagnostics.DiagnosticPhase) (rd wr errors : Z) : P unit :=
  if diag_phase_summary s then
    modify (fun an w =>
      let wk := worker w t in
      set_workers w (<[t := mkWorkerState (w_errorcount wk)
        (Diagnostics.RecordDiagnosticOperation (w_stats wk) phase rd wr errors (elapsed_us an) (epoch an))
        (pages_copied_ wk) (bytes_processed_ wk) (status_ wk)]> (workers w)))
  else Ret tt.

(** [record_history ? sat_->dram_frequency_epoch() : 0]. *)
Definition epoch_begin : P Z := if diag_block_history s then ask epoch else Ret 0.

(** [if (record_history) sat_->RecordBlockWrite(...)]. *)
Definition record_write (pe : page_entry) (wr : Diagnostics.BlockWriter) (t : nat) (ep : Z) : P unit :=
  if diag_block_history s then
    modify (fun an w =>
      set_history w (Diagnostics.RecordBlockWrite (diag_block_history s) page_length_ (pages s)
        (block_history w) (offset pe) wr (Z.of_nat t) (cpu an) ep (epoch an) (elapsed_us an)))
  else Ret tt.

(** The end of [Work]. *)
Definition finish (t : nat) (result : bool) (copied bytes : Z) : P unit :=
  modify (fun _ w =>
    let wk := worker w t in
    set_workers w (<[t := mkWorkerState (w_errorcount wk) (w_stats wk) copied bytes result]> (workers w))).

(** ** [FillThread] *)

Definition set_pattern (pe : page_entry) (p : option Z) : page_entry :=
  mk_page_entry (offset pe) (addr pe) (PageQueue.paddr pe) p (tag pe) (touch pe) (ts pe)
    (PageQueue.lastcpu pe) (write_dram_frequency pe) (lastpattern pe).

(** [FillPage] on memory. *)
Definition fill_page (pe : page_entry) : P (bool * page_entry) :=
  act (fun an w =>
    match pattern_object w (pattern pe) with
    | None => None
    | Some p =>
        let '(r, pe', m) := FillPage (cfg s) p (Some pe) (cpu an) (frequency an) (memory w) in
        Some ((r, default pe pe'), set_memory w m)
    end).

Definition fill_constant (pe : page_entry) (value : Z) : P bool :=
  act (fun an w => let '(r, m) := FillPageWithConstant (cfg s) (Some pe) value (memory w) in
                   Some (r, set_memory w m)).

(** The result and the entry as the call leaves it. *)
Definition FillPageRandom (preset_only : bool) (pe : page_entry) : P (bool * page_entry) :=
  if preset_only then
    p0 <- get (fun w => Patterns.GetPattern (patternlist_ w) 0) ;;
    let pe := set_pattern pe p0 in
    match fill_preset s with
    | FILL_PRESET_ZERO => r <- fill_constant pe 0 ;; Ret (r, pe)
    | FILL_PRESET_ONE => r <- fill_constant pe 0xffffffffffffffff ;; Ret (r, pe)
    | FILL_PRESET_NONE => Ret (false, pe)
    end
  else
    size <- get (fun w => Patterns.size_ (patternlist_ w)) ;;
    if size =? 0 then Ret (false, pe)
    else
      p <- act (fun an w => let '(p, pl) := Patterns.GetRandomPattern (patternlist_ w) (Z.of_N (random an)) in
                            Some (p, set_patternlist w pl)) ;;
      let pe := set_pattern pe p in
      match p with
      | None => Ret (false, pe)
      | Some _ => fill_page pe
      end.

(** One turn of the loop: the count of filled blocks, or the result and that count. *)
Definition fill_turn (t : nat) (preset_only : bool) (num_pages_to_fill loops : Z) : P (Z + bool * Z) :=
  running <- IsReadyToRun ;;
  if negb (running && (loops <? num_pages_to_fill)) then Ret (inr (true, loops))
  else
    got <- Sat_GetEmpty kDontCareTag ;;
    match got with
    | None => Ret (inr (false, loops))
    | Some pe =>
        ep <- epoch_begin ;;
        filled <- FillPageRandom preset_only pe ;;
        let '(result, pe) := filled in
        if negb result then Ret (inr (false, loops))
        else
          (record_write pe (if preset_only then Diagnostics.BLOCK_WRITER_PRESET
                            else Diagnostics.BLOCK_WRITER_INITIAL_FILL) t ep ;;
           record_operation t (if preset_only then Diagnostics.DIAG_PHASE_PRESET_FILL
                               else Diagnostics.DIAG_PHASE_INITIAL_FILL) 0 page_length_ 0 ;;
           stop <- error_stop_requested ;;
           (if negb preset_only && negb stop &&
               Diagnostics.ShouldVerifyFilledPage (fill_verify_every s) page_length_ (offset pe)
            then verify_errors <- check_page t pe "fill" "immediate_check" ;;
                 record_operation t Diagnostics.DIAG_PHASE_FILL_IMMEDIATE_CHECK page_length_ 0 verify_errors
            else Ret tt) ;;
           put <- Sat_PutValid pe ;;
           Ret (if put then inl (loops + 1) else inr (false, loops)))
    end.

(** [FillThread::Work]; at most [fuel] turns are taken. *)
Definition FillThread_Work (fuel : nat) (t : nat) (preset_only : bool) (num_pages_to_fill : Z) : P (option bool) :=
  r <- loop fuel (fill_turn t preset_only num_pages_to_fill) 0 ;;
  match r with
  | Some (result, loops) => finish t result loops 0 ;; Ret (Some result)
  | None => Ret None
  end.

(** ** [CheckThread] *)

(** The loop state is [draining] and [loops]. *)
Definition check_turn (t : nat) (check_phase : string) (st : bool * Z) : P (bool * Z + bool * Z) :=
  let '(draining, loops) := st in
  let final_check := String.eqb check_phase "final_check" in
  let legacy_final_check := negb final_check && legacy_final_check_mode s in
  stop <- error_stop_requested ;;
  if stop then Ret (inr (true, loops))
  else
    runtime_running <- (if negb final_check && negb legacy_final_check then IsReadyToRunNoPause else Ret true) ;;
    if negb runtime_running then Ret (inr (true, loops))
    else
      let operation_phase := if draining then "final_check"%string else check_phase in
      got <- Sat_GetValid kDontCareTag ;;
      match got with
      | None =>
          unexpected_empty <- (if final_check then Ret false
                               else if legacy_final_check then IsReadyToRunNoPause else Ret runtime_running) ;;
          Ret (inr (negb unexpected_empty, loops))
      | Some pe =>
          check_errors <- check_page t pe "check" operation_phase ;;
          record_operation t (if draining then Diagnostics.DIAG_PHASE_FINAL_CHECK
                              else Diagnostics.DIAG_PHASE_RUNTIME_CHECK) page_length_ 0 check_errors ;;
          stopped_after_check <- (if final_check then Ret false
                                  else running <- IsReadyToRunNoPause ;; Ret (negb running)) ;;
          to_empty <- (if final_check then Ret true
                       else if legacy_final_check && stopped_after_check
                       then stop <- error_stop_requested ;; Ret (negb stop)
                       else Ret false) ;;
          if (to_empty : bool) then
            put <- Sat_PutEmpty pe ;;
            Ret (if put then inl (if legacy_final_check then true else draining, loops + 1)
                 else inr (false, loops))
          else
            put <- Sat_PutValid pe ;;
            Ret (if put then inl (draining, loops + 1) else inr (false, loops))
      end.

Definition CheckThread_Work (fuel : nat) (t : nat) (check_phase : string) : P (option bool) :=
  r <- loop fuel (check_turn t check_phase) (String.eqb check_phase "final_check", 0) ;;
  match r with
  | Some (result, loops) => finish t result loops 0 ;; Ret (Some result)
  | None => Ret None
  end.

(** ** [CopyThread] *)

(** [addr[offset] = value], a byte of a little-endian word. *)
Definition set_byte (m : list Z) (base off value : Z) : list Z :=
  let w := base + off / 8 in
  let sh := 8 * (off mod 8) in
  let old := aget 0 m w in
  aset m w (Z.lor (Z.ldiff old (Z.shiftl 0xff sh)) (Z.shiftl value sh)).

(** [memblock[i] = v] for a [memblock] of 32-bit values. *)
Definition store32 (buf : list Z) (i v : Z) : list Z :=
  let old := aget 0 buf (i / 2) in
  aset buf (i / 2) (if i mod 2 =? 0 then l64 v (l32_h old) else l64 (l32_l old) v).

(** The first [n] words of [src] over the words of [dst] from [at_] on. *)
Definition copy_words (src : list Z) (n : nat) (at_ : Z) (dst : list Z) : list Z :=
  store_words (fun i => aget 0 src i) at_ (zrange 0 n) dst.

(** The words of a range. *)
Definition range_words (d : list Z) (at_ : Z) (n : nat) : list Z := map (fun i => aget 0 d (at_ + i)) (zrange 0 n).

(** [sat_->error_injection()]. *)
Definition inject_error (pe : page_entry) : P unit :=
  if error_injection s then
    r <- ask random ;;
    if Z.of_N r mod 50000 =? 8 then
      off <- ask random ;;
      modify (fun _ w => set_memory w (set_byte (memory w) (page_base (cfg s) pe)
                                         (Z.of_N off mod page_length_) 0xba))
    else Ret tt
  else Ret tt.

(** The three copy paths: the errors and the destination entry. *)
Definition copy_page (t : nat) (dst src : page_entry) : P (Z * page_entry) :=
  if warm s then
    on_thread t (fun an w st =>
      match source_of w src "copy" "source_check" with
      | None => None
      | Some so =>
          match CrcWarmCopyPage (cfg_at an) (AdlerMemcpyWarm (has_vector s) (registers an)) st
                  (patternlist_ w) so dst src (readings an) with
          | Some (st, dst, errors) => Some ((errors, dst), st)
          | None => None
          end
      end)
  else if strict s then
    on_thread t (fun an w st =>
      match source_of w src "copy" "source_check" with
      | None => None
      | Some so =>
          match CrcCopyPage (cfg_at an) st (patternlist_ w) so dst src (readings an) with
          | Some (st, dst, errors) => Some ((errors, dst), st)
          | None => None
          end
      end)
  else
    act (fun an w =>
      let m := memcpy (memory w) (page_base (cfg s) dst) (page_base (cfg s) src) page_length_ in
      let m := if tag_mode_ (cfg s) then TagAddrC (cfg s) m (page_base (cfg s) dst) page_length_ else m in
      Some ((0, set_written dst (pattern src) (cpu an) (frequency an)), set_memory w m)).

Definition copy_turn (t : nat) (tag_ : Z) (loops : Z) : P (Z + bool * Z) :=
  running <- IsReadyToRun ;;
  stop <- (if (running : bool) then error_stop_requested else Ret true) ;;
  if stop then Ret (inr (true, loops))
  else
    got <- Sat_GetValid tag_ ;;
    match got with
    | None => Ret (inr (false, loops))
    | Some src =>
        got <- Sat_GetEmpty tag_ ;;
        match got with
        | None => Sat_PutValid src ;; Ret (inr (false, loops))
        | Some dst =>
            inject_error src ;;
            ep <- epoch_begin ;;
            copied <- copy_page t dst src ;;
            let '(copy_errors, dst) := copied in
            record_write dst (if copy_errors =? 0 then Diagnostics.BLOCK_WRITER_COPY
                              else Diagnostics.BLOCK_WRITER_REPAIR) t ep ;;
            record_operation t Diagnostics.DIAG_PHASE_COPY_TRANSFER page_length_ page_length_ copy_errors ;;
            (if copy_verify_destination s then
               destination_errors <- check_page t dst "copy" "destination_check" ;;
               record_operation t Diagnostics.DIAG_PHASE_COPY_DESTINATION_CHECK page_length_ 0 destination_errors
             else Ret tt) ;;
            dst_returned <- Sat_PutValid dst ;;
            src_returned <- Sat_PutEmpty src ;;
            Ret (if dst_returned && src_returned then inl (loops + 1) else inr (false, loops))
        end
    end.

Definition CopyThread_Work (fuel : nat) (t : nat) (tag_ : Z) : P (option bool) :=
  r <- loop fuel (copy_turn t tag_) 0 ;;
  match r with
  | Some (result, loops) => finish t result loops 0 ;; Ret (Some result)
  | None => Ret None
  end.

(** ** [InvertThread] *)

(** A 64-bit word as its two 32-bit halves in memory order, and back. *)
Definition halves (m : list Z) : list Z := flat_map (fun w => [l32_l w; l32_h w]) m.
Fixpoint unhalves (m : list Z) : list Z :=
  match m with
  | lo :: hi :: m' => l64 lo hi :: unhalves m'
  | _ => []
  end.

(** [InvertPageUp] and [InvertPageDown]; an assertion may fail. *)
Definition invert_page (pass : Invert.InvertRange -> Z -> Z -> list Z -> option (list Z)) (pe : page_entry)
  : P page_entry :=
  act (fun an w =>
    match pass (invert_range s) page_length_ (2 * page_base (cfg s) pe) (halves (memory w)) with
    | Some m => Some (set_written pe (pattern pe) (cpu an) (frequency an), set_memory w (unhalves m))
    | None => None
    end).

Definition check_strict (t : nat) (pe : page_entry) (phase : string) (slot : Diagnostics.DiagnosticPhase)
  : P unit :=
  if strict s then
    errors <- check_page t pe "invert" phase ;;
    record_operation t slot page_length_ 0 errors
  else Ret tt.

Definition range_bytes : Z := Invert.invert_range_bytes (invert_range s) page_length_.

Definition invert_turn (t : nat) (loops : Z) : P (Z + bool * Z) :=
  running <- IsReadyToRun ;;
  stop <- (if (running : bool) then error_stop_requested else Ret true) ;;
  if stop then Ret (inr (true, loops))
  else
    got <- Sat_GetValid kDontCareTag ;;
    match got with
    | None => Ret (inr (false, loops))
    | Some src =>
        check_strict t src "precheck" Diagnostics.DIAG_PHASE_INVERT_PRECHECK ;;
        ep <- epoch_begin ;;
        src <- invert_page Invert.InvertPageUp src ;;
        src <- invert_page Invert.InvertPageDown src ;;
        src <- invert_page Invert.InvertPageDown src ;;
        src <- invert_page Invert.InvertPageUp src ;;
        record_write src Diagnostics.BLOCK_WRITER_INVERT t ep ;;
        record_operation t Diagnostics.DIAG_PHASE_INVERT_RMW (range_bytes * 4) (range_bytes * 4) 0 ;;
        check_strict t src "postcheck" Diagnostics.DIAG_PHASE_INVERT_POSTCHECK ;;
        put <- Sat_PutValid src ;;
        Ret (if put then inl (loops + 1) else inr (false, loops))
    end.

Definition InvertThread_Work (fuel : nat) (t : nat) : P (option bool) :=
  r <- loop fuel (invert_turn t) 0 ;;
  match r with
  | Some (result, loops) => finish t result (loops * 2) (loops * range_bytes * 8) ;; Ret (Some result)
  | None => Ret None
  end.

End Sat.
End Shared.

(** ** [PostFillCheckThread]

    It runs alone, before the blocks are split into valid and empty ones, and uses the
    queue in use in its own way. *)
Class InitStore (Q : Type) := {
  coarse_grain_queue : bool;
  get_by_offset : Z -> Q -> option page_entry;       (** [FineLockPEQueue::GetValidByOffset] *)
  hold_page : page_entry -> Q -> bool * Q;           (** [empty_->Push(pe)] *)
  restore_page : Z -> Q -> bool * Q                  (** [empty_->PopRandom(&pe) && valid_->Push(&pe)] *)
}.

#[export] Instance fine_init_store : InitStore FineLockPEQueue := {
  coarse_grain_queue := false;
  get_by_offset := fun off q => GetValidByOffset q off false;
  hold_page := fun _ q => (false, q);
  restore_page := fun _ q => (false, q)
}.

#[export] Instance one_init_store : InitStore OneLock := {
  coarse_grain_queue := true;
  get_by_offset := fun _ _ => None;
  hold_page := one_put_empty;
  restore_page := fun rand q =>
    match PopRandom (empty_ q) false rand with
    | (_, Some pe, e) => one_put_valid pe (mkOneLock (valid_ q) e)
    | (_, None, e) => (false, mkOneLock (valid_ q) e)
    end
}.

Section PostFill.
Context {Q : Type} `{PS : PageStore Answer Q} `{IS : InitStore Q} (s : Settings).
Abbreviation P := (Prog Answer (@Shared Q)).

Definition GetValidByOffsetForInitialization (off : Z) : P (option page_entry) :=
  r <- get (fun w => get_by_offset off (store w)) ;;
  match r with
  | None => Ret None
  | Some pe =>
      pe <- map_page s pe ;;
      if addr pe =? 0 then Ret None
      else
        stamp <- ask timestamp ;;
        Ret (Some (set_access pe stamp))
  end.

Definition HoldInitializationPage (pe : page_entry) : P bool :=
  act (fun _ w => let '(r, q) := hold_page (set_addr pe 0) (store w) in Some (r, set_store w q)).

(** The loop of [RestoreInitializationPages]. *)
Fixpoint restore_loop (count : nat) : P bool :=
  match count with
  | O => Ret true
  | S count' =>
      r <- act (fun an w => let '(r, q) := restore_page (Z.of_N (random an)) (store w) in
                            Some (r, set_store w q)) ;;
      if (r : bool) then restore_loop count' else Ret false
  end.

Definition RestoreInitializationPages (count : Z) : P bool :=
  if coarse_grain_queue then restore_loop (Z.to_nat count) else Ret false.

(** [for (int64 i = 0; i < pages_to_check_; ++i)] with [n] turns left: the result and the
    number of checked blocks. *)
Fixpoint post_fill_loop (n : nat) (t : nat) (i checked_pages : Z) : P (bool * Z) :=
  match n with
  | O => Ret (true, checked_pages)
  | S n' =>
      got <- (if coarse_grain_queue then Sat_GetValid s kDontCareTag
              else GetValidByOffsetForInitialization (i * page_length_ s)) ;;
      match got with
      | None => Ret (false, checked_pages)
      | Some pe =>
          check_errors <- check_page s t pe "post_fill" "full_check" ;;
          record_operation s t Diagnostics.DIAG_PHASE_POST_FILL_CHECK (page_length_ s) 0 check_errors ;;
          held <- (if coarse_grain_queue then HoldInitializationPage pe else Ret true) ;;
          if negb held then Sat_PutValid pe ;; Ret (false, checked_pages)
          else
            stop <- error_stop_requested ;;
            if (stop : bool) then Ret (true, checked_pages + 1)
            else post_fill_loop n' t (i + 1) (checked_pages + 1)
      end
  end.

Definition PostFillCheckThread_Work (t : nat) (pages_to_check : Z) : P bool :=
  r <- post_fill_loop (Z.to_nat pages_to_check) t 0 0 ;;
  let '(result, checked_pages) := r in
  result <- (if coarse_grain_queue
             then ok <- RestoreInitializationPages checked_pages ;; Ret (if ok : bool then result else false)
             else Ret result) ;;
  finish t result checked_pages 0 ;;
  Ret result.

End PostFill.
End Threads.
