(* ===== verification/Accounting.v ===== *)
(** Every fault is counted once: what the worker threads of [Threads.v] achieve together.

    A fault changes one correct word of a valid work block at rest.  Whatever the
    interleaving of any number of fill, check, copy and invert threads, the errors counted
    so far and the wrong words still in the valid blocks, at rest or in a worker's hands,
    add up to the number of faults.  The proof gives each thread the blocks it holds as
    resources of the logic of [Program.v]. *)

From Stdlib Require Import Ascii String.
From S2P Require Import Prelude Adler Patterns Invert PageQueue FineLock OsLayer ErrorDiag.
From S2P Require Import Diagnostics Worker Program PageStore Threads.

(** ** Sums *)

Module Sums.

Definition zsum (l : list Z) : Z := foldr Z.add 0 l.

Lemma zsum_app l k : zsum (l ++ k) = zsum l + zsum k.
Proof. unfold zsum. induction l as [|x l IH]; cbn [app foldr]; lia. Qed.

#[export] Instance zsum_perm : Proper (Permutation ==> eq) zsum.
Proof. intros l k H. unfold zsum. induction H; cbn in *; lia. Qed.

Lemma zsum_ext {A} (f g : A -> Z) l : (forall x, x ∈ l -> f x = g x) -> zsum (map f l) = zsum (map g l).
Proof. intros H. f_equal. apply list_fmap_ext. intros i x Hx. apply H. by eapply list_elem_of_lookup_2. Qed.

Lemma zsum_nonneg l : Forall (fun x => 0 <= x) l -> 0 <= zsum l.
Proof. unfold zsum. induction 1; cbn [foldr]; lia. Qed.

Lemma zsum_insert l i x y : l !! i = Some x -> zsum (<[i := y]> l) = zsum l - x + y.
Proof.
  revert i. induction l as [|z l IH]; intros [|i] H; [done|done| |].
  - injection H as ->. cbn. fold (zsum l). lia.
  - specialize (IH i H). change (<[S i := y]> (z :: l)) with (z :: <[i := y]> l).
    unfold zsum in *. cbn [foldr]. lia.
Qed.

End Sums.

Module Accounting.
Import PageQueue FineLock Program PageStore Worker WorkerFacts Threads Sums.

Section Model.
Context {Q : Type} `{PS : PageStore Answer Q}.
Context (s : Settings) (pats : list Patterns.Pattern) (nw : nat).
Abbreviation n := (pages s).
Abbreviation psize := (page_length (cfg s)).
Abbreviation pw := (page_words (cfg s)).

(** [Sat::GetTotalErrorCount], without the errors of the initialisation. *)
Definition total_errors (w : @Shared Q) : Z := zsum (map w_errorcount (workers w)).

Definition pat_at (pt : option Z) : option Patterns.Pattern :=
  match pt with Some i => pats !! Z.to_nat i | None => None end.

(** The wrong words of the block at offset [o], which should hold the pattern [pt]. *)
Definition errors_at (m : list Z) (o : Z) (pt : option Z) : Z :=
  match pat_at pt with Some p => Z.of_nat (length (bad_words p (o / 8) m 0 pw)) | None => 0 end.

(** The pattern is there, and no 4096-byte piece has more than one wrong word. *)
Definition page_ok (m : list Z) (o : Z) (pt : option Z) : Prop :=
  exists p, pat_at pt = Some p /\ sparse p (o / 8) m 0 (Z.to_nat (psize / 4096)).

(** A fault in a valid block at rest. *)
Inductive fault : @Shared Q -> @Shared Q -> Prop :=
| fault_word w V E H P pe p j v :
    rep n psize (store w) V E H P -> pe ∈ V -> pat_at (pattern pe) = Some p ->
    0 <= j < Z.of_nat pw -> aget 0 (memory w) (offset pe / 8 + j) = PatternFacts.pattern_word p j ->
    0 <= v < 2 ^ 64 -> v <> PatternFacts.pattern_word p j ->
    page_ok (aset (memory w) (offset pe / 8 + j) v) (offset pe) (pattern pe) ->
    fault w (set_memory w (aset (memory w) (offset pe / 8 + j) v)).

(** Executions with their number of faults. *)
Inductive run {A} : Z -> @Shared Q * list (Prog Answer Shared A) -> @Shared Q * list (Prog Answer Shared A) -> Prop :=
| run_start x : run 0 x x
| run_step F x y z : run F x y -> pstep y z -> run F x z
| run_fault F x w w' ths : run F x (w, ths) -> fault w w' -> run (F + 1) x (w', ths).

(** The threads of a run, as [Sat::InitializeThreads] and the fill pass create them; each
    takes at most [fuel] turns of its loop. *)
Inductive job :=
| Fill (t : nat) (num_pages_to_fill : Z) | Check (t : nat) (check_phase : string)
| Copy (t : nat) (tag_ : Z) | Invert (t : nat).

Definition job_worker (j : job) : nat :=
  match j with Fill t _ | Check t _ | Copy t _ | Invert t => t end.

Definition work (fuel : nat) (j : job) : Prog Answer (@Shared Q) (option bool) :=
  match j with
  | Fill t num => FillThread_Work s fuel t false num
  | Check t phase => CheckThread_Work s fuel t phase
  | Copy t tag_ => CopyThread_Work s fuel t tag_
  | Invert t => InvertThread_Work s fuel t
  end.

Definition finished {A} (p : Prog Answer (@Shared Q) A) : Prop := match p with Ret _ => True | Act _ _ _ => False end.

(** The wrong words of the given entries. *)
Definition errors_left (w : @Shared Q) (V : list page_entry) : Z :=
  zsum (map (fun pe => errors_at (memory w) (offset pe) (pattern pe)) V).

End Model.
End Accounting.

Module AccountingFacts.
Import PageQueue FineLock FineLockFacts Program ProgramFacts PageStore Worker WorkerFacts Threads Sums Accounting.

(** ** Ranges of words *)

Lemma length_range_words d at_ n : length (range_words d at_ n) = n.
Proof. unfold range_words. by rewrite length_map, length_zrange. Qed.

Lemma aget_range_words d at_ n i :
  0 <= i < Z.of_nat n -> aget 0 (range_words d at_ n) i = aget 0 d (at_ + i).
Proof.
  intros Hi. apply Adler.AdlerFacts.aget_lookup; [lia|]. unfold range_words.
  rewrite list_lookup_fmap, zrange_lookup by lia. cbn. do 2 f_equal. lia.
Qed.

Lemma range_words_ext d d' at_ at' n :
  (forall i, 0 <= i < Z.of_nat n -> aget 0 d' (at' + i) = aget 0 d (at_ + i)) ->
  range_words d' at' n = range_words d at_ n.
Proof. intros H. apply map_ext_in. intros i Hi%list_elem_of_In%elem_of_zrange. apply H. lia. Qed.

Lemma copy_words_filled src n at_ dst :
  0 <= at_ -> at_ + Z.of_nat n <= Z.of_nat (length dst) ->
  copy_words src n at_ dst = filled (fun i => aget 0 src i) at_ n dst.
Proof.
  intros H1 H2. unfold copy_words. apply store_words_filled; try done.
  - intros i Hi%elem_of_zrange. lia.
  - intros i Hi Hni. exfalso. apply Hni, elem_of_zrange. lia.
Qed.

Lemma length_copy_words src n at_ dst : length (copy_words src n at_ dst) = length dst.
Proof. apply length_store_words. Qed.

Lemma copied_range src n at_ dst :
  0 <= at_ -> at_ + Z.of_nat n <= Z.of_nat (length dst) -> length src = n ->
  range_words (copy_words src n at_ dst) at_ n = src.
Proof.
  intros H1 H2 Hl. apply list_eq. intros k. destruct (decide (k < n)%nat) as [Hk|Hk].
  - unfold range_words. rewrite list_lookup_fmap, zrange_lookup by done. cbn.
    rewrite copy_words_filled by done. rewrite aget_filled by lia. unfold aget.
    rewrite Z.add_0_l, Nat2Z.id. destruct (lookup_lt_is_Some_2 src k) as [x Hx]; [lia|].
    by rewrite Hx, (nth_lookup_Some _ _ _ _ Hx).
  - rewrite !lookup_ge_None_2; [done | lia | rewrite length_range_words; lia].
Qed.

Lemma copied_elsewhere src n at_ dst b k :
  0 <= at_ -> at_ + Z.of_nat n <= Z.of_nat (length dst) -> 0 <= b ->
  b + Z.of_nat k <= at_ \/ at_ + Z.of_nat n <= b ->
  range_words (copy_words src n at_ dst) b k = range_words dst b k.
Proof.
  intros H1 H2 Hb Hd. apply range_words_ext. intros i Hi. rewrite copy_words_filled by done.
  apply aget_filled_out; lia.
Qed.

Section Inv.
Context {Q : Type} `{PS : PageStore Answer Q}.
Context (s : Settings) (pats : list Patterns.Pattern) (nw : nat).
Abbreviation n := (pages s).
Abbreviation psize := (page_length (cfg s)).
Abbreviation pw := (page_words (cfg s)).
Context `{LAWS : !PageStoreLaws Answer Q n psize}.

(** What is assumed of the configuration: no tags, no injected errors, blocks of whole
    cache lines, and test memory in one piece that starts at [mem_base]. *)
Record settings_ok : Prop := {
  so_tag : tag_mode_ (cfg s) = false;
  so_inject : error_injection s = false;
  so_len : 0 < psize < 2 ^ 31 /\ psize mod 64 = 0;
  so_pages : 0 <= n;
  so_base : 0 < mem_base (cfg s);
  so_os : OsLayer.testmem_ (os_ (world (cfg s))) = mem_base (cfg s) /\
          OsLayer.dynamic_mapped_shmem_ (os_ (world (cfg s))) = false;
  so_size : n * psize <= OsLayer.testmemsize_ (os_ (world (cfg s))) < 2 ^ 64;
  so_pats : Forall good_pattern pats /\ Z.of_nat (length pats) < 2 ^ 31
}.
Context (OK : settings_ok).

(** ** Resources *)

(** A block a worker holds, by its offset and the pattern it should contain: a valid block,
    one free of errors, one that may contain anything, one whose selected range is
    complemented, one with known words, and an entry a search has locked. *)
Inductive Res :=
| Full (o : Z) (pt : option Z) | Clean (o : Z) (pt : option Z) | Free (o : Z)
| Turned (o : Z) (pt : option Z) | Raw (o : Z) (ws : list Z) | Probe (v : bool) (pe : page_entry).

Definition held (r : Res) : list Z :=
  match r with Full o _ | Clean o _ | Free o | Turned o _ | Raw o _ => [o] | Probe _ _ => [] end.
Definition probe_of (r : Res) : list (bool * page_entry) :=
  match r with Probe v pe => [(v, pe)] | _ => [] end.

Definition not64 (w : Z) : Z := 2 ^ 64 - 1 - w.

(** The block at [o] with the range of the invert threads complemented. *)
Definition turn (m : list Z) (o : Z) : list Z :=
  filled (fun i => not64 (aget 0 m (o / 8 + i))) (o / 8) (Z.to_nat (range_bytes s / 8)) m.

Abbreviation page_ok := (page_ok s pats).
Abbreviation errors_at := (errors_at s pats).

Definition res_ok (m : list Z) (r : Res) : Prop :=
  match r with
  | Full o pt => page_ok m o pt
  | Clean o pt => page_ok m o pt /\ errors_at m o pt = 0
  | Free _ => True
  | Turned o pt => page_ok (turn m o) o pt
  | Raw o ws => range_words m (o / 8) pw = ws
  | Probe v pe => if v then page_ok m (offset pe) (pattern pe) else True
  end.

Definition res_errors (m : list Z) (r : Res) : Z :=
  match r with
  | Full o pt => errors_at m o pt
  | Clean _ _ | Free _ | Raw _ _ => 0
  | Turned o pt => errors_at (turn m o) o pt
  | Probe v pe => if v then errors_at m (offset pe) (pattern pe) else 0
  end.

Definition entry_ok (m : list Z) (pe : page_entry) : Prop := page_ok m (offset pe) (pattern pe).
Definition entry_errors (m : list Z) (pe : page_entry) : Z := errors_at m (offset pe) (pattern pe).

(** The pattern list: its objects do not change and every choice is one of them. *)
Definition choice_ok (i : Z) : Prop := 0 <= i < Z.of_nat (length pats).
Definition plist_ok (pl : Patterns.PatternList) : Prop :=
  Patterns.patterns_ pl = pats /\ Patterns.size_ pl <> 0 /\
  Forall choice_ok (Patterns.selected_pattern_ids_ pl) /\
  forall rand, 0 <= rand -> exists i, choice_ok i /\
    Patterns.weight_loop pats 0 (Z.rem rand (Patterns.weightcount_ pl) + 1) = Some i.

Record inv_with (F : Z) (w : @Shared Q) (R : list Res) (V E : list page_entry) : Prop := {
  iv_rep : rep n psize (store w) V E (flat_map held R) (flat_map probe_of R);
  iv_valid : Forall (entry_ok (memory w)) V;
  iv_res : Forall (res_ok (memory w)) R;
  iv_mem : words64 (memory w) /\ 8 * Z.of_nat (length (memory w)) = n * psize;
  iv_plist : plist_ok (patternlist_ w);
  iv_workers : length (workers w) = nw;
  iv_sum : total_errors w + zsum (map (entry_errors (memory w)) V) +
           zsum (map (res_errors (memory w)) R) = F;
  iv_nonneg : 0 <= total_errors w
}.
Definition Inv (F : Z) (w : @Shared Q) (R : list Res) : Prop := exists V E, inv_with F w R V E.

#[local] Instance Inv_proper F w : Proper (Permutation ==> iff) (Inv F w).
Proof.
  enough (Himp : forall R R', R ≡ₚ R' -> Inv F w R -> Inv F w R') by (intros R R' HR; by split; apply Himp).
  intros R R' HR (V & E & [H1 H2 H3 H4 H5 H6 H7 Hnn]). exists V, E.
  split; try done; [by rewrite <- HR | by rewrite <- HR | by rewrite <- HR in *].
Qed.

(** ** Blocks *)

Definition in_block (o : Z) (k : Z) : Prop := o / 8 <= k < o / 8 + Z.of_nat pw.

Lemma pw_eq : Z.of_nat pw = psize / 8 /\ 8 * Z.of_nat pw = psize /\ 0 <= Z.of_nat pw < 2 ^ 28.
Proof using OK.
  destruct OK as [_ _ [H1 H2] _ _ _ _ _]. unfold page_words, wordsize_.
  pose proof (Z.div_mod psize 64). assert (Hd : psize / 8 = 8 * (psize / 64)).
  { symmetry. apply Z.div_unique with 0; lia. }
  pose proof (Z.div_pos psize 64). lia.
Qed.

(** The offsets of all entries and all held blocks are the blocks, each once. *)
Lemma inv_blocks F w R V E :
  inv_with F w R V E ->
  map offset V ++ map offset E ++ flat_map held R ++ map (fun p => offset p.2) (flat_map probe_of R) ≡ₚ
  map (fun i => i * psize) (zrange 0 (Z.to_nat n)).
Proof using LAWS. intros H. apply (rep_blocks (store w)), H. Qed.

Lemma blocks_nodup : NoDup (map (fun i => i * psize) (zrange 0 (Z.to_nat n))).
Proof using OK.
  destruct OK as [_ _ [H1 _] _ _ _ _ _].
  apply NoDup_fmap_2_strong; [|apply NoDup_zrange]. intros x y _ _ Hxy. nia.
Qed.

Lemma block_bound o :
  o ∈ map (fun i => i * psize) (zrange 0 (Z.to_nat n)) ->
  exists i, o = i * psize /\ 0 <= i < n /\ o / 8 = i * Z.of_nat pw /\ 8 * (o / 8) = o.
Proof using OK.
  intros (i & -> & Hi%elem_of_zrange)%list_elem_of_fmap. exists i.
  destruct pw_eq as (_ & Hp & _). rewrite <- Hp. split; [done|]. split; [lia|].
  replace (i * (8 * Z.of_nat pw)) with (i * Z.of_nat pw * 8) by lia. rewrite Z.div_mul by lia. lia.
Qed.

Lemma block_in_memory o (m : list Z) :
  o ∈ map (fun i => i * psize) (zrange 0 (Z.to_nat n)) -> 8 * Z.of_nat (length m) = n * psize ->
  0 <= o / 8 /\ o / 8 + Z.of_nat pw <= Z.of_nat (length m).
Proof using OK.
  intros Ho Hm. destruct (block_bound o Ho) as (i & _ & Hi & -> & _).
  destruct pw_eq as (_ & Hp & _). rewrite <- Hp in Hm. nia.
Qed.

Lemma blocks_apart o o' k :
  o ∈ map (fun i => i * psize) (zrange 0 (Z.to_nat n)) ->
  o' ∈ map (fun i => i * psize) (zrange 0 (Z.to_nat n)) -> o <> o' -> in_block o k -> ~ in_block o' k.
Proof using OK.
  intros Ho Ho' Hne. destruct (block_bound o Ho) as (i & -> & Hi & He & _).
  destruct (block_bound o' Ho') as (j & -> & Hj & He' & _). unfold in_block. rewrite He, He'.
  assert (i <> j) by congruence. nia.
Qed.

(** What is said of a block depends on its words only. *)
Definition agree (m m' : list Z) (o : Z) : Prop :=
  forall k, in_block o (Z.of_nat k) -> m' !! k = m !! k.

Lemma agree_aget m m' o j :
  agree m m' o -> 0 <= o / 8 -> 0 <= j < Z.of_nat pw -> aget 0 m' (o / 8 + j) = aget 0 m (o / 8 + j).
Proof. intros H Ho Hj. apply aget_ext. apply H. unfold in_block. lia. Qed.

Lemma agree_bad_words m m' o p lo k :
  agree m m' o -> 0 <= o / 8 -> 0 <= lo -> lo + Z.of_nat k <= Z.of_nat pw ->
  bad_words p (o / 8) m' lo k = bad_words p (o / 8) m lo k.
Proof.
  intros H Ho Hlo Hk. apply filter_ext_in. intros j Hj%elem_of_zrange.
  by rewrite (agree_aget m m') by (done || lia).
Qed.

Lemma agree_errors m m' o pt : agree m m' o -> 0 <= o / 8 -> errors_at m' o pt = errors_at m o pt.
Proof.
  intros H Ho. unfold Accounting.errors_at. destruct (pat_at pats pt); [|done].
  by rewrite (agree_bad_words m m') by (done || lia).
Qed.

Lemma pages_4096 : 512 * Z.of_nat (Z.to_nat (psize / 4096)) <= Z.of_nat pw.
Proof using OK.
  destruct pw_eq as (_ & Hp & _). pose proof (Z.div_mod psize 4096). pose proof (Z.mod_pos_bound psize 4096).
  pose proof (Z.div_pos psize 4096). destruct OK as [_ _ [Hlen _] _ _ _ _ _]. lia.
Qed.

Lemma agree_page_ok m m' o pt : agree m m' o -> 0 <= o / 8 -> page_ok m o pt -> page_ok m' o pt.
Proof using OK.
  intros H Ho (p & Hp & Hs). exists p. split; [done|]. intros b Hb.
  pose proof pages_4096. rewrite (agree_bad_words m m') by (done || lia). by apply Hs.
Qed.

Lemma agree_turn m m' o : agree m m' o -> 0 <= o / 8 -> agree (turn m o) (turn m' o) o.
Proof.
  intros H Ho k Hk. unfold turn. rewrite !lookup_filled, (H k Hk). unfold in_block in Hk.
  destruct (m !! k); [|done]. cbn. case_decide; [|done]. do 2 f_equal.
  apply (agree_aget m m'); [done | done | lia].
Qed.

Definition footprint (r : Res) : list Z := held r ++ map (fun p => offset p.2) (probe_of r).

Lemma agree_res m m' r :
  (forall o, o ∈ footprint r -> agree m m' o /\ 0 <= o / 8) ->
  res_errors m' r = res_errors m r /\ (res_ok m r -> res_ok m' r).
Proof using OK.
  intros H. destruct r as [o pt|o pt|o|o pt|o ws|[] pe]; cbn in *; try done;
    destruct (H _ (list_elem_of_here _ _)) as [Ha Ho].
  - split; [by apply agree_errors | by apply agree_page_ok].
  - split; [done|]. rewrite (agree_errors m m') by done. intros [? ?]. split; [by apply (agree_page_ok m)|done].
  - split; [apply agree_errors | apply agree_page_ok]; by try apply agree_turn.
  - split; [done|]. intros <-. apply range_words_ext. intros i Hi. by apply (agree_aget m m').
  - split; [by apply agree_errors | by apply agree_page_ok].
Qed.

(** ** Changing the state *)

Abbreviation all_blocks := (map (fun i => i * psize) (zrange 0 (Z.to_nat n))).

Lemma footprints R :
  flat_map footprint R ≡ₚ flat_map held R ++ map (fun p => offset p.2) (flat_map probe_of R).
Proof.
  induction R as [|r R IH]; [done|]. cbn [flat_map]. rewrite map_app, IH. unfold footprint at 1.
  rewrite <- !app_assoc. f_equiv. rewrite !app_assoc. f_equiv. apply Permutation_app_comm.
Qed.

(** The blocks a thread holds are not those of any other entry. *)
Lemma inv_disjoint F w rs R V E :
  inv_with F w (rs ++ R) V E -> flat_map probe_of rs = [] ->
  (forall o, o ∈ flat_map held rs -> o ∈ all_blocks) /\
  (forall o, o ∈ map offset V ++ flat_map footprint R -> o ∈ all_blocks) /\
  (forall o o', o ∈ flat_map held rs -> o' ∈ map offset V ++ flat_map footprint R -> o <> o').
Proof using OK LAWS.
  intros Hi Hp. pose proof (inv_blocks _ _ _ _ _ Hi) as Hb.
  rewrite !flat_map_app, Hp in Hb. cbn [app] in Hb.
  assert (Hb' : flat_map held rs ++ (map offset V ++ flat_map footprint R) ++ map offset E ≡ₚ all_blocks).
  { rewrite <- Hb, footprints. solve_Permutation. }
  pose proof blocks_nodup as Hnd. rewrite <- Hb' in Hnd. apply NoDup_app in Hnd as (_ & Hd & _).
  split; [|split].
  - intros o Ho. rewrite <- Hb'. apply elem_of_app. by left.
  - intros o Ho. rewrite <- Hb'. apply elem_of_app. right. apply elem_of_app. by left.
  - intros o o' Ho Ho' ->. apply (Hd o' Ho). apply elem_of_app. by left.
Qed.

(** A thread changes the contents of blocks it holds. *)
Lemma inv_update F w w' rs rs' R :
  Inv F w (rs ++ R) ->
  flat_map held rs' = flat_map held rs -> flat_map probe_of rs = [] -> flat_map probe_of rs' = [] ->
  store w' = store w -> plist_ok (patternlist_ w') -> length (workers w') = length (workers w) ->
  words64 (memory w') -> length (memory w') = length (memory w) ->
  (forall k, (forall o, o ∈ flat_map held rs -> ~ in_block o (Z.of_nat k)) ->
     memory w' !! k = memory w !! k) ->
  Forall (res_ok (memory w')) rs' ->
  total_errors w' + zsum (map (res_errors (memory w')) rs') =
  total_errors w + zsum (map (res_errors (memory w)) rs) ->
  total_errors w <= total_errors w' ->
  Inv F w' (rs' ++ R).
Proof using OK LAWS.
  intros (V & E & Hi) Hh Hp Hp' Hst Hpl Hwk Hw64 Hlen Hout Hok Hsum Hmono. exists V, E.
  destruct (inv_disjoint _ _ _ _ _ _ Hi Hp) as (Hbl & Hbl' & Hne).
  assert (Hag : forall o, o ∈ map offset V ++ flat_map footprint R ->
    agree (memory w) (memory w') o /\ 0 <= o / 8).
  { intros o Ho. split.
    - intros k Hk. apply Hout. intros o' Ho' Hin. revert Hin. apply (blocks_apart o); auto.
      intros ->. by apply (Hne o' o').
    - destruct (block_bound o (Hbl' o Ho)) as (i & _ & Hr & -> & _). nia. }
  assert (HV : forall pe, pe ∈ V -> agree (memory w) (memory w') (offset pe) /\ 0 <= offset pe / 8).
  { intros pe Hpe. apply Hag, elem_of_app. left. by apply list_elem_of_fmap_2. }
  assert (HR : forall r, r ∈ R -> res_errors (memory w') r = res_errors (memory w) r /\
    (res_ok (memory w) r -> res_ok (memory w') r)).
  { intros r Hr. apply agree_res. intros o Ho. apply Hag, elem_of_app. right.
    apply list_elem_of_In, in_flat_map. exists r. split; by apply list_elem_of_In. }
  destruct Hi as [H1 H2 H3 [_ H4] H5 H6 H7 Hnn]. rewrite flat_map_app in H1.
  apply Forall_app in H3 as [_ H3]. rewrite Forall_forall in H2. rewrite Forall_forall in H3. split.
  - by rewrite Hst, !flat_map_app, Hh, Hp', <- Hp, <- !flat_map_app, flat_map_app.
  - apply Forall_forall. intros pe Hpe. destruct (HV pe Hpe). by apply (agree_page_ok (memory w)), H2.
  - apply Forall_app. split; [done|]. apply Forall_forall. intros r Hr. by apply HR, H3.
  - split; [done|]. by rewrite Hlen.
  - done.
  - by rewrite Hwk.
  - rewrite map_app, zsum_app in H7 |- *.
    rewrite (zsum_ext (res_errors (memory w')) (res_errors (memory w)) R) by (intros r Hr; by apply HR).
    rewrite (zsum_ext (entry_errors (memory w')) (entry_errors (memory w)) V); [lia|].
    intros pe Hpe. destruct (HV pe Hpe). by apply agree_errors.
  - lia.
Qed.

(** Changes that concern neither blocks nor counts. *)
Lemma inv_other F w w' R :
  Inv F w R -> store w' = store w -> memory w' = memory w -> plist_ok (patternlist_ w') ->
  map w_errorcount (workers w') = map w_errorcount (workers w) -> Inv F w' R.
Proof.
  intros (V & E & [H1 H2 H3 H4 H5 H6 H7 Hnn]) Hs Hm Hp Hw. exists V, E.
  split; rewrite ?Hs, ?Hm; try done.
  - rewrite <- H6. apply (f_equal (@length Z)) in Hw. by rewrite !length_map in Hw.
  - unfold total_errors in *. by rewrite Hw.
  - unfold total_errors in *. by rewrite Hw.
Qed.

Lemma worker_lookup (w : @Shared Q) t : (t < length (workers w))%nat -> workers w !! t = Some (worker w t).
Proof.
  intros H. unfold worker. destruct (nth_lookup_or_length (workers w) t (new_worker None)); [done|lia].
Qed.

Lemma total_errors_update (w w' : @Shared Q) t wk :
  (t < length (workers w))%nat -> workers w' = <[t := wk]> (workers w) ->
  total_errors w' = total_errors w - w_errorcount (worker w t) + w_errorcount wk.
Proof.
  intros Ht Hw. unfold total_errors. rewrite Hw.
  change (map w_errorcount) with (fmap (M := list) w_errorcount). rewrite list_fmap_insert.
  apply zsum_insert. rewrite list_lookup_fmap, worker_lookup by done. done.
Qed.

(** ** The accesses of the threads *)

Abbreviation safe := (safe (An := Answer) Inv).

(** An entry whose block is mapped. *)
Definition mapped (pe : page_entry) : Prop := addr pe = mem_base (cfg s) + offset pe.

Lemma mapped_base pe : mapped pe -> page_base (cfg s) pe = offset pe / 8.
Proof. unfold mapped, page_base. intros ->. f_equal. lia. Qed.

(** What a search has in its hands. *)
Definition res_of (g : GetState) : list Res :=
  match g with
  | GNone => []
  | GProbed v pe => [Probe v pe]
  | GHeld true pe => [Full (offset pe) (pattern pe)]
  | GHeld false pe => [Free (offset pe)]
  end.

Lemma res_of_held g R : flat_map held (res_of g ++ R) = taken g ++ flat_map held R.
Proof. by destruct g as [|v pe|[] pe]. Qed.
Lemma res_of_probe g R : flat_map probe_of (res_of g ++ R) = probed g ++ flat_map probe_of R.
Proof. by destruct g as [|v pe|[] pe]. Qed.
Lemma res_of_ok m g : Forall (res_ok m) (res_of g) <-> Forall (entry_ok m) (in_hand true g).
Proof.
  destruct g as [|[] pe|[] pe]; cbn; rewrite ?Forall_singleton; unfold entry_ok; try done;
    rewrite ?Forall_nil; tauto.
Qed.
Lemma res_of_errors m g : zsum (map (res_errors m) (res_of g)) = zsum (map (entry_errors m) (in_hand true g)).
Proof. by destruct g as [|[] pe|[] pe]. Qed.

(** A search of the store, in the shared state. *)
Lemma safe_search v (p : Prog Answer Q (option page_entry)) g l (Qp : option page_entry -> list Res -> Prop) :
  get_safe n psize v p g -> Qp None l ->
  (forall pe, Qp (Some pe) ((if v then Full (offset pe) (pattern pe) else Free (offset pe)) :: l)) ->
  safe (zoom store set_store p) (res_of g ++ l) Qp.
Proof using LAWS.
  intros Hg Hnone Hsome. revert g Hg. induction p as [[pe|]|B f k IH]; intros g Hg.
  - destruct Hg as (pe0 & -> & t & ->). specialize (Hsome (set_touch pe0 t)). by destruct v.
  - by cbn in Hg; subst g.
  - intros F w R an (V & E & [H1 H2 H3 H4 H5 H6 H7 Hnn]). rewrite <- app_assoc in *.
    rewrite res_of_held, res_of_probe in H1.
    destruct (Hg an (store w) V E _ _ H1) as (b & q' & V' & E' & g' & Hf & Hr & HV & HE & Hk).
    exists b, (set_store w q'), (res_of g' ++ l). rewrite Hf. split; [done|]. split; [|by apply IH].
    exists V', E'. rewrite <- app_assoc.
    assert (Hall : Forall (entry_ok (memory w)) (in_hand true g' ++ V') /\
                   Forall (res_ok (memory w)) (l ++ R)).
    { apply Forall_app in H3 as [H3 H3']. split; [|done]. rewrite <- HV. apply Forall_app.
      split; [by apply res_of_ok | done]. }
    destruct Hall as [[Ha1 Ha2]%Forall_app Ha3].
    split; try done; cbn [store set_store memory].
    + by rewrite res_of_held, res_of_probe.
    + apply Forall_app. split; [by apply res_of_ok | done].
    + apply (Permutation_map (entry_errors (memory w))), zsum_perm in HV.
      rewrite !map_app, !zsum_app in HV. rewrite map_app, zsum_app in H7 |- *.
      rewrite res_of_errors in *. change (total_errors (set_store w q')) with (total_errors w). lia.
Qed.

(** The block of a held entry is one of the blocks, and inside memory. *)
Lemma held_block F w r R o :
  Inv F w (r :: R) -> held r = [o] ->
  o ∈ all_blocks /\ 0 <= o / 8 /\ o / 8 + Z.of_nat pw <= Z.of_nat (length (memory w)).
Proof using OK LAWS.
  intros (V & E & Hi) Hh. assert (Ho : o ∈ all_blocks).
  { rewrite <- (inv_blocks _ _ _ _ _ Hi). cbn [flat_map]. rewrite Hh, !elem_of_app.
    right. right. left. left. by apply list_elem_of_singleton. }
  split; [done|]. apply block_in_memory; [done | apply (iv_mem _ _ _ _ _ Hi)].
Qed.

(** A block is mapped where it belongs. *)
Lemma map_block pe an :
  offset pe ∈ all_blocks ->
  exists x, OsLayer.PrepareTestMem (os_ (world (cfg s))) (pagesize (world (cfg s))) (map_at an) (offset pe)
    (page_length_ s) = Some (mem_base (cfg s) + offset pe, x) /\ 0 < mem_base (cfg s) + offset pe.
Proof using OK.
  intros Ho. destruct (block_bound _ Ho) as (i & Hoi & Hb & _). destruct OK as [_ _ [Hl _] _ Hbase [Htm Hdyn] Hsz _].
  unfold OsLayer.PrepareTestMem, page_length_.
  rewrite u64_id, (proj2 (Z.ltb_ge _ _)), Hdyn, Htm by nia. eexists. split; [done | nia].
Qed.

Lemma safe_map_page r pe l (Qp : page_entry -> list Res -> Prop) :
  held r = [offset pe] -> (forall a, a = mem_base (cfg s) + offset pe -> 0 < a -> Qp (set_addr pe a) (r :: l)) ->
  safe (map_page s pe) (r :: l) Qp.
Proof using OK LAWS.
  intros Hh HQ F w R an Hi. destruct (held_block _ _ _ _ _ Hi Hh) as (Ho & _).
  destruct (map_block pe an Ho) as (x & -> & Hpos). eexists _, w, _. split; [done|]. split; [done|]. by apply HQ.
Qed.

Lemma safe_GetValid want l (Qp : option page_entry -> list Res -> Prop) :
  Qp None l ->
  (forall pe, mapped pe -> Qp (Some pe) (Full (offset pe) (pattern pe) :: l)) ->
  safe (Sat_GetValid s want) l Qp.
Proof using OK LAWS.
  intros Hnone Hsome. apply safe_bind.
  apply (safe_search true _ GNone l); [exact (get_page_safe is_valid want) | done |].
  intros pe. apply safe_bind, safe_map_page; [done|]. intros a Ha Hpos. apply safe_bind, safe_ask.
  intros an. cbn. rewrite (proj2 (Z.eqb_neq _ _)) by lia.
  by apply (Hsome (set_access (set_addr pe a) (timestamp an))).
Qed.

Lemma safe_GetEmpty want l (Qp : option page_entry -> list Res -> Prop) :
  Qp None l -> (forall pe, mapped pe -> Qp (Some pe) (Free (offset pe) :: l)) ->
  safe (Sat_GetEmpty s want) l Qp.
Proof using OK LAWS.
  intros Hnone Hsome. apply safe_bind.
  apply (safe_search false _ GNone l); [exact (get_page_safe is_empty want) | done |].
  intros pe. apply safe_bind, safe_map_page; [done|]. intros a Ha Hpos. cbn.
  rewrite (proj2 (Z.eqb_neq _ _)) by lia. by apply (Hsome (set_addr pe a)).
Qed.

(** A resource for a valid block. *)
Definition holds (o : Z) (pt : option Z) (r : Res) : Prop := r = Full o pt \/ r = Clean o pt.

Lemma holds_facts m o pt r :
  holds o pt r -> held r = [o] /\ probe_of r = [] /\
  (res_ok m r -> page_ok m o pt /\ res_errors m r = errors_at m o pt).
Proof. intros [-> | ->]; (split; [done|]; split; [done|]); cbn; [done|]. by intros [? ->]. Qed.

Lemma safe_PutValid pe r l (Qp : bool -> list Res -> Prop) :
  holds (offset pe) (pattern pe) r -> Qp true l -> safe (Sat_PutValid pe) (r :: l) Qp.
Proof using LAWS.
  intros Hr HQ F w R an (V & E & [H1 H2 H3 H4 H5 H6 H7 Hnn]).
  destruct (holds_facts (memory w) _ _ _ Hr) as (Hh & Hp & Hres). cbn [app] in *.
  apply Forall_cons in H3 as [H3 H3']. destruct (Hres H3) as [Hok He].
  cbn [flat_map] in H1. rewrite Hh, Hp in H1. cbn [app] in H1.
  destruct (put_valid_spec (store w) V E (flat_map held (l ++ R)) (flat_map probe_of (l ++ R))
    (set_addr pe 0)) as (q' & Hput & Hrep).
  { done. }
  { apply bool_decide_eq_true. destruct Hok as (p & Hpat & _). cbn. by destruct (pattern pe). }
  exists true, (set_store w q'), l. rewrite Hput. split; [done|]. split; [|done].
  exists (set_addr pe 0 :: V), E. split; try done.
  - by constructor.
  - cbn [map] in *. cbn [zsum foldr] in *. change (total_errors (set_store w q')) with (total_errors w).
    change (memory (set_store w q')) with (memory w). unfold entry_errors at 1. cbn [offset pattern set_addr].
    rewrite <- He. unfold zsum in H7 |- *. cbn [foldr] in H7 |- *. lia.
Qed.

Lemma safe_PutEmpty pe r l (Qp : bool -> list Res -> Prop) :
  held r = [offset pe] -> (forall m, res_errors m r = 0) -> Qp true l ->
  safe (Sat_PutEmpty pe) (r :: l) Qp.
Proof using LAWS.
  intros Hh Hz HQ F w R an (V & E & [H1 H2 H3 H4 H5 H6 H7 Hnn]).
  assert (Hp : probe_of r = []) by (by destruct r). pose proof (Hz (memory w)) as He. cbn [app] in *. apply Forall_cons in H3 as [_ H3].
  cbn [flat_map] in H1. rewrite Hh, Hp in H1. cbn [app] in H1.
  destruct (put_empty_spec (store w) V E (flat_map held (l ++ R)) (flat_map probe_of (l ++ R))
    (set_write_frequency (set_addr pe 0) (-1))) as (q' & pe' & Hput & _ & _ & Hrep); [done|].
  exists true, (set_store w q'), l. rewrite Hput. split; [done|]. split; [|done].
  exists V, (pe' :: E). split; try done.
  cbn [map] in H7. rewrite He in H7. change (total_errors (set_store w q')) with (total_errors w).
  change (memory (set_store w q')) with (memory w). unfold zsum in *. cbn [foldr] in H7. lia.
Qed.

(** *** Accesses that leave blocks and counts alone *)

Lemma safe_modify (f : Answer -> @Shared Q -> @Shared Q) l (Qp : unit -> list Res -> Prop) :
  (forall F w R an, Inv F w R -> Inv F (f an w) R) -> Qp tt l -> safe (modify f) l Qp.
Proof. intros Hf HQ F w R an Hi. exists tt, (f an w), l. split; [done|]. split; [by apply Hf | done]. Qed.

Lemma same_counts (w : @Shared Q) t wk :
  w_errorcount wk = w_errorcount (worker w t) ->
  map w_errorcount (<[t := wk]> (workers w)) = map w_errorcount (workers w).
Proof.
  intros He. change (map w_errorcount) with (fmap (M := list) w_errorcount).
  rewrite list_fmap_insert, He. destruct (decide (t < length (workers w))%nat) as [Ht|Ht].
  - apply list_insert_id. by rewrite list_lookup_fmap, worker_lookup.
  - apply list_insert_ge. rewrite length_fmap. lia.
Qed.

Lemma safe_get_inv {B} (f : @Shared Q -> B) l (Qp : B -> list Res -> Prop) :
  (forall F w R, Inv F w (l ++ R) -> Qp (f w) l) -> safe (get f) l Qp.
Proof. intros H F w R an Hi. exists (f w), w, l. split; [done|]. split; [done | by eapply H]. Qed.

Lemma inv_plist F w R : Inv F w R -> plist_ok (patternlist_ w).
Proof. intros (V & E & H). apply H. Qed.

Lemma safe_record_operation t ph rd wr e l (Qp : unit -> list Res -> Prop) :
  Qp tt l -> safe (record_operation s t ph rd wr e) l Qp.
Proof.
  intros HQ. unfold record_operation. destruct (diag_phase_summary s); [|done].
  apply safe_modify; [|done]. intros F w R an Hi.
  apply (inv_other F w); try done; [exact (inv_plist _ _ _ Hi) | by apply same_counts].
Qed.

Lemma safe_record_write pe wr t ep l (Qp : unit -> list Res -> Prop) :
  Qp tt l -> safe (record_write s pe wr t ep) l Qp.
Proof.
  intros HQ. unfold record_write. destruct (diag_block_history s); [|done].
  apply safe_modify; [|done]. intros F w R an Hi.
  apply (inv_other F w); try done; exact (inv_plist _ _ _ Hi).
Qed.

Lemma safe_finish t b c by_ l (Qp : unit -> list Res -> Prop) :
  Qp tt l -> safe (finish t b c by_) l Qp.
Proof.
  intros HQ. apply safe_modify; [|done]. intros F w R an Hi.
  apply (inv_other F w); try done; [exact (inv_plist _ _ _ Hi) | by apply same_counts].
Qed.

Lemma safe_epoch_begin l (Qp : Z -> list Res -> Prop) : (forall e, Qp e l) -> safe (epoch_begin s) l Qp.
Proof. intros HQ. unfold epoch_begin. destruct (diag_block_history s); [by apply safe_ask | apply HQ]. Qed.

(** *** Checking *)

Lemma pat_good p pt : pat_at pats pt = Some p -> good_pattern p.
Proof using OK.
  intros H. destruct (so_pats OK) as [Hg _]. rewrite Forall_forall in Hg. apply Hg.
  destruct pt; [|done]. by eapply list_elem_of_lookup_2.
Qed.

(** A block filled with its pattern has no errors. *)
Lemma filled_clean m o pt p :
  pat_at pats pt = Some p -> 0 <= o / 8 -> o / 8 + Z.of_nat pw <= Z.of_nat (length m) ->
  res_ok (filled (PatternFacts.pattern_word p) (o / 8) pw m) (Clean o pt).
Proof using OK.
  intros Hp Ho Hfit.
  assert (Hb : forall lo k, 0 <= lo -> lo + Z.of_nat k <= Z.of_nat pw ->
    bad_words p (o / 8) (filled (PatternFacts.pattern_word p) (o / 8) pw m) lo k = []).
  { intros lo k Hlo Hk. destruct (bad_words _ _ _ _ _) as [|j bl] eqn:Hj; [done|]. exfalso.
    assert (Hin : j ∈ bad_words p (o / 8) (filled (PatternFacts.pattern_word p) (o / 8) pw m) lo k)
      by (rewrite Hj; constructor).
    apply elem_of_bad_words in Hin as [Hr Hne]. apply Hne. apply aget_filled; lia. }
  split.
  - exists p. split; [done|]. intros b Hbb. pose proof pages_4096. rewrite Hb by lia. cbn. lia.
  - unfold Accounting.errors_at. by rewrite Hp, Hb by lia.
Qed.

Lemma filled_pattern_words64 m o pt p :
  pat_at pats pt = Some p -> words64 m -> words64 (filled (PatternFacts.pattern_word p) (o / 8) pw m).
Proof using OK.
  intros Hp Hm. apply (words64_filled (cfg s)); [done|]. intros i Hi. destruct pw_eq as (_ & _ & Hmax).
  apply PatternFacts.pattern_word_bound; [apply (pat_good p pt Hp) | lia].
Qed.

Lemma filled_outside f m o k :
  ~ in_block o (Z.of_nat k) -> filled f (o / 8) pw m !! k = m !! k.
Proof.
  intros Hk. rewrite lookup_filled. unfold in_block in Hk. destruct (m !! k); [|done]. cbn.
  by rewrite decide_False.
Qed.

Lemma pattern_object_at F w R pt : Inv F w R -> pattern_object w pt = pat_at pats pt.
Proof. intros Hi%inv_plist. destruct Hi as (Hp & _). unfold pattern_object, pat_at. by rewrite Hp. Qed.

Lemma thread_total (w : @Shared Q) t st :
  (t < length (workers w))%nat ->
  total_errors (thread_update w t st) = total_errors w - w_errorcount (worker w t) + errorcount_ st.
Proof. intros Ht. by erewrite (total_errors_update w (thread_update w t st)) by done. Qed.

Lemma page_length_facts : 0 <= psize < 2 ^ 31 /\ psize mod 8 = 0.
Proof using OK.
  destruct OK as [_ _ [H1 H2] _ _ _ _ _]. split; [lia|].
  apply Z.mod_divide; [lia|]. apply Z.mod_divide in H2; [|lia]. apply Z.divide_trans with 64; [by exists 8 | done].
Qed.

(** [CrcCheckPage] on a block in hand, for any configuration with its block length, and a
    thread record that sees the memory; [st''] is what the thread makes of the result. *)
Lemma checked_block c F w t st pe r wn ph R :
  page_length c = psize -> tag_mode_ c = false -> mem st = memory w -> (t < nw)%nat ->
  holds (offset pe) (pattern pe) r -> Inv F w (r :: R) ->
  exists src st' e, source_of w pe wn ph = Some src /\
    CrcCheckPage c st (patternlist_ w) src (offset pe / 8) = Some (st', e) /\
    errorcount_ st' = errorcount_ st + e /\ (r = Clean (offset pe) (pattern pe) -> e = 0) /\
    forall st'', mem st'' = mem st' -> errorcount_ st'' = w_errorcount (worker w t) + e ->
      Inv F (thread_update w t st'') (Clean (offset pe) (pattern pe) :: R).
Proof using OK LAWS.
  intros Hc Htag Hm Ht Hr Hi. destruct (holds_facts (memory w) _ _ _ Hr) as (Hh & Hp & Hres).
  destruct (held_block _ _ _ _ _ Hi Hh) as (Ho & Ho8 & Hfit).
  destruct Hi as (V & E & Hi). pose proof (iv_res _ _ _ _ _ Hi) as [Hrok _]%Forall_cons.
  pose proof (iv_mem _ _ _ _ _ Hi) as [Hw64 Hlen]. pose proof (iv_workers _ _ _ _ _ Hi) as Hnw.
  assert (HI : Inv F w (r :: R)) by (by exists V, E). clear Hi.
  destruct (Hres Hrok) as [(p & Hpat & Hsp) He]. destruct pw_eq as (Hpw & _ & _).
  destruct page_length_facts as [Hl H8].
  unfold source_of. rewrite (pattern_object_at F w _ _ HI), Hpat.
  destruct (CrcCheckPage_spec c p (pat_good _ _ Hpat) (offset pe / 8) Ho8 Htag st (patternlist_ w)
    (mkSource p (default 0 (pattern pe)) (PageQueue.lastcpu pe) (write_dram_frequency pe) (offset pe) wn ph))
    as (st' & Hck & [Rm Rc _ _]); rewrite ?Hc, ?Hm in *; try done; [lia|].
  assert (Hwords : page_words c = pw) by (unfold page_words; by rewrite Hc). rewrite Hwords in *.
  eexists _, st', _. split; [done|]. split; [exact Hck|]. split; [exact Rc|]. split.
  { intros ->. destruct Hrok as [_ Hz]. unfold Accounting.errors_at in Hz. by rewrite Hpat in Hz. }
  rewrite Z.add_0_r in Rm. intros st'' Em Ec.
  assert (Rm' : mem st'' = filled (PatternFacts.pattern_word p) (offset pe / 8) pw (memory w)) by (rewrite Em; exact Rm).
  apply (inv_update F w _ [r] [Clean (offset pe) (pattern pe)] R HI);
    cbn [flat_map app]; rewrite ?Hh, ?Hp; try done.
  - exact (inv_plist _ _ _ HI).
  - apply length_insert.
  - cbn [memory thread_update]. rewrite Rm'. by apply (filled_pattern_words64 _ _ _ p Hpat).
  - cbn [memory thread_update]. by rewrite Rm', length_filled.
  - intros k Hk. cbn [memory thread_update]. rewrite Rm'. apply filled_outside, Hk.
    by apply list_elem_of_singleton.
  - rewrite Forall_singleton. cbn [memory thread_update]. rewrite Rm'. by apply filled_clean.
  - rewrite thread_total by lia. unfold zsum. cbn [map foldr res_errors]. rewrite He, Ec.
    unfold Accounting.errors_at. rewrite Hpat. lia.
  - rewrite thread_total by lia. rewrite Ec. lia.
Qed.

Lemma safe_check_page t pe r wn ph l (Qp : Z -> list Res -> Prop) :
  (t < nw)%nat -> mapped pe -> holds (offset pe) (pattern pe) r ->
  (forall e, Qp e (Clean (offset pe) (pattern pe) :: l)) -> safe (check_page s t pe wn ph) (r :: l) Qp.
Proof using OK LAWS.
  intros Ht Hmap Hr HQ F w R an Hi. cbn [app] in Hi.
  destruct (checked_block (cfg_at s an) F w t (thread_view w t) pe r wn ph (l ++ R) eq_refl (so_tag OK) eq_refl Ht Hr Hi)
    as (src & st' & e & -> & Hc & He & _ & Hinv).
  rewrite (mapped_base pe Hmap), Hc. eexists _, _, (Clean (offset pe) (pattern pe) :: l). split; [done|].
  split; [|apply HQ]. by apply Hinv.
Qed.

(** *** Filling *)

(** One held block gets new contents. *)
Lemma inv_write F w r r' R o m' :
  Inv F w (r :: R) -> held r = [o] -> probe_of r = [] -> held r' = [o] -> probe_of r' = [] ->
  words64 m' -> length m' = length (memory w) ->
  (forall k, ~ in_block o (Z.of_nat k) -> m' !! k = memory w !! k) ->
  res_ok m' r' -> res_errors m' r' = res_errors (memory w) r -> Inv F (set_memory w m') (r' :: R).
Proof using OK LAWS.
  intros Hi Hh Hp Hh' Hp' Hw Hlen Hout Hok He.
  apply (inv_update F w _ [r] [r'] R Hi); cbn [flat_map app]; rewrite ?Hh, ?Hp, ?Hh', ?Hp'; try done.
  - exact (inv_plist _ _ _ Hi).
  - intros k Hk. apply Hout, Hk. by apply list_elem_of_singleton.
  - by constructor.
  - change (total_errors (set_memory w m')) with (total_errors w). cbn [map memory set_memory].
    by rewrite He.
Qed.

Lemma safe_fill_page pe p l (Qp : bool * page_entry -> list Res -> Prop) :
  mapped pe -> pat_at pats (pattern pe) = Some p ->
  (forall pe', mapped pe' -> offset pe' = offset pe -> pattern pe' = pattern pe ->
     Qp (true, pe') (Clean (offset pe) (pattern pe) :: l)) ->
  safe (fill_page s pe) (Free (offset pe) :: l) Qp.
Proof using OK LAWS.
  intros Hmap Hpat HQ F w R an Hi. cbn [app] in Hi.
  destruct (held_block _ _ _ _ _ Hi eq_refl) as (Ho & Ho8 & Hfit). destruct pw_eq as (_ & _ & Hmax).
  destruct page_length_facts as [Hl _]. pose proof (pat_good _ _ Hpat) as Hg.
  assert (Hm64 : words64 (memory w)) by (destruct Hi as (? & ? & Hi); apply Hi).
  rewrite (pattern_object_at F w _ _ Hi), Hpat. cbn [FillPage]. rewrite (mapped_base pe Hmap).
  rewrite FillPage_filled by (done || apply Hg || lia).
  rewrite (filled_ext _ (PatternFacts.pattern_word p)).
  2: { intros i Hr. apply general_plain; [apply (so_tag OK) | lia]. }
  eexists _, _, (Clean (offset pe) (pattern pe) :: l). split; [done|]. split; [|by apply HQ].
  apply (inv_write F w (Free (offset pe)) _ _ (offset pe)); try done.
  - by apply (filled_pattern_words64 _ _ _ p Hpat).
  - apply length_filled.
  - intros k. apply filled_outside.
  - by apply filled_clean.
Qed.

Lemma random_pattern pl rand :
  plist_ok pl -> 0 <= rand ->
  exists i pl', Patterns.GetRandomPattern pl rand = (Some i, pl') /\ plist_ok pl' /\ choice_ok i.
Proof.
  intros (Hp & Hs & Hids & Hw) Hr. unfold Patterns.GetRandomPattern.
  destruct (Patterns.selected_pattern_ids_ pl) as [|id ids] eqn:Hsel.
  - destruct (Hw rand Hr) as (i & Hi & Hloop). exists i, pl. rewrite Hp, Hloop. split; [done|].
    split; [|done]. split; [done|]. split; [done|]. split; [by rewrite Hsel | done].
  - eexists _, _. split; [done|]. split; [done|]. unfold aget.
    pose proof (Z.mod_pos_bound (Patterns.selected_pattern_cursor_ pl) (Z.of_nat (length (id :: ids)))
      ltac:(cbn; lia)) as Hc.
    destruct (lookup_lt_is_Some_2 (id :: ids) (Z.to_nat (Patterns.selected_pattern_cursor_ pl
      mod Z.of_nat (length (id :: ids))))) as [x Hx]; [lia|].
    rewrite (nth_lookup_Some _ _ _ _ Hx). rewrite Forall_forall in Hids.
    apply Hids. by eapply list_elem_of_lookup_2.
Qed.

Lemma choice_pattern i : choice_ok i -> exists p, pat_at pats (Some i) = Some p.
Proof. intros [H1 H2]. cbn. apply lookup_lt_is_Some_2. lia. Qed.

Lemma safe_FillPageRandom pe l (Qp : bool * page_entry -> list Res -> Prop) :
  mapped pe ->
  (forall pe', mapped pe' -> offset pe' = offset pe ->
     Qp (true, pe') (Clean (offset pe') (pattern pe') :: l)) ->
  safe (FillPageRandom s false pe) (Free (offset pe) :: l) Qp.
Proof using OK LAWS.
  intros Hmap HQ. unfold FillPageRandom. apply safe_bind, safe_get_inv. intros F0 w0 R0 Hi0.
  destruct (inv_plist _ _ _ Hi0) as (_ & Hsz & _). rewrite (proj2 (Z.eqb_neq _ _) Hsz).
  apply safe_bind. intros F w R an Hi.
  destruct (random_pattern (patternlist_ w) (Z.of_N (random an)) (inv_plist _ _ _ Hi) ltac:(lia))
    as (i & pl' & -> & Hpl & Hc).
  eexists (Some i), _, (Free (offset pe) :: l). split; [done|].
  split; [by apply (inv_other F w)|]. destruct (choice_pattern i Hc) as [p Hp].
  apply (safe_fill_page (set_pattern pe (Some i)) p l Qp); [done | done |].
  intros pe' Hm Ho Hpt. cbn [offset pattern set_pattern] in *. rewrite <- Ho, <- Hpt. by apply HQ.
Qed.

(** Between two turns of [FillThread::Work] nothing is held. *)
Lemma safe_fill_turn t num loops :
  (t < nw)%nat -> safe (fill_turn s t false num loops) [] (fun _ l => l = []).
Proof using OK LAWS.
  intros Ht. unfold fill_turn. apply safe_bind, safe_ask. intros an.
  destruct (negb _); [done|]. apply safe_bind, safe_GetEmpty; [done|]. intros pe Hm.
  apply safe_bind, safe_epoch_begin. intros ep. apply safe_bind, safe_FillPageRandom; [done|].
  intros pe' Hm' Ho. cbn [negb]. apply safe_bind, safe_record_write.
  apply safe_bind, safe_record_operation. apply safe_bind, safe_get. intros w. apply safe_bind.
  set (l := [Clean (offset pe') (pattern pe')]).
  assert (Hput : safe (put <- Sat_PutValid pe';; Ret (if put then inl (loops + 1) else inr (false, loops)))%prog
    l (fun _ l => l = [])).
  { apply safe_bind. apply safe_PutValid; [by right | done]. }
  destruct (_ && _); [|exact Hput]. apply safe_bind. apply safe_check_page; [done | done | by right |].
  intros e. apply safe_record_operation. exact Hput.
Qed.

(** *** Copying *)

(** Two blocks in hand are apart. *)
Lemma two_blocks F w r r' R o o' :
  Inv F w (r :: r' :: R) -> held r = [o] -> probe_of r = [] -> held r' = [o'] ->
  o' / 8 + Z.of_nat pw <= o / 8 \/ o / 8 + Z.of_nat pw <= o' / 8.
Proof using OK LAWS.
  intros (V & E & Hi) Hh Hp Hh'.
  destruct (inv_disjoint F w [r] (r' :: R) V E Hi) as (Hb & Hb' & Hne);
    [cbn [flat_map app]; by rewrite Hp|].
  cbn [flat_map app] in *. rewrite Hh in *.
  assert (Ho : o ∈ [o] ++ []) by (cbn; by apply list_elem_of_singleton).
  assert (Ho' : o' ∈ map offset V ++ flat_map footprint (r' :: R)).
  { apply elem_of_app. right. cbn [flat_map]. unfold footprint at 1. rewrite Hh'. cbn. by left. }
  pose proof (Hne o o' Ho Ho') as Hoo.
  destruct (block_bound o (Hb o Ho)) as (i & -> & Hi1 & -> & _).
  destruct (block_bound o' (Hb' o' Ho')) as (j & -> & Hj1 & -> & _).
  assert (i <> j) by congruence. nia.
Qed.

(** The end of the checked copies: both blocks hold the pattern, and its errors are counted. *)
Lemma inv_copied F w t st l dst src pt p :
  Inv F w (Free dst :: Full src pt :: l) -> (t < nw)%nat -> pat_at pats pt = Some p ->
  mem st = filled (PatternFacts.pattern_word p) (dst / 8) pw
             (filled (PatternFacts.pattern_word p) (src / 8) pw (memory w)) ->
  errorcount_ st = w_errorcount (worker w t) + errors_at (memory w) src pt ->
  Inv F (thread_update w t st) (Clean dst pt :: Free src :: l).
Proof using OK LAWS.
  intros Hi Ht Hp Hm He.
  destruct (held_block _ _ _ _ _ Hi eq_refl) as (_ & Hd8 & Hdfit).
  assert (Hw : words64 (memory w) /\ length (workers w) = nw)
    by (destruct Hi as (? & ? & Hi); split; apply Hi). destruct Hw as [Hw64 Hnw].
  apply (inv_update F w _ [Free dst; Full src pt] [Clean dst pt; Free src] l Hi); try done;
    cbn [memory thread_update workers store].
  - exact (inv_plist _ _ _ Hi).
  - apply length_insert.
  - rewrite Hm. by do 2 apply (filled_pattern_words64 _ _ pt p Hp).
  - by rewrite Hm, !length_filled.
  - intros k Hk. rewrite Hm, !filled_outside; [done | apply Hk | apply Hk]; cbn; [right; left | left].
  - rewrite Hm. repeat constructor; apply filled_clean; rewrite ?length_filled; done.
  - rewrite thread_total by lia. unfold zsum. cbn [map foldr res_errors]. lia.
  - rewrite thread_total, He by lia. unfold Accounting.errors_at. destruct (pat_at pats pt); lia.
Qed.

Lemma safe_copy_checked t k dst src l (Qp : Z * page_entry -> list Res -> Prop)
    (op : Answer -> Thread -> Patterns.PatternList -> Source -> option (Thread * page_entry * Z)) :
  (t < nw)%nat -> mapped dst -> mapped src ->
  (forall an, copies (kind_fn (k an))) ->
  (forall an st pl so, op an st pl so =
     match Worker.copy_page (cfg_at s an) (k an) st pl so (page_base (cfg s) dst) (page_base (cfg s) src) with
     | Some (st, errors) => Some (finish_copy (cfg_at s an) st errors so dst src (readings an))
     | None => None
     end) ->
  (forall e dst', mapped dst' -> offset dst' = offset dst -> pattern dst' = pattern src ->
     Qp (e, dst') (Clean (offset dst') (pattern dst') :: Free (offset src) :: l)) ->
  safe (on_thread t (fun an w st =>
          match source_of w src "copy" "source_check" with
          | None => None
          | Some so => match op an st (patternlist_ w) so with
                       | Some (st, dst, errors) => Some ((errors, dst), st)
                       | None => None
                       end
          end)) (Free (offset dst) :: Full (offset src) (pattern src) :: l) Qp.
Proof using OK LAWS.
  intros Ht Hmd Hms Hk Hop HQ F w R an Hi. cbn [app] in Hi.
  pose proof (two_blocks _ _ _ _ _ _ _ Hi eq_refl eq_refl eq_refl) as Hdis.
  destruct (held_block _ _ _ _ _ Hi eq_refl) as (_ & Hd8 & Hdfit).
  assert (Hi' : Inv F w (Full (offset src) (pattern src) :: Free (offset dst) :: l ++ R))
    by (by rewrite Permutation_swap).
  destruct (held_block _ _ _ _ _ Hi' eq_refl) as (_ & Hs8 & Hsfit). clear Hi'.
  assert (Hw : words64 (memory w) /\ page_ok (memory w) (offset src) (pattern src)).
  { destruct Hi as (V & E & Hi). pose proof (iv_res _ _ _ _ _ Hi) as [_ [Hr _]%Forall_cons]%Forall_cons.
    split; [apply Hi | exact Hr]. }
  destruct Hw as (Hw64 & p & Hpat & Hsp). destruct pw_eq as (_ & _ & Hmax).
  destruct page_length_facts as [Hl H8].
  unfold source_of. rewrite (pattern_object_at F w _ _ Hi), Hpat, Hop.
  rewrite (mapped_base dst Hmd), (mapped_base src Hms).
  destruct (copy_page_spec (cfg_at s an) p (pat_good _ _ Hpat) (offset src / 8) (offset dst / 8) Hs8 Hd8
    (so_tag OK) ltac:(exact Hdis) ltac:(change (page_words (cfg_at s an)) with pw; lia) (k an) (thread_view w t) (patternlist_ w)
    (mkSource p (default 0 (pattern src)) (PageQueue.lastcpu src) (write_dram_frequency src) (offset src)
       "copy" "source_check") dst src (readings an)) as (st1 & st2 & -> & -> & Hm & He);
    try done; [apply (mapped_base dst Hmd)|].
  eexists _, _, (Clean (offset dst) (pattern src) :: Free (offset src) :: l). split; [done|]. split.
  - cbn [app]. apply (inv_copied F w t st2 _ _ _ _ p Hi Ht Hpat Hm).
    rewrite He. unfold Accounting.errors_at. by rewrite Hpat.
  - exact (HQ _ (set_written dst (pattern src) _ _) Hmd eq_refl eq_refl).
Qed.

(** [memcpy] moves the errors along with the data. *)
Lemma safe_copy_plain dst src l (f : Answer -> page_entry) (Qp : Z * page_entry -> list Res -> Prop) :
  mapped dst -> mapped src -> 
  (forall an, Qp (0, f an) (Full (offset dst) (pattern src) :: Free (offset src) :: l)) ->
  safe (act (fun an w =>
    Some ((0, f an), set_memory w (memcpy (memory w) (page_base (cfg s) dst) (page_base (cfg s) src) psize))))
    (Free (offset dst) :: Full (offset src) (pattern src) :: l) Qp.
Proof using OK LAWS.
  intros Hmd Hms HQ F w R an Hi. cbn [app] in Hi.
  pose proof (two_blocks _ _ _ _ _ _ _ Hi eq_refl eq_refl eq_refl) as Hdis.
  destruct (held_block _ _ _ _ _ Hi eq_refl) as (_ & Hd8 & Hdfit).
  assert (Hi' : Inv F w (Full (offset src) (pattern src) :: Free (offset dst) :: l ++ R))
    by (by rewrite Permutation_swap).
  destruct (held_block _ _ _ _ _ Hi' eq_refl) as (_ & Hs8 & Hsfit). clear Hi'.
  assert (Hw : words64 (memory w) /\ page_ok (memory w) (offset src) (pattern src)).
  { destruct Hi as (V & E & Hi). pose proof (iv_res _ _ _ _ _ Hi) as [_ [Hr _]%Forall_cons]%Forall_cons.
    split; [apply Hi | exact Hr]. }
  destruct Hw as (Hw64 & p & Hpat & Hsp). destruct pw_eq as (Hpw & _ & Hmax).
  destruct page_length_facts as [Hl H8].
  rewrite (mapped_base dst Hmd), (mapped_base src Hms), memcpy_filled by lia.
  change (Z.to_nat (psize / 8)) with pw.
  set (m' := filled _ _ _ _).
  assert (Hbad : forall lo k, 0 <= lo -> lo + Z.of_nat k <= Z.of_nat pw ->
    bad_words p (offset dst / 8) m' lo k = bad_words p (offset src / 8) (memory w) lo k).
  { intros lo k Hlo Hk. apply filter_ext_in. intros j Hj%elem_of_zrange. unfold m'.
    by rewrite aget_filled by lia. }
  eexists _, _, (Full (offset dst) (pattern src) :: Free (offset src) :: l).
  split; [done|]. split; [|apply HQ].
  apply (inv_update F w _ [Free (offset dst); Full (offset src) (pattern src)]
    [Full (offset dst) (pattern src); Free (offset src)] (l ++ R) Hi); try done; cbn [memory set_memory].
  - exact (inv_plist _ _ _ Hi).
  - apply (words64_filled (cfg s)); [done|]. intros i _. by apply (words64_aget (cfg s)).
  - apply length_filled.
  - intros k Hk. apply filled_outside, Hk. cbn. left.
  - constructor; [|by constructor]. exists p. split; [done|]. intros b Hb. pose proof pages_4096.
    rewrite Hbad by lia. by apply Hsp.
  - change (total_errors (set_memory w m')) with (total_errors w). unfold zsum. cbn [map foldr res_errors].
    unfold Accounting.errors_at. rewrite Hpat, Hbad by lia. lia.
Qed.

Lemma safe_copy_page t dst src l (Qp : Z * page_entry -> list Res -> Prop) :
  (t < nw)%nat -> mapped dst -> mapped src ->
  (forall e dst' r, mapped dst' -> holds (offset dst') (pattern dst') r ->
     Qp (e, dst') (r :: Free (offset src) :: l)) ->
  safe (copy_page s t dst src) (Free (offset dst) :: Full (offset src) (pattern src) :: l) Qp.
Proof using OK LAWS.
  intros Ht Hmd Hms HQ. unfold copy_page. destruct (warm s); [|destruct (strict s)].
  - apply (safe_copy_checked t (fun an => Warm (AdlerMemcpyWarm (has_vector s) (registers an))) dst src l Qp
      (fun an st pl so => CrcWarmCopyPage (cfg_at s an) (AdlerMemcpyWarm (has_vector s) (registers an)) st
                            pl so dst src (readings an)) Ht Hmd Hms).
    + intros an. apply AdlerMemcpyWarm_copies.
    + intros an st pl so. reflexivity.
    + intros e dst' Hm' Ho Hpt. apply HQ; [done | by right].
  - apply (safe_copy_checked t (fun _ => Plain) dst src l Qp
      (fun an st pl so => CrcCopyPage (cfg_at s an) st pl so dst src (readings an)) Ht Hmd Hms).
    + intros an. apply AdlerMemcpyC_copies.
    + intros an st pl so. reflexivity.
    + intros e dst' Hm' Ho Hpt. apply HQ; [done | by right].
  - rewrite (so_tag OK).
    apply (safe_copy_plain dst src l (fun an => set_written dst (pattern src) (cpu an) (frequency an)));
      [done | done |].
    intros an. apply (HQ 0 (set_written dst (pattern src) (cpu an) (frequency an))); [done | by left].
Qed.

(** *** Inverting *)

Lemma unhalves_inverted m b k c :
  words64 m ->
  unhalves (imap (fun i w => if decide (2 * b <= 2 * c + Z.of_nat i < 2 * b + 2 * k) then not32 w else w)
              (halves m)) =
  imap (fun i w => if decide (b <= c + Z.of_nat i < b + k) then not64 w else w) m.
Proof.
  revert c. induction m as [|w m IH]; intros c Hm; [done|]. apply Forall_cons in Hm as [Hw Hm].
  cbn [halves flat_map app]. fold (halves m). rewrite !imap_cons. cbn [unhalves].
  f_equal.
  - assert (Hcase : (2 * b <= 2 * c + Z.of_nat 0 < 2 * b + 2 * k <-> b <= c + Z.of_nat 0 < b + k) /\
      (2 * b <= 2 * c + Z.of_nat 1 < 2 * b + 2 * k <-> b <= c + Z.of_nat 0 < b + k)) by lia.
    pose proof (l64_split w Hw) as Hsp. unfold l64 in *. unfold compose. repeat case_decide; try lia.
    unfold not32, not64. lia.
  - rewrite (imap_ext _ (fun i w => if decide (2 * b <= 2 * (c + 1) + Z.of_nat i < 2 * b + 2 * k)
      then not32 w else w)).
    + rewrite (IH (c + 1) Hm). apply imap_ext. intros i x _. cbn. repeat case_decide; (done || lia).
    + intros i x _. cbn. repeat case_decide; (done || lia).
Qed.

(** [InvertPageUp] and [InvertPageDown] complement the range, word by word. *)
Lemma invert_pass_turn pass o m :
  pass = Invert.InvertPageUp \/ pass = Invert.InvertPageDown ->
  words64 m -> 0 <= o / 8 -> o / 8 + Z.of_nat pw <= Z.of_nat (length m) ->
  exists m32, pass (invert_range s) psize (2 * (o / 8)) (halves m) = Some m32 /\ unhalves m32 = turn m o.
Proof using OK.
  intros Hpass Hm Ho Hfit. destruct page_length_facts as [Hl _].
  destruct (so_len OK) as [_ H64]. destruct pw_eq as (Hpw & Hpw8 & _).
  destruct (InvertFacts.invert_range_words (invert_range s) psize) as (k & Hk & _); [lia | done|].
  assert (Hlen : length (halves m) = (2 * length m)%nat).
  { clear. induction m as [|w m IH]; [done|]. cbn [halves flat_map length app]. fold (halves m). lia. }
  destruct (InvertFacts.InvertPage_ok (invert_range s) psize (2 * (o / 8)) (halves m)) as [Hu Hd];
    [lia | done | lia | rewrite Hlen; pose proof (Z.div_mod psize 4); pose proof (Z.mod_pos_bound psize 4); lia |].
  cbv zeta in Hu, Hd. eexists. split; [destruct Hpass as [-> | ->]; [exact Hu | exact Hd]|].
  unfold InvertFacts.inverted, turn, range_bytes, page_length_.
  set (rb := Invert.invert_range_bytes (invert_range s) psize) in *.
  assert (Hr8 : rb / 8 = 8 * Z.of_nat k).
  { replace 8 with (4 * 2) by lia. rewrite <- Z.div_div by lia. rewrite Hk.
    replace (Z.of_nat (k * 16)) with (8 * Z.of_nat k * 2) by lia. rewrite Z.div_mul; lia. }
  rewrite Hk, Hr8, Nat2Z.id.
  transitivity (imap (fun i w => if decide (o / 8 <= 0 + Z.of_nat i < o / 8 + 8 * Z.of_nat k)
                                 then not64 w else w) m).
  - rewrite <- unhalves_inverted by done. f_equal. apply imap_ext. intros i x _. cbn.
    repeat case_decide; (done || lia).
  - unfold filled. apply imap_ext. intros i x Hx. cbn. repeat case_decide; try done; try lia.
    f_equal. replace (o / 8 + (Z.of_nat i - o / 8)) with (Z.of_nat i) by lia. unfold aget.
    by rewrite Nat2Z.id, (nth_lookup_Some _ _ _ _ Hx).
Qed.

Lemma range_fits : Z.of_nat (Z.to_nat (range_bytes s / 8)) <= Z.of_nat pw.
Proof using OK.
  destruct page_length_facts as [Hl _]. destruct (so_len OK) as [_ H64]. destruct pw_eq as (Hpw & Hpw8 & _).
  destruct (InvertFacts.invert_range_words (invert_range s) psize) as (k & Hk & Hle); [lia | done|].
  unfold range_bytes, page_length_. set (rb := Invert.invert_range_bytes (invert_range s) psize) in *.
  replace 8 with (4 * 2) by lia. rewrite <- Z.div_div, Hk by lia.
  pose proof (Z.div_mod psize 4). pose proof (Z.mod_pos_bound psize 4).
  replace (Z.of_nat (k * 16)) with (8 * Z.of_nat k * 2) by lia. rewrite Z.div_mul by lia. lia.
Qed.

Lemma turn_outside m o k : ~ in_block o (Z.of_nat k) -> turn m o !! k = m !! k.
Proof using OK.
  intros Hk. pose proof range_fits. unfold turn. rewrite lookup_filled. unfold in_block in Hk.
  destruct (m !! k); [|done]. cbn. by rewrite decide_False by lia.
Qed.

Lemma turn_words64 m o : words64 m -> words64 (turn m o).
Proof.
  intros Hm. apply (words64_filled (cfg s)); [done|]. intros i _.
  pose proof (words64_aget (cfg s) m (o / 8 + i) Hm). unfold not64. lia.
Qed.

Lemma turn_turn m o :
  0 <= o / 8 -> o / 8 + Z.of_nat pw <= Z.of_nat (length m) -> turn (turn m o) o = m.
Proof using OK.
  intros Ho Hfit. pose proof range_fits. apply list_eq. intros k. unfold turn at 1.
  rewrite lookup_filled. unfold turn at 2. rewrite lookup_filled.
  destruct (m !! k) as [x|] eqn:Hx; [|done]. cbn. case_decide as Hd; [|done]. f_equal.
  unfold turn. rewrite aget_filled by lia. unfold not64.
  replace (o / 8 + (Z.of_nat k - o / 8)) with (Z.of_nat k) by lia. unfold aget.
  rewrite Nat2Z.id, (nth_lookup_Some _ _ _ _ Hx). lia.
Qed.

(** One pass: a valid block becomes a turned one, and back. *)
Lemma safe_invert_page pass pe r r' l (Qp : page_entry -> list Res -> Prop) :
  pass = Invert.InvertPageUp \/ pass = Invert.InvertPageDown -> mapped pe ->
  (holds (offset pe) (pattern pe) r /\ r' = Turned (offset pe) (pattern pe) \/
   r = Turned (offset pe) (pattern pe) /\ r' = Full (offset pe) (pattern pe)) ->
  (forall pe', mapped pe' -> offset pe' = offset pe -> pattern pe' = pattern pe -> Qp pe' (r' :: l)) ->
  safe (invert_page s pass pe) (r :: l) Qp.
Proof using OK LAWS.
  intros Hpass Hmap Hr HQ F w R an Hi. cbn [app] in Hi.
  assert (Hh : held r = [offset pe] /\ probe_of r = [] /\ held r' = [offset pe] /\ probe_of r' = [])
    by (by destruct Hr as [[[-> | ->] ->] | [-> ->]]).
  destruct Hh as (Hh & Hp & Hh' & Hp').
  destruct (held_block _ _ _ _ _ Hi Hh) as (_ & Ho8 & Hfit).
  assert (Hw : words64 (memory w) /\ res_ok (memory w) r).
  { destruct Hi as (V & E & Hi). pose proof (iv_res _ _ _ _ _ Hi) as [Hr' _]%Forall_cons.
    split; [apply Hi | exact Hr']. }
  destruct Hw as [Hw64 Hok].
  destruct (invert_pass_turn pass (offset pe) (memory w) Hpass Hw64 Ho8 Hfit) as (m32 & Hm & Hu).
  rewrite (mapped_base pe Hmap). unfold page_length_. rewrite Hm.
  eexists _, _, (r' :: l). split; [done|]. split.
  - rewrite Hu. apply (inv_write F w r r' (l ++ R) (offset pe)); try done.
    + by apply turn_words64.
    + apply length_filled.
    + intros k. apply turn_outside.
    + destruct Hr as [[Hr ->] | [-> ->]]; [|done]. cbn. rewrite turn_turn by done.
      by apply (holds_facts _ _ _ _ Hr).
    + destruct Hr as [[Hr ->] | [-> ->]]; [|done]. cbn. rewrite turn_turn by done. symmetry.
      by apply (holds_facts _ _ _ _ Hr).
  - exact (HQ (set_written pe (pattern pe) (cpu an) (frequency an)) Hmap eq_refl eq_refl).
Qed.

(** ** The threads: between two turns of a loop nothing is held *)

Lemma safe_running l (A : Type) (k : bool -> Prog Answer Shared A) (Qp : A -> list Res -> Prop) :
  (forall b, safe (k b) l Qp) ->
  safe (running <- IsReadyToRun;; stop <- (if (running : bool) then error_stop_requested else Ret true);; k stop)%prog
    l Qp.
Proof.
  intros Hk. apply safe_bind, safe_ask. intros an. apply safe_bind.
  destruct (ready an); [apply safe_get; intros w; apply Hk | apply Hk].
Qed.

Lemma safe_check_turn t phase st :
  (t < nw)%nat -> safe (check_turn s t phase st) [] (fun _ l => l = []).
Proof using OK LAWS.
  intros Ht. destruct st as [draining loops]. unfold check_turn.
  set (final := String.eqb phase "final_check"). set (legacy := negb final && legacy_final_check_mode s).
  clearbody final legacy.
  apply safe_bind, safe_get. intros w0. destruct (error_stop_requested_ w0); [done|].
  apply safe_bind. apply (safe_mono _ _ _ (fun _ l => l = [])).
  2: { destruct (_ && _); [by apply safe_ask | done]. }
  intros running l ->. destruct running; cbn [negb]; [|done].
  apply safe_bind, safe_GetValid.
  { apply safe_bind. destruct final; [done|]. destruct legacy; [by apply safe_ask | done]. }
  intros pe Hm. apply safe_bind. apply safe_check_page; [done | done | by left |]. intros e.
  apply safe_bind, safe_record_operation. apply safe_bind.
  set (c := [Clean (offset pe) (pattern pe)]). apply (safe_mono _ _ _ (fun _ l => l = c)).
  2: { destruct final; [done|]. by apply safe_bind, safe_ask. }
  intros stopped l ->. apply safe_bind. apply (safe_mono _ _ _ (fun _ l => l = c)).
  2: { destruct final; [done|]. destruct (_ && _); [|done]. by apply safe_bind, safe_get. }
  intros to_empty l ->. destruct to_empty; apply safe_bind.
  - apply safe_PutEmpty; [done..].
  - apply safe_PutValid; [by right | done].
Qed.

Lemma safe_copy_turn t tag_ loops :
  (t < nw)%nat -> safe (copy_turn s t tag_ loops) [] (fun _ l => l = []).
Proof using OK LAWS.
  intros Ht. unfold copy_turn. apply safe_running. intros stop. destruct stop; [done|].
  apply safe_bind, safe_GetValid; [done|]. intros src Hms. apply safe_bind, safe_GetEmpty.
  { apply safe_bind, safe_PutValid; [by left | done]. }
  intros dst Hmd. apply safe_bind. unfold inject_error. rewrite (so_inject OK).
  apply safe_bind, safe_epoch_begin. intros ep. apply safe_bind.
  apply safe_copy_page; [done | done | done |]. intros e dst' r Hm' Hr.
  apply safe_bind, safe_record_write. apply safe_bind, safe_record_operation. apply safe_bind.
  assert (Hput : forall r, holds (offset dst') (pattern dst') r ->
    safe (dst_returned <- Sat_PutValid dst';; src_returned <- Sat_PutEmpty src;;
          Ret (if dst_returned && src_returned then inl (loops + 1) else inr (false, loops)))%prog
      [r; Free (offset src)] (fun _ l => l = [])).
  { intros r' Hr'. apply safe_bind. apply safe_PutValid; [done|].
    apply safe_bind. apply safe_PutEmpty; [done..]. }
  destruct (copy_verify_destination s); [|by apply Hput].
  apply safe_bind. apply safe_check_page; [done | done | done |]. intros e'.
  apply safe_record_operation. apply Hput. by right.
Qed.

Lemma safe_check_strict t pe phase slot r l (Qp : unit -> list Res -> Prop) :
  (t < nw)%nat -> mapped pe -> holds (offset pe) (pattern pe) r ->
  (forall r', holds (offset pe) (pattern pe) r' -> Qp tt (r' :: l)) ->
  safe (check_strict s t pe phase slot) (r :: l) Qp.
Proof using OK LAWS.
  intros Ht Hm Hr HQ. unfold check_strict. destruct (strict s); [|by apply HQ].
  apply safe_bind. apply safe_check_page; [done | done | done |]. intros e.
  apply safe_record_operation, HQ. by right.
Qed.

Lemma safe_invert_turn t loops :
  (t < nw)%nat -> safe (invert_turn s t loops) [] (fun _ l => l = []).
Proof using OK LAWS.
  intros Ht. unfold invert_turn. apply safe_running. intros stop. destruct stop; [done|].
  apply safe_bind, safe_GetValid; [done|]. intros pe Hm. apply safe_bind.
  apply safe_check_strict; [done | done | by left |]. intros r Hr.
  apply safe_bind, safe_epoch_begin. intros ep.
  apply safe_bind. eapply safe_invert_page; [by left | done | left; split; [exact Hr | done] |].
  intros pe1 Hm1 <- <-. apply safe_bind.
  eapply safe_invert_page; [by right | done | by right |]. intros pe2 Hm2 <- <-. apply safe_bind.
  eapply safe_invert_page; [by right | done | left; split; [by left | done] |]. intros pe3 Hm3 <- <-. apply safe_bind.
  eapply safe_invert_page; [by left | done | by right |]. intros pe4 Hm4 <- <-.
  apply safe_bind, safe_record_write. apply safe_bind, safe_record_operation. apply safe_bind.
  apply safe_check_strict; [done | done | by left |]. intros r' Hr'. apply safe_bind.
  apply safe_PutValid; done.
Qed.

Lemma safe_work {S} fuel (turn_ : S -> Prog Answer Shared (S + bool * Z)) st (fin : bool -> Z -> Prog Answer Shared unit) :
  (forall st, safe (turn_ st) [] (fun _ l => l = [])) ->
  (forall b c, safe (fin b c) [] (fun _ l => l = [])) ->
  safe (r <- loop fuel turn_ st;;
        match r with
        | Some (result, loops) => fin result loops;; Ret (Some result)
        | None => Ret None
        end)%prog [] (fun _ l => l = []).
Proof.
  intros Hturn Hfin. apply safe_bind. apply safe_loop with (J := fun _ l => l = []); [| |done].
  - intros st0 l ->. eapply safe_mono; [|apply Hturn]. intros [st'|[b c]] l ->; [done|].
    apply safe_bind. eapply safe_mono; [|apply Hfin]. by intros a l ->.
  - by intros st0 l ->.
Qed.

Lemma safe_job fuel j : (job_worker j < nw)%nat -> safe (work s fuel j) [] (fun _ l => l = []).
Proof using OK LAWS.
  intros Hj. destruct j as [t num|t phase|t tag_|t]; cbn [work job_worker] in *.
  - apply safe_work; [intros st; by apply safe_fill_turn | intros b c; by apply safe_finish].
  - apply safe_work; [intros st; by apply safe_check_turn | intros b c; by apply safe_finish].
  - apply safe_work; [intros st; by apply safe_copy_turn | intros b c; by apply safe_finish].
  - apply (safe_work fuel (invert_turn s t) 0 (fun b c => finish t b (c * 2) (c * range_bytes s * 8)));
      [intros st; by apply safe_invert_turn | intros b c; by apply safe_finish].
Qed.

(** ** Faults *)

Lemma fault_bad_words p b m j v k :
  0 <= b -> 0 <= j < Z.of_nat k -> b + Z.of_nat k <= Z.of_nat (length m) ->
  aget 0 m (b + j) = PatternFacts.pattern_word p j -> v <> PatternFacts.pattern_word p j ->
  bad_words p b (aset m (b + j) v) 0 k ≡ₚ j :: bad_words p b m 0 k.
Proof.
  intros Hb Hj Hlen Hgood Hv. apply NoDup_Permutation.
  - apply NoDup_filter, NoDup_zrange.
  - constructor; [|apply NoDup_filter, NoDup_zrange]. rewrite elem_of_bad_words. tauto.
  - intros x. rewrite elem_of_cons, !elem_of_bad_words. destruct (decide (x = j)) as [->|Hne].
    + rewrite aget_aset_eq by lia. split; [by left | intros _; split; [lia | done]].
    + split.
      * intros [Hx Hw]. right. split; [done|]. by rewrite aget_aset_ne in Hw by lia.
      * intros [?|[Hx Hw]]; [done|]. split; [done|]. by rewrite aget_aset_ne by lia.
Qed.

Lemma fault_inv F w w' R : Inv F w R -> fault s pats w w' -> Inv (F + 1) w' R.
Proof using OK LAWS.
  intros (V & E & Hi) Hf. destruct Hf as [w V0 E0 H0 P0 pe p j v Hrep0 Hin0 Hpat Hj Hgood Hv Hne Hok].
  assert (Hin : pe ∈ V) by (by rewrite (rep_valid_unique _ _ _ _ _ _ _ _ _ (iv_rep _ _ _ _ _ Hi) Hrep0)).
  pose proof (inv_blocks _ _ _ _ _ Hi) as Hb.
  apply elem_of_Permutation in Hin as [V1 HV]. rewrite HV in Hb. cbn [map app] in Hb.
  assert (Hblk : offset pe ∈ all_blocks) by (rewrite <- Hb; apply elem_of_cons; by left).
  destruct (iv_mem _ _ _ _ _ Hi) as [Hw64 Hlen].
  destruct (block_in_memory _ _ Hblk Hlen) as [Ho8 Hfit].
  set (m := memory w) in *. set (m' := aset m (offset pe / 8 + j) v) in *.
  assert (Hag : forall o, o ∈ map offset V1 ++ flat_map footprint R -> agree m m' o /\ 0 <= o / 8).
  { intros o Ho. assert (Hrest : o ∈ map offset V1 ++ map offset E ++ flat_map held R ++
      map (fun p => offset p.2) (flat_map probe_of R)).
    { rewrite footprints in Ho. rewrite !elem_of_app in *. tauto. }
    pose proof blocks_nodup as Hnd. rewrite <- Hb in Hnd. apply NoDup_cons in Hnd as [Hni _].
    assert (Hob : o ∈ all_blocks) by (rewrite <- Hb; apply elem_of_cons; by right).
    split; [|by apply (block_in_memory o m Hob Hlen)].
    intros k Hk. unfold m', aset. apply list_lookup_insert_ne. intros He.
    apply (blocks_apart o (offset pe) (Z.of_nat k) Hob Hblk); [by intros -> | done |].
    unfold in_block. lia. }
  destruct Hi as [H1 H2 H3 H4 H5 H6 H7 Hnn]. rewrite HV in H1, H2, H7. apply Forall_cons in H2 as [_ H2].
  exists (pe :: V1), E. split; cbn [memory set_memory store patternlist_ workers]; try done.
  - constructor; [done|]. rewrite Forall_forall in H2 |- *. intros x Hx.
    destruct (Hag (offset x)) as [Ha Hx8]; [apply elem_of_app; left; by apply list_elem_of_fmap_2|].
    by apply (agree_page_ok m), H2.
  - rewrite Forall_forall in H3 |- *. intros r Hr. apply (agree_res m m'); [|by apply H3].
    intros o Ho. apply Hag, elem_of_app. right. apply list_elem_of_In, in_flat_map. exists r.
    split; by apply list_elem_of_In.
  - split; [|unfold m'; by rewrite length_aset]. by apply Forall_insert.
  - change (total_errors (set_memory w m')) with (total_errors w).
    assert (Hpe : entry_errors m' pe = entry_errors m pe + 1).
    { unfold entry_errors, Accounting.errors_at. rewrite Hpat. unfold m'.
      rewrite fault_bad_words by (done || lia). cbn [length]. lia. }
    assert (HV1 : zsum (map (entry_errors m') V1) = zsum (map (entry_errors m) V1)).
    { apply zsum_ext. intros x Hx. destruct (Hag (offset x)) as [Ha Hx8];
        [apply elem_of_app; left; by apply list_elem_of_fmap_2|]. by apply agree_errors. }
    assert (HR : zsum (map (res_errors m') R) = zsum (map (res_errors m) R)).
    { apply zsum_ext. intros r Hr. apply agree_res. intros o Ho. apply Hag, elem_of_app. right.
      apply list_elem_of_In, in_flat_map. exists r. split; by apply list_elem_of_In. }
    fold m in H7. rewrite HR. cbn [map] in *. unfold zsum in *. cbn [foldr] in *. lia.
Qed.

(** ** All executions *)

Lemma run_safe F0 F w0 fuel jobs w ths :
  Inv F0 w0 [] -> Forall (fun j => job_worker j < nw)%nat jobs ->
  run s pats F (w0, map (work s fuel) jobs) (w, ths) ->
  all_safe Inv (fun _ l => l = []) (F0 + F) (w, ths).
Proof using OK LAWS.
  intros Hi Hj Hrun. remember (w0, map (work s fuel) jobs) as x eqn:Hx.
  remember (w, ths) as y eqn:Hy. revert w ths Hy.
  induction Hrun as [x|F x y z Hrun IH Hstep|F x w1 w1' ths1 Hrun IH Hf]; intros w ths Hy.
  - rewrite Hx, Z.add_0_r. exists (replicate (length jobs) []). cbn [fst snd].
    assert (Hc : concat (replicate (length jobs) (@nil Res)) = []) by (induction (length jobs); done).
    rewrite Hc. split; [done|]. clear -Hj OK LAWS. induction Hj; cbn; constructor; [by apply safe_job | done].
  - subst z. destruct y as [wy thy]. apply (pstep_safe Inv _ _ (wy, thy)); [|done]. exact (IH Hx wy thy eq_refl).
  - injection Hy as <- <-. destruct (IH Hx w1 ths1 eq_refl) as (ls & Hls & Hall).
    exists ls. split; [|done]. rewrite Z.add_assoc. by apply (fault_inv _ w1).
Qed.

Lemma res_errors_nonneg m R : 0 <= zsum (map (res_errors m) R).
Proof.
  apply zsum_nonneg, Forall_map, Forall_true. intros r.
  assert (forall m o pt, 0 <= errors_at m o pt)
    by (intros m' o pt; unfold Accounting.errors_at; destruct (pat_at pats pt); lia).
  destruct r as [| | | | |[]]; cbn; auto; lia.
Qed.

(** A start with any valid blocks, [F0] wrong words counted or left in them. *)
Record ready_with (F0 : Z) (w0 : @Shared Q) (V0 E0 : list page_entry) : Prop := {
  rw_rep : rep n psize (store w0) V0 E0 [] [];
  rw_valid : Forall (entry_ok (memory w0)) V0;
  rw_mem : words64 (memory w0) /\ 8 * Z.of_nat (length (memory w0)) = n * psize;
  rw_plist : plist_ok (patternlist_ w0);
  rw_workers : length (workers w0) = nw;
  rw_nonneg : 0 <= total_errors w0;
  rw_sum : total_errors w0 + errors_left s pats w0 V0 = F0
}.

Lemma ready_inv F0 w0 V0 E0 : ready_with F0 w0 V0 E0 <-> inv_with F0 w0 [] V0 E0.
Proof.
  assert (He : forall x, x + zsum (map (res_errors (memory w0)) []) = x) by (intros x; apply Z.add_0_r).
  split.
  - intros [H1 H2 H3 H4 H5 H6 H7]. split; try done. rewrite He. exact H7.
  - intros [H1 H2 H3 H4 H5 H6 H7 H8]. split; try done. rewrite He in H7. exact H7.
Qed.

(** What every execution keeps, for any page store. *)
Lemma accounting_from F0 F w0 V0 E0 fuel jobs w ths :
  ready_with F0 w0 V0 E0 -> Forall (fun j => job_worker j < nw)%nat jobs ->
  run s pats F (w0, map (work s fuel) jobs) (w, ths) ->
  no_failure (w, ths) /\
  exists V E H P, rep n psize (store w) V E H P /\
    total_errors w + errors_left s pats w V <= F0 + F /\
    (Forall finished ths -> H = [] /\ P = [] /\ ready_with (F0 + F) w V E).
Proof using OK LAWS.
  intros Hready%ready_inv Hj Hrun. assert (Hi : Inv F0 w0 []) by (by exists V0, E0).
  pose proof (run_safe F0 F w0 fuel jobs w ths Hi Hj Hrun) as Hall.
  split; [by eapply all_safe_no_failure; [apply _ | exact Hall]|].
  destruct Hall as (ls & (V & E & Hinv) & Hsafe). cbn [fst snd] in *.
  pose proof Hinv as [H1 H2 H3 H4 H5 H6 H7 Hnn].
  exists V, E, (flat_map held (concat ls)), (flat_map probe_of (concat ls)).
  pose proof (res_errors_nonneg (memory w) (concat ls)).
  change (errors_left s pats w V) with (zsum (map (entry_errors (memory w)) V)).
  split; [done|]. split; [lia|].
  intros Hfin. assert (Hc : concat ls = []).
  { clear -Hsafe Hfin. induction Hsafe as [|p l ths ls Hp Hsafe IH]; [done|].
    apply Forall_cons in Hfin as [Hf Hfin]. destruct p as [a|]; [|done]. cbn in Hp. subst l. by apply IH. }
  rewrite Hc in *. split; [done|]. split; [done|]. by apply ready_inv.
Qed.

Lemma accounting F w0 E0 fuel jobs w ths :
  rep n psize (store w0) [] E0 [] [] -> words64 (memory w0) ->
  8 * Z.of_nat (length (memory w0)) = n * psize -> plist_ok (patternlist_ w0) ->
  length (workers w0) = nw -> total_errors w0 = 0 -> Forall (fun j => job_worker j < nw)%nat jobs ->
  run s pats F (w0, map (work s fuel) jobs) (w, ths) ->
  no_failure (w, ths) /\
  exists V E H P, rep n psize (store w) V E H P /\
    total_errors w + errors_left s pats w V <= F /\
    (Forall finished ths -> H = [] /\ P = [] /\ total_errors w + errors_left s pats w V = F).
Proof using OK LAWS.
  intros Hrep Hw64 Hlen Hpl Hnw Hz Hj Hrun.
  destruct (accounting_from 0 F w0 [] E0 fuel jobs w ths) as (Hnf & V & E & H & P & Hr & Hle & Hend); [|done|done|].
  { split; try done; [lia|]. unfold errors_left. cbn. unfold zsum. cbn. lia. }
  split; [done|]. exists V, E, H, P. split; [done|]. split; [lia|]. intros Hf.
  destruct (Hend Hf) as (-> & -> & [_ _ _ _ _ _ Hs]). split; [done|]. split; [done|]. lia.
Qed.

End Inv.

(** ** The pattern lists of a run *)

Lemma weight_loop_initialized off rand :
  0 <= rand -> exists i, 0 <= i < 120 /\
    Patterns.weight_loop (Patterns.patterns_ (PatternFacts.initialized off)) 0
      (Z.rem rand (Patterns.weightcount_ (PatternFacts.initialized off)) + 1) = Some i.
Proof.
  intros Hr. destruct (PatternFacts.W_total off) as [HW Hwc]. rewrite Hwc, Z.rem_mod_nonneg by lia.
  assert (Hall : PatternFacts.weight_sum (map Patterns.weight (Patterns.patterns_ (PatternFacts.initialized off))) = 160).
  { rewrite <- HW. unfold PatternFacts.W. rewrite take_ge; [done|].
    rewrite length_map, PatternFacts.initialized_size. lia. }
  pose proof (Z.mod_pos_bound rand 160).
  destruct (PatternFacts.weight_loop_spec (Patterns.patterns_ (PatternFacts.initialized off)) 0 (rand mod 160 + 1))
    as (k & Hk & Hlen & _); [apply PatternFacts.weights_nonneg | lia | lia |].
  rewrite PatternFacts.initialized_size in Hlen. exists (Z.of_nat k). split; [lia|]. by rewrite Hk.
Qed.

(** The list [Sat::InitializePatterns] builds, with or without a -P list. *)
Lemma initialized_plist_ok off ids cursor :
  Forall (fun i => 0 <= i < 120) ids ->
  let pl := PatternFacts.initialized off in
  plist_ok (Patterns.patterns_ pl)
    (Patterns.mkPatternList (Patterns.patterns_ pl) (Patterns.weightcount_ pl) (Patterns.size_ pl)
       (Patterns.initialized_ pl) ids cursor (Patterns.pattern_byte_offset_ pl)).
Proof.
  intros Hids pl. unfold plist_ok, choice_ok. cbn [Patterns.patterns_ Patterns.size_ Patterns.selected_pattern_ids_
    Patterns.weightcount_]. unfold pl. rewrite PatternFacts.initialized_size.
  split; [done|]. split; [done|]. split; [done|]. apply weight_loop_initialized.
Qed.

(** ** Executions of one thread at a time *)

Lemma run_thread {Q} `{PS : PageStore Answer Q} {A} s pats F x ths i (p : Prog Answer (@Shared Q) A) ans w a w' :
  run_alone p ans w = Some (a, w') -> run s pats F x (w, ths) -> ths !! i = Some p ->
  run s pats F x (w', <[i := Ret a]> ths).
Proof.
  revert ans w ths. induction p as [a0|B f k IH]; intros ans w ths Ha Hr Hi.
  - destruct ans; injection Ha as <- <-; by rewrite list_insert_id.
  - destruct ans as [|an ans]; [done|]. cbn in Ha. destruct (f an w) as [[b w1]|] eqn:Hf; [|done].
    pose proof (IH b ans w1 (<[i := k b]> ths) Ha) as IH'. rewrite list_insert_insert_eq in IH'. apply IH'.
    + eapply run_step; [exact Hr|]. by econstructor.
    + apply list_lookup_insert_eq. by eapply lookup_lt_Some.
Qed.

(** ** Every fault is counted once *)

(** A start of the threads: every block empty, nothing counted. *)
Record start {Q} `{PS : PageStore Answer Q} (s : Settings) (pats : list Patterns.Pattern)
    (w0 : @Shared Q) (jobs : list job) : Prop := {
  st_store : exists E0, rep (pages s) (page_length (cfg s)) (store w0) [] E0 [] [];
  st_memory : words64 (memory w0) /\ 8 * Z.of_nat (length (memory w0)) = pages s * page_length (cfg s);
  st_patterns : plist_ok pats (patternlist_ w0);
  st_counts : total_errors w0 = 0;
  st_jobs : Forall (fun j => job_worker j < length (workers w0))%nat jobs
}.

(** C1. End to end, with one lock per page, for runs without [--tag_mode] and without the
    deliberate errors of [--force_errors], whose blocks have a positive length below 2 GB, a
    multiple of 64 bytes, lie in test memory mapped in one piece (not page by page), and have
    patterns with their right checksums.  Start with every block empty and run any
    number of fill, check, copy (warm, checked or plain) and invert threads, interleaved
    access by access in any way, while words of valid blocks at rest go bad, at most one
    at a time in each 4096-byte piece.  Then no assertion fails; at every moment the errors
    counted so far plus the wrong words in the valid blocks at rest are at most the number
    of faults, so no error is reported that was not there; and once all threads have
    ended, no block is held and that sum equals the number of faults: every fault has been
    counted exactly once or is still in a valid block. *)
Theorem faults_counted_fine s pats F (w0 : @Shared FineLockPEQueue) fuel jobs w ths :
  settings_ok s pats -> 1 <= pages s -> start s pats w0 jobs ->
  run s pats F (w0, map (work s fuel) jobs) (w, ths) ->
  no_failure (w, ths) /\
  exists V E H P, rep (pages s) (page_length (cfg s)) (store w) V E H P /\
    total_errors w + errors_left s pats w V <= F /\
    (Forall finished ths -> H = [] /\ P = [] /\ total_errors w + errors_left s pats w V = F).
Proof.
  intros OK Hn [(E0 & Hs) [Hm1 Hm2] Hp Hc Hj] Hrun.
  by apply (accounting s pats (length (workers w0)) (LAWS := PageStoreFacts.fine_store_laws _ _ Hn) OK F w0 E0 fuel jobs).
Qed.

(** C2. The same with the two coarse-lock queues, under the same conditions: without
    [--tag_mode] and without the errors of [--force_errors], blocks with a positive length
    below 2 GB, a multiple of 64 bytes, in test memory mapped in one piece, and patterns with
    their right checksums; all blocks empty at the start, any number of fill, check, copy and
    invert threads in any interleaving, and words of valid blocks at rest going bad, at most
    one at a time in each 4096-byte piece.  No assertion fails, no error is counted that was not
    there, and once all threads have ended no block is held and every fault has been counted
    exactly once or is still in a valid block. *)
Theorem faults_counted_one s pats F (w0 : @Shared OneLock) fuel jobs w ths :
  settings_ok s pats -> start s pats w0 jobs ->
  run s pats F (w0, map (work s fuel) jobs) (w, ths) ->
  no_failure (w, ths) /\
  exists V E H P, rep (pages s) (page_length (cfg s)) (store w) V E H P /\
    total_errors w + errors_left s pats w V <= F /\
    (Forall finished ths -> H = [] /\ P = [] /\ total_errors w + errors_left s pats w V = F).
Proof.
  intros OK [(E0 & Hs) [Hm1 Hm2] Hp Hc Hj] Hrun.
  by apply (accounting s pats (length (workers w0))
    (LAWS := PageStoreFacts.one_store_laws _ _ (so_pages _ _ OK)) OK F w0 E0 fuel jobs).
Qed.

(** *** A run: two blocks are filled, a word of one goes bad, the final check drains them *)

(** Why tags are left out: a plain copy gives the destination its own tags, so a tag word
    that went bad in the source is neither counted nor in a valid block afterwards. *)
Lemma plain_copy_drops_tag_fault c m v :
  length m = 16%nat ->
  take 8 (TagAddrC c (memcpy (aset m 8 v) 0 8 64) 0 64) = take 8 (TagAddrC c (memcpy m 0 8 64) 0 64).
Proof. intros Hl. do 16 (destruct m as [|? m]; [done|]). by destruct m. Qed.

Definition sample_settings : Settings :=
  let os := OsLayer.mkOs 0 0 1 1 4 [0] [false] None 0 0 4096 128 false in
  mkSettings (mkConfig 64 FILL_DIRECTION_UP 0 false false 4096 8 10
                (mkWorld (fun _ _ => 800) (fun _ => 0) (fun _ => 1) os 4096 (fun _ => None)) None)
    2 false true false true true 1 FILL_PRESET_NONE true false false Invert.INVERT_RANGE_FULL None.
Definition sample_pats : list Patterns.Pattern := [sample_pattern].
Definition sample_answer : Answer :=
  mkAnswer true (fun _ => false) 5 0 0 800 0 1 0 (mkReadings 0 800 0 800) ((0, 0), (0, 0))
    (fun _ _ => 800) (fun _ => 0) (fun _ => 1).
Definition sample_jobs : list job := [Fill 0 2; Check 1 "final_check"].

Definition sample_shared {Q} (q : Q) : @Shared Q :=
  mkShared q (replicate 16 5) false (Diagnostics.mkErrorLog 0 0 0) ErrorDiag.InitializeDeviceTree [] []
    (Patterns.mkPatternList sample_pats 5 1 1 [0] 0 0) None (replicate 2 (new_worker (Some Diagnostics.new_phase_stats))).

Lemma sample_settings_ok : settings_ok sample_settings sample_pats.
Proof.
  split; [done | done | by cbn | by cbn | by cbn | by cbn | by cbn |].
  split; [|by cbn]. constructor; [apply sample_good | constructor].
Qed.

Lemma sample_start {Q} `{PS : PageStore Answer Q} (q : Q) E0 :
  rep 2 64 q [] E0 [] [] -> start sample_settings sample_pats (sample_shared q) sample_jobs.
Proof.
  intros Hr. split; try done.
  - by exists E0.
  - split; [|done]. apply Forall_replicate. lia.
  - split; [done|]. split; [done|]. split; [by repeat constructor|]. intros rand Hrand.
    exists 0. split; [done|]. cbn [Patterns.weight_loop sample_pats Patterns.weightcount_ patternlist_ sample_shared].
    pose proof (Z.rem_bound_pos rand 5 Hrand). change (Patterns.weight sample_pattern) with 5.
    rewrite s32_id by lia. by rewrite (proj2 (Z.leb_le _ _)) by lia.
  - repeat constructor.
Qed.

Definition sample_entry (i : Z) : page_entry :=
  set_write_frequency (mk_page_entry (i * 64) 0 0 None 0xf001 0 0 0 0 None) (-1).
Definition sample_one : OneLock :=
  let q := mkOneLock (new_PageEntryQueue 2 (replicate 3 null_pe)) (new_PageEntryQueue 2 (replicate 3 null_pe)) in
  (one_put_empty (sample_entry 1) (one_put_empty (sample_entry 0) q).2).2.

Lemma sample_one_rep : rep 2 64 sample_one [] [sample_entry 0; sample_entry 1] [] [].
Proof.
  split; [split; [|done] | split; [|done] | done | done]; split; cbn; try lia; done.
Qed.

(** The state after the fill, with a wrong word in block 0, and after the final check. *)
Definition sample_fill {Q} `{PS : PageStore Answer Q} (q : Q) : option (option bool * @Shared Q) :=
  run_alone (work sample_settings 3 (Fill 0 2)) (replicate 100 sample_answer) (sample_shared q).
Definition spoil {Q} (w : @Shared Q) : @Shared Q := set_memory w (aset (memory w) (0 / 8 + 3) 7).
Definition sample_check {Q} `{PS : PageStore Answer Q} (w : @Shared Q) : option (option bool * @Shared Q) :=
  run_alone (work sample_settings 3 (Check 1 "final_check")) (replicate 100 sample_answer) w.

Lemma sample_execution {Q} `{PS : PageStore Answer Q} (q : Q) a w1 b w2 V E H P pe :
  sample_fill q = Some (a, w1) -> sample_check (spoil w1) = Some (b, w2) ->
  rep 2 64 (store w1) V E H P -> pe ∈ V -> offset pe = 0 -> pattern pe = Some 0 ->
  aget 0 (memory w1) (0 / 8 + 3) = PatternFacts.pattern_word sample_pattern 3 ->
  run sample_settings sample_pats (0 + 1) (sample_shared q, map (work sample_settings 3) sample_jobs)
    (w2, [Ret a; Ret b]).
Proof.
  intros Hf Hc Hrep Hpe Ho Hpt Hgood.
  pose proof (run_thread sample_settings sample_pats 0 _ (map (work sample_settings 3) sample_jobs) 0 _ _ _ _ _
    Hf (run_start _ _ _) eq_refl) as R1.
  assert (R2 : run sample_settings sample_pats (0 + 1) (sample_shared q, map (work sample_settings 3) sample_jobs)
    (spoil w1, [Ret a; work sample_settings 3 (Check 1 "final_check")])).
  { eapply run_fault; [exact R1|]. unfold spoil. rewrite <- Ho at 1.
    apply (fault_word _ _ _ V E H P pe sample_pattern 3 7); try done.
    - by rewrite Hpt.
    - by rewrite Ho.
    - exists sample_pattern. rewrite Hpt. split; [done|]. intros b0 Hb0.
      change (Z.to_nat (page_length (cfg sample_settings) / 4096)) with O in Hb0. lia. }
  exact (run_thread sample_settings sample_pats _ _ [Ret a; work sample_settings 3 (Check 1 "final_check")] 1
    _ _ _ _ _ Hc R2 eq_refl).
Qed.

Definition sample_one_filled : @Shared OneLock :=
  Eval vm_compute in match sample_fill sample_one with Some (_, w) => w | None => sample_shared sample_one end.
Definition sample_one_end : @Shared OneLock :=
  Eval vm_compute in match sample_check (spoil sample_one_filled) with Some (_, w) => w | None => sample_one_filled end.

Lemma faults_counted_one_witness : total_errors sample_one_end = 1.
Proof.
  destruct (faults_counted_one sample_settings sample_pats (0 + 1) (sample_shared sample_one) 3 sample_jobs
    sample_one_end [Ret (Some true); Ret (Some true)]) as (_ & V & E & H & P & Hrep & _ & Hend).
  - apply sample_settings_ok.
  - apply (sample_start _ [sample_entry 0; sample_entry 1]), sample_one_rep.
  - eapply (sample_execution sample_one (Some true) sample_one_filled (Some true) sample_one_end
      (PageQueueFacts.contents (valid_ (store sample_one_filled))) [] [] []).
    + vm_compute. reflexivity.
    + vm_compute. reflexivity.
    + split; [split; [|split] | split; [|split] | |]; try (vm_compute; reflexivity);
        split; vm_compute; try reflexivity; try (split; (reflexivity || discriminate)).
    + left.
    + reflexivity.
    + reflexivity.
    + vm_compute. reflexivity.
  - destruct Hend as (_ & _ & Hsum); [by repeat constructor|].
    destruct Hrep as [(_ & _ & HV) _ _ _]. change (PageQueueFacts.contents (valid_ (store sample_one_end))) with (@nil page_entry) in HV.
    apply Permutation_nil_r in HV as ->. change (errors_left _ _ _ []) with 0 in Hsum. lia.
Defined.

Definition sample_fine : FineLockPEQueue :=
  match new_FineLockPEQueue 2 64 (replicate 2 null_pe) with
  | Some q => (fine_put_empty (sample_entry 1) (fine_put_empty (sample_entry 0) q).2).2
  | None => mkFineLock [] [] 0 0 kTouch 0 0 0 []
  end.
Definition sample_fine_filled : @Shared FineLockPEQueue :=
  Eval vm_compute in match sample_fill sample_fine with Some (_, w) => w | None => sample_shared sample_fine end.
Definition sample_fine_end : @Shared FineLockPEQueue :=
  Eval vm_compute in match sample_check (spoil sample_fine_filled) with Some (_, w) => w | None => sample_fine_filled end.

(** Two pages at rest, in place. *)
Lemma sample_fine_rep ps q p0 p1 V E :
  (0 <? ps) && (ps <? 2 ^ 36) = true ->
  FineLock.q_size_ q = 2 -> page_size_ q = ps -> (a_ q, c_ q, modlength_ q) = (1, 1, 2) ->
  length (rand_seed_ q) = 4%nat ->
  pagelocks_ q = [false; false] -> FineLock.pages_ q = [p0; p1] -> offset p0 = 0 -> offset p1 = ps ->
  V = flat_map (PageStoreFacts.at_rest q true) [0; 1] -> E = flat_map (PageStoreFacts.at_rest q false) [0; 1] ->
  rep 2 ps q V E [] [].
Proof.
  intros [Hlo%Z.ltb_lt Hhi%Z.ltb_lt]%andb_true_iff Hs Hps Hgen Hseed Hl Hp Ho0 Ho1 -> ->. injection Hgen as Ha Hc Hm.
  assert (Hwf : wf_queue q).
  { split; rewrite ?Hs, ?Hps, ?Ha, ?Hc, ?Hm, ?Hl, ?Hp; try done.
    split; try done. apply hull_dobell_1. }
  assert (Hlk : forall i, 0 <= i < 2 -> FineLockFacts.locked q i = false /\
    offset (PageStoreFacts.page q i) = i * ps).
  { intros i Hi. unfold FineLockFacts.locked, PageStoreFacts.page. rewrite Hl, Hp.
    assert (i = 0 \/ i = 1) as [-> | ->] by lia; [done | by rewrite Z.mul_1_l]. }
  split; try done; [by rewrite Ha, Hc, Hm| |].
  - unfold PageStoreFacts.indices. change (Z.to_nat 2) with 2%nat. cbn [zrange flat_map].
    unfold PageStoreFacts.away. by rewrite (proj1 (Hlk 0 ltac:(lia))), (proj1 (Hlk (0 + 1) ltac:(lia))).
  - intros i Hi _. by apply Hlk.
Qed.

Lemma faults_counted_fine_witness : total_errors sample_fine_end = 1.
Proof.
  destruct (faults_counted_fine sample_settings sample_pats (0 + 1) (sample_shared sample_fine) 3 sample_jobs
    sample_fine_end [Ret (Some true); Ret (Some true)]) as (_ & V & E & H & P & Hrep & _ & Hend).
  - apply sample_settings_ok.
  - discriminate.
  - eapply sample_start, sample_fine_rep; vm_compute; reflexivity.
  - eapply (sample_execution sample_fine (Some true) sample_fine_filled (Some true) sample_fine_end
      (flat_map (PageStoreFacts.at_rest (store sample_fine_filled) true) [0; 1]) [] [] []).
    + vm_compute. reflexivity.
    + vm_compute. reflexivity.
    + eapply sample_fine_rep; vm_compute; reflexivity.
    + left.
    + reflexivity.
    + reflexivity.
    + vm_compute. reflexivity.
  - destruct Hend as (_ & _ & Hsum); [by repeat constructor|].
    assert (HV : V ≡ₚ []) by (rewrite (PageStoreFacts.fr_valid _ _ _ _ _ _ _ Hrep); vm_compute; constructor).
    apply Permutation_nil_r in HV as ->. change (errors_left _ _ _ []) with 0 in Hsum. lia.
Defined.

End AccountingFacts.
