(* ===== verification/DiskThread.v ===== *)
(** The disk threads: [DiskThread] and [RandomDiskThread] of [src/src/worker.cc].

    A disk thread writes blocks with known contents to a device, keeps a queue of blocks in
    flight and reads them back.  The threads of one device share the block table of
    [DiskBlocks.v] and the device; they share the work blocks with all other threads.  The
    members a thread changes for itself are passed along by its body.  Log lines are left
    out, except that the warning about the fallback fill is counted.

    A call on the block table is one access here.  [GetUnusedBlock] and [RemoveBlock] read
    the table before they take its mutex, but only the one disk thread of the device changes
    the table: [DiskBlocks.v] runs them access by access and proves that every state of the
    table, its blocks and their owners is one that uninterrupted calls reach. *)

From Stdlib Require Import Ascii String.
From S2P Require Import Prelude Adler Patterns Invert PageQueue FineLock DiskBlocks OsLayer ErrorDiag.
From S2P Require Import Diagnostics Worker Program PageStore Threads Accounting.

Module DiskThread.
Import PageQueue Program PageStore Worker Threads.
Local Open Scope prog_scope.

Definition kSectorSize : Z := 512.
Definition kBufferAlignment : Z := 512.

(** ** Parameters *)

Record DiskParams := mkParams {
  read_block_size_ : Z; write_block_size_ : Z; segment_size_ : Z; cache_size_ : Z; queue_size_ : Z;
  blocks_per_segment_ : Z; read_threshold_ : Z; write_threshold_ : Z; read_timeout_ : Z; write_timeout_ : Z;
  device_sectors_ : Z; non_destructive_ : bool; update_block_table_ : bool
}.

(** [((cache_size_ / write_block_size_) * 3) / 2]. *)
Definition queue_length (cache_size write_block_size : Z) : Z :=
  Z.quot (s32 (Z.quot cache_size write_block_size * 3)) 2.

(** [DiskThread::DiskThread]; a [RandomDiskThread] does not update the table. *)
Definition new_DiskThread (update_block_table : bool) : DiskParams :=
  mkParams kSectorSize kSectorSize (-1) (16 * 1024 * 1024) (queue_length (16 * 1024 * 1024) kSectorSize) 32
    100000 100000 5000000 5000000 0 false update_block_table.

(** Results of a set-up function: [return false], a failed assertion or a division by
    zero, or the value. *)
Inductive Outcome (A : Type) := Done (a : A) | Refused | Crashed.
Arguments Done {A} a.
Arguments Refused {A}.
Arguments Crashed {A}.

Definition obind {A B} (x : Outcome A) (f : A -> Outcome B) : Outcome B :=
  match x with Done a => f a | Refused => Refused | Crashed => Crashed end.
Definition refuse_if (b : bool) : Outcome unit := if b then Refused else Done tt.
Definition crash_if (b : bool) : Outcome unit := if b then Crashed else Done tt.

Local Notation "x <-- a ;; b" := (obind a (fun x => b)) (at level 100, a at next level, right associativity).
Local Notation "a ;;; b" := (obind a (fun _ => b)) (at level 100, right associativity).

Definition set_read_block_size (p : DiskParams) (v : Z) : DiskParams :=
  mkParams v (write_block_size_ p) (segment_size_ p) (cache_size_ p) (queue_size_ p) (blocks_per_segment_ p)
    (read_threshold_ p) (write_threshold_ p) (read_timeout_ p) (write_timeout_ p) (device_sectors_ p)
    (non_destructive_ p) (update_block_table_ p).
Definition set_write_block_size (p : DiskParams) (v : Z) : DiskParams :=
  mkParams (read_block_size_ p) v (segment_size_ p) (cache_size_ p) (queue_size_ p) (blocks_per_segment_ p)
    (read_threshold_ p) (write_threshold_ p) (read_timeout_ p) (write_timeout_ p) (device_sectors_ p)
    (non_destructive_ p) (update_block_table_ p).
Definition set_device_sectors (p : DiskParams) (v : Z) : DiskParams :=
  mkParams (read_block_size_ p) (write_block_size_ p) (segment_size_ p) (cache_size_ p) (queue_size_ p)
    (blocks_per_segment_ p) (read_threshold_ p) (write_threshold_ p) (read_timeout_ p) (write_timeout_ p) v
    (non_destructive_ p) (update_block_table_ p).

(** The two block sizes; [-1] leaves one as it is. *)
Definition set_block_sizes (p : DiskParams) (read_block_size write_block_size : Z) : Outcome DiskParams :=
  p <-- (if read_block_size =? -1 then Done p
         else refuse_if (negb (Z.rem read_block_size kSectorSize =? 0)) ;;;
              Done (set_read_block_size p read_block_size)) ;;
  if negb (write_block_size =? -1) then
    refuse_if (negb (Z.rem write_block_size kSectorSize =? 0)) ;;;
    crash_if (read_block_size_ p =? 0) ;;;
    refuse_if (negb (Z.rem write_block_size (read_block_size_ p) =? 0)) ;;;
    Done (set_write_block_size p write_block_size)
  else if write_block_size_ p <? read_block_size_ p then Done (set_write_block_size p (read_block_size_ p))
  else
    crash_if (read_block_size_ p =? 0) ;;;
    refuse_if (negb (Z.rem (write_block_size_ p) (read_block_size_ p) =? 0)) ;;;
    Done p.

(** A positive value, or [-1] for the one in use. *)
Definition positive_or (old new : Z) : Outcome Z :=
  if new =? -1 then Done old else if new <=? 0 then Refused else Done new.

(** [block_table_->SetParameters(...)] if this thread keeps the table; it asserts that the
    table is empty. *)
Definition update_table (p : DiskParams) (t : DiskBlocks.DiskBlockTable) : Outcome DiskBlocks.DiskBlockTable :=
  if update_block_table_ p then
    match DiskBlocks.SetParameters t kSectorSize (write_block_size_ p) (device_sectors_ p) (segment_size_ p) with
    | Some t => Done t
    | None => Crashed
    end
  else Done t.

Definition SetParameters (p : DiskParams) (t : DiskBlocks.DiskBlockTable)
    (read_block_size write_block_size segment_size cache_size blocks_per_segment read_threshold
     write_threshold : Z) (non_destructive : bool) : Outcome (DiskParams * DiskBlocks.DiskBlockTable) :=
  p <-- set_block_sizes p read_block_size write_block_size ;;
  let cache := if cache_size =? -1 then cache_size_ p else s32 cache_size in
  per_segment <-- positive_or (blocks_per_segment_ p) blocks_per_segment ;;
  rt <-- positive_or (read_threshold_ p) read_threshold ;;
  wt <-- positive_or (write_threshold_ p) write_threshold ;;
  segment <-- (if segment_size =? -1 then Done (segment_size_ p)
               else refuse_if (negb (Z.rem segment_size kSectorSize =? 0)) ;;;
                    Done (Z.quot segment_size kSectorSize)) ;;
  crash_if (write_block_size_ p =? 0) ;;;
  let p := mkParams (read_block_size_ p) (write_block_size_ p) segment cache
             (queue_length cache (write_block_size_ p)) per_segment rt wt (read_timeout_ p) (write_timeout_ p)
             (device_sectors_ p) non_destructive (update_block_table_ p) in
  t <-- update_table p t ;;
  Done (p, t).

(** What [fstat] and [ioctl] say of the device. *)
Inductive DeviceStat :=
| StatFailed | BlockDevice (size : option Z) | RegularFile (st_size : Z) | OtherFile.

(** [GetDiskSize]: the parameters and the table, or [Refused] with the errors counted and
    the status that has been set. *)
Definition GetDiskSize (p : DiskParams) (t : DiskBlocks.DiskBlockTable) (stat : DeviceStat)
  : Outcome (DiskParams * DiskBlocks.DiskBlockTable) * Z * bool :=
  let finish sectors :=
    let p := set_device_sectors p sectors in
    (t <-- update_table p t ;; Done (p, t), 0, false) in
  match stat with
  | StatFailed | OtherFile | BlockDevice None => (Refused, 0, false)
  | BlockDevice (Some block_size) =>
      if block_size =? 0 then (Refused, 1, true) else finish (block_size / kSectorSize)
  | RegularFile st_size => finish (Z.quot st_size kSectorSize)
  end.

(** ** Shared state *)

(** The end of one asynchronous request. *)
Inductive IoEvent := SubmitFailed | Interrupted | TimedOut | Completed (res : Z).

(** What an access of a disk thread reads of its surroundings, next to what all threads
    read.  [landed] is what a write that was not completed leaves in its range, [delivered]
    what the device hands out for the words it stores. *)
Record DiskAnswer := mkDiskAnswer {
  base : Answer; io : IoEvent; landed : list Z; delivered : list Z -> list Z; seek_ok : bool; flush_ok : bool;
  new_ptr : Z; sector_random : nat -> Z; block_random : Z; wait_timed_out : bool
}.

Section Thread.
Context {Q : Type} `{PS : PageStore Answer Q} (s : Settings) (p : DiskParams) (has_libaio : bool).

(** The device holds 64-bit words. *)
Record DiskWorld := mkDiskWorld {
  shared : @Shared Q; table : DiskBlocks.DiskBlockTable; objects : DiskBlocks.store; device : list Z
}.

Definition set_shared (w : DiskWorld) (v : @Shared Q) : DiskWorld := mkDiskWorld v (table w) (objects w) (device w).
Definition set_blocks (w : DiskWorld) (t : DiskBlocks.DiskBlockTable) (h : DiskBlocks.store) : DiskWorld :=
  mkDiskWorld (shared w) t h (device w).
Definition set_device (w : DiskWorld) (d : list Z) : DiskWorld := mkDiskWorld (shared w) (table w) (objects w) d.

(** The thread's own members; [fallbacks] counts the warnings about the fallback fill and
    [device_reports] are the symptoms passed to [ErrorReport]. *)
Record Local := mkLocal {
  in_flight_sectors_ : list Z; block_buffer_ : list Z; errorcount : Z; blocks_written_ : Z; blocks_read_ : Z;
  device_reports : list string; fallbacks : Z
}.

Definition set_in_flight (l : Local) (q : list Z) : Local :=
  mkLocal q (block_buffer_ l) (errorcount l) (blocks_written_ l) (blocks_read_ l) (device_reports l) (fallbacks l).
Definition set_buffer (l : Local) (b : list Z) : Local :=
  mkLocal (in_flight_sectors_ l) b (errorcount l) (blocks_written_ l) (blocks_read_ l) (device_reports l) (fallbacks l).
Definition count_error (l : Local) (symptom : string) : Local :=
  mkLocal (in_flight_sectors_ l) (block_buffer_ l) (errorcount l + 1) (blocks_written_ l) (blocks_read_ l)
    (device_reports l ++ [symptom]) (fallbacks l).
Definition set_errors (l : Local) (n : Z) : Local :=
  mkLocal (in_flight_sectors_ l) (block_buffer_ l) n (blocks_written_ l) (blocks_read_ l) (device_reports l) (fallbacks l).
Definition count_written (l : Local) : Local :=
  mkLocal (in_flight_sectors_ l) (block_buffer_ l) (errorcount l) (blocks_written_ l + 1) (blocks_read_ l)
    (device_reports l) (fallbacks l).
Definition count_read (l : Local) : Local :=
  mkLocal (in_flight_sectors_ l) (block_buffer_ l) (errorcount l) (blocks_written_ l) (blocks_read_ l + 1)
    (device_reports l) (fallbacks l).
Definition count_fallback (l : Local) : Local :=
  mkLocal (in_flight_sectors_ l) (block_buffer_ l) (errorcount l) (blocks_written_ l) (blocks_read_ l)
    (device_reports l) (fallbacks l + 1).

Abbreviation P := (Prog DiskAnswer DiskWorld).

(** What all threads do. *)
Definition common {A} (q : Prog Answer (@Shared Q) A) : P A := embed base shared set_shared q.

(** An access to a block object; [None]: it has been deleted. *)
Definition block_object (ptr : Z) : P DiskBlocks.BlockData :=
  act (fun _ w => match objects w !! ptr with Some b => Some (b, w) | None => None end).
Definition block_set_pattern (ptr : Z) (pt : option Z) : P unit :=
  act (fun _ w => match objects w !! ptr with
                  | Some b => Some (tt, set_blocks w (table w) (<[ptr := DiskBlocks.set_pattern b pt]> (objects w)))
                  | None => None
                  end).

(** ** Calls on the table *)

Definition fresh_ptr (an : DiskAnswer) (w : DiskWorld) : Z :=
  if decide (objects w !! new_ptr an = None) then new_ptr an else fresh (dom (objects w)).

Definition GetUnusedBlock (segment : Z) : P (option Z) :=
  act (fun an w =>
    match DiskBlocks.GetUnusedBlock (table w) (objects w) segment (fresh_ptr an w) (sector_random an) with
    | Some (r, t, h) => Some (r, set_blocks w t h)
    | None => None
    end).

Definition RemoveBlock (ptr : Z) : P bool :=
  act (fun _ w =>
    match DiskBlocks.RemoveBlock (table w) (objects w) ptr with
    | Some (r, t, h) => Some (negb (r =? 0), set_blocks w t h)
    | None => None
    end).

(** The wait for an entry ends by itself only if there is one. *)
Definition GetRandomBlock : P (option Z) :=
  act (fun an w =>
    match DiskBlocks.GetRandomBlock (table w) (objects w) (wait_timed_out an || (DiskBlocks.size_ (table w) <=? 0))
            (block_random an) with
    | Some (r, h) => Some (r, set_blocks w (table w) h)
    | None => None
    end).

Definition ReleaseBlock (ptr : Z) : P bool :=
  act (fun _ w =>
    match DiskBlocks.ReleaseBlock (objects w) ptr with
    | Some (r, h) => Some (negb (r =? 0), set_blocks w (table w) h)
    | None => None
    end).

(** ** Device access *)

Inductive IoOp := ASYNC_IO_READ | ASYNC_IO_WRITE.

Definition error_str (op : IoOp) : string :=
  match op with ASYNC_IO_READ => "disk-read-error" | ASYNC_IO_WRITE => "disk-write-error" end.

(** What a request does to the device and the buffer. *)
Definition transfer (op : IoOp) (an : DiskAnswer) (complete : bool) (size offset : Z) (l : Local) (w : DiskWorld)
  : Local * DiskWorld :=
  let n := Z.to_nat (size / 8) in
  let at_ := offset / 8 in
  match op with
  | ASYNC_IO_READ => (set_buffer l (copy_words (if complete then delivered an (range_words (device w) at_ n) else landed an)
                                     n 0 (block_buffer_ l)), w)
  | ASYNC_IO_WRITE => (l, set_device w (copy_words (if complete then block_buffer_ l else landed an) n at_ (device w)))
  end.

(** [AsyncDiskIO]: whether the request was completed. *)
Definition AsyncDiskIO (op : IoOp) (size offset : Z) (l : Local) : P (bool * Local) :=
  if has_libaio then
    act (fun an w =>
      match io an with
      | SubmitFailed => Some ((false, l), w)
      | Interrupted => let '(l, w) := transfer op an false size offset l w in Some ((false, l), w)
      | TimedOut =>
          let '(l, w) := transfer op an false size offset l w in Some ((false, count_error l (error_str op)), w)
      | Completed res =>
          if res =? u64 size then let '(l, w) := transfer op an true size offset l w in Some ((true, l), w)
          else let '(l, w) := transfer op an false size offset l w in Some ((false, count_error l (error_str op)), w)
      end)
  else Ret (false, l).

(** ** Writing a block *)

(** [for (i = 0; i < block->size()/wordsize_; i++) memblock[i] = pattern->pattern(i)]. *)
Definition fallback_fill (pat : Patterns.Pattern) (size : Z) (buf : list Z) : list Z :=
  fold_left (fun b i => store32 b i (Patterns.pattern pat i)) (zrange 0 (Z.to_nat (size / wordsize_))) buf.

(** [memset(block_buffer_, 0, size)]. *)
Definition clear_buffer (size : Z) (l : Local) : Local :=
  set_buffer l (store_words (fun _ => 0) 0 (zrange 0 (Z.to_nat (size / 8))) (block_buffer_ l)).

Definition WriteBlockToDisk (ptr : Z) (l : Local) : P (bool * Local) :=
  b <- block_object ptr ;;
  let size := DiskBlocks.size b in
  let l := clear_buffer size l in
  got <- common (Sat_GetValid s kDontCareTag) ;;
  l <- match got with
       | None =>
           pt <- common (act (fun an w =>
             let '(p, pl) := Patterns.GetRandomPattern (patternlist_ w) (Z.of_N (random an)) in
             Some (p, set_patternlist w pl))) ;;
           block_set_pattern ptr pt ;;
           act (fun _ w => match pattern_object (shared w) pt with
                           | Some pat => Some (count_fallback (set_buffer l (fallback_fill pat size (block_buffer_ l))), w)
                           | None => None
                           end)
       | Some pe =>
           l <- act (fun _ w => Some (set_buffer l (copy_words
                  (range_words (memory (shared w)) (page_base (cfg s) pe) (Z.to_nat (size / 8)))
                  (Z.to_nat (size / 8)) 0 (block_buffer_ l)), w)) ;;
           block_set_pattern ptr (pattern pe) ;;
           common (Sat_PutValid pe) ;;
           Ret l
       end ;;
  AsyncDiskIO ASYNC_IO_WRITE size (DiskBlocks.address b * kSectorSize) l.

(** ** Reading a block back *)

(** [CheckRegion] on the buffer: the detailed lines and the stop request are shared, the
    words and the error count are the thread's.  [buffer_addr] is the buffer's address. *)
Definition buffer_config (an : Answer) (buffer_addr : Z) : Config :=
  let c := cfg_at s an in
  mkConfig (page_length c) (fill_direction c) (fill_yield_bytes c) (stop_on_error c) (tag_mode_ c) buffer_addr
    (verbosity c) (error_log_limit c) (world c) None.

Definition buffer_view (w : @Shared Q) (l : Local) : Thread :=
  mkThread (block_buffer_ l) (errorcount l) (error_stop_requested_ w) (all_reports w)
    (mkObserved None (log_budget w) (diagnoser w) (all_printed w)).

Definition buffer_update (w : @Shared Q) (st : Thread) : @Shared Q :=
  let o := observed st in
  mkShared (store w) (memory w) (error_stop st) (error_log o) (error_diagnoser_ o) (printed o) (reports st)
    (patternlist_ w) (block_history w) (workers w).

(** The defaults of the arguments the call leaves out. *)
Definition disk_region : Region := mkRegion 0 0 (-1) "unknown" "unknown" (2 ^ 64 - 1).

Definition check_buffer (buffer_addr : Z) (pt : option Z) (length pattern_offset : Z) (l : Local) : P (Z * Local) :=
  act (fun an w =>
    match pattern_object (shared w) pt with
    | None => None
    | Some pat =>
        let '(st, errors) := CheckRegion (buffer_config (base an) buffer_addr) (buffer_view (shared w) l)
          (patternlist_ (shared w)) pat (default 0 pt) disk_region 0 length pattern_offset in
        Some ((errors, set_errors (set_buffer l (mem st)) (errorcount_ st)), set_shared w (buffer_update (shared w) st))
    end).

(** The loop over the read blocks of a written block, [n] turns at most. *)
Fixpoint validate_loop (n : nat) (buffer_addr ptr blocks bytes_read : Z) (l : Local) : P (option bool * Local) :=
  match n with
  | O => Ret (if blocks =? 0 then Some true else None, l)
  | S n' =>
      if blocks =? 0 then Ret (Some true, l)
      else
        r <- ask (fun an => Z.of_N (random (base an))) ;;
        let current_blocks := Z.rem r blocks + 1 in
        let current_bytes := current_blocks * read_block_size_ p in
        let l := clear_buffer current_bytes l in
        b <- block_object ptr ;;
        done <- AsyncDiskIO ASYNC_IO_READ current_bytes (DiskBlocks.address b * kSectorSize + bytes_read) l ;;
        let '(ok, l) := done in
        if negb ok then Ret (Some false, l)
        else
          l <- (if non_destructive_ p then Ret l
                else checked <- check_buffer buffer_addr (DiskBlocks.bd_pattern b) current_bytes bytes_read l ;;
                     let '(errors, l) := checked in
                     Ret (if errors =? 0 then l else count_error l "disk-pattern-error")) ;;
          validate_loop n' buffer_addr ptr (blocks - current_blocks) (bytes_read + current_blocks * read_block_size_ p) l
  end.

Definition ValidateBlockOnDisk (buffer_addr ptr : Z) (l : Local) : P (option bool * Local) :=
  b <- block_object ptr ;;
  let blocks := DiskBlocks.size b / u64 (read_block_size_ p) in
  seek <- ask seek_ok ;;
  if negb seek then Ret (Some false, l)
  else validate_loop (Z.to_nat blocks) buffer_addr ptr blocks 0 l.

(** ** The loops *)

(** [RemoveInFlightBlocks]. *)
Fixpoint remove_loop (q : list Z) (result : bool) : P bool :=
  match q with
  | [] => Ret result
  | ptr :: q' => r <- RemoveBlock ptr ;; remove_loop q' (result && r)
  end.

Definition RemoveInFlightBlocks (l : Local) : P (bool * Local) :=
  r <- remove_loop (in_flight_sectors_ l) true ;;
  Ret (r, set_in_flight l []).

(** One turn of the write phase: go on, leave the phase, or leave [DoWork]. *)
Definition write_turn (num_segments : Z) (st : Z * Local) : P ((Z * Local) + (Z * Local + bool * Local)) :=
  let '(block_num, l) := st in
  running <- common IsReadyToRunNoPause ;;
  if negb (running && (Z.of_nat (length (in_flight_sectors_ l)) <? u64 (s32 (queue_size_ p + 1))))
  then Ret (inr (inl (block_num, l)))
  else
    let segment := Z.rem (Z.quot block_num (blocks_per_segment_ p)) num_segments in
    let block_num := block_num + 1 in
    block <- GetUnusedBlock segment ;;
    match block with
    | None => Ret (inl (block_num, l))
    | Some ptr =>
        written <- (if non_destructive_ p then Ret (true, l)
                    else r <- WriteBlockToDisk ptr l ;;
                         let '(ok, l) := r in
                         Ret (ok, if ok : bool then count_written l else l)) ;;
        let '(ok, l) := written in
        if negb ok then
          RemoveBlock ptr ;; r <- RemoveInFlightBlocks l ;; Ret (inr (inr (true, r.2)))
        else
          block_object ptr ;;                    (* [block->initialized()] reads the flag *)
          Ret (inl (block_num, set_in_flight l (in_flight_sectors_ l ++ [ptr])))
    end.

(** One turn of the read phase. *)
Definition read_turn (buffer_addr : Z) (l : Local) : P (Local + (Local + option bool * Local)) :=
  running <- common IsReadyToRunNoPause ;;
  match (if running : bool then in_flight_sectors_ l else []) with
  | [] => Ret (inr (inl l))
  | ptr :: q =>
      let l := set_in_flight l q in
      r <- ValidateBlockOnDisk buffer_addr ptr l ;;
      let '(ok, l) := r in
      match ok with
      | None => Ret (inr (inr (None, l)))
      | Some ok =>
          RemoveBlock ptr ;;
          if negb ok then r <- RemoveInFlightBlocks l ;; Ret (inr (inr (Some true, r.2)))
          else Ret (inl (count_read l))
      end
  end.

(** One turn of the outer loop; the result is [None] when the turns of a phase are used up. *)
Definition work_turn (fuel : nat) (buffer_addr num_segments : Z) (st : Z * Local)
  : P ((Z * Local) + option (bool * Local)) :=
  let '(block_num, l) := st in
  running <- common IsReadyToRun ;;
  stop <- common error_stop_requested ;;
  if negb (running && negb stop) then
    r <- RemoveInFlightBlocks l ;;
    Ret (inr (Some r))
  else
    w <- loop fuel (write_turn num_segments) (block_num, l) ;;
    match w with
    | None => Ret (inr None)
    | Some (inr r) => Ret (inr (Some r))
    | Some (inl (block_num, l)) =>
        flushed <- ask flush_ok ;;
        if negb flushed then r <- RemoveInFlightBlocks l ;; Ret (inr (Some (false, r.2)))
        else
          r <- loop fuel (read_turn buffer_addr) l ;;
          match r with
          | None | Some (inr (None, _)) => Ret (inr None)
          | Some (inr (Some b, l)) => Ret (inr (Some (b, l)))
          | Some (inl l) => Ret (inl (block_num, l))
          end
    end.

Definition num_segments : Z :=
  if segment_size_ p =? -1 then 1
  else Z.quot (device_sectors_ p) (segment_size_ p) +
       (if Z.rem (device_sectors_ p) (segment_size_ p) =? 0 then 0 else 1).

(** [DiskThread::DoWork]: the result and the thread's members. *)
Definition DoWork (fuel : nat) (buffer_addr : Z) (l : Local) : P (option (bool * Local)) :=
  act (fun _ w => if (segment_size_ p =? 0) || (device_sectors_ p * kSectorSize <=? s32 (3 * cache_size_ p))
                  then None else Some (tt, w)) ;;
  r <- loop fuel (work_turn fuel buffer_addr num_segments) (0, l) ;;
  Ret (match r with Some r => r | None => None end).

(** [RandomDiskThread::DoWork]. *)
Definition random_turn (buffer_addr : Z) (l : Local) : P (Local + option Local) :=
  running <- common IsReadyToRun ;;
  stop <- common error_stop_requested ;;
  if negb (running && negb stop) then Ret (inr (Some l))
  else
    block <- GetRandomBlock ;;
    match block with
    | None => Ret (inl l)
    | Some ptr =>
        r <- ValidateBlockOnDisk buffer_addr ptr l ;;
        let '(ok, l) := r in
        match ok with
        | None => Ret (inr None)
        | Some _ => ReleaseBlock ptr ;; Ret (inl (count_read l))
        end
    end.

Definition RandomDoWork (fuel : nat) (buffer_addr : Z) (l : Local) : P (option (bool * Local)) :=
  r <- loop fuel (random_turn buffer_addr) l ;;
  Ret (match r with Some (Some l) => Some (true, l) | _ => None end).

End Thread.

(** ** [Work] *)

(** [OpenDevice]; [opened] is whether one of the two attempts to open it succeeds. *)
Definition OpenDevice (p : DiskParams) (t : DiskBlocks.DiskBlockTable) (opened : bool) (stat : DeviceStat)
  : Outcome (DiskParams * DiskBlocks.DiskBlockTable) * Z * bool :=
  if opened then GetDiskSize p t stat else (Refused, 0, false).

(** [DiskThread::Work]: the device is opened, the buffer allocated and the context set up,
    and then [body], the virtual [DoWork], runs with the parameters of the device.  [words]
    are the uninitialised contents of the buffer. *)
Definition Work {Q} `{PS : PageStore Answer Q} (p : DiskParams) (opened : bool) (stat : DeviceStat) (aligned setup : bool)
    (words : list Z) (body : DiskParams -> Local -> Prog DiskAnswer (@DiskWorld Q) (option (bool * Local)))
  : Prog DiskAnswer (@DiskWorld Q) (option (bool * Local)) :=
  let l := mkLocal [] words 0 0 0 [] 0 in
  opened <- act (fun _ w =>
    let '(r, errors, _) := OpenDevice p (table w) opened stat in
    match r with
    | Done (p, t) => Some (inl p, set_blocks w t (objects w))
    | Refused => Some (inr (if errors =? 0 then l else count_error l "device-size-zero"), w)
    | Crashed => None
    end) ;;
  match opened with
  | inr l => Ret (Some (false, l))
  | inl p => if negb (aligned && setup) then Ret (Some (false, l)) else body p l
  end.

End DiskThread.

Module DiskThreadFacts.
Import PageQueue Program ProgramFacts PageStore Worker WorkerFacts Threads Sums Accounting AccountingFacts DiskThread.
Import DiskBlocksFacts.

(** ** The invariant of a device

    One thread owns the blocks of the table, each with its object and, once it has been
    written, with the words the device holds for it. *)
Record Blk := mkBlk { b_ptr : Z; b_data : DiskBlocks.BlockData; b_words : option (list Z) }.

Section Facts.
Context {Q : Type} `{PS : PageStore Answer Q}.
Context (s : Settings) (pats : list Patterns.Pattern) (nw : nat) (p : DiskParams).
Abbreviation n := (pages s).
Abbreviation psize := (page_length (cfg s)).
Abbreviation pw := (page_words (cfg s)).
Context `{LAWS : !PageStoreLaws Answer Q n psize}.
Context (OK : settings_ok s pats).

(** The parameters covered here: reads and writes of the same size, not larger than
    a work block.  [SetParameters] accepts others; for smaller read blocks
    [chunked_read_false_alarm] shows what happens. *)
Record disk_ok : Prop := {
  do_size : 512 <= write_block_size_ p <= psize /\ write_block_size_ p mod 512 = 0;
  do_read : read_block_size_ p = write_block_size_ p;
  do_queue : 0 <= queue_size_ p < 2 ^ 31 - 2;
  do_device : 0 < device_sectors_ p < 2 ^ 55 /\ write_block_size_ p <= 512 * device_sectors_ p;
  do_assert : s32 (3 * cache_size_ p) < device_sectors_ p * 512;
  do_segment : segment_size_ p = -1 \/
    0 < segment_size_ p < 2 ^ 55 /\ write_block_size_ p <= 512 * segment_size_ p;
  do_per_segment : 0 < blocks_per_segment_ p
}.
Context (DOK : disk_ok).

(** The table as [SetParameters] leaves it. *)
Definition table_params (t : DiskBlocks.DiskBlockTable) : Prop :=
  DiskBlocks.sector_size_ t = 512 /\ DiskBlocks.write_block_size_ t = write_block_size_ p /\
  DiskBlocks.device_sectors_ t = device_sectors_ p /\ DiskBlocks.segment_size_ t = segment_size_ p.

Lemma block_words : 8 * (write_block_size_ p / 8) = write_block_size_ p /\
  write_block_size_ p / 8 = 64 * (write_block_size_ p / 512) /\ write_block_size_ p = 512 * (write_block_size_ p / 512) /\
  1 <= write_block_size_ p / 512 /\ write_block_size_ p / 8 <= Z.of_nat pw < 2 ^ 28.
Proof using OK DOK.
  destruct DOK as [[H1 H2] _ _ _ _ _ _]. destruct (pw_eq s pats OK) as (_ & Hp & Hb).
  pose proof (Z.div_mod (write_block_size_ p) 512). assert (He : write_block_size_ p / 8 = 64 * (write_block_size_ p / 512)).
  { symmetry. apply Z.div_unique with 0; lia. }
  lia.
Qed.

Lemma table_good t : table_params t -> good_params t.
Proof using OK DOK.
  intros (H1 & H2 & H3 & H4). pose proof block_words. destruct DOK as [[D1 D1'] D2 D3 D4 D5 D6 D7].
  split; rewrite ?H1, ?H2, ?H3, ?H4; lia.
Qed.

Definition blk_words : nat := Z.to_nat (write_block_size_ p / 8).

(** Where the words of a block are. *)
Definition blk_at (b : DiskBlocks.BlockData) : Z := DiskBlocks.address b * 64.

Definition blk_ok (w : @DiskWorld Q) (r : Blk) : Prop :=
  objects w !! b_ptr r = Some (b_data r) /\ DiskBlocks.initialized_ (b_data r) = false /\
  DiskBlocks.size (b_data r) = write_block_size_ p /\
  forall ws, b_words r = Some ws -> range_words (device w) (blk_at (b_data r)) blk_words = ws.

Record disk_inv (w : @DiskWorld Q) (l : list Blk) : Prop := {
  di_sys : sys_inv (mkSys (table w) (objects w) (map b_ptr l) []);
  di_params : table_params (table w);
  di_size : DiskBlocks.size_ (table w) = Z.of_nat (length l);
  di_blocks : Forall (blk_ok w) l;
  di_device : Z.of_nat (length (device w)) = 64 * device_sectors_ p
}.

(** The owner is the only one who has resources of the device. *)
Definition J (w : @DiskWorld Q) (R : list (list Blk)) : Prop := exists l, R = [l] /\ disk_inv w l.

Definition faithful (an : DiskAnswer) : Prop := forall l, delivered an l = l.

Definition Inv0 (F : Z) (w : @Shared Q) (R : list Res) : Prop := F = 0 /\ Inv s pats nw F w R.
Abbreviation BInv := (both shared Inv0 J).
Abbreviation gsafe := (gsafe faithful True BInv).

#[local] Instance BInv_proper x w : Proper (Permutation ==> iff) (BInv x w).
Proof.
  apply both_proper.
  - intros y v R R' HR. unfold Inv0. by rewrite (Inv_proper s pats nw y v R R' HR).
  - intros v. enough (Himp : forall R R', R ≡ₚ R' -> J v R -> J v R') by (intros R R' HR; by split; apply Himp).
    intros R R' HR (l & -> & Hl). symmetry in HR. apply Permutation_singleton_r in HR as ->. by exists l.
Qed.

(** The resources of the thread that owns the device. *)
Definition own (R : list Res) (l : list Blk) : list (Res + list Blk) := map inl R ++ [inr l].

(** An access of the owner. *)
Lemma gsafe_own {B} (f : DiskAnswer -> @DiskWorld Q -> option (B * @DiskWorld Q)) R l
    (Qp : B -> list (Res + list Blk) -> Prop) :
  (forall w R' an, faithful an -> Inv s pats nw 0 (shared w) (R ++ R') -> disk_inv w l ->
     exists b w' R2 l2, f an w = Some (b, w') /\ Inv s pats nw 0 (shared w') (R2 ++ R') /\ disk_inv w' l2 /\
       Qp b (own R2 l2)) ->
  gsafe (act f) (own R l) Qp.
Proof.
  intros H. apply gsafe_act. intros x w R' an Ha [[-> Hi] (l' & Hl & Hd)]. unfold own in *.
  rewrite !lefts_app, lefts_inl, <- app_assoc in Hi. rewrite !rights_app, rights_inl in Hl. cbn [rights omap list_omap app] in Hl, Hi.
  injection Hl as <- Hl. destruct (H w (lefts R') an Ha Hi Hd) as (b & w' & R2 & l2 & Hf & Hi' & Hd' & HQ).
  exists b, w', (map inl R2 ++ [inr l2]). split; [done|]. split; [|done]. split.
  - split; [done|]. by rewrite !lefts_app, lefts_inl, <- app_assoc.
  - exists l2. rewrite !rights_app, rights_inl. cbn [rights omap list_omap app]. by rewrite Hl.
Qed.

(** What all threads do. *)
Lemma gsafe_common {A} (q : Prog Answer (@Shared Q) A) R l (Qp : A -> list (Res + list Blk) -> Prop) :
  safe (Inv s pats nw) q R (fun a R' => Qp a (own R' l)) -> gsafe (common q) (own R l) Qp.
Proof.
  intros H. apply (gsafe_embed base shared set_shared Inv0 J); [done | |by apply safe_where].
  intros w v R0 (l0 & -> & [H1 H2 H3 H4 H5]). exists l0. split; [done|]. by split.
Qed.

(** *** The owner's blocks *)

Lemma sys_inv_perm t h w w' r : w ≡ₚ w' -> sys_inv (mkSys t h w r) -> sys_inv (mkSys t h w' r).
Proof.
  intros Hw [H1 H2 H3 H4]. split; cbn [tbl objs writers readers] in *; [done | by rewrite <- Hw | |].
  - intros x. specialize (H3 x). rewrite <- (cnt_proper x _ _ Hw). destruct (h !! x); [done|]. by rewrite <- Hw.
  - intros x. by rewrite <- Hw.
Qed.

Lemma disk_inv_perm w l l' : l ≡ₚ l' -> disk_inv w l -> disk_inv w l'.
Proof.
  intros Hl [H1 H2 H3 H4 H5]. split; try done.
  - eapply sys_inv_perm; [|exact H1]. by rewrite Hl.
  - by rewrite H3, Hl.
  - by rewrite <- Hl.
Qed.

Lemma own_perm R l l' : l ≡ₚ l' -> forall x w R', BInv x w (own R l ++ R') -> BInv x w (own R l' ++ R').
Proof.
  intros Hl x w R' [H1 (l0 & H2 & H3)]. unfold own in *. rewrite !lefts_app, !rights_app, !lefts_inl, !rights_inl in *.
  cbn [rights omap list_omap app] in H2. injection H2 as <- H2. split; [rewrite !lefts_app, lefts_inl; exact H1|].
  exists l'. rewrite !rights_app, rights_inl. cbn [rights omap list_omap app]. rewrite H2. split; [done|].
  by apply (disk_inv_perm w l).
Qed.

(** Before an access the owner may list the blocks in another order. *)
Lemma gsafe_own_perm {A} (q : Prog DiskAnswer (@DiskWorld Q) A) R l l' Qp :
  match q with Ret _ => False | Act _ _ _ => True end -> l ≡ₚ l' -> gsafe q (own R l') Qp -> gsafe q (own R l) Qp.
Proof.
  destruct q as [a|B f k]; cbn [ProgramFacts.gsafe]; [done|]. intros _ Hl H x w R' an Ha Hi. apply H; [done|].
  by apply (own_perm R l).
Qed.

Lemma blk_facts w r l :
  disk_inv w (r :: l) ->
  objects w !! b_ptr r = Some (b_data r) /\
  (exists c, DiskBlocks.addr_to_block_ (table w) !! DiskBlocks.address (b_data r) = Some (DiskBlocks.mkStorage (b_ptr r) c)) /\
  DiskBlocks.references_ (b_data r) = 1 /\ placed (table w) (DiskBlocks.address (b_data r)) /\
  b_ptr r ∉ map b_ptr l.
Proof.
  intros [H1 H2 H3 H4 H5]. apply Forall_cons in H4 as [(Ho & _) _]. split; [done|].
  destruct (writer_owns _ (b_ptr r) H1) as (b & c & Hb & Hsd & Href & _); [cbn; left|]. cbn [objs tbl writers readers] in *.
  rewrite Ho in Hb. injection Hb as <-. split; [by exists c|].
  pose proof (si_nodup _ H1) as Hnd. cbn [writers map] in Hnd. apply NoDup_cons in Hnd as [Hni _].
  split; [|split; [|done]].
  - cbn [map] in Href. rewrite cnt_cons, decide_True in Href by done.
    assert (Hz : cnt (b_ptr r) (map b_ptr l) = 0).
    { pose proof (cnt_nonneg (b_ptr r) (map b_ptr l)). destruct (decide (0 < cnt (b_ptr r) (map b_ptr l))) as [Hc|]; [|lia].
      by apply cnt_pos in Hc. }
    rewrite Hz in Href. unfold cnt in Href. cbn in Href. lia.
  - destruct (ti_addr _ _ (si_table _ H1) _ _ Hsd) as (_ & _ & Hp & _). exact Hp.
Qed.

Lemma num_sectors_eq t : table_params t -> num_sectors t = write_block_size_ p / 512.
Proof. intros (H1 & H2 & _). unfold num_sectors. by rewrite H1, H2. Qed.

(** Blocks do not overlap on the device, and lie in it. *)
Lemma blk_apart w r l :
  disk_inv w (r :: l) ->
  (0 <= blk_at (b_data r) /\ blk_at (b_data r) + Z.of_nat blk_words <= Z.of_nat (length (device w))) /\
  forall r', r' ∈ l -> 0 <= blk_at (b_data r') /\
    (blk_at (b_data r') + Z.of_nat blk_words <= blk_at (b_data r) \/ blk_at (b_data r) + Z.of_nat blk_words <= blk_at (b_data r')).
Proof using OK DOK.
  intros Hd. pose proof (blk_facts _ _ _ Hd) as (Ho & (c & Hc) & _ & Hp & Hni). pose proof block_words as (W1 & W2 & W3 & W4 & W5).
  pose proof (di_params _ _ Hd) as Hpar. pose proof (num_sectors_eq _ Hpar) as Hn. pose proof (di_device _ _ Hd) as Hdev.
  assert (Hbw : Z.of_nat blk_words = 64 * num_sectors (table w)) by (unfold blk_words; lia). unfold blk_at.
  split.
  - destruct Hp as (H0 & H1 & _). destruct Hpar as (_ & _ & He & _). rewrite He in H1. lia.
  - intros r' Hr'. apply elem_of_Permutation in Hr' as (l' & Hl').
    assert (Hd' : disk_inv w (r' :: r :: l')).
    { apply (disk_inv_perm w (r :: l)); [|done]. rewrite Hl'. constructor. }
    destruct (blk_facts _ _ _ Hd') as (_ & (c' & Hc') & _ & Hp' & Hni').
    split; [destruct Hp'; lia|].
    assert (Hne : DiskBlocks.address (b_data r') <> DiskBlocks.address (b_data r)).
    { intros He. rewrite He, Hc in Hc'. injection Hc' as Heq _. apply Hni'. cbn. rewrite <- Heq. left. }
    destruct (placed_disjoint (table w) _ _ (table_good _ Hpar) Hp' Hp Hne); lia.
Qed.

(** Accesses to an object. *)
Lemma gsafe_block_object r R l (Qp : DiskBlocks.BlockData -> list (Res + list Blk) -> Prop) :
  (DiskBlocks.size (b_data r) = write_block_size_ p -> Qp (b_data r) (own R (r :: l))) ->
  gsafe (block_object (b_ptr r)) (own R (r :: l)) Qp.
Proof.
  intros HQ. apply gsafe_own. intros w R' an _ Hi Hd. destruct (blk_facts _ _ _ Hd) as (Ho & _).
  rewrite Ho. exists (b_data r), w, R, (r :: l). split; [done|]. split; [done|]. split; [done|]. apply HQ.
  destruct Hd as [_ _ _ H4 _]. by apply Forall_cons in H4 as [(_ & _ & ? & _) _].
Qed.

Lemma gsafe_set_pattern r pt R l (Qp : unit -> list (Res + list Blk) -> Prop) :
  Qp tt (own R (mkBlk (b_ptr r) (DiskBlocks.set_pattern (b_data r) pt) (b_words r) :: l)) ->
  gsafe (block_set_pattern (b_ptr r) pt) (own R (r :: l)) Qp.
Proof.
  intros HQ. apply gsafe_own. intros w R' an _ Hi Hd. destruct (blk_facts _ _ _ Hd) as (Ho & _ & _ & _ & Hni).
  rewrite Ho. eexists tt, _, R, _. split; [done|]. split; [exact Hi|]. split; [|exact HQ].
  destruct Hd as [H1 H2 H3 H4 H5]. split; cbn [table objects device set_blocks map b_ptr]; try done.
  - destruct H1 as [S1 S2 S3 S4]. cbn [tbl objs writers readers] in *.
    split; cbn [tbl objs writers readers]; [by apply (table_inv_update (table w) (objects w) (b_ptr r) (b_data r)) | done | |].
    + intros x. specialize (S3 x). destruct (decide (x = b_ptr r)) as [->|Hne].
      * rewrite Ho in S3. by rewrite lookup_insert_eq.
      * by rewrite lookup_insert_ne.
    + by apply (owner_update (mkSys (table w) (objects w) (map b_ptr (r :: l)) []) _ (b_data r)).
  - apply Forall_cons in H4 as [(_ & B2 & B3 & B4) H4]. constructor.
    + split; [cbn; by rewrite lookup_insert_eq|]. done.
    + rewrite Forall_forall in H4 |- *. intros r' Hr'. destruct (H4 r' Hr') as (C1 & C2 & C3 & C4).
      split; [|done]. cbn [objects set_blocks b_ptr]. rewrite lookup_insert_ne; [done|]. intros He. apply Hni. rewrite He.
      by apply list_elem_of_fmap_2.
Qed.
(** *** The table *)

Lemma fresh_ptr_new an (w : @DiskWorld Q) : objects w !! fresh_ptr an w = None.
Proof.
  unfold fresh_ptr. case_decide; [done|]. apply not_elem_of_dom, is_fresh.
Qed.

Lemma gsafe_GetUnusedBlock segment R l (Qp : option Z -> list (Res + list Blk) -> Prop) :
  0 <= segment -> Z.of_nat (length l) < 2 ^ 31 - 1 -> Qp None (own R l) ->
  (forall ptr b, Qp (Some ptr) (own R (mkBlk ptr b None :: l))) ->
  gsafe (GetUnusedBlock segment) (own R l) Qp.
Proof using OK DOK.
  intros Hseg Hlen Hnone Hsome. apply gsafe_own. intros w R' an _ Hi Hd.
  pose proof (fresh_ptr_new an w) as Hfr. set (ptr := fresh_ptr an w) in *.
  destruct Hd as [H1 H2 H3 H4 H5].
  destruct (unused_inv _ _ _ _ segment ptr (sector_random an) H1 Hfr Hseg) as (res & t' & h' & He & Hs); [lia|].
  rewrite He. pose proof He as He'. unfold DiskBlocks.GetUnusedBlock in He'.
  destruct (DiskBlocks.device_sectors_ (table w) =? 0); [done|].
  destruct (DiskBlocks.retry_loop _ _ _ _ _ _) as [sector|] eqn:Hre.
  - destruct (DiskBlocks.InsertOnStructure _ _ _) as [t2|] eqn:Hins; [|done]. injection He' as <- <- <-.
    eexists (Some ptr), _, R, _. split; [reflexivity|]. split; [exact Hi|]. split; [|apply Hsome].
    unfold DiskBlocks.InsertOnStructure in Hins. rewrite lookup_insert_eq in Hins. injection Hins as <-.
    split; cbn [table objects device set_blocks map b_ptr length] in *; [exact Hs | done | cbn; lia | | done].
    constructor.
    + split; [cbn; by rewrite lookup_insert_eq|]. split; [done|]. split; [|done]. cbn. destruct H2 as (_ & -> & _).
      pose proof block_words. apply u64_id. lia.
    + rewrite Forall_forall in H4 |- *. intros r' Hr'. destruct (H4 r' Hr') as (C1 & C2 & C3 & C4). split; [|done].
      cbn [objects set_blocks b_ptr]. rewrite lookup_insert_ne; [done|]. intros Heq. rewrite <- Heq, Hfr in C1. done.
  - injection He' as <- <- <-. exists None, (set_blocks w (table w) (objects w)), R, l. split; [done|]. split; [exact Hi|].
    split; [by split | done].
Qed.

Lemma gsafe_RemoveBlock r R l (Qp : bool -> list (Res + list Blk) -> Prop) :
  Qp true (own R l) -> gsafe (RemoveBlock (b_ptr r)) (own R (r :: l)) Qp.
Proof.
  intros HQ. apply gsafe_own. intros w R' an _ Hi Hd.
  destruct (blk_facts _ _ _ Hd) as (Ho & (c & Hc) & Href & _ & Hni). destruct Hd as [H1 H2 H3 H4 H5].
  destruct (remove_inv _ _ _ _ (map b_ptr l) (b_ptr r) H1 ltac:(done)) as (t' & h' & He & Hs).
  destruct (RemoveBlock_eq _ _ _ _ c (si_table _ H1) Ho ltac:(lia) Hc) as (lptr & _ & He'). cbn [tbl objs] in He'.
  rewrite He' in He. injection He as <- <-. rewrite He'. eexists true, _, R, l. split; [reflexivity|]. split; [exact Hi|].
  split; [|exact HQ]. split; cbn [table objects device set_blocks] in *; [exact Hs | done | cbn in *; lia | | done].
  apply Forall_cons in H4 as [_ H4]. rewrite Forall_forall in H4 |- *. intros r' Hr'.
  destruct (H4 r' Hr') as (C1 & C2 & C3 & C4). split; [|done]. cbn [objects set_blocks]. rewrite release_other; [done|].
  intros Heq. apply Hni. rewrite <- Heq. by apply list_elem_of_fmap_2.
Qed.

(** A block is never marked as initialized, so none is handed out. *)
Lemma gsafe_GetRandomBlock (Qp : option Z -> list (Res + list Blk) -> Prop) :
  Qp None [] -> gsafe GetRandomBlock [] Qp.
Proof.
  intros HQ. apply gsafe_act. intros x w R an _ [Hi (l & Hl & Hd)]. cbn [app] in *. destruct Hd as [H1 H2 H3 H4 H5].
  exists None, (set_blocks w (table w) (objects w)), []. split; [|split; [|done]].
  - unfold DiskBlocks.GetRandomBlock. destruct (_ || _) eqn:Hw; [done|]. apply orb_false_elim in Hw as [_ Hw].
    apply Z.leb_gt in Hw. pose proof (Z.mod_pos_bound (block_random an) _ Hw) as Hm.
    destruct (ti_pos _ _ (si_table _ H1) _ Hm) as [ptr Hp]. cbn [tbl] in Hp. rewrite Hp. cbn [DiskBlocks.block].
    destruct (ti_addr _ _ (si_table _ H1) _ _ Hp) as (_ & _ & _ & b & Hb & Ha). cbn [tbl objs DiskBlocks.block] in *.
    assert (Hin : ptr ∈ map b_ptr l).
    { apply (si_owner _ H1). exists b. split; [done|]. cbn [tbl]. unfold table_blocks. rewrite lookup_fmap, Ha, Hp. done. }
    apply list_elem_of_fmap in Hin as (r & -> & Hr). rewrite Forall_forall in H4. destruct (H4 r Hr) as (C1 & C2 & _).
    rewrite C1. by rewrite C2.
  - split; [exact Hi|]. exists l. split; [done|]. by split.
Qed.

(** *** The device *)

Lemma blk_range : Z.to_nat (write_block_size_ p / 8) = blk_words /\ 0 <= write_block_size_ p / 8.
Proof using OK DOK. pose proof block_words. split; [done | lia]. Qed.

Lemma offset_at (b : DiskBlocks.BlockData) : DiskBlocks.address b * kSectorSize / 8 = blk_at b.
Proof. unfold kSectorSize, blk_at. replace (DiskBlocks.address b * 512) with (DiskBlocks.address b * 64 * 8) by lia. by apply Z.div_mul. Qed.

(** A store into the range of the first block. *)
Lemma disk_inv_write w r l src ws :
  disk_inv w (r :: l) -> (forall ws', ws = Some ws' -> length src = blk_words /\ ws' = src) ->
  disk_inv (set_device w (copy_words src blk_words (blk_at (b_data r)) (device w))) (mkBlk (b_ptr r) (b_data r) ws :: l).
Proof using OK DOK.
  intros Hd Hws. destruct (blk_apart _ _ _ Hd) as [[Ha1 Ha2] Hap]. destruct Hd as [H1 H2 H3 H4 H5].
  split; cbn [table objects device set_device map b_ptr length] in *; try done; [|by rewrite length_copy_words].
  apply Forall_cons in H4 as [(C1 & C2 & C3 & C4) H4]. constructor.
  - split; [done|]. split; [done|]. split; [done|]. cbn [b_words b_data device set_device]. intros ws' ->.
    destruct (Hws ws' eq_refl) as [Hl ->]. by apply copied_range.
  - rewrite Forall_forall in H4 |- *. intros r' Hr'. destruct (H4 r' Hr') as (D1 & D2 & D3 & D4). split; [done|].
    split; [done|]. split; [done|]. intros ws' Hws'. cbn [device set_device]. destruct (Hap r' Hr') as [Hb Hdis].
    rewrite copied_elsewhere; [by apply D4 | done | done | done | lia].
Qed.

Lemma gsafe_write has r R l loc (Qp : bool * Local -> list (Res + list Blk) -> Prop) :
  length (block_buffer_ loc) = pw -> b_words r = None ->
  (forall e, e = [] \/ e = ["disk-write-error"] -> Qp (false, fold_left count_error e loc) (own R (r :: l))) ->
  Qp (true, loc) (own R (mkBlk (b_ptr r) (b_data r) (Some (range_words (block_buffer_ loc) 0 blk_words)) :: l)) ->
  gsafe (AsyncDiskIO has ASYNC_IO_WRITE (write_block_size_ p) (DiskBlocks.address (b_data r) * kSectorSize) loc) (own R (r :: l)) Qp.
Proof using OK DOK.
  intros Hbuf Hw Hfail Hok. pose proof block_words as (W1 & W2 & W3 & W4 & W5).
  assert (Hnone : forall w src, disk_inv w (r :: l) ->
    disk_inv (set_device w (copy_words src blk_words (blk_at (b_data r)) (device w))) (r :: l)).
  { intros w src Hd. destruct r as [ptr b wds]. cbn in Hw. subst wds. by apply (disk_inv_write w (mkBlk ptr b None)). }
  unfold AsyncDiskIO. destruct has.
  - apply gsafe_own. intros w R' an _ Hi Hd. unfold transfer. rewrite offset_at. fold blk_words.
    destruct (io an) as [| | |res].
    + eexists _, w, R, _. split; [done|]. split; [exact Hi|]. split; [done | apply (Hfail []); by left].
    + eexists _, _, R, _. split; [reflexivity|]. split; [exact Hi|]. split; [by apply Hnone | apply (Hfail []); by left].
    + eexists _, _, R, _. split; [reflexivity|]. split; [exact Hi|]. split; [by apply Hnone | apply (Hfail ["disk-write-error"]); by right].
    + destruct (res =? _).
      * eexists _, _, R, _. split; [reflexivity|]. split; [exact Hi|]. split; [|exact Hok].
        assert (Heq : copy_words (block_buffer_ loc) blk_words (blk_at (b_data r)) (device w) =
          copy_words (range_words (block_buffer_ loc) 0 blk_words) blk_words (blk_at (b_data r)) (device w)).
        { destruct (blk_apart _ _ _ Hd) as [[Ha1 Ha2] _]. rewrite !copy_words_filled by done. apply list_eq. intros k.
          rewrite !lookup_filled. destruct (device w !! k); [|done]. cbn. case_decide; [|done]. rewrite aget_range_words by lia.
          done. }
        rewrite Heq. apply disk_inv_write; [done|]. intros ws [= <-]. split; [apply length_range_words | done].
      * eexists _, _, R, _. split; [reflexivity|]. split; [exact Hi|]. split; [by apply Hnone | apply (Hfail ["disk-write-error"]); by right].
  - apply (Hfail []). by left.
Qed.

Lemma set_buffer_same loc : set_buffer loc (block_buffer_ loc) = loc.
Proof. by destruct loc. Qed.

Lemma gsafe_disk_read has r R l loc (Qp : bool * Local -> list (Res + list Blk) -> Prop) :
  length (block_buffer_ loc) = pw ->
  (forall e buf, length buf = pw -> e = [] \/ e = ["disk-read-error"] ->
     Qp (false, fold_left count_error e (set_buffer loc buf)) (own R (r :: l))) ->
  (forall buf, length buf = pw -> (forall ws, b_words r = Some ws -> range_words buf 0 blk_words = ws) ->
     Qp (true, set_buffer loc buf) (own R (r :: l))) ->
  gsafe (AsyncDiskIO has ASYNC_IO_READ (write_block_size_ p) (DiskBlocks.address (b_data r) * kSectorSize + 0) loc)
    (own R (r :: l)) Qp.
Proof using OK DOK.
  intros Hbuf Hfail Hok. pose proof block_words as (W1 & W2 & W3 & W4 & W5). unfold AsyncDiskIO. destruct has.
  - apply gsafe_own. intros w R' an Ha Hi Hd. unfold transfer. rewrite Z.add_0_r, offset_at. fold blk_words.
    assert (Hlen : forall src, length (copy_words src blk_words 0 (block_buffer_ loc)) = pw)
      by (intros src; by rewrite length_copy_words).
    destruct (io an) as [| | |res]; [| | |destruct (res =? _)]; eexists _, w, R, (r :: l); (split; [reflexivity|]);
      (split; [exact Hi|]); (split; [done|]).
    + rewrite <- (set_buffer_same loc). apply (Hfail []); [done | by left].
    + apply (Hfail []); [done | by left].
    + apply (Hfail ["disk-read-error"]); [done | by right].
    + apply Hok; [done|]. intros ws Hws. rewrite Ha. destruct Hd as [_ _ _ H4 _]. apply Forall_cons in H4 as [(_ & _ & _ & C4) _].
      rewrite <- (C4 ws Hws). apply copied_range; [lia | rewrite Hbuf; unfold blk_words; lia | apply length_range_words].
    + apply (Hfail ["disk-read-error"]); [done | by right].
  - rewrite <- (set_buffer_same loc). apply (Hfail []); [done | by left].
Qed.

(** *** Comparing the buffer *)

Lemma gsafe_check_buffer addr pt pat R l loc (Qp : Z * Local -> list (Res + list Blk) -> Prop) :
  pat_at pats pt = Some pat -> length (block_buffer_ loc) = pw ->
  (forall e buf, 0 <= e -> length buf = pw ->
     (range_words (block_buffer_ loc) 0 blk_words = map (PatternFacts.pattern_word pat) (zrange 0 blk_words) -> e = 0) ->
     Qp (e, set_errors (set_buffer loc buf) (errorcount loc + e)) (own R l)) ->
  gsafe (check_buffer s addr pt (write_block_size_ p) 0 loc) (own R l) Qp.
Proof using OK DOK.
  intros Hpat Hbuf HQ. pose proof block_words as (W1 & W2 & W3 & W4 & W5). apply gsafe_own. intros w R' an _ Hi Hd.
  rewrite (pattern_object_at s pats nw 0 (shared w) _ pt Hi), Hpat.
  destruct (CheckRegion_repairs (buffer_config s (base an) addr) pat disk_region 0 0 (buffer_view (shared w) loc)
    (patternlist_ (shared w)) (default 0 pt) (write_block_size_ p)) as (st' & -> & Hm & He & _ & _);
    [lia | lia | cbn [mem buffer_view]; change wordsize_ with 8; lia |].
  set (ws := wrong _ _ _ _ _ _ _) in *. eexists _, _, R, l. split; [reflexivity|]. split; [|split].
  - apply (inv_other s pats nw 0 (shared w)); try done. exact (inv_plist s pats nw _ _ _ Hi).
  - destruct Hd as [H1 H2 H3 H4 H5]. by split.
  - rewrite He. apply HQ; [lia | by rewrite Hm, length_filled|]. intros Hbw.
    destruct ws as [|j ws'] eqn:Hws; [done|]. exfalso.
    assert (Hin : j ∈ ws) by (rewrite Hws; left). unfold ws, wrong in Hin. apply list_elem_of_filter in Hin as [Hne Hj].
    apply elem_of_zrange in Hj. change wordsize_ with 8 in Hj. apply Hne.
    rewrite expected_plain; [|exact (so_tag _ _ OK) | lia].
    cbn [mem buffer_view]. rewrite <- (aget_range_words _ _ blk_words) by (unfold blk_words; lia). rewrite Hbw.
    apply Patterns.PatternFacts.aget_pattern_block. unfold blk_words. lia.
Qed.
(** ** The thread's own members *)

Definition quiet (loc : Local) : Prop :=
  ("disk-pattern-error"%string ∉ device_reports loc) /\ errorcount loc = Z.of_nat (length (device_reports loc)).

(** A block in flight has a pattern, and without a fallback fill the device holds it. *)
Definition blk_good (r : Blk) : Prop :=
  non_destructive_ p = false -> exists pat, pat_at pats (DiskBlocks.bd_pattern (b_data r)) = Some pat.
Definition blk_clean (r : Blk) : Prop :=
  non_destructive_ p = false -> exists pat, pat_at pats (DiskBlocks.bd_pattern (b_data r)) = Some pat /\
    b_words r = Some (map (PatternFacts.pattern_word pat) (zrange 0 blk_words)).

Record loc_ok (loc : Local) (l : list Blk) : Prop := {
  lo_flight : in_flight_sectors_ loc = map b_ptr l;
  lo_len : Z.of_nat (length l) <= queue_size_ p + 1;
  lo_buffer : length (block_buffer_ loc) = pw;
  lo_good : Forall blk_good l;
  lo_nonneg : 0 <= fallbacks loc;
  lo_clean : fallbacks loc = 0 -> Forall blk_clean l;
  lo_quiet : fallbacks loc = 0 -> quiet loc
}.

Lemma loc_ok_buffer loc l buf : loc_ok loc l -> length buf = pw -> loc_ok (set_buffer loc buf) l.
Proof. intros [] Hb. by split. Qed.

Lemma loc_ok_errors loc l e :
  loc_ok loc l -> Forall (fun x => x <> "disk-pattern-error"%string) e -> loc_ok (fold_left count_error e loc) l.
Proof.
  intros Hl He. revert loc Hl. induction He as [|x e Hx He IH]; intros loc Hl; [done|]. apply IH.
  destruct Hl as [H1 H2 H3 H4 H5 H6 H7]. split; try done. cbn [fallbacks count_error]. intros Hf. destruct (H7 Hf) as [Q1 Q2].
  split; cbn [device_reports count_error errorcount].
  - rewrite not_elem_of_app, list_elem_of_singleton. split; [done | congruence].
  - rewrite length_app. cbn. lia.
Qed.

Lemma io_error_ok e : e = [] \/ e = ["disk-write-error"%string] \/ e = ["disk-read-error"%string] ->
  Forall (fun x => x <> "disk-pattern-error"%string) e.
Proof. intros [->|[->| ->]]; repeat constructor; done. Qed.

Lemma length_fallback_fill pat size buf : length (fallback_fill pat size buf) = length buf.
Proof.
  unfold fallback_fill. generalize (zrange 0 (Z.to_nat (size / wordsize_))). intros l. revert buf.
  induction l as [|i l IH]; intros buf; [done|]. cbn [fold_left]. rewrite IH. unfold store32. apply length_aset.
Qed.

Lemma errors_nonneg m o pt : 0 <= errors_at s pats m o pt.
Proof. unfold errors_at. destruct (pat_at _ _); lia. Qed.

(** A valid block of memory holds its pattern while no word has gone bad. *)
Lemma full_words w o pt R :
  Inv s pats nw 0 w (Full o pt :: R) ->
  exists pat, pat_at pats pt = Some pat /\
    forall j, 0 <= j < Z.of_nat pw -> aget 0 (memory w) (o / 8 + j) = PatternFacts.pattern_word pat j.
Proof.
  intros (V & E & [H1 H2 H3 H4 H5 H6 H7 Hnn]). apply Forall_cons in H3 as [(pat & Hp & _) _]. exists pat. split; [done|].
  cbn [map] in H7. cbn [res_errors] in H7.
  pose proof (res_errors_nonneg s pats (memory w) R) as N1.
  assert (N2 : 0 <= zsum (map (entry_errors s pats (memory w)) V)).
  { apply zsum_nonneg, Forall_map, Forall_true. intros pe. apply errors_nonneg. }
  unfold zsum in H7, N1, N2. cbn [foldr] in H7.
  assert (N3 : errors_at s pats (memory w) o pt = 0).
  { pose proof (errors_nonneg (memory w) o pt). lia. }
  unfold errors_at in N3. rewrite Hp in N3.
  assert (Hb : bad_words pat (o / 8) (memory w) 0 pw = []) by (apply nil_length_inv; lia).
  intros j Hj. destruct (decide (aget 0 (memory w) (o / 8 + j) = PatternFacts.pattern_word pat j)) as [He|Hne]; [done|].
  exfalso. apply (not_elem_of_nil j). rewrite <- Hb. apply elem_of_bad_words. split; [lia | done].
Qed.

(** ** Writing a block *)

Lemma gsafe_WriteBlock has ptr b l loc :
  loc_ok loc l ->
  gsafe (WriteBlockToDisk s has ptr loc) (own [] (mkBlk ptr b None :: l)) (fun r res =>
    exists b' ws, res = own [] (mkBlk ptr b' ws :: l) /\ loc_ok r.2 l /\
      (r.1 = true -> blk_good (mkBlk ptr b' ws) /\ (fallbacks r.2 = 0 -> blk_clean (mkBlk ptr b' ws)))).
Proof using LAWS OK DOK.
  intros Hl. pose proof block_words as (W1 & W2 & W3 & W4 & W5). unfold WriteBlockToDisk. apply gsafe_bind.
  apply (gsafe_block_object (mkBlk ptr b None)). cbn [b_data]. intros ->.
  set (loc1 := clear_buffer (write_block_size_ p) loc).
  assert (Hl1 : loc_ok loc1 l) by (apply loc_ok_buffer; [done | rewrite length_store_words; apply Hl]).
  assert (Hw : forall pt pat buf loc2, pat_at pats pt = Some pat -> length buf = pw -> loc_ok loc2 l ->
    (fallbacks loc2 = 0 -> range_words buf 0 blk_words = map (PatternFacts.pattern_word pat) (zrange 0 blk_words)) ->
    gsafe (AsyncDiskIO has ASYNC_IO_WRITE (write_block_size_ p) (DiskBlocks.address b * kSectorSize) (set_buffer loc2 buf))
      (own [] (mkBlk ptr (DiskBlocks.set_pattern b pt) None :: l)) (fun r res =>
    exists b' ws, res = own [] (mkBlk ptr b' ws :: l) /\ loc_ok r.2 l /\
      (r.1 = true -> blk_good (mkBlk ptr b' ws) /\ (fallbacks r.2 = 0 -> blk_clean (mkBlk ptr b' ws))))).
  { intros pt pat buf loc2 Hpat Hbl Hl2 Hbw. apply (loc_ok_buffer _ _ buf) in Hl2 as Hl3; [|done].
    apply (gsafe_write has (mkBlk ptr (DiskBlocks.set_pattern b pt) None)); [done | done | |].
    - intros e He. exists (DiskBlocks.set_pattern b pt), None. split; [done|]. split; [|done].
      apply loc_ok_errors; [done|]. apply io_error_ok. tauto.
    - eexists _, _. split; [done|]. split; [done|]. intros _. split; [intros _; by exists pat|].
      intros Hf _. exists pat. split; [done|]. cbn [b_words block_buffer_ set_buffer]. f_equal. by apply Hbw. }
  apply gsafe_bind, gsafe_common, (safe_GetValid s pats nw OK).
  - apply gsafe_bind, gsafe_bind, gsafe_common. apply safe_act. intros F w R an Hi.
    destruct (random_pattern pats (patternlist_ w) (Z.of_N (random an)) (inv_plist s pats nw _ _ _ Hi) ltac:(lia)) as (i & pl' & -> & Hpl & Hc).
    eexists (Some i), _, []. split; [done|]. split; [by apply (inv_other s pats nw F w)|].
    destruct (choice_pattern pats i Hc) as [pat Hpat].
    apply gsafe_bind, (gsafe_set_pattern (mkBlk ptr b None)), gsafe_own. cbn [b_ptr b_data b_words].
    intros w2 R2 an2 _ Hi2 Hd2. rewrite (pattern_object_at s pats nw 0 (shared w2) _ (Some i) Hi2), Hpat.
    eexists _, w2, [], _. split; [reflexivity|]. split; [done|]. split; [exact Hd2|].
    apply (Hw (Some i) pat (fallback_fill pat (write_block_size_ p) (block_buffer_ loc1)) (count_fallback loc1) Hpat); [by rewrite length_fallback_fill; apply Hl1 | |].
    + destruct Hl1 as [L1 L2 L3 L4 L5 L6 L7]. split; try done; cbn [fallbacks count_fallback]; lia.
    + cbn [fallbacks count_fallback]. pose proof (lo_nonneg _ _ Hl1). lia.
  - intros pe Hm. apply gsafe_bind, gsafe_bind, gsafe_own. intros w R' an _ Hi Hd.
    destruct (full_words _ _ _ _ Hi) as (pat & Hpat & Hwords).
    eexists _, w, _, _. split; [reflexivity|]. split; [exact Hi|]. split; [exact Hd|].
    apply gsafe_bind, (gsafe_set_pattern (mkBlk ptr b None)). cbn [b_ptr b_data b_words].
    apply gsafe_bind, gsafe_common. apply (safe_PutValid s pats nw pe (Full (offset pe) (pattern pe))); [by left|].
    cbn [ProgramFacts.gsafe]. rewrite (mapped_base s pe Hm). fold blk_words.
    apply (Hw (pattern pe) pat _ loc1 Hpat); [rewrite length_copy_words; apply Hl1 | done|]. intros _.
    rewrite copied_range; [|lia | rewrite (lo_buffer _ _ Hl1); unfold blk_words; lia | apply length_range_words].
    apply map_ext_in. intros j Hj%list_elem_of_In%elem_of_zrange. apply Hwords. unfold blk_words in Hj. lia.
Qed.
(** ** Reading a block back *)

Lemma gsafe_ValidateBlock has addr r l loc :
  loc_ok loc l -> blk_good r -> (fallbacks loc = 0 -> blk_clean r) ->
  gsafe (ValidateBlockOnDisk s p has addr (b_ptr r) loc) (own [] (r :: l)) (fun res R =>
    (exists ok, res.1 = Some ok) /\ R = own [] (r :: l) /\ loc_ok res.2 l).
Proof using OK DOK.
  intros Hl Hg Hcl. pose proof block_words as (W1 & W2 & W3 & W4 & W5). unfold ValidateBlockOnDisk. apply gsafe_bind.
  apply gsafe_block_object. intros ->. rewrite (do_read DOK).
  assert (Hone : write_block_size_ p / u64 (write_block_size_ p) = 1) by (rewrite u64_id by lia; apply Z.div_same; lia).
  rewrite Hone. apply gsafe_bind, gsafe_ask. intros an _. destruct (seek_ok an); cbn [negb].
  2: { split; [by exists false|]. done. }
  change (Z.to_nat 1) with 1%nat. cbn [validate_loop]. change (1 =? 0) with false. cbn iota.
  apply gsafe_bind, gsafe_ask. intros an1 _. rewrite Z.rem_1_r, (do_read DOK), Z.mul_1_l.
  set (loc1 := clear_buffer (write_block_size_ p) loc).
  assert (Hl1 : loc_ok loc1 l) by (apply loc_ok_buffer; [done | rewrite length_store_words; apply Hl]).
  apply gsafe_bind, gsafe_block_object. intros _. apply gsafe_bind, gsafe_disk_read; [apply Hl1 | |].
  - intros e buf Hb He. split; [by exists false|]. split; [done|]. apply loc_ok_errors; [by apply loc_ok_buffer|].
    apply io_error_ok. tauto.
  - intros buf Hb Hws. cbn [negb]. apply (loc_ok_buffer _ _ buf) in Hl1 as Hl2; [|done]. apply gsafe_bind.
    destruct (non_destructive_ p) eqn:Hnd; [split; [by exists true|]; done|].
    destruct (Hg Hnd) as [pat Hpat]. apply gsafe_bind, (gsafe_check_buffer _ _ pat); [done | done|].
    intros e buf2 He Hb2 Hz. assert (Hl3 : loc_ok (set_buffer (set_buffer loc1 buf) buf2) l) by (by apply loc_ok_buffer).
    split; [by exists true|]. split; [done|]. cbn [snd]. destruct (Z.eqb_spec e 0) as [->|Hne].
    + rewrite Z.add_0_r. exact Hl3.
    + destruct Hl3 as [L1 L2 L3 L4 L5 L6 L7]. split; try done. intros Hf. exfalso. apply Hne, Hz.
      destruct (Hcl Hf Hnd) as (pat' & Hpat' & Hwds). rewrite Hpat in Hpat'. injection Hpat' as <-. by apply Hws.
Qed.

(** ** The loops *)

Lemma gsafe_remove_loop l : forall b (Qp : bool -> list (Res + list Blk) -> Prop),
  Qp b (own [] []) -> gsafe (remove_loop (map b_ptr l) b) (own [] l) Qp.
Proof.
  induction l as [|r l IH]; intros b Qp HQ; [done|]. cbn [map remove_loop]. apply gsafe_bind, gsafe_RemoveBlock.
  rewrite andb_true_r. by apply IH.
Qed.

Lemma loc_ok_none loc l : loc_ok loc l -> loc_ok (set_in_flight loc []) [].
Proof using DOK. intros [L1 L2 L3 L4 L5 L6 L7]. pose proof (do_queue DOK). split; try done. cbn. lia. Qed.

Lemma gsafe_RemoveInFlight loc l (Qp : bool * Local -> list (Res + list Blk) -> Prop) :
  loc_ok loc l -> Qp (true, set_in_flight loc []) (own [] []) -> gsafe (RemoveInFlightBlocks loc) (own [] l) Qp.
Proof.
  intros Hl HQ. unfold RemoveInFlightBlocks. rewrite (lo_flight _ _ Hl). apply gsafe_bind, gsafe_remove_loop. exact HQ.
Qed.

(** Between two turns; the second case is a way out of [DoWork]. *)
Definition going (st : Z * Local) (R : list (Res + list Blk)) : Prop :=
  0 <= st.1 /\ exists l l', R = own [] l' /\ l' ≡ₚ l /\ loc_ok st.2 l.
Definition over (loc : Local) (R : list (Res + list Blk)) : Prop := R = own [] [] /\ loc_ok loc [].

Lemma segments_pos : 0 < num_segments p.
Proof using DOK.
  unfold num_segments. destruct (do_segment DOK) as [->|[H1 H2]]; [done|]. destruct (do_device DOK) as [H3 H4].
  rewrite (proj2 (Z.eqb_neq _ _)) by lia. pose proof (Z.quot_pos (device_sectors_ p) (segment_size_ p) ltac:(lia) ltac:(lia)).
  pose proof (Z.quot_rem' (device_sectors_ p) (segment_size_ p)).
  destruct (Z.eqb_spec (Z.rem (device_sectors_ p) (segment_size_ p)) 0); nia.
Qed.

Lemma loc_ok_push loc l r :
  loc_ok loc l -> blk_good r -> (fallbacks loc = 0 -> blk_clean r) -> Z.of_nat (length l) < queue_size_ p + 1 ->
  loc_ok (set_in_flight loc (in_flight_sectors_ loc ++ [b_ptr r])) (l ++ [r]).
Proof.
  intros [L1 L2 L3 L4 L5 L6 L7] Hg Hc Hlen. split; try done.
  - cbn. by rewrite L1, map_app.
  - rewrite length_app. cbn. lia.
  - apply Forall_app. by repeat constructor.
  - intros Hf. apply Forall_app. split; [by apply L6 | constructor; [by apply Hc | constructor]].
Qed.

Lemma gsafe_write_turn has st R :
  going st R ->
  gsafe (write_turn s p has (num_segments p) st) R (fun r R' => match r with
    | inl st' | inr (inl st') => going st' R'
    | inr (inr (_, loc)) => over loc R'
    end).
Proof using LAWS OK DOK.
  destruct st as [bn loc]. intros [Hbn (l & l0 & -> & Hp & Hl)]. cbn [fst snd] in *. apply (gsafe_own_perm _ _ _ l); [done | done|].
  clear l0 Hp. unfold write_turn.
  apply gsafe_bind, gsafe_common, safe_ask. intros an. destruct (ready an && _) eqn:Hgo; cbn [negb].
  2: { split; [done|]. by exists l, l. }
  apply andb_true_iff in Hgo as [_ Hlt%Z.ltb_lt]. pose proof (do_queue DOK) as Hq.
  rewrite s32_id, u64_id in Hlt by lia. rewrite (lo_flight _ _ Hl), length_map in Hlt.
  assert (Hseg : 0 <= Z.rem (Z.quot bn (blocks_per_segment_ p)) (num_segments p)).
  { apply Z.rem_nonneg; [pose proof segments_pos; lia|]. apply Z.quot_pos; [done | pose proof (do_per_segment DOK); lia]. }
  apply gsafe_bind, gsafe_GetUnusedBlock; [done | lia | |].
  { split; [cbn; lia|]. by exists l, l. }
  intros ptr b. apply gsafe_bind.
  assert (Hrest : forall ok b' ws loc', loc_ok loc' l ->
    (ok = true -> blk_good (mkBlk ptr b' ws) /\ (fallbacks loc' = 0 -> blk_clean (mkBlk ptr b' ws))) ->
    gsafe (if negb ok then RemoveBlock ptr ;; r <- RemoveInFlightBlocks loc' ;; Ret (inr (inr (true, r.2)))
           else block_object ptr ;; Ret (inl (bn + 1, set_in_flight loc' (in_flight_sectors_ loc' ++ [ptr]))))%prog
      (own [] (mkBlk ptr b' ws :: l)) (fun r R' => match r with
      | inl st' | inr (inl st') => going st' R'
      | inr (inr (_, loc)) => over loc R'
      end)).
  { intros ok b' ws loc' Hl' Hgood. destruct ok; cbn [negb].
    - destruct (Hgood eq_refl) as [Hg Hc]. apply gsafe_bind, (gsafe_block_object (mkBlk ptr b' ws)). intros _.
      cbn [ProgramFacts.gsafe]. split; [cbn; lia|]. eexists _, _. split; [done|].
      split; [|by apply (loc_ok_push loc' l (mkBlk ptr b' ws))]. apply Permutation_cons_append.
    - apply gsafe_bind, (gsafe_RemoveBlock (mkBlk ptr b' ws)). apply gsafe_bind, gsafe_RemoveInFlight; [done|].
      split; [done|]. by eapply loc_ok_none. }
  destruct (non_destructive_ p) eqn:Hnd.
  - cbn [bind ProgramFacts.gsafe]. apply Hrest; [done|]. intros _. unfold blk_good, blk_clean. by rewrite Hnd.
  - apply gsafe_bind. eapply gsafe_mono; [|by apply gsafe_WriteBlock]. intros [ok loc'] R' (b' & ws & -> & Hl' & Hgood).
    cbn [fst snd] in *. cbn [ProgramFacts.gsafe].
    assert (Hl2 : loc_ok (if ok then count_written loc' else loc') l) by (destruct ok; [by destruct Hl'|done]).
    apply (Hrest ok b' ws); [done|]. by destruct ok.
Qed.
Lemma gsafe_read_turn has addr loc R bn :
  going (bn, loc) R ->
  gsafe (read_turn s p has addr loc) R (fun r R' => match r with
    | inl loc' | inr (inl loc') => going (bn, loc') R'
    | inr (inr (ok, loc')) => ok = Some true /\ over loc' R'
    end).
Proof using LAWS OK DOK.
  intros [Hbn (l & l0 & -> & Hp & Hl)]. cbn [fst snd] in *. apply (gsafe_own_perm _ _ _ l); [done | done|]. clear l0 Hp.
  unfold read_turn. apply gsafe_bind, gsafe_common, safe_ask. intros an.
  assert (Hstay : going (bn, loc) (own [] l)) by (split; [done|]; by exists l, l).
  destruct (ready an); [|done]. rewrite (lo_flight _ _ Hl). destruct l as [|r l]; [done|]. cbn [map].
  assert (Hl' : loc_ok (set_in_flight loc (map b_ptr l)) l).
  { destruct Hl as [L1 L2 L3 L4 L5 L6 L7]. apply Forall_cons in L4 as [_ L4]. split; try done.
    - cbn in L2. lia.
    - intros Hf. specialize (L6 Hf). by apply Forall_cons in L6 as [_ L6]. }
  apply gsafe_bind. eapply gsafe_mono; [|apply gsafe_ValidateBlock; [exact Hl' | |]].
  - intros [ok loc2] R' ((ok' & Hok) & -> & Hl2). cbn [fst snd] in *. subst ok. apply gsafe_bind, gsafe_RemoveBlock.
    destruct ok'; cbn [negb].
    + split; [done|]. exists l, l. split; [done|]. split; [done|]. by destruct Hl2.
    + apply gsafe_bind, gsafe_RemoveInFlight; [done|]. split; [done|]. split; [done|]. by eapply loc_ok_none.
  - pose proof (lo_good _ _ Hl) as Hg. by apply Forall_cons in Hg as [Hg _].
  - intros Hf. pose proof (lo_clean _ _ Hl Hf) as Hc. by apply Forall_cons in Hc as [Hc _].
Qed.

Lemma gsafe_work_turn has fuel addr st R :
  going st R ->
  gsafe (work_turn s p has fuel addr (num_segments p) st) R (fun r R' => match r with
    | inl st' => going st' R'
    | inr None => True
    | inr (Some (_, loc)) => over loc R'
    end).
Proof using LAWS OK DOK.
  destruct st as [bn loc]. intros [Hbn (l & l0 & -> & Hp & Hl)]. cbn [fst snd] in *.
  apply (gsafe_own_perm _ _ _ l); [done | done|]. clear l0 Hp.
  assert (Hstay : going (bn, loc) (own [] l)) by (split; [done|]; by exists l, l).
  unfold work_turn. apply gsafe_bind, gsafe_common, safe_ask. intros an. apply gsafe_bind, gsafe_common, safe_get. intros w.
  destruct (ready an && negb _); cbn [negb].
  2: { apply gsafe_bind, gsafe_RemoveInFlight; [done|]. split; [done|]. by eapply loc_ok_none. }
  apply gsafe_bind. eapply gsafe_loop_any with (K := going); [| | exact Hstay].
  - intros st R Hst. eapply gsafe_mono; [|by apply gsafe_write_turn]. intros [st'|[st'|[b loc']]] R' Hr; [done | |done].
    destruct st' as [bn' loc']. destruct Hr as [Hbn' (l' & l1 & -> & Hp & Hl')]. cbn [fst snd] in *.
    apply (gsafe_own_perm _ _ _ l'); [done | done|]. apply gsafe_bind, gsafe_ask. intros an2 _.
    destruct (flush_ok an2); cbn [negb].
    2: { apply gsafe_bind, gsafe_RemoveInFlight; [done|]. split; [done|]. by eapply loc_ok_none. }
    apply gsafe_bind. eapply gsafe_loop_any with (K := fun loc R => going (bn', loc) R).
    + intros loc2 R2 H2. eapply gsafe_mono; [|by apply gsafe_read_turn].
      intros [loc3|[loc3|[ok loc3]]] R3 H3; [done | done|]. by destruct H3 as [-> H3].
    + done.
    + split; [done|]. by exists l', l'.
  - done.
Qed.

(** What a thread of the device leaves when it has come to its end. *)
Definition thread_end (r : option (bool * Local)) (R : list (Res + list Blk)) : Prop :=
  forall b loc, r = Some (b, loc) -> over loc R.

Lemma gsafe_DoWork has fuel addr loc :
  loc_ok loc [] -> gsafe (DoWork s p has fuel addr loc) (own [] []) thread_end.
Proof using LAWS OK DOK.
  intros Hl. unfold DoWork. apply gsafe_bind, gsafe_own. intros w R' an _ Hi Hd.
  rewrite (proj2 (Z.eqb_neq _ _)), (proj2 (Z.leb_gt _ _)).
  2: { unfold kSectorSize. apply (do_assert DOK). }
  2: { destruct (do_segment DOK); lia. }
  exists tt, w, [], []. split; [done|]. split; [done|]. split; [done|]. apply gsafe_bind.
  eapply gsafe_loop_any with (K := going); [| |split; [done|]; by exists [], []].
  - intros st R Hst. eapply gsafe_mono; [|by apply gsafe_work_turn]. intros [st'|[[b loc']|]] R2 Hr; [done | |done].
    intros b2 loc2 [= <- <-]. exact Hr.
  - done.
Qed.

(** The threads that only read never get a block. *)
Lemma gsafe_RandomDoWork has fuel addr loc :
  gsafe (RandomDoWork s p has fuel addr loc) [] (fun r R => R = [] /\ forall b loc', r = Some (b, loc') -> loc' = loc).
Proof.
  apply gsafe_bind. eapply gsafe_loop_any with (K := fun loc' R => loc' = loc /\ R = []); [| |done].
  - intros loc' R [-> ->]. unfold random_turn.
    assert (Hc : forall A (q : Prog Answer (@Shared Q) A) (Qp : A -> list (Res + list Blk) -> Prop),
      safe (Inv s pats nw) q [] (fun a R' => Qp a (map inl R')) -> gsafe (common q) [] Qp).
    { intros A q Qp Hq. apply (gsafe_embed base shared set_shared Inv0 J _ _ (fun w v => eq_refl) ltac:(intros w v R0 (l0 & -> & [H1 H2 H3 H4 H5]); exists l0; by split) q [] []).
      apply safe_where. eapply safe_mono; [|exact Hq]. intros a l. by rewrite app_nil_r. }
    apply gsafe_bind, Hc, safe_ask. intros an. apply gsafe_bind, Hc, safe_get. intros w.
    destruct (ready an && negb _); cbn [negb]; [|split; [done|]; by intros b loc' [= _ <-]].
    apply gsafe_bind, gsafe_GetRandomBlock. done.
  - intros loc' R [-> ->]. split; [done|]. by intros b loc'.
Qed.
(** ** All threads *)

Definition start_local (words : list Z) : Local := mkLocal [] words 0 0 0 [] 0.

(** The thread of the device, threads that only read it, and threads that do not use it. *)
Definition disk_threads (has : bool) (fuel : nat) (addr : Z) (words : list Z) (k : nat) (jobs : list job)
  : list (Prog DiskAnswer (@DiskWorld Q) (option (bool * Local))) :=
  DoWork s p has fuel addr (start_local words) ::
  replicate k (RandomDoWork s p has fuel addr (start_local words)) ++
  map (fun j => _ <- common (work s fuel j) ;; Ret None)%prog jobs.

(** The table is as [SetParameters] leaves it. *)
Record disk_start (w0 : @DiskWorld Q) : Prop := {
  ds_table : table_params (table w0) /\ DiskBlocks.pos_to_addr_ (table w0) = [] /\
    DiskBlocks.addr_to_block_ (table w0) = ∅ /\ DiskBlocks.size_ (table w0) = 0;
  ds_objects : objects w0 = ∅;
  ds_device : Z.of_nat (length (device w0)) = 64 * device_sectors_ p
}.

Definition thread_post (words : list Z) (k : nat) (i : nat) (r : option (bool * Local)) (R : list (Res + list Blk)) : Prop :=
  match i with
  | O => thread_end r R
  | S i' => (i' < k)%nat -> forall b loc, r = Some (b, loc) -> loc = start_local words
  end.

Lemma disk_start_inv w0 : disk_start w0 -> disk_inv w0 [].
Proof using OK DOK.
  intros [(H1 & H2 & H3 & H4) H5 H6]. split; try done. rewrite H5. apply table_init_inv; try done. by apply table_good.
Qed.

Lemma disk_threads_safe has fuel addr words k jobs w0 V E :
  disk_start w0 -> ready_with s pats nw 0 (shared w0) V E -> Forall (fun j => job_worker j < nw)%nat jobs ->
  length words = pw ->
  all_gsafe faithful True BInv (thread_post words k) 0 (w0, disk_threads has fuel addr words k jobs).
Proof using LAWS OK DOK.
  intros Hd Hr Hj Hw. exists (own [] [] :: replicate (k + length jobs) []). split; [|split].
  - assert (He : concat (own [] [] :: replicate (k + length jobs) []) = own [] []).
    { cbn [concat]. induction (k + length jobs)%nat as [|m IH]; [done|]. exact IH. }
    rewrite He. split; [|exists []; split; [done|]; by apply disk_start_inv]. split; [done|].
    exists V, E. by apply ready_inv.
  - cbn. rewrite length_app, !length_replicate, length_map. done.
  - intros i q l Hq Hl. destruct i as [|i].
    + injection Hq as <-. injection Hl as <-. apply gsafe_DoWork. pose proof (do_queue DOK). split; try done.
      * cbn. lia.
      * split; [apply not_elem_of_nil | done].
    + change (replicate (k + length jobs) [] !! i = Some l) in Hl. apply lookup_replicate in Hl as [-> Hi].
      change ((replicate k (RandomDoWork s p has fuel addr (start_local words)) ++
        map (fun j => _ <- common (work s fuel j) ;; Ret None)%prog jobs) !! i = Some q) in Hq.
      destruct (decide (i < k)%nat) as [Hik|Hik].
      * rewrite lookup_app_l in Hq by (rewrite length_replicate; lia). apply lookup_replicate in Hq as [-> _].
        eapply gsafe_mono; [|apply gsafe_RandomDoWork]. intros r R [_ H] _. exact H.
      * rewrite lookup_app_r in Hq by (rewrite length_replicate; lia). apply list_lookup_fmap_Some in Hq as (j & -> & Hjl).
        apply gsafe_bind. rewrite Forall_forall in Hj. specialize (Hj j ltac:(by eapply list_elem_of_lookup_2)).
        apply (gsafe_embed base shared set_shared Inv0 J _ _ (fun w v => eq_refl)
          ltac:(intros w v R0 (l0 & -> & [H1 H2 H3 H4 H5]); exists l0; by split) (work s fuel j) [] []).
        apply safe_where. eapply safe_mono; [|by apply (safe_job s pats nw OK fuel j)]. intros a l _. cbn. lia.
Qed.
End Facts.

(** C14. The threads of a device, when read blocks are as large as write blocks and no larger
    than a work block.  (Other sizes are accepted: with smaller read blocks the thread reports
    pattern errors that are not there, [chunked_read_false_alarm].)  The further conditions:
    a write block is a multiple of 512 bytes and fits the device and, if there are segments, a
    segment; the device and the segments have fewer than 2^55 sectors; the device is larger
    than three times the cache size, and there is at least one block per segment; the queue
    of blocks in flight has a size below 2^31 - 2; the table starts empty with the thread's
    parameters; and the settings are those of C1 (no [--tag_mode], which disks do
    not allow, no [--force_errors], test memory in one piece).  A disk thread, any number of random disk threads of the same device
    and any other threads run in any interleaving (a call on the block table counts as one
    access: see C36), on a device that hands out what it stores and whose requests may fail,
    be interrupted or time out at will, while memory is sound.  Then no assertion fails and no block object is used after it was
    deleted.  When the disk thread has ended, on whichever path, no block is in flight, the
    table is empty and every block object has been deleted.  If every block was filled
    from a valid work block, the thread has reported no pattern error and counted just
    the requests that failed.  The random disk threads have read nothing. *)
Theorem disk_threads_sound s pats nw p has fuel addr words k jobs (w0 : @DiskWorld FineLock.FineLockPEQueue) V E w ths :
  settings_ok s pats -> 1 <= pages s -> disk_ok s p -> disk_start p w0 -> ready_with s pats nw 0 (shared w0) V E ->
  Forall (fun j => job_worker j < nw)%nat jobs -> length words = page_words (cfg s) ->
  rtc (pstep_in faithful) (w0, disk_threads s p has fuel addr words k jobs) (w, ths) ->
  (forall i B f c an, ths !! i = Some (Act B f c) -> faithful an -> is_Some (f an w)) /\
  (forall b loc, ths !! 0%nat = Some (Ret (Some (b, loc))) ->
     in_flight_sectors_ loc = [] /\ DiskBlocks.size_ (table w) = 0 /\ objects w = ∅ /\
     (fallbacks loc = 0 -> ("disk-pattern-error"%string ∉ device_reports loc) /\
        errorcount loc = Z.of_nat (length (device_reports loc)))) /\
  (forall i b loc, (1 <= i <= k)%nat -> ths !! i = Some (Ret (Some (b, loc))) -> blocks_read_ loc = 0).
Proof.
  intros OK Hn DOK Hd Hr Hj Hw Hrun. pose proof (PageStoreFacts.fine_store_laws (An := Answer) _ (page_length (cfg s)) Hn) as LAWS.
  assert (Hall : all_gsafe faithful True (both shared (Inv0 s pats nw) (J p)) (thread_post s pats p words k) 0 (w, ths)).
  { eapply psteps_gsafe; [intros ? ?; by eapply BInv_proper | |exact Hrun]. by eapply disk_threads_safe. }
  split; [|split].
  - intros i B f c an Hi Ha. refine (all_gsafe_progress faithful True _ (thread_post s pats p words k) 0 (w, ths) i B f c an I Hall Hi Ha).
    intros ? ?. by eapply BInv_proper.
  - intros b loc Hi. destruct Hall as (ls & Hinv & Hlen & Hs). cbn [fst snd] in *.
    destruct (lookup_lt_is_Some_2 ls 0) as [l Hl]; [rewrite Hlen; by eapply lookup_lt_Some|].
    destruct (Hs O _ l Hi Hl b loc eq_refl) as [-> [L1 L2 L3 L4 L5 L6 L7]].
    destruct (concat_insert ls 0 _ Hl) as (R & HR & _).
    rewrite (BInv_proper s pats nw p 0 w _ _ HR) in Hinv. destruct Hinv as [_ (l' & Hl' & Hd')].
    unfold own in Hl'. cbn in Hl'. injection Hl' as <- _. destruct Hd' as [D1 D2 D3 D4 D5].
    split; [done|]. split; [done|]. split; [|done]. apply map_empty. intros ptr.
    destruct (objects w !! ptr) as [bd|] eqn:Hb; [|done]. exfalso. pose proof (si_refs _ D1 ptr) as Hrf.
    cbn [objs writers readers map] in Hrf. rewrite Hb in Hrf. unfold cnt in Hrf. cbn in Hrf. lia.
  - intros i b loc Hik Hi. destruct Hall as (ls & _ & Hlen & Hs). cbn [fst snd] in *.
    destruct (lookup_lt_is_Some_2 ls i) as [l Hl]; [rewrite Hlen; by eapply lookup_lt_Some|].
    pose proof (Hs i _ l Hi Hl) as Hpost. destruct i as [|i]; [lia|]. cbn in Hpost.
    by rewrite (Hpost ltac:(lia) b loc eq_refl).
Qed.
(** *** A device of eight sectors *)

Definition disk_settings : Settings :=
  let os := OsLayer.mkOs 0 0 1 1 4 [0] [false] None 0 0 4096 1024 false in
  mkSettings (mkConfig 512 FILL_DIRECTION_UP 0 false false 4096 8 10
                (mkWorld (fun _ _ => 800) (fun _ => 0) (fun _ => 1) os 4096 (fun _ => None)) None)
    2 false true false true true 1 FILL_PRESET_NONE true false false Invert.INVERT_RANGE_FULL None.
Definition disk_params : DiskParams := mkParams 512 512 (-1) 512 1 32 100000 100000 5000000 5000000 8 false true.
Definition disk_table : DiskBlocks.DiskBlockTable := DiskBlocks.mkTable [] ∅ 512 512 8 (-1) 0.

Definition disk_entry (i : Z) : page_entry :=
  set_write_frequency (mk_page_entry (i * 512) 0 0 None 0xf001 0 0 0 0 None) (-1).
Definition disk_queue : FineLock.FineLockPEQueue :=
  match FineLock.new_FineLockPEQueue 2 512 (replicate 2 null_pe) with
  | Some q => (fine_put_empty (disk_entry 1) (fine_put_empty (disk_entry 0) q).2).2
  | None => sample_fine
  end.
Definition disk_world : @DiskWorld FineLock.FineLockPEQueue :=
  mkDiskWorld (set_memory (sample_shared disk_queue) (replicate 128 5)) disk_table ∅ (replicate 512 0).

(** The program runs for a while, and then it is told to stop. *)
Definition disk_answer_with (rand : N) (run : bool) : DiskAnswer :=
  mkDiskAnswer (mkAnswer run (fun _ => false) rand 0 0 800 0 1 0 (mkReadings 0 800 0 800) ((0, 0), (0, 0))
                  (fun _ _ => 800) (fun _ => 0) (fun _ => 1))
    (Completed 512) [] (fun l => l) true true 7 (fun i => Z.of_nat i) 3 false.
Definition disk_answer : bool -> DiskAnswer := disk_answer_with 5.
Definition disk_answers (k : nat) : list DiskAnswer := replicate k (disk_answer true) ++ replicate 60 (disk_answer false).

Definition disk_body : Prog DiskAnswer (@DiskWorld FineLock.FineLockPEQueue) (option (bool * Local)) :=
  DoWork disk_settings disk_params true 5 8192 (start_local (replicate 64 0)).
Definition fill_body : Prog DiskAnswer (@DiskWorld FineLock.FineLockPEQueue) (option (bool * Local)) :=
  (_ <- common (work disk_settings 5 (Fill 0 2)) ;; Ret None)%prog.

(** The work blocks are filled first. *)
Definition disk_filled : @DiskWorld FineLock.FineLockPEQueue :=
  Eval vm_compute in
    match run_alone fill_body (disk_answers 100) disk_world with
    | Some (_, w) => w
    | None => disk_world
    end.
Lemma disk_settings_ok : settings_ok disk_settings sample_pats.
Proof.
  split; [done | done | by cbn | by cbn | by cbn | by cbn | by cbn |].
  split; [|by cbn]. constructor; [apply sample_good | constructor].
Qed.

Lemma disk_params_ok : disk_ok disk_settings disk_params.
Proof. split; vm_compute; try done; by left. Qed.

Lemma disk_world_start : disk_start disk_params disk_world.
Proof. by split. Qed.

Lemma disk_world_ready : exists E, ready_with disk_settings sample_pats 2 0 (shared disk_world) [] E.
Proof.
  eexists. split; [eapply sample_fine_rep; vm_compute; reflexivity | constructor | | | done | done | done].
  - split; [apply Forall_replicate; lia | by cbn].
  - exact (st_patterns _ _ _ _ (sample_start _ _ sample_one_rep)).
Qed.

Lemma disk_answers_faithful k : Forall faithful (disk_answers k).
Proof. apply Forall_app. split; by apply Forall_replicate. Qed.

(** Two work blocks are filled; three blocks are written to the device and two read back. *)
Definition disk_local : Local :=
  Eval vm_compute in match run_alone disk_body (disk_answers 60) disk_filled with Some (Some (_, l), _) => l | _ => start_local [] end.
Definition disk_end : @DiskWorld FineLock.FineLockPEQueue :=
  Eval vm_compute in match run_alone disk_body (disk_answers 60) disk_filled with Some (_, w) => w | _ => disk_world end.

Lemma fill_run_end : run_alone fill_body (disk_answers 100) disk_world = Some (None, disk_filled).
Proof. vm_compute. reflexivity. Qed.

Lemma disk_run_end : run_alone disk_body (disk_answers 60) disk_filled = Some (Some (true, disk_local), disk_end).
Proof. vm_compute. reflexivity. Qed.

Lemma disk_threads_eq :
  disk_threads disk_settings disk_params true 5 8192 (replicate 64 0) 0 [Fill 0 2] = [disk_body; fill_body].
Proof. reflexivity. Qed.

Lemma disk_execution :
  rtc (pstep_in faithful) (disk_world, disk_threads disk_settings disk_params true 5 8192 (replicate 64 0) 0 [Fill 0 2])
    (disk_end, [Ret (Some (true, disk_local)); Ret None]).
Proof.
  rewrite disk_threads_eq. pose proof fill_run_end as H1. pose proof disk_run_end as H2. revert H1 H2.
  generalize disk_body, fill_body. intros dw fl H1 H2. etrans.
  - exact (run_alone_steps faithful [dw; fl] 1 fl _ _ _ _ H1 (disk_answers_faithful 100) eq_refl).
  - exact (run_alone_steps faithful [dw; Ret None] 0 dw _ _ _ _ H2 (disk_answers_faithful 60) eq_refl).
Qed.

Lemma disk_threads_sound_witness : blocks_written_ disk_local = 3 /\ errorcount disk_local = 0 /\ objects disk_end = ∅.
Proof.
  destruct disk_world_ready as (E & Hready).
  destruct (disk_threads_sound disk_settings sample_pats 2 disk_params true 5 8192 (replicate 64 0) 0 [Fill 0 2] disk_world [] E
    disk_end [Ret (Some (true, disk_local)); Ret None]) as (_ & Hend & _).
  - apply disk_settings_ok.
  - discriminate.
  - apply disk_params_ok.
  - apply disk_world_start.
  - exact Hready.
  - repeat constructor.
  - reflexivity.
  - exact disk_execution.
  - destruct (Hend true disk_local eq_refl) as (_ & _ & Ho & He). destruct (He eq_refl) as [_ Hc].
    split; [reflexivity|]. split; [exact Hc | exact Ho].
Defined.

(** Without a valid work block, the fallback stores half of the block's words: a faithful
    device is then reported as faulty. *)
Theorem fallback_false_alarm :
  Forall faithful (disk_answers 60) /\
  exists loc w, run_alone disk_body (disk_answers 60) disk_world = Some (Some (true, loc), w) /\
    device_reports loc = ["disk-pattern-error"; "disk-pattern-error"]%string /\ errorcount loc = 66.
Proof. split; [apply disk_answers_faithful|]. vm_compute. eexists _, _. split; [reflexivity|]. done. Qed.

(** A written block of two read blocks: the second one is compared with the pattern at the
    wrong place. *)
Definition wide_pattern : Patterns.Pattern := snd (Patterns.Initialize Patterns.walkingOnes 256 false 1 0).
Definition chunked_world : @DiskWorld FineLock.FineLockPEQueue :=
  let sh := sample_shared disk_queue in
  mkDiskWorld (set_patternlist sh (Patterns.mkPatternList [wide_pattern] 1 1 1 [0] 0 0)) disk_table
    {[7 := DiskBlocks.mkBlock 0 1024 1 false (Some 0)]} (Patterns.PatternFacts.pattern_block wide_pattern 128).

Theorem chunked_read_false_alarm :
  let p := mkParams 512 1024 (-1) 512 1 32 100000 100000 5000000 5000000 8 false true in
  range_words (device chunked_world) 0 128 = map (PatternFacts.pattern_word wide_pattern) (zrange 0 128) /\
  exists loc w, run_alone (ValidateBlockOnDisk disk_settings p true 8192 7 (start_local (replicate 128 0)))
      (replicate 20 (disk_answer_with 0 true)) chunked_world = Some ((Some true, loc), w) /\
    device_reports loc = ["disk-pattern-error"]%string.
Proof. split; vm_compute; [reflexivity|]. eexists _, _. split; reflexivity. Qed.

(** ** Setting the parameters *)

Lemma rem_zero a b : b <> 0 -> reflect (b | a) (Z.rem a b =? 0).
Proof. intros Hb. apply iff_reflect. rewrite Z.eqb_eq. symmetry. by apply Z.rem_divide. Qed.

Definition sizes_refused (rbs wbs : Z) : Prop :=
  (rbs <> -1 /\ ~ (kSectorSize | rbs)) \/ (wbs <> -1 /\ ~ (kSectorSize | wbs)) \/
  (wbs <> -1 /\ ~ ((if decide (rbs = -1) then kSectorSize else rbs) | wbs)) \/ (wbs = -1 /\ ~ (rbs | kSectorSize)).

Lemma set_block_sizes_spec p rbs wbs :
  read_block_size_ p = kSectorSize -> write_block_size_ p = kSectorSize -> rbs <> 0 -> wbs <> 0 ->
  match set_block_sizes p rbs wbs with
  | Done p' => (exists r w, p' = set_write_block_size (set_read_block_size p r) w /\ (kSectorSize | r) /\ (kSectorSize | w) /\
                 (r | w) /\ w <> 0)
  | Refused => sizes_refused rbs wbs
  | Crashed => False
  end.
Proof.
  intros Hr Hw Hr0 Hw0. unfold set_block_sizes. assert (H512 : kSectorSize <> 0) by done.
  assert (Hstep : forall r, r <> 0 -> (kSectorSize | r) -> (rbs = -1 -> r = kSectorSize) -> (rbs <> -1 -> r = rbs) ->
    match (let p0 := set_read_block_size p r in
      if negb (wbs =? -1) then
        obind (refuse_if (negb (Z.rem wbs kSectorSize =? 0))) (fun _ =>
        obind (crash_if (read_block_size_ p0 =? 0)) (fun _ =>
        obind (refuse_if (negb (Z.rem wbs (read_block_size_ p0) =? 0))) (fun _ =>
        Done (set_write_block_size p0 wbs))))
      else if write_block_size_ p0 <? read_block_size_ p0 then Done (set_write_block_size p0 (read_block_size_ p0))
      else obind (crash_if (read_block_size_ p0 =? 0)) (fun _ =>
        obind (refuse_if (negb (Z.rem (write_block_size_ p0) (read_block_size_ p0) =? 0))) (fun _ => Done p0)))
    with
    | Done p' => (exists r w, p' = set_write_block_size (set_read_block_size p r) w /\ (kSectorSize | r) /\ (kSectorSize | w) /\
                   (r | w) /\ w <> 0)
    | Refused => sizes_refused rbs wbs
    | Crashed => False
    end).
  { intros r Hnz Hd E1 E2. cbn [read_block_size_ write_block_size_ set_read_block_size]. rewrite Hw. unfold sizes_refused.
    destruct (Z.eqb_spec wbs (-1)) as [->|Hne]; cbn [negb].
    - destruct (Z.ltb_spec kSectorSize r) as [Hlt|Hge].
      + exists r, r. repeat split; try done.
      + rewrite (proj2 (Z.eqb_neq _ _) Hnz). cbn [crash_if obind]. destruct (rem_zero kSectorSize r Hnz) as [Hdv|Hnd]; cbn.
        * exists r, kSectorSize. repeat split; try done. unfold set_write_block_size, set_read_block_size. cbn. by rewrite Hw.
        * right. right. right. split; [done|]. intros Hdv. apply Hnd. destruct (Z.eq_dec rbs (-1)) as [He|He]; [by rewrite (E1 He)|].
          by rewrite (E2 He).
    - destruct (rem_zero wbs kSectorSize H512) as [Hdw|Hnd]; cbn [negb refuse_if obind]; [|right; left; done].
      rewrite (proj2 (Z.eqb_neq _ _) Hnz). cbn [crash_if obind]. destruct (rem_zero wbs r Hnz) as [Hdr|Hnd]; cbn.
      + exists r, wbs. repeat split; try done.
      + right. right. left. split; [done|]. case_decide as He; [by rewrite <- (E1 He) | by rewrite <- (E2 He)]. }
  destruct (Z.eqb_spec rbs (-1)) as [He|He].
  - cbn [obind]. specialize (Hstep kSectorSize H512 (Z.divide_refl _) (fun _ => eq_refl) (fun H => False_ind _ (H He))).
    cbv zeta in Hstep. assert (Hp : set_read_block_size p kSectorSize = p) by (rewrite <- Hr; by destruct p).
    rewrite Hp in Hstep. exact Hstep.
  - destruct (rem_zero rbs kSectorSize H512) as [Hd|Hnd]; cbn [negb refuse_if obind]; [|left; done].
    exact (Hstep rbs Hr0 Hd (fun H => False_ind _ (He H)) (fun _ => eq_refl)).
Qed.

Lemma positive_or_spec old new :
  0 < old -> match positive_or old new with Done v => 0 < v | Refused => new <> -1 /\ new <= 0 | Crashed => False end.
Proof. intros Ho. unfold positive_or. destruct (Z.eqb_spec new (-1)); [done|]. destruct (Z.leb_spec new 0); lia. Qed.

(** [SetParameters] on a fresh thread and an empty table.  It succeeds or refuses the
    arguments, unless a block size of zero makes it divide by zero.  When it succeeds, both
    block sizes are whole sectors, written blocks consist of whole read blocks, the other
    values are positive, and the block table has taken over the sizes. *)
Theorem SetParameters_spec u t rbs wbs seg cache per rt wt nd :
  DiskBlocks.size_ t = 0 -> rbs <> 0 -> wbs <> 0 ->
  match SetParameters (new_DiskThread u) t rbs wbs seg cache per rt wt nd with
  | Done (p, t') =>
      (kSectorSize | read_block_size_ p) /\ (kSectorSize | write_block_size_ p) /\
      (read_block_size_ p | write_block_size_ p) /\ write_block_size_ p <> 0 /\
      0 < blocks_per_segment_ p /\ 0 < read_threshold_ p /\ 0 < write_threshold_ p /\
      queue_size_ p = queue_length (cache_size_ p) (write_block_size_ p) /\
      (u = true -> DiskBlocks.write_block_size_ t' = write_block_size_ p /\
         DiskBlocks.segment_size_ t' = segment_size_ p /\ DiskBlocks.sector_size_ t' = kSectorSize)
  | Refused =>
      sizes_refused rbs wbs \/ (seg <> -1 /\ ~ (kSectorSize | seg)) \/
      (per <> -1 /\ per <= 0) \/ (rt <> -1 /\ rt <= 0) \/ (wt <> -1 /\ wt <= 0)
  | Crashed => False
  end.
Proof.
  intros Ht Hr0 Hw0. unfold SetParameters. pose proof (set_block_sizes_spec (new_DiskThread u) rbs wbs eq_refl eq_refl Hr0 Hw0) as Hb.
  destruct (set_block_sizes _ _ _) as [p| |]; cbn [obind]; [|by left | done].
  destruct Hb as (r & w & -> & D1 & D2 & D3 & Hwnz).
  cbn [blocks_per_segment_ read_threshold_ write_threshold_ segment_size_ write_block_size_ read_block_size_ cache_size_
       read_timeout_ write_timeout_ device_sectors_ update_block_table_ set_write_block_size set_read_block_size new_DiskThread].
  pose proof (positive_or_spec 32 per ltac:(lia)) as H1. destruct (positive_or 32 per) as [v1| |]; cbn [obind]; [|tauto|done].
  pose proof (positive_or_spec 100000 rt ltac:(lia)) as H2. destruct (positive_or _ rt) as [v2| |]; cbn [obind]; [|tauto|done].
  pose proof (positive_or_spec 100000 wt ltac:(lia)) as H3. destruct (positive_or _ wt) as [v3| |]; cbn [obind]; [|tauto|done].
  assert (Hcrash : (w =? 0) = false) by (by apply Z.eqb_neq).
  assert (Hdone : forall sg, match (obind (crash_if (w =? 0)) (fun _ =>
      let c := if cache =? -1 then 16 * 1024 * 1024 else s32 cache in
      let p := mkParams r w sg c (queue_length c w) v1 v2 v3 5000000 5000000 0 nd u in
      obind (update_table p t) (fun t => Done (p, t)))) with
    | Done (p, t') =>
      (kSectorSize | read_block_size_ p) /\ (kSectorSize | write_block_size_ p) /\
      (read_block_size_ p | write_block_size_ p) /\ write_block_size_ p <> 0 /\
      0 < blocks_per_segment_ p /\ 0 < read_threshold_ p /\ 0 < write_threshold_ p /\
      queue_size_ p = queue_length (cache_size_ p) (write_block_size_ p) /\
      (u = true -> DiskBlocks.write_block_size_ t' = write_block_size_ p /\
         DiskBlocks.segment_size_ t' = segment_size_ p /\ DiskBlocks.sector_size_ t' = kSectorSize)
    | Refused | Crashed => False end).
  { intros sg. rewrite Hcrash. cbn [crash_if obind]. cbv zeta. unfold update_table, DiskBlocks.SetParameters. rewrite Ht.
    cbn [update_block_table_]. destruct u; cbn; repeat split; try done. }
  destruct (Z.eqb_spec seg (-1)) as [He|He].
  - specialize (Hdone (-1)). cbn [obind] in *. destruct (obind (crash_if (w =? 0)) _) as [[p t']| |]; done.
  - destruct (rem_zero seg kSectorSize ltac:(done)) as [Hd|Hnd]; cbn [negb refuse_if obind]; [|tauto].
    specialize (Hdone (Z.quot seg kSectorSize)). cbn [obind] in *. destruct (obind (crash_if (w =? 0)) _) as [[p t']| |]; done.
Qed.

Lemma SetParameters_spec_witness :
  exists p t, SetParameters (new_DiskThread true) DiskBlocks.new_DiskBlockTable 1024 4096 (-1) (-1) (-1) (-1) (-1) false = Done (p, t) /\
    (read_block_size_ p | write_block_size_ p).
Proof.
  pose proof (SetParameters_spec true DiskBlocks.new_DiskBlockTable 1024 4096 (-1) (-1) (-1) (-1) (-1) false eq_refl
    ltac:(discriminate) ltac:(discriminate)) as H.
  eexists _, _. split; [reflexivity|]. apply H.
Defined.

(** A block size of zero is not refused. *)
Theorem zero_block_size_crashes u t :
  SetParameters (new_DiskThread u) t 0 512 (-1) (-1) (-1) (-1) (-1) false = Crashed /\
  SetParameters (new_DiskThread u) t 512 0 (-1) (-1) (-1) (-1) (-1) false = Crashed.
Proof. done. Qed.
End DiskThreadFacts.
