(* ===== verification/FileThread.v ===== *)
(** The file threads: [FileThread] of [src/src/worker.cc].

    A file thread takes valid blocks, tags each of their sectors, writes them to a file and
    returns them as empty blocks; then it reads the file back into empty blocks, compares
    and removes the tags, checks the data and returns the blocks as valid.  The file, the
    page records and the pass number are the thread's own and are passed along by its body;
    each thread has a file of its own.  [normal_mem_] is true and never changed, so
    [page_io_] is true and the bounce buffer for other kinds of memory is left out, as are
    log lines. *)

From Stdlib Require Import Ascii String.
From S2P Require Import Prelude Adler Patterns Invert PageQueue FineLock OsLayer ErrorDiag.
From S2P Require Import Diagnostics Worker Program PageStore Threads Accounting DiskThread.

Module FileThread.
Import PageQueue Program PageStore Worker Threads.
Local Open Scope prog_scope.

(** ** Sector tags *)

(** [addr[off]], a byte of a little-endian word. *)
Definition get_byte (m : list Z) (base off : Z) : Z :=
  Z.land (Z.shiftr (aget 0 m (base + off / 8)) (8 * (off mod 8))) 0xff.

(** [sizeof(SectorTag)], and the offsets of its fields. *)
Definition sector_size : Z := 512.
Definition magic_at : Z := 0.
Definition block_at : Z := 1.
Definition sector_at : Z := 2.
Definition pass_at : Z := 3.

(** What a thread writes into its tags. *)
Record TagSource := mkTagSource { thread_num : Z; pass_ : Z }.

Definition magic (ts : TagSource) : Z := Z.land (0xba + thread_num ts) 0xff.

Definition tag_sector (ts : TagSource) (block base : Z) (m : list Z) (sec : Z) : list Z :=
  let tag := sector_size * sec in
  let m := set_byte m base (tag + magic_at) (magic ts) in
  let m := set_byte m base (tag + block_at) (Z.land block 0xff) in
  let m := set_byte m base (tag + sector_at) (Z.land sec 0xff) in
  set_byte m base (tag + pass_at) (Z.land (pass_ ts) 0xff).

(** [SectorTagPage] on the page at word [base]. *)
Definition tag_page (ts : TagSource) (page_length block base : Z) (m : list Z) : list Z :=
  fold_left (tag_sector ts block base) (zrange 0 (Z.to_nat (page_length / sector_size))) m.

Definition bad_tag (ts : TagSource) (block base : Z) (m : list Z) (sec : Z) : bool :=
  let tag := sector_size * sec in
  negb (get_byte m base (tag + magic_at) =? magic ts) ||
  negb (get_byte m base (tag + block_at) =? Z.land block 0xff) ||
  negb (get_byte m base (tag + sector_at) =? Z.land sec 0xff) ||
  negb (get_byte m base (tag + pass_at) =? Z.land (pass_ ts) 0xff).

(** The offset reported for a bad tag. *)
Definition tag_offset (ts : TagSource) (block base : Z) (m : list Z) (sec : Z) : Z :=
  let tag := sector_size * sec in
  s32 tag +
  (if negb (get_byte m base (tag + block_at) =? Z.land block 0xff) then 1
   else if negb (get_byte m base (tag + sector_at) =? Z.land sec 0xff) then 2
   else if negb (get_byte m base (tag + pass_at) =? Z.land (pass_ ts) 0xff) then 3
   else 0).

(** The source and destination of a page, with the pattern it should contain. *)
Record PageRec := mkPageRec { rec_pattern : option Z; rec_src : Z; rec_dst : Z }.

(** The state of the loop of [SectorValidatePage]: memory, the errors counted, the
    diagnoser, [firstsector] and [lastsector]. *)
Record TagCheck := mkTagCheck {
  tc_mem : list Z; tc_errors : Z; tc_diagnoser : ErrorDiag.ErrorDiag; firstsector : Z; lastsector : Z
}.

Section Validate.
Context (cfg : Config) (devicename : string) (ts : TagSource) (p : Patterns.Pattern) (page : PageRec).

Definition validate_sector (block base : Z) (st : TagCheck) (sec : Z) : TagCheck :=
  let m := tc_mem st in
  let tag := sector_size * sec in
  let here := s32 (Z.quot (s32 (block * page_length cfg)) 512 + sec) in
  let st :=
    if bad_tag ts block base m sec then
      mkTagCheck m (tc_errors st + 1)
        (ErrorDiag.AddHDDSectorTagError (AddressToDimmString cfg) (tc_diagnoser st) devicename
           (get_byte m base (tag + block_at)) (tag_offset ts block base m sec)
           (get_byte m base (tag + sector_at)) (rec_src page) (rec_dst page)).1
        (if firstsector st =? -1 then here else firstsector st) here
    else st in
  mkTagCheck (store32 m (2 * base + 128 * sec) (Patterns.pattern p (u32 (512 * sec / 4))))
    (tc_errors st) (tc_diagnoser st) (firstsector st) (lastsector st).

(** [memblock[i] = dst->pattern->pattern(i)] for [i < page_length / wordsize_]. *)
Definition repair_page (base : Z) (m : list Z) : list Z :=
  fold_left (fun m i => store32 m (2 * base + i) (Patterns.pattern p (u32 i)))
    (zrange 0 (Z.to_nat (page_length cfg / wordsize_))) m.

(** The blocks the repair loop runs over; each turn stores the same words. *)
Definition repair_turns (st : TagCheck) : nat :=
  Z.to_nat (Z.quot (s32 (lastsector st * 512)) (page_length cfg) -
            Z.quot (s32 (firstsector st * 512)) (page_length cfg) + 1).

(** [SectorValidatePage] without the injected errors. *)
Definition validate_page (block base : Z) (d : ErrorDiag.ErrorDiag) (m : list Z) : TagCheck :=
  let st := fold_left (validate_sector block base)
              (zrange 0 (Z.to_nat (page_length cfg / sector_size))) (mkTagCheck m 0 d (-1) (-1)) in
  if tc_errors st =? 0 then st
  else mkTagCheck (Nat.iter (repair_turns st) (repair_page base) (tc_mem st)) (tc_errors st) (tc_diagnoser st)
         (firstsector st) (lastsector st).

(** The errors injected at the second and the eighteenth call. *)
Definition inject_tags (calls base : Z) (m : list Z) : list Z :=
  let m := if calls =? 2
           then fold_left (fun m badsec => set_byte m base (sector_size * badsec + pass_at) 27) (zrange 8 9) m
           else m in
  if calls =? 18 then store32 m (2 * base + 27) 0xbadda7a else m.
End Validate.

(** ** Shared state *)

(** What an access of a file thread reads of its surroundings, next to what all threads
    read: the result of [read] or [write], the words an incomplete request leaves, what the
    file hands out for the words it stores. *)
Record FileAnswer := mkFileAnswer {
  base : Answer; io_size : Z; landed : list Z; delivered : list Z -> list Z; flush_ok : bool
}.

Section Thread.
Context {Q : Type} `{PS : PageStore Answer Q} (s : Settings) (t : nat) (disk_pages : Z) (devicename : string).

(** [calls] is the counter of [SectorValidatePage], which all file threads share. *)
Record FileWorld := mkFileWorld { shared : @Shared Q; calls : Z }.

Definition set_shared (w : FileWorld) (v : @Shared Q) : FileWorld := mkFileWorld v (calls w).

(** The thread's own members.  Its [errorcount_] is [device_errors] plus the count in the
    shared record of the thread, to which the comparisons of work blocks add;
    [device_reports] are the symptoms passed to [ErrorReport]. *)
Record Local := mkLocal {
  page_recs_ : list PageRec; pass : Z; file : list Z; device_errors : Z; device_reports : list string
}.

Definition set_recs (l : Local) (r : list PageRec) : Local :=
  mkLocal r (pass l) (file l) (device_errors l) (device_reports l).
Definition set_pass (l : Local) (v : Z) : Local :=
  mkLocal (page_recs_ l) v (file l) (device_errors l) (device_reports l).
Definition set_file (l : Local) (f : list Z) : Local :=
  mkLocal (page_recs_ l) (pass l) f (device_errors l) (device_reports l).
Definition add_device_errors (l : Local) (n : Z) (symptoms : list string) : Local :=
  mkLocal (page_recs_ l) (pass l) (file l) (device_errors l + n) (device_reports l ++ symptoms).

Definition page_rec (l : Local) (i : Z) : PageRec := nth (Z.to_nat i) (page_recs_ l) (mkPageRec None 0 0).
Definition tag_source (l : Local) : TagSource := mkTagSource (Z.of_nat t) (pass l).

Abbreviation P := (Prog FileAnswer FileWorld).

(** What all threads do. *)
Definition common {A} (q : Prog Answer (@Shared Q) A) : P A := embed base shared set_shared q.

(** The words of a page, and where page [i] is in the file. *)
Definition page_words_ : nat := Z.to_nat (page_length_ s / 8).
Definition file_at (i : Z) : Z := i * (page_length_ s / 8).

Definition file_config (an : FileAnswer) (crc_page : option (Z * Z * Z)) : Config :=
  let c := cfg_at s (base an) in
  mkConfig (page_length c) (fill_direction c) (fill_yield_bytes c) (stop_on_error c) (tag_mode_ c) (mem_base c)
    (verbosity c) (error_log_limit c) (world c) (Some (mkFileContext devicename crc_page)).

(** [CrcCheckPage] of a file thread: its errors go through [FileThread::ProcessError]. *)
Definition file_check (l : Local) (crc_page : option (Z * Z * Z)) (pe : page_entry) (phase : string) : P Z :=
  act (fun an w =>
    match source_of (shared w) pe "file" phase with
    | None => None
    | Some src =>
        match CrcCheckPage (file_config an crc_page) (add_errors (thread_view (shared w) t) (device_errors l))
                (patternlist_ (shared w)) src (page_base (cfg s) pe) with
        | Some (st, errors) =>
            Some (errors, set_shared w (thread_update (shared w) t (add_errors st (- device_errors l))))
        | None => None
        end
    end).

Definition SectorTagPage (l : Local) (src : page_entry) (block : Z) : P unit :=
  act (fun _ w => Some (tt, set_shared w (set_memory (shared w)
    (tag_page (tag_source l) (page_length_ s) block (page_base (cfg s) src) (memory (shared w)))))).

(** [write] at page [i] of the file. *)
Definition WritePageToFile (l : Local) (i : Z) (src : page_entry) : P (bool * Local) :=
  act (fun an w =>
    let complete := io_size an =? page_length_ s in
    let words := if complete then range_words (memory (shared w)) (page_base (cfg s) src) page_words_ else landed an in
    let l := set_file l (copy_words words page_words_ (file_at i) (file l)) in
    Some ((complete, if complete then l else add_device_errors l 1 ["write-error"%string]), w)).

(** [WritePages] from page [i] on, [n] pages. *)
Fixpoint write_pages (n : nat) (i : Z) (l : Local) : P (bool * Local) :=
  match n with
  | O => flushed <- ask flush_ok ;; Ret (flushed, l)
  | S n' =>
      got <- common (Sat_GetValid s kDontCareTag) ;;
      match got with
      | None => Ret (false, l)
      | Some src =>
          let l := set_recs l (<[Z.to_nat i := mkPageRec (pattern src) (addr src) (rec_dst (page_rec l i))]> (page_recs_ l)) in
          (if strict s then file_check l None src "source_check" ;; Ret tt else Ret tt) ;;
          SectorTagPage l src i ;;
          written <- WritePageToFile l i src ;;
          let '(result, l) := written in
          put <- common (Sat_PutEmpty src) ;;
          if negb put then Ret (false, l)
          else if negb result then Ret (false, l)
          else write_pages n' (i + 1) l
      end
  end.

Definition WritePages (l : Local) : P (bool * Local) := write_pages (Z.to_nat disk_pages) 0 l.

(** [read] of page [i] of the file into [dst]. *)
Definition ReadPageFromFile (l : Local) (i : Z) (dst : page_entry) : P (bool * Local * page_entry) :=
  freq <- ask (fun an => frequency (base an)) ;;
  act (fun an w =>
    let complete := io_size an =? page_length_ s in
    let words := if complete then delivered an (range_words (file l) (file_at i) page_words_) else landed an in
    let w := set_shared w (set_memory (shared w)
               (copy_words words page_words_ (page_base (cfg s) dst) (memory (shared w)))) in
    if complete then Some ((true, l, set_write_frequency dst freq), w)
    else Some ((false, add_device_errors l 1 ["read-error"%string], dst), w)).

Definition SectorValidatePage (l : Local) (page : PageRec) (dst : page_entry) (block : Z) : P Local :=
  act (fun _ w =>
    match pattern_object (shared w) (pattern dst) with
    | None => None
    | Some p =>
        let sh := shared w in
        let calls := s32 (calls w + 1) in
        let at_ := page_base (cfg s) dst in
        let m := if error_injection s then inject_tags calls at_ (memory sh) else memory sh in
        let st := validate_page (cfg s) devicename (tag_source l) p page block at_ (diagnoser sh) m in
        let stop := error_stop_requested_ sh || (negb (tc_errors st =? 0) && stop_on_error (cfg s)) in
        Some (add_device_errors l (tc_errors st) [],
              mkFileWorld (mkShared (store sh) (tc_mem st) stop (log_budget sh) (tc_diagnoser st) (all_printed sh)
                             (all_reports sh) (patternlist_ sh) (block_history sh) (workers sh)) calls)
    end).

Definition set_lastcpu (pe : page_entry) (cpu : Z) : page_entry :=
  mk_page_entry (offset pe) (addr pe) (PageQueue.paddr pe) (pattern pe) (tag pe) (touch pe) (ts pe)
    cpu (write_dram_frequency pe) (lastpattern pe).

(** [ReadPages] from page [i] on, [n] pages. *)
Fixpoint read_pages (n : nat) (i : Z) (result : bool) (l : Local) : P (bool * Local) :=
  match n with
  | O => Ret (result, l)
  | S n' =>
      got <- common (Sat_GetEmpty s kDontCareTag) ;;
      match got with
      | None => Ret (false, l)
      | Some dst =>
          c <- ask (fun an => cpu (base an)) ;;
          let dst := set_lastcpu (set_pattern dst (rec_pattern (page_rec l i))) c in
          let page := mkPageRec (rec_pattern (page_rec l i)) (rec_src (page_rec l i)) (addr dst) in
          let l := set_recs l (<[Z.to_nat i := page]> (page_recs_ l)) in
          read_epoch_begin <- common (epoch_begin s) ;;
          got <- ReadPageFromFile l i dst ;;
          let '(ok, l, dst) := got in
          if negb ok then common (Sat_PutEmpty dst) ;; Ret (false, l)
          else
            common (record_write s dst Diagnostics.BLOCK_WRITER_FILE t read_epoch_begin) ;;
            l <- SectorValidatePage l page dst i ;;
            result <- (if strict s then
                         errors <- file_check l (Some (i, rec_src page, rec_dst page)) dst "destination_check" ;;
                         Ret (result && (errors =? 0))
                       else Ret result) ;;
            put <- common (Sat_PutValid dst) ;;
            if negb put then Ret (false, l) else read_pages n' (i + 1) result l
      end
  end.

Definition ReadPages (l : Local) : P (bool * Local) := read_pages (Z.to_nat disk_pages) 0 true l.

(** One turn of the loop of [Work]: the finished loops and the members. *)
Definition file_turn (st : Z * Local) : P ((Z * Local) + (Z * Local)) :=
  let '(loops, l) := st in
  running <- common IsReadyToRun ;;
  stop <- (if (running : bool) then common error_stop_requested else Ret true) ;;
  if stop then Ret (inr (loops, l))
  else
    r <- WritePages l ;;
    let '(result, l) := r in
    if negb result then Ret (inr (loops, l))
    else
      r <- ReadPages l ;;
      let '(result, l) := r in
      if negb result then Ret (inr (loops, l))
      else Ret (inl (loops + 1, set_pass l (s32 (loops + 1)))).

(** [Work]; [opened] is whether one of the two attempts to open the file succeeds, [words]
    are its contents. *)
Definition Work (fuel : nat) (opened : bool) (words : list Z) : P (option (bool * Local)) :=
  let l := mkLocal (replicate (Z.to_nat disk_pages) (mkPageRec None 0 0)) 0 words 0 [] in
  if negb opened then common (finish t false 0 0) ;; Ret (Some (false, l))
  else
    r <- loop fuel file_turn (0, l) ;;
    match r with
    | None => Ret None
    | Some (loops, l) => common (finish t true (loops * disk_pages) 0) ;; Ret (Some (true, l))
    end.
End Thread.
End FileThread.

Module FileThreadFacts.
Import PageQueue Program ProgramFacts PageStore Worker WorkerFacts Threads Sums Accounting AccountingFacts FileThread.

(** ** Bytes of a word *)

Definition put_byte (w k v : Z) : Z := Z.lor (Z.ldiff w (Z.shiftl 0xff (8 * k))) (Z.shiftl v (8 * k)).
Definition byte_of (w k : Z) : Z := Z.land (Z.shiftr w (8 * k)) 0xff.

Lemma testbit_ff i : 0 <= i -> Z.testbit 0xff i = (i <? 8).
Proof.
  intros Hi. change 0xff with (Z.ones 8). rewrite Z.testbit_ones by lia.
  by rewrite (proj2 (Z.leb_le 0 i) Hi).
Qed.

Lemma testbit_byte_high v i : 0 <= v < 256 -> 8 <= i -> Z.testbit v i = false.
Proof.
  intros Hv Hi. rewrite <- (Z.mod_small v (2 ^ 8)) by (change (2 ^ 8) with 256; lia). by apply Z.mod_pow2_bits_high.
Qed.

Lemma testbit_put w k v i :
  0 <= k -> 0 <= v < 256 -> 0 <= i ->
  Z.testbit (put_byte w k v) i =
  if (8 * k <=? i) && (i <? 8 * k + 8) then Z.testbit v (i - 8 * k) else Z.testbit w i.
Proof.
  intros Hk Hv Hi. unfold put_byte. rewrite Z.lor_spec, Z.ldiff_spec, !Z.shiftl_spec by lia.
  destruct (Z.leb_spec (8 * k) i) as [H1|H1]; cbn [andb].
  - rewrite testbit_ff by lia. destruct (Z.ltb_spec i (8 * k + 8)), (Z.ltb_spec (i - 8 * k) 8); try lia; cbn [negb].
    + by rewrite andb_false_r.
    + rewrite (testbit_byte_high v) by lia. by rewrite andb_true_r, orb_false_r.
  - rewrite !(Z.testbit_neg_r _ (i - 8 * k)) by lia. cbn. by rewrite andb_true_r, orb_false_r.
Qed.

Lemma byte_put w k v k' :
  0 <= k -> 0 <= k' -> 0 <= v < 256 -> byte_of (put_byte w k v) k' = if k =? k' then v else byte_of w k'.
Proof.
  intros Hk Hk' Hv. apply Z.bits_inj'. intros i Hi. destruct (Z.eqb_spec k k') as [->|Hne]; unfold byte_of;
    rewrite !Z.land_spec, !Z.shiftr_spec, testbit_ff, testbit_put by lia.
  - destruct (Z.ltb_spec i 8).
    + rewrite (proj2 (Z.leb_le _ _)), (proj2 (Z.ltb_lt _ _)) by lia. cbn. rewrite andb_true_r. f_equal. lia.
    + rewrite andb_false_r. symmetry. by apply testbit_byte_high.
  - destruct (Z.ltb_spec i 8); [|by rewrite !andb_false_r].
    replace ((8 * k <=? i + 8 * k') && (i + 8 * k' <? 8 * k + 8)) with false; [done|].
    symmetry. apply andb_false_iff. rewrite Z.leb_gt, Z.ltb_ge. lia.
Qed.

Lemma testbit_l32_h w i : 0 <= i -> Z.testbit (l32_h w) i = (i <? 32) && Z.testbit w (i + 32).
Proof.
  intros Hi. unfold l32_h. destruct (Z.ltb_spec i 32).
  - rewrite Z.mod_pow2_bits_low, Z.div_pow2_bits by lia. done.
  - by rewrite Z.mod_pow2_bits_high by lia.
Qed.

Lemma high_put w k v : 0 <= k < 4 -> 0 <= v < 256 -> l32_h (put_byte w k v) = l32_h w.
Proof.
  intros Hk Hv. apply Z.bits_inj'. intros i Hi. rewrite !testbit_l32_h, testbit_put by lia.
  replace (i + 32 <? 8 * k + 8) with false by (symmetry; apply Z.ltb_ge; lia). by rewrite andb_false_r.
Qed.

Lemma put_bound w k v : 0 <= k < 8 -> 0 <= v < 256 -> 0 <= w < 2 ^ 64 -> 0 <= put_byte w k v < 2 ^ 64.
Proof.
  intros Hk Hv Hw. assert (H0 : put_byte w k v = put_byte w k v mod 2 ^ 64).
  { apply Z.bits_inj'. intros i Hi. destruct (decide (i < 64)); [by rewrite Z.mod_pow2_bits_low by lia|].
    rewrite Z.mod_pow2_bits_high, testbit_put by lia.
    replace (i <? 8 * k + 8) with false by (symmetry; apply Z.ltb_ge; lia). rewrite andb_false_r.
    rewrite <- (Z.mod_small w (2 ^ 64)) by lia. apply Z.mod_pow2_bits_high. lia. }
  rewrite H0. apply Z.mod_pos_bound. lia.
Qed.

Lemma byte_bound x : 0 <= Z.land x 0xff < 256.
Proof. change 0xff with (Z.ones 8). rewrite Z.land_ones by lia. apply Z.mod_pos_bound. lia. Qed.

(** ** Sectors *)

Lemma filter_none {A} (P : A -> Prop) `{forall x, Decision (P x)} (l : list A) : (forall x, x ∈ l -> ~ P x) -> filter P l = [].
Proof.
  intros Hn. destruct (filter P l) as [|x l'] eqn:He; [done|]. exfalso.
  assert (Hx : x ∈ filter P l) by (rewrite He; left). apply list_elem_of_filter in Hx as [H1 H2]. by apply (Hn x).
Qed.

Lemma filter_every {A} (P : A -> Prop) `{forall x, Decision (P x)} (l : list A) : (forall x, x ∈ l -> P x) -> filter P l = l.
Proof.
  induction l as [|x l IH]; intros Ha; [done|]. rewrite filter_cons_True by (apply Ha; left). f_equal. apply IH. intros y Hy. apply Ha. by right.
Qed.

(** Changing the first word of each sector, one sector more. *)
Lemma sector_step (h : Z -> Z) base n m :
  0 <= base -> base + 64 * Z.of_nat (S n) <= Z.of_nat (length m) ->
  (forall j, j mod 64 <> 0 -> h j = aget 0 m (base + j)) ->
  aset (filled h base (64 * n) m) (base + 64 * Z.of_nat n) (h (64 * Z.of_nat n)) = filled h base (64 * S n) m.
Proof.
  intros Hb Hlen Hh. apply list_eq. intros k. unfold aset.
  destruct (decide (Z.to_nat (base + 64 * Z.of_nat n) = k)) as [<-|Hk].
  - rewrite list_lookup_insert_eq by (rewrite length_filled; lia). rewrite lookup_filled.
    destruct (lookup_lt_is_Some_2 m (Z.to_nat (base + 64 * Z.of_nat n))) as [x ->]; [lia|]. cbn.
    rewrite decide_True by lia. do 2 f_equal. lia.
  - rewrite list_lookup_insert_ne by done. rewrite !lookup_filled. destruct (m !! k) as [x|] eqn:Hx; [|done].
    cbn. f_equal. destruct (decide (base <= Z.of_nat k < base + Z.of_nat (64 * n))) as [H1|H1].
    + by rewrite !decide_True by lia.
    + rewrite decide_False by lia. case_decide as H2; [|done]. rewrite Hh.
      * symmetry. apply Adler.AdlerFacts.aget_lookup; [lia|].
        by replace (Z.to_nat (base + (Z.of_nat k - base))) with k by lia.
      * intros Hz. apply Z.mod_divide in Hz as [q Hq]; [|lia]. apply Hk. assert (q = Z.of_nat n) by lia. lia.
Qed.

Lemma filled_none f b m : filled f b 0 m = m.
Proof. apply list_eq. intros k. rewrite lookup_filled. destruct (m !! k); [|done]. cbn. by rewrite decide_False by lia. Qed.

Definition tag_word (ts : TagSource) (block sec w : Z) : Z :=
  put_byte (put_byte (put_byte (put_byte w 0 (magic ts)) 1 (Z.land block 0xff)) 2 (Z.land sec 0xff)) 3
    (Z.land (pass_ ts) 0xff).

Lemma sector_byte sec k : 0 <= k < 8 -> (sector_size * sec + k) / 8 = 64 * sec /\ (sector_size * sec + k) mod 8 = k.
Proof.
  intros Hk. unfold sector_size. replace (512 * sec + k) with (k + (64 * sec) * 8) by lia.
  rewrite Z.div_add, Z_mod_plus_full, Z.div_small, Z.mod_small by lia. lia.
Qed.

Lemma set_byte_put m base sec k v :
  0 <= k < 8 -> set_byte m base (sector_size * sec + k) v =
  aset m (base + 64 * sec) (put_byte (aget 0 m (base + 64 * sec)) k v).
Proof. intros Hk. unfold set_byte, put_byte. destruct (sector_byte sec k Hk) as [-> ->]. done. Qed.

Lemma get_byte_of m base sec k :
  0 <= k < 8 -> get_byte m base (sector_size * sec + k) = byte_of (aget 0 m (base + 64 * sec)) k.
Proof. intros Hk. unfold get_byte, byte_of. destruct (sector_byte sec k Hk) as [-> ->]. done. Qed.

Lemma aset_aset {A} (m : list A) i v v' : aset (aset m i v) i v' = aset m i v'.
Proof. apply list_insert_insert_eq. Qed.

Lemma tag_sector_word ts block base m sec :
  0 <= base -> 0 <= sec -> base + 64 * sec < Z.of_nat (length m) ->
  tag_sector ts block base m sec = aset m (base + 64 * sec) (tag_word ts block sec (aget 0 m (base + 64 * sec))).
Proof.
  intros Hb Hs Hl. unfold tag_sector, magic_at, block_at, sector_at, pass_at. cbv zeta.
  rewrite !set_byte_put by lia. unfold tag_word.
  rewrite !aset_aset, !aget_aset_eq by (rewrite ?length_aset; lia). done.
Qed.

(** The bytes of a tag, and the rest of its word. *)
Lemma tag_word_bytes ts block sec w :
  byte_of (tag_word ts block sec w) 0 = magic ts /\ byte_of (tag_word ts block sec w) 1 = Z.land block 0xff /\
  byte_of (tag_word ts block sec w) 2 = Z.land sec 0xff /\ byte_of (tag_word ts block sec w) 3 = Z.land (pass_ ts) 0xff /\
  l32_h (tag_word ts block sec w) = l32_h w /\ (0 <= w < 2 ^ 64 -> 0 <= tag_word ts block sec w < 2 ^ 64).
Proof.
  unfold tag_word, magic. pose proof byte_bound as Hb.
  repeat rewrite byte_put by (apply Hb || lia). cbn [Z.eqb Pos.eqb].
  repeat rewrite high_put by (apply Hb || lia). split_and!; try done.
  intros Hw. repeat apply put_bound; (apply Hb || lia).
Qed.

(** The words of a page once it is tagged. *)
Definition tagged (ts : TagSource) (block : Z) (f : Z -> Z) (j : Z) : Z :=
  if j mod 64 =? 0 then tag_word ts block (j / 64) (f j) else f j.

Lemma tag_page_filled ts len block base m k :
  0 <= base -> len / sector_size = Z.of_nat k -> base + 64 * Z.of_nat k <= Z.of_nat (length m) ->
  tag_page ts len block base m = filled (tagged ts block (fun j => aget 0 m (base + j))) base (64 * k) m.
Proof.
  intros Hb Hk Hl. unfold tag_page. rewrite Hk, Nat2Z.id.
  clear Hk. induction k as [|k IH]; [by rewrite Nat.mul_0_r, filled_none|].
  rewrite zrange_S_r, fold_left_app, IH by lia. cbn [fold_left].
  rewrite tag_sector_word by (rewrite ?length_filled; lia). rewrite aget_filled_out, Z.add_0_l by lia.
  rewrite <- sector_step; [|done|lia|].
  - f_equal. unfold tagged. rewrite (Z.mul_comm 64), Z.mod_mul, Z.div_mul by lia. done.
  - intros j Hj. unfold tagged. by rewrite (proj2 (Z.eqb_neq _ _) Hj).
Qed.

Lemma filled_one f b m : 0 <= b -> filled f b 1 m = aset m b (f 0).
Proof.
  intros Hb. apply list_eq. intros k. rewrite lookup_filled. unfold aset.
  destruct (decide (Z.to_nat b = k)) as [<-|Hk].
  - destruct (m !! Z.to_nat b) as [x|] eqn:Hx.
    + cbn. rewrite decide_True, list_lookup_insert_eq by (lia || by eapply lookup_lt_Some). do 2 f_equal. lia.
    + cbn. symmetry. apply lookup_ge_None_2. rewrite length_insert. by apply lookup_ge_None.
  - rewrite list_lookup_insert_ne by done. destruct (m !! k); [|done]. cbn. by rewrite decide_False by lia.
Qed.

Lemma filled_S f b k m : 0 <= b -> aset (filled f b k m) (b + Z.of_nat k) (f (Z.of_nat k)) = filled f b (S k) m.
Proof.
  intros Hb. rewrite <- Nat.add_1_r, <- (filled_app f b k 1 m Hb), filled_one by lia. do 2 f_equal. lia.
Qed.

Lemma store32_low m b i v : 0 <= b -> i = 2 * b -> store32 m i v = aset m b (l64 v (l32_h (aget 0 m b))).
Proof. intros Hb ->. unfold store32. by rewrite Z.mul_comm, Z.mod_mul, Z.div_mul by lia. Qed.

Lemma store32_high m b i v : 0 <= b -> i = 2 * b + 1 -> store32 m i v = aset m b (l64 (l32_l (aget 0 m b)) v).
Proof.
  intros Hb ->. unfold store32. rewrite (Z.add_comm (2 * b)), (Z.mul_comm 2 b), Z_mod_plus_full, Z.div_add by lia. done.
Qed.

(** A sector loses its tag. *)
Definition untagged (p : Patterns.Pattern) (f : Z -> Z) (j : Z) : Z :=
  if j mod 64 =? 0 then l64 (Patterns.pattern p (2 * j)) (l32_h (f j)) else f j.

Section Page.
Context (c : Config) (dev : string) (ts : TagSource) (p : Patterns.Pattern) (page : PageRec) (base_ : Z) (k : nat).
Context (Hgood : good_pattern p) (Hbase : 0 <= base_) (Hlen : page_length c = 512 * Z.of_nat k) (Hmax : page_length c < 2 ^ 31).

Lemma sectors_eq : page_length c / sector_size = Z.of_nat k /\ page_length c / wordsize_ = 2 * Z.of_nat (32 * k) /\
  page_words c = (64 * k)%nat.
Proof using Hlen.
  unfold page_words, sector_size, wordsize_. rewrite Hlen.
  assert (H1 : 512 * Z.of_nat k / 512 = Z.of_nat k) by (by rewrite Z.mul_comm, Z.div_mul).
  assert (H2 : 512 * Z.of_nat k / 8 = 64 * Z.of_nat k)
    by (replace (512 * Z.of_nat k) with (64 * Z.of_nat k * 8) by lia; by rewrite Z.div_mul).
  rewrite H1, H2. lia.
Qed.

Lemma repair_page_filled m :
  base_ + Z.of_nat (32 * k) <= Z.of_nat (length m) ->
  repair_page c p base_ m = filled (PatternFacts.pattern_word p) base_ (32 * k) m.
Proof using Hgood Hbase Hlen Hmax.
  intros Hm. unfold repair_page. destruct sectors_eq as (_ & -> & _).
  replace (Z.to_nat (2 * Z.of_nat (32 * k))) with (2 * (32 * k))%nat by lia.
  assert (Hk : Z.of_nat (32 * k) < 2 ^ 29) by lia. revert Hm Hk. generalize (32 * k)%nat as h.
  induction h as [|h IH]; intros Hm Hk.
  - by rewrite filled_none.
  - replace (2 * S h)%nat with (S (S (2 * h))) by lia. rewrite !zrange_S_r, !fold_left_app, IH by lia. cbn [fold_left].
    rewrite !Z.add_0_l, !u32_id by lia. rewrite (store32_low _ (base_ + Z.of_nat h) (2 * base_ + Z.of_nat (2 * h))) by lia.
    rewrite (store32_high _ (base_ + Z.of_nat h)) by lia. rewrite aset_aset, aget_aset_eq by (rewrite length_filled; lia).
    rewrite l64_l32_l by (apply PatternFacts.pattern_value_bounds; [apply Hgood | lia]).
    rewrite <- filled_S by done. f_equal. unfold PatternFacts.pattern_word. do 2 f_equal; lia.
Qed.

Definition bad_sectors (block : Z) (m : list Z) : list Z :=
  filter (fun sec => bad_tag ts block base_ m sec = true) (zrange 0 k).

Definition first_sector (block : Z) : Z := block * page_length c / 512.

(** The file is small enough for an [int]. *)
Definition no_overflow (block : Z) : Prop := 0 <= block /\ (block + 1) * page_length c < 2 ^ 31.

(** The loop over the first [i] sectors. *)
Lemma validate_fold block d m i :
  (i <= k)%nat -> base_ + 64 * Z.of_nat k <= Z.of_nat (length m) ->
  exists d' f l, fold_left (validate_sector c dev ts p page block base_) (zrange 0 i) (mkTagCheck m 0 d (-1) (-1)) =
    mkTagCheck (filled (untagged p (fun j => aget 0 m (base_ + j))) base_ (64 * i) m)
      (Z.of_nat (length (filter (fun sec => bad_tag ts block base_ m sec = true) (zrange 0 i)))) d' f l /\
    ((filter (fun sec => bad_tag ts block base_ m sec = true) (zrange 0 i) = [] /\ d' = d /\ f = -1 /\ l = -1) \/
     (filter (fun sec => bad_tag ts block base_ m sec = true) (zrange 0 i) <> [] /\
      (no_overflow block -> first_sector block <= f <= l /\ l < first_sector block + Z.of_nat i))).
Proof using Hgood Hbase Hlen Hmax.
  intros Hi Hm. induction i as [|i IH].
  { exists d, (-1), (-1). rewrite Nat.mul_0_r, filled_none. split; [done|]. by left. }
  destruct IH as (d' & f & l & Heq & Hc); [lia|]. rewrite zrange_S_r, fold_left_app, Heq. cbn [fold_left]. clear Heq.
  rewrite filter_app, length_app, Z.add_0_l. set (bads := filter _ (zrange 0 i)) in *.
  unfold validate_sector. cbn [tc_mem tc_errors tc_diagnoser firstsector lastsector].
  set (mi := filled _ base_ (64 * i) m).
  assert (Hword : aget 0 mi (base_ + 64 * Z.of_nat i) = aget 0 m (base_ + 64 * Z.of_nat i)) by (apply aget_filled_out; lia).
  assert (Hbad : bad_tag ts block base_ mi (Z.of_nat i) = bad_tag ts block base_ m (Z.of_nat i)).
  { unfold bad_tag, magic_at, block_at, sector_at, pass_at. cbv zeta. rewrite !get_byte_of, Hword by lia. done. }
  assert (Hmem : store32 mi (2 * base_ + 128 * Z.of_nat i) (Patterns.pattern p (u32 (512 * Z.of_nat i / 4))) =
    filled (untagged p (fun j => aget 0 m (base_ + j))) base_ (64 * S i) m).
  { rewrite (store32_low _ (base_ + 64 * Z.of_nat i)) by lia. rewrite Hword. unfold mi.
    rewrite <- sector_step; [|done|lia|].
    - f_equal. unfold untagged. rewrite (Z.mul_comm 64), Z.mod_mul by lia. cbn [Z.eqb]. f_equal. f_equal.
      replace (512 * Z.of_nat i / 4) with (128 * Z.of_nat i) by
        (replace (512 * Z.of_nat i) with (128 * Z.of_nat i * 4) by lia; by rewrite Z.div_mul). rewrite u32_id; lia.
    - intros j Hj. unfold untagged. by rewrite (proj2 (Z.eqb_neq _ _) Hj). }
  rewrite Hbad, Hmem.
  assert (Hhere : no_overflow block -> s32 (Z.quot (s32 (block * page_length c)) 512 + Z.of_nat i) = first_sector block + Z.of_nat i /\
    0 <= first_sector block).
  { intros [Hbl Hov]. split; [|apply Z.div_pos; nia]. unfold first_sector. rewrite (s32_id (block * page_length c)) by nia. rewrite Z.quot_div_nonneg by nia.
    apply s32_id. assert (0 <= block * page_length c / 512 <= block * page_length c) by
      (split; [apply Z.div_pos; nia | apply Z.div_le_upper_bound; nia]). nia. }
  destruct (bad_tag ts block base_ m (Z.of_nat i)) eqn:Hb; cbn [tc_mem tc_errors tc_diagnoser firstsector lastsector].
  - rewrite filter_cons_True, filter_nil by done. eexists _, _, _. split; [f_equal; cbn [length]; lia|]. right. split.
    { intros He. apply app_eq_nil in He as [_ ?]. done. }
    intros Hov. destruct (Hhere Hov) as [-> Hf0]. destruct Hc as [(_ & _ & -> & _)|(_ & Hr)]; cbn [Z.eqb Pos.eqb]; [lia|].
    specialize (Hr Hov). rewrite (proj2 (Z.eqb_neq f (-1))) by lia. lia.
  - rewrite filter_cons_False, filter_nil, app_nil_r by (by rewrite Hb). eexists _, _, _. split; [f_equal; cbn [length]; lia|].
    destruct Hc as [?|(H1 & H2)]; [by left | right; split; [done|]]. intros Hov. specialize (H2 Hov). lia.
Qed.

(** Without overflow of the sector numbers, the repair loop has one turn. *)
Lemma repair_once block m e d f l :
  no_overflow block -> first_sector block <= f <= l ->
  l < first_sector block + Z.of_nat k -> repair_turns c (mkTagCheck m e d f l) = 1%nat.
Proof using Hlen Hmax.
  intros [Hb Hov] Hf Hl. unfold repair_turns. cbn [firstsector lastsector].
  assert (Hfs : first_sector block = block * Z.of_nat k).
  { unfold first_sector. rewrite Hlen. replace (block * (512 * Z.of_nat k)) with (block * Z.of_nat k * 512) by lia. by rewrite Z.div_mul. }
  assert (Hq : forall x, first_sector block <= x < first_sector block + Z.of_nat k ->
    Z.quot (s32 (x * 512)) (page_length c) = block).
  { intros x Hx. rewrite Hlen in *. rewrite s32_id by nia. rewrite Z.quot_div_nonneg by nia.
    symmetry. apply Z.div_unique with (512 * (x - block * Z.of_nat k)); nia. }
  rewrite !Hq by lia. lia.
Qed.

(** What [validate_page] does to a page with and without bad tags. *)
Lemma validate_page_spec block d m :
  base_ + 64 * Z.of_nat k <= Z.of_nat (length m) ->
  let st := validate_page c dev ts p page block base_ d m in
  let clean := untagged p (fun j => aget 0 m (base_ + j)) in
  tc_errors st = Z.of_nat (length (bad_sectors block m)) /\
  (bad_sectors block m = [] -> tc_mem st = filled clean base_ (64 * k) m /\ tc_diagnoser st = d) /\
  (bad_sectors block m <> [] -> no_overflow block ->
   tc_mem st = filled (fun j => if j <? 32 * Z.of_nat k then PatternFacts.pattern_word p j else clean j) base_ (64 * k) m).
Proof using Hgood Hbase Hlen Hmax.
  intros Hm. cbv zeta. unfold validate_page. destruct sectors_eq as (-> & _ & _). rewrite Nat2Z.id.
  destruct (validate_fold block d m k (le_n k) Hm) as (d' & f & l & -> & Hc). fold (bad_sectors block m) in *.
  cbn [tc_errors tc_mem tc_diagnoser].
  destruct Hc as [(He & -> & -> & ->)|(Hne & Hf)].
  - rewrite He. by cbn.
  - assert (Hpos : Z.of_nat (length (bad_sectors block m)) <> 0) by (destruct (bad_sectors block m); [done | cbn; lia]).
    rewrite (proj2 (Z.eqb_neq _ _) Hpos). cbn [tc_errors tc_mem tc_diagnoser firstsector lastsector].
    split; [done|]. split; [done|]. intros _ Hov. destruct (Hf Hov) as [Hf1 Hf2].
    rewrite (repair_once block) by done. change (Nat.iter 1 ?f ?x) with (f x).
    rewrite repair_page_filled by (rewrite length_filled; lia).
    apply list_eq. intros x. rewrite !lookup_filled. destruct (m !! x) as [y|] eqn:Hy; [|done].
    cbn [fmap option_fmap option_map]. f_equal. destruct (Z.ltb_spec (Z.of_nat x - base_) (32 * Z.of_nat k)); repeat case_decide; try lia; done.
Qed.

(** The tags of another pass, block or thread. *)
Definition same_tag (ts' : TagSource) (block block' : Z) : bool :=
  (magic ts =? magic ts') && (Z.land block 0xff =? Z.land block' 0xff) && (Z.land (pass_ ts) 0xff =? Z.land (pass_ ts') 0xff).

Lemma bad_tag_word ts' block block' m sec w :
  aget 0 m (base_ + 64 * sec) = tag_word ts' block' sec w -> bad_tag ts block base_ m sec = negb (same_tag ts' block block').
Proof using k.
  intros Hw. unfold bad_tag, magic_at, block_at, sector_at, pass_at. cbv zeta. rewrite !get_byte_of, Hw by lia.
  destruct (tag_word_bytes ts' block' sec w) as (-> & -> & -> & -> & _).
  unfold same_tag. rewrite Z.eqb_refl, !(Z.eqb_sym (magic ts')), (Z.eqb_sym (Z.land block' _)), (Z.eqb_sym (Z.land (pass_ ts') _)).
  rewrite !negb_andb. cbn [negb]. by rewrite orb_false_r.
Qed.

Lemma untagged_tagged ts' block f j :
  f j = PatternFacts.pattern_word p j -> 0 <= j < 64 * Z.of_nat k ->
  untagged p (tagged ts' block f) j = PatternFacts.pattern_word p j.
Proof using Hgood Hlen Hmax.
  intros Hp Hj. unfold untagged, tagged. destruct (Z.eqb_spec (j mod 64) 0) as [He|He]; [|done].
  destruct (tag_word_bytes ts' block (j / 64) (f j)) as (_ & _ & _ & _ & -> & _).
  rewrite Hp. unfold PatternFacts.pattern_word at 1.
  rewrite l64_l32_h by (apply PatternFacts.pattern_value_bounds; [apply Hgood | lia]). done.
Qed.

(** A page with the tags of the thread, block and pass, or of another. *)
Lemma validate_tagged ts' block block' d m :
  base_ + 64 * Z.of_nat k <= Z.of_nat (length m) ->
  (forall j, 0 <= j < 64 * Z.of_nat k -> aget 0 m (base_ + j) = tagged ts' block' (PatternFacts.pattern_word p) j) ->
  let st := validate_page c dev ts p page block base_ d m in
  if same_tag ts' block block'
  then tc_mem st = filled (PatternFacts.pattern_word p) base_ (64 * k) m /\ tc_errors st = 0 /\ tc_diagnoser st = d
  else tc_errors st = Z.of_nat k.
Proof using Hgood Hbase Hlen Hmax.
  intros Hm Hp. cbv zeta. destruct (validate_page_spec block d m Hm) as (He & Hmem & _).
  assert (Hbad : forall sec, sec ∈ zrange 0 k -> bad_tag ts block base_ m sec = negb (same_tag ts' block block')).
  { intros sec Hsec%elem_of_zrange. apply (bad_tag_word ts' block block' m sec (PatternFacts.pattern_word p (64 * sec))).
    rewrite Hp by lia. unfold tagged. rewrite (Z.mul_comm 64), Z.mod_mul, Z.div_mul by lia. done. }
  destruct (same_tag ts' block block').
  - assert (Hnil : bad_sectors block m = []) by (apply filter_none; intros sec Hsec; by rewrite Hbad).
    rewrite Hnil in *. destruct (Hmem eq_refl) as [-> ->]. split; [|done]. apply filled_ext. intros j Hj.
    rewrite <- (untagged_tagged ts' block' (PatternFacts.pattern_word p) j eq_refl) by lia.
    unfold untagged. by rewrite Hp by lia.
  - rewrite He. f_equal. unfold bad_sectors. rewrite filter_every; [by rewrite length_zrange|].
    intros sec Hsec. by rewrite Hbad.
Qed.
End Page.

(** C13. Sector tags.  A page that holds a pattern is tagged and, after a trip through a
    file, validated.  If the tags are those of the same thread, block and pass (each of
    them modulo 256), no error is counted, nothing is reported and the page holds the
    pattern again.  If they are of another thread, another block or another pass, every
    sector of the page is counted as an error. *)
Theorem sector_tags_roundtrip c dev ts ts' p page base_ k block block' d m :
  good_pattern p -> 0 <= base_ -> page_length c = 512 * Z.of_nat k -> page_length c < 2 ^ 31 ->
  base_ + 64 * Z.of_nat k <= Z.of_nat (length m) ->
  (forall j, 0 <= j < 64 * Z.of_nat k -> aget 0 m (base_ + j) = PatternFacts.pattern_word p j) ->
  let st := validate_page c dev ts p page block base_ d (tag_page ts' (page_length c) block' base_ m) in
  if same_tag ts ts' block block' then tc_mem st = m /\ tc_errors st = 0 /\ tc_diagnoser st = d
  else tc_errors st = Z.of_nat k.
Proof.
  intros Hg Hb Hlen Hmax Hm Hp. cbv zeta. destruct (sectors_eq c k Hlen) as (Hs & _ & _).
  rewrite (tag_page_filled ts' (page_length c) block' base_ m k Hb Hs Hm). set (m' := filled _ base_ (64 * k) m).
  assert (Hm' : base_ + 64 * Z.of_nat k <= Z.of_nat (length m')) by (unfold m'; by rewrite length_filled).
  pose proof (validate_tagged c dev ts p page base_ k Hg Hb Hlen Hmax ts' block block' d m' Hm') as Hv.
  cbv zeta in Hv. destruct (same_tag ts ts' block block').
  - destruct Hv as (-> & He & Hd); [|split; [|done]].
    + intros j Hj. unfold m'. rewrite aget_filled by lia. unfold tagged. by rewrite Hp.
    + unfold m'. apply list_eq. intros x. rewrite !lookup_filled. destruct (m !! x) as [y|] eqn:Hy; [|done].
      cbn [fmap option_fmap option_map]. f_equal. case_decide as Hin; [|done]. rewrite <- Hp by lia.
      apply Adler.AdlerFacts.aget_lookup; [lia|]. by replace (Z.to_nat (base_ + (Z.of_nat x - base_))) with x by lia.
  - apply Hv. intros j Hj. unfold m'. rewrite aget_filled by lia. unfold tagged. by rewrite Hp.
Qed.

(** ** The threads *)

Definition faithful (an : FileAnswer) : Prop := (forall l, delivered an l = l) /\ words64 (landed an).

Section Facts.
Context {Q : Type} `{PS : PageStore Answer Q}.
Context (s : Settings) (pats : list Patterns.Pattern) (nw : nat).
Abbreviation n := (pages s).
Abbreviation psize := (page_length (cfg s)).
Abbreviation pw := (page_words (cfg s)).
Context `{LAWS : !PageStoreLaws Answer Q n psize}.
Context (OK : settings_ok s pats) (Hstrict : strict s = true) (Hsect : psize mod 512 = 0).

Abbreviation Inv := (Inv s pats nw).
Definition J (w : @FileWorld Q) (R : list unit) : Prop := True.
Abbreviation BInv := (both shared Inv J).
Abbreviation gsafe := (gsafe faithful True BInv).

#[local] Instance BInv_proper x w : Proper (Permutation ==> iff) (BInv x w).
Proof. apply both_proper; [intros y v; exact (Inv_proper s pats nw y v) | by intros v R R' _]. Qed.

Definition own (R : list Res) : list (Res + unit) := map inl R.

Lemma gsafe_file_access {B} (f : FileAnswer -> @FileWorld Q -> option (B * @FileWorld Q)) R (Qp : B -> list (Res + unit) -> Prop) :
  (forall F w R' an, faithful an -> Inv F (shared w) (R ++ R') ->
     exists b w' R2, f an w = Some (b, w') /\ Inv F (shared w') (R2 ++ R') /\ Qp b (own R2)) ->
  gsafe (act f) (own R) Qp.
Proof.
  intros H. apply gsafe_act. intros x w R' an Ha [Hi _]. unfold own in *. rewrite lefts_app, lefts_inl in Hi.
  destruct (H x w (lefts R') an Ha Hi) as (b & w' & R2 & Hf & Hi' & HQ). exists b, w', (map inl R2).
  split; [done|]. split; [|done]. split; [|done]. by rewrite lefts_app, lefts_inl.
Qed.

Lemma gsafe_file_common {A} (q : Prog Answer (@Shared Q) A) R (Qp : A -> list (Res + unit) -> Prop) :
  safe Inv q R (fun a R' => Qp a (own R')) -> gsafe (common q) (own R) Qp.
Proof.
  intros H. unfold own. rewrite <- (app_nil_r (map inl R)).
  apply (gsafe_embed base shared set_shared Inv J faithful True ltac:(done) ltac:(done) q R []).
  eapply safe_mono; [|exact H]. intros a R' HQ. by rewrite app_nil_r.
Qed.

(** *** Pages *)

Abbreviation k := (Z.to_nat (psize / 512)).

Lemma page_sectors : psize = 512 * Z.of_nat k /\ pw = (64 * k)%nat /\ page_words_ s = pw /\ psize / 8 = Z.of_nat pw /\ psize < 2 ^ 31.
Proof using OK Hsect.
  destruct (so_len s pats OK) as [H1 _]. pose proof (Z.div_mod psize 512 ltac:(lia)) as Hd. rewrite Hsect in Hd.
  pose proof (Z.div_pos psize 512). assert (Hk : psize = 512 * Z.of_nat k) by lia.
  destruct (sectors_eq (cfg s) k Hk) as (_ & _ & Hw). destruct (pw_eq s pats OK) as (H3 & _ & _).
  unfold page_words_, page_length_. repeat split; try done; lia.
Qed.

(** The words of a tagged page. *)
Definition tagged_words (ts : TagSource) (block : Z) (p : Patterns.Pattern) : list Z :=
  map (tagged ts block (PatternFacts.pattern_word p)) (zrange 0 pw).

Lemma tagged_bound ts block p j : good_pattern p -> 0 <= j < 2 ^ 31 -> 0 <= tagged ts block (PatternFacts.pattern_word p) j < 2 ^ 64.
Proof.
  intros Hg Hj. pose proof (PatternFacts.pattern_word_bound p j ltac:(apply Hg) Hj) as Hb. unfold tagged.
  destruct (j mod 64 =? 0); [|done]. by apply tag_word_bytes.
Qed.

Lemma range_filled f m o :
  0 <= o / 8 -> o / 8 + Z.of_nat pw <= Z.of_nat (length m) -> range_words (filled f (o / 8) pw m) (o / 8) pw = map f (zrange 0 pw).
Proof.
  intros H1 H2. apply map_ext_in. intros i Hi%list_elem_of_In%elem_of_zrange. apply aget_filled; lia.
Qed.

(** A block without errors holds its pattern. *)
Lemma clean_words m o pt :
  0 <= o / 8 -> res_ok s pats m (Clean o pt) ->
  exists p, pat_at pats pt = Some p /\ forall j, 0 <= j < Z.of_nat pw -> aget 0 m (o / 8 + j) = PatternFacts.pattern_word p j.
Proof.
  intros Ho [(p & Hp & _) He]. exists p. split; [done|]. intros j Hj. unfold Accounting.errors_at in He. rewrite Hp in He.
  destruct (decide (aget 0 m (o / 8 + j) = PatternFacts.pattern_word p j)) as [|Hne]; [done|]. exfalso.
  assert (Hin : j ∈ bad_words p (o / 8) m 0 pw) by (apply elem_of_bad_words; split; [lia | done]).
  destruct (bad_words p (o / 8) m 0 pw); [by apply elem_of_nil in Hin | cbn in He; lia].
Qed.

Lemma aget_words64 m i : words64 m -> 0 <= aget 0 m i < 2 ^ 64.
Proof.
  intros Hm. unfold aget. rewrite nth_lookup. destruct (m !! _) as [x|] eqn:Hx; [|cbn; lia].
  cbn. exact (proj1 (Forall_lookup _ _) Hm _ _ Hx).
Qed.

Lemma range_words64 m at_ c : words64 m -> words64 (range_words m at_ c).
Proof. intros Hm. apply Forall_map, Forall_forall. intros j _. by apply aget_words64. Qed.

(** *** Accesses *)

Context (t : nat) (dev : string) (Ht : (t < nw)%nat).

Lemma gsafe_file_check l crc pe r ph R (Qp : Z -> list (Res + unit) -> Prop) :
  mapped s pe -> holds (offset pe) (pattern pe) r ->
  (forall e, (r = Clean (offset pe) (pattern pe) -> e = 0) -> Qp e (own (Clean (offset pe) (pattern pe) :: R))) ->
  gsafe (file_check s t dev l crc pe ph) (own (r :: R)) Qp.
Proof using OK LAWS Ht.
  intros Hmap Hr HQ. apply gsafe_file_access. intros F w R' an _ Hi. cbn [app] in Hi.
  destruct (checked_block s pats nw OK (file_config s dev an crc) F (shared w) t
    (add_errors (thread_view (shared w) t) (device_errors l)) pe r "file" ph (R ++ R') eq_refl (so_tag s pats OK) eq_refl Ht Hr Hi)
    as (src & st' & e & -> & Hc & He & Hz & Hinv).
  rewrite (mapped_base s pe Hmap), Hc. eexists _, _, (Clean (offset pe) (pattern pe) :: R). split; [done|].
  split; [|by apply HQ]. apply Hinv; [done|]. cbn [errorcount_ add_errors thread_view] in *. lia.
Qed.

Lemma gsafe_tag l pe i R (Qp : unit -> list (Res + unit) -> Prop) :
  mapped s pe ->
  (forall p, pat_at pats (pattern pe) = Some p -> Qp tt (own (Raw (offset pe) (tagged_words (tag_source t l) i p) :: R))) ->
  gsafe (SectorTagPage s t l pe i) (own (Clean (offset pe) (pattern pe) :: R)) Qp.
Proof using OK LAWS Hsect Ht.
  intros Hmap HQ. apply gsafe_file_access. intros F w R' an _ Hi. cbn [app] in Hi.
  destruct (held_block s pats nw OK _ _ _ _ _ Hi eq_refl) as (_ & Ho8 & Hfit).
  assert (Hf : res_ok s pats (memory (shared w)) (Clean (offset pe) (pattern pe)) /\ words64 (memory (shared w))).
  { destruct Hi as (V & E & [_ _ H3 [H4 _] _ _ _ _]). by apply Forall_cons in H3 as [? _]. }
  destruct Hf as [Hcl Hw64]. destruct (clean_words _ _ _ Ho8 Hcl) as (p & Hp & Hwords).
  destruct page_sectors as (P1 & P2 & _ & _ & P5). destruct (sectors_eq (cfg s) k P1) as (P6 & _ & _).
  destruct (pw_eq s pats OK) as (_ & _ & Hmax). pose proof (pat_good s pats OK _ _ Hp) as Hg.
  rewrite (mapped_base s pe Hmap). unfold page_length_. rewrite (tag_page_filled _ _ _ _ _ k Ho8 P6) by lia. rewrite <- P2.
  rewrite (filled_ext _ (tagged (tag_source t l) i (PatternFacts.pattern_word p))).
  2: { intros j Hj. unfold tagged. by rewrite Hwords. }
  eexists tt, _, (Raw (offset pe) (tagged_words (tag_source t l) i p) :: R). split; [done|]. split; [|by apply HQ].
  apply (inv_write s pats nw OK F (shared w) (Clean (offset pe) (pattern pe)) _ _ (offset pe)); try done.
  - apply (words64_filled (cfg s)); [done|]. intros j Hj. apply tagged_bound; [done | lia].
  - apply length_filled.
  - intros x. apply filled_outside.
  - cbn [res_ok]. by apply range_filled.
Qed.

(** The members of a thread that uses [N] pages. *)
Record local_ok (N : nat) (l : Local) : Prop := {
  lo_recs : length (page_recs_ l) = N;
  lo_file : length (file l) = (N * pw)%nat /\ words64 (file l);
  lo_errors : device_errors l = Z.of_nat (length (device_reports l));
  lo_reports : Forall (fun r => r = "write-error"%string \/ r = "read-error"%string) (device_reports l)
}.

(** Page [i] of the file is the one the record speaks of. *)
Definition file_page (l : Local) (ts : TagSource) (i : Z) : Prop :=
  exists p, pat_at pats (rec_pattern (page_rec l i)) = Some p /\
    range_words (file l) (file_at s i) pw = tagged_words ts i p.

Lemma page_rec_insert l i j r :
  0 <= i -> 0 <= j < Z.of_nat (length (page_recs_ l)) ->
  page_rec (set_recs l (<[Z.to_nat i := r]> (page_recs_ l))) j = if decide (i = j) then r else page_rec l j.
Proof.
  intros Hi Hj. unfold page_rec. cbn [page_recs_ set_recs]. rewrite !nth_lookup. case_decide as He.
  - subst j. by rewrite list_lookup_insert_eq by lia.
  - by rewrite list_lookup_insert_ne by lia.
Qed.

Lemma gsafe_file_write l i pe ws N R (Qp : bool * Local -> list (Res + unit) -> Prop) :
  mapped s pe -> local_ok N l -> 0 <= i < Z.of_nat N -> length ws = pw ->
  (forall b l', local_ok N l' -> page_recs_ l' = page_recs_ l -> pass l' = pass l ->
     (b = true -> range_words (file l') (file_at s i) pw = ws /\
        forall j, 0 <= j < i -> range_words (file l') (file_at s j) pw = range_words (file l) (file_at s j) pw) ->
     Qp (b, l') (own (Raw (offset pe) ws :: R))) ->
  gsafe (WritePageToFile s l i pe) (own (Raw (offset pe) ws :: R)) Qp.
Proof using OK LAWS Hsect Ht.
  intros Hmap Hl Hi Hws HQ. apply gsafe_file_access. intros F w R' an [_ Hland] Hinv. cbn [app] in Hinv.
  eexists _, w, (Raw (offset pe) ws :: R). split; [done|]. split; [done|].
  assert (Hraw : range_words (memory (shared w)) (offset pe / 8) pw = ws /\ words64 (memory (shared w))).
  { destruct Hinv as (V & E & [_ _ H3 [H4 _] _ _ _ _]). by apply Forall_cons in H3 as [? _]. }
  destruct Hraw as [Hraw Hw64]. destruct page_sectors as (_ & _ & P3 & P4 & _). rewrite (mapped_base s pe Hmap), P3, Hraw.
  destruct Hl as [L1 [L2 L3] L4 L5]. unfold file_at, page_length_ in *. rewrite P4 in *.
  assert (Hat : 0 <= i * Z.of_nat pw /\ i * Z.of_nat pw + Z.of_nat pw <= Z.of_nat (length (file l))) by (rewrite L2; nia).
  assert (Hfile : forall src, words64 src -> words64 (copy_words src pw (i * Z.of_nat pw) (file l))).
  { intros src Hsrc. rewrite copy_words_filled by lia. apply (words64_filled (cfg s)); [done|]. intros j Hj.
    by apply aget_words64. }
  assert (Hw : words64 ws) by (rewrite <- Hraw; by apply range_words64).
  destruct (io_size an =? psize).
  - apply HQ; [|done..|].
    + split; [done | | done | done]. cbn [file set_file]. rewrite length_copy_words. auto.
    + intros _. cbn [file set_file]. split; [by apply copied_range; lia|]. intros j Hj. apply copied_elsewhere; nia.
  - apply HQ; [|done..].
    split; [done | | | apply Forall_app; split; [done | by repeat constructor; left]].
    + cbn [file set_file add_device_errors]. rewrite length_copy_words. auto.
    + cbn [device_errors device_reports set_file add_device_errors]. rewrite length_app. cbn. lia.
Qed.

Lemma gsafe_file_read l i pe N R (Qp : bool * Local * page_entry -> list (Res + unit) -> Prop) :
  mapped s pe -> local_ok N l ->
  (forall f, Qp (true, l, set_write_frequency pe f) (own (Raw (offset pe) (range_words (file l) (file_at s i) pw) :: R))) ->
  (forall l', local_ok N l' -> pass l' = pass l -> Qp (false, l', pe) (own (Free (offset pe) :: R))) ->
  gsafe (ReadPageFromFile s l i pe) (own (Free (offset pe) :: R)) Qp.
Proof using OK LAWS Hsect Ht.
  intros Hmap [L1 [L2 L3] L4 L5] HQ HQ'. apply gsafe_bind, gsafe_ask. intros an0 _. apply gsafe_file_access.
  intros F w R' an [Hdel Hland] Hinv. cbn [app] in Hinv.
  destruct (held_block s pats nw OK _ _ _ _ _ Hinv eq_refl) as (_ & Ho8 & Hfit).
  assert (Hw64 : words64 (memory (shared w))) by (destruct Hinv as (V & E & [_ _ _ [H4 _] _ _ _ _]); done).
  destruct page_sectors as (_ & _ & P3 & P4 & _). rewrite (mapped_base s pe Hmap), P3. unfold page_length_.
  assert (Hmem : forall src, words64 src -> words64 (copy_words src pw (offset pe / 8) (memory (shared w)))).
  { intros src Hsrc. rewrite copy_words_filled by lia. apply (words64_filled (cfg s)); [done|]. intros j Hj.
    by apply aget_words64. }
  assert (Hout : forall src x, ~ in_block s (offset pe) (Z.of_nat x) ->
    copy_words src pw (offset pe / 8) (memory (shared w)) !! x = memory (shared w) !! x).
  { intros src x Hx. rewrite copy_words_filled by lia. by apply filled_outside. }
  destruct (io_size an =? psize).
  - rewrite Hdel. eexists _, _, (Raw (offset pe) (range_words (file l) (file_at s i) pw) :: R). split; [done|].
    split; [|apply HQ]. apply (inv_write s pats nw OK F (shared w) (Free (offset pe)) _ _ (offset pe)); try done.
    + apply Hmem. by apply range_words64.
    + apply length_copy_words.
    + apply Hout.
    + cbn [res_ok]. apply copied_range; [done | done | apply length_range_words].
  - eexists _, _, (Free (offset pe) :: R). split; [done|]. split.
    + apply (inv_write s pats nw OK F (shared w) (Free (offset pe)) _ _ (offset pe)); try done;
        [by apply Hmem | apply length_copy_words | apply Hout].
    + apply HQ'; [|done]. split; [done | done | | apply Forall_app; split; [done | by repeat constructor; right]].
      cbn [device_errors device_reports add_device_errors]. rewrite length_app. cbn. lia.
Qed.

Lemma gsafe_validate l page pe i p R (Qp : Local -> list (Res + unit) -> Prop) :
  mapped s pe -> pat_at pats (pattern pe) = Some p ->
  Qp (add_device_errors l 0 []) (own (Clean (offset pe) (pattern pe) :: R)) ->
  gsafe (SectorValidatePage s t dev l page pe i) (own (Raw (offset pe) (tagged_words (tag_source t l) i p) :: R)) Qp.
Proof using OK LAWS Hsect Ht.
  intros Hmap Hp HQ. apply gsafe_file_access. intros F w R' an _ Hinv. cbn [app] in Hinv.
  destruct (held_block s pats nw OK _ _ _ _ _ Hinv eq_refl) as (_ & Ho8 & Hfit).
  assert (Hraw : range_words (memory (shared w)) (offset pe / 8) pw = tagged_words (tag_source t l) i p /\ words64 (memory (shared w))).
  { destruct Hinv as (V & E & [_ _ H3 [H4 _] _ _ _ _]). by apply Forall_cons in H3 as [? _]. }
  destruct Hraw as [Hraw Hw64]. destruct page_sectors as (P1 & P2 & P3 & P4 & P5).
  rewrite (pattern_object_at s pats nw F _ _ _ Hinv), Hp, (so_inject s pats OK), (mapped_base s pe Hmap).
  pose proof (validate_tagged (cfg s) dev (tag_source t l) p page (offset pe / 8) k (pat_good s pats OK _ _ Hp) Ho8 P1 P5
    (tag_source t l) i i (diagnoser (shared w)) (memory (shared w)) ltac:(lia)) as Hv.
  assert (Hsame : same_tag (tag_source t l) (tag_source t l) i i = true) by (unfold same_tag; by rewrite !Z.eqb_refl).
  rewrite Hsame in Hv. destruct Hv as (Hm & He & Hd).
  { intros j Hj. rewrite <- (aget_range_words (memory (shared w)) (offset pe / 8) pw) by lia. rewrite Hraw. unfold tagged_words.
    apply Adler.AdlerFacts.aget_lookup; [lia|]. rewrite list_lookup_fmap, zrange_lookup by lia. cbn. do 2 f_equal. lia. }
  cbv zeta. rewrite He, Hm, Hd, <- P2. eexists _, _, (Clean (offset pe) (pattern pe) :: R). split; [done|]. split; [|exact HQ].
  apply (inv_other s pats nw F (set_memory (shared w) (filled (PatternFacts.pattern_word p) (offset pe / 8) pw (memory (shared w)))));
    try done; [|exact (inv_plist s pats nw _ _ _ Hinv)].
  apply (inv_write s pats nw OK F (shared w) (Raw (offset pe) (tagged_words (tag_source t l) i p)) _ _ (offset pe)); try done.
  - by apply (filled_pattern_words64 s pats OK _ _ _ p Hp).
  - apply length_filled.
  - intros x. apply filled_outside.
  - by apply (filled_clean s pats OK).
Qed.

(** *** The loops *)

Definition pages_written (l : Local) (n : Z) : Prop := forall j, 0 <= j < n -> file_page l (tag_source t l) j.

Lemma length_tagged_words ts i p : length (tagged_words ts i p) = pw.
Proof. unfold tagged_words. by rewrite length_map, length_zrange. Qed.

Lemma local_ok_recs N l r : local_ok N l -> length r = N -> local_ok N (set_recs l r).
Proof. by intros [H1 H2 H3 H4] Hr. Qed.

Lemma gsafe_write_pages N m i l :
  local_ok N l -> 0 <= i -> i + Z.of_nat m = Z.of_nat N -> pages_written l i ->
  gsafe (write_pages s t dev m i l) (own []) (fun r R => R = own [] /\ local_ok N r.2 /\ (r.1 = true -> pages_written r.2 (Z.of_nat N))).
Proof using OK LAWS Hsect Ht Hstrict.
  revert i l. induction m as [|m IH]; intros i l Hl Hi Hm Hp; cbn [write_pages].
  { apply gsafe_bind, gsafe_ask. intros an _. cbn. split; [done|]. split; [done|]. intros _. by replace (Z.of_nat N) with i by lia. }
  apply gsafe_bind, gsafe_file_common, (safe_GetValid s pats nw OK); [done|]. intros src Hmap. rewrite Hstrict.
  set (l1 := set_recs l _). assert (Hl1 : local_ok N l1) by (apply local_ok_recs; [done | by rewrite length_insert; apply Hl]).
  apply gsafe_bind, gsafe_bind. apply (gsafe_file_check l1 None src (Full (offset src) (pattern src))); [done | by left|].
  intros e _. cbn [ProgramFacts.gsafe]. apply gsafe_bind, gsafe_tag; [done|]. intros p Hpat.
  apply gsafe_bind, (gsafe_file_write l1 i src (tagged_words (tag_source t l1) i p) N); [done | done | lia | apply length_tagged_words|].
  intros b l2 Hl2 Hrecs Hpass Hfile. apply gsafe_bind, gsafe_file_common, (safe_PutEmpty s pats nw); [done | done|]. cbn [negb].
  destruct b; cbn [negb]; [|done]. destruct (Hfile eq_refl) as [Hthis Hothers]. clear Hfile. apply IH; [done | lia | lia|].
  assert (Hts : tag_source t l2 = tag_source t l1) by (unfold tag_source; by rewrite Hpass).
  intros j Hj. assert (Hrec : page_rec l2 j = page_rec l1 j) by (unfold page_rec; by rewrite Hrecs).
  unfold file_page. rewrite Hrec, Hts. unfold l1 at 1. rewrite page_rec_insert by (rewrite ?(lo_recs _ _ Hl); lia).
  case_decide as He.
  - subst j. exists p. split; [exact Hpat|]. exact Hthis.
  - rewrite (Hothers j) by lia. exact (Hp j ltac:(lia)).
Qed.

Lemma gsafe_read_pages N m i result l :
  local_ok N l -> 0 <= i -> i + Z.of_nat m = Z.of_nat N -> pages_written l (Z.of_nat N) ->
  gsafe (read_pages s t dev m i result l) (own []) (fun r R => R = own [] /\ local_ok N r.2).
Proof using OK LAWS Hsect Ht Hstrict.
  revert i result l. induction m as [|m IH]; intros i result l Hl Hi Hm Hp; cbn [read_pages]; [done|].
  apply gsafe_bind, gsafe_file_common, (safe_GetEmpty s pats nw OK); [done|]. intros dst Hmap. rewrite Hstrict.
  apply gsafe_bind, gsafe_ask. intros an _. set (cpu_ := cpu (base an)).
  set (dst1 := set_lastcpu (set_pattern dst _) cpu_). set (page := mkPageRec _ _ _). set (l1 := set_recs l _).
  assert (Hl1 : local_ok N l1) by (apply local_ok_recs; [done | by rewrite length_insert; apply Hl]).
  apply gsafe_bind, gsafe_file_common, safe_epoch_begin. intros ep. apply gsafe_bind.
  change (own [Free (offset dst)]) with (own [Free (offset dst1)]).
  apply (gsafe_file_read l1 i dst1 N); [done | done | |].
  2: { intros l2 Hl2 _. cbn [negb]. apply gsafe_bind, gsafe_file_common, (safe_PutEmpty s pats nw); done. }
  intros f. cbn [negb]. set (dst2 := set_write_frequency dst1 f).
  apply gsafe_bind, gsafe_file_common, (safe_record_write s pats nw). apply gsafe_bind.
  destruct (Hp i ltac:(lia)) as (p & Hpat & Hws).
  change (range_words (file l1) (file_at s i) pw) with (range_words (file l) (file_at s i) pw). rewrite Hws.
  change (tagged_words (tag_source t l) i p) with (tagged_words (tag_source t l1) i p).
  change (offset dst1) with (offset dst2). apply (gsafe_validate l1 page dst2 i p); [done | exact Hpat|].
  assert (Hl2 : local_ok N (add_device_errors l1 0 [])).
  { destruct Hl1 as [H1 H2 H3 H4]. split; try done; cbn [device_errors device_reports add_device_errors]; rewrite app_nil_r; [lia | done]. }
  apply gsafe_bind, gsafe_bind. apply gsafe_file_check; [done | by right|]. intros e _. cbn [ProgramFacts.gsafe].
  apply gsafe_bind, gsafe_file_common, (safe_PutValid s pats nw dst2 (Clean (offset dst2) (pattern dst2))); [by right|]. cbn [negb].
  apply IH; [done | lia | lia|]. intros j Hj. destruct (Hp j Hj) as (p' & Hpat' & Hws'). exists p'. split; [|done].
  change (page_rec (add_device_errors l1 0 []) j) with (page_rec l1 j). unfold l1.
  rewrite page_rec_insert by (rewrite ?(lo_recs _ _ Hl); lia). case_decide as He; [|done]. subst j. exact Hpat'.
Qed.

Lemma gsafe_Work N fuel opened words :
  length words = (N * pw)%nat -> words64 words ->
  gsafe (Work s t (Z.of_nat N) dev fuel opened words) (own [])
    (fun r R => R = [] /\ forall b l, r = Some (b, l) -> b = opened /\ local_ok N l).
Proof using OK LAWS Hsect Ht Hstrict.
  intros Hw Hw64. unfold Work. rewrite Nat2Z.id. set (l0 := mkLocal _ _ _ _ _).
  assert (Hl0 : local_ok N l0) by (split; cbn; [by rewrite length_replicate | done | done | done]).
  destruct opened; cbn [negb].
  2: { apply gsafe_bind, gsafe_file_common, (safe_finish s pats nw). cbn. split; [done|]. by intros b l [= <- <-]. }
  apply gsafe_bind.
  apply (gsafe_loop_any faithful True BInv fuel _ (0, l0) (own []) (fun st R => R = own [] /\ local_ok N st.2)
    (fun r R => gsafe _ R _)); [|by intros st R [-> _]|done].
  intros [loops l] R [-> Hl]. cbn [snd] in Hl. unfold file_turn. apply gsafe_bind, gsafe_file_common. apply safe_ask. intros an.
  apply gsafe_bind. eapply (gsafe_mono faithful True BInv _ _ (fun _ R => R = own [])).
  2: { destruct (ready an); [|done]. apply gsafe_file_common, safe_get. done. }
  intros stop R ->. destruct stop.
  { cbn [ProgramFacts.gsafe]. apply gsafe_bind, gsafe_file_common, (safe_finish s pats nw). cbn. split; [done|]. by intros b l' [= <- <-]. }
  apply gsafe_bind. unfold WritePages. rewrite Nat2Z.id.
  eapply gsafe_mono; [|apply (gsafe_write_pages N N 0 l); [done | lia | lia | intros j Hj; lia]].
  intros [result l1] R (-> & Hl1 & Hp). cbn [fst snd] in *. destruct result; cbn [negb].
  2: { cbn [ProgramFacts.gsafe]. apply gsafe_bind, gsafe_file_common, (safe_finish s pats nw). cbn. split; [done|]. by intros b l' [= <- <-]. }
  apply gsafe_bind. unfold ReadPages. rewrite Nat2Z.id.
  eapply gsafe_mono; [|apply (gsafe_read_pages N N 0 true l1); [done | lia | lia | by apply Hp]].
  intros [result l2] R [-> Hl2]. cbn [fst snd] in *. destruct result; cbn [negb].
  - cbn. split; [done|]. destruct Hl2 as [H1 H2 H3 H4]. by split.
  - cbn [ProgramFacts.gsafe]. apply gsafe_bind, gsafe_file_common, (safe_finish s pats nw). cbn. split; [done|]. by intros b l' [= <- <-].
Qed.

End Facts.

(** A file thread of the test, with its worker, its file and the contents of the file. *)
Record file_job := mkFileJob {
  f_worker : nat; f_pages : nat; f_device : string; f_opened : bool; f_words : list Z
}.

Definition file_job_ok (s : Settings) (nw : nat) (f : file_job) : Prop :=
  (f_worker f < nw)%nat /\ length (f_words f) = (f_pages f * page_words (cfg s))%nat /\ words64 (f_words f).

Definition file_work {Q} `{PS : PageStore Answer Q} (s : Settings) (fuel : nat) (f : file_job)
  : Prog FileAnswer (@FileWorld Q) (option (bool * Local)) :=
  Work s (f_worker f) (Z.of_nat (f_pages f)) (f_device f) fuel (f_opened f) (f_words f).

(** File threads next to other threads. *)
Definition file_threads {Q} `{PS : PageStore Answer Q} (s : Settings) (fuel : nat) (files : list file_job) (jobs : list job)
  : list (Prog FileAnswer (@FileWorld Q) (option (bool * Local))) :=
  map (file_work s fuel) files ++ map (fun j => _ <- common (work s fuel j) ;; Ret None)%prog jobs.

(** Executions with their number of faults in valid blocks at rest. *)
Inductive file_run {Q} `{PS : PageStore Answer Q} (s : Settings) (pats : list Patterns.Pattern) {A}
  : Z -> @FileWorld Q * list (Prog FileAnswer FileWorld A) -> @FileWorld Q * list (Prog FileAnswer FileWorld A) -> Prop :=
| file_run_start x : file_run s pats 0 x x
| file_run_step F x y z : file_run s pats F x y -> pstep_in faithful y z -> file_run s pats F x z
| file_run_fault F x w v ths :
    file_run s pats F x (w, ths) -> fault s pats (shared w) v -> file_run s pats (F + 1) x (set_shared w v, ths).

Definition thread_post (s : Settings) (files : list file_job) (i : nat) (r : option (bool * Local)) (R : list (Res + unit)) : Prop :=
  R = [] /\ forall f b l, files !! i = Some f -> r = Some (b, l) -> b = f_opened f /\ local_ok s (f_pages f) l.

Section Run.
Context {Q : Type} `{PS : PageStore Answer Q}.
Context (s : Settings) (pats : list Patterns.Pattern) (nw : nat).
Context `{LAWS : !PageStoreLaws Answer Q (pages s) (page_length (cfg s))}.
Context (OK : settings_ok s pats) (Hstrict : strict s = true) (Hsect : page_length (cfg s) mod 512 = 0).
Context (fuel : nat) (files : list file_job) (jobs : list job).
Context (Hfiles : Forall (file_job_ok s nw) files) (Hjobs : Forall (fun j => job_worker j < nw)%nat jobs).

Abbreviation BInv := (both shared (Inv s pats nw) J).
Abbreviation all_ok := (all_gsafe faithful True BInv (thread_post s files)).

Lemma file_threads_start F (w0 : @FileWorld Q) : Inv s pats nw F (shared w0) [] -> all_ok F (w0, file_threads s fuel files jobs).
Proof using OK LAWS Hstrict Hsect Hfiles Hjobs.
  intros Hi. exists (replicate (length (file_threads s fuel files jobs)) []). cbn [fst snd].
  assert (Hc : forall k, concat (replicate k (@nil (Res + unit))) = []) by (intros k; induction k; done).
  rewrite Hc. split; [done|]. split; [by rewrite length_replicate|]. intros i q R Hq [-> _]%lookup_replicate.
  unfold file_threads in Hq. apply lookup_app_Some in Hq as [Hq|[Hlen Hq]].
  - apply list_lookup_fmap_Some in Hq as (f & -> & Hf). rewrite Forall_forall in Hfiles.
    destruct (Hfiles f ltac:(by eapply list_elem_of_lookup_2)) as (H1 & H2 & H3).
    eapply gsafe_mono; [|by apply (gsafe_Work s pats nw OK Hstrict Hsect)].
    intros r R [-> Hr]. split; [done|]. intros f' b l Hf' ->. rewrite Hf in Hf'. injection Hf' as <-. by apply Hr.
  - rewrite length_map in Hlen. apply list_lookup_fmap_Some in Hq as (j & -> & Hj). rewrite Forall_forall in Hjobs.
    specialize (Hjobs j ltac:(by eapply list_elem_of_lookup_2)).
    apply gsafe_bind, (gsafe_file_common s pats nw _ []). eapply safe_mono; [|by apply (safe_job s pats nw OK fuel j)].
    intros a R ->. cbn. split; [done|]. intros f b l Hf. exfalso. apply lookup_lt_Some in Hf. lia.
Qed.

Lemma file_run_ok F0 F (w0 : @FileWorld Q) w ths :
  Inv s pats nw F0 (shared w0) [] -> file_run s pats F (w0, file_threads s fuel files jobs) (w, ths) -> all_ok (F0 + F) (w, ths).
Proof using OK LAWS Hstrict Hsect Hfiles Hjobs.
  intros Hi Hrun. remember (w0, file_threads s fuel files jobs) as x eqn:Hx. remember (w, ths) as y eqn:Hy. revert w ths Hy.
  induction Hrun as [x|F x y z Hrun IH Hstep|F x w1 v ths1 Hrun IH Hf]; intros w ths Hy.
  - rewrite Hx, Z.add_0_r. by apply file_threads_start.
  - subst z. destruct y as [wy thy]. eapply pstep_gsafe; [intros ? ?; by eapply BInv_proper | |exact Hstep].
    exact (IH Hx wy thy eq_refl).
  - injection Hy as <- <-. destruct (IH Hx w1 ths1 eq_refl) as (ls & [Hls _] & Hlen & Hall).
    exists ls. split; [|done]. split; [|done]. cbn [fst shared set_shared] in *. rewrite Z.add_assoc. by apply (fault_inv s pats nw OK _ (shared w1)).
Qed.
End Run.

(** C12. Blocks that travel through files.  File threads and any other threads run in any
    interleaving, over files that hand out what was written and whose requests may fail at
    will, with strict checking, blocks of whole sectors and the settings of C1 (no [--tag_mode],
    which files do not allow, no [--force_errors], test memory in one piece), while single words
    of valid blocks at rest may be corrupted, at most one at a time in each 4096-byte piece.
    Then no assertion fails; the errors a file thread counts for its file are just the
    requests that failed, so no tag is found wrong; and when all threads have ended, every
    corrupted word has been counted exactly once or is still in a valid block. *)
Theorem file_threads_sound s pats nw fuel files jobs F0 F (w0 : @FileWorld FineLock.FineLockPEQueue) V0 E0 w ths :
  settings_ok s pats -> 1 <= pages s -> strict s = true -> page_length (cfg s) mod 512 = 0 ->
  ready_with s pats nw F0 (shared w0) V0 E0 ->
  Forall (file_job_ok s nw) files -> Forall (fun j => job_worker j < nw)%nat jobs ->
  file_run s pats F (w0, file_threads s fuel files jobs) (w, ths) ->
  (forall i B f c an, ths !! i = Some (Act B f c) -> faithful an -> is_Some (f an w)) /\
  (forall i f b l, files !! i = Some f -> ths !! i = Some (Ret (Some (b, l))) ->
     b = f_opened f /\ device_errors l = Z.of_nat (length (device_reports l)) /\
     Forall (fun r => r = "write-error"%string \/ r = "read-error"%string) (device_reports l)) /\
  ((forall i q, ths !! i = Some q -> exists r, q = Ret r) -> exists V E, ready_with s pats nw (F0 + F) (shared w) V E).
Proof.
  intros OK Hn Hs Hsect Hr Hfiles Hjobs Hrun.
  pose proof (PageStoreFacts.fine_store_laws (An := Answer) _ (page_length (cfg s)) Hn) as LAWS.
  assert (Hall : all_gsafe faithful True (both shared (Inv s pats nw) J) (thread_post s files) (F0 + F) (w, ths)).
  { eapply file_run_ok; try done. exists V0, E0. by apply ready_inv. }
  split; [|split].
  - intros i B f c an Hi Ha.
    refine (all_gsafe_progress faithful True _ (thread_post s files) (F0 + F) (w, ths) i B f c an I Hall Hi Ha).
    intros ? ?. by eapply BInv_proper.
  - intros i f b l Hf Hi. destruct Hall as (ls & _ & Hlen & Hsafe). cbn [fst snd] in *.
    destruct (lookup_lt_is_Some_2 ls i) as [R HR]; [rewrite Hlen; by eapply lookup_lt_Some|].
    destruct (Hsafe i _ R Hi HR) as [_ Hpost]. destruct (Hpost f b l Hf eq_refl) as [Hb [_ _ H3 H4]]. done.
  - intros Hend. destruct Hall as (ls & [Hinv _] & Hlen & Hsafe). cbn [fst snd] in *.
    assert (Hc : concat ls = []).
    { apply concat_nil_Forall, Forall_lookup. intros i R HR. destruct (lookup_lt_is_Some_2 ths i) as [q Hq];
        [rewrite <- Hlen; by eapply lookup_lt_Some|]. destruct (Hend i q Hq) as (r & ->). by destruct (Hsafe i _ R Hq HR). }
    rewrite Hc in Hinv. destruct Hinv as (V & E & Hinv). exists V, E. by apply ready_inv.
Qed.

(** *** Samples *)

Definition file_world : @FileWorld FineLock.FineLockPEQueue := mkFileWorld (DiskThread.shared DiskThreadFacts.disk_world) 0.
Definition file_answer (run : bool) : FileAnswer :=
  mkFileAnswer (DiskThread.base (DiskThreadFacts.disk_answer run)) 512 [] (fun l => l) true.
Definition file_answers (c : nat) : list FileAnswer := replicate c (file_answer true) ++ replicate 60 (file_answer false).
Definition file_sample : file_job := mkFileJob 0 2 "sda" true (replicate 128 0).

Definition file_body : Prog FileAnswer (@FileWorld FineLock.FineLockPEQueue) (option (bool * Local)) :=
  file_work DiskThreadFacts.disk_settings 5 file_sample.
Definition file_fill : Prog FileAnswer (@FileWorld FineLock.FineLockPEQueue) (option (bool * Local)) :=
  (_ <- common (work DiskThreadFacts.disk_settings 5 (Fill 1 2)) ;; Ret None)%prog.

Definition file_filled : @FileWorld FineLock.FineLockPEQueue :=
  Eval vm_compute in match run_alone file_fill (file_answers 100) file_world with Some (_, w) => w | None => file_world end.
Definition file_local : Local :=
  Eval vm_compute in match run_alone file_body (file_answers 60) file_filled with Some (Some (_, l), _) => l | _ => mkLocal [] 0 [] 0 [] end.
Definition file_end : @FileWorld FineLock.FineLockPEQueue :=
  Eval vm_compute in match run_alone file_body (file_answers 60) file_filled with Some (_, w) => w | _ => file_world end.

Lemma file_fill_end : run_alone file_fill (file_answers 100) file_world = Some (None, file_filled).
Proof. vm_compute. reflexivity. Qed.

(** Two blocks are written to the file and read back, twice. *)
Lemma file_body_end : run_alone file_body (file_answers 60) file_filled = Some (Some (true, file_local), file_end).
Proof. vm_compute. reflexivity. Qed.

Lemma file_answers_faithful c : Forall faithful (file_answers c).
Proof. apply Forall_app. split; apply Forall_replicate; split; done || constructor. Qed.

Lemma file_run_steps {Q} `{PS : PageStore Answer Q} s pats {A} F (x y z : @FileWorld Q * list (Prog FileAnswer FileWorld A)) :
  file_run s pats F x y -> rtc (pstep_in faithful) y z -> file_run s pats F x z.
Proof. intros H Hs. induction Hs as [|y y' z Hy Hs IH]; [done|]. apply IH. by eapply file_run_step. Qed.

Lemma file_execution :
  file_run DiskThreadFacts.disk_settings sample_pats 0 (file_world, file_threads DiskThreadFacts.disk_settings 5 [file_sample] [Fill 1 2])
    (file_end, [Ret (Some (true, file_local)); Ret None]).
Proof.
  apply (file_run_steps DiskThreadFacts.disk_settings sample_pats 0 _ _ _ (file_run_start _ _ _)).
  assert (He : file_threads DiskThreadFacts.disk_settings 5 [file_sample] [Fill 1 2] = [file_body; file_fill]) by done.
  rewrite He. pose proof file_fill_end as H1. pose proof file_body_end as H2. revert H1 H2.
  generalize file_body, file_fill. intros fb ff H1 H2. etrans.
  - exact (run_alone_steps faithful [fb; ff] 1 ff _ _ _ _ H1 (file_answers_faithful 100) eq_refl).
  - exact (run_alone_steps faithful [fb; Ret None] 0 fb _ _ _ _ H2 (file_answers_faithful 60) eq_refl).
Qed.

Lemma file_threads_sound_witness :
  device_errors file_local = 0 /\ exists V E, ready_with DiskThreadFacts.disk_settings sample_pats 2 0 (shared file_end) V E.
Proof.
  destruct DiskThreadFacts.disk_world_ready as (E & Hready).
  destruct (file_threads_sound DiskThreadFacts.disk_settings sample_pats 2 5 [file_sample] [Fill 1 2] 0 0 file_world [] E
    file_end [Ret (Some (true, file_local)); Ret None]) as (_ & Hloc & Hend).
  - apply DiskThreadFacts.disk_settings_ok.
  - discriminate.
  - reflexivity.
  - reflexivity.
  - exact Hready.
  - constructor; [|constructor]. split; [cbn; lia|]. split; [reflexivity|]. apply Forall_replicate. lia.
  - constructor; [cbn; lia | constructor].
  - exact file_execution.
  - split; [exact (proj1 (proj2 (Hloc 0%nat file_sample true file_local eq_refl eq_refl)))|]. apply Hend.
    intros [|[|i]] q Hq; cbn in Hq; [injection Hq as <-; by eexists .. | discriminate].
Defined.

(** A page comes back from the file with its own tags, and one with the tags of the pass
    before. *)
Definition tag_sample : list Z := PatternFacts.pattern_block sample_pattern 128.

Lemma sector_tags_roundtrip_witness :
  let page := mkPageRec None 0 0 in
  let st pass := validate_page sample_config "sda" (mkTagSource 3 pass) sample_pattern page 1 0 ErrorDiag.InitializeDeviceTree
                   (tag_page (mkTagSource 3 0) 1024 1 0 tag_sample) in
  tc_mem (st 0) = tag_sample /\ tc_errors (st 1) = 2.
Proof.
  assert (Hw : forall j, 0 <= j < 64 * Z.of_nat 2 -> aget 0 tag_sample (0 + j) = PatternFacts.pattern_word sample_pattern j).
  { intros j Hj. rewrite Z.add_0_l. apply PatternFacts.aget_pattern_block. lia. }
  pose proof (sector_tags_roundtrip sample_config "sda" (mkTagSource 3 0) (mkTagSource 3 0) sample_pattern (mkPageRec None 0 0) 0 2 1 1
    ErrorDiag.InitializeDeviceTree tag_sample sample_good ltac:(lia) eq_refl eq_refl ltac:(cbn; lia) Hw) as H1.
  pose proof (sector_tags_roundtrip sample_config "sda" (mkTagSource 3 1) (mkTagSource 3 0) sample_pattern (mkPageRec None 0 0) 0 2 1 1
    ErrorDiag.InitializeDeviceTree tag_sample sample_good ltac:(lia) eq_refl eq_refl ltac:(cbn; lia) Hw) as H2.
  split; [exact (proj1 H1) | exact H2].
Defined.

(** A page with one wrong tag whose second half is lost: the repair leaves that half as it is. *)
Theorem repair_stops_half_way :
  let m := replicate 64 0 in
  let c := mkConfig 512 FILL_DIRECTION_UP 0 false false 0 8 10 sample_world None in
  let st := validate_page c "sda" (mkTagSource 3 0) sample_pattern (mkPageRec None 0 0) 0 0 ErrorDiag.InitializeDeviceTree m in
  tc_errors st = 1 /\ aget 0 (tc_mem st) 31 = PatternFacts.pattern_word sample_pattern 31 /\
  aget 0 (tc_mem st) 33 = 0 /\ PatternFacts.pattern_word sample_pattern 33 <> 0.
Proof. vm_compute. repeat split; discriminate. Qed.
End FileThreadFacts.
