(* ===== verification/NetworkThread.v ===== *)
(** The network threads: [NetworkThread] and [NetworkSlaveThread] of [src/src/worker.cc].

    A network thread takes a valid block and an empty one, sends the valid block over its
    connection, receives the bytes the other end reflects into the empty block, and returns
    the blocks with their roles exchanged.  A slave thread receives a page of bytes into a
    buffer of its own and sends it back, until the connection fails.

    A connection is the bytes on their way to the slave and the bytes on their way back.  The
    results of the socket calls belong to the surroundings: a call may fail at any time and may
    move fewer bytes than asked for.  A thread that waits in [recv] is one that does not make
    its step.  Log lines and the pause before the first connection are left out. *)

From Stdlib Require Import Ascii String.
From S2P Require Import Prelude Adler Patterns Invert PageQueue FineLock OsLayer ErrorDiag.
From S2P Require Import Diagnostics Worker Program PageStore Threads Accounting DiskThread FileThread.

Module NetworkThread.
Import PageQueue Program PageStore Worker Threads.
Local Open Scope prog_scope.

(** ** Bytes of a page *)

(** The [n] bytes from byte [off] of the page at word [base] on. *)
Definition get_bytes (m : list Z) (base off : Z) (n : nat) : list Z :=
  map (fun j => FileThread.get_byte m base j) (zrange off n).

Fixpoint set_bytes (m : list Z) (base off : Z) (bs : list Z) : list Z :=
  match bs with
  | [] => m
  | b :: bs => set_bytes (set_byte m base off b) base (off + 1) bs
  end.

(** ** Shared state *)

(** Bytes sent by the network thread and by the slave that the other has not yet received. *)
Record Conn := mkConn { up : list Z; down : list Z }.

(** A slave thread: its socket (0 when it has none), its buffer as words, its results. *)
Record SlaveState := mkSlaveState { sock_ : Z; local_page : list Z; slave_status : bool; slave_pages : Z }.

(** What an access reads of its surroundings next to what all threads read: the result of
    [socket], whether [inet_aton] and [connect] succeed, the result of [send] or [recv], [errno],
    and what the network hands out for the bytes it was given; the result of
    [posix_memalign]. *)
Record NetAnswer := mkNetAnswer {
  base : Answer; new_socket : Z; resolved : bool; connected : bool; io_result : Z; errno : Z;
  delivered : list Z -> list Z; memalign_result : Z
}.

Section Thread.
Context {Q : Type} `{PS : PageStore Answer Q} (s : Settings).

(** [closed] are the descriptors passed to [close], in order. *)
Record NetWorld := mkNetWorld {
  shared : @Shared Q; conns : list Conn; slaves : list SlaveState; closed : list Z
}.

Definition set_shared (w : NetWorld) (v : @Shared Q) : NetWorld := mkNetWorld v (conns w) (slaves w) (closed w).
Definition set_conn (w : NetWorld) (i : nat) (c : Conn) : NetWorld :=
  mkNetWorld (shared w) (<[i := c]> (conns w)) (slaves w) (closed w).
Definition set_slave (w : NetWorld) (i : nat) (x : SlaveState) : NetWorld :=
  mkNetWorld (shared w) (conns w) (<[i := x]> (slaves w)) (closed w).
Definition add_closed (w : NetWorld) (fd : Z) : NetWorld :=
  mkNetWorld (shared w) (conns w) (slaves w) (closed w ++ [fd]).

Definition conn (w : NetWorld) (i : nat) : Conn := nth i (conns w) (mkConn [] []).
Definition slave (w : NetWorld) (i : nat) : SlaveState := nth i (slaves w) (mkSlaveState 0 [] false 0).

Abbreviation P := (Prog NetAnswer NetWorld).

Definition common {A} (q : Prog Answer (@Shared Q) A) : P A := embed base shared set_shared q.

(** The thread at one end of connection [i]: worker [t], or the slave. *)
Inductive Side := Master (t : nat) | Slave.

(** The memory an entry's [addr] points to: a work block, or the slave's buffer. *)
Inductive Buffer := Block (pe : page_entry) | LocalPage.

Definition bytes_to_send (w : NetWorld) (i : nat) (b : Buffer) (off k : Z) : list Z :=
  match b with
  | Block pe => get_bytes (memory (shared w)) (page_base (cfg s) pe) off (Z.to_nat k)
  | LocalPage => get_bytes (local_page (slave w i)) 0 off (Z.to_nat k)
  end.

Definition store_bytes (w : NetWorld) (i : nat) (b : Buffer) (off : Z) (bs : list Z) : NetWorld :=
  match b with
  | Block pe => set_shared w (set_memory (shared w)
                  (set_bytes (memory (shared w)) (page_base (cfg s) pe) off bs))
  | LocalPage => let x := slave w i in
                 set_slave w i (mkSlaveState (sock_ x) (set_bytes (local_page x) 0 off bs) (slave_status x) (slave_pages x))
  end.

(** The status and the page count of a worker; [bytes_processed_] stays. *)
Definition set_status (t : nat) (result : bool) (copied : option Z) : Prog Answer (@Shared Q) unit :=
  modify (fun _ w =>
    let wk := worker w t in
    set_workers w (<[t := mkWorkerState (w_errorcount wk) (w_stats wk) (default (pages_copied_ wk) copied)
                            (bytes_processed_ wk) result]> (workers w))).

(** ** What both kinds of thread do *)

Definition IsNetworkStopSet (side : Side) : P bool :=
  match side with
  | Master _ => running <- common IsReadyToRunNoPause ;; Ret (negb running)
  | Slave => Ret true
  end.

(** [status_ = false]. *)
Definition set_failed (side : Side) (i : nat) : P unit :=
  match side with
  | Master t => common (set_status t false None)
  | Slave => modify (fun _ w => let x := slave w i in
                                set_slave w i (mkSlaveState (sock_ x) (local_page x) false (slave_pages x)))
  end.

(** [send]: -1, 0 or the number of bytes taken, at most [size]. *)
Definition send (side : Side) (i : nat) (b : Buffer) (off size : Z) : P Z :=
  act (fun an w =>
    let k := Z.max (-1) (Z.min size (io_result an)) in
    let bs := bytes_to_send w i b off k in
    let c := conn w i in
    let c := match side with
             | Master _ => mkConn (up c ++ bs) (down c)
             | Slave => mkConn (up c) (down c ++ bs)
             end in
    Some (k, if 0 <? k then set_conn w i c else w)).

(** [recv]: -1, 0 or the number of bytes stored, at most [size] and no more than there are. *)
Definition recv (side : Side) (i : nat) (b : Buffer) (off size : Z) : P Z :=
  act (fun an w =>
    let c := conn w i in
    let queue := match side with Master _ => down c | Slave => up c end in
    let k := Z.max (-1) (Z.min (Z.min size (Z.of_nat (length queue))) (io_result an)) in
    let bs := delivered an (take (Z.to_nat k) queue) in
    let rest := drop (Z.to_nat k) queue in
    let c := match side with Master _ => mkConn (up c) rest | Slave => mkConn rest (down c) end in
    Some (k, if 0 <? k then set_conn (store_bytes w i b off bs) i c else w)).

(** A loop that has used up its turns; the code has no such state. *)
Definition out_of_fuel {A} : P A := act (fun _ _ => None).

(** The loop of [SendPage]. *)
Fixpoint send_loop (fuel : nat) (side : Side) (i : nat) (b : Buffer) (size : Z) : P bool :=
  if size =? 0 then Ret true
  else match fuel with
  | O => out_of_fuel
  | S fuel' =>
      transferred <- send side i b (page_length_ s - size) size ;;
      if (transferred =? 0) || (transferred =? -1) then
        stop <- IsNetworkStopSet side ;;
        (if (stop : bool) then Ret tt else set_failed side i) ;;
        Ret false
      else send_loop fuel' side i b (size - transferred)
  end.

Definition SendPage (side : Side) (i : nat) (src : Buffer) : P bool :=
  send_loop (Z.to_nat (page_length_ s)) side i src (page_length_ s).

(** What [ReceivePage] does when [recv] fails with [have] bytes of the page received. *)
Definition receive_failed (side : Side) (i : nat) (dst : Buffer) (have transferred : Z) : P unit :=
  stop <- IsNetworkStopSet side ;;
  if negb stop then Ret tt
  else
    err <- ask errno ;;
    if (transferred =? 0) && (err =? 0) then Ret tt
    else
      set_failed side i ;;
      if (transferred =? 0) && (have <? 512) && (0 <? have)
      then modify (fun _ w => store_bytes w i dst have [0])
      else Ret tt.

Fixpoint recv_loop (fuel : nat) (side : Side) (i : nat) (b : Buffer) (size : Z) : P bool :=
  if size =? 0 then Ret true
  else match fuel with
  | O => out_of_fuel
  | S fuel' =>
      transferred <- recv side i b (page_length_ s - size) size ;;
      if (transferred =? 0) || (transferred =? -1)
      then receive_failed side i b (page_length_ s - size) transferred ;; Ret false
      else recv_loop fuel' side i b (size - transferred)
  end.

(** The frequency the page was received at, or [None] for [return false]. *)
Definition ReceivePage (side : Side) (i : nat) (dst : Buffer) : P (option Z) :=
  write_dram_frequency <- ask (fun an => frequency (base an)) ;;
  received <- recv_loop (Z.to_nat (page_length_ s)) side i dst (page_length_ s) ;;
  Ret (if (received : bool) then Some write_dram_frequency else None).

(** ** [NetworkThread] *)

Section Master.
Context (t i : nat).

(** The socket, or [None] for [return false]. *)
Definition CreateSocket : P (option Z) :=
  sock <- ask new_socket ;;
  if sock =? -1 then common (set_status t false (Some 0)) ;; Ret None else Ret (Some sock).

Definition CloseSocket (sock : Z) : P unit := modify (fun _ w => add_closed w sock).

Definition Connect : P bool :=
  ok <- ask resolved ;;
  if negb ok then common (set_status t false (Some 0)) ;; Ret false
  else
    ok <- ask connected ;;
    if negb ok then common (set_status t false (Some 0)) ;; Ret false else Ret true.

(** One turn of the loop of [Work]: the pages done, or the result and that number. *)
Definition net_turn (loops : Z) : P (Z + bool * Z) :=
  running <- common IsReadyToRun ;;
  stop <- (if (running : bool) then common error_stop_requested else Ret true) ;;
  if stop then Ret (inr (true, loops))
  else
    got <- common (Sat_GetValid s kDontCareTag) ;;
    match got with
    | None => Ret (inr (false, loops))
    | Some src =>
        got <- common (Sat_GetEmpty s kDontCareTag) ;;
        match got with
        | None => common (Sat_PutValid src) ;; Ret (inr (false, loops))
        | Some dst =>
            (if strict s then common (check_page s t src "network" "source_check") ;; Ret tt else Ret tt) ;;
            sent <- SendPage (Master t) i (Block src) ;;
            if negb sent
            then common (Sat_PutValid src) ;; common (Sat_PutEmpty dst) ;; Ret (inr (false, loops))
            else
              c <- ask (fun an => cpu (base an)) ;;
              let dst := FileThread.set_lastcpu (set_pattern dst (pattern src)) c in
              receive_epoch_begin <- common (epoch_begin s) ;;
              got <- ReceivePage (Master t) i (Block dst) ;;
              match got with
              | None => common (Sat_PutValid src) ;; common (Sat_PutEmpty dst) ;; Ret (inr (false, loops))
              | Some freq =>
                  let dst := set_write_frequency dst freq in
                  common (record_write s dst Diagnostics.BLOCK_WRITER_NETWORK t receive_epoch_begin) ;;
                  (if strict s then common (check_page s t dst "network" "destination_check") ;; Ret tt else Ret tt) ;;
                  dst_returned <- common (Sat_PutValid dst) ;;
                  src_returned <- common (Sat_PutEmpty src) ;;
                  Ret (if dst_returned && src_returned then inl (loops + 1) else inr (false, loops))
              end
        end
    end.

(** [NetworkThread::Work]; at most [fuel] turns are taken. *)
Definition Work (fuel : nat) : P (option bool) :=
  created <- CreateSocket ;;
  match created with
  | None => Ret (Some false)
  | Some sock =>
      stop <- common error_stop_requested ;;
      if (stop : bool) then CloseSocket sock ;; common (set_status t true None) ;; Ret (Some true)
      else
        ok <- Connect ;;
        if negb ok then CloseSocket sock ;; Ret (Some false)
        else
          r <- loop fuel net_turn 0 ;;
          match r with
          | None => Ret None
          | Some (result, loops) =>
              common (set_status t result (Some loops)) ;; CloseSocket sock ;; Ret (Some result)
          end
  end.
End Master.

(** ** [NetworkSlaveThread] *)

Section Slave.
Context (i : nat).

(** Under [socket_lock_]. *)
Definition CloseOwnedSocket : P unit :=
  modify (fun _ w =>
    let x := slave w i in
    if 0 <? sock_ x
    then set_slave (add_closed w (sock_ x)) i (mkSlaveState 0 (local_page x) (slave_status x) (slave_pages x))
    else w).

Definition slave_turn (loops : Z) : P (Z + Z) :=
  got <- ReceivePage Slave i LocalPage ;;
  match got with
  | None => Ret (inr loops)
  | Some _ =>
      sent <- SendPage Slave i LocalPage ;;
      Ret (if sent : bool then inl (loops + 1) else inr loops)
  end.

Definition set_outcome (status : bool) (copied : option Z) : P unit :=
  modify (fun _ w => let x := slave w i in
    set_slave w i (mkSlaveState (sock_ x) (local_page x) status (default (slave_pages x) copied))).

(** [NetworkSlaveThread::Work]; at most [fuel] turns are taken. *)
Definition SlaveWork (fuel : nat) : P (option bool) :=
  sock <- get (fun w => sock_ (slave w i)) ;;
  if sock =? 0 then set_outcome false None ;; Ret (Some false)
  else
    result <- ask memalign_result ;;
    if negb (result =? 0) then set_outcome false None ;; CloseOwnedSocket ;; Ret (Some false)
    else
      r <- loop fuel slave_turn 0 ;;
      match r with
      | None => Ret None
      | Some loops => set_outcome true (Some loops) ;; CloseOwnedSocket ;; Ret (Some true)
      end.
End Slave.
End Thread.
End NetworkThread.

Module NetworkThreadFacts.
Import PageQueue Program ProgramFacts PageStore Worker WorkerFacts Threads Sums Accounting AccountingFacts.
Import FileThread FileThreadFacts NetworkThread.

(** ** Bytes *)

Definition is_byte (b : Z) : Prop := 0 <= b < 256.

Lemma get_byte_word m b j : FileThread.get_byte m b j = byte_of (aget 0 m (b + j / 8)) (j mod 8).
Proof. done. Qed.

Lemma get_set_byte m b off v j :
  0 <= b -> 0 <= off -> 0 <= j -> is_byte v -> 8 * b + off < 8 * Z.of_nat (length m) ->
  FileThread.get_byte (set_byte m b off v) b j = if j =? off then v else FileThread.get_byte m b j.
Proof.
  intros Hb Ho Hj Hv Hl. rewrite !get_byte_word. unfold set_byte.
  fold (put_byte (aget 0 m (b + off / 8)) (off mod 8) v).
  pose proof (Z.div_mod off 8 ltac:(lia)). pose proof (Z.div_mod j 8 ltac:(lia)).
  pose proof (Z.mod_pos_bound off 8 ltac:(lia)). pose proof (Z.mod_pos_bound j 8 ltac:(lia)).
  pose proof (Z.div_pos off 8 Ho). pose proof (Z.div_pos j 8 Hj).
  destruct (decide (j / 8 = off / 8)) as [He|He].
  - rewrite He, aget_aset_eq by lia. rewrite byte_put by (lia || done).
    destruct (Z.eqb_spec (off mod 8) (j mod 8)), (Z.eqb_spec j off); try done; lia.
  - rewrite aget_aset_ne by lia. by rewrite (proj2 (Z.eqb_neq j off)) by congruence.
Qed.

Lemma length_set_bytes m b off bs : length (set_bytes m b off bs) = length m.
Proof. revert m off. induction bs as [|v bs IH]; intros m off; [done|]. cbn. rewrite IH. apply length_insert. Qed.

Lemma words64_set_bytes m b off bs : words64 m -> 0 <= off -> Forall is_byte bs -> words64 (set_bytes m b off bs).
Proof.
  intros Hm Ho Hbs. revert m off Hm Ho. induction Hbs as [|v bs Hv Hbs IH]; intros m off Hm Ho; [done|]. cbn.
  apply IH; [|lia]. apply Forall_insert; [done|]. apply put_bound; [apply Z.mod_pos_bound; lia | done | by apply aget_words64].
Qed.

Lemma get_set_bytes m b off bs j :
  0 <= b -> 0 <= off -> 0 <= j -> Forall is_byte bs -> 8 * b + off + Z.of_nat (length bs) <= 8 * Z.of_nat (length m) ->
  FileThread.get_byte (set_bytes m b off bs) b j =
  if decide (off <= j < off + Z.of_nat (length bs)) then aget 0 bs (j - off) else FileThread.get_byte m b j.
Proof.
  intros Hb Ho Hj Hbs. revert m off Ho. induction Hbs as [|v bs Hv Hbs IH]; intros m off Ho Hl; cbn [set_bytes length] in *.
  { by rewrite decide_False by lia. }
  rewrite IH by (rewrite ?length_insert; unfold set_byte, aset; rewrite ?length_insert; lia).
  rewrite get_set_byte by (done || lia). destruct (Z.eqb_spec j off) as [->|Hne].
  - rewrite decide_False, decide_True by lia. by rewrite Z.sub_diag.
  - destruct (decide (off + 1 <= j < off + 1 + Z.of_nat (length bs))).
    + rewrite decide_True by lia. unfold aget. replace (Z.to_nat (j - off)) with (S (Z.to_nat (j - (off + 1)))) by lia. done.
    + by rewrite decide_False by lia.
Qed.

Lemma length_get_bytes m b off n : length (get_bytes m b off n) = n.
Proof. unfold get_bytes. by rewrite length_map, length_zrange. Qed.

Lemma get_bytes_app m b off n k :
  get_bytes m b off (n + k) = get_bytes m b off n ++ get_bytes m b (off + Z.of_nat n) k.
Proof. unfold get_bytes. by rewrite zrange_app, map_app. Qed.

Lemma get_bytes_bytes m b off n : Forall is_byte (get_bytes m b off n).
Proof. apply Forall_map, Forall_forall. intros j _. apply byte_bound. Qed.

Lemma get_bytes_ext m m' b b' off off' n :
  (forall j, 0 <= j < Z.of_nat n -> FileThread.get_byte m b (off + j) = FileThread.get_byte m' b' (off' + j)) ->
  get_bytes m b off n = get_bytes m' b' off' n.
Proof.
  intros H. apply list_eq. intros k. unfold get_bytes. rewrite !list_lookup_fmap.
  destruct (decide (k < n)%nat); [|by rewrite !lookup_ge_None_2 by (rewrite length_zrange; lia)].
  rewrite !zrange_lookup by done. cbn. f_equal. apply H. lia.
Qed.

(** The bytes stored, and those before them. *)
Lemma bytes_stored m b off bs :
  0 <= b -> 0 <= off -> Forall is_byte bs -> 8 * b + off + Z.of_nat (length bs) <= 8 * Z.of_nat (length m) ->
  get_bytes (set_bytes m b off bs) b 0 (Z.to_nat (off + Z.of_nat (length bs))) = get_bytes m b 0 (Z.to_nat off) ++ bs.
Proof.
  intros Hb Ho Hbs Hl. replace (Z.to_nat (off + Z.of_nat (length bs))) with (Z.to_nat off + length bs)%nat by lia.
  rewrite get_bytes_app. f_equal.
  - apply get_bytes_ext. intros j Hj. rewrite get_set_bytes by (done || lia). by rewrite decide_False by lia.
  - apply list_eq. intros k. unfold get_bytes. rewrite list_lookup_fmap.
    destruct (decide (k < length bs)%nat) as [Hk|Hk]; [|by rewrite !lookup_ge_None_2 by (rewrite ?length_zrange; lia)].
    rewrite zrange_lookup by done. cbn [fmap option_fmap option_map]. rewrite get_set_bytes by (done || lia).
    rewrite decide_True by lia. destruct (lookup_lt_is_Some_2 bs k Hk) as [x Hx]. rewrite Hx. f_equal. unfold aget.
    apply nth_lookup_Some. by replace (Z.to_nat _) with k by lia.
Qed.

Lemma bytes_before m b off bs lo n :
  0 <= b -> 0 <= lo -> Forall is_byte bs -> 8 * b + off + Z.of_nat (length bs) <= 8 * Z.of_nat (length m) ->
  lo + Z.of_nat n <= off -> get_bytes (set_bytes m b off bs) b lo n = get_bytes m b lo n.
Proof.
  intros Hb Hlo Hbs Hl Hn. apply get_bytes_ext. intros j Hj. rewrite get_set_bytes by (done || lia). by rewrite decide_False by lia.
Qed.

(** Eight bytes are a word. *)
Lemma word_of_bytes w w' :
  0 <= w < 2 ^ 64 -> 0 <= w' < 2 ^ 64 -> (forall k, 0 <= k < 8 -> byte_of w k = byte_of w' k) -> w = w'.
Proof.
  intros Hw Hw' Hb. apply Z.bits_inj'. intros i Hi. destruct (decide (i < 64)) as [Hlt|Hge].
  - specialize (Hb (i / 8) ltac:(split; [apply Z.div_pos; lia | apply Z.div_lt_upper_bound; lia])).
    apply (f_equal (fun x => Z.testbit x (i mod 8))) in Hb. unfold byte_of in Hb.
    pose proof (Z.mod_pos_bound i 8 ltac:(lia)). pose proof (Z.div_mod i 8 ltac:(lia)).
    rewrite !Z.land_spec, !Z.shiftr_spec, testbit_ff in Hb by lia.
    rewrite (proj2 (Z.ltb_lt (i mod 8) 8)), !andb_true_r in Hb by lia.
    by replace (i mod 8 + 8 * (i / 8)) with i in Hb by lia.
  - rewrite <- (Z.mod_small w (2 ^ 64)), <- (Z.mod_small w' (2 ^ 64)) by lia.
    by rewrite !Z.mod_pow2_bits_high by lia.
Qed.

(** Words outside the bytes stored. *)
Lemma set_bytes_outside m b off bs k n :
  0 <= b -> 0 <= off -> off + Z.of_nat (length bs) <= 8 * n -> ~ b <= Z.of_nat k < b + n -> set_bytes m b off bs !! k = m !! k.
Proof.
  intros Hb Ho Hn Hk. revert m off Ho Hn. induction bs as [|v bs IH]; intros m off Ho Hn; [done|]. cbn [set_bytes length] in *.
  rewrite IH by lia. unfold set_byte, aset. apply list_lookup_insert_ne.
  assert (0 <= off / 8 < n) by (split; [apply Z.div_pos; lia | apply Z.div_lt_upper_bound; lia]). lia.
Qed.

Lemma filled_self f b n m :
  0 <= b -> (forall j, 0 <= j < Z.of_nat n -> aget 0 m (b + j) = f j) -> filled f b n m = m.
Proof.
  intros Hb H. apply list_eq. intros k. rewrite lookup_filled. destruct (m !! k) as [x|] eqn:Hx; [|done]. cbn. f_equal.
  case_decide as Hk; [|done]. rewrite <- H by lia. apply Adler.AdlerFacts.aget_lookup; [lia|].
  by replace (Z.to_nat (b + (Z.of_nat k - b))) with k by lia.
Qed.

(** The bytes of a block filled with a pattern. *)
Definition pattern_bytes (p : Patterns.Pattern) (off : Z) (n : nat) : list Z :=
  map (fun j => byte_of (PatternFacts.pattern_word p (j / 8)) (j mod 8)) (zrange off n).

Lemma length_pattern_bytes p off n : length (pattern_bytes p off n) = n.
Proof. unfold pattern_bytes. by rewrite length_map, length_zrange. Qed.

Lemma pattern_bytes_app p off n k :
  pattern_bytes p off (n + k) = pattern_bytes p off n ++ pattern_bytes p (off + Z.of_nat n) k.
Proof. unfold pattern_bytes. by rewrite zrange_app, map_app. Qed.

Lemma get_bytes_pattern m b p off n k :
  (forall j, 0 <= j < n -> aget 0 m (b + j) = PatternFacts.pattern_word p j) ->
  0 <= off -> off + Z.of_nat k <= 8 * n -> get_bytes m b off k = pattern_bytes p off k.
Proof.
  intros H Ho Hk. apply map_ext_in. intros j Hj%list_elem_of_In%elem_of_zrange. rewrite get_byte_word, H; [done|].
  split; [apply Z.div_pos; lia | apply Z.div_lt_upper_bound; lia].
Qed.

Lemma pattern_from_bytes m b p n :
  words64 m -> good_pattern p -> Z.of_nat n < 2 ^ 31 -> get_bytes m b 0 (8 * n) = pattern_bytes p 0 (8 * n) ->
  forall j, 0 <= j < Z.of_nat n -> aget 0 m (b + j) = PatternFacts.pattern_word p j.
Proof.
  intros Hm Hg Hn He j Hj. apply word_of_bytes; [by apply aget_words64 | apply PatternFacts.pattern_word_bound; [apply Hg | lia]|].
  intros k Hk. apply (f_equal (fun l => l !! Z.to_nat (8 * j + k))) in He. unfold get_bytes, pattern_bytes in He.
  rewrite !list_lookup_fmap, !zrange_lookup in He by lia. cbn [fmap option_fmap option_map] in He. injection He as He.
  rewrite get_byte_word in He. rewrite !Z2Nat.id, Z.add_0_l in He by lia.
  replace (8 * j + k) with (k + j * 8) in He by lia.
  by rewrite !Z.div_add, !Z_mod_plus_full, !Z.div_small, !Z.mod_small in He by lia.
Qed.

Lemma range_get_byte m b n j :
  0 <= j < 8 * Z.of_nat n -> FileThread.get_byte (range_words m b n) 0 j = FileThread.get_byte m b j.
Proof.
  intros Hj. rewrite !get_byte_word, Z.add_0_l, aget_range_words; [done|].
  split; [apply Z.div_pos; lia | apply Z.div_lt_upper_bound; lia].
Qed.

(** ** The bytes of a connection

    A network thread knows the bytes it has not got back, in order; a slave has the bytes
    from [lo] to [hi] of its buffer still to send. *)
Inductive NetRes := MasterAt (i : nat) (out : list Z) | SlaveAt (i : nat) (lo hi : Z).

Definition key (r : NetRes) : bool * nat := match r with MasterAt i _ => (true, i) | SlaveAt i _ _ => (false, i) end.

Definition conn_bytes (c : Conn) : Prop := Forall is_byte (up c) /\ Forall is_byte (down c).

(** An answer of a network that delivers what it was given. *)
Definition faithful (an : NetAnswer) : Prop := forall l, delivered an l = l.

Section Facts.
Context {Q : Type} `{PS : PageStore Answer Q}.
Context (s : Settings) (pats : list Patterns.Pattern) (nw : nat).
Abbreviation n := (pages s).
Abbreviation psize := (page_length (cfg s)).
Abbreviation pw := (page_words (cfg s)).
Context `{LAWS : !PageStoreLaws Answer Q n psize}.
Context (OK : settings_ok s pats) (Hstrict : strict s = true).

Abbreviation Inv := (Inv s pats nw).
Abbreviation W := (@NetWorld Q).

Definition pending (w : W) (i : nat) (lo hi : Z) : list Z := get_bytes (local_page (slave w i)) 0 lo (Z.to_nat (hi - lo)).

Definition page_fits (x : SlaveState) : Prop := 8 * Z.of_nat (length (local_page x)) = psize /\ words64 (local_page x).

(** What the threads of connection [i] have sent and not received adds up. *)
Record J (w : W) (M : list NetRes) : Prop := {
  j_keys : NoDup (map key M);
  j_slave : forall i lo hi, SlaveAt i lo hi ∈ M ->
    0 <= lo <= hi /\ hi <= psize /\ (i < length (conns w))%nat /\ (i < length (slaves w))%nat /\ page_fits (slave w i);
  j_flow : forall i out, MasterAt i out ∈ M ->
    exists lo hi, SlaveAt i lo hi ∈ M /\ down (conn w i) ++ pending w i lo hi ++ up (conn w i) = out;
  j_bytes : Forall conn_bytes (conns w)
}.

#[local] Instance J_proper w : Proper (Permutation ==> iff) (J w).
Proof.
  enough (H : forall M M', M ≡ₚ M' -> J w M -> J w M') by (intros M M' HM; by split; apply H).
  intros M M' HM [H1 H2 H3 H4]. split; [by rewrite <- HM | | | done].
  - intros i lo hi. rewrite <- HM. apply H2.
  - intros i out. rewrite <- HM. intros (lo & hi & Hs & He)%H3. exists lo, hi. by rewrite <- HM.
Qed.

Lemma J_shared w v M : J w M -> J (set_shared w v) M.
Proof. by intros [H1 H2 H3 H4]. Qed.

Lemma conn_insert (w : W) i c j : (i < length (conns w))%nat -> conn (set_conn w i c) j = if decide (i = j) then c else conn w j.
Proof.
  intros Hi. unfold conn, set_conn. cbn [conns]. rewrite !nth_lookup. case_decide as He.
  - subst j. by rewrite list_lookup_insert_eq.
  - by rewrite list_lookup_insert_ne.
Qed.

Lemma slave_insert (w : W) i x j : (i < length (slaves w))%nat -> slave (set_slave w i x) j = if decide (i = j) then x else slave w j.
Proof.
  intros Hi. unfold slave, set_slave. cbn [slaves]. rewrite !nth_lookup. case_decide as He.
  - subst j. by rewrite list_lookup_insert_eq.
  - by rewrite list_lookup_insert_ne.
Qed.

Lemma conn_ok (w : W) M i : J w M -> (i < length (conns w))%nat -> conn_bytes (conn w i).
Proof.
  intros H Hi. unfold conn. rewrite nth_lookup. destruct (lookup_lt_is_Some_2 _ _ Hi) as [c Hc]. rewrite Hc. cbn.
  exact (proj1 (Forall_lookup _ _) (j_bytes _ _ H) _ _ Hc).
Qed.

(** The resource of the other end names the same connection. *)
Lemma master_flow (w : W) i out M :
  J w (MasterAt i out :: M) ->
  exists lo hi, SlaveAt i lo hi ∈ M /\ (i < length (conns w))%nat /\
    down (conn w i) ++ pending w i lo hi ++ up (conn w i) = out.
Proof.
  intros H. destruct (j_flow _ _ H i out ltac:(left)) as (lo & hi & Hs & He).
  apply elem_of_cons in Hs as [?|Hs]; [done|]. exists lo, hi. split; [done|]. split; [|done].
  by destruct (j_slave _ _ H i lo hi ltac:(by right)) as (_ & _ & ? & _).
Qed.

Lemma master_unique (w : W) i out M j out' : J w (MasterAt i out :: M) -> MasterAt j out' ∈ M -> i <> j.
Proof.
  intros H Hin ->. pose proof (j_keys _ _ H) as Hk. cbn in Hk. apply NoDup_cons in Hk as [Hk _]. apply Hk.
  by apply (list_elem_of_fmap_2 key) in Hin.
Qed.

Lemma slave_unique (w : W) i lo hi M j lo' hi' : J w (SlaveAt i lo hi :: M) -> SlaveAt j lo' hi' ∈ M -> i <> j.
Proof.
  intros H Hin ->. pose proof (j_keys _ _ H) as Hk. cbn in Hk. apply NoDup_cons in Hk as [Hk _]. apply Hk.
  by apply (list_elem_of_fmap_2 key) in Hin.
Qed.

(** The network thread of a connection acts on it. *)
Lemma J_master (w : W) i out out' c M :
  J w (MasterAt i out :: M) -> conn_bytes c ->
  (forall p, down (conn w i) ++ p ++ up (conn w i) = out -> down c ++ p ++ up c = out') ->
  J (set_conn w i c) (MasterAt i out' :: M).
Proof.
  intros H Hc Hout. destruct (master_flow _ _ _ _ H) as (lo & hi & Hs & Hi & He). split.
  - exact (j_keys _ _ H).
  - intros j lo' hi' [?|Hj]%elem_of_cons; [done|]. cbn [conns set_conn]. rewrite length_insert.
    exact (j_slave _ _ H j lo' hi' ltac:(by right)).
  - intros j o [[= -> ->]|Hj]%elem_of_cons.
    + exists lo, hi. split; [by right|]. rewrite conn_insert, decide_True by done. by apply Hout.
    + pose proof (master_unique _ _ _ _ _ _ H Hj) as Hne. rewrite conn_insert, decide_False by done.
      destruct (j_flow _ _ H j o ltac:(by right)) as (lo' & hi' & Hs' & He'). exists lo', hi'.
      apply elem_of_cons in Hs' as [?|Hs']; [done|]. split; [by right | done].
  - apply Forall_insert; [exact (j_bytes _ _ H) | done].
Qed.

(** The slave of a connection acts on it and on its own members. *)
Lemma J_slave (w w' : W) i lo hi lo' hi' c x M :
  J w (SlaveAt i lo hi :: M) -> conns w' = <[i := c]> (conns w) -> slaves w' = <[i := x]> (slaves w) ->
  conn_bytes c -> page_fits x -> 0 <= lo' <= hi' -> hi' <= psize ->
  down c ++ get_bytes (local_page x) 0 lo' (Z.to_nat (hi' - lo')) ++ up c =
  down (conn w i) ++ pending w i lo hi ++ up (conn w i) ->
  J w' (SlaveAt i lo' hi' :: M).
Proof.
  intros H Hcs Hss Hc Hx Hlo Hhi Heq. destruct (j_slave _ _ H i lo hi ltac:(left)) as (_ & _ & Hci & Hsi & _).
  assert (Hconn : forall j, conn w' j = if decide (i = j) then c else conn w j).
  { intros j. rewrite <- (conn_insert w i c j Hci). unfold conn. by rewrite Hcs. }
  assert (Hslave : forall j, slave w' j = if decide (i = j) then x else slave w j).
  { intros j. rewrite <- (slave_insert w i x j Hsi). unfold slave. by rewrite Hss. }
  split.
  - exact (j_keys _ _ H).
  - intros j l h. rewrite Hcs, Hss, !length_insert, Hslave. intros [[= -> -> ->]|Hj]%elem_of_cons.
    + by rewrite decide_True.
    + rewrite decide_False by (by eapply slave_unique). exact (j_slave _ _ H j l h ltac:(by right)).
  - intros j o [?|Hj]%elem_of_cons; [done|]. destruct (j_flow _ _ H j o ltac:(by right)) as (l & h & Hs & He).
    unfold pending. rewrite Hconn, Hslave. apply elem_of_cons in Hs as [[= -> -> ->]|Hs].
    + exists lo', hi'. split; [left|]. rewrite !decide_True by done. by rewrite Heq.
    + exists l, h. split; [by right|]. by rewrite !decide_False by (by eapply slave_unique).
  - rewrite Hcs. apply Forall_insert; [exact (j_bytes _ _ H) | done].
Qed.

(** The same when the connection, or the slave, stays as it is. *)
Lemma J_slave_conn (w : W) i lo hi lo' hi' c M :
  J w (SlaveAt i lo hi :: M) -> conn_bytes c -> 0 <= lo' <= hi' -> hi' <= psize ->
  down c ++ pending w i lo' hi' ++ up c = down (conn w i) ++ pending w i lo hi ++ up (conn w i) ->
  J (set_conn w i c) (SlaveAt i lo' hi' :: M).
Proof.
  intros H Hc Hlo Hhi He. destruct (j_slave _ _ H i lo hi ltac:(left)) as (_ & _ & _ & Hsi & Hx).
  apply (J_slave w _ i lo hi lo' hi' c (slave w i)); try done. symmetry. apply list_insert_id. unfold slave.
  destruct (nth_lookup_or_length (slaves w) i (mkSlaveState 0 [] false 0)); [done | lia].
Qed.

Lemma J_slave_state (w : W) i lo hi x M :
  J w (SlaveAt i lo hi :: M) -> page_fits x ->
  get_bytes (local_page x) 0 lo (Z.to_nat (hi - lo)) = pending w i lo hi -> J (set_slave w i x) (SlaveAt i lo hi :: M).
Proof.
  intros H Hx He. destruct (j_slave _ _ H i lo hi ltac:(left)) as (Hlo & Hhi & Hci & _ & _).
  apply (J_slave w _ i lo hi lo hi (conn w i) x); try done; [|by eapply conn_ok | by rewrite He].
  symmetry. apply list_insert_id. unfold conn.
  destruct (nth_lookup_or_length (conns w) i (mkConn [] [])); [done | lia].
Qed.

(** ** Accesses *)

Abbreviation BInv := (both shared Inv J).
Abbreviation gsafe := (gsafe faithful True BInv).
Definition own (R : list Res) (M : list NetRes) : list (Res + NetRes) := map inl R ++ map inr M.

Lemma lefts_own R M : lefts (own R M) = R.
Proof. unfold own. by rewrite lefts_app, lefts_inl, lefts_inr, app_nil_r. Qed.
Lemma rights_own R M : rights (own R M) = M.
Proof. unfold own. by rewrite rights_app, rights_inl, rights_inr. Qed.

Lemma gsafe_net_access {B} (f : NetAnswer -> W -> option (B * W)) R M (Qp : B -> list (Res + NetRes) -> Prop) :
  (forall F w R' M' an, faithful an -> Inv F (shared w) (R ++ R') -> J w (M ++ M') ->
     exists b w' R2 M2, f an w = Some (b, w') /\ Inv F (shared w') (R2 ++ R') /\ J w' (M2 ++ M') /\ Qp b (own R2 M2)) ->
  gsafe (act f) (own R M) Qp.
Proof.
  intros H. apply gsafe_act. intros x w R' an Ha [Hi Hj]. rewrite lefts_app, lefts_own in Hi. rewrite rights_app, rights_own in Hj.
  destruct (H x w (lefts R') (rights R') an Ha Hi Hj) as (b & w' & R2 & M2 & Hf & Hi' & Hj' & HQ). exists b, w', (own R2 M2).
  split; [done|]. split; [|done]. split; [by rewrite lefts_app, lefts_own | by rewrite rights_app, rights_own].
Qed.

Lemma gsafe_net_common {A} (q : Prog Answer (@Shared Q) A) R M (Qp : A -> list (Res + NetRes) -> Prop) :
  safe Inv q R (fun a R' => Qp a (own R' M)) -> gsafe (common q) (own R M) Qp.
Proof.
  intros H. apply (gsafe_embed base shared set_shared Inv J faithful True ltac:(done) J_shared q R (map inr M)). exact H.
Qed.

(** An access of the network alone. *)
Lemma gsafe_net_only {B} (f : NetAnswer -> W -> option (B * W)) R M (Qp : B -> list (Res + NetRes) -> Prop) :
  (forall w M' an, faithful an -> J w (M ++ M') ->
     exists b w' M2, f an w = Some (b, w') /\ shared w' = shared w /\ J w' (M2 ++ M') /\ Qp b (own R M2)) ->
  gsafe (act f) (own R M) Qp.
Proof.
  intros H. apply gsafe_net_access. intros F w R' M' an Ha Hi Hj.
  destruct (H w M' an Ha Hj) as (b & w' & M2 & Hf & Hs & Hj' & HQ). exists b, w', R, M2. by rewrite Hs.
Qed.

(** An access that works on the second resource. *)
Lemma safe_second {B} (f : Answer -> @Shared Q -> option (B * @Shared Q)) r1 r2 l (Qp : B -> list Res -> Prop) :
  safe Inv (act f) (r2 :: r1 :: l) (fun a l' => exists l2, l' = l2 ++ r1 :: l /\ Qp a (r1 :: l2 ++ l)) ->
  safe Inv (act f) (r1 :: r2 :: l) Qp.
Proof.
  intros H F w R an Hi. destruct (H F w R an) as (b & w' & l' & Hf & Hi' & l2 & -> & HQ).
  { eapply (Inv_proper s pats nw); [|exact Hi]. apply Permutation_swap. }
  exists b, w', (r1 :: l2 ++ l). split; [done|]. split; [|done]. eapply (Inv_proper s pats nw); [|exact Hi'].
  rewrite <- !app_assoc. cbn. rewrite <- !app_assoc. apply Permutation_middle.
Qed.

Lemma safe_set_status t b c l (Qp : unit -> list Res -> Prop) : Qp tt l -> safe Inv (set_status t b c) l Qp.
Proof.
  intros HQ. apply safe_modify; [|done]. intros F w R an Hi.
  apply (inv_other s pats nw F w); try done; [exact (inv_plist s pats nw _ _ _ Hi) | by apply same_counts].
Qed.

(** *** Pages *)

Lemma psize_eq : psize = 8 * Z.of_nat pw /\ 0 < psize /\ page_length_ s = psize.
Proof using OK. destruct (pw_eq s pats OK) as (_ & H & _). destruct (so_len s pats OK) as [H1 _]. by split; [|split; [lia|]]. Qed.

(** What the two sides do when a transfer fails. *)
Lemma gsafe_stop_set side R M (Qp : bool -> list (Res + NetRes) -> Prop) :
  (forall b, Qp b (own R M)) -> gsafe (IsNetworkStopSet side) (own R M) Qp.
Proof.
  intros HQ. destruct side as [t|]; [|apply HQ]. apply gsafe_bind, gsafe_net_common, safe_ask. intros an. apply HQ.
Qed.

Lemma gsafe_master_failed t i R M (Qp : unit -> list (Res + NetRes) -> Prop) :
  Qp tt (own R M) -> gsafe (set_failed (Master t) i) (own R M) Qp.
Proof. intros HQ. by apply gsafe_net_common, safe_set_status. Qed.

Lemma gsafe_slave_members (f : SlaveState -> SlaveState) i lo hi R (Qp : unit -> list (Res + NetRes) -> Prop) :
  (forall x, local_page (f x) = local_page x) -> Qp tt (own R [SlaveAt i lo hi]) ->
  gsafe (modify (fun _ w => set_slave w i (f (slave w i)))) (own R [SlaveAt i lo hi]) Qp.
Proof.
  intros Hf HQ. apply gsafe_net_only. intros w M' an _ Hj. eexists tt, _, [SlaveAt i lo hi]. split; [done|]. split; [done|].
  split; [|done]. destruct (j_slave _ _ Hj i lo hi ltac:(left)) as (_ & _ & _ & _ & Hx).
  apply J_slave_state; [done | |by rewrite Hf]. unfold page_fits. by rewrite Hf.
Qed.

(** *** The network thread *)

Lemma conn_send c bs : conn_bytes c -> Forall is_byte bs -> conn_bytes (mkConn (up c ++ bs) (down c)).
Proof. intros [H1 H2] Hb. split; [by apply Forall_app | done]. Qed.

(** A block without errors is sent: the bytes are those of its pattern. *)
Lemma gsafe_master_send t i pe p r fuel size :
  mapped s pe -> pat_at pats (pattern pe) = Some p -> 0 <= size <= psize -> size <= Z.of_nat fuel ->
  gsafe (send_loop s fuel (Master t) i (Block pe) size)
    (own [r; Clean (offset pe) (pattern pe)] [MasterAt i (pattern_bytes p 0 (Z.to_nat (psize - size)))])
    (fun b R => exists out, R = own [r; Clean (offset pe) (pattern pe)] [MasterAt i out] /\
                            (b = true -> out = pattern_bytes p 0 (Z.to_nat psize))).
Proof using OK LAWS.
  intros Hmap Hp. destruct psize_eq as (Hps & Hpos & Hpl). revert size. induction fuel as [|fuel IH]; intros size Hs Hf;
    cbn [send_loop]; destruct (Z.eqb_spec size 0) as [->|Hne]; try lia;
    try (cbn; eexists; split; [done|]; intros _; by rewrite Z.sub_0_r).
  rewrite Hpl. apply gsafe_bind, gsafe_net_access. intros F w R' M' an Ha Hi Hj. cbn [app] in Hi.
  set (k := Z.max (-1) (Z.min size (io_result an))).
  destruct (Z.ltb_spec 0 k) as [Hk|Hk].
  - set (bs := bytes_to_send s w i (Block pe) (psize - size) k).
    assert (Hbs : bs = pattern_bytes p (psize - size) (Z.to_nat k)).
    { assert (Hi2 : Inv F (shared w) (Clean (offset pe) (pattern pe) :: r :: R'))
        by (eapply (Inv_proper s pats nw); [|exact Hi]; apply Permutation_swap).
      destruct (held_block s pats nw OK _ _ _ _ _ Hi2 eq_refl) as (_ & Ho8 & _).
      assert (Hcl : res_ok s pats (memory (shared w)) (Clean (offset pe) (pattern pe)))
        by (destruct Hi2 as (V & E & [_ _ H3 _ _ _ _ _]); by apply Forall_cons in H3 as [? _]).
      destruct (clean_words s pats _ _ _ Ho8 Hcl) as (p' & Hp' & Hwords). rewrite Hp in Hp'. injection Hp' as <-.
      unfold bs, bytes_to_send. rewrite (mapped_base s pe Hmap). apply (get_bytes_pattern _ _ p _ (Z.of_nat pw)); [done | lia | lia]. }
    destruct (master_flow _ _ _ _ Hj) as (lo & hi & _ & Hci & _).
    eexists k, _, [r; Clean (offset pe) (pattern pe)], [MasterAt i (pattern_bytes p 0 (Z.to_nat (psize - (size - k))))].
    split; [cbv zeta; fold k; rewrite (proj2 (Z.ltb_lt _ _) Hk); reflexivity|]. split; [exact Hi|].
    split.
    + apply (J_master w i (pattern_bytes p 0 (Z.to_nat (psize - size)))); [exact Hj | |].
      * apply conn_send; [by eapply conn_ok | apply get_bytes_bytes].
      * intros q Hq. cbn [up down]. fold bs. rewrite Hbs, (app_assoc q), (app_assoc (down (conn w i))), Hq.
        replace (Z.to_nat (psize - (size - k))) with (Z.to_nat (psize - size) + Z.to_nat k)%nat by lia.
        rewrite pattern_bytes_app. do 2 f_equal. lia.
    + rewrite (proj2 (Z.eqb_neq k 0)), (proj2 (Z.eqb_neq k (-1))) by lia. cbn [orb]. apply IH; lia.
  - eexists k, _, [r; Clean (offset pe) (pattern pe)], [_]. split; [cbv zeta; fold k; rewrite (proj2 (Z.ltb_ge _ _) Hk); reflexivity|]. split; [exact Hi|]. split; [exact Hj|].
    assert (Hk' : (k =? 0) || (k =? -1) = true) by (destruct (Z.eqb_spec k 0), (Z.eqb_spec k (-1)); try done; lia). rewrite Hk'.
    apply gsafe_bind, gsafe_stop_set. intros stop. apply gsafe_bind.
    assert (Hend : gsafe (Ret false) (own [r; Clean (offset pe) (pattern pe)] [MasterAt i (pattern_bytes p 0 (Z.to_nat (psize - size)))])
      (fun b R => exists out, R = own [r; Clean (offset pe) (pattern pe)] [MasterAt i out] /\ (b = true -> out = pattern_bytes p 0 (Z.to_nat psize))))
      by (cbn; by eexists).
    destruct stop; [exact Hend|]. by apply gsafe_master_failed.
Qed.

(** A resource for a block that may contain anything. *)
Definition spare (o : Z) (r : Res) : Prop := held r = [o] /\ probe_of r = [] /\ forall m, res_errors s pats m r = 0.

(** Bytes are stored in such a block. *)
Lemma inv_store F w r r' R o off bs :
  Inv F w (r :: R) -> spare o r -> spare o r' -> 0 <= off -> off + Z.of_nat (length bs) <= psize -> Forall is_byte bs ->
  res_ok s pats (set_bytes (memory w) (o / 8) off bs) r' ->
  Inv F (set_memory w (set_bytes (memory w) (o / 8) off bs)) (r' :: R).
Proof using OK LAWS.
  intros Hi (H1 & H2 & H3) (H1' & H2' & H3') Ho Hl Hb Hok. destruct psize_eq as (Hps & _ & _).
  destruct (held_block s pats nw OK _ _ _ _ _ Hi H1) as (_ & Ho8 & _).
  apply (inv_write s pats nw OK F w r r' R o); try done; [|apply length_set_bytes | |by rewrite H3, H3'].
  - apply words64_set_bytes; try done. destruct Hi as (V & E & [_ _ _ [? _] _ _ _ _]). done.
  - intros x Hx. apply (set_bytes_outside _ _ _ _ _ (Z.of_nat pw)); [done | done | lia | exact Hx].
Qed.

(** A block that has received the first [have] bytes of a pattern. *)
Definition receiving (o : Z) (pt : option Z) (p : Patterns.Pattern) (have : Z) (r : Res) : Prop :=
  (r = Free o /\ have = 0) \/
  (exists ws, r = Raw o ws /\ have < psize /\ get_bytes ws 0 0 (Z.to_nat have) = pattern_bytes p 0 (Z.to_nat have)) \/
  (r = Clean o pt /\ have = psize).

Lemma receiving_spare o pt p have r : receiving o pt p have r -> spare o r.
Proof. by intros [[-> _]|[(ws & -> & _)|[-> _]]]. Qed.

Lemma receiving_all o pt p r : receiving o pt p psize r -> r = Clean o pt.
Proof using OK. destruct psize_eq as (_ & Hpos & _). intros [[_ ?]|[(ws & _ & ? & _)|[-> _]]]; [lia | lia | done]. Qed.

Lemma receiving_bytes F w R o pt p have r :
  Inv F w (r :: R) -> receiving o pt p have r -> 0 <= have < psize ->
  get_bytes (memory w) (o / 8) 0 (Z.to_nat have) = pattern_bytes p 0 (Z.to_nat have).
Proof using OK.
  destruct psize_eq as (Hps & _ & _). intros Hi [[-> ->]|[(ws & -> & _ & He)|[_ ?]]] Hh; [done | | lia].
  destruct Hi as (V & E & [_ _ H3 _ _ _ _ _]). apply Forall_cons in H3 as [H3 _]. cbn [res_ok] in H3. rewrite <- He, <- H3.
  apply get_bytes_ext. intros j Hj. symmetry. apply range_get_byte. lia.
Qed.

(** The next bytes arrive. *)
Lemma inv_receive F w R o pt p have k r :
  Inv F w (r :: R) -> receiving o pt p have r -> pat_at pats pt = Some p -> 0 <= have -> 0 < k -> have + k <= psize ->
  exists r', receiving o pt p (have + k) r' /\
    Inv F (set_memory w (set_bytes (memory w) (o / 8) have (pattern_bytes p have (Z.to_nat k)))) (r' :: R).
Proof using OK LAWS.
  intros Hi Hr Hp Hh Hk Hle. destruct psize_eq as (Hps & _ & _). set (bs := pattern_bytes p have (Z.to_nat k)).
  pose proof (receiving_spare _ _ _ _ _ Hr) as Hsp. destruct (held_block s pats nw OK _ _ _ _ _ Hi (proj1 Hsp)) as (_ & Ho8 & Hfit).
  assert (Hlen : Z.of_nat (length bs) = k) by (unfold bs; rewrite length_pattern_bytes; lia).
  assert (Hb : Forall is_byte bs) by (apply Forall_map, Forall_forall; intros j _; apply byte_bound).
  assert (Hgot : get_bytes (set_bytes (memory w) (o / 8) have bs) (o / 8) 0 (Z.to_nat (have + k)) = pattern_bytes p 0 (Z.to_nat (have + k))).
  { rewrite <- Hlen, bytes_stored by (done || lia). rewrite (receiving_bytes _ _ _ _ _ _ _ _ Hi Hr) by lia.
    rewrite Hlen. replace (Z.to_nat (have + k)) with (Z.to_nat have + Z.to_nat k)%nat by lia. rewrite pattern_bytes_app.
    unfold bs. do 2 f_equal. lia. }
  destruct (decide (have + k = psize)) as [He|He].
  - exists (Clean o pt). split; [right; right; done|]. apply (inv_store F w r); try done; [lia|].
    assert (Hw : words64 (set_bytes (memory w) (o / 8) have bs)).
    { apply words64_set_bytes; try done. destruct Hi as (V & E & [_ _ _ [? _] _ _ _ _]). done. }
    destruct (pw_eq s pats OK) as (_ & _ & Hmax).
    rewrite <- (filled_self (PatternFacts.pattern_word p) (o / 8) pw (set_bytes (memory w) (o / 8) have bs)); [|done|].
    + apply (filled_clean s pats OK); [done | done |]. by rewrite length_set_bytes.
    + apply pattern_from_bytes; [done | exact (pat_good s pats OK _ _ Hp) | lia |].
      by replace (8 * pw)%nat with (Z.to_nat (have + k)) by lia.
  - exists (Raw o (range_words (set_bytes (memory w) (o / 8) have bs) (o / 8) pw)). split.
    + right. left. eexists. split; [done|]. split; [lia|]. rewrite <- Hgot. apply get_bytes_ext. intros j Hj. apply range_get_byte. lia.
    + apply (inv_store F w r); try done. lia.
Qed.

Lemma gsafe_master_gives_up t i pe have k r l M :
  mapped s pe -> spare (offset pe) r -> 0 <= have < psize ->
  gsafe (receive_failed s (Master t) i (Block pe) have k) (own (r :: l) M)
    (fun _ R => exists r', spare (offset pe) r' /\ R = own (r' :: l) M).
Proof using OK LAWS.
  intros Hmap Hr Hh. apply gsafe_bind, gsafe_stop_set. intros stop. destruct stop; cbn [negb]; [|by exists r].
  apply gsafe_bind, gsafe_ask. intros an _. destruct (_ && _); [by exists r|]. apply gsafe_bind, gsafe_master_failed.
  destruct (_ && _); [|by exists r]. apply gsafe_net_access. intros F w R' M' an' _ Hi Hj. cbn [app] in Hi.
  eexists tt, _, (Free (offset pe) :: l), M. split; [done|]. split; [|split; [by apply J_shared | by exists (Free (offset pe))]].
  cbn [store_bytes shared set_shared]. rewrite (mapped_base s pe Hmap).
  apply (inv_store F (shared w) r); try done; [lia | cbn; lia | constructor; [by split | constructor]].
Qed.

(** The bytes of the pattern come back. *)
Lemma gsafe_master_recv t i pe p c fuel size r :
  mapped s pe -> pat_at pats (pattern pe) = Some p -> 0 <= size <= psize -> size <= Z.of_nat fuel ->
  receiving (offset pe) (pattern pe) p (psize - size) r ->
  gsafe (recv_loop s fuel (Master t) i (Block pe) size)
    (own [r; c] [MasterAt i (pattern_bytes p (psize - size) (Z.to_nat size))])
    (fun b R => if b then R = own [Clean (offset pe) (pattern pe); c] [MasterAt i []]
                else exists r' out, spare (offset pe) r' /\ R = own [r'; c] [MasterAt i out]).
Proof using OK LAWS.
  intros Hmap Hp. destruct psize_eq as (Hps & Hpos & Hpl). revert size r. induction fuel as [|fuel IH]; intros size r Hs Hf Hr;
    cbn [recv_loop]; destruct (Z.eqb_spec size 0) as [->|Hne]; try lia;
    try (rewrite Z.sub_0_r in Hr; rewrite (receiving_all _ _ _ _ Hr); done).
  rewrite Hpl. apply gsafe_bind, gsafe_net_access. intros F w R' M' an Ha Hi Hj. cbn [app] in Hi.
  destruct (master_flow _ _ _ _ Hj) as (lo & hi & _ & Hci & Hflow).
  set (queue := down (conn w i)) in *. set (k := Z.max (-1) (Z.min (Z.min size (Z.of_nat (length queue))) (io_result an))).
  destruct (Z.ltb_spec 0 k) as [Hk|Hk].
  - assert (Htake : take (Z.to_nat k) queue = pattern_bytes p (psize - size) (Z.to_nat k) /\
      drop (Z.to_nat k) queue ++ pending w i lo hi ++ up (conn w i) = pattern_bytes p (psize - (size - k)) (Z.to_nat (size - k))).
    { replace (Z.to_nat size) with (Z.to_nat k + Z.to_nat (size - k))%nat in Hflow by lia. rewrite pattern_bytes_app in Hflow.
      replace (psize - size + Z.of_nat (Z.to_nat k)) with (psize - (size - k)) in Hflow by lia.
      rewrite <- (take_drop (Z.to_nat k) queue), <- app_assoc in Hflow. apply app_inj_1 in Hflow; [done|].
      rewrite length_take, length_pattern_bytes. lia. }
    destruct Htake as [Htake Hdrop].
    destruct (inv_receive F (shared w) ([c] ++ R') (offset pe) (pattern pe) p (psize - size) k r Hi Hr Hp ltac:(lia) Hk ltac:(lia)) as (r' & Hr' & Hinv).
    eexists k, _, [r'; c], [MasterAt i (pattern_bytes p (psize - (size - k)) (Z.to_nat (size - k)))].
    split; [cbv zeta; fold queue; fold k; rewrite (proj2 (Z.ltb_lt _ _) Hk), Ha, Htake; reflexivity|]. split; [|split].
    + cbn [shared set_conn store_bytes set_shared]. rewrite (mapped_base s pe Hmap). exact Hinv.
    + apply (J_master _ i (pattern_bytes p (psize - size) (Z.to_nat size))).
      * cbn [store_bytes]. by apply J_shared.
      * destruct (conn_ok _ _ i Hj Hci) as [Hu Hd]. split; [done|]. cbn [down]. by apply Forall_drop.
      * intros q Hq. cbn [up down]. change (conn (store_bytes s w i (Block pe) _ _) i) with (conn w i) in Hq. fold queue in Hq.
        rewrite <- Hdrop. f_equal. rewrite <- Hflow in Hq. by apply app_inv_head in Hq.
    + rewrite (proj2 (Z.eqb_neq k 0)), (proj2 (Z.eqb_neq k (-1))) by lia. cbn [orb]. apply IH; [lia | lia|].
      by replace (psize - (size - k)) with (psize - size + k) by lia.
  - eexists k, _, [r; c], [_]. split; [cbv zeta; fold queue; fold k; rewrite (proj2 (Z.ltb_ge _ _) Hk); reflexivity|].
    split; [exact Hi|]. split; [exact Hj|].
    assert (Hk' : (k =? 0) || (k =? -1) = true) by (destruct (Z.eqb_spec k 0), (Z.eqb_spec k (-1)); try done; lia). rewrite Hk'.
    apply gsafe_bind. eapply gsafe_mono; [|apply (gsafe_master_gives_up t i pe (psize - size) k r [c]); [done | by eapply receiving_spare | lia]].
    intros _ R (r' & Hr' & ->). cbn. by eexists _, _.
Qed.

(** *** The slave *)

Lemma conn_same (w : W) i : (i < length (conns w))%nat -> conns w = <[i := conn w i]> (conns w).
Proof. intros Hi. symmetry. apply list_insert_id. unfold conn. destruct (nth_lookup_or_length (conns w) i (mkConn [] [])); [done | lia]. Qed.
Lemma slave_same (w : W) i : (i < length (slaves w))%nat -> slaves w = <[i := slave w i]> (slaves w).
Proof. intros Hi. symmetry. apply list_insert_id. unfold slave. destruct (nth_lookup_or_length (slaves w) i (mkSlaveState 0 [] false 0)); [done | lia]. Qed.

(** A slave that has sent everything starts over. *)
Lemma J_slave_idle (w : W) i lo M : J w (SlaveAt i lo lo :: M) -> J w (SlaveAt i 0 0 :: M).
Proof using OK.
  intros H. destruct psize_eq as (_ & Hpos & _). destruct (j_slave _ _ H i lo lo ltac:(left)) as (_ & _ & Hci & Hsi & Hx).
  apply (J_slave w w i lo lo 0 0 (conn w i) (slave w i)); try done; [by apply conn_same | by apply slave_same | by eapply conn_ok | lia |].
  unfold pending. by rewrite !Z.sub_diag.
Qed.

Lemma pending_split (w : W) i lo hi k :
  0 < k -> lo + k <= hi -> pending w i lo hi = get_bytes (local_page (slave w i)) 0 lo (Z.to_nat k) ++ pending w i (lo + k) hi.
Proof.
  intros Hk Hle. unfold pending. replace (Z.to_nat (hi - lo)) with (Z.to_nat k + Z.to_nat (hi - (lo + k)))%nat by lia.
  rewrite get_bytes_app. do 2 f_equal. lia.
Qed.

Lemma gsafe_slave_failed i lo hi R (Qp : unit -> list (Res + NetRes) -> Prop) :
  Qp tt (own R [SlaveAt i lo hi]) -> gsafe (set_failed Slave i) (own R [SlaveAt i lo hi]) Qp.
Proof. by apply (gsafe_slave_members (fun x => mkSlaveState (sock_ x) (local_page x) false (slave_pages x))). Qed.

Lemma gsafe_slave_send i fuel size :
  0 <= size <= psize -> size <= Z.of_nat fuel ->
  gsafe (send_loop s fuel Slave i LocalPage size) (own [] [SlaveAt i (psize - size) psize])
    (fun b R => exists lo, R = own [] [SlaveAt i lo psize] /\ (b = true -> lo = psize)).
Proof using OK.
  destruct psize_eq as (Hps & Hpos & Hpl). revert size. induction fuel as [|fuel IH]; intros size Hs Hf;
    cbn [send_loop]; destruct (Z.eqb_spec size 0) as [->|Hne]; try lia; try (cbn; exists (psize - 0); split; [done | lia]).
  rewrite Hpl. apply gsafe_bind, gsafe_net_only. intros w M' an Ha Hj. cbn [app] in Hj.
  set (k := Z.max (-1) (Z.min size (io_result an))).
  destruct (Z.ltb_spec 0 k) as [Hk|Hk].
  - eexists k, _, [SlaveAt i (psize - (size - k)) psize]. split; [cbv zeta; fold k; rewrite (proj2 (Z.ltb_lt _ _) Hk); reflexivity|].
    split; [done|]. split.
    + destruct (j_slave _ _ Hj i _ _ ltac:(left)) as (_ & _ & Hci & _ & _). destruct (conn_ok _ _ i Hj Hci) as [Hu Hd].
      apply (J_slave_conn _ _ (psize - size) psize); [done | | lia | lia |].
      * split; [done|]. apply Forall_app. split; [done | apply get_bytes_bytes].
      * cbn [up down]. rewrite (pending_split w i (psize - size) psize k) by lia. rewrite <- !app_assoc. do 3 f_equal. f_equal; lia.
    + rewrite (proj2 (Z.eqb_neq k 0)), (proj2 (Z.eqb_neq k (-1))) by lia. cbn [orb]. apply IH; lia.
  - eexists k, _, [_]. split; [cbv zeta; fold k; rewrite (proj2 (Z.ltb_ge _ _) Hk); reflexivity|]. split; [done|]. split; [exact Hj|].
    assert (Hk' : (k =? 0) || (k =? -1) = true) by (destruct (Z.eqb_spec k 0), (Z.eqb_spec k (-1)); try done; lia). rewrite Hk'.
    cbn. by eexists.
Qed.

(** Bytes arrive in the buffer. *)
Lemma J_slave_store (w : W) i have c bs M :
  J w (SlaveAt i 0 have :: M) -> conn_bytes c -> Forall is_byte bs -> have + Z.of_nat (length bs) <= psize ->
  down c = down (conn w i) -> bs ++ up c = up (conn w i) ->
  J (set_conn (store_bytes s w i LocalPage have bs) i c) (SlaveAt i 0 (have + Z.of_nat (length bs)) :: M).
Proof.
  intros H Hc Hb Hle Hd Hu. destruct (j_slave _ _ H i 0 have ltac:(left)) as (Hh & _ & _ & _ & Hx1 & Hx2).
  eapply (J_slave w _ i 0 have 0 _ c); try done; [|lia|].
  - split; cbn [local_page]; [by rewrite length_set_bytes | apply words64_set_bytes; [done | lia | done]].
  - cbn [local_page]. rewrite Z.sub_0_r, bytes_stored by (done || lia). unfold pending. rewrite Z.sub_0_r, Hd, <- Hu, <- !app_assoc. done.
Qed.

Lemma gsafe_slave_gives_up i have k :
  0 <= have < psize ->
  gsafe (receive_failed s Slave i LocalPage have k) (own [] [SlaveAt i 0 have]) (fun _ R => R = own [] [SlaveAt i 0 have]).
Proof using OK.
  intros Hh. apply gsafe_bind. cbn [IsNetworkStopSet ProgramFacts.gsafe negb]. apply gsafe_bind, gsafe_ask. intros an _.
  destruct (_ && _); [done|]. apply gsafe_bind, gsafe_slave_failed. destruct (_ && _); [|done].
  apply gsafe_net_only. intros w M' an' _ Hj. eexists tt, _, [SlaveAt i 0 have]. split; [done|]. split; [done|]. split; [|done].
  destruct (j_slave _ _ Hj i 0 have ltac:(left)) as (_ & _ & _ & _ & Hx1 & Hx2). cbn [store_bytes].
  apply J_slave_state; [done | |].
  - split; cbn [local_page]; [by rewrite length_set_bytes|]. apply words64_set_bytes; [done | lia |]. constructor; [by split | constructor].
  - cbn [local_page]. apply bytes_before; [done | done | constructor; [by split | constructor] | cbn [length]; lia | lia].
Qed.

Lemma gsafe_slave_recv i fuel size :
  0 <= size <= psize -> size <= Z.of_nat fuel ->
  gsafe (recv_loop s fuel Slave i LocalPage size) (own [] [SlaveAt i 0 (psize - size)])
    (fun b R => exists hi, R = own [] [SlaveAt i 0 hi] /\ (b = true -> hi = psize)).
Proof using OK.
  destruct psize_eq as (Hps & Hpos & Hpl). revert size. induction fuel as [|fuel IH]; intros size Hs Hf;
    cbn [recv_loop]; destruct (Z.eqb_spec size 0) as [->|Hne]; try lia; try (cbn; exists (psize - 0); split; [done | lia]).
  rewrite Hpl. apply gsafe_bind, gsafe_net_only. intros w M' an Ha Hj. cbn [app] in Hj.
  set (queue := up (conn w i)). set (k := Z.max (-1) (Z.min (Z.min size (Z.of_nat (length queue))) (io_result an))).
  destruct (j_slave _ _ Hj i _ _ ltac:(left)) as (_ & _ & Hci & _ & _). destruct (conn_ok _ _ i Hj Hci) as [Hu Hd].
  destruct (Z.ltb_spec 0 k) as [Hk|Hk].
  - assert (Hlen : Z.of_nat (length (take (Z.to_nat k) queue)) = k) by (rewrite length_take; lia).
    eexists k, _, [SlaveAt i 0 (psize - size + k)].
    split; [cbv zeta; fold queue; fold k; rewrite (proj2 (Z.ltb_lt _ _) Hk), Ha; reflexivity|]. split; [done|]. split.
    + replace (psize - size + k) with (psize - size + Z.of_nat (length (take (Z.to_nat k) queue))) by lia.
      apply J_slave_store; [done | | by apply Forall_take | lia | done | apply take_drop].
      split; [by apply Forall_drop | done].
    + rewrite (proj2 (Z.eqb_neq k 0)), (proj2 (Z.eqb_neq k (-1))) by lia. cbn [orb].
      replace (psize - size + k) with (psize - (size - k)) by lia. apply IH; lia.
  - eexists k, _, [_]. split; [cbv zeta; fold queue; fold k; rewrite (proj2 (Z.ltb_ge _ _) Hk); reflexivity|].
    split; [done|]. split; [exact Hj|].
    assert (Hk' : (k =? 0) || (k =? -1) = true) by (destruct (Z.eqb_spec k 0), (Z.eqb_spec k (-1)); try done; lia). rewrite Hk'.
    apply gsafe_bind. eapply gsafe_mono; [|apply gsafe_slave_gives_up; lia]. intros _ R ->. cbn. by eexists.
Qed.

(** *** The loops *)

(** A pure consequence of the resources, learnt at the next access. *)
Lemma gsafe_learn {A} (q : Prog NetAnswer W A) l (phi : Prop) Qp :
  match q with Ret _ => False | Act _ _ _ => True end ->
  (forall x w R, BInv x w (l ++ R) -> phi) -> (phi -> gsafe q l Qp) -> gsafe q l Qp.
Proof. destruct q as [a|B f k]; [done|]. intros _ Hphi Hq x w R an Ha Hi. by apply (Hq (Hphi x w R Hi)). Qed.

Lemma full_pattern x w l o pt M R :
  BInv x w (own [Free l; Full o pt] M ++ R) -> exists p, pat_at pats pt = Some p.
Proof.
  intros [Hi _]. rewrite lefts_app, lefts_own in Hi. destruct Hi as (V & E & [_ _ H3 _ _ _ _ _]).
  apply Forall_cons in H3 as [_ H3]. apply Forall_cons in H3 as [H3 _]. destruct H3 as (p & Hp & _). by exists p.
Qed.

(** A valid block goes back before the other one. *)
Lemma gsafe_return_both i src dst r out loops :
  spare (offset dst) r ->
  gsafe (_ <- common (Sat_PutValid src) ;; _ <- common (Sat_PutEmpty dst) ;; Ret (inr (false, loops)))%prog
    (own [r; Clean (offset src) (pattern src)] [MasterAt i out])
    (fun (x : Z + bool * Z) R => match x with
               | inl _ => R = own [] [MasterAt i []]
               | inr _ => exists out, R = own [] [MasterAt i out]
               end).
Proof using LAWS.
  intros (Hh & _ & He). apply gsafe_bind, gsafe_net_common, safe_second, (safe_PutValid s pats nw); [by right|].
  exists []. split; [done|]. cbn [app]. apply gsafe_bind, gsafe_net_common, (safe_PutEmpty s pats nw); [done | done|]. by exists out.
Qed.

Lemma gsafe_net_turn t i loops :
  (t < nw)%nat ->
  gsafe (net_turn s t i loops) (own [] [MasterAt i []])
    (fun x R => match x with
               | inl _ => R = own [] [MasterAt i []]
               | inr _ => exists out, R = own [] [MasterAt i out]
               end).
Proof using OK LAWS Hstrict.
  intros Ht. destruct psize_eq as (Hps & Hpos & Hpl).
  unfold net_turn. apply gsafe_bind, gsafe_net_common, safe_ask. intros an.
  apply gsafe_bind. eapply (gsafe_mono faithful True BInv _ _ (fun _ R => R = own [] [MasterAt i []])).
  2: { destruct (ready an); [|done]. apply gsafe_net_common, safe_get. done. }
  intros stop R ->. destruct stop; [by exists []|].
  apply gsafe_bind, gsafe_net_common, (safe_GetValid s pats nw OK); [by exists []|]. intros src Hsrc.
  apply gsafe_bind, gsafe_net_common, (safe_GetEmpty s pats nw OK).
  { apply gsafe_bind, gsafe_net_common, (safe_PutValid s pats nw); [by left | by exists []]. }
  intros dst Hdst. rewrite Hstrict.
  apply (gsafe_learn _ _ (exists p, pat_at pats (pattern src) = Some p)); [done | |].
  { intros x w R. apply full_pattern. }
  intros (p & Hp). apply gsafe_bind, gsafe_bind, gsafe_net_common, safe_second, (safe_check_page s pats nw OK); [done | done | by left|].
  intros e. exists [Clean (offset src) (pattern src)]. split; [done|]. cbn [app ProgramFacts.gsafe].
  apply gsafe_bind. unfold SendPage. rewrite Hpl. eapply gsafe_mono;
    [|pose proof (gsafe_master_send t i src p (Free (offset dst)) (Z.to_nat psize) psize Hsrc Hp ltac:(lia) ltac:(lia)) as Hsend;
      rewrite Z.sub_diag in Hsend; exact Hsend].
  intros sent R (out & -> & Hout). destruct sent; cbn [negb]; [|by apply gsafe_return_both].
  rewrite (Hout eq_refl). clear out Hout. apply gsafe_bind, gsafe_ask. intros an' _. set (dst1 := FileThread.set_lastcpu _ _).
  apply gsafe_bind, gsafe_net_common, safe_epoch_begin. intros ep. apply gsafe_bind. unfold ReceivePage. rewrite Hpl.
  apply gsafe_bind, gsafe_ask. intros an2 _. apply gsafe_bind.
  pose proof (gsafe_master_recv t i dst1 p (Clean (offset src) (pattern src)) (Z.to_nat psize) psize (Free (offset dst)) Hdst Hp
    ltac:(lia) ltac:(lia) ltac:(left; split; [done | lia])) as Hrecv.
  rewrite Z.sub_diag in Hrecv. eapply gsafe_mono; [|exact Hrecv]. clear Hrecv.
  intros received R. destruct received.
  - intros ->. cbn [ProgramFacts.gsafe]. set (dst2 := set_write_frequency dst1 _).
    apply gsafe_bind, gsafe_net_common, (safe_record_write s pats nw). apply gsafe_bind, gsafe_bind, gsafe_net_common.
    apply (safe_check_page s pats nw OK t dst2 (Clean (offset dst2) (pattern dst2))); [done | done | by right|]. intros e2.
    cbn [ProgramFacts.gsafe]. apply gsafe_bind, gsafe_net_common.
    apply (safe_PutValid s pats nw dst2 (Clean (offset dst2) (pattern dst2))); [by right|].
    apply gsafe_bind, gsafe_net_common, (safe_PutEmpty s pats nw); done.
  - intros (r' & out & Hr' & ->). cbn [ProgramFacts.gsafe]. by apply (gsafe_return_both i src dst1 r').
Qed.

Lemma gsafe_close R M sock (Qp : unit -> list (Res + NetRes) -> Prop) :
  Qp tt (own R M) -> gsafe (CloseSocket sock) (own R M) Qp.
Proof. intros HQ. apply gsafe_net_only. intros w M' an _ Hj. eexists tt, _, M. split; [done|]. split; [done|]. by split; [destruct Hj|]. Qed.

Lemma gsafe_net_status t b c R M (Qp : unit -> list (Res + NetRes) -> Prop) :
  Qp tt (own R M) -> gsafe (common (set_status t b c)) (own R M) Qp.
Proof. intros HQ. by apply gsafe_net_common, safe_set_status. Qed.

(** A thread ends without a block in its hands. *)
Definition no_blocks {A} (r : A) (R : list (Res + NetRes)) : Prop := lefts R = [].

Lemma gsafe_net_work t i fuel : (t < nw)%nat -> gsafe (Work s t i fuel) (own [] [MasterAt i []]) no_blocks.
Proof using OK LAWS Hstrict.
  intros Ht. apply gsafe_bind. unfold CreateSocket. apply gsafe_bind, gsafe_ask. intros an _.
  destruct (_ =? _); [by apply gsafe_bind, gsafe_net_status|]. cbn [ProgramFacts.gsafe].
  apply gsafe_bind, gsafe_net_common, safe_get. intros v. destruct (error_stop_requested_ v).
  { by apply gsafe_bind, gsafe_close, gsafe_bind, gsafe_net_status. }
  apply gsafe_bind. unfold Connect. apply gsafe_bind, gsafe_ask. intros an1 _.
  destruct (resolved an1); cbn [negb]; [|by apply gsafe_bind, gsafe_net_status, gsafe_bind, gsafe_close].
  apply gsafe_bind, gsafe_ask. intros an2 _.
  destruct (connected an2); cbn [negb]; [|by apply gsafe_bind, gsafe_net_status, gsafe_bind, gsafe_close].
  cbn [ProgramFacts.gsafe negb]. apply gsafe_bind.
  apply (gsafe_loop_any faithful True BInv fuel _ 0 _ (fun _ R => R = own [] [MasterAt i []])); [|by intros st R ->|done].
  intros loops R ->. eapply gsafe_mono; [|by apply gsafe_net_turn]. intros [l'|[result l']] R; [done|].
  intros (out & ->). by apply gsafe_bind, gsafe_net_status, gsafe_bind, gsafe_close.
Qed.

Lemma gsafe_slave_turn i lo loops :
  gsafe (slave_turn s i loops) (own [] [SlaveAt i lo lo])
    (fun x R => match x with
                | inl _ => exists lo, R = own [] [SlaveAt i lo lo]
                | inr _ => exists lo hi, R = own [] [SlaveAt i lo hi]
                end).
Proof using OK.
  destruct psize_eq as (Hps & Hpos & Hpl). unfold slave_turn, ReceivePage, SendPage. rewrite Hpl. apply gsafe_bind, gsafe_bind.
  apply gsafe_net_only. intros w M' an _ Hj. eexists _, w, [SlaveAt i 0 0]. split; [done|]. split; [done|].
  split; [by eapply J_slave_idle|]. apply gsafe_bind.
  pose proof (gsafe_slave_recv i (Z.to_nat psize) psize ltac:(lia) ltac:(lia)) as Hrecv. rewrite Z.sub_diag in Hrecv.
  eapply gsafe_mono; [|exact Hrecv]. intros received R (hi & -> & Hhi). destruct received; cbn [ProgramFacts.gsafe]; [|by eexists _, _].
  rewrite (Hhi eq_refl). apply gsafe_bind.
  pose proof (gsafe_slave_send i (Z.to_nat psize) psize ltac:(lia) ltac:(lia)) as Hsend. rewrite Z.sub_diag in Hsend.
  eapply gsafe_mono; [|exact Hsend]. intros sent R (lo' & -> & Hlo). destruct sent; cbn; [rewrite (Hlo eq_refl); by eexists | by eexists _, _].
Qed.

Lemma gsafe_outcome i b c lo hi (Qp : unit -> list (Res + NetRes) -> Prop) :
  Qp tt (own [] [SlaveAt i lo hi]) -> gsafe (set_outcome i b c) (own [] [SlaveAt i lo hi]) Qp.
Proof. by apply (gsafe_slave_members (fun x => mkSlaveState (sock_ x) (local_page x) b (default (slave_pages x) c))). Qed.

Lemma gsafe_close_owned i lo hi (Qp : unit -> list (Res + NetRes) -> Prop) :
  Qp tt (own [] [SlaveAt i lo hi]) -> gsafe (CloseOwnedSocket i) (own [] [SlaveAt i lo hi]) Qp.
Proof.
  intros HQ. apply gsafe_net_only. intros w M' an _ Hj. destruct (0 <? sock_ (slave w i)) eqn:Hs;
    eexists tt, _, [SlaveAt i lo hi]; (split; [cbv zeta; rewrite Hs; reflexivity|]; split; [done|]; split; [|done]); [|done].
  destruct (j_slave _ _ Hj i lo hi ltac:(left)) as (_ & _ & _ & _ & Hx).
  apply (J_slave_state (add_closed w _)); [by destruct Hj | done | done].
Qed.

Lemma gsafe_SlaveWork i fuel : gsafe (SlaveWork s i fuel) (own [] [SlaveAt i 0 0]) no_blocks.
Proof using OK.
  apply gsafe_bind. apply gsafe_net_only. intros w M' an _ Hj. eexists _, w, [SlaveAt i 0 0]. split; [done|]. split; [done|].
  split; [done|]. destruct (_ =? _); [by apply gsafe_bind, gsafe_outcome|]. apply gsafe_bind, gsafe_ask. intros an' _.
  destruct (negb _); [by apply gsafe_bind, gsafe_outcome, gsafe_bind, gsafe_close_owned|]. apply gsafe_bind.
  apply (gsafe_loop_any faithful True BInv fuel _ 0 _ (fun _ R => exists lo, R = own [] [SlaveAt i lo lo])); [|by intros st R [lo ->]|by exists 0].
  intros loops R [lo ->]. eapply gsafe_mono; [|by apply gsafe_slave_turn]. intros [l'|l'] R; [done|].
  intros (lo' & hi & ->). by apply gsafe_bind, gsafe_outcome, gsafe_bind, gsafe_close_owned.
Qed.

End Facts.

(** ** Executions *)

(** A network thread of the test, with its worker and its connection. *)
Record net_job := mkNetJob { n_worker : nat; n_conn : nat }.

(** Network threads, the slaves of [nconn] connections and other threads. *)
Definition net_threads {Q} `{PS : PageStore Answer Q} (s : Settings) (fuel : nat) (masters : list net_job) (nconn : nat) (jobs : list job)
  : list (Prog NetAnswer (@NetWorld Q) (option bool)) :=
  map (fun m => Work s (n_worker m) (n_conn m) fuel) masters ++ map (fun i => SlaveWork s i fuel) (seq 0 nconn) ++
  map (fun j => common (work s fuel j)) jobs.

(** Connections without bytes, and slaves with their buffers. *)
Record net_start {Q} (s : Settings) (nconn : nat) (w : @NetWorld Q) : Prop := {
  ns_conns : conns w = replicate nconn (mkConn [] []);
  ns_slaves : length (slaves w) = nconn /\ Forall (page_fits s) (slaves w)
}.

Definition net_job_ok (nw nconn : nat) (m : net_job) : Prop := (n_worker m < nw)%nat /\ (n_conn m < nconn)%nat.

(** Executions with their number of faults in valid blocks at rest. *)
Inductive net_run {Q} `{PS : PageStore Answer Q} (s : Settings) (pats : list Patterns.Pattern) {A}
  : Z -> @NetWorld Q * list (Prog NetAnswer NetWorld A) -> @NetWorld Q * list (Prog NetAnswer NetWorld A) -> Prop :=
| net_run_start x : net_run s pats 0 x x
| net_run_step F x y z : net_run s pats F x y -> pstep_in faithful y z -> net_run s pats F x z
| net_run_fault F x w v ths :
    net_run s pats F x (w, ths) -> fault s pats (shared w) v -> net_run s pats (F + 1) x (set_shared w v, ths).

Section Run.
Context {Q : Type} `{PS : PageStore Answer Q}.
Context (s : Settings) (pats : list Patterns.Pattern) (nw : nat).
Context `{LAWS : !PageStoreLaws Answer Q (pages s) (page_length (cfg s))}.
Context (OK : settings_ok s pats) (Hstrict : strict s = true).
Context (fuel nconn : nat) (masters : list net_job) (jobs : list job).
Context (Hmasters : Forall (net_job_ok nw nconn) masters) (Hone : NoDup (map n_conn masters)).
Context (Hjobs : Forall (fun j => job_worker j < nw)%nat jobs).

Abbreviation BInv := (both shared (Inv s pats nw) (J s)).
Abbreviation all_ok := (all_gsafe faithful True BInv (fun _ => no_blocks)).

#[local] Instance BInv_proper x w : Proper (Permutation ==> iff) (BInv x w).
Proof. apply both_proper; [intros y v; exact (Inv_proper s pats nw y v) | intros v; exact (J_proper s v)]. Qed.

Definition first_resources : list (list (Res + NetRes)) :=
  map (fun m => own [] [MasterAt (n_conn m) []]) masters ++ map (fun i => own [] [SlaveAt i 0 0]) (seq 0 nconn) ++ map (fun _ => own [] []) jobs.

Lemma first_resources_split :
  concat first_resources = own [] (map (fun m => MasterAt (n_conn m) []) masters ++ map (fun i => SlaveAt i 0 0) (seq 0 nconn)).
Proof using fuel.
  assert (H : forall {A} (f : A -> NetRes) l, concat (map (fun x => own [] [f x]) l) = own [] (map f l))
    by (intros A f l; induction l as [|x l IH]; [done | cbn in *; by rewrite IH]).
  assert (H0 : forall {A} (l : list A), concat (map (fun _ => own [] []) l) = []) by (intros A l; by induction l).
  unfold first_resources. rewrite !concat_app, H0, app_nil_r, (H _ (fun m => MasterAt (n_conn m) [])), (H _ (fun i => SlaveAt i 0 0)).
  unfold own. cbn [map app]. by rewrite map_app.
Qed.

Lemma J_start (w0 : @NetWorld Q) :
  net_start s nconn w0 -> J s w0 (map (fun m => MasterAt (n_conn m) []) masters ++ map (fun i => SlaveAt i 0 0) (seq 0 nconn)).
Proof using OK Hmasters Hone.
  intros [Hc [Hl Hx]]. destruct (psize_eq s pats OK) as (_ & Hpos & _). split.
  - rewrite map_app, !map_map. apply NoDup_app. split; [|split].
    + cbn. change (NoDup ((fun m => (true, n_conn m)) <$> masters)). rewrite (list_fmap_compose n_conn (pair true)).
      apply NoDup_fmap_2; [by intros ? ? [=]|done].
    + intros k (m & -> & _)%list_elem_of_fmap (i & Hi & _)%list_elem_of_fmap. done.
    + cbn. apply NoDup_fmap_2; [by intros ? ? [=] | apply NoDup_seq].
  - intros i lo hi [Hi|Hi]%elem_of_app; apply list_elem_of_fmap in Hi as (m & Hm & Hin); [done|]. injection Hm as -> -> ->.
    apply elem_of_seq in Hin. rewrite Hc, length_replicate, Hl. split_and!; try lia.
    unfold slave. rewrite nth_lookup. destruct (lookup_lt_is_Some_2 (slaves w0) m) as [x Hxx]; [lia|]. rewrite Hxx.
    exact (proj1 (Forall_lookup _ _) Hx _ _ Hxx).
  - intros i out [Hi|Hi]%elem_of_app; apply list_elem_of_fmap in Hi as (m & Hm & Hin); [|done]. injection Hm as -> ->.
    rewrite Forall_forall in Hmasters. destruct (Hmasters m Hin) as [_ Hlt]. exists 0, 0. split.
    + apply elem_of_app. right. apply (list_elem_of_fmap_2 (fun i => SlaveAt i 0 0)), elem_of_seq. lia.
    + unfold conn. rewrite Hc, nth_lookup, lookup_replicate_2 by done. done.
  - rewrite Hc. by apply Forall_replicate.
Qed.

Lemma net_threads_start F (w0 : @NetWorld Q) :
  Inv s pats nw F (shared w0) [] -> net_start s nconn w0 -> all_ok F (w0, net_threads s fuel masters nconn jobs).
Proof using OK LAWS Hstrict Hmasters Hone Hjobs.
  intros Hi Hst. exists first_resources. cbn [fst snd]. rewrite first_resources_split. split; [|split].
  - split; [by rewrite lefts_own | rewrite rights_own; by apply J_start].
  - unfold first_resources, net_threads. by rewrite !length_app, !length_map.
  - intros i q R Hq HR. unfold net_threads, first_resources in *.
    apply lookup_app_Some in Hq as [Hq|[Hlen Hq]].
    { rewrite lookup_app_l in HR by (rewrite length_map; apply lookup_lt_Some in Hq; by rewrite length_map in Hq).
      apply list_lookup_fmap_Some in Hq as (m & -> & Hm). rewrite list_lookup_fmap, Hm in HR. injection HR as <-.
      apply (gsafe_net_work s pats nw OK Hstrict). rewrite Forall_forall in Hmasters. apply Hmasters. by eapply list_elem_of_lookup_2. }
    rewrite lookup_app_r in HR by (by rewrite length_map in *). rewrite length_map in *.
    apply lookup_app_Some in Hq as [Hq|[Hlen' Hq]].
    { rewrite lookup_app_l in HR by (rewrite length_map; apply lookup_lt_Some in Hq; by rewrite length_map in Hq).
      apply list_lookup_fmap_Some in Hq as (m & -> & Hm). rewrite list_lookup_fmap, Hm in HR. injection HR as <-.
      by apply gsafe_SlaveWork. }
    rewrite lookup_app_r in HR by (by rewrite length_map in *). rewrite length_map in *.
    apply list_lookup_fmap_Some in Hq as (j & -> & Hj). rewrite list_lookup_fmap, Hj in HR. injection HR as <-.
    apply gsafe_net_common. rewrite Forall_forall in Hjobs. specialize (Hjobs j ltac:(by eapply list_elem_of_lookup_2)).
    eapply safe_mono; [|by apply (safe_job s pats nw OK fuel j)]. by intros a R ->.
Qed.

Lemma net_run_ok F0 F (w0 : @NetWorld Q) w ths :
  Inv s pats nw F0 (shared w0) [] -> net_start s nconn w0 ->
  net_run s pats F (w0, net_threads s fuel masters nconn jobs) (w, ths) -> all_ok (F0 + F) (w, ths).
Proof using OK LAWS Hstrict Hmasters Hone Hjobs.
  intros Hi Hst Hrun. remember (w0, net_threads s fuel masters nconn jobs) as x eqn:Hx. remember (w, ths) as y eqn:Hy. revert w ths Hy.
  induction Hrun as [x|F x y z Hrun IH Hstep|F x w1 v ths1 Hrun IH Hf]; intros w ths Hy.
  - rewrite Hx, Z.add_0_r. by apply net_threads_start.
  - subst z. destruct y as [wy thy]. eapply pstep_gsafe; [intros ? ?; by eapply BInv_proper | |exact Hstep].
    exact (IH Hx wy thy eq_refl).
  - injection Hy as <- <-. destruct (IH Hx w1 ths1 eq_refl) as (ls & [Hls Hj] & Hlen & Hall).
    exists ls. split; [|done]. split; [|by apply J_shared]. cbn [fst shared set_shared] in *. rewrite Z.add_assoc.
    by apply (fault_inv s pats nw OK _ (shared w1)).
Qed.
End Run.

(** C15. Blocks that travel over the network.  Network threads with a connection each, the
    slaves that reflect their bytes and any other threads run in any interleaving, over
    connections that deliver what they are given, in pieces of any size, and whose calls may
    fail at any time, with strict checking and the settings of C1 (no [--tag_mode], which the
    network does not allow, no [--force_errors], test memory in one piece), while single words
    of valid blocks at rest may be corrupted, at most one at a time in each 4096-byte piece.
    Then no assertion fails and no transfer loop runs out of its turns (one per
    byte of a page); and when all threads have ended, every corrupted word has been counted
    exactly once or is still in a valid block, so every block marked valid after a transfer
    holds the bytes of its pattern. *)
Theorem network_threads_sound s pats nw fuel nconn masters jobs F0 F (w0 : @NetWorld FineLock.FineLockPEQueue) V0 E0 w ths :
  settings_ok s pats -> 1 <= pages s -> strict s = true ->
  ready_with s pats nw F0 (shared w0) V0 E0 -> net_start s nconn w0 ->
  Forall (net_job_ok nw nconn) masters -> NoDup (map n_conn masters) -> Forall (fun j => job_worker j < nw)%nat jobs ->
  net_run s pats F (w0, net_threads s fuel masters nconn jobs) (w, ths) ->
  (forall i B f c an, ths !! i = Some (Act B f c) -> faithful an -> is_Some (f an w)) /\
  ((forall i q, ths !! i = Some q -> exists r, q = Ret r) -> exists V E, ready_with s pats nw (F0 + F) (shared w) V E).
Proof.
  intros OK Hn Hs Hr Hst Hm Hone Hjobs Hrun.
  pose proof (PageStoreFacts.fine_store_laws (An := Answer) _ (page_length (cfg s)) Hn) as LAWS.
  assert (Hall : all_gsafe faithful True (both shared (Inv s pats nw) (J s)) (fun _ => no_blocks) (F0 + F) (w, ths)).
  { eapply (net_run_ok s pats nw OK Hs fuel nconn masters jobs Hm Hone Hjobs); try done. exists V0, E0. by apply ready_inv. }
  split.
  - intros i B f c an Hi Ha.
    refine (all_gsafe_progress faithful True _ (fun _ => no_blocks) (F0 + F) (w, ths) i B f c an I Hall Hi Ha).
    intros ? ?. by eapply BInv_proper.
  - intros Hend. destruct Hall as (ls & [Hinv _] & Hlen & Hsafe). cbn [fst snd] in *.
    assert (Hc : lefts (concat ls) = []).
    { assert (Hl : Forall (fun R => lefts R = []) ls).
      { apply Forall_lookup. intros i R HR. destruct (lookup_lt_is_Some_2 ths i) as [q Hq];
          [rewrite <- Hlen; by eapply lookup_lt_Some|]. destruct (Hend i q Hq) as (r & ->). exact (Hsafe i _ R Hq HR). }
      clear -Hl. induction Hl as [|R ls HR Hl IH]; [done|]. cbn [concat]. by rewrite lefts_app, HR, IH. }
    rewrite Hc in Hinv. destruct Hinv as (V & E & Hinv). exists V, E. by apply ready_inv.
Qed.

(** *** Samples *)

Definition net_world : @NetWorld FineLock.FineLockPEQueue :=
  mkNetWorld (DiskThread.shared DiskThreadFacts.disk_world) [mkConn [] []] [mkSlaveState 9 (replicate 64 0) false 0] [].
Definition net_answer (run : bool) (size err : Z) : NetAnswer :=
  mkNetAnswer (DiskThread.base (DiskThreadFacts.disk_answer run)) 5 true true size err (fun l => l) 0.
Definition sample_threads : list (Prog NetAnswer (@NetWorld FineLock.FineLockPEQueue) (option bool)) :=
  net_threads DiskThreadFacts.disk_settings 5 [mkNetJob 0 0] 1 [Fill 1 1].

(** One block is filled; it is sent in two pieces, reflected in two pieces and received in two
    pieces; then the program ends, and the slave finds the connection closed. *)
Definition net_schedule : list (nat * NetAnswer) :=
  replicate 100 (2%nat, net_answer true 300 0) ++ replicate 24 (0%nat, net_answer true 300 0) ++
  replicate 7 (1%nat, net_answer true 300 0) ++ replicate 60 (0%nat, net_answer false 300 0) ++
  replicate 10 (1%nat, net_answer false 300 0).

Definition net_end : @NetWorld FineLock.FineLockPEQueue :=
  Eval vm_compute in match run_schedule net_schedule (net_world, sample_threads) with Some (w, _) => w | None => net_world end.

Lemma net_schedule_end :
  run_schedule net_schedule (net_world, sample_threads) = Some (net_end, [Ret (Some true); Ret (Some true); Ret (Some true)]).
Proof. vm_compute. reflexivity. Qed.

Lemma net_run_steps {Q} `{PS : PageStore Answer Q} s pats {A} F (x y z : @NetWorld Q * list (Prog NetAnswer NetWorld A)) :
  net_run s pats F x y -> rtc (pstep_in faithful) y z -> net_run s pats F x z.
Proof. intros H Hs. induction Hs as [|y y' z Hy Hs IH]; [done|]. apply IH. by eapply net_run_step. Qed.

Lemma net_execution :
  net_run DiskThreadFacts.disk_settings sample_pats 0 (net_world, sample_threads)
    (net_end, [Ret (Some true); Ret (Some true); Ret (Some true)]).
Proof.
  apply (net_run_steps DiskThreadFacts.disk_settings sample_pats 0 _ _ _ (net_run_start _ _ _)).
  eapply run_schedule_steps; [|exact net_schedule_end]. unfold net_schedule.
  repeat (apply Forall_app; split); by apply Forall_replicate.
Qed.

Lemma network_threads_sound_witness :
  map pages_copied_ (workers (shared net_end)) = [1; 1] /\ closed net_end = [5; 9] /\
  exists V E, ready_with DiskThreadFacts.disk_settings sample_pats 2 0 (shared net_end) V E.
Proof.
  split; [reflexivity|]. split; [reflexivity|]. destruct DiskThreadFacts.disk_world_ready as (E & Hready).
  destruct (network_threads_sound DiskThreadFacts.disk_settings sample_pats 2 5 1 [mkNetJob 0 0] [Fill 1 1] 0 0 net_world [] E
    net_end [Ret (Some true); Ret (Some true); Ret (Some true)]) as (_ & Hend).
  - apply DiskThreadFacts.disk_settings_ok.
  - discriminate.
  - reflexivity.
  - exact Hready.
  - split; [reflexivity|]. split; [reflexivity|]. constructor; [|constructor].
    split; [reflexivity|]. apply Forall_replicate. lia.
  - constructor; [split; cbn; lia | constructor].
  - constructor; [by intros ?%not_elem_of_nil | constructor].
  - constructor; [cbn; lia | constructor].
  - exact net_execution.
  - apply Hend. intros [|[|[|i]]] q Hq; cbn in Hq; [injection Hq as <-; by eexists .. | discriminate].
Defined.

(** A receive error while the program runs is not reported by [ReceivePage], and one while it
    stops is: the opposite of [SendPage]. *)
Theorem receive_error_reports :
  let failed (run : bool) := run_alone (receive_failed DiskThreadFacts.disk_settings (Master 0) 0 (Block null_pe) 0 (-1))
                               (replicate 5 (net_answer run (-1) 104))
                               (set_shared net_world (set_workers (shared net_world) [mkWorkerState 0 None 0 0 true])) in
  let status (r : option (unit * @NetWorld FineLock.FineLockPEQueue)) :=
    match r with Some (_, w) => Some (map status_ (workers (shared w))) | None => None end in
  status (failed true) = Some [true] /\ status (failed false) = Some [false].
Proof. vm_compute. by split. Qed.

(** A slave whose connection breaks ends with the status of success. *)
Theorem slave_hides_errors :
  match run_alone (SlaveWork DiskThreadFacts.disk_settings 0 5) (replicate 20 (net_answer true (-1) 104)) net_world with
  | Some (r, w) => r = Some true /\ slave_status (slave w 0) = true
  | None => False
  end.
Proof. vm_compute. by split. Qed.

End NetworkThreadFacts.
