(* ===== verification/NetworkListen.v ===== *)
(** The listener: [NetworkListenThread] of [src/src/worker.cc], with the life of the slave
    threads it creates.

    The listener accepts connections and hands each to a new slave thread; when it is told to
    stop it shuts the sockets of all slaves down, joins them and closes what is left.  The
    slaves close their sockets themselves, and other threads open and close descriptors at
    will, so a descriptor number may be reused at any time.  The state has the table of open
    descriptors with their owners, and a log of the calls made on descriptors with the owner
    each of them found.  [step] is one event: the listener goes on, a slave does, or the rest of
    the program opens or closes a descriptor.  The bytes a slave moves are in [NetworkThread]. *)

From S2P Require Import Prelude.

Module NetworkListen.

(** Who a descriptor belongs to. *)
Inductive Owner := Listener | ChildFd (k : nat) | Other.

#[export] Instance owner_eq_dec : EqDecision Owner.
Proof. solve_decision. Defined.

Inductive Op := OpListen | OpAccept | OpShutdown | OpIo | OpClose.

(** A call by [who] on descriptor [fd], which belonged to [found]. *)
Record Call := mkCall { op : Op; who : Owner; fd : Z; found : option Owner }.

(** Where a slave thread is in its [Work]: before it, in its loop, before [CloseOwnedSocket],
    at its end. *)
Inductive Stage := Begin | Loop | Closing | Ended.

#[export] Instance stage_eq_dec : EqDecision Stage.
Proof. solve_decision. Defined.

(** [ChildWorker]: the members of the slave thread, and [sock] and [loops] of its [Work]. *)
Record Child := mkChild {
  sock_ : Z; sock : Z; loops : Z; stage : Stage; child_status : bool; child_errors : Z; child_pages : Z
}.

(** Where the listener is in its [Work]. *)
Inductive Pc :=
| Create | Listening | Testing | Waiting | Accepting | Spawning (newsock : Z)
| Shutting (i : nat) | Joining (i : nat) | Clearing | Done.

(** An open descriptor has an owner and may be shut down. *)
Record State := mkState {
  pc : Pc; listen_sock : Z; threadcount : nat; result : bool; child_workers_ : list Child;
  errorcount_ : Z; pages_copied_ : Z; status_ : bool;
  table : gmap Z (Owner * bool); log : list Call
}.

(** ** Changes of the state *)

Definition set_pc (st : State) (p : Pc) : State :=
  mkState p (listen_sock st) (threadcount st) (result st) (child_workers_ st) (errorcount_ st) (pages_copied_ st) (status_ st) (table st) (log st).
Definition set_sock (st : State) (s : Z) : State :=
  mkState (pc st) s (threadcount st) (result st) (child_workers_ st) (errorcount_ st) (pages_copied_ st) (status_ st) (table st) (log st).
Definition set_result (st : State) (r : bool) : State :=
  mkState (pc st) (listen_sock st) (threadcount st) r (child_workers_ st) (errorcount_ st) (pages_copied_ st) (status_ st) (table st) (log st).
Definition set_children (st : State) (n : nat) (cs : list Child) : State :=
  mkState (pc st) (listen_sock st) n (result st) cs (errorcount_ st) (pages_copied_ st) (status_ st) (table st) (log st).
Definition set_counts (st : State) (e p : Z) : State :=
  mkState (pc st) (listen_sock st) (threadcount st) (result st) (child_workers_ st) e p (status_ st) (table st) (log st).
Definition set_status (st : State) (s : bool) : State :=
  mkState (pc st) (listen_sock st) (threadcount st) (result st) (child_workers_ st) (errorcount_ st) (pages_copied_ st) s (table st) (log st).
Definition set_table (st : State) (t : gmap Z (Owner * bool)) (l : list Call) : State :=
  mkState (pc st) (listen_sock st) (threadcount st) (result st) (child_workers_ st) (errorcount_ st) (pages_copied_ st) (status_ st) t l.

(** ** Calls on descriptors *)

Definition call (st : State) (o : Op) (w : Owner) (f : Z) (t : gmap Z (Owner * bool)) : State :=
  set_table st t (log st ++ [mkCall o w f (fst <$> table st !! f)]).

Definition close (st : State) (w : Owner) (f : Z) : State := call st OpClose w f (delete f (table st)).
Definition shutdown (st : State) (w : Owner) (f : Z) : State :=
  call st OpShutdown w f (alter (fun x => (x.1, true)) f (table st)).
Definition use (st : State) (o : Op) (w : Owner) (f : Z) : State := call st o w f (table st).

(** A call that returns a new descriptor: any number that is not in use. *)
Definition open (st : State) (w : Owner) (f : Z) : option State :=
  if (0 <=? f) && bool_decide (table st !! f = None) then Some (set_table st (<[f := (w, false)]> (table st)) (log st)) else None.

(** ** The slave's socket *)

Definition with_sock (c : Child) (s : Z) : Child :=
  mkChild s (sock c) (loops c) (stage c) (child_status c) (child_errors c) (child_pages c).
Definition new_child (newsock : Z) : Child := mkChild newsock 0 0 Begin false 0 0.

(** [ShutdownSocket] and [CloseOwnedSocket] of slave [k], each under its [socket_lock_]. *)
Definition ShutdownSocket (st : State) (k : nat) (c : Child) : State :=
  if 0 <? sock_ c then shutdown st (ChildFd k) (sock_ c) else st.
Definition CloseOwnedSocket (st : State) (k : nat) (c : Child) : State * Child :=
  if 0 <? sock_ c then (close st (ChildFd k) (sock_ c), with_sock c 0) else (st, c).

(** [delete child_worker], with the destructor of the slave thread. *)
Definition delete_child (x : State * Child) (k : nat) : State := (CloseOwnedSocket x.1 k x.2).1.

Fixpoint delete_children (st : State) (k : nat) (cs : list Child) : State :=
  match cs with
  | [] => st
  | c :: cs => delete_children (delete_child (st, c) k) (S k) cs
  end.

(** ** The listener *)

Definition CloseSocket (st : State) (s : Z) : State := close st Listener s.

(** [CreateSocket]: the result of [socket]. *)
Definition CreateSocket (st : State) (s : Z) : option State :=
  if s =? -1 then Some (set_status (set_counts st (errorcount_ st) 0) false)
  else match open st Listener s with
       | Some st => Some (set_sock st s)
       | None => None
       end.

(** [Listen]: whether [bind] and [listen] succeed. *)
Definition Listen (st : State) (bind_ok listen_ok : bool) : bool * State :=
  let st := use st OpListen Listener (listen_sock st) in
  if negb bind_ok then (false, set_status (set_counts st (errorcount_ st) 0) false)
  else if negb listen_ok then (false, set_status (set_counts st (errorcount_ st) 0) false)
  else (true, st).

(** [Wait]: the results of its calls of [select]; [None] when it is still waiting. *)
Inductive Selected := Returned (retval : Z) | Interrupted (ready : bool) | Failed.

Fixpoint Wait (calls : list Selected) : option Z :=
  match calls with
  | [] => None
  | Returned retval :: _ => Some (if 0 <? retval then 1 else 0)
  | Interrupted ready :: calls => if ready then Wait calls else Some 0
  | Failed :: _ => Some (-1)
  end.

(** [GetConnection]: the result of [accept]. *)
Definition GetConnection (st : State) (newsock : Z) : option (option Z * State) :=
  let st := use st OpAccept Listener (listen_sock st) in
  if newsock <? 0 then Some (None, set_status (set_counts st (errorcount_ st) 0) false)
  else match open st (ChildFd (threadcount st)) newsock with
       | Some st => Some (Some newsock, st)
       | None => None
       end.

(** [SpawnSlave]: whether [SpawnThread] succeeds. *)
Definition SpawnSlave (st : State) (newsock : Z) (spawned : bool) : bool * State :=
  let k := threadcount st in
  if spawned then (true, set_children st k (child_workers_ st ++ [new_child newsock]))
  else (false, delete_child (CloseOwnedSocket st k (new_child newsock)) k).

(** One slave of [ReapSlaves], after [JoinThread] has returned. *)
Definition reap (st : State) (k : nat) (c : Child) : State :=
  let '(st, c) := CloseOwnedSocket st k c in
  let st := set_children st (threadcount st) (<[k := c]> (child_workers_ st)) in
  let st := if child_status c then st else set_result st false in
  set_counts st (errorcount_ st + child_errors c) (pages_copied_ st + child_pages c).

(** What the listener learns from its surroundings. *)
Inductive ListenerEvent :=
| EvSocket (s : Z) | EvListen (bind_ok listen_ok : bool) | EvTest (go : bool) | EvWait (calls : list Selected)
| EvAccept (newsock : Z) | EvSpawn (spawned : bool) | EvNext.

(** One step of [Work]; [None]: not an event it can have here. *)
Definition listener_step (st : State) (e : ListenerEvent) : option State :=
  match pc st, e with
  | Create, EvSocket s =>
      match CreateSocket st s with
      | None => None
      | Some st => Some (if s =? -1 then set_pc (set_status st false) Done else set_pc st Listening)
      end
  | Listening, EvListen b l =>
      let '(ok, st) := Listen st b l in
      Some (if ok then set_pc st Testing else set_pc (set_status (CloseSocket st (listen_sock st)) false) Done)
  | Testing, EvTest go => Some (set_pc st (if go then Waiting else Shutting 0))
  | Waiting, EvWait calls =>
      match Wait calls with
      | None => None
      | Some r => Some (if r <? 0 then set_pc (set_result st false) (Shutting 0)
                        else if 0 <? r then set_pc st Accepting else set_pc st Testing)
      end
  | Accepting, EvAccept s =>
      match GetConnection st s with
      | None => None
      | Some (Some newsock, st) => Some (set_pc st (Spawning newsock))
      | Some (None, st) => Some (set_pc (set_result st false) (Shutting 0))
      end
  | Spawning newsock, EvSpawn spawned =>
      let '(ok, st) := SpawnSlave st newsock spawned in
      Some (if ok then set_pc (set_children st (S (threadcount st)) (child_workers_ st)) Testing
            else set_pc (set_result st false) (Shutting 0))
  | Shutting i, EvNext =>
      match child_workers_ st !! i with
      | Some c => Some (set_pc (ShutdownSocket st i c) (Shutting (S i)))
      | None => Some (set_pc st (Joining 0))
      end
  | Joining i, EvNext =>
      match child_workers_ st !! i with
      | Some c => if bool_decide (stage c = Ended) then Some (set_pc (reap st i c) (Joining (S i))) else None
      | None => Some (set_pc st Clearing)
      end
  | Clearing, EvNext =>
      let st := set_children (delete_children st 0 (child_workers_ st)) (threadcount st) [] in
      let st := CloseSocket st (listen_sock st) in
      Some (set_pc (set_status st (result st)) Done)
  | _, _ => None
  end.

(** ** A slave *)

Inductive ChildEvent := EvBegin (memalign_ok : bool) | EvIo (page : bool) | EvFail | EvClose.

Definition set_child (st : State) (k : nat) (c : Child) : State :=
  set_children st (threadcount st) (<[k := c]> (child_workers_ st)).

(** [EvIo] is a [recv] or [send] that moves bytes, [page] when a page has been sent back with
    it; [EvFail] is one that fails, as every call does on a socket that is shut down. *)
Definition child_step (st : State) (k : nat) (c : Child) (e : ChildEvent) : option State :=
  match stage c, e with
  | Begin, EvBegin ok =>
      let s := sock_ c in
      Some (set_child st k
        (if s =? 0 then mkChild s s 0 Ended false (child_errors c) (child_pages c)
         else if ok then mkChild s s 0 Loop (child_status c) (child_errors c) (child_pages c)
         else mkChild s s 0 Closing false (child_errors c) (child_pages c)))
  | Loop, EvIo page =>
      match table st !! sock c with
      | Some (_, true) => None
      | _ => let st := use st OpIo (ChildFd k) (sock c) in
             Some (set_child st k (mkChild (sock_ c) (sock c) (loops c + if page then 1 else 0) Loop (child_status c)
                                     (child_errors c) (child_pages c)))
      end
  | Loop, EvFail =>
      let st := use st OpIo (ChildFd k) (sock c) in
      Some (set_child st k (mkChild (sock_ c) (sock c) (loops c) Closing true (child_errors c) (loops c)))
  | Closing, EvClose =>
      let '(st, c) := CloseOwnedSocket st k c in
      Some (set_child st k (mkChild (sock_ c) (sock c) (loops c) Ended (child_status c) (child_errors c) (child_pages c)))
  | _, _ => None
  end.

(** ** The whole *)

Inductive Event :=
| OfListener (e : ListenerEvent) | OfChild (k : nat) (e : ChildEvent) | OtherOpens (f : Z) | OtherCloses (f : Z).

Definition step (st : State) (e : Event) : option State :=
  match e with
  | OfListener e => listener_step st e
  | OfChild k e => match child_workers_ st !! k with Some c => child_step st k c e | None => None end
  | OtherOpens f => open st Other f
  | OtherCloses f => if bool_decide (fst <$> table st !! f = Some Other) then Some (close st Other f) else None
  end.

Fixpoint run (st : State) (es : list Event) : option State :=
  match es with
  | [] => Some st
  | e :: es => match step st e with Some st => run st es | None => None end
  end.

(** The state at the beginning of [Work], with the descriptors of the rest of the program. *)
Definition start (t : gmap Z (Owner * bool)) : State := mkState Create 0 0 true [] 0 0 false t [].

End NetworkListen.

Module NetworkListenFacts.
Import NetworkListen.

(** ** Descriptors *)

Abbreviation Table := (gmap Z (Owner * bool)).

Definition owner (t : Table) (f : Z) : option Owner := fst <$> t !! f.

Lemma owner_delete t f g : owner (delete f t) g = if decide (f = g) then None else owner t g.
Proof. unfold owner. case_decide; [subst; by rewrite lookup_delete_eq | by rewrite lookup_delete_ne]. Qed.

Lemma owner_insert t f x g : owner (<[f := x]> t) g = if decide (f = g) then Some x.1 else owner t g.
Proof. unfold owner. case_decide; [subst; by rewrite lookup_insert_eq | by rewrite lookup_insert_ne]. Qed.

Lemma owner_alter t f g : owner (alter (fun x => (x.1, true)) f t) g = owner t g.
Proof.
  unfold owner. destruct (decide (f = g)) as [->|]; [|by rewrite lookup_alter_ne].
  rewrite lookup_alter_eq. by destruct (t !! g).
Qed.

(** The call was made by the owner of the descriptor. *)
Definition call_ok (c : Call) : Prop := found c = Some (who c).

(** What is true of slave [k]. *)
Definition child_ok (t : Table) (k : nat) (c : Child) : Prop :=
  0 <= sock_ c /\ (0 < sock_ c -> owner t (sock_ c) = Some (ChildFd k)) /\
  match stage c with
  | Begin => True
  | Loop | Closing => sock c = sock_ c /\ 0 < sock_ c
  | Ended => sock_ c = 0
  end.

(** The slaves, the table and the log; [sp] is a connection that has no slave yet, [ls] the
    socket of the listener. *)
Record core (cs : list Child) (t : Table) (l : list Call) (sp ls : option Z) : Prop := {
  c_log : Forall call_ok l;
  c_child : forall k c, cs !! k = Some c -> child_ok t k c;
  c_owned : forall f k, owner t f = Some (ChildFd k) ->
    f = 0 \/ (exists c, cs !! k = Some c /\ sock_ c = f) \/ (sp = Some f /\ k = length cs);
  c_listener : forall f, owner t f = Some Listener <-> ls = Some f;
  c_spawn : forall f, sp = Some f -> 0 <= f /\ owner t f = Some (ChildFd (length cs))
}.

Section Core.
Context {cs : list Child} {t : Table} {l : list Call} {sp ls : option Z} (H : core cs t l sp ls).

Lemma core_call o w f : owner t f = Some w -> core cs t (l ++ [mkCall o w f (owner t f)]) sp ls.
Proof using H. intros Hw. destruct H as [H1 H2 H3 H4 H5]. split; try done. apply Forall_app. split; [done | by repeat constructor]. Qed.

(** The table changes where no slave and no listener is concerned. *)
Lemma core_table t' :
  (forall f w, w <> Other -> owner t' f = Some w <-> owner t f = Some w) -> core cs t' l sp ls.
Proof using H.
  intros Ht. destruct H as [H1 H2 H3 H4 H5]. split; [done | | | |].
  - intros k c Hc. destruct (H2 k c Hc) as (Hp & Ho & Hst). split; [done|]. split; [|done]. intros Hs. by apply Ht, Ho.
  - intros f k Hf. apply H3. by apply Ht in Hf.
  - intros f. by rewrite Ht.
  - intros f Hf. destruct (H5 f Hf) as [? ?]. split; [done|]. by apply Ht.
Qed.

(** A slave goes on with its socket. *)
Lemma core_child k c c' : cs !! k = Some c -> sock_ c' = sock_ c -> child_ok t k c' -> core (<[k := c']> cs) t l sp ls.
Proof using H.
  intros Hc Hs Hok. pose proof (lookup_lt_Some _ _ _ Hc) as Hlt. destruct H as [H1 H2 H3 H4 H5]. split; [done | | | done |].
  - intros j d Hd. destruct (decide (k = j)) as [<-|Hne].
    + rewrite list_lookup_insert_eq in Hd by done. by injection Hd as <-.
    + rewrite list_lookup_insert_ne in Hd by done. by apply H2.
  - intros f j Hf. rewrite length_insert. destruct (H3 f j Hf) as [?|[(d & Hd & He)|?]]; [by left | | by right; right].
    right. left. destruct (decide (k = j)) as [<-|Hne].
    + exists c'. rewrite list_lookup_insert_eq by done. split; [done|]. rewrite Hc in Hd. injection Hd as <-. by rewrite Hs.
    + exists d. by rewrite list_lookup_insert_ne.
  - intros f. rewrite length_insert. apply H5.
Qed.

(** A slave gives its socket up. *)
Lemma core_release k c c' :
  cs !! k = Some c -> 0 < sock_ c -> sock_ c' = 0 -> stage c' = Ended ->
  core (<[k := c']> cs) (delete (sock_ c) t) (l ++ [mkCall OpClose (ChildFd k) (sock_ c) (owner t (sock_ c))]) sp ls.
Proof using H.
  intros Hc Hpos H0 Hst. pose proof (lookup_lt_Some _ _ _ Hc) as Hlt. destruct H as [H1 H2 H3 H4 H5].
  destruct (H2 k c Hc) as (_ & Ho & _). specialize (Ho Hpos). split.
  - apply Forall_app. split; [done | by repeat constructor].
  - intros j d Hd. destruct (decide (k = j)) as [<-|Hne].
    + rewrite list_lookup_insert_eq in Hd by done. injection Hd as <-. split; [lia|]. split; [lia | by rewrite Hst].
    + rewrite list_lookup_insert_ne in Hd by done. destruct (H2 j d Hd) as (Hp & Hod & Hsd). split; [done|]. split; [|done].
      intros Hs. rewrite owner_delete, decide_False; [by apply Hod|]. intros He. specialize (Hod Hs). rewrite <- He in Hod. congruence.
  - intros f j. rewrite owner_delete, length_insert. case_decide as Hf; [done|]. intros Hoj.
    destruct (H3 f j Hoj) as [?|[(d & Hd & He)|?]]; [by left | | by right; right]. right. left.
    destruct (decide (k = j)) as [<-|Hne].
    + rewrite Hc in Hd. injection Hd as <-. done.
    + exists d. by rewrite list_lookup_insert_ne.
  - intros f. rewrite owner_delete. case_decide as Hf; [|done]. subst f. split; [done|]. intros Hf%H4. congruence.
  - intros f Hf. rewrite owner_delete, length_insert. destruct (H5 f Hf) as [Hp Hof]. split; [done|].
    rewrite decide_False; [done|]. intros <-. rewrite Ho in Hof. injection Hof as ->. lia.
Qed.

(** A descriptor is opened. *)
Lemma core_open f w sp' ls' :
  owner t f = None -> 0 <= f ->
  (w = Other /\ sp' = sp /\ ls' = ls) \/ (w = Listener /\ sp' = sp /\ ls = None /\ ls' = Some f) \/
  (w = ChildFd (length cs) /\ sp = None /\ sp' = Some f /\ ls' = ls) ->
  core cs (<[f := (w, false)]> t) l sp' ls'.
Proof using H.
  intros Hn Hf Hw. destruct H as [H1 H2 H3 H4 H5]. split; [done | | | |].
  - intros k c Hc. destruct (H2 k c Hc) as (Hp & Ho & Hst). split; [done|]. split; [|done]. intros Hs.
    rewrite owner_insert, decide_False; [by apply Ho|]. intros ->. specialize (Ho Hs). congruence.
  - intros g k. rewrite owner_insert. case_decide as Hg.
    + cbn. intros [= ->]. destruct Hw as [[? _]|[[? _]|(He & _ & -> & _)]]; [done | done|]. injection He as ->. subst g. by right; right.
    + intros Ho. destruct (H3 g k Ho) as [?|[?|[Hsp ?]]]; [by left | by right; left|].
      destruct Hw as [(_ & -> & _)|[(_ & -> & _)|(_ & Hnone & _)]]; [by right; right | by right; right | congruence].
  - intros g. rewrite owner_insert. case_decide as Hg.
    + subst g. cbn. destruct Hw as [(-> & _ & ->)|[(-> & _ & _ & ->)|(-> & _ & _ & ->)]].
      * split; [done|]. intros He%H4. congruence.
      * done.
      * split; [done|]. intros He%H4. congruence.
    + rewrite H4. destruct Hw as [(_ & _ & ->)|[(_ & _ & -> & ->)|(_ & _ & _ & ->)]]; [done | | done].
      split; [done|]. by intros [= ->].
  - intros g Hg. rewrite owner_insert. destruct Hw as [(_ & -> & _)|[(_ & -> & _)|(-> & Hnone & -> & _)]].
    1, 2: destruct (H5 g Hg) as [? Ho]; split; [done|]; rewrite decide_False; [done|]; intros ->; congruence.
    injection Hg as <-. by rewrite decide_True.
Qed.

(** The listener or the rest of the program closes a descriptor of its own. *)
Lemma core_close f w ls' :
  owner t f = Some w -> (w = Other /\ ls' = ls) \/ (w = Listener /\ ls' = None) ->
  core cs (delete f t) (l ++ [mkCall OpClose w f (owner t f)]) sp ls'.
Proof using H.
  intros Ho Hw. assert (Hne : forall k, w <> ChildFd k) by (intros k ->; by destruct Hw as [[? _]|[? _]]).
  destruct H as [H1 H2 H3 H4 H5]. split.
  - apply Forall_app. split; [done | by repeat constructor].
  - intros k c Hc. destruct (H2 k c Hc) as (Hp & Hoc & Hst). split; [done|]. split; [|done]. intros Hs.
    rewrite owner_delete, decide_False; [by apply Hoc|]. intros ->. specialize (Hoc Hs). rewrite Ho in Hoc. injection Hoc as ->. by eapply Hne.
  - intros g k. rewrite owner_delete. case_decide; [done | apply H3].
  - intros g. rewrite owner_delete. destruct Hw as [[-> ->]|[-> ->]].
    + case_decide as Hg; [|apply H4]. subst g. split; [done|]. intros He%H4. congruence.
    + split; [|done]. case_decide as Hg; [done|]. intros Hl%H4. apply H4 in Ho. congruence.
  - intros g Hg. destruct (H5 g Hg) as [Hp Hog]. split; [done|]. rewrite owner_delete, decide_False; [done|].
    intros ->. rewrite Ho in Hog. injection Hog as ->. by eapply Hne.
Qed.

(** A connection gets its slave ... *)
Lemma core_spawned f : sp = Some f -> core (cs ++ [new_child f]) t l None ls.
Proof using H.
  intros Hsp. destruct H as [H1 H2 H3 H4 H5]. destruct (H5 f Hsp) as [Hf Ho]. split; [done | | | done | done].
  - intros k c [Hc|[Hk Hc]]%lookup_app_Some; [by apply H2|]. apply list_lookup_singleton_Some in Hc as [Hk0 <-].
    assert (k = length cs) as -> by lia. by split.
  - intros g k Hg. destruct (H3 g k Hg) as [?|[(c & Hc & He)|[Hsp' ->]]]; [by left | |].
    + right. left. exists c. split; [|done]. by apply lookup_app_l_Some.
    + right. left. exists (new_child f). rewrite lookup_app_r, Nat.sub_diag by done. split; [done|]. cbn. congruence.
Qed.

(** ... or is closed. *)
Lemma core_refused f :
  sp = Some f -> 0 < f -> core cs (delete f t) (l ++ [mkCall OpClose (ChildFd (length cs)) f (owner t f)]) None ls.
Proof using H.
  intros Hsp Hpos. destruct H as [H1 H2 H3 H4 H5]. destruct (H5 f Hsp) as [Hf Ho]. split.
  - apply Forall_app. split; [done | by repeat constructor].
  - intros k c Hc. destruct (H2 k c Hc) as (Hp & Hoc & Hst). split; [done|]. split; [|done]. intros Hs.
    rewrite owner_delete, decide_False; [by apply Hoc|]. intros ->. specialize (Hoc Hs). rewrite Ho in Hoc. injection Hoc as <-.
    apply lookup_lt_Some in Hc. lia.
  - intros g k. rewrite owner_delete. case_decide as Hg; [done|]. intros Hok.
    destruct (H3 g k Hok) as [?|[?|[Hsp' _]]]; [by left | by right; left | congruence].
  - intros g. rewrite owner_delete. case_decide as Hg; [|done]. subst g. split; [done|]. intros Hl%H4. congruence.
  - done.
Qed.

Lemma core_refused_zero : sp = Some 0 -> core cs t l None ls.
Proof using H.
  intros Hsp. destruct H as [H1 H2 H3 H4 H5]. split; try done. intros g k Hg.
  destruct (H3 g k Hg) as [?|[?|[Hsp' _]]]; [by left | by right; left | left; congruence].
Qed.

(** The slaves are deleted. *)
Lemma core_clear : (forall k c, cs !! k = Some c -> stage c = Ended) -> sp = None -> core [] t l None ls.
Proof using H.
  intros He Hsp. destruct H as [H1 H2 H3 H4 H5]. split; try done. intros g k Hg.
  destruct (H3 g k Hg) as [?|[(c & Hc & Hs)|[Hsp' _]]]; [by left | | congruence].
  destruct (H2 k c Hc) as (_ & _ & Hst). rewrite (He k c Hc) in Hst. left. congruence.
Qed.
End Core.

(** ** The invariant *)

Definition spawning_of (p : Pc) : option Z := match p with Spawning f => Some f | _ => None end.
Definition listener_of (p : Pc) (s : Z) : option Z := match p with Create | Done => None | _ => Some s end.

(** The socket of a slave is shut down, or closed. *)
Definition down (t : Table) (c : Child) : Prop := 0 < sock_ c -> snd <$> t !! sock_ c = Some true.

Definition total (f : Child -> Z) (cs : list Child) : Z := foldr Z.add 0 (map f cs).

(** The results of the first [n] slaves have been collected. *)
Definition joined (st : State) (n : nat) : Prop :=
  let cs := take n (child_workers_ st) in
  pages_copied_ st = total child_pages cs /\ errorcount_ st = total child_errors cs /\
  (result st = true -> Forall (fun c => child_status c = true) cs).

Definition phase (st : State) : Prop :=
  let cs := child_workers_ st in
  match pc st with
  | Shutting i => joined st 0 /\ forall k c, (k < i)%nat -> cs !! k = Some c -> down (table st) c
  | Joining i => joined st i /\ (forall k c, cs !! k = Some c -> down (table st) c) /\
                 forall k c, (k < i)%nat -> cs !! k = Some c -> stage c = Ended
  | Clearing => joined st (length cs) /\ forall k c, cs !! k = Some c -> stage c = Ended
  | Create | Listening => cs = [] /\ joined st 0
  | Done => cs = []
  | _ => joined st 0
  end.

Record good (st : State) : Prop := {
  g_core : core (child_workers_ st) (table st) (log st) (spawning_of (pc st)) (listener_of (pc st) (listen_sock st));
  g_count : pc st <> Done -> length (child_workers_ st) = threadcount st;
  g_phase : phase st
}.

Lemma down_ext t t' c : (0 < sock_ c -> t' !! sock_ c = t !! sock_ c) -> down t c -> down t' c.
Proof. intros He Hd Hs. rewrite He by done. by apply Hd. Qed.

(** Slaves and descriptors change, but not slaves that have ended. *)
Lemma phase_frame st st' :
  pc st' = pc st -> pages_copied_ st' = pages_copied_ st -> errorcount_ st' = errorcount_ st -> result st' = result st ->
  length (child_workers_ st') = length (child_workers_ st) ->
  (forall k c', child_workers_ st' !! k = Some c' -> exists c, child_workers_ st !! k = Some c /\
     (c' = c \/ stage c <> Ended) /\ (down (table st) c -> down (table st') c')) ->
  phase st -> phase st'.
Proof.
  intros Hpc Hp He Hr Hl Hcs. unfold phase, joined. cbv zeta. rewrite Hpc, Hp, He, Hr.
  assert (Htake : forall n, (forall k c, (k < n)%nat -> child_workers_ st !! k = Some c -> stage c = Ended) ->
    take n (child_workers_ st') = take n (child_workers_ st)).
  { intros n Hn. apply list_eq. intros k. destruct (decide (k < n)%nat) as [Hk|Hk];
      [|by rewrite !lookup_take_ge by lia]. rewrite !lookup_take_lt by done.
    destruct (child_workers_ st' !! k) as [c'|] eqn:Hc'.
    - destruct (Hcs k c' Hc') as (c & Hc & [->|Hne] & _); [done|]. by destruct Hne; apply (Hn k c).
    - apply lookup_ge_None in Hc'. symmetry. apply lookup_ge_None. lia. }
  destruct (pc st) as [| | | | |f|i|i| |]; try done.
  1, 2: intros [Hnil Hj]; rewrite Hnil in Hl; by destruct (child_workers_ st').
  - intros [Hj Hd]. split; [done|]. intros k c' Hk Hc'. destruct (Hcs k c' Hc') as (c & Hc & _ & Hdn). by apply Hdn, (Hd k).
  - intros (Hj & Hd & Hend). rewrite (Htake i Hend). split; [done|]. split.
    + intros k c' Hc'. destruct (Hcs k c' Hc') as (c & Hc & _ & Hdn). by apply Hdn, (Hd k).
    + intros k c' Hk Hc'. destruct (Hcs k c' Hc') as (c & Hc & [->|Hne] & _); [by apply (Hend k)|]. by destruct Hne; apply (Hend k).
  - intros [Hj Hend]. rewrite Hl, (Htake _ (fun k c _ => Hend k c)). split; [done|].
    intros k c' Hc'. destruct (Hcs k c' Hc') as (c & Hc & [->|Hne] & _); [by apply (Hend k)|]. by destruct Hne; apply (Hend k).
  - intros Hnil. rewrite Hnil in Hl. by destruct (child_workers_ st').
Qed.

(** *** Slaves *)

(** A change of slave [k] that keeps its socket. *)
Lemma good_child st k c c' l :
  good st -> child_workers_ st !! k = Some c -> stage c <> Ended -> sock_ c' = sock_ c -> child_ok (table st) k c' ->
  core (child_workers_ st) (table st) l (spawning_of (pc st)) (listener_of (pc st) (listen_sock st)) ->
  good (set_child (set_table st (table st) l) k c').
Proof.
  intros Hg Hc Hst Hs Hok Hcore. split; cbn.
  - by eapply core_child.
  - rewrite length_insert. apply Hg.
  - apply (phase_frame st); try done; cbn; [by rewrite length_insert | |apply Hg].
    intros j d Hd. destruct (decide (k = j)) as [<-|Hne].
    + rewrite list_lookup_insert_eq in Hd by (by eapply lookup_lt_Some). injection Hd as <-. exists c.
      split; [done|]. split; [by right|]. unfold down. by rewrite Hs.
    + rewrite list_lookup_insert_ne in Hd by done. exists d. split; [done|]. split; [by left | done].
Qed.

Lemma child_step_good st k c e st' :
  good st -> child_workers_ st !! k = Some c -> child_step st k c e = Some st' -> good st'.
Proof.
  intros Hg Hc. destruct (c_child _ _ _ _ _ (g_core _ Hg) k c Hc) as (Hp & Ho & Hst). unfold child_step.
  destruct (stage c) eqn:Hs, e as [ok|page| |]; try done.
  - intros [= <-]. apply (good_child st k c _ (log st)); try done; [congruence | destruct (_ =? _); [done | by destruct ok] | |apply Hg].
    destruct (Z.eqb_spec (sock_ c) 0) as [H0|H0]; [split; [done|]; by split|]. destruct ok; (split; [done|]; split; [done|]; cbn; lia).
  - destruct Hst as [Hsock Hpos]. intros Hstep. assert (Hst' : st' = set_child (use st OpIo (ChildFd k) (sock c)) k
      (mkChild (sock_ c) (sock c) (loops c + if page then 1 else 0) Loop (child_status c) (child_errors c) (child_pages c))).
    { destruct (table st !! sock c) as [[w []]|]; [done | by injection Hstep as <- ..]. }
    subst st'. apply good_child with (c := c); try done; [congruence|]. fold (owner (table st) (sock c)).
    apply core_call; [apply Hg|]. rewrite Hsock. by apply Ho.
  - destruct Hst as [Hsock Hpos]. intros [= <-]. apply good_child with (c := c); try done; [congruence|]. fold (owner (table st) (sock c)).
    apply core_call; [apply Hg|]. rewrite Hsock. by apply Ho.
  - destruct Hst as [Hsock Hpos]. unfold CloseOwnedSocket. rewrite (proj2 (Z.ltb_lt _ _) Hpos). intros [= <-]. split; cbn.
    + by apply (core_release (g_core _ Hg) k c).
    + rewrite length_insert. apply Hg.
    + apply (phase_frame st); try done; cbn; [by rewrite length_insert | |apply Hg]. intros j d Hd.
      destruct (decide (k = j)) as [<-|Hne].
      * rewrite list_lookup_insert_eq in Hd by (by eapply lookup_lt_Some). injection Hd as <-. exists c.
        split; [done|]. split; [right; congruence|]. unfold down. cbn. lia.
      * rewrite list_lookup_insert_ne in Hd by done. exists d. split; [done|]. split; [by left|]. apply down_ext. intros Hsd.
        apply lookup_delete_ne. intros He. destruct (c_child _ _ _ _ _ (g_core _ Hg) j d Hd) as (_ & Hod & _).
        specialize (Hod Hsd). specialize (Ho Hpos). rewrite <- He in Hod. congruence.
Qed.

(** *** The rest of the program *)

(** The table changes at a descriptor that is not a slave's. *)
Lemma good_elsewhere st f t l :
  good st -> (forall k, owner (table st) f <> Some (ChildFd k)) -> (forall g, g <> f -> t !! g = table st !! g) ->
  core (child_workers_ st) t l (spawning_of (pc st)) (listener_of (pc st) (listen_sock st)) -> good (set_table st t l).
Proof.
  intros Hg Hf Ht Hc. split; cbn; [done | apply Hg|]. apply (phase_frame st); try done; [|apply Hg].
  intros k c Hk. exists c. split; [done|]. split; [by left|]. apply down_ext. intros Hs. apply Ht. intros He.
  destruct (c_child _ _ _ _ _ (g_core _ Hg) k c Hk) as (_ & Ho & _). apply (Hf k). rewrite <- He. by apply Ho.
Qed.

Lemma open_spec st w f st' : open st w f = Some st' -> 0 <= f /\ owner (table st) f = None /\ st' = set_table st (<[f := (w, false)]> (table st)) (log st).
Proof.
  unfold open, owner. destruct (0 <=? f) eqn:Hf; [|done]. apply Z.leb_le in Hf. case_bool_decide as Hn; [|done].
  intros [= <-]. by rewrite Hn.
Qed.

(** *** The listener *)

Lemma delete_ended st k cs : Forall (fun c => sock_ c = 0) cs -> delete_children st k cs = st.
Proof.
  intros H. revert k. induction H as [|c cs Hc H IH]; intros k; [done|]. cbn. unfold delete_child, CloseOwnedSocket. cbn.
  rewrite Hc. cbn. apply IH.
Qed.

(** A step that changes neither slaves nor descriptors. *)
Lemma good_move st st' :
  good st -> child_workers_ st' = child_workers_ st -> table st' = table st -> log st' = log st ->
  spawning_of (pc st') = spawning_of (pc st) -> listener_of (pc st') (listen_sock st') = listener_of (pc st) (listen_sock st) ->
  threadcount st' = threadcount st -> pc st <> Done -> phase st' -> good st'.
Proof.
  intros [H1 H2 H3] Hc Ht Hl Hsp Hls Hn Hd Hp. split; [by rewrite Hc, Ht, Hl, Hsp, Hls | | done].
  intros _. rewrite Hc, Hn. by apply H2.
Qed.

Lemma total_snoc f cs c : total f (cs ++ [c]) = total f cs + f c.
Proof. unfold total. induction cs as [|d cs IH]; cbn [app map foldr] in *; lia. Qed.

Lemma joined_next st i c :
  joined st i -> child_workers_ st !! i = Some c -> sock_ c = 0 ->
  joined (reap st i c) (S i) /\ child_workers_ (reap st i c) = child_workers_ st /\ table (reap st i c) = table st /\
  log (reap st i c) = log st /\ threadcount (reap st i c) = threadcount st /\ listen_sock (reap st i c) = listen_sock st.
Proof.
  intros (Hp & He & Hr) Hc Hs.
  assert (Heq : reap st i c = mkState (pc st) (listen_sock st) (threadcount st) (if child_status c then result st else false)
    (child_workers_ st) (errorcount_ st + child_errors c) (pages_copied_ st + child_pages c) (status_ st) (table st) (log st)).
  { unfold reap, CloseOwnedSocket. rewrite Hs. cbn [Z.ltb Z.compare]. destruct (child_status c); cbn; by rewrite (list_insert_id _ _ _ Hc). }
  rewrite Heq. split; [|done]. unfold joined. cbn [child_workers_ pages_copied_ errorcount_ result]. cbv zeta.
  rewrite (take_S_r _ _ _ Hc), !total_snoc, <- Hp, <- He. split; [done|]. split; [done|].
  destruct (child_status c) eqn:Hst; [|done]. intros Ht. apply Forall_app. split; [by apply Hr | by constructor].
Qed.

Lemma listener_step_good st e st' : good st -> listener_step st e = Some st' -> good st'.
Proof.
  intros Hg. pose proof (g_core _ Hg) as Hcore. pose proof (g_count _ Hg) as Hcount. pose proof (g_phase _ Hg) as Hphase.
  unfold listener_step. unfold phase in Hphase. cbv zeta in Hphase.
  destruct (pc st) as [| | | | |f|i|i| |] eqn:Hpc, e as [s|b l|go|calls|s|spawned|]; try done; cbn [spawning_of listener_of] in Hcore.
  - (* CreateSocket *) unfold CreateSocket. destruct Hphase as [Hnil Hj]. destruct (Z.eqb_spec s (-1)) as [->|Hs].
    + intros [= <-]. split; cbn; [exact Hcore | done | done].
    + destruct (open st Listener s) as [st1|] eqn:Ho; [|done]. apply open_spec in Ho as (H0 & Hn & ->). intros [= <-].
      split; cbn; [|by intros _; apply Hcount | by split]. apply (core_open Hcore); [done | done|]. right. left. done.
  - (* Listen *) unfold Listen. destruct Hphase as [Hnil Hj].
    assert (Hu : core (child_workers_ st) (table st) (log st ++ [mkCall OpListen Listener (listen_sock st) (owner (table st) (listen_sock st))]) None (Some (listen_sock st)))
      by (apply (core_call Hcore), Hcore; done).
    assert (Ho : owner (table st) (listen_sock st) = Some Listener) by (apply Hcore; done).
    destruct b; cbn [negb]; [destruct l; cbn [negb]|]; intros [= <-]; (split; cbn; [ | |done]); try done.
    + by intros _; apply Hcount.
    + apply (core_close Hu); [done|]. by right.
    + apply (core_close Hu); [done|]. by right.
  - (* the loop condition *) intros [= <-]. apply (good_move st); try done; cbn; rewrite ?Hpc; try done; destruct go; try done; cbn.
    split; [done|]. intros k c Hk. lia.
  - (* Wait *) destruct (Wait calls) as [r|]; [|done]. intros [= <-].
    apply (good_move st); try done; rewrite ?Hpc; try done; (destruct (r <? 0); [|destruct (0 <? r)]); try done; cbn.
    destruct Hphase as (? & ? & ?). split; [by split|]. intros k c Hk. lia.
  - (* GetConnection *) unfold GetConnection.
    assert (Hu : core (child_workers_ st) (table st) (log st ++ [mkCall OpAccept Listener (listen_sock st) (owner (table st) (listen_sock st))]) None (Some (listen_sock st)))
      by (apply (core_call Hcore), Hcore; done).
    destruct (Z.ltb_spec s 0) as [Hneg|Hpos].
    + intros [= <-]. split; cbn; [done | by intros _; apply Hcount|]. destruct Hphase as (? & ? & ?).
      split; [by split|]. intros k c Hk. lia.
    + destruct (open _ _ s) as [st1|] eqn:Ho; [|done]. apply open_spec in Ho as (H0 & Hn & ->). intros [= <-].
      split; cbn; [|by intros _; apply Hcount | done]. apply (core_open Hu); [done | done|]. right. right. by rewrite Hcount.
  - (* SpawnSlave *) unfold SpawnSlave. destruct spawned; intros [= <-].
    + split; cbn; [by apply (core_spawned Hcore) | | done]. intros _. rewrite length_app, Hcount by done. cbn. lia.
    + destruct (c_spawn _ _ _ _ _ Hcore f eq_refl) as [Hf Hof]. unfold delete_child, CloseOwnedSocket, new_child. cbn [sock_].
      destruct Hphase as (? & ? & ?).
      destruct (Z.ltb_spec 0 f) as [Hpos|Hz]; cbn [fst snd with_sock sock_ Z.ltb Z.compare].
      * split; cbn; [|by intros _; apply Hcount | split; [by split | intros k c Hk; lia]]. rewrite <- Hcount by done. by apply (core_refused Hcore).
      * rewrite (proj2 (Z.ltb_ge _ _) Hz). cbn [fst].
        split; cbn; [|by intros _; apply Hcount | split; [by split | intros k c Hk; lia]]. assert (f = 0) as -> by lia. by apply (core_refused_zero Hcore).
  - (* ShutdownSocket *) destruct Hphase as [Hj Hd]. destruct (child_workers_ st !! i) as [c|] eqn:Hc; intros [= <-].
    + destruct (c_child _ _ _ _ _ Hcore i c Hc) as (Hp & Ho & _). unfold ShutdownSocket. destruct (Z.ltb_spec 0 (sock_ c)) as [Hpos|Hz].
      * split; cbn; [|by intros _; apply Hcount|].
        -- apply (core_table (core_call Hcore OpShutdown _ _ (Ho Hpos))). intros g w _. by rewrite owner_alter.
        -- split; [done|]. intros k d Hk Hcd. destruct (decide (sock_ c = sock_ d)) as [He|Hne].
           ++ intros _. rewrite <- He, lookup_alter_eq. specialize (Ho Hpos). unfold owner in Ho. by destruct (table st !! sock_ c).
           ++ apply (down_ext (table st)); [intros _; by apply lookup_alter_ne|]. apply (Hd k); [|done].
              assert (k <> i) by (intros ->; congruence). lia.
      * apply (good_move st); try done; rewrite ?Hpc; try done; cbn. split; [done|]. intros k d Hk Hcd.
        destruct (decide (k = i)) as [->|Hne]; [|apply (Hd k); [lia | done]]. intros Hs. rewrite Hc in Hcd. injection Hcd as <-. lia.
    + apply (good_move st); try done; rewrite ?Hpc; try done; cbn. split; [done|]. split; [|lia]. intros k c Hk. apply (Hd k); [|done].
      apply lookup_lt_Some in Hk. apply lookup_ge_None in Hc. lia.
  - (* JoinThread *) destruct Hphase as (Hj & Hd & Hend). destruct (child_workers_ st !! i) as [c|] eqn:Hc.
    + case_bool_decide as Hst; [|done]. intros [= <-].
      assert (Hs : sock_ c = 0) by (destruct (c_child _ _ _ _ _ Hcore i c Hc) as (_ & _ & H); by rewrite Hst in H).
      destruct (joined_next st i c Hj Hc Hs) as (Hj' & E1 & E2 & E3 & E4 & E5).
      apply (good_move st); rewrite ?Hpc; cbn; try done; [by rewrite E5|]. unfold phase. cbn. rewrite E1, E2.
      split; [exact Hj'|]. split; [done|]. intros k d Hk Hcd. destruct (decide (k = i)) as [->|Hne]; [|apply (Hend k); [lia | done]].
      rewrite Hc in Hcd. by injection Hcd as <-.
    + intros [= <-]. apply lookup_ge_None in Hc. apply (good_move st); try done; rewrite ?Hpc; try done; cbn. unfold joined in *. cbn in *.
      rewrite take_ge in * by lia. split; [done|]. intros k c Hk. apply (Hend k); [|done]. apply lookup_lt_Some in Hk. lia.
  - (* the end *) destruct Hphase as [Hj Hend]. intros [= <-].
    assert (Hz : Forall (fun c => sock_ c = 0) (child_workers_ st)).
    { apply Forall_lookup. intros k c Hc. destruct (c_child _ _ _ _ _ Hcore k c Hc) as (_ & _ & H). by rewrite (Hend k c Hc) in H. }
    rewrite (delete_ended st 0 _ Hz). split; cbn; [|done | done].
    apply (core_close (core_clear Hcore Hend eq_refl)); [apply Hcore; done | by right].
Qed.

Lemma step_good st e st' : good st -> step st e = Some st' -> good st'.
Proof.
  intros Hg. destruct e as [e|k e|f|f]; cbn [step].
  - by apply listener_step_good.
  - destruct (child_workers_ st !! k) as [c|] eqn:Hc; [|done]. by apply child_step_good.
  - intros (H0 & Hn & ->)%open_spec. apply (good_elsewhere st f); [done | by rewrite Hn | |].
    + intros g Hne. by apply lookup_insert_ne.
    + apply (core_open (g_core _ Hg)); [done | done|]. by left.
  - case_bool_decide as Ho; [|done]. intros [= <-]. fold (owner (table st) f) in Ho. apply (good_elsewhere st f); [done | by rewrite Ho | |].
    + intros g Hne. by apply lookup_delete_ne.
    + apply (core_close (g_core _ Hg)); [done|]. by left.
Qed.

Lemma run_good st es st' : good st -> run st es = Some st' -> good st'.
Proof.
  revert st. induction es as [|e es IH]; intros st Hg; cbn [run]; [by intros [= <-]|].
  destruct (step st e) as [st1|] eqn:Hs; [|done]. apply IH. by eapply step_good.
Qed.

(** Only the rest of the program has descriptors at first. *)
Lemma start_good t : (forall f x, t !! f = Some x -> x.1 = Other) -> good (start t).
Proof.
  intros Ht. assert (Ho : forall f w, owner t f = Some w -> w = Other).
  { intros f w. unfold owner. destruct (t !! f) as [x|] eqn:Hf; [|done]. cbn. intros [= <-]. by eapply Ht. }
  split; cbn; [|done | by split]. split; try done.
  - intros f k Hf%Ho. done.
  - intros f. split; [by intros ?%Ho | done].
Qed.

(** C16. Descriptors of the network threads.  However the listener, its slaves and the rest
    of the program interleave, and whichever free number a new descriptor gets, every call to
    [accept], [recv], [send], [shutdown] and [close] by the listener or a slave is made on a
    descriptor that is open and its own.  When the listener ends, every connection it has
    accepted and its own socket are closed (a connection with descriptor 0 excepted, for which
    the code has no socket).  Before it deletes the slaves, its counts are the sums over all
    of them, and its result is true only if all of them ended with success. *)
Theorem listener_descriptors t es st :
  (forall f x, t !! f = Some x -> x.1 = Other) -> run (start t) es = Some st ->
  Forall call_ok (log st) /\
  (pc st = Done -> forall f w, owner (table st) f = Some w -> w = Other \/ (f = 0 /\ exists k, w = ChildFd k)) /\
  (pc st = Clearing ->
     pages_copied_ st = total child_pages (child_workers_ st) /\ errorcount_ st = total child_errors (child_workers_ st) /\
     (result st = true -> Forall (fun c => child_status c = true) (child_workers_ st))).
Proof.
  intros Ht Hrun. pose proof (run_good _ _ _ (start_good t Ht) Hrun) as [Hcore _ Hphase]. split; [apply Hcore|]. split.
  - intros Hpc f w Hw. unfold phase in Hphase. rewrite Hpc in Hphase, Hcore. rewrite Hphase in Hcore. destruct w as [|k|]; [| |by left].
    + by apply (c_listener _ _ _ _ _ Hcore) in Hw.
    + right. destruct (c_owned _ _ _ _ _ Hcore f k Hw) as [->|[(c & Hc & _)|[? _]]]; [split; [done | by exists k] | done | done].
  - intros Hpc. unfold phase in Hphase. rewrite Hpc in Hphase. destruct Hphase as [Hj _]. unfold joined in Hj. by rewrite take_ge in Hj.
Qed.

(** ** Termination *)

(** The steps a slave has left once its socket is shut down. *)
Definition left (c : Child) : nat := match stage c with Begin => 3 | Loop => 2 | Closing => 1 | Ended => 0 end.

Definition all_left (cs : list Child) : nat := list_sum (map left cs).

Definition measure (st : State) : nat :=
  match pc st with
  | Joining i => 2 + (length (child_workers_ st) - i) + all_left (child_workers_ st)
  | Clearing => 1
  | _ => 0
  end.

Definition late (st : State) : Prop := match pc st with Joining _ | Clearing | Done => True | _ => False end.

Definition own_event (e : Event) : bool := match e with OfListener _ | OfChild _ _ => true | _ => false end.
Definition own_events (es : list Event) : nat := length (filter (fun e => own_event e = true) es).

Lemma all_left_cons c cs : all_left (c :: cs) = (left c + all_left cs)%nat.
Proof. done. Qed.

Lemma all_left_insert cs k c c' : cs !! k = Some c -> (all_left (<[k := c']> cs) + left c = all_left cs + left c')%nat.
Proof.
  revert k. induction cs as [|d cs IH]; intros [|k] Hc; [done | done | |].
  - injection Hc as ->. change (<[0%nat := c']> (c :: cs)) with (c' :: cs). rewrite !all_left_cons. lia.
  - specialize (IH k Hc). change (<[S k := c']> (d :: cs)) with (d :: <[k := c']> cs). rewrite !all_left_cons. lia.
Qed.

(** A slave whose socket is down can only go towards its end. *)
Lemma child_step_left st k c e st' :
  good st -> late st -> child_workers_ st !! k = Some c -> child_step st k c e = Some st' ->
  pc st' = pc st /\ exists c', child_workers_ st' = <[k := c']> (child_workers_ st) /\ (left c' < left c)%nat.
Proof.
  intros Hg Hl Hc. destruct (c_child _ _ _ _ _ (g_core _ Hg) k c Hc) as (Hp & Ho & Hst). unfold child_step, left.
  assert (Hdown : down (table st) c).
  { pose proof (g_phase _ Hg) as Hph. unfold late in Hl. unfold phase in Hph. destruct (pc st); try done.
    - by apply (proj1 (proj2 Hph) k).
    - intros Hs. rewrite (proj2 Hph k c Hc) in Hst. lia.
    - rewrite Hph in Hc. done. }
  destruct (stage c) eqn:Hs, e as [ok|page| |]; try done.
  - intros [= <-]. split; [done|]. eexists. split; [done|]. destruct (_ =? _); [cbn; lia|]. destruct ok; cbn; lia.
  - destruct Hst as [Hsock Hpos]. rewrite Hsock. specialize (Hdown Hpos). destruct (table st !! sock_ c) as [[w b]|]; [|done].
    cbn in Hdown. by injection Hdown as ->.
  - intros [= <-]. split; [done|]. eexists. split; [done|]. cbn. lia.
  - destruct Hst as [Hsock Hpos]. unfold CloseOwnedSocket. rewrite (proj2 (Z.ltb_lt _ _) Hpos). intros [= <-].
    split; [done|]. eexists. split; [done|]. cbn. lia.
Qed.

Lemma step_measure st e st' :
  good st -> late st -> step st e = Some st' ->
  late st' /\ ((if own_event e then 1 else 0) + measure st' <= measure st)%nat.
Proof.
  intros Hg Hl. destruct e as [e|k e|f|f]; cbn [step own_event].
  - unfold listener_step, late in *. destruct (pc st) eqn:Hpc, e; try done.
    + destruct (child_workers_ st !! i) as [c|] eqn:Hc.
      * case_bool_decide as Hst; [|done]. intros [= <-].
        assert (Hs : sock_ c = 0) by (destruct (c_child _ _ _ _ _ (g_core _ Hg) i c Hc) as (_ & _ & H); by rewrite Hst in H).
        pose proof (g_phase _ Hg) as Hph. unfold phase in Hph. rewrite Hpc in Hph.
        destruct (joined_next st i c (proj1 Hph) Hc Hs) as (_ & E1 & _).
        split; [done|]. unfold measure. cbn [pc set_pc child_workers_]. rewrite Hpc, E1. apply lookup_lt_Some in Hc. lia.
      * intros [= <-]. split; [done|]. unfold measure. rewrite Hpc. cbn. lia.
    + intros [= <-]. split; [done|]. unfold measure. rewrite Hpc. cbn. lia.
  - destruct (child_workers_ st !! k) as [c|] eqn:Hc; [|done]. intros Hstep.
    destruct (child_step_left st k c e st' Hg Hl Hc Hstep) as (Hpc & c' & Hcs & Hlt).
    split; [unfold late in *; by rewrite Hpc|]. unfold measure. rewrite Hpc, Hcs, length_insert. pose proof (all_left_insert _ _ _ c' Hc).
    pose proof (g_phase _ Hg) as Hph. unfold phase in Hph. unfold late in Hl. destruct (pc st); try done; [lia| |by rewrite Hph in Hc].
    exfalso. unfold left in Hlt. rewrite (proj2 Hph k c Hc) in Hlt. lia.
  - intros (H0 & Hn & ->)%open_spec. by split.
  - case_bool_decide; [|done]. intros [= <-]. by split.
Qed.

(** Someone can go on until the listener has ended. *)
Lemma late_progress st : good st -> late st -> pc st <> Done -> exists e st', own_event e = true /\ step st e = Some st'.
Proof.
  intros Hg Hl Hd. unfold late in Hl. destruct (pc st) as [| | | | |f|i|i| |] eqn:Hpc; try done.
  - destruct (child_workers_ st !! i) as [c|] eqn:Hc.
    + destruct (stage c) eqn:Hs.
      * eexists (OfChild i (EvBegin true)), _. split; [done|]. cbn [step]. rewrite Hc. unfold child_step. by rewrite Hs.
      * eexists (OfChild i EvFail), _. split; [done|]. cbn [step]. rewrite Hc. unfold child_step. by rewrite Hs.
      * destruct (CloseOwnedSocket st i c) as [st1 c1] eqn:Hcl. eexists (OfChild i EvClose), _. split; [done|]. cbn [step].
        rewrite Hc. unfold child_step. by rewrite Hs, Hcl.
      * eexists (OfListener EvNext), _. split; [done|]. cbn [step]. unfold listener_step. rewrite Hpc, Hc.
        by rewrite (bool_decide_eq_true_2 _ Hs).
    + eexists (OfListener EvNext), _. split; [done|]. cbn [step]. unfold listener_step. by rewrite Hpc, Hc.
  - eexists (OfListener EvNext), _. split; [done|]. cbn [step]. unfold listener_step. by rewrite Hpc.
Qed.

Lemma run_measure st es st' :
  good st -> late st -> run st es = Some st' -> late st' /\ (own_events es + measure st' <= measure st)%nat.
Proof.
  revert st. induction es as [|e es IH]; intros st Hg Hl; cbn [run].
  { intros [= <-]. by split. }
  destruct (step st e) as [st1|] eqn:Hs; [|done]. intros Hr. destruct (step_measure _ _ _ Hg Hl Hs) as [Hl1 Hm].
  destruct (IH st1 (step_good _ _ _ Hg Hs) Hl1 Hr) as [Hl' Hm']. split; [done|]. unfold own_events in *. rewrite filter_cons.
  destruct (own_event e) eqn:Ho; [rewrite decide_True by done | rewrite decide_False by done]; cbn in *; lia.
Qed.

Lemma late_ends n st :
  (measure st <= n)%nat -> good st -> late st -> exists es st', run st es = Some st' /\ pc st' = Done /\ Forall (fun e => own_event e = true) es.
Proof.
  revert st. induction n as [|n IH]; intros st Hn Hg Hl; (destruct (decide (measure st = 0)%nat) as [H0|H0];
    [exists [], st; split; [done|]; split; [|done]; unfold measure in H0; unfold late in Hl; by destruct (pc st)|]); [lia|].
  destruct (late_progress st Hg Hl) as (e & st1 & He & Hs); [intros Hd; unfold measure in H0; by rewrite Hd in H0|].
  destruct (step_measure _ _ _ Hg Hl Hs) as [Hl1 Hm]. rewrite He in Hm.
  destruct (IH st1 ltac:(lia) (step_good _ _ _ Hg Hs) Hl1) as (es & st2 & Hr & Hd & Hes).
  exists (e :: es), st2. cbn [run]. rewrite Hs. by auto.
Qed.

(** C17. The listener ends.  Once it has shut the sockets of its slaves down and starts to join
    them, the listener and the slaves together make at most four steps for each slave (three of
    the slave and its joining) and two more, whatever the rest of the program does meanwhile;
    and as long as the listener has not ended one of them can make a step, so it does end. *)
Theorem listener_ends t es st :
  (forall f x, t !! f = Some x -> x.1 = Other) -> run (start t) es = Some st -> pc st = Joining 0 ->
  (forall es' st', run st es' = Some st' ->
     (own_events es' <= 4 * length (child_workers_ st) + 2)%nat /\
     (pc st' <> Done -> exists e st'', own_event e = true /\ step st' e = Some st'')) /\
  exists es' st', run st es' = Some st' /\ pc st' = Done.
Proof.
  intros Ht Hrun Hpc. pose proof (run_good _ _ _ (start_good t Ht) Hrun) as Hg.
  assert (Hl : late st) by (unfold late; by rewrite Hpc). split.
  - intros es' st' Hr. destruct (run_measure _ _ _ Hg Hl Hr) as [Hl' Hm]. split.
    + assert (Hb : (measure st <= 4 * length (child_workers_ st) + 2)%nat).
      { unfold measure. rewrite Hpc. enough (all_left (child_workers_ st) <= 3 * length (child_workers_ st))%nat by lia.
        induction (child_workers_ st) as [|c cs IH]; [done|]. rewrite all_left_cons. cbn [length]. unfold left. destruct (stage c); lia. }
      lia.
    + intros Hd. apply late_progress; [by eapply run_good | done | done].
  - destruct (late_ends _ st (le_n _) Hg Hl) as (es' & st' & Hr & Hd & _). by exists es', st'.
Qed.

(** *** Samples *)

(** Two connections; the first slave ends by itself, its descriptor is reused elsewhere, and the
    second is shut down while it waits. *)
Definition sample_events : list Event :=
  [OfListener (EvSocket 4); OfListener (EvListen true true);
   OfListener (EvTest true); OfListener (EvWait [Interrupted true; Returned 1]); OfListener (EvAccept 5); OfListener (EvSpawn true);
   OfChild 0 (EvBegin true); OfChild 0 (EvIo true);
   OfListener (EvTest true); OfListener (EvWait [Returned 1]); OfListener (EvAccept 6); OfListener (EvSpawn true);
   OfChild 0 EvFail; OfChild 0 EvClose; OtherOpens 5; OfChild 1 (EvBegin true);
   OfListener (EvTest false); OfListener EvNext; OfListener EvNext; OfListener EvNext].
Definition sample_end : list Event :=
  [OfListener EvNext; OfChild 1 EvFail; OfChild 1 EvClose; OfListener EvNext; OfListener EvNext; OfListener EvNext].
Definition sample_table : Table := {[ 1 := (Other, false) ]}.

Definition joining : State :=
  Eval vm_compute in match run (start sample_table) sample_events with Some st => st | None => start ∅ end.
Definition ended : State :=
  Eval vm_compute in match run (start sample_table) (sample_events ++ sample_end) with Some st => st | None => start ∅ end.

Lemma sample_table_other f x : sample_table !! f = Some x -> x.1 = Other.
Proof. unfold sample_table. by intros [_ <-]%lookup_singleton_Some. Qed.

Lemma listener_descriptors_witness :
  (forall f w, owner (table ended) f = Some w -> w = Other \/ (f = 0 /\ exists k, w = ChildFd k)) /\
  pages_copied_ ended = 1 /\ status_ ended = true.
Proof.
  split; [|split; reflexivity].
  exact (proj1 (proj2 (listener_descriptors sample_table (sample_events ++ sample_end) ended sample_table_other eq_refl)) eq_refl).
Defined.

Lemma listener_ends_witness : exists es' st', run joining es' = Some st' /\ pc st' = Done.
Proof. exact (proj2 (listener_ends sample_table sample_events joining sample_table_other eq_refl eq_refl)). Defined.

(** A connection with descriptor 0 is never closed, and its slave fails. *)
Theorem descriptor_zero_leaks :
  match run (start ∅) [OfListener (EvSocket 4); OfListener (EvListen true true); OfListener (EvTest true); OfListener (EvWait [Returned 1]);
                       OfListener (EvAccept 0); OfListener (EvSpawn true); OfChild 0 (EvBegin true); OfListener (EvTest false);
                       OfListener EvNext; OfListener EvNext; OfListener EvNext; OfListener EvNext; OfListener EvNext] with
  | Some st => pc st = Done /\ owner (table st) 0 = Some (ChildFd 0) /\ status_ st = false
  | None => False
  end.
Proof. vm_compute. by split_and!. Qed.

End NetworkListenFacts.
