(* ===== verification/Text.v ===== *)
(** Text as the sources use it: the searches of [std::string], the numeric conversions of
    [snprintf] and [strtoull] with base 16.  The second module has the facts the log lines
    need: where a search stops in a line put together from pieces, and that [strtoull]
    reads back what was printed. *)

From Stdlib Require Import Ascii String.
From S2P Require Import Prelude.

Module Text.

Definition text : Type := list ascii.
Definition txt (s : string) : text := list_ascii_of_string s.

(** ** [std::string] *)

Fixpoint starts (n s : text) : bool :=
  match n, s with
  | [], _ => true
  | c :: n', d :: s' => Ascii.eqb c d && starts n' s'
  | _ :: _, [] => false
  end.

(** The first position of [n] in [s]. *)
Fixpoint find_at (n s : text) : option nat :=
  if starts n s then Some 0%nat
  else match s with [] => None | _ :: s' => option_map S (find_at n s') end.

(** [s.find(n, pos)] and [s.rfind(n)]; [None] is [npos]. *)
Definition find (n s : text) (pos : nat) : option nat :=
  if (pos <=? length s)%nat then option_map (Nat.add pos) (find_at n (drop pos s)) else None.

Fixpoint rfind (n s : text) : option nat :=
  match s with
  | [] => if starts n [] then Some 0%nat else None
  | _ :: s' => match rfind n s' with
               | Some i => Some (S i)
               | None => if starts n s then Some 0%nat else None
               end
  end.

(** [s.replace(pos, len, r)]. *)
Definition replace (s : text) (pos len : nat) (r : text) : text :=
  take pos s ++ r ++ drop (pos + len) s.

(** ** [snprintf] *)

Definition digit_char (upper : bool) (d : Z) : ascii :=
  ascii_of_nat (Z.to_nat (if d <? 10 then 48 + d else if upper then 55 + d else 87 + d)).

(** The digits of [n] in base [b], most significant first, at least one. *)
Fixpoint digits_fuel (fuel : nat) (upper : bool) (b n : Z) (acc : text) : text :=
  match fuel with
  | O => acc
  | S k => let acc' := digit_char upper (n mod b) :: acc in
           if n / b =? 0 then acc' else digits_fuel k upper b (n / b) acc'
  end.

(** 64 digits are enough for a 64-bit value in any base. *)
Definition digits (upper : bool) (b n : Z) : text := digits_fuel 64 upper b n [].

Definition pad (width : nat) (s : text) : text := replicate (width - length s) "0"%char ++ s.

Definition fmt_x (n : Z) : text := digits false 16 n.                          (** [%x], [%llx] *)
Definition fmt_X (n : Z) : text := digits true 16 n.                           (** [%X] *)
Definition fmt_0x (width : nat) (n : Z) : text := pad width (fmt_x n).         (** [%016llx] *)
Definition fmt_0X (width : nat) (n : Z) : text := pad width (fmt_X n).         (** [%09llX] *)
Definition fmt_u (n : Z) : text := digits false 10 n.                          (** [%u], [%llu] *)
Definition fmt_d (n : Z) : text := if n <? 0 then "-"%char :: fmt_u (- n) else fmt_u n.
(** [%p] of the C library of the targets. *)
Definition fmt_p (n : Z) : text := if n =? 0 then txt "(nil)" else txt "0x" ++ fmt_x n.

(** What fits in a buffer of [size] bytes with its terminating zero. *)
Definition snprintf (size : nat) (s : text) : text := take (size - 1) s.

(** ** [strtoull(start, &end, 16)] *)

Definition hex_value (c : ascii) : option Z :=
  let n := Z.of_nat (nat_of_ascii c) in
  if (48 <=? n) && (n <=? 57) then Some (n - 48)
  else if (97 <=? n) && (n <=? 102) then Some (n - 87)
  else if (65 <=? n) && (n <=? 70) then Some (n - 55)
  else None.

Definition is_space (c : ascii) : bool :=
  let n := Z.of_nat (nat_of_ascii c) in (n =? 32) || ((9 <=? n) && (n <=? 13)).

Fixpoint skip_space (s : text) : text :=
  match s with c :: s' => if is_space c then skip_space s' else s | [] => [] end.

(** The digits read, without a limit on the value. *)
Fixpoint read_digits (acc : Z) (s : text) : Z :=
  match s with
  | c :: s' => match hex_value c with Some d => read_digits (16 * acc + d) s' | None => acc end
  | [] => acc
  end.

Definition starts_hex (s : text) : bool :=
  match s with c :: _ => match hex_value c with Some _ => true | None => false end | [] => false end.

Definition skip_0x (s : text) : text :=
  match s with
  | z :: x :: s' =>
      if Ascii.eqb z "0" && (Ascii.eqb x "x" || Ascii.eqb x "X") && starts_hex s' then s' else s
  | _ => s
  end.

Definition ULLONG_MAX : Z := 2 ^ 64 - 1.

(** [None]: no digits, [end == start]. *)
Definition strtoull16 (s : text) : option Z :=
  let s := skip_space s in
  let '(neg, s) := match s with
                   | c :: s' => if Ascii.eqb c "-" then (true, s')
                                else if Ascii.eqb c "+" then (false, s') else (false, s)
                   | [] => (false, [])
                   end in
  let s := skip_0x s in
  if starts_hex s then
    let v := read_digits 0 s in
    Some (if ULLONG_MAX <? v then ULLONG_MAX else if neg : bool then u64 (- v) else v)
  else None.

(** ** [strtoull(s, NULL, 0)]: the base comes from the prefix, no digits give 0 *)

Definition digit_of (b : Z) (c : ascii) : option Z :=
  match hex_value c with Some d => if d <? b then Some d else None | None => None end.

Fixpoint read_base (b acc : Z) (s : text) : Z :=
  match s with
  | c :: s' => match digit_of b c with Some d => read_base b (b * acc + d) s' | None => acc end
  | [] => acc
  end.

Definition base_of (s : text) : Z * text :=
  match s with
  | z :: s' =>
      if Ascii.eqb z "0" then
        if bool_decide (skip_0x s = s) then (8, s) else (16, skip_0x s)
      else (10, s)
  | [] => (10, [])
  end.

Definition sign_of (s : text) : bool * text :=
  match s with
  | c :: s' => if Ascii.eqb c "-" then (true, s') else if Ascii.eqb c "+" then (false, s') else (false, s)
  | [] => (false, [])
  end.

Definition strtoull0 (s : text) : Z :=
  let '(neg, s) := sign_of (skip_space s) in
  let '(b, s) := base_of s in
  let v := read_base b 0 s in
  if ULLONG_MAX <? v then ULLONG_MAX else if neg : bool then u64 (- v) else v.

End Text.

Module TextFacts.
Import Text.

Definition contains (n s : text) : bool := match find_at n s with Some _ => true | None => false end.

(** ** Where a search stops *)

Lemma starts_app_same n s : starts n (n ++ s) = true.
Proof. induction n as [|c n IH]; [done|]. cbn. by rewrite Ascii.eqb_refl. Qed.

Lemma starts_spec n s : starts n s = true <-> exists r, s = n ++ r.
Proof.
  revert s. induction n as [|c n IH]; intros s; cbn.
  - split; [by exists s | done].
  - destruct s as [|d s].
    + split; [done|]. by intros [r ?].
    + rewrite andb_true_iff, Ascii.eqb_eq, IH. split.
      * intros [-> [r ->]]. by exists r.
      * intros [r He]. injection He as -> ->. split; [done | by exists r].
Qed.

Lemma contains_spec n s : contains n s = true <-> exists a b, s = a ++ n ++ b.
Proof.
  unfold contains. induction s as [|c s IH]; cbn.
  - destruct (starts n []) eqn:Hs.
    + apply starts_spec in Hs as [r Hr]. split; [by exists [], r | done].
    + split; [done|]. intros ([|? ?] & b & He); [|done]. cbn in He.
      assert (H : starts n [] = true) by (apply starts_spec; by exists b). congruence.
  - destruct (starts n (c :: s)) eqn:Hs.
    + apply starts_spec in Hs as [r ->]. split; [by exists [], r | done].
    + destruct (find_at n s); cbn; split; try done.
      * intros _. destruct IH as [IH _]. destruct (IH eq_refl) as (a & b & ->). by exists (c :: a), b.
      * intros (a & b & He). destruct a as [|c' a].
        -- cbn in He. assert (H : starts n (c :: s) = true) by (apply starts_spec; by exists b). congruence.
        -- injection He as -> ->. destruct IH as [_ IH]. apply IH. by exists a, b.
Qed.

Lemma contains_false n s : contains n s = false <-> forall a b, s <> a ++ n ++ b.
Proof.
  rewrite <- not_true_iff_false, contains_spec. split.
  - intros H a b He. apply H. by exists a, b.
  - intros H (a & b & He). by apply (H a b).
Qed.

Lemma starts_contains n s : starts n s = true -> contains n s = true.
Proof. intros [r ->]%starts_spec. apply contains_spec. by exists [], r. Qed.

Lemma list_split_cases {A} (a b x y : list A) :
  a ++ b = x ++ y -> (exists z, a = x ++ z /\ y = z ++ b) \/ (exists z, x = a ++ z /\ b = z ++ y).
Proof.
  revert x. induction a as [|c a IH]; intros x He; cbn in He.
  - right. by exists x.
  - destruct x as [|d x]; cbn in He.
    + left. by exists (c :: a).
    + injection He as -> He. destruct (IH x He) as [(z & -> & ->)|(z & -> & ->)].
      * left. by exists z.
      * right. by exists z.
Qed.

(** The text before the first occurrence, together with all of the needle but its last
    character, contains no occurrence. *)
Lemma find_first n a b :
  contains n (a ++ removelast n) = false -> find_at n (a ++ n ++ b) = Some (length a).
Proof.
  induction a as [|c a IH]; intros Hn; cbn [app length].
  - destruct n as [|x n]; [by destruct b|]. cbn [find_at app].
    change (x :: n ++ b) with ((x :: n) ++ b). by rewrite starts_app_same.
  - cbn [find_at]. destruct (starts n (c :: a ++ n ++ b)) eqn:Hs.
    + exfalso. apply starts_spec in Hs as [r Hr].
      destruct (decide (n = [])) as [->|Hne]; [by apply (proj1 (contains_false _ _) Hn [] (c :: a ++ []))|].
      pose proof (app_removelast_last "0"%char Hne) as Hl. set (n' := removelast n) in *.
      assert (Hr' : (c :: a ++ n') ++ [List.last n "0"%char] ++ b = n ++ r).
      { rewrite <- Hr. rewrite Hl at 2. cbn. by rewrite <- !app_assoc. }
      destruct (list_split_cases _ _ _ _ Hr') as [(z & Hz & _)|(z & Hz & _)].
      * apply (proj1 (contains_false _ _) Hn [] z). exact Hz.
      * assert (Hlen : length n = S (length n')) by (rewrite Hl, length_app; cbn; lia).
        rewrite Hz in Hlen. cbn in Hlen. rewrite !length_app in Hlen.
        destruct a, z; cbn in Hlen; try lia. rewrite app_nil_r in Hz.
        apply (proj1 (contains_false _ _) Hn [] []). by rewrite app_nil_r.
    + rewrite IH; [done|]. apply contains_false. intros x y He.
      apply (proj1 (contains_false _ _) Hn (c :: x) y). cbn. by rewrite He.
Qed.

Lemma rfind_none n s : contains n s = false -> n <> [] -> rfind n s = None.
Proof.
  intros Hc Hn. induction s as [|c s IH]; cbn.
  - by destruct n.
  - rewrite IH.
    + destruct (starts n (c :: s)) eqn:Hs; [|done]. apply starts_contains in Hs. congruence.
    + apply contains_false. intros a b ->. by apply (proj1 (contains_false _ _) Hc (c :: a) b).
Qed.

Lemma rfind_last n a b :
  n <> [] -> contains n (tail n ++ b) = false -> rfind n (a ++ n ++ b) = Some (length a).
Proof.
  intros Hn Hc. induction a as [|c a IH]; cbn [app length].
  - destruct n as [|x n]; [done|]. cbn [rfind app]. cbn [tail] in Hc. rewrite rfind_none by done.
    change (x :: n ++ b) with ((x :: n) ++ b). by rewrite starts_app_same.
  - cbn [rfind]. by rewrite IH.
Qed.

(** ** Texts put together from pieces *)

Lemma contains_straddle n a b :
  contains n a = false -> contains n b = false ->
  (forall z z' a' b', z <> [] -> z' <> [] -> n = z ++ z' -> a = a' ++ z -> b = z' ++ b' -> False) ->
  contains n (a ++ b) = false.
Proof.
  intros Ha Hb Hno. apply contains_false. intros x y He.
  destruct (list_split_cases _ _ _ _ He) as [(z & Hz1 & Hz)|(z & -> & Hz)];
    [|by apply (proj1 (contains_false _ _) Hb z y)].
  destruct (list_split_cases _ _ _ _ Hz) as [(z' & Hn & Hb')|(z' & -> & ->)];
    [|by apply (proj1 (contains_false _ _) Ha x z')].
  destruct (decide (z' = [])) as [->|Hz'].
  { apply (proj1 (contains_false _ _) Ha x []). by rewrite Hz1, Hn, !app_nil_r. }
  destruct (decide (z = [])) as [->|Hzn].
  { apply (proj1 (contains_false _ _) Hb [] y). by rewrite Hb', Hn. }
  by apply (Hno z z' x y).
Qed.

(** No occurrence of [n] can begin in [a] and end behind it, or begin before [b] and end in it. *)
Definition clean_end (n a : text) : bool :=
  forallb (fun k => negb (bool_decide (drop (length a - k) a = take k n))) (seq 1 (length n - 1)).
Definition clean_start (n b : text) : bool :=
  forallb (fun k => negb (starts (drop k n) b)) (seq 1 (length n - 1)).

Lemma split_in_seq (z z' : text) :
  z <> [] -> z' <> [] -> In (length z) (seq 1 (length (z ++ z') - 1)).
Proof. intros Hz Hz'. apply in_seq. rewrite length_app. destruct z; [done|]. destruct z'; [done|]. cbn. lia. Qed.

Lemma contains_app n a b :
  contains n a = false -> contains n b = false -> clean_end n a = true -> contains n (a ++ b) = false.
Proof.
  intros Ha Hb Hc. apply contains_straddle; [done|done|]. intros z z' a' b' Hz Hz' -> -> ->.
  unfold clean_end in Hc. rewrite forallb_forall in Hc.
  specialize (Hc _ (split_in_seq z z' Hz Hz')). rewrite bool_decide_true in Hc; [done|].
  by rewrite take_app_length, length_app, Nat.add_sub, drop_app_length.
Qed.

Lemma contains_app_r n a b :
  contains n a = false -> contains n b = false -> clean_start n b = true -> contains n (a ++ b) = false.
Proof.
  intros Ha Hb Hc. apply contains_straddle; [done|done|]. intros z z' a' b' Hz Hz' -> -> ->.
  unfold clean_start in Hc. rewrite forallb_forall in Hc.
  specialize (Hc _ (split_in_seq z z' Hz Hz')). by rewrite drop_app_length, starts_app_same in Hc.
Qed.

(** A text that lacks one of the characters of [n] does not contain [n]. *)
Lemma contains_lacks n s c : c ∈ n -> c ∉ s -> contains n s = false.
Proof.
  intros Hc Hs. apply contains_false. intros a b ->. apply Hs, elem_of_app. right.
  apply elem_of_app. by left.
Qed.

Lemma contains_app_inv n a b : contains n (a ++ b) = false -> contains n a = false /\ contains n b = false.
Proof.
  intros H. split; apply contains_false; intros x y ->.
  - apply (proj1 (contains_false _ _) H x (y ++ b)). by rewrite <- !app_assoc.
  - apply (proj1 (contains_false _ _) H (a ++ x) y). by rewrite <- !app_assoc.
Qed.

(** ** Printed numbers *)

Lemma digit_char_value upper d : 0 <= d < 16 -> hex_value (digit_char upper d) = Some d.
Proof.
  intros H.
  assert (Hall : forallb (fun d => bool_decide (hex_value (digit_char upper d) = Some d)) (zrange 0 16) = true)
    by (destruct upper; vm_compute; reflexivity).
  rewrite forallb_forall in Hall. eapply bool_decide_eq_true_1, Hall.
  apply list_elem_of_In, elem_of_zrange. lia.
Qed.

(** Every character printed for [n] is a digit of the base. *)
Lemma digits_fuel_forall (P : ascii -> Prop) fuel upper b n acc :
  1 < b -> (forall d, 0 <= d < b -> P (digit_char upper d)) -> Forall P acc ->
  Forall P (digits_fuel fuel upper b n acc).
Proof.
  intros Hb HP. revert n acc. induction fuel as [|k IH]; intros n acc Ha; [done|]. cbn [digits_fuel].
  assert (H : Forall P (digit_char upper (n mod b) :: acc))
    by (constructor; [apply HP, Z.mod_pos_bound; lia | done]).
  destruct (n / b =? 0); [done|]. by apply IH.
Qed.

(** The value read back from a list of digits. *)
Lemma read_digits_app acc s r :
  Forall (fun c => is_Some (hex_value c)) s -> read_digits acc (s ++ r) = read_digits (read_digits acc s) r.
Proof.
  revert acc. induction s as [|c s IH]; intros acc Hs; [done|]. apply Forall_cons in Hs as [[d Hd] Hs].
  cbn. rewrite Hd. by apply IH.
Qed.

Lemma digits_fuel_app fuel upper b n acc :
  digits_fuel fuel upper b n acc = digits_fuel fuel upper b n [] ++ acc.
Proof.
  revert n acc. induction fuel as [|k IH]; intros n acc; [done|]. cbn [digits_fuel].
  destruct (n / b =? 0); [done|]. rewrite IH, (IH _ [_]). by rewrite <- app_assoc.
Qed.

Lemma digits_fuel_nonempty fuel upper b n acc : (0 < fuel)%nat -> digits_fuel fuel upper b n acc <> [].
Proof.
  intros Hf. destruct fuel as [|k]; [lia|]. rewrite digits_fuel_app. intros [H _]%app_nil.
  cbn in H. destruct (n / b =? 0); [done|]. rewrite digits_fuel_app in H. by apply app_nil in H as [_ ?].
Qed.

Lemma read_digits_fuel fuel upper n :
  0 <= n < 16 ^ Z.of_nat fuel -> read_digits 0 (digits_fuel fuel upper 16 n []) = n.
Proof.
  revert n. induction fuel as [|k IH]; intros n Hn; [cbn in *; lia|]. cbn [digits_fuel].
  pose proof (Z.mod_pos_bound n 16). pose proof (Z.div_mod n 16).
  assert (Hd : hex_value (digit_char upper (n mod 16)) = Some (n mod 16)) by (apply digit_char_value; lia).
  destruct (n / 16 =? 0) eqn:Hz.
  - cbn. rewrite Hd. cbn. lia.
  - rewrite digits_fuel_app, read_digits_app.
    + rewrite IH.
      * cbn. rewrite Hd. lia.
      * split; [apply Z.div_pos; lia|]. apply Z.div_lt_upper_bound; [lia|].
        replace (16 * 16 ^ Z.of_nat k) with (16 ^ Z.of_nat (S k)); [lia|].
        rewrite Nat2Z.inj_succ, Z.pow_succ_r by lia. done.
    + apply digits_fuel_forall; [lia| |constructor].
      intros d Hdd. rewrite digit_char_value by lia. by eexists.
Qed.

(** At most [k] digits for a value below [b ^ k]. *)
Lemma length_digits_fuel fuel upper b n k :
  1 < b -> (1 <= k <= fuel)%nat -> 0 <= n < b ^ Z.of_nat k ->
  (length (digits_fuel fuel upper b n []) <= k)%nat.
Proof.
  intros Hb. revert n k. induction fuel as [|f IH]; intros n k Hk Hn; [lia|]. cbn [digits_fuel].
  destruct (n / b =? 0) eqn:Hz; [cbn; lia|]. apply Z.eqb_neq in Hz.
  rewrite digits_fuel_app, length_app. cbn [length].
  destruct k as [|k]; [lia|]. rewrite Nat2Z.inj_succ, Z.pow_succ_r in Hn by lia.
  assert (Hq : 0 <= n / b < b ^ Z.of_nat k).
  { split; [apply Z.div_pos; lia|]. apply Z.div_lt_upper_bound; lia. }
  destruct k as [|k]; [cbn in Hq; lia|]. specialize (IH (n / b) (S k)). lia.
Qed.

Lemma length_digits upper b n k :
  1 < b -> (1 <= k <= 64)%nat -> 0 <= n < b ^ Z.of_nat k -> (length (digits upper b n) <= k)%nat.
Proof. apply length_digits_fuel. Qed.

Lemma length_pad width s : length (pad width s) = Nat.max width (length s).
Proof. unfold pad. rewrite length_app, length_replicate. lia. Qed.

Lemma read_digits_zeros m s : read_digits 0 (replicate m "0"%char ++ s) = read_digits 0 s.
Proof. induction m as [|m IH]; [done|]. exact IH. Qed.

(** ** [strtoull] reads back what was printed *)

(** The text after the number: its first character is not taken for a part of the number. *)
Definition ends_number (r : text) : bool :=
  match r with
  | c :: _ => match hex_value c with Some _ => false | None => negb (Ascii.eqb c "x" || Ascii.eqb c "X") end
  | [] => true
  end.

Lemma read_digits_end acc r : ends_number r = true -> read_digits acc r = acc.
Proof. destruct r as [|c r]; [done|]. cbn. by destruct (hex_value c). Qed.

Lemma hex_value_plain c d : hex_value c = Some d -> is_space c = false /\ Ascii.eqb c "-" = false /\
  Ascii.eqb c "+" = false /\ Ascii.eqb c "x" = false /\ Ascii.eqb c "X" = false.
Proof. destruct c as [[] [] [] [] [] [] [] []]; vm_compute; try done; intros; by repeat split. Qed.

Lemma strtoull16_digits s r :
  s <> [] -> Forall (fun c => is_Some (hex_value c)) s -> ends_number r = true ->
  0 <= read_digits 0 s < 2 ^ 64 -> strtoull16 (s ++ r) = Some (read_digits 0 s).
Proof.
  intros Hne Hs Hr Hb. destruct s as [|c s]; [done|]. pose proof Hs as Hs'. apply Forall_cons in Hs' as [[d Hd] Hs'].
  destruct (hex_value_plain c d Hd) as (H1 & H2 & H3 & _).
  unfold strtoull16. cbn [app skip_space]. rewrite H1, H2, H3.
  assert (Hx : skip_0x (c :: s ++ r) = (c :: s) ++ r).
  { destruct s as [|x s]; cbn.
    - destruct r as [|x r]; [done|]. cbn in Hr. destruct (hex_value x); [done|].
      apply negb_true_iff in Hr. by rewrite Hr, andb_false_r.
    - apply Forall_cons in Hs' as [[e He] _]. destruct (hex_value_plain x e He) as (_ & _ & _ & H4 & H5).
      by rewrite H4, H5, andb_false_r. }
  rewrite Hx. cbn [app starts_hex]. rewrite Hd. change (c :: s ++ r) with ((c :: s) ++ r).
  rewrite read_digits_app, read_digits_end by done. unfold ULLONG_MAX.
  destruct (2 ^ 64 - 1 <? read_digits 0 (c :: s)) eqn:Hl; [apply Z.ltb_lt in Hl; lia | done].
Qed.

Lemma digits_hex upper n : Forall (fun c => is_Some (hex_value c)) (digits upper 16 n).
Proof.
  apply digits_fuel_forall; [lia| |constructor].
  intros d Hd. rewrite digit_char_value by lia. by eexists.
Qed.

Lemma read_digits_hex upper n : 0 <= n < 2 ^ 64 -> read_digits 0 (digits upper 16 n) = n.
Proof. intros H. apply read_digits_fuel. change (16 ^ Z.of_nat 64) with (2 ^ 256). lia. Qed.

Lemma strtoull16_pad upper width n r :
  0 <= n < 2 ^ 64 -> ends_number r = true ->
  strtoull16 (pad width (digits upper 16 n) ++ r) = Some n.
Proof.
  intros Hn Hr. assert (Hread : read_digits 0 (pad width (digits upper 16 n)) = n)
    by (unfold pad; by rewrite read_digits_zeros, read_digits_hex).
  rewrite strtoull16_digits; rewrite ?Hread; try done.
  - unfold pad. intros [_ H]%app_nil. by apply digits_fuel_nonempty in H; [|lia].
  - apply Forall_app. split; [|apply digits_hex]. apply Forall_replicate. by eexists.
Qed.

Lemma pad_0 s : pad 0 s = s.
Proof. done. Qed.

Lemma strtoull16_fmt_x n r : 0 <= n < 2 ^ 64 -> ends_number r = true -> strtoull16 (fmt_x n ++ r) = Some n.
Proof. intros Hn Hr. rewrite <- (pad_0 (fmt_x n)). by apply strtoull16_pad. Qed.

(** ** What numbers do not contain *)

(** [c] is not among the characters of a printed number. *)
Definition foreign (c : ascii) : bool :=
  match hex_value c with Some _ => false | None => negb (Ascii.eqb c "-") end.

(** ** Numbers between pieces *)

Definition numeric (s : text) : Prop := Forall (fun c => foreign c = false) s.

Lemma numeric_digits upper b n : 1 < b <= 16 -> numeric (digits upper b n).
Proof.
  intros Hb. apply digits_fuel_forall; [lia| |constructor]. intros d Hd. unfold foreign.
  by rewrite digit_char_value by lia.
Qed.

Lemma numeric_pad width s : numeric s -> numeric (pad width s).
Proof. intros H. apply Forall_app. split; [by apply Forall_replicate | done]. Qed.

Lemma numeric_fmt_x n : numeric (fmt_x n).
Proof. apply numeric_digits. lia. Qed.
Lemma numeric_fmt_X n : numeric (fmt_X n).
Proof. apply numeric_digits. lia. Qed.
Lemma numeric_fmt_u n : numeric (fmt_u n).
Proof. apply numeric_digits. lia. Qed.
Lemma numeric_fmt_0x w n : numeric (fmt_0x w n).
Proof. apply numeric_pad, numeric_fmt_x. Qed.
Lemma numeric_fmt_0X w n : numeric (fmt_0X w n).
Proof. apply numeric_pad, numeric_fmt_X. Qed.
Lemma numeric_fmt_d n : numeric (fmt_d n).
Proof. unfold fmt_d. destruct (n <? 0); [constructor; [done|]|]; apply numeric_fmt_u. Qed.

Lemma numeric_elem s c : numeric s -> foreign c = true -> c ∉ s.
Proof. intros Hs Hc Hin. unfold numeric in Hs. rewrite Forall_forall in Hs. specialize (Hs c Hin). congruence. Qed.

(** How many characters at the start of [n] could be part of a number. *)
Fixpoint number_prefix (n : text) : nat :=
  match n with c :: n' => if foreign c then 0 else S (number_prefix n') | [] => 0 end.

Definition clean_number (n b : text) : bool :=
  (number_prefix n <? length n)%nat && forallb (fun k => negb (starts (drop k n) b)) (seq 1 (number_prefix n)).

Lemma number_prefix_split z z' :
  numeric z -> (number_prefix (z ++ z') = length z + number_prefix z')%nat.
Proof.
  intros Hz. induction Hz as [|c z Hc Hz IH]; [done|]. cbn. by rewrite Hc, IH.
Qed.

Lemma number_prefix_foreign n :
  (number_prefix n < length n)%nat -> exists c, c ∈ n /\ foreign c = true.
Proof.
  induction n as [|c n IH]; cbn; [lia|]. destruct (foreign c) eqn:Hc.
  - intros _. exists c. split; [left | done].
  - intros H. destruct IH as (d & Hd & Hf); [lia|]. exists d. split; [by right | done].
Qed.

(** A number followed by a text without [n]. *)
Lemma contains_number n a b :
  numeric a -> clean_number n b = true -> contains n b = false -> contains n (a ++ b) = false.
Proof.
  intros Ha Hc Hb. apply andb_true_iff in Hc as [Hl%Nat.ltb_lt Hc]. apply contains_straddle; [|done|].
  - destruct (number_prefix_foreign n Hl) as (c & Hin & Hf). eapply contains_lacks; [exact Hin|].
    by eapply numeric_elem.
  - intros z z' a' b' Hz Hz' -> -> ->. apply Forall_app in Ha as [_ Ha].
    rewrite forallb_forall in Hc. specialize (Hc (length z)).
    rewrite drop_app_length, starts_app_same in Hc. assert (H : negb true = true); [|done]. apply Hc.
    apply in_seq. rewrite number_prefix_split by done. destruct z; [done|]. cbn. lia.
Qed.

Lemma contains_number_last n a : numeric a -> (number_prefix n < length n)%nat -> contains n a = false.
Proof.
  intros Ha Hl. destruct (number_prefix_foreign n Hl) as (c & Hin & Hf).
  eapply contains_lacks; [exact Hin|]. by eapply numeric_elem.
Qed.

Lemma contains_take n k s : contains n s = false -> contains n (take k s) = false.
Proof. intros H. rewrite <- (take_drop k s) in H. by apply contains_app_inv in H as [? _]. Qed.

(** ** Searches in a text cut at a known place *)

Lemma find_from n x y : find n (x ++ y) (length x) = option_map (Nat.add (length x)) (find_at n y).
Proof.
  unfold find. rewrite (proj2 (Nat.leb_le _ _)) by (rewrite length_app; lia). by rewrite drop_app_length.
Qed.

Lemma find_from_first n x a b :
  contains n (a ++ removelast n) = false ->
  find n (x ++ a ++ n ++ b) (length x) = Some (length (x ++ a)).
Proof. intros H. rewrite find_from, (find_first n a b H), length_app. done. Qed.

Lemma find_at_split n s i :
  find_at n s = Some i -> exists a b, s = a ++ n ++ b /\ length a = i /\ contains n a = false \/ n = [].
Proof.
  revert i. induction s as [|c s IH]; intros i; cbn [find_at].
  - destruct (starts n []) eqn:Hs; [|done]. intros _. exists [], []. right.
    apply starts_spec in Hs as [r Hr]. symmetry in Hr. by apply app_nil in Hr as [-> _].
  - destruct (starts n (c :: s)) eqn:Hs.
    + intros [= <-]. apply starts_spec in Hs as [r ->]. exists [], r. destruct n; [by right|]. by left.
    + destruct (find_at n s) as [j|]; [|done]. intros [= <-].
      destruct (IH j eq_refl) as (a & b & [(He & Hl & Hc)|Hn]); [|by exists [], []; right].
      exists (c :: a), b. left. subst s. split; [done|]. split; [cbn; by rewrite Hl|].
      apply contains_false. intros [|x xs] y Hy.
      * cbn in Hy. assert (H : starts n (c :: a ++ n ++ b) = true); [|congruence].
        apply starts_spec. exists (y ++ n ++ b). change (c :: a ++ n ++ b) with ((c :: a) ++ n ++ b).
        by rewrite Hy, <- app_assoc.
      * injection Hy as -> ->. by apply (proj1 (contains_false _ _) Hc xs y).
Qed.

Lemma clean_end_app n x t : (length n <= S (length t))%nat -> clean_end n t = true -> clean_end n (x ++ t) = true.
Proof.
  unfold clean_end. rewrite !forallb_forall. intros Hl H k Hk. pose proof Hk as Hk'. apply in_seq in Hk'.
  specialize (H k Hk). rewrite length_app.
  replace (length x + length t - k)%nat with (length x + (length t - k))%nat by lia.
  by rewrite drop_app_add.
Qed.

Lemma clean_end_last n x c : c ∉ n -> clean_end n (x ++ [c]) = true.
Proof.
  intros Hc. unfold clean_end. apply forallb_forall. intros k Hk. apply in_seq in Hk.
  apply negb_true_iff, bool_decide_eq_false_2. intros He. apply Hc.
  rewrite <- (take_drop k n). apply elem_of_app. left. rewrite <- He, length_app. cbn [length].
  rewrite drop_app_le by lia. apply elem_of_app. right. by left.
Qed.

(** The numeric conversions print numbers. *)
Create HintDb text discriminated.
#[export] Hint Constants Opaque : text.
#[export] Hint Resolve numeric_fmt_x numeric_fmt_X numeric_fmt_u numeric_fmt_0x numeric_fmt_0X numeric_fmt_d : text.

End TextFacts.
