(* ===== verification/Logger.v ===== *)
(** The log queue: [Logger::QueueLogLine], [WriteAndDeleteLogLine], [StartThread],
    [StopThread] and [ThreadMain] of [src/src/logger.cc].

    A critical section under [queued_lines_mutex_] is one step; a thread in
    [pthread_cond_wait] is in a waiting phase of its own.  A condition variable wakes the
    threads that wait when it is signalled, and may wake a thread at any other time too.
    Each caller has the list of the lines it is going to log.  As the header demands,
    [StartThread] and [StopThread] run while no caller is active. *)

From Stdlib Require Import Ascii String.
From S2P Require Import Prelude.

Module Logger.

Definition kMaxQueueSize : Z := 250.

(** The members that change; what [write] has put on standard output and in the log file.
    A null pointer in the queue is [None]. *)
Record Logger := mkLogger {
  queued_lines_ : list (option string); thread_running_ : bool; log_fd_ : Z;
  stdout : list string; logfile : list string
}.

(** Both calls of [write] succeed. *)
Definition WriteAndDeleteLogLine (lg : Logger) (line : string) : Logger :=
  mkLogger (queued_lines_ lg) (thread_running_ lg) (log_fd_ lg) (stdout lg ++ [line])
    (if 0 <=? log_fd_ lg then logfile lg ++ [line] else logfile lg).

Definition set_queue (lg : Logger) (q : list (option string)) : Logger :=
  mkLogger q (thread_running_ lg) (log_fd_ lg) (stdout lg) (logfile lg).
Definition set_running (lg : Logger) (b : bool) : Logger :=
  mkLogger (queued_lines_ lg) b (log_fd_ lg) (stdout lg) (logfile lg).

Definition full (q : list (option string)) : bool := kMaxQueueSize <=? Z.of_nat (length q).

(** A caller: the call under way, if it waits or has been woken, and the lines to come. *)
Inductive Caller :=
| Calling (todo : list string)
| WaitFull (line : string) (todo : list string)
| WokenFull (line : string) (todo : list string).

(** The logging thread. *)
Inductive Writer :=
| NotStarted                            (** before [StartThread], or after [pthread_join] *)
| AtLoop                                (** at the head of the loop, to take the mutex *)
| WaitLines                             (** in [pthread_cond_wait(&queued_lines_cond_, ...)] *)
| Writing (local_queue : list (option string))
| Returned.

(** [StopThread]: not called, after the null line was queued, in [pthread_join]. *)
Inductive Stopper := NoStop | Unlocked (need_cond_signal : bool) | Joining.

Record System := mkSystem {
  lg : Logger; callers : list Caller; writer : Writer; stopper : Stopper
}.

(** [pthread_cond_signal(&queued_lines_cond_)] and [pthread_cond_broadcast(&full_queue_cond_)]. *)
Definition signal_lines (w : Writer) : Writer := match w with WaitLines => AtLoop | _ => w end.
Definition wake (c : Caller) : Caller :=
  match c with WaitFull l todo => WokenFull l todo | _ => c end.

(** The end of the branch for a running thread: signal if the queue was empty, and append. *)
Definition enqueue (lg : Logger) (w : Writer) (line : option string) : Logger * Writer :=
  (set_queue lg (queued_lines_ lg ++ [line]),
   if bool_decide (queued_lines_ lg = []) then signal_lines w else w).

(** [QueueLogLine] from its start to its end or to its wait. *)
Definition QueueLogLine (lg : Logger) (w : Writer) (line : string) (todo : list string)
  : Logger * Writer * Caller :=
  if thread_running_ lg then
    if full (queued_lines_ lg) then (lg, w, WaitFull line todo)
    else (enqueue lg w (Some line), Calling todo)
  else (WriteAndDeleteLogLine lg line, w, Calling todo).

(** From the return of [pthread_cond_wait] on. *)
Definition QueueLogLine_woken (lg : Logger) (w : Writer) (line : string) (todo : list string)
  : Logger * Writer * Caller :=
  (enqueue lg w (Some line), Calling todo).

(** One turn of the loop of [ThreadMain] while the mutex is held. *)
Definition ThreadMain_turn (s : System) : System :=
  match queued_lines_ (lg s) with
  | [] => mkSystem (lg s) (callers s) WaitLines (stopper s)
  | local_queue =>
      mkSystem (set_queue (lg s) [])
        (if full local_queue then map wake (callers s) else callers s)
        (Writing local_queue) (stopper s)
  end.

(** The next line of the local queue. *)
Definition ThreadMain_write (s : System) (local_queue : list (option string)) : System :=
  match local_queue with
  | [] => mkSystem (lg s) (callers s) AtLoop (stopper s)
  | None :: _ => mkSystem (lg s) (callers s) Returned (stopper s)
  | Some line :: rest =>
      mkSystem (WriteAndDeleteLogLine (lg s) line) (callers s) (Writing rest) (stopper s)
  end.

Definition idle (c : Caller) : Prop := match c with Calling _ => True | _ => False end.

(** The steps of the threads; a label is the line whose call takes effect. *)
Inductive step : System -> option string -> System -> Prop :=
| step_call l cs w i line todo l' w' c' :
    cs !! i = Some (Calling (line :: todo)) -> QueueLogLine l w line todo = (l', w', c') ->
    step (mkSystem l cs w NoStop) (match c' with Calling _ => Some line | _ => None end)
      (mkSystem l' (<[i := c']> cs) w' NoStop)
| step_resume l cs w st i line todo l' w' c' :
    cs !! i = Some (WokenFull line todo) -> QueueLogLine_woken l w line todo = (l', w', c') ->
    step (mkSystem l cs w st) (Some line) (mkSystem l' (<[i := c']> cs) w' st)
| step_turn s : writer s = AtLoop -> step s None (ThreadMain_turn s)
| step_write s q : writer s = Writing q -> step s None (ThreadMain_write s q)
| step_signal l cs w b :
    step (mkSystem l cs w (Unlocked b)) None
      (mkSystem l cs (if b : bool then signal_lines w else w) Joining)
| step_join l cs : step (mkSystem l cs Returned Joining) None (mkSystem l cs NotStarted NoStop).

(** [StartThread], and [StopThread] up to its unlock. *)
Inductive command : System -> System -> Prop :=
| command_start l cs : thread_running_ l = false ->
    command (mkSystem l cs NotStarted NoStop) (mkSystem (set_running l true) cs AtLoop NoStop)
| command_stop l cs w :
    thread_running_ l = true -> Forall idle cs ->
    command (mkSystem l cs w NoStop)
      (mkSystem (set_running (set_queue l (queued_lines_ l ++ [None])) false) cs w
         (Unlocked (bool_decide (queued_lines_ l = [])))).

(** Wake-ups nobody asked for. *)
Inductive spurious : System -> System -> Prop :=
| spurious_writer l cs st : spurious (mkSystem l cs WaitLines st) (mkSystem l cs AtLoop st)
| spurious_caller l cs w st i line todo :
    cs !! i = Some (WaitFull line todo) ->
    spurious (mkSystem l cs w st) (mkSystem l (<[i := WokenFull line todo]> cs) w st).

(** The logger as it is created, with the lines the callers are going to log. *)
Definition new_Logger (log_fd : Z) : Logger := mkLogger [] false log_fd [] [].
Definition start (log_fd : Z) (todos : list (list string)) : System :=
  mkSystem (new_Logger log_fd) (map Calling todos) NotStarted NoStop.

(** Executions with the lines in the order in which their calls took effect. *)
Inductive run : System -> list string -> System -> Prop :=
| run_refl s : run s [] s
| run_step s ls s' l s'' : run s ls s' -> step s' l s'' -> run s (ls ++ option_list l) s''
| run_command s ls s' s'' : run s ls s' -> command s' s'' -> run s ls s''
| run_spurious s ls s' s'' : run s ls s' -> spurious s' s'' -> run s ls s''.

End Logger.

Module LoggerFacts.
Import Logger.

(** ** The invariant *)

Definition lines (q : list (option string)) : list string := omap id q.
Definition all_lines (q : list (option string)) : Prop := Forall (fun l => l <> None) q.
(** A queue that ends with the null line of [StopThread]. *)
Definition closed (q : list (option string)) : Prop := exists q', q = q' ++ [None] /\ all_lines q'.

Definition local (w : Writer) : list (option string) := match w with Writing q => q | _ => [] end.
Definition waits (c : Caller) : Prop := match c with WaitFull _ _ => True | _ => False end.

(** Everything accepted and not yet forgotten, in order. *)
Definition accepted (s : System) : list string :=
  stdout (lg s) ++ lines (local (writer s)) ++ lines (queued_lines_ (lg s)).

Record running_inv (s : System) : Prop := {
  ru_queue : all_lines (queued_lines_ (lg s));
  ru_local : all_lines (local (writer s));
  ru_writer : writer s <> NotStarted /\ writer s <> Returned;
  ru_wait : writer s = WaitLines -> queued_lines_ (lg s) = [];
  ru_full : Exists waits (callers s) -> full (queued_lines_ (lg s)) = true
}.

(** Before the thread is started, while it runs, and while it is being stopped. *)
Definition inv (s : System) : Prop :=
  (logfile (lg s) = if 0 <=? log_fd_ (lg s) then stdout (lg s) else []) /\
  match stopper s, thread_running_ (lg s) with
  | NoStop, false => writer s = NotStarted /\ queued_lines_ (lg s) = [] /\ Forall idle (callers s)
  | NoStop, true => running_inv s
  | _, true => False
  | st, false => Forall idle (callers s) /\
      match writer s with
      | AtLoop => closed (queued_lines_ (lg s))
      | WaitLines => closed (queued_lines_ (lg s)) /\ st = Unlocked true
      | Writing q => all_lines q /\ closed (queued_lines_ (lg s)) \/
                     closed q /\ queued_lines_ (lg s) = []
      | Returned => queued_lines_ (lg s) = []
      | NotStarted => False
      end
  end.

Lemma lines_app q q' : lines (q ++ q') = lines q ++ lines q'.
Proof. apply omap_app. Qed.

Lemma all_lines_cons_None q : ~ all_lines (None :: q).
Proof. intros H. by apply Forall_cons in H as [H _]. Qed.

Lemma closed_None q : closed (None :: q) -> q = [].
Proof.
  intros ([|x q'] & He & Ha); cbn in He; [by injection He as ->|].
  injection He as <- _. by apply all_lines_cons_None in Ha.
Qed.

Lemma closed_Some l q : closed (Some l :: q) -> closed q.
Proof.
  intros ([|x q'] & He & Ha); cbn in He; [done|]. injection He as <- ->.
  exists q'. split; [done|]. by apply Forall_cons in Ha as [_ Ha].
Qed.

Lemma not_closed_nil : ~ closed [].
Proof. intros (q & He & _). by destruct q. Qed.

Lemma full_nonempty q : full q = true -> q <> [].
Proof. intros H ->. done. Qed.

Lemma full_app q l : full q = true -> full (q ++ [l]) = true.
Proof.
  unfold full. intros H%Z.leb_le. apply Z.leb_le. rewrite length_app. lia.
Qed.

Lemma enqueue_running l w line l' w' cs :
  enqueue l w (Some line) = (l', w') -> running_inv (mkSystem l cs w NoStop) ->
  forall cs', (forall c, c ∈ cs' -> waits c -> c ∈ cs) -> running_inv (mkSystem l' cs' w' NoStop).
Proof.
  intros He [H1 H2 H3 H4 H5] cs' Hcs. injection He as <- <-. cbn in *. split; cbn.
  - apply Forall_app. split; [done|]. by repeat constructor.
  - case_bool_decide; [by destruct w | done].
  - case_bool_decide; [by destruct w | done].
  - case_bool_decide as Hq; [by destruct w|]. intros Hw. by apply H4 in Hw.
  - intros Hex. apply full_app, H5. apply Exists_exists in Hex as (c & Hc & Hw).
    apply Exists_exists. exists c. split; [by apply Hcs | done].
Qed.

Lemma enqueue_accepted l w line l' w' cs st cs' :
  enqueue l w (Some line) = (l', w') ->
  accepted (mkSystem l' cs' w' st) = accepted (mkSystem l cs w st) ++ [line].
Proof.
  intros He. injection He as <- <-. unfold accepted. cbn. rewrite lines_app, !app_assoc. f_equal. f_equal.
  f_equal. case_bool_decide; [by destruct w | done].
Qed.

Lemma no_waits cs : Forall idle cs -> Exists waits cs -> False.
Proof.
  intros Hi Hw. apply Exists_exists in Hw as (c & Hc & Hw). rewrite Forall_forall in Hi.
  specialize (Hi c Hc). by destruct c.
Qed.

Lemma insert_waits (cs : list Caller) i c c' :
  ~ waits c' -> c ∈ <[i := c']> cs -> waits c -> c ∈ cs.
Proof.
  intros Hn Hin Hw. apply list_elem_of_lookup in Hin as [j Hj].
  destruct (decide (i = j)) as [->|Hne].
  - destruct (decide (j < length cs)%nat).
    + rewrite list_lookup_insert_eq in Hj by done. injection Hj as ->. done.
    + rewrite list_insert_ge in Hj by lia. by eapply list_elem_of_lookup_2.
  - rewrite list_lookup_insert_ne in Hj by done. by eapply list_elem_of_lookup_2.
Qed.

Lemma wake_no_waits cs : ~ Exists waits (map wake cs).
Proof.
  intros H. apply Exists_exists in H as (c & Hc & Hw). apply list_elem_of_fmap in Hc as (c' & -> & _).
  by destruct c'.
Qed.

(** ** Every step keeps the invariant and the order of the lines *)

Lemma call_inv l cs w i line todo l' w' c' :
  inv (mkSystem l cs w NoStop) -> cs !! i = Some (Calling (line :: todo)) ->
  QueueLogLine l w line todo = (l', w', c') ->
  inv (mkSystem l' (<[i := c']> cs) w' NoStop) /\
  accepted (mkSystem l' (<[i := c']> cs) w' NoStop) =
  accepted (mkSystem l cs w NoStop) ++ option_list (match c' with Calling _ => Some line | _ => None end).
Proof.
  intros [Hlog Hi] Hc Hq. unfold QueueLogLine in Hq. cbn in Hi. destruct (thread_running_ l) eqn:Hrun.
  - destruct (full (queued_lines_ l)) eqn:Hf.
    + injection Hq as <- <- <-. cbn [option_list]. rewrite app_nil_r. split; [|done].
      split; [done|]. cbn. rewrite Hrun. destruct Hi as [H1 H2 H3 H4 H5]. by split.
    + injection Hq as He1 He2 <-.
      assert (He : enqueue l w (Some line) = (l', w')) by (by rewrite <- He1, <- He2).
      split; [|by apply (enqueue_accepted l w line)].
      split; [rewrite <- He1; exact Hlog|]. cbn. rewrite <- He1. cbn. rewrite Hrun.
      rewrite He1. apply (enqueue_running l w line l' w' cs He Hi). intros c. apply insert_waits. tauto.
  - injection Hq as <- <- <-. destruct Hi as (Hw & Hqe & Hidle). subst w. cbn [option_list]. split.
    + split; [cbn in *; rewrite Hlog; by destruct (0 <=? log_fd_ l)|].
      cbn. rewrite Hrun. split; [done|]. split; [done|]. by apply Forall_insert.
    + unfold accepted. cbn. by rewrite Hqe, !app_nil_r.
Qed.

Lemma resume_inv l cs w st i line todo l' w' c' :
  inv (mkSystem l cs w st) -> cs !! i = Some (WokenFull line todo) ->
  QueueLogLine_woken l w line todo = (l', w', c') ->
  inv (mkSystem l' (<[i := c']> cs) w' st) /\
  accepted (mkSystem l' (<[i := c']> cs) w' st) = accepted (mkSystem l cs w st) ++ [line].
Proof.
  intros [Hlog Hi] Hc Hq. unfold QueueLogLine_woken in Hq. injection Hq as He1 He2 <-.
  assert (He : enqueue l w (Some line) = (l', w')) by (by rewrite <- He1, <- He2).
  split; [|by apply (enqueue_accepted l w line)].
  split; [rewrite <- He1; exact Hlog|]. cbn in Hi |- *.
  assert (Hnidle : ~ Forall idle cs).
  { intros Ha. rewrite Forall_forall in Ha. by apply (Ha (WokenFull line todo)), (list_elem_of_lookup_2 _ i). }
  assert (Hrun : thread_running_ l' = thread_running_ l) by (by rewrite <- He1). rewrite Hrun.
  destruct st, (thread_running_ l); try done; try (by destruct Hi as [? _]).
  - apply (enqueue_running l w line l' w' cs He Hi). intros c. apply insert_waits. tauto.
  - by destruct Hi as (_ & _ & ?).
Qed.

Lemma turn_inv s :
  inv s -> writer s = AtLoop -> inv (ThreadMain_turn s) /\ accepted (ThreadMain_turn s) = accepted s.
Proof.
  destruct s as [l cs w st]. cbn. intros [Hlog Hi] ->. cbn in Hlog, Hi. unfold ThreadMain_turn. cbn.
  destruct (queued_lines_ l) as [|x q] eqn:Hq.
  - split; [|done]. split; [done|]. cbn. destruct st, (thread_running_ l); try done.
    + destruct Hi as [H1 H2 H3 H4 H5]. by split; cbn in *.
    + by destruct Hi.
    + by destruct Hi as [_ ?%not_closed_nil].
    + by destruct Hi as [_ ?%not_closed_nil].
  - split; [|unfold accepted; cbn [lg writer local queued_lines_ set_queue stdout];
             rewrite Hq; by rewrite app_nil_r].
    split; [done|]. cbn [stopper lg thread_running_ set_queue writer queued_lines_ callers].
    destruct st, (thread_running_ l); try done.
    + destruct Hi as [H1 H2 H3 H4 H5]. cbn in *. rewrite Hq in *. split; cbn; try done.
      destruct (full (x :: q)); [by intros ?%wake_no_waits|]. intros H. by apply H5 in H.
    + by destruct Hi.
    + destruct Hi as [Hidle Hc]. split; [|by right].
      destruct (full (x :: q)); [|done]. apply Forall_map. eapply Forall_impl; [exact Hidle|]. by intros [].
    + destruct Hi as [Hidle Hc]. split; [|by right].
      destruct (full (x :: q)); [|done]. apply Forall_map. eapply Forall_impl; [exact Hidle|]. by intros [].
Qed.

Lemma write_inv s q :
  inv s -> writer s = Writing q -> inv (ThreadMain_write s q) /\ accepted (ThreadMain_write s q) = accepted s.
Proof.
  destruct s as [l cs w st]. cbn. intros [Hlog Hi] ->. cbn in Hlog, Hi.
  destruct q as [|[line|] q]; cbn [ThreadMain_write lg callers stopper].
  - split; [|done]. split; [done|]. cbn. destruct st, (thread_running_ l); try done.
    + destruct Hi as [H1 H2 H3 H4 H5]. by split; cbn in *.
    + by destruct Hi.
    + destruct Hi as [? [[_ ?]|[?%not_closed_nil _]]]; done.
    + destruct Hi as [? [[_ ?]|[?%not_closed_nil _]]]; done.
  - split.
    + split; [cbn; rewrite Hlog; by destruct (0 <=? log_fd_ l)|]. cbn.
      destruct st, (thread_running_ l); try done.
      * destruct Hi as [H1 H2 H3 H4 H5]. cbn in *. split; cbn; try done. by apply Forall_cons in H2 as [_ ?].
      * by destruct Hi.
      * destruct Hi as [? [[[_ ?]%Forall_cons ?]|[?%closed_Some ?]]]; split; auto.
      * destruct Hi as [? [[[_ ?]%Forall_cons ?]|[?%closed_Some ?]]]; split; auto.
    + unfold accepted. cbn. by rewrite <- app_assoc.
  - assert (Hend : q = [] /\ queued_lines_ l = [] /\ st <> NoStop /\ thread_running_ l = false /\ Forall idle cs).
    { destruct st, (thread_running_ l); try done.
      - destruct Hi as [_ H2 _ _ _]. by apply all_lines_cons_None in H2.
      - by destruct Hi.
      - destruct Hi as [? [[?%all_lines_cons_None _]|[?%closed_None ?]]]; done.
      - destruct Hi as [? [[?%all_lines_cons_None _]|[?%closed_None ?]]]; done. }
    destruct Hend as (-> & Hqe & Hst & Hrun & Hidle). split.
    + split; [done|]. cbn. rewrite Hrun. by destruct st.
    + unfold accepted. cbn. by rewrite Hqe.
Qed.

Lemma logger_step_inv s l s' :
  inv s -> step s l s' -> inv s' /\ accepted s' = accepted s ++ option_list l.
Proof.
  intros Hi Hs. destruct Hs as [l cs w i line todo l' w' c' Hc Hq|l cs w st i line todo l' w' c' Hc Hq|
    s Hw|s q Hw|l cs w b|l cs].
  - by apply (call_inv l cs w i line todo).
  - by apply (resume_inv l cs w st i line todo).
  - cbn [option_list]. rewrite app_nil_r. by apply turn_inv.
  - cbn [option_list]. rewrite app_nil_r. by apply write_inv.
  - cbn [option_list]. rewrite app_nil_r. destruct Hi as [Hlog Hi]. cbn in Hlog, Hi. split.
    + split; [done|]. cbn. destruct (thread_running_ l); [done|]. destruct Hi as [Hidle Hi].
      split; [done|]. destruct w; destruct b; try done; by destruct Hi.
    + unfold accepted. cbn. destruct b; [|done]. by destruct w.
  - cbn [option_list]. rewrite app_nil_r. destruct Hi as [Hlog Hi]. cbn in Hlog, Hi.
    destruct (thread_running_ l) eqn:Hrun; [done|]. destruct Hi as [Hidle Hq]. split; [|done].
    split; [done|]. cbn. by rewrite Hrun.
Qed.

Lemma command_inv s s' : inv s -> command s s' -> inv s' /\ accepted s' = accepted s.
Proof.
  intros [Hlog Hi] Hc. destruct Hc as [l cs Hrun|l cs w Hrun Hidle]; cbn in Hlog, Hi; rewrite Hrun in Hi.
  - split; [|done]. split; [done|]. destruct Hi as (_ & Hq & Hidle). split; cbn; rewrite ?Hq; try done.
    + constructor.
    + constructor.
    + intros H. exfalso. by eapply no_waits.
  - destruct Hi as [H1 H2 H3 H4 H5]. cbn in *. split.
    + split; [done|]. cbn. split; [done|].
      assert (Hcl : closed (queued_lines_ l ++ [None])) by (by eexists).
      destruct w; try (by destruct H3); try done.
      * split; [done|]. by rewrite (H4 eq_refl).
      * left. by split.
    + unfold accepted. cbn. by rewrite lines_app, app_nil_r.
Qed.

Lemma spurious_inv s s' : inv s -> spurious s s' -> inv s' /\ accepted s' = accepted s.
Proof.
  intros [Hlog Hi] Hc. destruct Hc as [l cs st|l cs w st i line todo Hc]; cbn in Hlog, Hi.
  - split; [|done]. split; [done|]. cbn. destruct st, (thread_running_ l); try done.
    + destruct Hi as [H1 H2 H3 H4 H5]. by split.
    + by destruct Hi.
    + by destruct Hi as (? & ? & _).
    + by destruct Hi as (? & ? & _).
  - split; [|done]. split; [done|]. cbn.
    assert (Hnidle : ~ Forall idle cs).
    { intros Ha. rewrite Forall_forall in Ha. by apply (Ha (WaitFull line todo)), (list_elem_of_lookup_2 _ i). }
    destruct st, (thread_running_ l); try done; try (by destruct Hi as [? _]); [|by destruct Hi as (_ & _ & ?)].
    destruct Hi as [H1 H2 H3 H4 H5]. split; cbn in *; try done.
    intros Hex. apply H5. apply Exists_exists in Hex as (c & Hin & Hw). apply Exists_exists. exists c.
    split; [|done]. apply (insert_waits cs i c (WokenFull line todo)); [tauto | done | done].
Qed.

Lemma run_inv s ls s' :
  run s ls s' -> inv s -> inv s' /\ accepted s' = accepted s ++ ls.
Proof.
  intros Hr Hi. induction Hr as [s|s ls s' l s'' Hr IH Hs|s ls s' s'' Hr IH Hs|s ls s' s'' Hr IH Hs].
  - by rewrite app_nil_r.
  - destruct (IH Hi) as [Hi' Ha]. destruct (logger_step_inv _ _ _ Hi' Hs) as [Hi'' Ha''].
    by rewrite app_assoc, Ha'', Ha.
  - destruct (IH Hi) as [Hi' Ha]. destruct (command_inv _ _ Hi' Hs) as [Hi'' Ha'']. by rewrite Ha'', Ha.
  - destruct (IH Hi) as [Hi' Ha]. destruct (spurious_inv _ _ Hi' Hs) as [Hi'' Ha'']. by rewrite Ha'', Ha.
Qed.

Lemma start_inv fd todos : inv (start fd todos).
Proof.
  split; [cbn; by destruct (0 <=? fd)|]. cbn. split; [done|]. split; [done|].
  apply Forall_map, Forall_true. done.
Qed.

(** ** Which lines have been accepted *)

Definition remaining (c : Caller) : list string :=
  match c with Calling todo => todo | WaitFull l todo | WokenFull l todo => l :: todo end.

Lemma remaining_insert (cs : list Caller) i c c' p :
  cs !! i = Some c -> remaining c = p ++ remaining c' ->
  flat_map remaining cs ≡ₚ p ++ flat_map remaining (<[i := c']> cs).
Proof.
  revert i. induction cs as [|x cs IH]; intros [|i] Hc He; [done|done| |]; cbn in *.
  - injection Hc as ->. rewrite He. by rewrite <- app_assoc.
  - rewrite (IH i Hc He), !app_assoc. by rewrite (Permutation_app_comm (remaining x) p).
Qed.

Lemma remaining_wake cs : flat_map remaining (map wake cs) = flat_map remaining cs.
Proof. induction cs as [|c cs IH]; [done|]. cbn. rewrite IH. by destruct c. Qed.

Lemma step_remaining s l s' :
  step s l s' -> flat_map remaining (callers s) ≡ₚ option_list l ++ flat_map remaining (callers s').
Proof.
  intros Hs. destruct Hs as [l cs w i line todo l' w' c' Hc Hq|l cs w st i line todo l' w' c' Hc Hq|
    s Hw|s q Hw|l cs w b|l cs]; try done.
  - unfold QueueLogLine in Hq. destruct (thread_running_ l); [destruct (full _)|];
      injection Hq as <- <- <-; by apply (remaining_insert cs i (Calling (line :: todo))).
  - injection Hq as <- <- <-. by apply (remaining_insert cs i (WokenFull line todo)).
  - unfold ThreadMain_turn. destruct (queued_lines_ (lg s)) as [|x q]; [done|]. cbn [callers option_list app].
    destruct (full (x :: q)); [by rewrite remaining_wake | done].
  - by destruct q as [|[line|] q].
Qed.

Lemma run_remaining s ls s' :
  run s ls s' -> flat_map remaining (callers s) ≡ₚ ls ++ flat_map remaining (callers s').
Proof.
  intros Hr. induction Hr as [s|s ls s' l s'' Hr IH Hs|s ls s' s'' Hr IH Hs|s ls s' s'' Hr IH Hs].
  - done.
  - by rewrite IH, (step_remaining _ _ _ Hs), app_assoc.
  - rewrite IH. by destruct Hs.
  - rewrite IH. destruct Hs as [l cs st|l cs w st i line todo Hc]; [done|]. cbn [callers].
    by rewrite (remaining_insert cs i (WaitFull line todo) (WokenFull line todo) []) by done.
Qed.

Lemma start_remaining fd todos : flat_map remaining (callers (start fd todos)) = concat todos.
Proof. cbn. induction todos as [|t ts IH]; [done|]. cbn. by rewrite IH. Qed.

(** ** Progress *)

(** Nothing left to do: every call has returned, everything is written, and the thread,
    if there is one, waits for more. *)
Definition quiescent (s : System) : Prop :=
  Forall (fun c => c = Calling []) (callers s) /\ queued_lines_ (lg s) = [] /\
  local (writer s) = [] /\ stopper s = NoStop.

Lemma can_step_call l cs w i line todo :
  cs !! i = Some (Calling (line :: todo)) -> exists lab s', step (mkSystem l cs w NoStop) lab s'.
Proof.
  intros Hc. destruct (QueueLogLine l w line todo) as [[l' w'] c'] eqn:Hq.
  eexists _, _. by eapply step_call.
Qed.

Lemma callers_cases (cs : list Caller) :
  (exists i line todo, cs !! i = Some (Calling (line :: todo))) \/
  (exists i line todo, cs !! i = Some (WokenFull line todo)) \/
  Exists waits cs \/ Forall (fun c => c = Calling []) cs.
Proof.
  induction cs as [|c cs IH]; [right; right; right; constructor|].
  destruct c as [[|line todo]|line todo|line todo].
  - destruct IH as [(i & l & t & H)|[(i & l & t & H)|[H|H]]].
    + left. by exists (S i), l, t.
    + right. left. by exists (S i), l, t.
    + right. right. left. by right.
    + right. right. right. by constructor.
  - left. by exists 0%nat, line, todo.
  - right. right. left. by left.
  - right. left. by exists 0%nat, line, todo.
Qed.

(** A thread can go on, unless there is nothing left to do: no wake-up is lost. *)
Lemma progress s : inv s -> (exists lab s', step s lab s') \/ quiescent s.
Proof.
  intros Hi. destruct s as [l cs w st]. destruct w as [| | |q|].
  2: { left. eexists _, _. by apply step_turn. }
  3: { left. eexists _, _. by apply step_write. }
  all: destruct st as [|b|]; [|left; eexists _, _; apply step_signal|]; destruct Hi as [_ Hi]; cbn in Hi.
  all: destruct (thread_running_ l); try done.
  - by destruct Hi as [_ _ [? _] _ _].
  - destruct Hi as (_ & Hq & Hidle).
    destruct (callers_cases cs) as [(i & line & todo & Hc)|[(i & line & todo & Hc)|[Hw|Hall]]].
    + left. by eapply can_step_call.
    + left. eexists _, _. by eapply step_resume.
    + exfalso. by eapply no_waits.
    + right. by split.
  - by destruct Hi.
  - destruct Hi as [H1 H2 H3 H4 H5]. cbn in *.
    destruct (callers_cases cs) as [(i & line & todo & Hc)|[(i & line & todo & Hc)|[Hw|Hall]]].
    + left. by eapply can_step_call.
    + left. eexists _, _. by eapply step_resume.
    + exfalso. rewrite (H4 eq_refl) in H5. by apply H5 in Hw.
    + right. split; [done|]. split; [exact (H4 eq_refl) | done].
  - by destruct Hi as (? & _).
  - by destruct Hi as (_ & _ & ?).
  - by destruct Hi as [_ _ [_ ?] _ _].
  - by destruct Hi as (? & _).
  - left. eexists _, _. apply step_join.
Qed.

(** ** Termination: each step of a thread uses up part of the work *)

Definition caller_work (c : Caller) : nat :=
  match c with
  | Calling todo => 6 * length todo
  | WaitFull _ todo => 5 + 6 * length todo
  | WokenFull _ todo => 4 + 6 * length todo
  end.
Definition writer_work (w : Writer) : nat :=
  match w with NotStarted | WaitLines | Returned => 0 | AtLoop => 1 | Writing q => 2 + 3 * length q end.
Definition stopper_work (st : Stopper) : nat := match st with NoStop => 0 | Unlocked _ => 4 | Joining => 1 end.
Definition work (s : System) : nat :=
  3 * sum_list_with caller_work (callers s) + 6 * length (queued_lines_ (lg s)) +
  writer_work (writer s) + stopper_work (stopper s).

Lemma work_insert (cs : list Caller) i c c' :
  cs !! i = Some c ->
  (sum_list_with caller_work (<[i := c']> cs) + caller_work c =
   sum_list_with caller_work cs + caller_work c')%nat.
Proof.
  revert i. induction cs as [|x cs IH]; intros [|i] H; [done|done| |].
  - injection H as ->. change (<[0%nat := c']> (c :: cs)) with (c' :: cs). cbn [sum_list_with]. lia.
  - specialize (IH i H). change (<[S i := c']> (x :: cs)) with (x :: <[i := c']> cs).
    cbn [sum_list_with]. lia.
Qed.

Lemma work_wake cs : (sum_list_with caller_work (map wake cs) <= sum_list_with caller_work cs)%nat.
Proof. induction cs as [|c cs IH]; [done|]. cbn. destruct c; cbn; lia. Qed.

Lemma signal_work w : (writer_work (signal_lines w) <= writer_work w + 1)%nat.
Proof. destruct w; cbn; lia. Qed.

Lemma enqueue_work l w line l' w' :
  enqueue l w line = (l', w') ->
  (length (queued_lines_ l') = S (length (queued_lines_ l)) /\ writer_work w' <= writer_work w + 1)%nat.
Proof.
  intros He. injection He as <- <-. cbn. rewrite length_app. cbn.
  pose proof (signal_work w). case_bool_decide; lia.
Qed.

Lemma step_work s lab s' : step s lab s' -> (work s' < work s)%nat.
Proof.
  intros Hs. destruct Hs as [l cs w i line todo l' w' c' Hc Hq|l cs w st i line todo l' w' c' Hc Hq|
    s Hw|s q Hw|l cs w b|l cs]; unfold work; cbn [callers lg writer stopper].
  - pose proof (work_insert cs i _ c' Hc) as Hw. cbn in Hw. unfold QueueLogLine in Hq.
    destruct (thread_running_ l); [destruct (full _)|].
    + injection Hq as <- <- <-. cbn in Hw. lia.
    + injection Hq as He1 He2 <-.
      destruct (enqueue_work l w (Some line) l' w') as [H1 H2]; [by rewrite <- He1, <- He2|]. cbn in Hw. lia.
    + injection Hq as <- <- <-. cbn in *. lia.
  - pose proof (work_insert cs i _ c' Hc) as Hw. injection Hq as He1 He2 <-.
    destruct (enqueue_work l w (Some line) l' w') as [H1 H2]; [by rewrite <- He1, <- He2|]. cbn in Hw. lia.
  - unfold ThreadMain_turn. destruct (queued_lines_ (lg s)) as [|x q] eqn:Hq; cbn [callers lg writer stopper];
      rewrite Hw.
    + rewrite Hq. cbn. lia.
    + cbn [queued_lines_ set_queue writer_work]. pose proof (work_wake (callers s)).
      destruct (full (x :: q)); cbn [length]; lia.
  - rewrite Hw. destruct q as [|[line|] q]; cbn; lia.
  - pose proof (signal_work w). destruct b; cbn; lia.
  - cbn. lia.
Qed.

Lemma step_wf s : Acc (fun s' s => exists lab, step s lab s') s.
Proof.
  remember (work s) as k eqn:Hk. revert s Hk. induction k as [k IH] using lt_wf_ind. intros s ->.
  constructor. intros s' [lab Hs]. apply (IH (work s')); [by eapply step_work | done].
Qed.

(** ** Properties *)

(** C28. The log queue is a first-in first-out channel that loses nothing.  Whatever the
    interleaving of the callers, the logging thread, starts, stops and spurious wake-ups:
    what has been written, followed by what the thread is writing and by what is queued,
    is exactly the sequence of the lines whose calls have taken effect, in that order; the
    log file, if there is one, has the same lines as standard output; and the lines not yet
    in that sequence are those the callers still have to log. *)
Theorem logger_fifo fd todos ls s :
  run (start fd todos) ls s ->
  stdout (lg s) ++ lines (local (writer s)) ++ lines (queued_lines_ (lg s)) = ls /\
  logfile (lg s) = (if 0 <=? log_fd_ (lg s) then stdout (lg s) else []) /\
  concat todos ≡ₚ ls ++ flat_map remaining (callers s).
Proof.
  intros Hr. destruct (run_inv _ _ _ Hr (start_inv fd todos)) as [[Hlog _] Ha].
  split; [done|]. split; [done|]. by rewrite <- (start_remaining fd), (run_remaining _ _ _ Hr).
Qed.

(** C29. No wake-up is lost and everything is written.  From any state the program can
    reach, the steps of the threads (without further starts, stops and spurious wake-ups)
    come to an end, whatever the scheduling; and they end only when every call has
    returned, the queue is empty and standard output has every line of every caller. *)
Theorem logger_writes_everything fd todos ls s :
  run (start fd todos) ls s ->
  Acc (fun s' s => exists lab, step s lab s') s /\
  ((forall lab s', ~ step s lab s') ->
   Forall (fun c => c = Calling []) (callers s) /\ queued_lines_ (lg s) = [] /\
   stdout (lg s) = ls /\ ls ≡ₚ concat todos).
Proof.
  intros Hr. split; [apply step_wf|]. intros Hstuck.
  destruct (run_inv _ _ _ Hr (start_inv fd todos)) as [Hi Ha].
  destruct (progress s Hi) as [(lab & s' & Hs)|(Hc & Hq & Hl & _)]; [by apply Hstuck in Hs|].
  split; [done|]. split; [done|]. unfold accepted in Ha. rewrite Hq, Hl, !app_nil_r in Ha.
  split; [done|]. pose proof (run_remaining _ _ _ Hr) as Hrem. rewrite start_remaining in Hrem.
  rewrite Hrem. replace (flat_map remaining (callers s)) with (@nil string); [by rewrite app_nil_r|].
  clear -Hc. induction Hc as [|c cs -> Hc IH]; [done|]. cbn. exact IH.
Qed.

(** ** Executions with a given schedule *)

Inductive Choice := DoCall (i : nat) | DoResume (i : nat) | DoTurn | DoWrite | DoSignal | DoJoin | DoStart | DoStop.

Definition exec (s : System) (c : Choice) : option (option string * System) :=
  match c with
  | DoCall i =>
      match callers s !! i, stopper s with
      | Some (Calling (line :: todo)), NoStop =>
          let '(l', w', c') := QueueLogLine (lg s) (writer s) line todo in
          Some (match c' with Calling _ => Some line | _ => None end,
                mkSystem l' (<[i := c']> (callers s)) w' NoStop)
      | _, _ => None
      end
  | DoResume i =>
      match callers s !! i with
      | Some (WokenFull line todo) =>
          let '(l', w', c') := QueueLogLine_woken (lg s) (writer s) line todo in
          Some (Some line, mkSystem l' (<[i := c']> (callers s)) w' (stopper s))
      | _ => None
      end
  | DoTurn => match writer s with AtLoop => Some (None, ThreadMain_turn s) | _ => None end
  | DoWrite => match writer s with Writing q => Some (None, ThreadMain_write s q) | _ => None end
  | DoSignal =>
      match stopper s with
      | Unlocked b => Some (None, mkSystem (lg s) (callers s) (if b : bool then signal_lines (writer s) else writer s) Joining)
      | _ => None
      end
  | DoJoin =>
      match writer s, stopper s with
      | Returned, Joining => Some (None, mkSystem (lg s) (callers s) NotStarted NoStop)
      | _, _ => None
      end
  | DoStart =>
      match writer s, stopper s, thread_running_ (lg s) with
      | NotStarted, NoStop, false => Some (None, mkSystem (set_running (lg s) true) (callers s) AtLoop NoStop)
      | _, _, _ => None
      end
  | DoStop =>
      match stopper s, thread_running_ (lg s) with
      | NoStop, true =>
          if forallb (fun c => match c with Calling _ => true | _ => false end) (callers s)
          then Some (None, mkSystem (set_running (set_queue (lg s) (queued_lines_ (lg s) ++ [None])) false)
                             (callers s) (writer s) (Unlocked (bool_decide (queued_lines_ (lg s) = []))))
          else None
      | _, _ => None
      end
  end.

Fixpoint exec_all (cs : list Choice) (s : System) : option (list string * System) :=
  match cs with
  | [] => Some ([], s)
  | c :: cs' => match exec s c with
                | Some (l, s') => match exec_all cs' s' with
                                  | Some (ls, s'') => Some (option_list l ++ ls, s'')
                                  | None => None
                                  end
                | None => None
                end
  end.

Lemma exec_sound s c l s' :
  exec s c = Some (l, s') -> step s l s' \/ l = None /\ command s s'.
Proof.
  intros He. destruct s as [g cs w st]. destruct c; cbn in He.
  - destruct (cs !! i) as [[[|line todo]| |]|] eqn:Hc; try done. destruct st; try done.
    destruct (QueueLogLine g w line todo) as [[l' w'] c'] eqn:Hq. injection He as <- <-.
    left. by eapply step_call.
  - destruct (cs !! i) as [[| |line todo]|] eqn:Hc; try done. injection He as <- <-.
    left. by eapply step_resume.
  - destruct w; try done. injection He as <- <-. left. by apply step_turn.
  - destruct w; try done. injection He as <- <-. left. by apply step_write.
  - destruct st; try done. injection He as <- <-. left. by apply step_signal.
  - destruct w; try done. destruct st; try done. injection He as <- <-. left. by apply step_join.
  - destruct w; try done. destruct st; try done. destruct (thread_running_ g) eqn:Hrun; try done.
    injection He as <- <-. right. split; [done|]. by constructor.
  - destruct st; try done. destruct (thread_running_ g) eqn:Hrun; try done.
    destruct (forallb _ cs) eqn:Hall; [|done]. injection He as <- <-. right. split; [done|].
    constructor; [done|]. apply List.Forall_forall. intros c Hc.
    rewrite forallb_forall in Hall. specialize (Hall c Hc). by destruct c.
Qed.

Lemma exec_run s0 ls0 s c l s' :
  run s0 ls0 s -> exec s c = Some (l, s') -> run s0 (ls0 ++ option_list l) s'.
Proof.
  intros Hr [Hs|[-> Hs]]%exec_sound; [by eapply run_step|].
  rewrite app_nil_r. by eapply run_command.
Qed.

Lemma exec_all_run s0 ls0 s cs ls s' :
  run s0 ls0 s -> exec_all cs s = Some (ls, s') -> run s0 (ls0 ++ ls) s'.
Proof.
  revert ls0 s ls. induction cs as [|c cs IH]; intros ls0 s ls Hr He; cbn in He.
  - injection He as <- <-. by rewrite app_nil_r.
  - destruct (exec s c) as [[l s1]|] eqn:Hx; [|done].
    destruct (exec_all cs s1) as [[ls1 s2]|] eqn:Ha; [|done]. injection He as <- <-.
    rewrite app_assoc. apply (IH _ s1 _); [by eapply exec_run | done].
Qed.

(** Three lines of two callers, with a start, a stop and a line after it. *)
Definition sample_system : System := start 3 [["one"; "two"; "four"]; ["three"]]%string.
Definition sample_schedule : list Choice :=
  [DoStart; DoTurn; DoCall 0; DoCall 0; DoCall 1; DoTurn; DoWrite; DoStop; DoWrite; DoWrite; DoWrite; DoSignal;
   DoTurn; DoWrite; DoJoin; DoCall 0].
Definition sample_end : System :=
  Eval vm_compute in match exec_all sample_schedule sample_system with Some (_, s) => s | None => sample_system end.

Lemma sample_logged : run sample_system ["one"; "two"; "three"; "four"]%string sample_end.
Proof. apply (exec_all_run _ [] sample_system sample_schedule); [constructor | vm_compute; reflexivity]. Qed.

Lemma logger_fifo_witness :
  stdout (lg sample_end) ++ lines (local (writer sample_end)) ++ lines (queued_lines_ (lg sample_end)) =
  ["one"; "two"; "three"; "four"]%string.
Proof. apply (logger_fifo 3 [["one"; "two"; "four"]; ["three"]]%string), sample_logged. Defined.

Lemma logger_writes_everything_witness :
  stdout (lg sample_end) = ["one"; "two"; "three"; "four"]%string.
Proof.
  destruct (logger_writes_everything 3 [["one"; "two"; "four"]; ["three"]]%string _ _ sample_logged) as [_ H].
  apply H. intros lab s' Hs. inversion Hs as [l cs w i line todo l' w' c' Hc Hq|l cs w st i line todo l' w' c' Hc Hq|
    s Hw|s q Hw|l cs w b|l cs]; subst; try done.
  - by destruct i as [|[|i]].
  - by destruct i as [|[|i]].
Defined.

(** ** The limit on the queue *)

Definition woken (c : Caller) : nat := match c with WokenFull _ _ => 1 | _ => 0 end.

Lemma woken_insert (cs : list Caller) i c c' :
  cs !! i = Some c ->
  (sum_list_with woken (<[i := c']> cs) + woken c = sum_list_with woken cs + woken c')%nat.
Proof.
  revert i. induction cs as [|x cs IH]; intros [|i] H; [done|done| |].
  - injection H as ->. change (<[0%nat := c']> (c :: cs)) with (c' :: cs). cbn [sum_list_with]. lia.
  - specialize (IH i H). change (<[S i := c']> (x :: cs)) with (x :: <[i := c']> cs).
    cbn [sum_list_with]. lia.
Qed.

Lemma woken_bound cs : (sum_list_with woken cs <= length cs)%nat.
Proof. induction cs as [|c cs IH]; [done|]. cbn. destruct c; cbn in *; lia. Qed.

Definition queue_bounded (s : System) : Prop :=
  Z.of_nat (length (lines (queued_lines_ (lg s)))) + Z.of_nat (sum_list_with woken (callers s)) <=
    kMaxQueueSize + Z.of_nat (length (callers s)) /\
  Z.of_nat (length (lines (local (writer s)))) <= kMaxQueueSize + Z.of_nat (length (callers s)).

Lemma lines_length q : (length (lines q) <= length q)%nat.
Proof.
  induction q as [|[l|] q IH]; [done| |]; unfold lines in *; cbn in *; lia.
Qed.

Lemma lines_snoc q l : length (lines (q ++ [Some l])) = S (length (lines q)).
Proof. rewrite lines_app, length_app. unfold lines. cbn. lia. Qed.

Lemma signal_local w : local (signal_lines w) = local w.
Proof. by destruct w. Qed.

Lemma enqueue_local l w line l' w' : enqueue l w line = (l', w') -> local w' = local w.
Proof. intros He. injection He as _ <-. case_bool_decide; [apply signal_local | done]. Qed.

Lemma step_bounded s l s' :
  step s l s' -> queue_bounded s -> queue_bounded s' /\ length (callers s') = length (callers s).
Proof.
  unfold queue_bounded. intros Hs [Hb Hl].
  destruct Hs as [l cs w i line todo l' w' c' Hc Hq|l cs w st i line todo l' w' c' Hc Hq|
    s Hw|s q Hw|l cs w b|l cs]; cbn [callers lg writer stopper] in *.
  - rewrite length_insert. pose proof (woken_insert cs i _ c' Hc) as Hw. pose proof (woken_bound cs).
    unfold QueueLogLine in Hq. destruct (thread_running_ l); [destruct (full _) eqn:Hf|].
    + injection Hq as <- <- <-. cbn [woken] in Hw. lia.
    + injection Hq as He1 He2 <-. unfold full in Hf. apply Z.leb_gt in Hf.
      rewrite (enqueue_local l w (Some line) l' w') by (by rewrite <- He1, <- He2).
      rewrite <- He1. pose proof (lines_length (queued_lines_ l)). cbn [queued_lines_ set_queue].
      rewrite lines_snoc. cbn [woken] in Hw. lia.
    + injection Hq as <- <- <-. cbn [woken queued_lines_ WriteAndDeleteLogLine] in *. lia.
  - rewrite length_insert. pose proof (woken_insert cs i _ c' Hc) as Hw. injection Hq as He1 He2 <-.
    rewrite (enqueue_local l w (Some line) l' w') by (by rewrite <- He1, <- He2).
    rewrite <- He1. cbn [queued_lines_ set_queue]. rewrite lines_snoc. cbn [woken] in Hw. lia.
  - unfold ThreadMain_turn. destruct (queued_lines_ (lg s)) as [|x q] eqn:Hq; cbn [callers lg writer].
    + rewrite Hq. cbn in *. lia.
    + cbn [queued_lines_ set_queue local]. unfold kMaxQueueSize in *.
      pose proof (woken_bound (map wake (callers s))). pose proof (woken_bound (callers s)).
      destruct (full (x :: q)); rewrite ?length_map in *;
        change (length (lines [])) with 0%nat; lia.
  - rewrite Hw in *. destruct q as [|[line|] q]; cbn [ThreadMain_write lg callers writer local
      WriteAndDeleteLogLine queued_lines_] in *; unfold lines in *; cbn [omap list_omap id length] in *;
      unfold kMaxQueueSize in *; lia.
  - destruct b; rewrite ?signal_local; done.
  - done.
Qed.

(** Executions without spurious wake-ups. *)
Inductive calm_run : System -> System -> Prop :=
| calm_refl s : calm_run s s
| calm_step s s' l s'' : calm_run s s' -> step s' l s'' -> calm_run s s''
| calm_command s s' s'' : calm_run s s' -> command s' s'' -> calm_run s s''.

Lemma calm_bounded s s' :
  calm_run s s' -> queue_bounded s -> queue_bounded s' /\ length (callers s') = length (callers s).
Proof.
  intros Hr Hb. induction Hr as [s|s s1 l s2 Hr IH Hs|s s1 s2 Hr IH Hs]; [done| |].
  - destruct (IH Hb) as [Hb1 <-]. by eapply step_bounded.
  - destruct (IH Hb) as [Hb1 <-]. destruct Hs as [l cs Hrun|l cs w Hrun Hidle]; [done|].
    unfold queue_bounded in *. cbn in *. by rewrite lines_app, app_nil_r.
Qed.

(** How far the queue can grow.  As long as condition variables wake only the threads
    they are meant to, the queue holds at most [kMaxQueueSize] lines and one more for each
    caller, and so does the list the logging thread is writing. *)
Theorem queue_limit fd todos s :
  calm_run (start fd todos) s ->
  Z.of_nat (length (lines (queued_lines_ (lg s)))) <= kMaxQueueSize + Z.of_nat (length todos) /\
  Z.of_nat (length (lines (local (writer s)))) <= kMaxQueueSize + Z.of_nat (length todos).
Proof.
  intros Hr. destruct (calm_bounded _ _ Hr) as [[Hb Hl] Hn].
  - unfold queue_bounded, kMaxQueueSize. cbn. rewrite length_map.
    pose proof (woken_bound (map Calling todos)). rewrite length_map in *. lia.
  - assert (Hlen : length (callers (start fd todos)) = length todos) by (cbn; by rewrite length_map).
    rewrite <- Hlen, <- Hn. lia.
Qed.

Lemma exec_all_calm s0 s cs ls s' :
  calm_run s0 s -> exec_all cs s = Some (ls, s') -> calm_run s0 s'.
Proof.
  revert s ls. induction cs as [|c cs IH]; intros s ls Hr He; cbn in He.
  - by injection He as _ <-.
  - destruct (exec s c) as [[l s1]|] eqn:Hx; [|done].
    destruct (exec_all cs s1) as [[ls1 s2]|] eqn:Ha; [|done]. injection He as _ <-.
    apply (IH s1 ls1); [|done].
    apply exec_sound in Hx as [Hs|[-> Hs]]; [by eapply calm_step | by eapply calm_command].
Qed.

(** Two callers and a full queue: the first fills it, the second waits; the thread takes the
    queue and wakes the second, but the first fills the queue again before the second runs. *)
Definition crowd : System := start (-1) [replicate 500 "x"; ["y"]]%string.
Definition crowd_schedule : list Choice :=
  DoStart :: replicate 250 (DoCall 0) ++ [DoCall 1; DoTurn] ++ replicate 250 (DoCall 0) ++ [DoResume 1].
Definition crowd_end : System :=
  Eval vm_compute in match exec_all crowd_schedule crowd with Some (_, s) => s | None => crowd end.

Lemma crowd_run : calm_run crowd crowd_end.
Proof.
  apply (exec_all_calm _ crowd crowd_schedule (replicate 500 "x"%string ++ ["y"%string]));
    [constructor | vm_compute; reflexivity].
Qed.

Lemma queue_limit_witness : Z.of_nat (length (lines (queued_lines_ (lg crowd_end)))) <= 252.
Proof. apply (queue_limit (-1) [replicate 500 "x"; ["y"]]%string), crowd_run. Defined.

(** The wait is not repeated when the queue has filled up again meanwhile: without any
    spurious wake-up, the queue holds 251 lines and 501 are outstanding. *)
Theorem queue_exceeds_limit :
  calm_run crowd crowd_end /\
  length (lines (queued_lines_ (lg crowd_end))) = 251%nat /\
  length (lines (local (writer crowd_end))) = 250%nat.
Proof. split; [apply crowd_run | vm_compute; done]. Qed.

End LoggerFacts.
