(* ===== verification/LogLine.v ===== *)
(** The lines of the log: the detailed error lines of [src/src/worker.cc]
    ([FormatDramFrequencyValue], [FormatDramFrequencies], [FormatDramCoordinates] and the
    [logprintf] calls of [ProcessError] and [ProcessTagError]), and what
    [Logger::VLogF] of [src/src/logger.cc] makes of a line before it is queued: the renamed
    profile and, for the SM8975 profile, the topology block rewritten into packet rows.

    The theorems: the logger reads back from an error line the very address and data the
    worker printed, and rewrites exactly the topology block; the printed rows are never cut
    by their buffer; the internal name of the profile never leaves the program. *)

From Stdlib Require Import Ascii String.
From S2P Require Import Prelude Text Sm8975 Diagnostics Worker.

Module LogLine.
Import Text.

(** ** [logger.cc]; the out-parameters are never NULL in the program *)

Definition ParseHexAfter (line marker : text) : option Z :=
  match find marker line 0 with
  | None => None
  | Some marker_pos =>
      let digits_pos := (marker_pos + length marker)%nat in
      if (length line <=? digits_pos)%nat then None else strtoull16 (drop digits_pos line)
  end.

Definition ParseLoggedPhysicalAddress (line : text) : option Z :=
  at_pos ← rfind (txt " at ") line;
  open_pos ← find (txt "(") line (at_pos + 4);
  hex_pos ← find (txt "0x") line (open_pos + 1);
  strtoull16 (drop (hex_pos + 2) line).

(** The loop of [ReplaceAll]; each turn leaves fewer characters behind [pos]. *)
Fixpoint replace_loop (fuel : nat) (s from to : text) (pos : nat) : text :=
  match fuel with
  | O => s
  | S k => match find from s pos with
           | None => s
           | Some p => replace_loop k (replace s p (length from) to) from to (p + length to)
           end
  end.

Definition ReplaceAll (s from to : text) : text :=
  match from with [] => s | _ => replace_loop (S (length s)) s from to 0 end.

(** [AppendUnsignedList] and [AppendSignedList] differ in the conversion. *)
Definition append_list (fmt : Z -> text) (values : list Z) (count : Z) (output : text) : text :=
  fold_left (fun out i => (if i =? 0 then out else out ++ txt ",") ++ snprintf 32 (fmt (aget 0 values i)))
    (zrange 0 (Z.to_nat count)) (output ++ txt "[") ++ txt "]".
Definition AppendUnsignedList := append_list fmt_u.
Definition AppendSignedList := append_list fmt_d.

Definition row_fields (address : Z) (t : Sm8975.Sm8975Topology) : text :=
  txt "{addr:0x" ++ fmt_0X 9 address ++ txt ",norm:0x" ++ fmt_0X 9 (Sm8975.normalized_address t) ++
  txt ",ch:0x" ++ fmt_X (Sm8975.channel t) ++ txt ",cs:0x" ++ fmt_X (Sm8975.chip_select t) ++
  txt ",sc:0x" ++ fmt_X (Sm8975.subchannel t) ++ txt ",bk:0x" ++ fmt_X (Sm8975.bank t) ++
  txt ",row:0x" ++ fmt_0X 4 (Sm8975.row t) ++ txt ",mat:" ++ fmt_d (Sm8975.mat t) ++
  txt ",col:0x" ++ fmt_0X 2 (Sm8975.column t) ++ txt ",dq:".

(** One turn of the loop of [FormatSm8975Lp6Rows]. *)
Definition row_step (word_base expected actual : Z) (st : text * bool) (half : Z) : text * bool :=
  let '(output, emitted) := st in
  let shift := half * 32 in
  let expected_word := u32 (Z.land (Z.shiftr expected shift) 0xFFFFFFFF) in
  let actual_word := u32 (Z.land (Z.shiftr actual shift) 0xFFFFFFFF) in
  if expected_word =? actual_word then st
  else
    let address := u64 (word_base + half * 4) in
    match Sm8975.DecodeSm8975Address address (Some Sm8975.zero_topology) with
    | (true, Some topology) =>
        match Sm8975.MapSm8975MismatchWord32 address expected_word actual_word (Some Sm8975.zero_mapping) with
        | Some mapping =>
            let output := if emitted : bool then output ++ txt ";" else output in
            let output := output ++ snprintf 256 (row_fields address topology) in
            let output := AppendUnsignedList (Sm8975.dq mapping) (Sm8975.count mapping) output in
            let output := output ++ txt ",bl:" in
            let output := AppendUnsignedList (Sm8975.bl mapping) (Sm8975.count mapping) output in
            let output := output ++ txt ",hex:" in
            let output := AppendSignedList (Sm8975.hex mapping) (Sm8975.count mapping) output in
            (output ++ txt "}", true)
        | None => st
        end
    | (_, _) => st
    end.

Definition FormatSm8975Lp6Rows (physical_address expected actual : Z) : text :=
  let output := txt "map:sm8975-lp6,lp6:[" in
  if physical_address =? 0 then output ++ txt "unavailable]"
  else
    let word_base := Z.land physical_address (2 ^ 64 - 1 - 7) in
    let '(output, emitted) := fold_left (row_step word_base expected actual) (zrange 0 2) (output, false) in
    (if emitted : bool then output else output ++ txt "no-data-mismatch") ++ txt "]".

Definition RewriteSm8975Lp6FailLine (line : text) : text :=
  match find (txt "miscompare") line 0 with
  | None => line
  | Some _ =>
      match ParseLoggedPhysicalAddress line, ParseHexAfter line (txt "read:0x"),
            ParseHexAfter line (txt "expected:0x") with
      | Some physical_address, Some actual, Some expected =>
          match find (txt "expected:0x") line 0 with
          | Some expected_pos =>
              match find (txt "ch:") line expected_pos with
              | Some coord_start =>
                  match find (txt ", cur_mode:") line coord_start with
                  | Some coord_end =>
                      replace line coord_start (coord_end - coord_start)
                        (FormatSm8975Lp6Rows physical_address expected actual)
                  | None => line
                  end
              | None => line
              end
          | None => line
          end
      | _, _, _ => line
      end
  end.

(** The members of the logger [VLogF] reads. *)
Record LogSettings := mkLogSettings { verbosity_ : Z; log_timestamps_ : bool; sm8975_lp6_mapping_ : bool }.

(** [sizeof(buffer)]. *)
Definition buffer_size : nat := Z.to_nat 4096.

(** [stamp] is what [strftime] writes, at least one character and less than the buffer
    ([LOGGER_ASSERT(length)]); [body] is what the format and its arguments print.  The
    result is the line passed to [QueueLogLine], if any. *)
Definition VLogF (s : LogSettings) (priority : Z) (stamp body : text) : option text :=
  if verbosity_ s <? priority then None
  else
    let full := (if log_timestamps_ s then stamp else []) ++ body in
    let line := if (buffer_size <=? length full)%nat
                then take (buffer_size - 1) full ++ [ascii_of_nat 10] else full in
    let line := ReplaceAll line (txt "lpddr-v1") (txt "sm8975-lp6") in
    Some (if sm8975_lp6_mapping_ s then RewriteSm8975Lp6FailLine line else line).

(** ** [worker.cc] *)

Definition FormatDramFrequencyValue (frequency : Z) : text :=
  if 0 <=? frequency then fmt_d frequency else txt "unknown".

Definition FormatDramFrequencies (er : Worker.ErrorRecord) : text :=
  txt "write=" ++ FormatDramFrequencyValue (Worker.er_write_dram_frequency er) ++
  txt " read=" ++ FormatDramFrequencyValue (Worker.read_dram_frequency er) ++
  txt " reread=" ++ FormatDramFrequencyValue (Worker.reread_dram_frequency er).

Definition FormatDramCoordinates (profile : DramAddr.DramAddressMapProfile) (physical_address : Z) : text :=
  let unknown := txt "ch:unknown,rk:unknown,sc:unknown,bg:unknown,bank:unknown,row:unknown,col:unknown" in
  if physical_address =? 0 then unknown
  else match DramAddr.DecodeDramAddress profile physical_address
               (Some (DramAddr.mkDramAddress 0 0 0 0 0 0 0 0)) with
       | (true, Some a) =>
           txt "ch:" ++ fmt_u (DramAddr.da_channel a) ++ txt ",rk:" ++ fmt_u (DramAddr.da_rank a) ++
           txt ",sc:" ++ fmt_u (DramAddr.da_subchannel a) ++ txt ",bg:" ++ fmt_u (DramAddr.da_bank_group a) ++
           txt ",bank:" ++ fmt_u (DramAddr.da_bank a) ++ txt ",row:" ++ fmt_x (DramAddr.da_row a) ++
           txt ",col:" ++ fmt_x (DramAddr.da_column a)
       | (_, _) => unknown
       end.

(** What the lines take from the surroundings: the CPU, the thread's CPU set in text form,
    the mode of the frequency requests and the block history, if it is kept. *)
Record LineContext := mkContext {
  core_id : Z; cpus_format : text; dram_frequency_mode : text; profile : DramAddr.DramAddressMapProfile;
  block_history : option (string * Z * Z * Z * Z * Z * Z * string)
}.

Definition message_text (m : Worker.Message) : text :=
  match m with
  | Worker.HardwareError => txt "Hardware Error"
  | Worker.PageError => txt "Page Error"
  | Worker.BlockError => txt "Block Error"
  end.

Definition no_offset : Z := 2 ^ 64 - 1.

(** [offset] is the byte found by [ProcessError]; it is the distance of [vbyteaddr] to [vaddr]. *)
Definition sat_location (cfg : Worker.Config) (er : Worker.ErrorRecord) : text :=
  let offset := Worker.vbyteaddr er - Worker.addr_of cfg (Worker.vaddr er) in
  let error_offset_in_page :=
    if Worker.offset_in_page er =? no_offset then no_offset else u64 (Worker.offset_in_page er + offset) in
  if negb (Worker.sat_page_offset er =? no_offset) && negb (error_offset_in_page =? no_offset) then
    txt "sat_block:" ++ fmt_u (Worker.sat_page_offset er / Worker.page_length cfg) ++
    txt ",sat_offset:0x" ++ fmt_x (Worker.sat_page_offset er) ++
    txt ",block_offset:0x" ++ fmt_x error_offset_in_page
  else txt "sat_block:unknown,sat_offset:unknown,block_offset:unknown".

(** The text of [Sat::FormatBlockHistory]. *)
Definition history_text (h : string * Z * Z * Z * Z * Z * Z * string) : text :=
  let '(writer, generation, thread, cpu, age, first, last, span) := h in
  txt "last_writer:" ++ txt writer ++ txt ",generation:" ++ fmt_u generation ++
  txt ",writer_thread:" ++ fmt_d thread ++ txt ",writer_cpu:" ++ fmt_d cpu ++
  txt ",write_age_us:" ++ fmt_d age ++ txt ",freq_epoch_begin:" ++ fmt_u first ++
  txt ",freq_epoch_end:" ++ fmt_u last ++ txt ",freq_span:" ++ txt span.

Definition block_history_suffix (c : LineContext) (er : Worker.ErrorRecord) : text :=
  if Worker.sat_page_offset er =? no_offset then []
  else match block_history c with
       | Some h => txt ", block_history(" ++ history_text h ++ txt ")"
       | None => []
       end.

Definition data_fields (er : Worker.ErrorRecord) : text :=
  txt "read:0x" ++ fmt_0x 16 (Worker.actual er) ++ txt ", reread:0x" ++ fmt_0x 16 (Worker.reread er) ++
  txt ", expected:0x" ++ fmt_0x 16 (Worker.expected er) ++ txt ". ".

(** [char dimm_string[256]]. *)
Definition dimm_text (cfg : Worker.Config) (pa : Z) : text := snprintf 256 (txt (Worker.dimm_string cfg pa)).

Definition address_fields (cfg : Worker.Config) (er : Worker.ErrorRecord) : text :=
  fmt_p (Worker.addr_of cfg (Worker.vaddr er)) ++ txt "(0x" ++ fmt_x (Worker.paddr er) ++ txt ":" ++
  dimm_text cfg (Worker.paddr er) ++ txt "): ".

(** From the topology block on. *)
Definition tail_fields (c : LineContext) (er : Worker.ErrorRecord) : text :=
  FormatDramCoordinates (profile c) (Worker.paddr er) ++ txt ", cur_mode:" ++ dram_frequency_mode c ++
  txt ", cur_freq:" ++ FormatDramFrequencyValue (Worker.reread_dram_frequency er) ++
  txt ", ddr_freq(" ++ FormatDramFrequencies er ++ txt ")".

(** The line of [WorkerThread::ProcessError]. *)
Definition error_line (cfg : Worker.Config) (c : LineContext) (er : Worker.ErrorRecord)
    (msg : Worker.Message) : text :=
  message_text msg ++ txt ": miscompare on CPU " ++ fmt_d (core_id c) ++ txt "(<-" ++
  fmt_d (s32 (Worker.lastcpu er)) ++ txt ") at " ++ address_fields cfg er ++ data_fields er ++
  txt "'" ++ txt (default "None"%string (Worker.patternname er)) ++ txt "'; " ++
  (if Worker.reread er =? Worker.expected er then txt "read error" else txt "write error") ++
  txt ", worker:" ++ txt (Worker.worker_name er) ++ txt ", phase:" ++ txt (Worker.phase er) ++
  txt ", pattern_offset:" ++ fmt_u (Worker.pattern_byte_offset er) ++ txt ", " ++
  sat_location cfg er ++ txt ", " ++ tail_fields c er ++ block_history_suffix c er ++ txt "." ++ [ascii_of_nat 10].

(** The line of [ProcessTagError]. *)
Definition tag_error_line (cfg : Worker.Config) (c : LineContext) (er : Worker.ErrorRecord)
    (msg : Worker.Message) : text :=
  let kind := if Worker.actual er =? Worker.reread er then txt "write error" else txt "read error" in
  message_text msg ++ txt ": Tag from " ++ fmt_p (Worker.tagvaddr er) ++ txt "(0x" ++
  fmt_x (Worker.tagpaddr er) ++ txt ":" ++ dimm_text cfg (Worker.tagpaddr er) ++
  txt ") (" ++ kind ++ txt ") miscompare on CPU " ++ fmt_d (core_id c) ++ txt "(0x" ++ cpus_format c ++
  txt ") at " ++ address_fields cfg er ++ data_fields er ++ kind ++ txt ", " ++ tail_fields c er ++
  txt "." ++ [ascii_of_nat 10].

End LogLine.

Module LogLineFacts.
Import Text TextFacts LogLine.

(** ** Reading an error line *)

(** The texts the logger looks for. *)
Definition markers : list text :=
  [txt " at "; txt "read:0x"; txt "expected:0x"; txt "ch:"; txt ", cur_mode:"].
(** A text without any of them. *)
Definition plain (s : text) : bool := forallb (fun n => negb (contains n s)) markers.

Lemma plain_marker n s : plain s = true -> In n markers -> contains n s = false.
Proof. intros Hs Hn. unfold plain in Hs. rewrite forallb_forall in Hs. by apply negb_true_iff, Hs. Qed.

Lemma plain_take k s : plain s = true -> plain (take k s) = true.
Proof.
  intros Hs. apply forallb_forall. intros n Hn. apply negb_true_iff, contains_take.
  by apply plain_marker.
Qed.

Lemma txt_merge a b r : txt a ++ txt b ++ r = txt (String.append a b) ++ r.
Proof. induction a as [|c a IH]; [done|]. exact (f_equal (cons c) IH). Qed.

(** One piece of a text at a time: a literal, a number or a text without markers. *)
Ltac plain_side :=
  match goal with
  | H : contains ?n ?s = false |- contains ?n ?s = false => exact H
  | H : plain ?s = true |- contains _ ?s = false =>
      apply (plain_marker _ s H); unfold markers; cbn [In]; auto 10
  end.
Ltac is_number a :=
  match a with
  | fmt_d _ => idtac | fmt_u _ => idtac | fmt_x _ => idtac | fmt_X _ => idtac
  | fmt_0x _ _ => idtac | fmt_0X _ _ => idtac
  end.
Ltac piece :=
  match goal with
  | |- contains _ (txt _) = false => vm_compute; reflexivity
  | |- contains _ (txt _ ++ _) = false => apply contains_app; [vm_compute; reflexivity | | vm_compute; reflexivity]
  | |- contains _ (?a ++ _) = false =>
      is_number a; apply contains_number; [auto with text | reflexivity |]
  | |- contains _ (_ ++ _) = false => apply contains_app_r; [solve [plain_side] | | reflexivity]
  | |- contains _ ?a = false =>
      first [ solve [plain_side] | is_number a; apply contains_number_last; [auto with text | vm_compute; lia] ]
  end.
Ltac pieces := rewrite <- ?app_assoc, ?txt_merge; repeat piece.

Section ErrorLine.
(** A line cut at the places the logger looks at. *)
Context (head : text) (va pa : Z) (dimm : text) (act re exp : Z) (after coords tail : text).
Context (Hva : 0 < va) (Hpa : 0 <= pa < 2 ^ 64) (Hact : 0 <= act < 2 ^ 64) (Hre : 0 <= re < 2 ^ 64)
  (Hexp : 0 <= exp < 2 ^ 64).
Context (Hmis : contains (txt "miscompare") head = true) (Hdimm : plain dimm = true).
Context (Hh1 : contains (txt "read:0x") head = false) (Hh2 : contains (txt "expected:0x") head = false).
Context (Hm1 : contains (txt " at ") after = false) (Hm2 : contains (txt "ch:") (fmt_0x 16 exp ++ after) = false)
  (Hm3 : ends_number (after ++ txt "ch:") = true).
Context (Hc1 : contains (txt " at ") coords = false) (Hc2 : contains (txt ", cur_mode:") coords = false).
Context (Ht : contains (txt " at ") tail = false).

Definition rest_line : text := txt ", cur_mode:" ++ tail.
Definition before_coords : text :=
  head ++ txt " at " ++ fmt_p va ++ txt "(0x" ++ fmt_x pa ++ txt ":" ++ dimm ++ txt "): " ++
  txt "read:0x" ++ fmt_0x 16 act ++ txt ", reread:0x" ++ fmt_0x 16 re ++
  txt ", expected:0x" ++ fmt_0x 16 exp ++ after.
Definition line : text := before_coords ++ (txt "ch:" ++ coords) ++ rest_line.

Lemma fmt_p_nonnull : fmt_p va = txt "0x" ++ fmt_x va.
Proof. unfold fmt_p. destruct (va =? 0) eqn:H; [apply Z.eqb_eq in H; lia | done]. Qed.

Lemma line_physical : ParseLoggedPhysicalAddress line = Some pa.
Proof.
  unfold ParseLoggedPhysicalAddress, line, before_coords.
  set (r := txt ":" ++ dimm ++ txt "): " ++ txt "read:0x" ++ fmt_0x 16 act ++ txt ", reread:0x" ++
    fmt_0x 16 re ++ txt ", expected:0x" ++ fmt_0x 16 exp ++ after).
  rewrite fmt_p_nonnull, <- !app_assoc.
  rewrite rfind_last; [|done|].
  2: { subst r. unfold rest_line. rewrite (app_assoc (List.tl _) (txt "0x")).
       change (List.tl (txt " at ") ++ txt "0x") with (txt "at 0x"). pieces. }
  cbn [mbind option_bind].
  replace (length head + 4)%nat with (length (head ++ txt " at ")) by (rewrite length_app; done).
  replace (head ++ txt " at " ++ txt "0x" ++ fmt_x va ++ txt "(0x" ++ fmt_x pa ++ r ++ txt "ch:" ++ coords ++ rest_line)
    with ((head ++ txt " at ") ++ (txt "0x" ++ fmt_x va) ++ txt "(" ++ txt "0x" ++ fmt_x pa ++ r ++ txt "ch:" ++ coords ++ rest_line)
    by (by rewrite <- !app_assoc).
  rewrite find_from_first by (change (removelast (txt "(")) with (@nil ascii); rewrite app_nil_r; pieces).
  cbn [mbind option_bind].
  set (x := (head ++ txt " at ") ++ txt "0x" ++ fmt_x va).
  replace (length x + 1)%nat with (length (x ++ txt "(")) by (rewrite length_app; done).
  replace ((head ++ txt " at ") ++ (txt "0x" ++ fmt_x va) ++ txt "(" ++ txt "0x" ++ fmt_x pa ++ r ++ txt "ch:" ++ coords ++ rest_line)
    with ((x ++ txt "(") ++ [] ++ txt "0x" ++ fmt_x pa ++ r ++ txt "ch:" ++ coords ++ rest_line)
    by (unfold x; by rewrite <- !app_assoc).
  rewrite find_from_first by done. cbn [mbind option_bind]. rewrite app_nil_r. cbn [app].
  replace (length (x ++ txt "(") + 2)%nat with (length ((x ++ txt "(") ++ txt "0x"))
    by (rewrite (length_app _ (txt "0x")); done).
  rewrite (app_assoc (x ++ txt "(") (txt "0x")), drop_app_length.
  by apply strtoull16_fmt_x.
Qed.

Lemma find_0 n s : find n s 0 = find_at n s.
Proof. unfold find. change (drop 0 s) with s. destruct (find_at n s); done. Qed.

(** The hexadecimal number behind the first occurrence of a marker. *)
Lemma parse_hex_after marker a n r :
  contains marker (a ++ removelast marker) = false -> 0 <= n < 2 ^ 64 -> ends_number r = true ->
  ParseHexAfter (a ++ marker ++ fmt_0x 16 n ++ r) marker = Some n.
Proof.
  intros Hm Hn Hr. unfold ParseHexAfter. rewrite find_0, find_first by done.
  rewrite (app_assoc a marker), <- length_app, drop_app_length.
  rewrite (proj2 (Nat.leb_gt _ _)).
  - by apply strtoull16_pad.
  - rewrite !length_app. assert (length (fmt_0x 16 n) <> 0%nat); [|lia].
    intros H. apply nil_length_inv in H. unfold fmt_0x, pad in H. apply app_nil in H as [_ H].
    by apply digits_fuel_nonempty in H; [|lia].
Qed.

(** The text in front of the data fields, and the line cut in front of each marker. *)
Definition front : text :=
  head ++ txt " at " ++ fmt_p va ++ txt "(0x" ++ fmt_x pa ++ txt ":" ++ dimm ++ txt "): ".
Definition middle : text := txt "read:0x" ++ fmt_0x 16 act ++ txt ", reread:0x" ++ fmt_0x 16 re ++ txt ", ".

Lemma line_read_cut : line = front ++ txt "read:0x" ++ fmt_0x 16 act ++
  (txt ", reread:0x" ++ fmt_0x 16 re ++ txt ", expected:0x" ++ fmt_0x 16 exp ++ after ++ txt "ch:" ++ coords ++ rest_line).
Proof. unfold line, before_coords, front. by rewrite <- !app_assoc. Qed.

Lemma line_expected_cut : line = (front ++ middle) ++ txt "expected:0x" ++ fmt_0x 16 exp ++
  (after ++ txt "ch:" ++ coords ++ rest_line).
Proof. unfold line, before_coords, front, middle. by rewrite <- !app_assoc. Qed.

Lemma line_read : ParseHexAfter line (txt "read:0x") = Some act.
Proof.
  rewrite line_read_cut. apply parse_hex_after; [|done|done].
  unfold front. rewrite fmt_p_nonnull. change (removelast (txt "read:0x")) with (txt "read:0"). pieces.
Qed.

Lemma front_expected : contains (txt "expected:0x") ((front ++ middle) ++ removelast (txt "expected:0x")) = false.
Proof.
  unfold front, middle. rewrite fmt_p_nonnull. change (removelast (txt "expected:0x")) with (txt "expected:0").
  pieces.
Qed.

Lemma line_expected : ParseHexAfter line (txt "expected:0x") = Some exp.
Proof.
  rewrite line_expected_cut. apply parse_hex_after; [apply front_expected|done|].
  clear -Hm3. destruct after as [|c a]; done.
Qed.

Lemma contains_find n s : contains n s = true -> exists i, find n s 0 = Some i.
Proof. rewrite find_0. unfold contains. destruct (find_at n s) as [i|]; [by exists i | done]. Qed.

Lemma contains_more n a b : contains n a = true -> contains n (a ++ b) = true.
Proof. rewrite !contains_spec. intros (x & y & ->). exists x, (y ++ b). by rewrite <- !app_assoc. Qed.

(** The logger finds the three values and replaces the topology block, nothing else. *)
Lemma line_rewritten :
  RewriteSm8975Lp6FailLine line = before_coords ++ FormatSm8975Lp6Rows pa exp act ++ rest_line.
Proof.
  unfold RewriteSm8975Lp6FailLine.
  destruct (contains_find (txt "miscompare") line) as [i ->].
  { rewrite line_read_cut. unfold front. rewrite <- app_assoc. by apply contains_more. }
  rewrite line_physical, line_read, line_expected.
  rewrite find_0, line_expected_cut, find_first by apply front_expected.
  rewrite <- line_expected_cut.
  assert (Hb : before_coords = (front ++ middle) ++ txt "expected:0x" ++ fmt_0x 16 exp ++ after)
    by (unfold before_coords, front, middle; by rewrite <- !app_assoc).
  assert (Hch : find (txt "ch:") line (length (front ++ middle)) = Some (length before_coords)).
  { rewrite Hb. unfold line. rewrite Hb, <- (app_assoc (front ++ middle)), <- (app_assoc (txt "ch:")).
    apply find_from_first. change (removelast (txt "ch:")) with (txt "ch").
    rewrite <- app_assoc. apply contains_app; [reflexivity| |reflexivity].
    apply contains_app_r; [exact Hm2 | reflexivity | reflexivity]. }
  rewrite Hch.
  assert (Hcm : find (txt ", cur_mode:") line (length before_coords) =
                Some (length (before_coords ++ txt "ch:" ++ coords))).
  { unfold line, rest_line. apply find_from_first.
    change (removelast (txt ", cur_mode:")) with (txt ", cur_mode"). pieces. }
  rewrite Hcm. unfold replace, line. rewrite take_app_length. do 2 f_equal.
  replace (length before_coords + (length (before_coords ++ txt "ch:" ++ coords) - length before_coords))%nat
    with (length (before_coords ++ txt "ch:" ++ coords)) by (rewrite length_app; lia).
  by rewrite (app_assoc before_coords (txt "ch:" ++ coords) rest_line), drop_app_length.
Qed.

End ErrorLine.

(** ** The lines of the workers *)

Definition plain_history (h : string * Z * Z * Z * Z * Z * Z * string) : bool :=
  let '(writer, _, _, _, _, _, _, span) := h in plain (txt writer) && plain (txt span).

(** A record as [ProcessError] completes it, printed with names that do not imitate the
    markers of the line. *)
Record line_ok (cfg : Worker.Config) (c : LineContext) (er : Worker.ErrorRecord) : Prop := {
  lo_vaddr : 0 < Worker.addr_of cfg (Worker.vaddr er);
  lo_paddr : 0 <= Worker.paddr er < 2 ^ 64;
  lo_actual : 0 <= Worker.actual er < 2 ^ 64;
  lo_reread : 0 <= Worker.reread er < 2 ^ 64;
  lo_expected : 0 <= Worker.expected er < 2 ^ 64;
  lo_dimm : plain (txt (Worker.dimm_string cfg (Worker.paddr er))) = true;
  lo_tag_dimm : plain (txt (Worker.dimm_string cfg (Worker.tagpaddr er))) = true;
  lo_pattern : plain (txt (default "None"%string (Worker.patternname er))) = true;
  lo_worker : plain (txt (Worker.worker_name er)) = true;
  lo_phase : plain (txt (Worker.phase er)) = true;
  lo_mode : plain (dram_frequency_mode c) = true;
  lo_cpus : plain (cpus_format c) = true;
  lo_history : forall h, block_history c = Some h -> plain_history h = true
}.

Lemma contains_mid n a b : contains n (a ++ n ++ b) = true.
Proof. apply contains_spec. by exists a, b. Qed.

Definition unknown_coords : text :=
  txt "unknown,rk:unknown,sc:unknown,bg:unknown,bank:unknown,row:unknown,col:unknown".

(** The topology block begins with the marker the logger looks for. *)
Lemma coordinates_shape prof pa :
  exists coords, FormatDramCoordinates prof pa = txt "ch:" ++ coords /\
    contains (txt " at ") coords = false /\ contains (txt ", cur_mode:") coords = false.
Proof.
  unfold FormatDramCoordinates. destruct (pa =? 0).
  { exists unknown_coords. split; [reflexivity|]. split; vm_compute; reflexivity. }
  destruct (DramAddr.DecodeDramAddress _ _ _) as [[] [a|]].
  2-4: exists unknown_coords; (split; [reflexivity|]); split; vm_compute; reflexivity.
  eexists. split; [reflexivity|]. split; pieces.
Qed.

Lemma contains_fmt_p n v b :
  In n [txt "read:0x"; txt "expected:0x"] -> contains n (txt "(0x" ++ b) = false ->
  contains n (fmt_p v ++ txt "(0x" ++ b) = false.
Proof.
  intros Hn Hb. unfold fmt_p. destruct (v =? 0).
  - destruct Hn as [<-|[<-|[]]]; (apply contains_app; [vm_compute; reflexivity | exact Hb | vm_compute; reflexivity]).
  - rewrite <- app_assoc.
    destruct Hn as [<-|[<-|[]]]; (apply contains_app; [vm_compute; reflexivity | | vm_compute; reflexivity]);
      (apply contains_number; [auto with text | reflexivity | exact Hb]).
Qed.

(** A frequency is followed by a text that cannot complete the marker. *)
Lemma contains_frequency f b :
  contains (txt " at ") b = false -> contains (txt " at ") (FormatDramFrequencyValue f ++ b) = false.
Proof.
  intros Hb. unfold FormatDramFrequencyValue. destruct (0 <=? f).
  - apply contains_number; [auto with text | reflexivity | done].
  - apply contains_app; [vm_compute; reflexivity | done | vm_compute; reflexivity].
Qed.

Lemma contains_at_history h : plain_history h = true -> contains (txt " at ") (history_text h ++ txt ")." ++ [ascii_of_nat 10]) = false.
Proof.
  destruct h as [[[[[[[wr gen] th] cpu] age] fi] la] span]. cbn [plain_history history_text].
  generalize (txt wr) as w. generalize (txt span) as sp. intros sp w [Hw Hs]%andb_true_iff.
  change (txt ")." ++ [ascii_of_nat 10]) with (txt ").
"). pieces.
Qed.

(** The end of the line, from the mode of the frequency requests on. *)
Definition mode_fields (c : LineContext) (er : Worker.ErrorRecord) (suffix : text) : text :=
  dram_frequency_mode c ++ txt ", cur_freq:" ++ FormatDramFrequencyValue (Worker.reread_dram_frequency er) ++
  txt ", ddr_freq(" ++ FormatDramFrequencies er ++ txt ")" ++ suffix.

Lemma contains_at_mode cfg c er suffix :
  line_ok cfg c er -> contains (txt " at ") (txt ")" ++ suffix) = false ->
  contains (txt " at ") (mode_fields c er suffix) = false.
Proof.
  intros Hok Hs. pose proof (lo_mode _ _ _ Hok) as Hm. unfold mode_fields, FormatDramFrequencies.
  rewrite <- !app_assoc. apply contains_app_r; [plain_side| |reflexivity].
  apply contains_app; [vm_compute; reflexivity| |vm_compute; reflexivity]. apply contains_frequency.
  rewrite txt_merge. apply contains_app; [vm_compute; reflexivity| |vm_compute; reflexivity].
  apply contains_frequency. apply contains_app; [vm_compute; reflexivity| |vm_compute; reflexivity].
  apply contains_frequency. apply contains_app; [vm_compute; reflexivity| |vm_compute; reflexivity].
  by apply contains_frequency.
Qed.

Lemma contains_at_suffix cfg c er :
  line_ok cfg c er ->
  contains (txt " at ") (txt ")" ++ block_history_suffix c er ++ txt "." ++ [ascii_of_nat 10]) = false.
Proof.
  intros Hok. unfold block_history_suffix.
  destruct (Worker.sat_page_offset er =? no_offset); [vm_compute; reflexivity|].
  destruct (block_history c) as [h|] eqn:Hh; [|vm_compute; reflexivity].
  rewrite <- !app_assoc. rewrite txt_merge. apply contains_app; [vm_compute; reflexivity| |vm_compute; reflexivity].
  rewrite txt_merge. apply contains_at_history. by apply (lo_history _ _ _ Hok).
Qed.

(** What [ProcessError] prints between the expected value and the topology block. *)
Definition error_middle (cfg : Worker.Config) (er : Worker.ErrorRecord) : text :=
  txt ". " ++ txt "'" ++ txt (default "None"%string (Worker.patternname er)) ++ txt "'; " ++
  (if Worker.reread er =? Worker.expected er then txt "read error" else txt "write error") ++
  txt ", worker:" ++ txt (Worker.worker_name er) ++ txt ", phase:" ++ txt (Worker.phase er) ++
  txt ", pattern_offset:" ++ fmt_u (Worker.pattern_byte_offset er) ++ txt ", " ++
  sat_location cfg er ++ txt ", ".

Lemma contains_location n cfg er :
  In n [txt " at "; txt "ch:"] -> contains n (txt ", " ++ sat_location cfg er ++ txt ", ") = false.
Proof.
  intros Hn. unfold sat_location. destruct (_ && _).
  - destruct Hn as [<-|[<-|[]]]; pieces.
  - destruct Hn as [<-|[<-|[]]]; vm_compute; reflexivity.
Qed.

Lemma contains_middle n cfg c er :
  line_ok cfg c er -> In n [txt " at "; txt "ch:"] -> contains n (error_middle cfg er) = false.
Proof.
  intros Hok Hn. unfold error_middle. pose proof (contains_location n cfg er Hn) as Hl.
  pose proof (lo_pattern _ _ _ Hok) as Hp. pose proof (lo_worker _ _ _ Hok) as Hw.
  pose proof (lo_phase _ _ _ Hok) as Hph. revert Hp Hw Hph Hl.
  generalize (txt (default "None"%string (Worker.patternname er))) as pt.
  generalize (txt (Worker.worker_name er)) as wk. generalize (txt (Worker.phase er)) as ph.
  generalize (sat_location cfg er) as loc. intros loc ph wk pt Hp Hw Hph Hl.
  destruct (Worker.reread er =? Worker.expected er); destruct Hn as [<-|[<-|[]]]; rewrite ?txt_merge;
    do 7 piece; (apply contains_number; [auto with text | reflexivity | exact Hl]).
Qed.

(** The line of [ProcessError] and of [ProcessTagError] up to " at ". *)
Definition error_head (c : LineContext) (er : Worker.ErrorRecord) (msg : Worker.Message) : text :=
  message_text msg ++ txt ": miscompare on CPU " ++ fmt_d (core_id c) ++ txt "(<-" ++
  fmt_d (s32 (Worker.lastcpu er)) ++ txt ")".

Definition tag_kind (er : Worker.ErrorRecord) : text :=
  if Worker.actual er =? Worker.reread er then txt "write error" else txt "read error".
Definition tag_head (cfg : Worker.Config) (c : LineContext) (er : Worker.ErrorRecord) (msg : Worker.Message) : text :=
  message_text msg ++ txt ": Tag from " ++ fmt_p (Worker.tagvaddr er) ++ txt "(0x" ++
  fmt_x (Worker.tagpaddr er) ++ txt ":" ++ dimm_text cfg (Worker.tagpaddr er) ++
  txt ") (" ++ tag_kind er ++ txt ") miscompare on CPU " ++ fmt_d (core_id c) ++ txt "(0x" ++ cpus_format c ++ txt ")".

Lemma error_head_clean n c er msg :
  In n [txt "read:0x"; txt "expected:0x"] -> contains n (error_head c er msg) = false.
Proof.
  intros Hn. unfold error_head. destruct msg; cbn [message_text]; destruct Hn as [<-|[<-|[]]]; pieces.
Qed.

Lemma tag_head_clean n cfg c er msg :
  line_ok cfg c er -> In n [txt "read:0x"; txt "expected:0x"] -> contains n (tag_head cfg c er msg) = false.
Proof.
  intros Hok Hn. unfold tag_head, dimm_text, snprintf.
  pose proof (plain_take (256 - 1) _ (lo_tag_dimm _ _ _ Hok)) as Hd. pose proof (lo_cpus _ _ _ Hok) as Hc.
  revert Hd Hc. generalize (take (256 - 1) (txt (Worker.dimm_string cfg (Worker.tagpaddr er)))) as dimm.
  generalize (cpus_format c) as cs. intros cs dimm Hd Hc. unfold tag_kind.
  destruct (Worker.actual er =? Worker.reread er); destruct msg; cbn [message_text]; rewrite ?txt_merge;
    destruct Hn as [<-|[<-|[]]]; piece; (apply contains_fmt_p; [cbn; auto|]); repeat piece.
Qed.

Lemma tail_cut c er coords suffix :
  FormatDramCoordinates (profile c) (Worker.paddr er) = txt "ch:" ++ coords ->
  tail_fields c er ++ suffix = (txt "ch:" ++ coords) ++ rest_line (mode_fields c er suffix).
Proof.
  intros Hc. unfold tail_fields, rest_line, mode_fields. rewrite Hc. by rewrite <- !app_assoc.
Qed.

Lemma error_head_miscompare c er msg : contains (txt "miscompare") (error_head c er msg) = true.
Proof.
  unfold error_head. change (txt ": miscompare on CPU ") with (txt ": " ++ txt "miscompare" ++ txt " on CPU ").
  rewrite <- !app_assoc, (app_assoc (message_text msg)). apply contains_mid.
Qed.

Lemma tag_head_miscompare cfg c er msg : contains (txt "miscompare") (tag_head cfg c er msg) = true.
Proof.
  unfold tag_head. change (txt ") miscompare on CPU ") with (txt ") " ++ txt "miscompare" ++ txt " on CPU ").
  rewrite <- !app_assoc. rewrite !(app_assoc _ _ (txt "miscompare" ++ _)). apply contains_mid.
Qed.

Definition tag_middle (er : Worker.ErrorRecord) : text := txt ". " ++ tag_kind er ++ txt ", ".

Lemma tag_middle_clean n er : In n [txt " at "; txt "ch:"] -> contains n (tag_middle er) = false.
Proof.
  intros Hn. unfold tag_middle, tag_kind.
  destruct (_ =? _); destruct Hn as [<-|[<-|[]]]; vm_compute; reflexivity.
Qed.

(** C30. The logger understands what the workers print.  From the line of a memory error and
    from the line of a tag error it reads back the physical address and the two data words
    that were printed, and it replaces exactly the topology block by the rows of the SM8975
    packet mapping for that address and those words; the rest of the line is kept. *)
Theorem error_lines_rewritten cfg c er msg :
  line_ok cfg c er ->
  (exists before rest,
     error_line cfg c er msg = before ++ FormatDramCoordinates (profile c) (Worker.paddr er) ++ rest /\
     RewriteSm8975Lp6FailLine (error_line cfg c er msg) =
       before ++ FormatSm8975Lp6Rows (Worker.paddr er) (Worker.expected er) (Worker.actual er) ++ rest) /\
  (exists before rest,
     tag_error_line cfg c er msg = before ++ FormatDramCoordinates (profile c) (Worker.paddr er) ++ rest /\
     RewriteSm8975Lp6FailLine (tag_error_line cfg c er msg) =
       before ++ FormatSm8975Lp6Rows (Worker.paddr er) (Worker.expected er) (Worker.actual er) ++ rest).
Proof.
  intros Hok. destruct (coordinates_shape (profile c) (Worker.paddr er)) as (coords & Hc & Hc1 & Hc2).
  pose proof (plain_take (256 - 1) _ (lo_dimm _ _ _ Hok)) as Hd. destruct (id Hok). rewrite Hc. split.
  - assert (Hl : error_line cfg c er msg = line (error_head c er msg) (Worker.addr_of cfg (Worker.vaddr er))
      (Worker.paddr er) (dimm_text cfg (Worker.paddr er)) (Worker.actual er) (Worker.reread er) (Worker.expected er)
      (error_middle cfg er) coords (mode_fields c er (block_history_suffix c er ++ txt "." ++ [ascii_of_nat 10]))).
    { unfold error_line, line. rewrite <- (tail_cut c er coords) by done.
      unfold before_coords, error_head, address_fields, data_fields, error_middle. by rewrite <- !app_assoc. }
    eexists _, _. split; [exact Hl|]. rewrite Hl. apply line_rewritten; try done.
    + apply error_head_miscompare.
    + by apply error_head_clean; cbn; auto.
    + by apply error_head_clean; cbn; auto.
    + eapply contains_middle; [exact Hok | cbn; auto].
    + apply contains_number; [auto with text | reflexivity | eapply contains_middle; [exact Hok | cbn; auto]].
    + eapply contains_at_mode; [exact Hok | by eapply contains_at_suffix].
  - assert (Hl : tag_error_line cfg c er msg = line (tag_head cfg c er msg) (Worker.addr_of cfg (Worker.vaddr er))
      (Worker.paddr er) (dimm_text cfg (Worker.paddr er)) (Worker.actual er) (Worker.reread er) (Worker.expected er)
      (tag_middle er) coords (mode_fields c er (txt "." ++ [ascii_of_nat 10]))).
    { unfold tag_error_line, line. rewrite <- (tail_cut c er coords) by done.
      unfold before_coords, tag_head, address_fields, data_fields, tag_middle, tag_kind. by rewrite <- !app_assoc. }
    eexists _, _. split; [exact Hl|]. rewrite Hl. apply line_rewritten; try done.
    + apply tag_head_miscompare.
    + by eapply tag_head_clean; cbn; auto.
    + by eapply tag_head_clean; cbn; auto.
    + apply tag_middle_clean; cbn; auto.
    + apply contains_number; [auto with text | reflexivity | apply tag_middle_clean; cbn; auto].
    + by eapply contains_at_mode.
Qed.

(** ** The buffers *)

Ltac literal_lengths :=
  rewrite ?length_app;
  repeat match goal with
         | |- context [length (txt ?s)] =>
             let n := eval vm_compute in (length (txt s)) in change (length (txt s)) with n
         end.

(** [hex_len n k]: at most [k] hexadecimal digits. *)
Lemma hex_len upper n k : (1 <= k <= 64)%nat -> 0 <= n < 16 ^ Z.of_nat k -> (length (digits upper 16 n) <= k)%nat.
Proof. apply length_digits. lia. Qed.
Lemma dec_len n k : (1 <= k <= 64)%nat -> 0 <= n < 10 ^ Z.of_nat k -> (length (fmt_u n) <= k)%nat.
Proof. apply length_digits. lia. Qed.
Lemma int_len n k : (1 <= k <= 64)%nat -> Z.abs n < 10 ^ Z.of_nat k -> (length (fmt_d n) <= S k)%nat.
Proof.
  intros Hk Hn. unfold fmt_d. destruct (n <? 0) eqn:Hs; cbn [length].
  - apply Z.ltb_lt in Hs. apply le_n_S, dec_len; lia.
  - apply Z.ltb_ge in Hs. apply Nat.le_le_succ_r, dec_len; lia.
Qed.

Lemma frequency_len f : - 2 ^ 31 <= f < 2 ^ 31 -> (length (FormatDramFrequencyValue f) <= 11)%nat.
Proof.
  intros Hf. unfold FormatDramFrequencyValue. destruct (0 <=? f); [|vm_compute; lia].
  apply int_len; [lia|]. change (10 ^ Z.of_nat 10) with 10000000000. lia.
Qed.

Lemma row_fields_fit address t0 t :
  0 <= address < 2 ^ 64 -> Sm8975.DecodeSm8975Address address (Some t0) = (true, Some t) ->
  (length (row_fields address t) < 256)%nat.
Proof.
  intros Ha Hd. destruct (Sm8975Facts.decode_ranges address t0)
    as (t' & Hd' & Hch & Hcs & Hsc & Hbk & Hrow & Hcol & Hnorm & Hmat & _).
  rewrite Hd' in Hd. injection Hd as ->. unfold row_fields, fmt_0X, fmt_X. literal_lengths. rewrite !length_pad.
  pose proof (hex_len true address 16). pose proof (hex_len true (Sm8975.normalized_address t) 16).
  pose proof (hex_len true (Sm8975.channel t) 8). pose proof (hex_len true (Sm8975.chip_select t) 8).
  pose proof (hex_len true (Sm8975.subchannel t) 8). pose proof (hex_len true (Sm8975.bank t) 8).
  pose proof (hex_len true (Sm8975.row t) 8). pose proof (int_len (Sm8975.mat t) 8).
  pose proof (hex_len true (Sm8975.column t) 8).
  change (16 ^ Z.of_nat 16) with (2 ^ 64) in *. change (16 ^ Z.of_nat 8) with (2 ^ 32) in *.
  change (10 ^ Z.of_nat 8) with 100000000 in *. lia.
Qed.

Lemma coordinates_fit prof pa : (length (FormatDramCoordinates prof pa) < 192)%nat.
Proof.
  unfold FormatDramCoordinates. destruct (pa =? 0); [vm_compute; lia|].
  unfold DramAddr.DecodeDramAddress. case_bool_decide; [vm_compute; lia|].
  destruct (Sm8975Facts.decode_ranges pa Sm8975.zero_topology)
    as (t & -> & Hch & Hcs & Hsc & Hbk & Hrow & Hcol & _).
  cbn [DramAddr.da_channel DramAddr.da_rank DramAddr.da_subchannel DramAddr.da_bank_group DramAddr.da_bank
       DramAddr.da_row DramAddr.da_column].
  unfold fmt_x. literal_lengths.
  pose proof (dec_len (Sm8975.channel t) 8). pose proof (dec_len (Sm8975.chip_select t) 8).
  pose proof (dec_len (Sm8975.subchannel t) 8). pose proof (dec_len 0 8). pose proof (dec_len (Sm8975.bank t) 8).
  pose proof (hex_len false (Sm8975.row t) 8). pose proof (hex_len false (Sm8975.column t) 8).
  change (16 ^ Z.of_nat 8) with (2 ^ 32) in *. change (10 ^ Z.of_nat 8) with 100000000 in *. lia.
Qed.

(** The members of the block history have the widths of [struct BlockHistory]. *)
Definition history_ok (h : string * Z * Z * Z * Z * Z * Z * string) : Prop :=
  let '(writer, generation, thread, cpu, age, first, last, span) := h in
  (length (txt writer) <= 12)%nat /\ (length (txt span) <= 6)%nat /\
  0 <= generation < 2 ^ 64 /\ - 2 ^ 31 <= thread < 2 ^ 31 /\ - 2 ^ 31 <= cpu < 2 ^ 31 /\
  - 2 ^ 63 <= age < 2 ^ 63 /\ 0 <= first < 2 ^ 64 /\ 0 <= last < 2 ^ 64.

Lemma history_fits h : history_ok h -> (length (history_text h) < 256)%nat.
Proof.
  destruct h as [[[[[[[wr gen] th] cpu] age] fi] la] span]. cbn [history_ok history_text].
  intros (Hw & Hs & Hg & Ht & Hc & Ha & Hf & Hl). revert Hw Hs.
  generalize (txt wr) as w. generalize (txt span) as sp. intros sp w Hw Hs. literal_lengths.
  pose proof (dec_len gen 20). pose proof (int_len th 10). pose proof (int_len cpu 10).
  pose proof (int_len age 19). pose proof (dec_len fi 20). pose proof (dec_len la 20).
  change (10 ^ Z.of_nat 20) with 100000000000000000000 in *. change (10 ^ Z.of_nat 10) with 10000000000 in *.
  change (10 ^ Z.of_nat 19) with 10000000000000000000 in *. lia.
Qed.

Lemma location_fits cfg er :
  0 < Worker.page_length cfg -> 0 <= Worker.sat_page_offset er < 2 ^ 64 ->
  (length (sat_location cfg er) < 128)%nat.
Proof.
  intros Hp Hs. unfold sat_location. destruct (_ && _); [|vm_compute; lia].
  set (e := if _ =? no_offset then no_offset else _).
  assert (He : 0 <= e < 2 ^ 64) by (unfold e, no_offset; destruct (_ =? _); [lia | apply u64_bound]).
  assert (Hq : 0 <= Worker.sat_page_offset er / Worker.page_length cfg < 2 ^ 64).
  { split; [apply Z.div_pos; lia|]. apply Z.div_lt_upper_bound; [lia|]. nia. }
  unfold fmt_x. literal_lengths. pose proof (dec_len (Worker.sat_page_offset er / Worker.page_length cfg) 20).
  pose proof (hex_len false (Worker.sat_page_offset er) 16). pose proof (hex_len false e 16).
  change (16 ^ Z.of_nat 16) with (2 ^ 64) in *. change (10 ^ Z.of_nat 20) with 100000000000000000000 in *. lia.
Qed.

(** No part of a log line is cut by the buffer it is formatted in: the fields of a packet
    row (256 bytes), the topology block (192), the frequencies (128), the location in the
    test memory (128), and the block history (256, and 288 with its frame). *)
Theorem line_fields_fit cfg c er address t :
  0 <= address < 2 ^ 64 ->
  Sm8975.DecodeSm8975Address address (Some Sm8975.zero_topology) = (true, Some t) ->
  0 < Worker.page_length cfg -> 0 <= Worker.sat_page_offset er < 2 ^ 64 ->
  - 2 ^ 31 <= Worker.er_write_dram_frequency er < 2 ^ 31 ->
  - 2 ^ 31 <= Worker.read_dram_frequency er < 2 ^ 31 ->
  - 2 ^ 31 <= Worker.reread_dram_frequency er < 2 ^ 31 ->
  (forall h, block_history c = Some h -> history_ok h) ->
  snprintf 256 (row_fields address t) = row_fields address t /\
  snprintf 192 (FormatDramCoordinates (profile c) (Worker.paddr er)) = FormatDramCoordinates (profile c) (Worker.paddr er) /\
  snprintf 128 (FormatDramFrequencies er) = FormatDramFrequencies er /\
  snprintf 128 (sat_location cfg er) = sat_location cfg er /\
  (forall h, block_history c = Some h -> snprintf 256 (history_text h) = history_text h) /\
  snprintf 288 (block_history_suffix c er) = block_history_suffix c er.
Proof.
  intros Ha Hd Hp Hs Hw Hr Hrr Hh. unfold snprintf.
  split; [apply take_ge; pose proof (row_fields_fit _ _ _ Ha Hd); lia|].
  split; [apply take_ge; pose proof (coordinates_fit (profile c) (Worker.paddr er)); lia|].
  split. { apply take_ge. unfold FormatDramFrequencies. literal_lengths.
           pose proof (frequency_len _ Hw). pose proof (frequency_len _ Hr). pose proof (frequency_len _ Hrr). lia. }
  split; [apply take_ge; pose proof (location_fits cfg er Hp Hs); lia|].
  split; [intros h Hb; apply take_ge; pose proof (history_fits h (Hh h Hb)); lia|].
  apply take_ge. unfold block_history_suffix. destruct (_ =? _); [cbn; lia|].
  destruct (block_history c) as [h|]; [|cbn; lia]. literal_lengths. pose proof (history_fits h (Hh h eq_refl)). lia.
Qed.

(** ** The internal name of the profile *)

Section ReplaceAll.
Context (from to : text) (Hne : from <> []) (Hto : contains from to = false)
  (Hend : clean_end from to = true) (Hstart : clean_start from to = true)
  (Hlen : (length from <= S (length to))%nat).

Lemma replace_cut x y r : replace (x ++ from ++ y) (length x) (length from) r = (x ++ r) ++ y.
Proof.
  unfold replace. rewrite take_app_length, (app_assoc x from), <- length_app, drop_app_length.
  by rewrite <- app_assoc.
Qed.

Lemma contains_prefix d r :
  contains from d = false -> d = [] \/ clean_end from d = true -> contains from r = false ->
  contains from (d ++ r) = false.
Proof. intros Hd [->|Hc] Hr; [done|]. by apply contains_app. Qed.

(** Behind the part that is done, enough fuel for what is left. *)
Lemma replace_loop_clean fuel d rest :
  (length rest < fuel)%nat -> contains from d = false -> d = [] \/ clean_end from d = true ->
  contains from (replace_loop fuel (d ++ rest) from to (length d)) = false.
Proof.
  revert d rest. induction fuel as [|k IH]; intros d rest Hf Hd Hc; [lia|]. cbn [replace_loop].
  rewrite find_from. destruct (find_at from rest) as [i|] eqn:Hi; cbn [option_map].
  - apply find_at_split in Hi as (a & b & [(-> & <- & Ha)|?]); [|done].
    assert (Hat : contains from (a ++ to) = false) by (by apply contains_app_r).
    rewrite <- length_app, app_assoc, replace_cut, <- length_app.
    apply IH.
    + rewrite !length_app in Hf. destruct from; [done|]. cbn in Hf. lia.
    + rewrite <- app_assoc. by apply contains_prefix.
    + right. by apply clean_end_app.
  - apply contains_prefix; [done|done|]. unfold contains. by rewrite Hi.
Qed.

Lemma ReplaceAll_clean s : contains from (ReplaceAll s from to) = false.
Proof.
  replace (ReplaceAll s from to) with (replace_loop (S (length s)) s from to 0).
  - apply (replace_loop_clean (S (length s)) [] s); [lia| |by left].
    apply contains_false. intros a b He. symmetry in He. apply app_nil in He as [_ He].
    by apply app_nil in He as [? _].
  - clear -Hne. unfold ReplaceAll. by destruct from.
Qed.

End ReplaceAll.

Definition legacy : text := txt "lpddr-v1".

Lemma not_in_txt c (s : string) : forallb (fun d => negb (Ascii.eqb d c)) (txt s) = true -> c ∉ txt s.
Proof.
  intros H Hin. rewrite forallb_forall in H. apply list_elem_of_In in Hin. specialize (H c Hin).
  by rewrite Ascii.eqb_refl in H.
Qed.

(** No "v" among the pieces of the rows. *)
Definition no_v (s : text) : Prop := "v"%char ∉ s.

Lemma no_v_app s s' : no_v s -> no_v s' -> no_v (s ++ s').
Proof. unfold no_v. rewrite elem_of_app. tauto. Qed.
Lemma no_v_number s : numeric s -> no_v s.
Proof. intros H. by apply numeric_elem. Qed.
Lemma no_v_take k s : no_v s -> no_v (take k s).
Proof. intros H Hin. apply H. rewrite <- (take_drop k s). apply elem_of_app. by left. Qed.

Ltac no_v_step :=
  match goal with
  | |- no_v (_ ++ _) => apply no_v_app
  | |- no_v (txt _) => apply not_in_txt; vm_compute; reflexivity
  | |- no_v (take _ _) => apply no_v_take
  | |- no_v _ => solve [apply no_v_number; auto with text]
  end.

Lemma no_v_list fmt values count output :
  (forall n, numeric (fmt n)) -> no_v output -> no_v (append_list fmt values count output).
Proof.
  intros Hf Ho. unfold append_list. apply no_v_app; [|no_v_step].
  assert (H : no_v (output ++ txt "[")) by (apply no_v_app; [done | no_v_step]).
  revert H. generalize (output ++ txt "["). induction (zrange 0 (Z.to_nat count)) as [|i is_ IH]; intros o H; [done|].
  cbn [fold_left]. apply IH, no_v_app; [|by apply no_v_take, no_v_number].
  destruct (i =? 0); [done|]. apply no_v_app; [done | no_v_step].
Qed.

Lemma no_v_row base e a st half : no_v (st.1) -> no_v (row_step base e a st half).1.
Proof.
  destruct st as [out em]. intros Ho. unfold row_step. destruct (_ =? _); [done|].
  destruct (Sm8975.DecodeSm8975Address _ _) as [[] [t|]]; try done.
  destruct (Sm8975.MapSm8975MismatchWord32 _ _ _ _) as [m|]; [|done]. cbn [fst].
  apply no_v_app; [|no_v_step]. apply no_v_list; [auto with text|]. apply no_v_app; [|no_v_step].
  apply no_v_list; [auto with text|]. apply no_v_app; [|no_v_step]. apply no_v_list; [auto with text|].
  apply no_v_app.
  - destruct em; [apply no_v_app; [done | no_v_step] | done].
  - unfold snprintf, row_fields. repeat no_v_step.
Qed.

(** Text is only appended. *)
Definition extends (o o' : text) : Prop := exists r, o' = o ++ r.
Lemma extends_trans o o' o'' : extends o o' -> extends o' o'' -> extends o o''.
Proof. intros [r ->] [r' ->]. exists (r ++ r'). by rewrite app_assoc. Qed.
Lemma extends_app o o' r : extends o o' -> extends o (o' ++ r).
Proof. intros [r' ->]. exists (r' ++ r). by rewrite app_assoc. Qed.
Lemma extends_refl o : extends o o.
Proof. exists []. by rewrite app_nil_r. Qed.

Lemma list_extends fmt values count o o' : extends o o' -> extends o (append_list fmt values count o').
Proof.
  intros H. apply extends_app. apply (extends_app _ _ (txt "[")) in H. revert H. generalize (o' ++ txt "[").
  induction (zrange 0 (Z.to_nat count)) as [|i is_ IH]; intros x H; [done|]. cbn [fold_left].
  apply IH, extends_app. destruct (i =? 0); [done | by apply extends_app].
Qed.

Lemma row_extends base e a st half : extends st.1 (row_step base e a st half).1.
Proof.
  destruct st as [out em]. pose proof (extends_refl out) as H. unfold row_step. destruct (_ =? _); [done|].
  destruct (Sm8975.DecodeSm8975Address _ _) as [[] [t|]]; try done.
  destruct (Sm8975.MapSm8975MismatchWord32 _ _ _ _) as [m|]; [|done]. cbn [fst].
  do 2 (apply extends_app, list_extends). apply extends_app, list_extends, extends_app.
  destruct em; [by apply extends_app | done].
Qed.

Lemma rows_legacy pa e a :
  contains legacy (FormatSm8975Lp6Rows pa e a) = false /\
  clean_start legacy (FormatSm8975Lp6Rows pa e a) = true /\
  exists r, FormatSm8975Lp6Rows pa e a = r ++ ["]"%char].
Proof.
  unfold FormatSm8975Lp6Rows. destruct (pa =? 0).
  { split; [vm_compute; done|]. split; [vm_compute; done|]. by exists (txt "map:sm8975-lp6,lp6:[unavailable"). }
  set (base := Z.land _ _). set (o := txt "map:sm8975-lp6,lp6:[").
  change (zrange 0 2) with [0; 1]. cbn [fold_left].
  set (st := row_step base e a (row_step base e a (o, false) 0) 1).
  assert (Hv : no_v st.1) by (apply no_v_row, no_v_row; cbn [fst]; unfold o; no_v_step).
  assert (Hx : extends o st.1).
  { eapply extends_trans; [|apply row_extends]. apply (row_extends base e a (o, false)). }
  clearbody st. destruct st as [out em]. cbn [fst] in *. cbv beta iota zeta.
  assert (Hall : forall x, no_v x -> extends o x -> contains legacy (x ++ txt "]") = false /\
            clean_start legacy (x ++ txt "]") = true /\ exists r, x ++ txt "]" = r ++ ["]"%char]).
  { intros x Hnv [r ->]. split; [|by split; [|eexists]].
    apply (contains_lacks _ _ "v"%char); [vm_compute; set_solver|]. apply no_v_app; [done | no_v_step]. }
  destruct em; apply Hall; try done; [apply no_v_app; [done | no_v_step] | by apply extends_app].
Qed.

Lemma contains_drop n k s : contains n s = false -> contains n (drop k s) = false.
Proof. intros H. rewrite <- (take_drop k s) in H. by apply contains_app_inv in H as [_ ?]. Qed.

Lemma rewrite_legacy s : contains legacy s = false -> contains legacy (RewriteSm8975Lp6FailLine s) = false.
Proof.
  intros H. unfold RewriteSm8975Lp6FailLine.
  repeat match goal with |- context [match ?x with Some _ => _ | None => _ end] => destruct x; try done end.
  unfold replace. match goal with |- context [FormatSm8975Lp6Rows ?p ?x ?y] => destruct (rows_legacy p x y) as (H1 & H2 & H3) end.
  destruct H3 as [r Hr]. rewrite app_assoc. apply contains_app; [|by apply contains_drop|].
  - by apply contains_app_r; [apply contains_take| |].
  - rewrite Hr, app_assoc. apply clean_end_last, not_in_txt. vm_compute. reflexivity.
Qed.

(** The internal spelling of the profile never leaves the program: whatever is logged, with
    or without time stamps and rewriting, the line that is queued does not contain
    "lpddr-v1".  A line above the verbosity is not queued, any other is. *)
Theorem VLogF_hides_legacy s priority stamp body :
  match VLogF s priority stamp body with
  | Some line => priority <= verbosity_ s /\ contains (txt "lpddr-v1") line = false
  | None => verbosity_ s < priority
  end.
Proof.
  unfold VLogF. destruct (verbosity_ s <? priority) eqn:Hv; [by apply Z.ltb_lt in Hv|].
  apply Z.ltb_ge in Hv. split; [done|].
  match goal with |- context [ReplaceAll ?l _ _] => set (x := l) end.
  assert (H : contains legacy (ReplaceAll x (txt "lpddr-v1") (txt "sm8975-lp6")) = false)
    by (apply ReplaceAll_clean; vm_compute; first [done | lia]).
  destruct (sm8975_lp6_mapping_ s); [by apply rewrite_legacy | done].
Qed.

(** ** Examples *)

(** A word with one flipped bit in each half. *)
Definition sample_record : Worker.ErrorRecord :=
  Worker.mkError 0x100000001 0 0 3 24 0x880001238 0 0 2 (Some "JustZero256"%string) "check" "runtime_check"
    0 0 24 800 800 800.
Definition sample_context : LineContext :=
  mkContext 1 (txt "f") (txt "fixed") DramAddr.DRAM_ADDRESS_MAP_SM8975_LP6
    (Some ("copy"%string, 3, 2, 1, 150, 7, 8, "mixed"%string)).

Lemma sample_line_ok : line_ok WorkerFacts.sample_config sample_context sample_record.
Proof. split; try (vm_compute; done). intros h [= <-]. vm_compute. done. Qed.

Lemma error_lines_rewritten_witness :
  exists before rest,
    error_line WorkerFacts.sample_config sample_context sample_record Worker.HardwareError =
      before ++ FormatDramCoordinates (profile sample_context) 0x880001238 ++ rest /\
    RewriteSm8975Lp6FailLine
      (error_line WorkerFacts.sample_config sample_context sample_record Worker.HardwareError) =
      before ++ FormatSm8975Lp6Rows 0x880001238 0 0x100000001 ++ rest.
Proof.
  apply (error_lines_rewritten WorkerFacts.sample_config sample_context sample_record Worker.HardwareError).
  apply sample_line_ok.
Defined.

(** The example of the documentation, with the lowest bit flipped. *)
Example documented_row :
  FormatSm8975Lp6Rows 0x90A5EDC3C 0 1 =
  txt "map:sm8975-lp6,lp6:[{addr:0x90A5EDC38,norm:0x10A5EDC38,ch:0x0,cs:0x1,sc:0x1,bk:0xF,row:0x4297,mat:12,col:0x3D,dq:[4],bl:[16],hex:[24]}]".
Proof. vm_compute. reflexivity. Qed.

Lemma line_fields_fit_witness :
  snprintf 128 (sat_location WorkerFacts.sample_config sample_record) =
  sat_location WorkerFacts.sample_config sample_record.
Proof.
  apply (line_fields_fit WorkerFacts.sample_config sample_context sample_record 0x880001238
           (Sm8975.mkTopology 2 0 1 1 0x2000 6 9 0x80001238));
    [lia | vm_compute; done | vm_compute; done | vm_compute; done | vm_compute; done | vm_compute; done
     | vm_compute; done |].
  intros h [= <-]. cbn. vm_compute. repeat split; done || lia.
Defined.

End LogLineFacts.
