(* ===== verification/Options.v ===== *)
(** The command line: the constructor of [Sat] with its defaults, [Sat::ParseArgs] and its
    helpers in [src/src/sat.cc], and [PrepareDramMapArgs] of [src/src/main.cc].

    A numeric member of [Sat] is an entry of a map from member names to values, which an
    assignment converts to the member's type.  The options are a table in the order of the
    source; an entry says what the code does when [strcmp] finds the option.  Texts that
    are printed and the state after a [return false] are left out. *)

From Stdlib Require Import Ascii String.
From S2P Require Import Prelude Text Patterns OsLayer.

Module Options.
Import Text.
Local Open Scope string_scope.
Local Open Scope Z_scope.

(** ** Members *)

Inductive Width := Int | Int64 | Uint64 | Bool.

Definition convert (w : Width) (v : Z) : Z :=
  match w with
  | Int => s32 v | Int64 => s64 v | Uint64 => u64 v | Bool => if v =? 0 then 0 else 1
  end.

Definition kSatPageSize : Z := 1024 * 1024.
Definition kSatDiskPage : Z := 8.
Definition kCacheLineSize : Z := 64.
Definition kMaxDiagnosticWorkerCount : Z := 256.
Definition INT_MAX : Z := 2 ^ 31 - 1.

(** The enumerations are numbered as in [sat.h] and [dram_address.h]; pointers are 64 bits. *)
Definition members : list (string * (Width * Z)) := [
  ("runtime_seconds_", (Int, 20)); ("page_length_", (Int, kSatPageSize)); ("disk_pages_", (Int, kSatDiskPage));
  ("pages_", (Int64, 0)); ("size_mb_", (Int64, 0)); ("size_", (Int64, 0)); ("reserve_mb_", (Int64, 0));
  ("min_hugepages_mbytes_", (Int64, 0)); ("freepages_", (Int64, 0)); ("paddr_base_", (Uint64, 0));
  ("channel_hash_", (Uint64, kCacheLineSize)); ("channel_width_", (Int, 64)); ("pattern_byte_offset_", (Int, 0));
  ("post_fill_delay_seconds_", (Int, 0)); ("runtime_start_delay_seconds_", (Int, 0)); ("dram_sweep_", (Bool, 0));
  ("dram_step_seconds_", (Int, 3)); ("dram_address_map_profile_", (Int, 0));
  ("verbosity_", (Int, 8)); ("print_delay_", (Int, 10)); ("strict_", (Int, 1)); ("warm_", (Int, 0));
  ("verify_after_fill_", (Bool, 0)); ("copy_verify_destination_", (Bool, 0)); ("prefault_pages_", (Bool, 0));
  ("diag_vm_stats_", (Bool, 0)); ("diag_block_history_", (Bool, 0)); ("diag_phase_summary_", (Bool, 0));
  ("fill_preset_", (Int, 0)); ("fill_direction_", (Int, 0)); ("fill_verify_every_", (Int, 0));
  ("fill_yield_bytes_", (Int, 0)); ("invert_range_", (Int, 0)); ("final_check_threads_", (Int, 8));
  ("final_check_threads_explicit_", (Bool, 0)); ("skip_final_check_", (Bool, 0)); ("run_on_anything_", (Int, 0));
  ("use_logfile_", (Bool, 0)); ("log_timestamps_", (Bool, 1)); ("address_mode_", (Int, 64));
  ("error_injection_", (Bool, 0)); ("crazy_error_injection_", (Bool, 0)); ("max_errorcount_", (Uint64, 0));
  ("stop_on_error_", (Bool, 0)); ("error_log_limit_", (Int64, -1)); ("error_poll_", (Bool, 1));
  ("findfiles_", (Bool, 0)); ("do_page_map_", (Bool, 0)); ("cc_test_", (Bool, 0)); ("cc_cacheline_count_", (Int, 2));
  ("cc_cacheline_size_", (Int, 0)); ("cc_inc_count_", (Int, 1000)); ("cpu_freq_test_", (Bool, 0));
  ("cpu_freq_threshold_", (Int, 0)); ("cpu_freq_round_", (Int, 10)); ("file_threads_", (Int, 0));
  ("net_threads_", (Int, 0)); ("listen_threads_", (Int, 0)); ("memory_threads_", (Int, -1));
  ("invert_threads_", (Int, 0)); ("fill_threads_", (Int, 8)); ("check_threads_", (Int, 0));
  ("cpu_stress_threads_", (Int, 0)); ("disk_threads_", (Int, 0)); ("use_affinity_", (Bool, 1));
  ("region_mode_", (Int, 0)); ("pe_q_implementation_", (Int, 1)); ("read_block_size_", (Int, 512));
  ("write_block_size_", (Int, -1)); ("segment_size_", (Int64, -1)); ("cache_size_", (Int, -1));
  ("blocks_per_segment_", (Int, -1)); ("read_threshold_", (Int, -1)); ("write_threshold_", (Int, -1));
  ("non_destructive_", (Int, 1)); ("monitor_mode_", (Int, 0)); ("tag_mode_", (Int, 0)); ("random_threads_", (Int, 0));
  ("pause_delay_", (Int64, 600)); ("pause_duration_", (Int64, 15)) ].

(** The members that are not numbers; [filesize] is the local variable of [ParseArgs]. *)
Record Sat := mkSat {
  member : gmap string Z; filesize : Z; pattern_selector_ : string; dram_frequency_node_ : string;
  dram_frequencies_ : list Z; logfilename_ : string; filename_ : list string; ipaddrs_ : list string;
  diskfilename_ : list string; channels_ : list (list string)
}.

Definition width_of (m : string) : Width :=
  match (list_to_map members : gmap string (Width * Z)) !! m with Some (w, _) => w | None => Int end.

Definition get (s : Sat) (m : string) : Z := default 0 (member s !! m).

(** [variable = value]. *)
Definition set (s : Sat) (m : string) (v : Z) : Sat :=
  mkSat (<[m := convert (width_of m) v]> (member s)) (filesize s) (pattern_selector_ s)
    (dram_frequency_node_ s) (dram_frequencies_ s) (logfilename_ s) (filename_ s) (ipaddrs_ s)
    (diskfilename_ s) (channels_ s).

(** [Sat::Sat], with the first line of [ParseArgs]. *)
Definition new_Sat : Sat :=
  mkSat (list_to_map (map (fun '(m, (_, v)) => (m, v)) members)) (kSatPageSize * kSatDiskPage) ""
    "/sys/kernel/debug/aoss_send_message" [] "" [] [] [] [].

(** ** Values *)

Definition parse_int (low : Z) (value : string) : option Z :=
  match Patterns.strtol10 (txt value) with
  | Some (parsed, []) => if (parsed <? low) || (INT_MAX <? parsed) then None else Some parsed
  | _ => None
  end.
Definition ParsePositiveInt : string -> option Z := parse_int 1.
Definition ParseNonNegativeInt : string -> option Z := parse_int 0.

Definition kAllDramFrequencies : list Z := [547; 768; 1017; 1353; 1555; 1708; 2092; 2736; 3196; 4266; 5333].

(** The loop over the items between commas. *)
Fixpoint frequency_loop (items : list string) : option (list Z) :=
  match items with
  | [] => Some []
  | item :: rest => f ← ParsePositiveInt item; fs ← frequency_loop rest; Some (f :: fs)
  end.

Definition ParseDramFrequencyList (value : string) : option (list Z) :=
  if String.eqb value "all" then Some kAllDramFrequencies
  else frequency_loop (OsLayer.split_channel (txt value) []).

(** ** Options *)

Inductive Action :=
| KVALUE (m : string) (value : Z)
| IVALUE (m : string)
| FileSize                                          (** [ARG_IVALUE] with the local variable *)
| SVALUE                                            (** the log file *)
| Selector
| PositiveInt (m : string) (limit multiple : Z)     (** further tests: [> limit], [% multiple != 0] *)
| NonNegativeInt (m : string) (multiple : Z)
| Choice (m : string) (values : list (string * Z))
| FinalCheckThreads
| DdrFreq
| DdrNode
| DiskDevice
| TempFile
| NetHost
| Channel.

Definition options_first : list (string * Action) := [
  ("--coarse_grain_lock", KVALUE "pe_q_implementation_" 0);
  ("-M", IVALUE "size_mb_"); ("--reserve_memory", IVALUE "reserve_mb_"); ("-H", IVALUE "min_hugepages_mbytes_");
  ("-s", IVALUE "runtime_seconds_");
  ("-P", Selector); ("--pattern-byte-offset", NonNegativeInt "pattern_byte_offset_" 4);
  ("--fill-preset", Choice "fill_preset_" [("none", 0); ("zero", 1); ("one", 2)]);
  ("--verify-after-fill", KVALUE "verify_after_fill_" 1);
  ("--copy-verify-destination", KVALUE "copy_verify_destination_" 1);
  ("--prefault-pages", KVALUE "prefault_pages_" 1); ("--diag-vm-stats", KVALUE "diag_vm_stats_" 1);
  ("--diag-block-history", KVALUE "diag_block_history_" 1); ("--diag-phase-summary", KVALUE "diag_phase_summary_" 1);
  ("--post-fill-delay", NonNegativeInt "post_fill_delay_seconds_" 1);
  ("--fill-threads", PositiveInt "fill_threads_" kMaxDiagnosticWorkerCount 1);
  ("--fill-direction", Choice "fill_direction_" [("up", 0); ("down", 1)]);
  ("--fill-verify-every", PositiveInt "fill_verify_every_" INT_MAX 1);
  ("--fill-yield-bytes", PositiveInt "fill_yield_bytes_" INT_MAX kCacheLineSize) ].

Definition options_second : list (string * Action) := [
  ("--runtime-start-delay", NonNegativeInt "runtime_start_delay_seconds_" 1);
  ("--invert-range", Choice "invert_range_" [("legacy", 0); ("full", 1)]);
  ("--final-check-threads", FinalCheckThreads); ("--skip-final-check", KVALUE "skip_final_check_" 1);
  ("--ddr-freq", DdrFreq); ("--ddr-step", PositiveInt "dram_step_seconds_" INT_MAX 1); ("--ddr-node", DdrNode);
  ("--dram-map", Choice "dram_address_map_profile_" [("lpddr-v1", 1); ("none", 0)]);
  ("-m", IVALUE "memory_threads_"); ("-i", IVALUE "invert_threads_"); ("-c", IVALUE "check_threads_");
  ("--cc_inc_count", IVALUE "cc_inc_count_"); ("--cc_line_count", IVALUE "cc_cacheline_count_");
  ("--cc_line_size", IVALUE "cc_cacheline_size_"); ("--cc_test", KVALUE "cc_test_" 1);
  ("--cpu_freq_test", KVALUE "cpu_freq_test_" 1); ("--cpu_freq_threshold", IVALUE "cpu_freq_threshold_");
  ("--cpu_freq_round", IVALUE "cpu_freq_round_"); ("-C", IVALUE "cpu_stress_threads_"); ("-l", SVALUE);
  ("-v", IVALUE "verbosity_"); ("--printsec", PositiveInt "print_delay_" INT_MAX 1) ].

Definition options_third : list (string * Action) := [
  ("--no_timestamps", KVALUE "log_timestamps_" 0); ("--max_errors", IVALUE "max_errorcount_");
  ("-p", IVALUE "page_length_"); ("--filesize", FileSize); ("--no_affinity", KVALUE "use_affinity_" 0);
  ("--local_numa", KVALUE "region_mode_" 1); ("--remote_numa", KVALUE "region_mode_" 2);
  ("--findfiles", KVALUE "findfiles_" 1); ("--force_errors", KVALUE "error_injection_" 1);
  ("--force_errors_like_crazy", KVALUE "crazy_error_injection_" 1) ].

(** The options tested after [if (crazy_error_injection_) error_injection_ = true]. *)
Definition options_last : list (string * Action) := [
  ("--stop_on_errors", KVALUE "stop_on_error_" 1); ("--error-log-limit", NonNegativeInt "error_log_limit_" 1);
  ("--no_errors", KVALUE "error_poll_" 0); ("-F", KVALUE "strict_" 0); ("-W", KVALUE "warm_" 1);
  ("-A", KVALUE "run_on_anything_" 1); ("--read-block-size", IVALUE "read_block_size_");
  ("--write-block-size", IVALUE "write_block_size_"); ("--segment-size", IVALUE "segment_size_");
  ("--cache-size", IVALUE "cache_size_"); ("--blocks-per-segment", IVALUE "blocks_per_segment_");
  ("--read-threshold", IVALUE "read_threshold_"); ("--write-threshold", IVALUE "write_threshold_");
  ("--destructive", KVALUE "non_destructive_" 0); ("--monitor_mode", KVALUE "monitor_mode_" 1);
  ("--tag_mode", KVALUE "tag_mode_" 1); ("--do_page_map", KVALUE "do_page_map_" 1);
  ("--paddr_base", IVALUE "paddr_base_"); ("--pause_delay", PositiveInt "pause_delay_" INT_MAX 1);
  ("--pause_duration", IVALUE "pause_duration_"); ("-d", DiskDevice); ("--random-threads", IVALUE "random_threads_");
  ("-f", TempFile); ("-n", NetHost); ("--listen", KVALUE "listen_threads_" 1);
  ("--channel_hash", IVALUE "channel_hash_"); ("--channel_width", IVALUE "channel_width_");
  ("--memory_channel", Channel) ].

(** [Accepted]: [return true]; [Rejected]: [return false]; [Exited]: [exit(code)]. *)
Inductive Outcome (A : Type) := Accepted (a : A) | Rejected | Exited (code : Z).
Arguments Accepted {A} a.
Arguments Rejected {A}.
Arguments Exited {A} code.

Definition set_filesize (s : Sat) (v : Z) : Sat :=
  mkSat (member s) v (pattern_selector_ s) (dram_frequency_node_ s) (dram_frequencies_ s) (logfilename_ s)
    (filename_ s) (ipaddrs_ s) (diskfilename_ s) (channels_ s).
Definition set_texts (s : Sat) (selector node logfile : string) : Sat :=
  mkSat (member s) (filesize s) selector node (dram_frequencies_ s) logfile (filename_ s) (ipaddrs_ s)
    (diskfilename_ s) (channels_ s).
Definition set_lists (s : Sat) (frequencies : list Z) (files hosts disks : list string)
    (channels : list (list string)) : Sat :=
  mkSat (member s) (filesize s) (pattern_selector_ s) (dram_frequency_node_ s) frequencies (logfilename_ s)
    files hosts disks channels.

Definition lookup {A} (key : string) (l : list (string * A)) : option A :=
  match List.find (fun x => String.eqb key (fst x)) l with Some (_, a) => Some a | None => None end.

(** What the code does with an option and the value that follows it, for an option that has
    one; [None]: there is no further argument. *)
Definition with_value (a : Action) (value : option string) (s : Sat) : Outcome Sat :=
  match a with
  | KVALUE m v => Accepted (set s m v)
  | IVALUE m => Accepted (match value with Some v => set s m (strtoull0 (txt v)) | None => s end)
  | FileSize => Accepted (match value with Some v => set_filesize s (strtoull0 (txt v)) | None => s end)
  | SVALUE =>
      Accepted (match value with
                | Some v => set_texts s (pattern_selector_ s) (dram_frequency_node_ s)
                              (string_of_list_ascii (snprintf 255 (txt v)))
                | None => s
                end)
  | Selector =>
      match value with
      | Some v => Accepted (set_texts s v (dram_frequency_node_ s) (logfilename_ s))
      | None => Rejected
      end
  | PositiveInt m limit multiple =>
      match value with
      | Some v => match ParsePositiveInt v with
                  | Some n => if (limit <? n) || negb (n mod multiple =? 0) then Rejected else Accepted (set s m n)
                  | None => Rejected
                  end
      | None => Rejected
      end
  | NonNegativeInt m multiple =>
      match value with
      | Some v => match ParseNonNegativeInt v with
                  | Some n => if negb (n mod multiple =? 0) then Rejected else Accepted (set s m n)
                  | None => Rejected
                  end
      | None => Rejected
      end
  | Choice m values =>
      match value with
      | Some v => match lookup v values with Some n => Accepted (set s m n) | None => Rejected end
      | None => Rejected
      end
  | FinalCheckThreads =>
      match value with
      | Some v => match ParsePositiveInt v with
                  | Some n => if kMaxDiagnosticWorkerCount <? n then Rejected
                              else Accepted (set (set s "final_check_threads_" n) "final_check_threads_explicit_" 1)
                  | None => Rejected
                  end
      | None => Rejected
      end
  | DdrFreq =>
      match value with
      | Some v =>
          if bool_decide (dram_frequencies_ s = []) then
            match ParseDramFrequencyList v with
            | Some fs => Accepted (set (set_lists s fs (filename_ s) (ipaddrs_ s) (diskfilename_ s) (channels_ s))
                                     "dram_sweep_" (if (1 <? length fs)%nat then 1 else 0))
            | None => Rejected
            end
          else Rejected
      | None => Rejected
      end
  | DdrNode =>
      match value with
      | Some v => if String.eqb v "" then Rejected
                  else Accepted (set_texts s (pattern_selector_ s) v (logfilename_ s))
      | None => Rejected
      end
  | DiskDevice =>
      Accepted (match value with
                | Some v => set (set_lists s (dram_frequencies_ s) (filename_ s) (ipaddrs_ s)
                                   (diskfilename_ s ++ [v]) (channels_ s))
                              "disk_threads_" (get s "disk_threads_" + 1)
                | None => s
                end)
  | TempFile =>
      Accepted (match value with
                | Some v => set (set_lists s (dram_frequencies_ s) (filename_ s ++ [v]) (ipaddrs_ s)
                                   (diskfilename_ s) (channels_ s))
                              "file_threads_" (get s "file_threads_" + 1)
                | None => s
                end)
  | NetHost =>
      Accepted (match value with
                | Some v => set (set_lists s (dram_frequencies_ s) (filename_ s) (ipaddrs_ s ++ [v])
                                   (diskfilename_ s) (channels_ s))
                              "net_threads_" (get s "net_threads_" + 1)
                | None => s
                end)
  | Channel =>
      Accepted (match value with
                | Some v => set_lists s (dram_frequencies_ s) (filename_ s) (ipaddrs_ s) (diskfilename_ s)
                              (channels_ s ++ [OsLayer.memory_channel v])
                | None => s
                end)
  end.

Definition has_value (a : Action) : bool := match a with KVALUE _ _ => false | _ => true end.

(** The options tested before the line on [crazy_error_injection_], and those after it. *)
Definition options_before : list (string * Action) := (options_first ++ options_second ++ options_third)%list.

Definition crazy (s : Sat) : Sat :=
  if get s "crazy_error_injection_" =? 0 then s else set s "error_injection_" 1.

(** What the chain of tests makes of [argv[i]]. *)
Definition dispatch (s : Sat) (arg : string) : Sat * option Action :=
  match lookup arg options_before with
  | Some a => (s, Some a)
  | None => (crazy s, lookup arg options_last)
  end.

(** The loop over the arguments behind the program name. *)
Fixpoint parse_loop (fuel : nat) (args : list string) (s : Sat) : Outcome Sat :=
  match fuel, args with
  | S fuel', arg :: rest =>
      match dispatch s arg with
      | (s, Some a) =>
          let '(value, rest) :=
            if has_value a then (head rest, tail rest) else (None, rest) in
          match with_value a value s with
          | Accepted s => parse_loop fuel' rest s
          | Rejected => Rejected
          | Exited c => Exited c
          end
      | (_, None) => Exited (if String.eqb arg "-h" || String.eqb arg "--help" then 0 else 1)
      end
  | _, _ => Accepted s
  end.

(** The rest of [ParseArgs]. *)
Definition update_members (s : Sat) : Outcome Sat :=
  let s := set s "size_" (get s "size_mb_" * OsLayer.kMegabyte) in
  let s := if String.eqb (logfilename_ s) "" then s else set s "use_logfile_" 1 in
  let page_length_ := get s "page_length_" in
  if negb (OsLayer.valid_page_length page_length_) then Rejected
  else if page_length_ <? get s "fill_yield_bytes_" then Rejected
  else if (get s "print_delay_" <=? 0) || (get s "pause_delay_" <=? 0) then Rejected
  else
    let s := if filesize s =? u64 (u64 page_length_ * u64 (get s "disk_pages_")) then s
             else let s := set s "disk_pages_" (filesize s / page_length_) in
                  if get s "disk_pages_" =? 0 then set s "disk_pages_" 1 else s in
    match OsLayer.validate_channels (channels_ s) (get s "channel_hash_") (get s "channel_width_") with
    | Some hash => Accepted (set s "channel_hash_" hash)
    | None => Rejected
    end.

Definition ParseArgs (args : list string) : Outcome Sat :=
  match parse_loop (length args) args new_Sat with
  | Accepted s => update_members s
  | Rejected => Rejected
  | Exited c => Exited c
  end.

(** ** [main.cc] *)

(** The arguments with the public name of the profile replaced, and whether the logger is to
    rewrite error lines; [None] for [return false].  [i + 1 < argc] in the loop. *)
Fixpoint prepare_loop (fuel : nat) (args : list string) (enabled : bool) : option (list string * bool) :=
  match fuel, args with
  | S fuel', arg :: value :: rest =>
      if String.eqb arg "--dram-map" then
        if String.eqb value "lpddr-v1" then None
        else
          let lp6 := String.eqb value "sm8975-lp6" in
          r ← prepare_loop fuel' rest lp6;
          Some (arg :: (if lp6 then "lpddr-v1" else value) :: fst r, snd r)
      else
        r ← prepare_loop fuel' (value :: rest) enabled;
        Some (arg :: fst r, snd r)
  | _, _ => Some (args, enabled)
  end.

Definition PrepareDramMapArgs (args : list string) : option (list string * bool) :=
  prepare_loop (length args) args false.

(** The exit status of [main], from the members [PrintResults] and [Cleanup] leave. *)
Definition main_status (status errors : Z) : Z :=
  if negb (status =? 0) then 1 else if negb (errors =? 0) then 1 else 0.

End Options.

(** What [strtol] makes of a text, for the checked numbers. *)
Module DecimalFacts.
Import Text Options.
Local Open Scope Z_scope.

Definition decimal_value (v : Z) (ds : text) : Z :=
  fold_left (fun v c => v * 10 + (Z.of_N (N_of_ascii c) - 48)) ds v.

Lemma read_digits_spec l v :
  exists ds rest, l = ds ++ rest /\ forallb Patterns.is_digit ds = true /\
    Patterns.read_digits l v = (decimal_value v ds, rest) /\
    match rest with c :: _ => Patterns.is_digit c = false | [] => True end.
Proof.
  revert v. induction l as [|c l IH]; intros v; cbn [Patterns.read_digits]; [by exists [], []|].
  destruct (Patterns.is_digit c) eqn:Hc; [|by exists [], (c :: l)].
  destruct (IH (v * 10 + (Z.of_N (N_of_ascii c) - 48))) as (ds & rest & -> & Hd & Hr & Hn).
  exists (c :: ds), rest. cbn [app forallb]. by rewrite Hc, Hd, Hr.
Qed.

Lemma read_digits_all ds v :
  forallb Patterns.is_digit ds = true -> Patterns.read_digits ds v = (decimal_value v ds, []).
Proof.
  revert v. induction ds as [|c ds IH]; intros v; [done|]. cbn [forallb Patterns.read_digits].
  rewrite andb_true_iff. intros [-> H]. by rewrite IH.
Qed.

Lemma drop_while_spec f (l : text) :
  exists sp, l = sp ++ Patterns.drop_while f l /\ forallb f sp = true.
Proof.
  induction l as [|c l IH]; [by exists []|]. cbn [Patterns.drop_while]. destruct (f c) eqn:Hc; [|by exists []].
  destruct IH as (sp & He & Hs). exists (c :: sp). cbn. by rewrite Hc, Hs, <- He.
Qed.

Lemma drop_while_app f (sp l : text) :
  forallb f sp = true -> match l with c :: _ => f c = false | [] => True end -> Patterns.drop_while f (sp ++ l) = l.
Proof.
  induction sp as [|c sp IH]; cbn [app forallb Patterns.drop_while].
  - intros _. destruct l as [|c l]; [done|]. cbn. by intros ->.
  - rewrite andb_true_iff. intros [-> H] Hl. by apply IH.
Qed.

(** The sign, as [strtol] reads it. *)
Lemma sign_match (s : text) :
  match s with "-"%char :: r => (true, r) | "+"%char :: r => (false, r) | _ => (false, s) end = sign_of s.
Proof. destruct s as [|[[] [] [] [] [] [] [] []] s]; reflexivity. Qed.

Inductive sign_text : bool -> text -> Prop :=
| no_sign : sign_text false []
| plus_sign : sign_text false ["+"%char]
| minus_sign : sign_text true ["-"%char].

Lemma sign_of_spec s neg r : sign_of s = (neg, r) -> exists sg, s = sg ++ r /\ sign_text neg sg.
Proof.
  destruct s as [|c s]; cbn; [intros [= <- <-]; exists []; by split; [|constructor]|].
  destruct (Ascii.eqb_spec c "-") as [->|_]; [intros [= <- <-]; eexists ["-"%char]; by split; [|constructor]|].
  destruct (Ascii.eqb_spec c "+") as [->|_]; [intros [= <- <-]; eexists ["+"%char]; by split; [|constructor]|].
  intros [= <- <-]. exists []. by split; [|constructor].
Qed.

Lemma is_digit_plain c :
  Patterns.is_digit c = true -> Patterns.is_space c = false /\ Ascii.eqb c "-" = false /\ Ascii.eqb c "+" = false.
Proof. destruct c as [[] [] [] [] [] [] [] []]; vm_compute; try done. Qed.

Lemma sign_of_text neg sg d ds :
  sign_text neg sg -> Patterns.is_digit d = true -> sign_of (sg ++ d :: ds) = (neg, d :: ds).
Proof.
  intros Hs Hd. apply is_digit_plain in Hd as (_ & H1 & H2). destruct Hs; cbn; [by rewrite H1, H2 | done..].
Qed.

(** White space, a sign or none, and digits up to the end of the text. *)
Definition decimal_text (s : text) (n : Z) : Prop :=
  exists sp neg sg d ds, s = sp ++ sg ++ d :: ds /\ forallb Patterns.is_space sp = true /\ sign_text neg sg /\
    forallb Patterns.is_digit (d :: ds) = true /\
    n = (if neg then - decimal_value 0 (d :: ds) else decimal_value 0 (d :: ds)).

Lemma parse_int_decimal low v n :
  - 2 ^ 63 <= low -> (parse_int low v = Some n <-> decimal_text (txt v) n /\ low <= n <= INT_MAX).
Proof.
  intros Hlow. unfold parse_int, Patterns.strtol10. rewrite sign_match. split.
  - destruct (drop_while_spec Patterns.is_space (txt v)) as (sp & He & Hsp).
    destruct (sign_of (Patterns.drop_while Patterns.is_space (txt v))) as [neg r] eqn:Hs.
    apply sign_of_spec in Hs as (sg & Hs & Hsg). destruct r as [|d r]; [done|].
    destruct (Patterns.is_digit d) eqn:Hd; [|done].
    destruct (read_digits_spec (d :: r) 0) as (ds & rest & Hds & Hdig & -> & _).
    destruct (_ || _); [done|]. destruct rest; [|done]. rewrite app_nil_r in Hds. subst ds.
    destruct (_ || _) eqn:Hb; [done|]. intros [= <-]. apply orb_false_iff in Hb as [H1%Z.ltb_ge H2%Z.ltb_ge].
    split; [|done]. exists sp, neg, sg, d, r. by rewrite <- Hs.
  - intros [(sp & neg & sg & d & ds & He & Hsp & Hsg & Hd & Hn) Hr].
    assert (Hd' : Patterns.is_digit d = true) by (cbn in Hd; by apply andb_true_iff in Hd as [? _]).
    rewrite He, drop_while_app; [|done|].
    2: { apply is_digit_plain in Hd' as (? & _). by destruct Hsg. }
    rewrite (sign_of_text _ _ _ _ Hsg Hd'), Hd', read_digits_all by done. cbv zeta. rewrite <- Hn.
    unfold INT_MAX in Hr. rewrite (proj2 (Z.ltb_ge n (- 2 ^ 63))), (proj2 (Z.ltb_ge (2 ^ 63 - 1) n)) by lia.
    cbn [orb]. unfold INT_MAX. by rewrite (proj2 (Z.ltb_ge n low)), (proj2 (Z.ltb_ge (2 ^ 31 - 1) n)) by lia.
Qed.

(** ** Printed numbers *)

Lemma decimal_digit d :
  0 <= d < 10 -> Patterns.is_digit (digit_char false d) = true /\ Z.of_N (N_of_ascii (digit_char false d)) - 48 = d.
Proof.
  intros Hd. assert (d = 0 \/ d = 1 \/ d = 2 \/ d = 3 \/ d = 4 \/ d = 5 \/ d = 6 \/ d = 7 \/ d = 8 \/ d = 9) as He by lia.
  by repeat destruct He as [->|He]; [..|subst d].
Qed.

Lemma decimal_value_fuel fuel n :
  0 <= n < 10 ^ Z.of_nat fuel -> decimal_value 0 (digits_fuel fuel false 10 n []) = n.
Proof.
  revert n. induction fuel as [|k IH]; intros n Hn; [cbn in *; lia|]. cbn [digits_fuel].
  pose proof (Z.div_mod n 10 ltac:(lia)) as Hdm. pose proof (Z.mod_pos_bound n 10 ltac:(lia)) as Hm.
  destruct (decimal_digit (n mod 10) Hm) as [_ Hv]. destruct (Z.eqb_spec (n / 10) 0) as [H0|H0].
  - cbn. lia.
  - rewrite TextFacts.digits_fuel_app. unfold decimal_value in *. rewrite fold_left_app.
    rewrite IH; [cbn; lia|]. split; [apply Z.div_pos; lia|]. apply Z.div_lt_upper_bound; [lia|].
    rewrite Nat2Z.inj_succ, Z.pow_succ_r in Hn by lia. lia.
Qed.

Lemma fmt_u_digits n : forallb Patterns.is_digit (fmt_u n) = true.
Proof.
  apply forallb_forall. apply List.Forall_forall, TextFacts.digits_fuel_forall; [lia| |constructor].
  intros d Hd. by apply decimal_digit.
Qed.

Lemma parse_int_fmt low n :
  - 2 ^ 63 <= low -> 0 <= low <= n -> n <= INT_MAX ->
  parse_int low (string_of_list_ascii (fmt_u n)) = Some n.
Proof.
  intros Hl Hn Hm. apply parse_int_decimal; [done|]. split; [|lia].
  unfold txt. rewrite list_ascii_of_string_of_list_ascii. pose proof (fmt_u_digits n) as Hd.
  assert (Hv : decimal_value 0 (fmt_u n) = n).
  { apply decimal_value_fuel. unfold INT_MAX in Hm. split; [lia|]. apply Z.le_lt_trans with (2 ^ 31); [lia|]. done. }
  destruct (fmt_u n) as [|d ds] eqn:He; [by apply TextFacts.digits_fuel_nonempty in He; [|lia]|].
  exists [], false, [], d, ds. repeat split; try done. constructor.
Qed.

(** ** Frequency lists *)

(** The numbers with commas between them. *)
Fixpoint frequency_text (fs : list Z) : text :=
  match fs with
  | [] => []
  | [f] => fmt_u f
  | f :: fs => fmt_u f ++ ","%char :: frequency_text fs
  end.

Lemma split_channel_comma a cur r :
  forallb Patterns.is_digit a = true ->
  OsLayer.split_channel (a ++ ","%char :: r) cur =
  string_of_list_ascii (cur ++ a) :: OsLayer.split_channel r [].
Proof.
  revert cur. induction a as [|c a IH]; intros cur; cbn [forallb app OsLayer.split_channel].
  - intros _. by rewrite app_nil_r.
  - rewrite andb_true_iff. intros [Hc Ha]. destruct (Ascii.eqb_spec c ",") as [->|_]; [done|].
    rewrite IH by done. by rewrite <- app_assoc.
Qed.

Lemma split_channel_last a cur :
  forallb Patterns.is_digit a = true -> OsLayer.split_channel a cur = [string_of_list_ascii (cur ++ a)].
Proof.
  revert cur. induction a as [|c a IH]; intros cur; cbn [forallb OsLayer.split_channel].
  - intros _. by rewrite app_nil_r.
  - rewrite andb_true_iff. intros [Hc Ha]. destruct (Ascii.eqb_spec c ",") as [->|_]; [done|].
    rewrite IH by done. by rewrite <- app_assoc.
Qed.

Lemma frequency_loop_text fs :
  fs <> [] -> Forall (fun f => 1 <= f <= INT_MAX) fs ->
  frequency_loop (OsLayer.split_channel (frequency_text fs) []) = Some fs.
Proof.
  induction fs as [|f fs IH]; [done|]. intros _ [Hf Hfs]%Forall_cons. destruct fs as [|f' fs].
  - cbn [frequency_text]. rewrite split_channel_last by apply fmt_u_digits. cbn [frequency_loop app].
    unfold ParsePositiveInt. by rewrite parse_int_fmt by lia.
  - change (frequency_text (f :: f' :: fs)) with (fmt_u f ++ ","%char :: frequency_text (f' :: fs)).
    rewrite split_channel_comma by apply fmt_u_digits. cbn [frequency_loop app].
    unfold ParsePositiveInt at 1. rewrite parse_int_fmt by lia. cbn [mbind option_bind]. by rewrite IH.
Qed.

Lemma frequency_text_digit fs : fs <> [] -> exists d r, frequency_text fs = d :: r /\ Patterns.is_digit d = true.
Proof.
  intros Hne. destruct fs as [|f fs]; [done|].
  assert (exists r, frequency_text (f :: fs) = fmt_u f ++ r) as [r ->].
  { destruct fs as [|f' fs]; [exists []; by rewrite app_nil_r | by eexists]. }
  pose proof (fmt_u_digits f) as Hd. destruct (fmt_u f) as [|d ds] eqn:He.
  - by apply TextFacts.digits_fuel_nonempty in He; [|lia].
  - exists d, (ds ++ r). cbn in Hd. apply andb_true_iff in Hd as [? _]. done.
Qed.

Lemma ParseDramFrequencyList_text fs :
  fs <> [] -> Forall (fun f => 1 <= f <= INT_MAX) fs ->
  ParseDramFrequencyList (string_of_list_ascii (frequency_text fs)) = Some fs.
Proof.
  intros Hne Hfs. unfold ParseDramFrequencyList, txt. rewrite list_ascii_of_string_of_list_ascii.
  destruct (frequency_text_digit fs Hne) as (d & r & He & Hd).
  destruct (String.eqb_spec (string_of_list_ascii (frequency_text fs)) "all") as [Ha|_].
  - rewrite He in Ha. cbn in Ha. by injection Ha as -> _.
  - by apply frequency_loop_text.
Qed.

End DecimalFacts.

Module OptionsFacts.
Import Text Options.
Local Open Scope string_scope.
Local Open Scope Z_scope.

(** ** Ranges of the members *)

(** Lower bound, upper bound and the number every value is a multiple of. *)
Definition type_range (w : Width) : Z * Z * Z :=
  match w with
  | Int => (- 2 ^ 31, 2 ^ 31 - 1, 1) | Int64 => (- 2 ^ 63, 2 ^ 63 - 1, 1)
  | Uint64 => (0, 2 ^ 64 - 1, 1) | Bool => (0, 1, 1)
  end.

(** The members whose options are checked; the others range over their types. *)
Definition checked_ranges : list (string * (Z * Z * Z)) := [
  ("fill_threads_", (1, 256, 1)); ("final_check_threads_", (1, 256, 1)); ("fill_yield_bytes_", (0, INT_MAX, 64));
  ("pattern_byte_offset_", (0, INT_MAX, 4)); ("post_fill_delay_seconds_", (0, INT_MAX, 1));
  ("runtime_start_delay_seconds_", (0, INT_MAX, 1)); ("fill_verify_every_", (0, INT_MAX, 1));
  ("print_delay_", (1, INT_MAX, 1)); ("pause_delay_", (1, INT_MAX, 1)); ("dram_step_seconds_", (1, INT_MAX, 1));
  ("error_log_limit_", (-1, INT_MAX, 1)); ("fill_preset_", (0, 2, 1)); ("fill_direction_", (0, 1, 1));
  ("invert_range_", (0, 1, 1)); ("dram_address_map_profile_", (0, 1, 1)); ("pe_q_implementation_", (0, 1, 1));
  ("region_mode_", (0, 2, 1)); ("strict_", (0, 1, 1)); ("warm_", (0, 1, 1)); ("tag_mode_", (0, 1, 1)) ].

Definition range_of (m : string) : Z * Z * Z :=
  match lookup m checked_ranges with Some r => r | None => type_range (width_of m) end.

Definition in_range (r : Z * Z * Z) (x : Z) : bool :=
  let '(lo, hi, k) := r in (lo <=? x) && (x <=? hi) && (x mod k =? 0).

Definition in_type (w : Width) (x : Z) : bool := in_range (type_range w) x.

Lemma convert_in_type w x : in_type w x = true -> convert w x = x.
Proof.
  unfold in_type, in_range. destruct w; cbn [type_range convert]; intros H; repeat rewrite andb_true_iff in H;
    destruct H as [[H1%Z.leb_le H2%Z.leb_le] _].
  - apply s32_id. lia.
  - apply s64_id. lia.
  - apply u64_id. lia.
  - assert (x = 0 \/ x = 1) as [->| ->] by lia; done.
Qed.

Lemma convert_range w x : in_type w (convert w x) = true.
Proof.
  unfold in_type, in_range. destruct w; cbn [type_range convert]; rewrite Z.mod_1_r.
  - pose proof (s32_bound x). repeat (apply andb_true_iff; split); try done; apply Z.leb_le; lia.
  - pose proof (s64_bound x). repeat (apply andb_true_iff; split); try done; apply Z.leb_le; lia.
  - pose proof (u64_bound x). repeat (apply andb_true_iff; split); try done; apply Z.leb_le; lia.
  - by destruct (x =? 0).
Qed.

(** An action that only stores values of the member's range. *)
Definition stores_ok (m : string) (lo hi k : Z) : bool :=
  let '(rlo, rhi, rk) := range_of m in
  (rlo <=? lo) && (hi <=? rhi) && (0 <? rk) && (k mod rk =? 0) && (0 <? k) &&
  in_type (width_of m) lo && in_type (width_of m) hi.

Definition action_ok (a : Action) : bool :=
  match a with
  | KVALUE m v => in_range (range_of m) v && in_type (width_of m) v
  | IVALUE m => bool_decide (range_of m = type_range (width_of m))
  | PositiveInt m limit k => stores_ok m 1 (Z.min limit INT_MAX) k
  | NonNegativeInt m k => stores_ok m 0 INT_MAX k
  | Choice m values => forallb (fun v => in_range (range_of m) (snd v) && in_type (width_of m) (snd v)) values
  | _ => true
  end.

Definition table : list (string * Action) := (options_before ++ options_last)%list.

Lemma table_ok : forallb (fun x => action_ok (snd x)) table = true.
Proof. vm_compute. reflexivity. Qed.

Definition member_names : list string := map fst members.

Definition members_ok (s : Sat) : Prop :=
  forall m, m ∈ member_names -> exists x, member s !! m = Some x /\ in_range (range_of m) x = true.

Lemma member_set s m v m' :
  member (set s m v) !! m' = if decide (m = m') then Some (convert (width_of m) v) else member s !! m'.
Proof. cbn. case_decide as H; [subst; apply lookup_insert_eq | by apply lookup_insert_ne]. Qed.

Lemma get_set s m v m' :
  get (set s m v) m' = if decide (m = m') then convert (width_of m) v else get s m'.
Proof. unfold get. rewrite member_set. by case_decide. Qed.

Lemma set_ok s m v :
  members_ok s -> in_range (range_of m) (convert (width_of m) v) = true -> members_ok (set s m v).
Proof.
  intros Hs Hv m' Hm'. rewrite member_set. case_decide as H; [|by apply Hs]. subst m'.
  by eexists.
Qed.

Lemma set_same s m v : members_ok s -> range_of m = type_range (width_of m) -> members_ok (set s m v).
Proof. intros Hs Hr. apply set_ok; [done|]. rewrite Hr. apply convert_range. Qed.

Lemma range_between m lo hi k n :
  stores_ok m lo hi k = true -> lo <= n <= hi -> n mod k = 0 ->
  in_range (range_of m) (convert (width_of m) n) = true.
Proof.
  unfold stores_ok. destruct (range_of m) as [[rlo rhi] rk]. rewrite !andb_true_iff.
  intros ((((((H1%Z.leb_le & H2%Z.leb_le) & H3%Z.ltb_lt) & H4%Z.eqb_eq) & H5%Z.ltb_lt) & H6) & H7) Hn Hk.
  assert (Ht : in_type (width_of m) n = true).
  { unfold in_type, in_range in *. destruct (type_range (width_of m)) as [[tlo thi] tk] eqn:He.
    assert (tk = 1) as -> by (by destruct (width_of m); cbn in He; injection He as _ _ <-).
    rewrite !andb_true_iff, ?Z.leb_le in *. rewrite Z.mod_1_r. split; [lia | done]. }
  rewrite (convert_in_type _ _ Ht). cbn. rewrite !andb_true_iff, !Z.leb_le, Z.eqb_eq. split; [lia|].
  apply Z.mod_divide in Hk, H4; [|lia..]. apply Z.mod_divide; [lia|]. by apply (Z.divide_trans _ k).
Qed.

Lemma parse_int_range low v n : parse_int low v = Some n -> low <= n <= INT_MAX.
Proof.
  unfold parse_int. destruct (Patterns.strtol10 _) as [[p [|]]|]; try done.
  destruct (_ || _) eqn:H; [done|]. intros [= ->]. apply orb_false_iff in H as [H1%Z.ltb_ge H2%Z.ltb_ge]. lia.
Qed.

Lemma lookup_In {A} key (l : list (string * A)) a : lookup key l = Some a -> In (key, a) l.
Proof.
  unfold lookup. destruct (List.find _ l) as [[k b]|] eqn:H; [|done]. intros [= ->].
  apply find_some in H as [H He]. cbn in He. apply String.eqb_eq in He. by subst k.
Qed.

(** An assignment to lists and texts does not touch the members. *)
Lemma members_ok_ext s s' : member s' = member s -> members_ok s -> members_ok s'.
Proof. intros He Hs m Hm. rewrite He. by apply Hs. Qed.

Ltac plain_set := apply set_same; [|vm_compute; reflexivity].

Lemma with_value_ok a value s s' :
  action_ok a = true -> members_ok s -> with_value a value s = Accepted s' -> members_ok s'.
Proof.
  intros Ha Hs. destruct a; cbn [with_value action_ok] in *.
  - intros [= <-]. apply andb_true_iff in Ha as [Hr Ht]. apply set_ok; [done|]. by rewrite convert_in_type.
  - intros [= <-]. apply bool_decide_eq_true in Ha. destruct value; [by apply set_same | done].
  - intros [= <-]. by destruct value.
  - intros [= <-]. by destruct value.
  - destruct value; [|done]. by intros [= <-].
  - destruct value as [v|]; [|done]. destruct (ParsePositiveInt v) as [n|] eqn:Hp; [|done].
    destruct (_ || _) eqn:Hl; [done|]. intros [= <-]. apply parse_int_range in Hp.
    apply orb_false_iff in Hl as [H1%Z.ltb_ge H2%negb_false_iff%Z.eqb_eq].
    apply set_ok; [done|]. by apply (range_between _ _ _ _ _ Ha); [lia|].
  - destruct value as [v|]; [|done]. destruct (ParseNonNegativeInt v) as [n|] eqn:Hp; [|done].
    destruct (negb _) eqn:Hl; [done|]. intros [= <-]. apply parse_int_range in Hp.
    apply negb_false_iff, Z.eqb_eq in Hl. apply set_ok; [done|]. by apply (range_between _ _ _ _ _ Ha).
  - destruct value as [v|]; [|done]. destruct (lookup v values) as [n|] eqn:Hl; [|done]. intros [= <-].
    apply lookup_In in Hl. rewrite forallb_forall in Ha. apply Ha, andb_true_iff in Hl as [Hr Ht].
    apply set_ok; [done|]. by rewrite convert_in_type.
  - destruct value as [v|]; [|done]. destruct (ParsePositiveInt v) as [n|] eqn:Hp; [|done].
    destruct (_ <? _) eqn:Hl; [done|]. intros [= <-]. apply parse_int_range in Hp. apply Z.ltb_ge in Hl.
    plain_set. apply set_ok; [done|]. apply (range_between _ 1 256 1); [vm_compute; reflexivity | | apply Z.mod_1_r].
    unfold kMaxDiagnosticWorkerCount in Hl. lia.
  - destruct value as [v|]; [|done]. case_bool_decide; [|done]. destruct (ParseDramFrequencyList v); [|done].
    intros [= <-]. plain_set. by apply (members_ok_ext s).
  - destruct value as [v|]; [|done]. destruct (String.eqb v ""); [done|]. by intros [= <-].
  - intros [= <-]. destruct value; [|done]. plain_set. by apply (members_ok_ext s).
  - intros [= <-]. destruct value; [|done]. plain_set. by apply (members_ok_ext s).
  - intros [= <-]. destruct value; [|done]. plain_set. by apply (members_ok_ext s).
  - intros [= <-]. destruct value; [|done]. by apply (members_ok_ext s).
Qed.

Lemma new_Sat_ok : members_ok new_Sat.
Proof.
  assert (H : forallb (fun m => match member new_Sat !! m with
                                | Some x => in_range (range_of m) x
                                | None => false
                                end) member_names = true) by (vm_compute; reflexivity).
  rewrite forallb_forall in H. intros m Hm. apply list_elem_of_In, H in Hm.
  destruct (member new_Sat !! m) as [x|]; [by exists x | done].
Qed.

(** ** The loop *)

Definition action_of (arg : string) : option Action := (dispatch new_Sat arg).2.

Lemma dispatch_action s arg : (dispatch s arg).2 = action_of arg.
Proof. unfold action_of, dispatch. by destruct (lookup arg options_before). Qed.

Lemma action_of_In arg a : action_of arg = Some a -> In (arg, a) table.
Proof.
  unfold action_of, dispatch, table. rewrite in_app_iff. destruct (lookup arg options_before) eqn:H; cbn [snd].
  - intros [= ->]. left. by apply lookup_In.
  - intros H'. right. by apply lookup_In.
Qed.

Lemma dispatch_state s arg : (dispatch s arg).1 = s \/ (dispatch s arg).1 = crazy s.
Proof. unfold dispatch. destruct (lookup arg options_before); cbn; auto. Qed.

(** What holds at the start and survives every option holds at the end. *)
Lemma parse_loop_inv (P : Sat -> Prop) :
  (forall s, P s -> P (crazy s)) ->
  (forall arg a value s s', In (arg, a) table -> P s -> with_value a value s = Accepted s' -> P s') ->
  forall fuel args s s', P s -> parse_loop fuel args s = Accepted s' -> P s'.
Proof.
  intros Hcrazy Hstep fuel. induction fuel as [|k IH]; intros args s s' Hs He; cbn in He.
  { by injection He as <-. }
  destruct args as [|arg rest]; [by injection He as <-|].
  pose proof (dispatch_action s arg) as Ha. pose proof (dispatch_state s arg) as Hd.
  destruct (dispatch s arg) as [s1 [a|]]; [|done]. cbn in Ha, Hd. symmetry in Ha. apply action_of_In in Ha.
  assert (Hs1 : P s1) by (destruct Hd as [->| ->]; auto).
  set (v := if has_value a then (head rest, tail rest) else (None, rest)) in *. destruct v as [value rest'].
  destruct (with_value a value s1) as [s2| |] eqn:Hw; [|done|done].
  eapply (IH rest' s2); [|exact He]. by eapply Hstep.
Qed.

Lemma crazy_ok s : members_ok s -> members_ok (crazy s).
Proof. intros H. unfold crazy. destruct (_ =? 0); [done | by plain_set]. Qed.

Lemma parse_loop_ok fuel args s : parse_loop fuel args new_Sat = Accepted s -> members_ok s.
Proof.
  apply (parse_loop_inv members_ok); [apply crazy_ok | | apply new_Sat_ok].
  intros arg a value s1 s2 Hin. apply with_value_ok. pose proof table_ok as Ht. rewrite forallb_forall in Ht.
  by apply (Ht (arg, a)).
Qed.

(** ** Members and lists *)

(** The members an action stores into. *)
Definition targets (a : Action) : list string :=
  match a with
  | KVALUE m _ | IVALUE m | PositiveInt m _ _ | NonNegativeInt m _ | Choice m _ => [m]
  | FinalCheckThreads => ["final_check_threads_"; "final_check_threads_explicit_"]
  | DdrFreq => ["dram_sweep_"]
  | DiskDevice => ["disk_threads_"] | TempFile => ["file_threads_"] | NetHost => ["net_threads_"]
  | FileSize | SVALUE | Selector | DdrNode | Channel => []
  end.

Lemma with_value_other a value s s' m :
  with_value a value s = Accepted s' -> m ∉ targets a -> get s' m = get s m.
Proof.
  intros Hw Hm. destruct a; cbn [with_value targets] in *;
    rewrite ?not_elem_of_cons in Hm; destruct value as [v|]; try done;
    repeat match goal with
           | H : context [match ?x with Some _ => _ | None => _ end] |- _ => destruct x; try done
           | H : context [if ?x then _ else _] |- _ => destruct x; try done
           end; injection Hw as <-; rewrite ?get_set; repeat case_decide; try done; subst; tauto.
Qed.

(** Only the given option stores into the member. *)
Definition only_by (m : string) (opt : string) : bool :=
  forallb (fun x => negb (bool_decide (m ∈ targets (snd x))) || String.eqb (fst x) opt) table.

Lemma only_by_spec m opt arg a : only_by m opt = true -> In (arg, a) table -> arg <> opt -> m ∉ targets a.
Proof.
  intros Ho Hin Hne Hm. unfold only_by in Ho. rewrite forallb_forall in Ho. specialize (Ho _ Hin). cbn in Ho.
  apply orb_true_iff in Ho as [Ho|Ho].
  - apply negb_true_iff, bool_decide_eq_false in Ho. done.
  - by apply String.eqb_eq in Ho.
Qed.

(** The counters of threads count the names, and the sweep flag says whether there are at
    least two frequencies. *)
Record lists_ok (s : Sat) : Prop := {
  lk_disk : get s "disk_threads_" = s32 (Z.of_nat (length (diskfilename_ s)));
  lk_file : get s "file_threads_" = s32 (Z.of_nat (length (filename_ s)));
  lk_net : get s "net_threads_" = s32 (Z.of_nat (length (ipaddrs_ s)));
  lk_sweep : get s "dram_sweep_" = (if (1 <? length (dram_frequencies_ s))%nat then 1 else 0);
  lk_frequencies : Forall (fun f => 1 <= f <= INT_MAX) (dram_frequencies_ s)
}.

Definition counters : list string := ["disk_threads_"; "file_threads_"; "net_threads_"; "dram_sweep_"].

(** The options with lists of their own are the only ones that store into the counters. *)
Definition leaves_counters (a : Action) : bool :=
  match a with
  | DdrFreq | DiskDevice | TempFile | NetHost => true
  | _ => forallb (fun m => negb (bool_decide (m ∈ targets a))) counters
  end.

Lemma table_counters : forallb (fun x => leaves_counters (snd x)) table = true.
Proof. vm_compute. reflexivity. Qed.

Lemma lists_ok_same s s' :
  (forall m, m ∈ counters -> get s' m = get s m) ->
  dram_frequencies_ s' = dram_frequencies_ s -> filename_ s' = filename_ s -> ipaddrs_ s' = ipaddrs_ s ->
  diskfilename_ s' = diskfilename_ s -> lists_ok s -> lists_ok s'.
Proof.
  intros Hm H1 H2 H3 H4 [K1 K2 K3 K4 K5].
  split; rewrite ?Hm, ?H1, ?H2, ?H3, ?H4; try done; unfold counters; set_solver.
Qed.

Lemma s32_next k : s32 (s32 (Z.of_nat k) + 1) = s32 (Z.of_nat (k + 1)).
Proof.
  unfold s32. replace ((Z.of_nat k + 2 ^ 31) mod 2 ^ 32 - 2 ^ 31 + 1 + 2 ^ 31)
    with ((Z.of_nat k + 2 ^ 31) mod 2 ^ 32 + 1) by lia.
  rewrite Zplus_mod_idemp_l. do 2 f_equal. lia.
Qed.

Lemma frequency_loop_range items fs :
  frequency_loop items = Some fs -> Forall (fun f => 1 <= f <= INT_MAX) fs /\ length fs = length items.
Proof.
  revert fs. induction items as [|item items IH]; intros fs; cbn.
  - intros [= <-]. by split.
  - destruct (ParsePositiveInt item) as [f|] eqn:Hf; [|done]. cbn.
    destruct (frequency_loop items) as [fs'|]; [|done]. intros [= <-]. destruct (IH fs' eq_refl) as [H1 H2].
    apply parse_int_range in Hf. split; [by constructor | cbn; by rewrite H2].
Qed.

Lemma frequencies_range v fs : ParseDramFrequencyList v = Some fs -> Forall (fun f => 1 <= f <= INT_MAX) fs.
Proof.
  unfold ParseDramFrequencyList. destruct (String.eqb v "all").
  - intros [= <-]. unfold kAllDramFrequencies, INT_MAX. repeat (apply Forall_cons; split; [lia|]). done.
  - intros H. by apply frequency_loop_range in H as [H _].
Qed.

Ltac after_set := repeat (rewrite get_set; rewrite decide_False by done).

Lemma with_value_lists a value s s' :
  leaves_counters a = true -> lists_ok s -> with_value a value s = Accepted s' -> lists_ok s'.
Proof.
  intros Ha Hs Hw.
  assert (Hother : forallb (fun m => negb (bool_decide (m ∈ targets a))) counters = true ->
                   forall m, m ∈ counters -> get s' m = get s m).
  { intros Hc m Hm. apply (with_value_other a value); [done|]. rewrite forallb_forall in Hc.
    apply list_elem_of_In, Hc, negb_true_iff, bool_decide_eq_false in Hm. done. }
  destruct a; cbn [leaves_counters] in Ha; cbn [with_value] in Hw; try specialize (Hother Ha).
  10: { destruct value as [v|]; [|done]. case_bool_decide; [|done].
        destruct (ParseDramFrequencyList v) as [fs|] eqn:Hf; [|done]. injection Hw as <-.
        apply frequencies_range in Hf. destruct Hs as [K1 K2 K3 K4 K5].
        split; after_set; try done. rewrite get_set, decide_True by done.
        change (width_of "dram_sweep_") with Bool. cbn. by destruct fs as [|? [|]]. }
  11-13: destruct value as [v|]; injection Hw as <-; [|done]; destruct Hs as [K1 K2 K3 K4 K5];
         split; after_set; try done; rewrite get_set, decide_True by done; cbn [diskfilename_ filename_ ipaddrs_ set set_lists];
         rewrite length_app; cbn [length]; rewrite <- s32_next; rewrite <- ?K1, <- ?K2, <- ?K3; reflexivity.
  all: apply (lists_ok_same s); try done; destruct value as [v|]; try done;
    repeat match goal with
           | H : context [match ?x with Some _ => _ | None => _ end] |- _ => destruct x; try done
           | H : context [if ?x then _ else _] |- _ => destruct x; try done
           end; by injection Hw as <-.
Qed.

Lemma crazy_lists s : lists_ok s -> lists_ok (crazy s).
Proof.
  intros H. unfold crazy. destruct (_ =? 0); [done|]. apply (lists_ok_same s); try done.
  intros m Hm. rewrite get_set. case_decide as He; [|done]. subst m. exfalso. revert Hm. change (~ "error_injection_" ∈ counters).
  apply (bool_decide_eq_false_1 _). vm_compute. reflexivity.
Qed.

(** Every channel names at least one module, as the text after the last comma is one. *)
Definition channels_named (s : Sat) : Prop := Forall (fun c => (1 <= length c)%nat) (channels_ s).

Lemma with_value_channels a value s s' :
  channels_named s -> with_value a value s = Accepted s' -> channels_named s'.
Proof.
  intros Hs Hw. unfold channels_named in *. destruct a; cbn [with_value] in Hw; destruct value as [v|]; try done;
    repeat match goal with
           | H : context [match ?x with Some _ => _ | None => _ end] |- _ => destruct x; try done
           | H : context [if ?x then _ else _] |- _ => destruct x; try done
           end; injection Hw as <-; try done.
  cbn. apply Forall_app. split; [done|]. constructor; [|done]. apply OsLayerFacts.split_channel_nonempty.
Qed.

Lemma crazy_channels s : channels_named s -> channels_named (crazy s).
Proof. unfold crazy. by destruct (_ =? 0). Qed.

(** A member that no option stores into. *)
Definition no_option (m : string) : bool :=
  forallb (fun x => negb (bool_decide (m ∈ targets (snd x)))) table.

Lemma no_option_spec m arg a value s s' :
  no_option m = true -> In (arg, a) table -> with_value a value s = Accepted s' -> get s' m = get s m.
Proof.
  unfold no_option. rewrite forallb_forall. intros Hn Hin Hw. eapply with_value_other; [exact Hw|].
  by apply Hn, negb_true_iff, bool_decide_eq_false in Hin.
Qed.

Record parsed_ok (s : Sat) : Prop := {
  pk_members : members_ok s;
  pk_lists : lists_ok s;
  pk_channels : channels_named s;
  pk_logfile : get s "use_logfile_" = 0;
  pk_disk : get s "disk_pages_" = kSatDiskPage
}.

Lemma parse_loop_parsed fuel args s : parse_loop fuel args new_Sat = Accepted s -> parsed_ok s.
Proof.
  apply parse_loop_inv.
  - intros s1 [H1 H2 H3 H4 H5]. split; [by apply crazy_ok | by apply crazy_lists | by apply crazy_channels| |];
      unfold crazy; (destruct (_ =? 0); [done|]); by rewrite get_set, decide_False.
  - intros arg a value s1 s2 Hin [H1 H2 H3 H4 H5] Hw. pose proof table_ok as Ht. pose proof table_counters as Hc.
    rewrite forallb_forall in Ht, Hc. specialize (Ht _ Hin). specialize (Hc _ Hin).
    split; [by eapply with_value_ok | by eapply with_value_lists | by eapply with_value_channels| |].
    + rewrite <- H4. by eapply no_option_spec; [vm_compute | ..].
    + rewrite <- H5. by eapply no_option_spec; [vm_compute | ..].
  - split; [apply new_Sat_ok | by repeat constructor | constructor | reflexivity | reflexivity].
Qed.

(** ** The accepted configurations *)

Record configured (s : Sat) : Prop := {
  cf_members : members_ok s;
  cf_lists : lists_ok s;
  cf_size : get s "size_" = s64 (get s "size_mb_" * 2 ^ 20);
  cf_logfile : get s "use_logfile_" = (if String.eqb (logfilename_ s) "" then 0 else 1);
  cf_page : exists k, 10 <= k <= 30 /\ get s "page_length_" = 2 ^ k;
  cf_yield : get s "fill_yield_bytes_" <= get s "page_length_";
  cf_disk : get s "disk_pages_" = (let n := s32 (filesize s / get s "page_length_") in if n =? 0 then 1 else n);
  cf_disk_positive : 0 <= filesize s < 2 ^ 31 * get s "page_length_" -> 0 < get s "disk_pages_";
  cf_channels : channels_ s = [] \/
    exists a b, 0 <= b /\ b + 3 <= a /\ get s "channel_width_" = 2 ^ a /\
      Forall (fun c => Z.of_nat (length c) = 2 ^ b) (channels_ s) /\
      (length (channels_ s) = 1%nat /\ get s "channel_hash_" = 0 \/ length (channels_ s) = 2%nat)
}.

Lemma valid_page_length_pow2 x :
  OsLayer.valid_page_length x = true -> x < 2 ^ 31 -> exists k, 10 <= k <= 30 /\ x = 2 ^ k.
Proof.
  unfold OsLayer.valid_page_length. rewrite !andb_true_iff. intros [[_ H1%Z.eqb_eq] H2%Z.ltb_lt] Hx.
  destruct (land_pred_pow2 x) as (k & Hk & ->); [lia | done|]. exists k. split; [|done].
  apply Z.pow_lt_mono_r_iff in Hx; [|lia..]. split; [|lia].
  destruct (Z.lt_ge_cases k 10) as [Hlt|]; [|lia]. pose proof (Z.pow_le_mono_r 2 k 9) as H.
  change (2 ^ 9) with 512 in H. lia.
Qed.

(** The assignments behind the loop. *)
Definition sized (s : Sat) : Sat :=
  let s := set s "size_" (get s "size_mb_" * OsLayer.kMegabyte) in
  if String.eqb (logfilename_ s) "" then s else set s "use_logfile_" 1.

Definition disk_sized (s : Sat) : Sat :=
  if filesize s =? u64 (u64 (get s "page_length_") * u64 (get s "disk_pages_")) then s
  else let s := set s "disk_pages_" (filesize s / get s "page_length_") in
       if get s "disk_pages_" =? 0 then set s "disk_pages_" 1 else s.

Lemma update_members_split s s' :
  update_members s = Accepted s' ->
  OsLayer.valid_page_length (get (sized s) "page_length_") = true /\
  get (sized s) "fill_yield_bytes_" <= get (sized s) "page_length_" /\
  exists hash, OsLayer.validate_channels (channels_ s) (get s "channel_hash_") (get s "channel_width_") = Some hash /\
    s' = set (disk_sized (sized s)) "channel_hash_" hash.
Proof.
  unfold update_members. fold (sized s). destruct (OsLayer.valid_page_length _) eqn:Hp; [|done]. cbn [negb].
  destruct (Z.ltb_spec (get (sized s) "page_length_") (get (sized s) "fill_yield_bytes_")) as [|Hy]; [done|].
  destruct (_ || _); [done|]. fold (disk_sized (sized s)).
  assert (Hc : channels_ (disk_sized (sized s)) = channels_ s).
  { unfold disk_sized, sized. repeat case_match; done. }
  assert (Hg : forall m, m <> "size_" -> m <> "use_logfile_" -> m <> "disk_pages_" ->
                 get (disk_sized (sized s)) m = get s m).
  { intros m H1 H2 H3. unfold disk_sized, sized. repeat case_match; rewrite ?get_set; repeat case_decide; congruence. }
  rewrite Hc, !Hg by done. destruct (OsLayer.validate_channels _ _ _) as [hash|] eqn:Hv; [|done].
  intros [= <-]. split; [done|]. split; [done|]. by exists hash.
Qed.

Definition sized_members : list string := ["size_"; "use_logfile_"; "disk_pages_"; "channel_hash_"].

Lemma sized_ok s hash : members_ok s -> members_ok (set (disk_sized (sized s)) "channel_hash_" hash).
Proof.
  intros Hs. plain_set. assert (H1 : members_ok (sized s)).
  { unfold sized. assert (members_ok (set s "size_" (get s "size_mb_" * OsLayer.kMegabyte))) by (by plain_set).
    case_match; [done | by plain_set]. }
  unfold disk_sized. case_match; [done|]. cbv zeta. case_match; repeat plain_set; done.
Qed.

Lemma sized_get s hash m :
  m ∉ sized_members -> get (set (disk_sized (sized s)) "channel_hash_" hash) m = get s m.
Proof.
  unfold sized_members. rewrite !not_elem_of_cons. intros (H1 & H2 & H3 & H4 & _).
  rewrite get_set, decide_False by done. unfold disk_sized, sized.
  repeat case_match; rewrite ?get_set; repeat case_decide; congruence.
Qed.

Lemma sized_rest s hash :
  let s' := set (disk_sized (sized s)) "channel_hash_" hash in
  get s' "size_" = s64 (get s "size_mb_" * 2 ^ 20) /\
  (get s "use_logfile_" = 0 -> get s' "use_logfile_" = if String.eqb (logfilename_ s) "" then 0 else 1) /\
  logfilename_ s' = logfilename_ s /\ dram_frequencies_ s' = dram_frequencies_ s /\
  filename_ s' = filename_ s /\ ipaddrs_ s' = ipaddrs_ s /\ diskfilename_ s' = diskfilename_ s /\
  channels_ s' = channels_ s.
Proof.
  cbv zeta. assert (Hd : forall s1, logfilename_ (disk_sized s1) = logfilename_ s1 /\
    dram_frequencies_ (disk_sized s1) = dram_frequencies_ s1 /\ filename_ (disk_sized s1) = filename_ s1 /\
    ipaddrs_ (disk_sized s1) = ipaddrs_ s1 /\ diskfilename_ (disk_sized s1) = diskfilename_ s1 /\
    channels_ (disk_sized s1) = channels_ s1 /\
    (forall m, m <> "disk_pages_" -> get (disk_sized s1) m = get s1 m)).
  { intros s1. unfold disk_sized. repeat case_match; repeat split; try done; intros m Hm;
      rewrite ?get_set; repeat case_decide; congruence. }
  destruct (Hd (sized s)) as (D1 & D2 & D3 & D4 & D5 & D6 & D7). cbn [logfilename_ dram_frequencies_ filename_
    ipaddrs_ diskfilename_ channels_ set]. rewrite D1, D2, D3, D4, D5, D6, !get_set, !decide_False, !D7 by done.
  unfold sized. cbn [logfilename_ set]. case_match; repeat split; try done; rewrite !get_set;
    try rewrite !decide_False by done; try rewrite decide_True by done; try done.
Qed.

Lemma disk_sized_filesize s : filesize (disk_sized s) = filesize s /\ filesize (sized s) = filesize s.
Proof. unfold disk_sized, sized. repeat case_match; done. Qed.

Lemma disk_sized_pages s :
  get s "disk_pages_" = kSatDiskPage -> 0 < get s "page_length_" < 2 ^ 31 ->
  get (disk_sized s) "disk_pages_" =
    let n := s32 (filesize s / get s "page_length_") in if n =? 0 then 1 else n.
Proof.
  intros Hs Hp. unfold disk_sized, kSatDiskPage in *. rewrite Hs, (u64_id (get s "page_length_")), (u64_id 8) by lia. rewrite u64_id by lia.
  destruct (Z.eqb_spec (filesize s) (get s "page_length_" * 8)) as [He|Hne].
  - rewrite Hs, He, Z.mul_comm, Z.div_mul by lia. done.
  - cbv zeta. rewrite get_set, decide_True by done. change (convert (width_of "disk_pages_")) with s32.
    case_match eqn:H1; rewrite get_set, decide_True by done; done.
Qed.

Lemma get_range s m :
  members_ok s -> bool_decide (m ∈ member_names) = true -> in_range (range_of m) (get s m) = true.
Proof. intros Hs Hm%bool_decide_eq_true_1. destruct (Hs m Hm) as (x & Hx & Hr). unfold get. by rewrite Hx. Qed.

Lemma page_length_small s : members_ok s -> get s "page_length_" < 2 ^ 31.
Proof.
  intros Hs. assert (Hr := get_range s "page_length_" Hs eq_refl).
  change (range_of "page_length_") with (- 2 ^ 31, 2 ^ 31 - 1, 1) in Hr. unfold in_range in Hr.
  rewrite !andb_true_iff, !Z.leb_le in Hr. lia.
Qed.

Lemma sized_page s :
  get (sized s) "page_length_" = get s "page_length_" /\
  get (sized s) "fill_yield_bytes_" = get s "fill_yield_bytes_" /\
  get (sized s) "disk_pages_" = get s "disk_pages_".
Proof. unfold sized. case_match; rewrite ?get_set; rewrite ?decide_False by done; done. Qed.

Lemma channels_configured s hash :
  channels_named s ->
  OsLayer.validate_channels (channels_ s) (get s "channel_hash_") (get s "channel_width_") = Some hash ->
  channels_ s = [] \/
    exists a b, 0 <= b /\ b + 3 <= a /\ get s "channel_width_" = 2 ^ a /\
      Forall (fun c => Z.of_nat (length c) = 2 ^ b) (channels_ s) /\
      (length (channels_ s) = 1%nat /\ hash = 0 \/
       length (channels_ s) = 2%nat /\ hash = get s "channel_hash_").
Proof.
  unfold channels_named. intros Hn Hv. destruct (channels_ s) as [|c0 rest] eqn:Hc; [by left|right].
  apply Forall_cons in Hn as [H0 _].
  destruct (OsLayerFacts.validate_channels_ok _ c0 rest _ _ _ eq_refl H0 Hv) as (a & b & Hb & Ha & Ew & Es & Hall & Hcase).
  exists a, b. repeat split; try done. eapply Forall_impl; [exact Hall|]. cbn. intros c ->. done.
Qed.

Lemma accepted_members args s : ParseArgs args = Accepted s -> members_ok s /\ lists_ok s.
Proof.
  unfold ParseArgs. destruct (parse_loop _ _ _) as [s0| |] eqn:Hl; [|done|done]. intros Hu.
  apply parse_loop_parsed in Hl as [H1 H2 H3 H4 H5].
  apply update_members_split in Hu as (Hp & Hy & hash & Hv & ->).
  destruct (sized_rest s0 hash) as (R1 & R2 & R3 & R4 & R5 & R6 & R7 & R8).
  pose proof (fun m H => sized_get s0 hash m (bool_decide_eq_false_1 _ H)) as Hg.
  split; [by apply sized_ok|].
  apply (lists_ok_same s0); try done. intros m Hm. apply Hg. unfold counters in Hm.
  repeat (apply elem_of_cons in Hm as [->|Hm]; [vm_compute; reflexivity|]). by apply elem_of_nil in Hm.
Qed.

(** A member of an accepted configuration is in its range. *)
Lemma accepted_range args s m lo hi k :
  ParseArgs args = Accepted s -> m ∈ member_names -> range_of m = (lo, hi, k) -> lo <= get s m <= hi.
Proof.
  intros [Ho _]%accepted_members Hm Hr. destruct (Ho m Hm) as (x & Hx & Hin). unfold get. rewrite Hx. cbn.
  rewrite Hr in Hin. cbn in Hin. rewrite !andb_true_iff, !Z.leb_le in Hin. lia.
Qed.

(** C31. Whatever the arguments, for a configuration that [ParseArgs] accepts: every numeric
    member holds a value of its C++ type and in the range its option checks, where it checks
    one (fill and final-check threads from 1 to 256, positive intervals, pattern offsets that
    are multiples of 4, yields that are multiples of a cache line); the page length is a power
    of two from 1 KB to 1 GB and at least the yield; the number of pages of a file is the file
    size divided by the page length, converted to [int], and 1 if that is 0, so it is positive
    when the quotient is below 2^31 (for larger file sizes it may be negative); the counters of
    disk, file and network threads are the numbers of names given, as [int]; the frequencies
    are positive and the sweep flag says whether there are several; and the channels given are
    one or two of the same number of modules, a power of two, of at least eight bits each. *)
Theorem ParseArgs_well_typed args s : ParseArgs args = Accepted s -> configured s.
Proof.
  intros Ha. destruct (accepted_members args s Ha) as [Hm Hl']. revert Ha.
  unfold ParseArgs. destruct (parse_loop _ _ _) as [s0| |] eqn:Hl; [|done|done]. intros Hu.
  apply parse_loop_parsed in Hl as [H1 H2 H3 H4 H5].
  apply update_members_split in Hu as (Hp & Hy & hash & Hv & ->).
  destruct (sized_page s0) as (P1 & P2 & P3). rewrite P1 in Hp, Hy. rewrite P2 in Hy.
  destruct (sized_rest s0 hash) as (R1 & R2 & R3 & R4 & R5 & R6 & R7 & R8).
  pose proof (fun m H => sized_get s0 hash m (bool_decide_eq_false_1 _ H)) as Hg.
  assert (Hpl : 0 < get s0 "page_length_" < 2 ^ 31).
  { destruct (valid_page_length_pow2 _ Hp (page_length_small _ H1)) as (k & Hk & ->). split; [lia|]. apply Z.pow_lt_mono_r; lia. }
  assert (Hfs : filesize (set (disk_sized (sized s0)) "channel_hash_" hash) = filesize s0).
  { cbn [filesize set]. by rewrite (proj1 (disk_sized_filesize _)), (proj2 (disk_sized_filesize _)). }
  assert (Hdisk : get (set (disk_sized (sized s0)) "channel_hash_" hash) "disk_pages_" =
    let n := s32 (filesize (set (disk_sized (sized s0)) "channel_hash_" hash) /
                  get (set (disk_sized (sized s0)) "channel_hash_" hash) "page_length_") in if n =? 0 then 1 else n).
  { rewrite Hfs, (Hg "page_length_") by (vm_compute; reflexivity). rewrite get_set, decide_False by done.
    rewrite disk_sized_pages by (rewrite ?P1, ?P3; done). by rewrite P1, (proj2 (disk_sized_filesize _)). }
  split; [done|done|..].
  - by rewrite R1, Hg by (vm_compute; reflexivity).
  - by rewrite R2, R3.
  - rewrite Hg by (vm_compute; reflexivity). by apply valid_page_length_pow2, page_length_small.
  - by rewrite !Hg by (vm_compute; reflexivity).
  - exact Hdisk.
  - rewrite Hdisk, (Hg "page_length_") by (vm_compute; reflexivity). cbv zeta. rewrite Hfs. intros Hb.
    assert (Hq : 0 <= filesize s0 / get s0 "page_length_" < 2 ^ 31)
      by (split; [apply Z.div_pos; lia | apply Z.div_lt_upper_bound; lia]).
    rewrite s32_id by lia. destruct (Z.eqb_spec (filesize s0 / get s0 "page_length_") 0); lia.
  - rewrite R8, Hg, get_set, decide_True by (vm_compute; reflexivity).
    destruct (channels_configured _ _ H3 Hv) as [?|(a & b & Hb & Ha & Ew & Hall & Hh)]; [by left|right].
    exists a, b. repeat split; try done. destruct Hh as [[? ->]|[? _]]; [by left|by right].
Qed.

(** ** Reading on *)

(** Every option of the list has its value in the list. *)
Fixpoint complete (args : list string) : bool :=
  match args with
  | [] => true
  | arg :: rest =>
      match action_of arg with
      | Some a => if has_value a then match rest with _ :: rest' => complete rest' | [] => false end
                  else complete rest
      | None => false
      end
  end.

Definition bind_outcome {A B} (r : Outcome A) (f : A -> Outcome B) : Outcome B :=
  match r with Accepted a => f a | Rejected => Rejected | Exited c => Exited c end.

(** One turn of the loop. *)
Lemma parse_loop_step fuel arg rest s a :
  action_of arg = Some a ->
  parse_loop (S fuel) (arg :: rest) s =
  bind_outcome (with_value a (if has_value a then head rest else None) (dispatch s arg).1)
    (parse_loop fuel (if has_value a then tail rest else rest)).
Proof.
  intros Ha. cbn [parse_loop]. rewrite <- (dispatch_action s) in Ha.
  destruct (dispatch s arg) as [s1 o]. cbn in Ha |- *. subst o. by destruct (has_value a), (with_value a _ s1).
Qed.

Lemma parse_loop_stop fuel arg rest s :
  action_of arg = None ->
  parse_loop (S fuel) (arg :: rest) s = Exited (if String.eqb arg "-h" || String.eqb arg "--help" then 0 else 1).
Proof.
  intros Ha. cbn [parse_loop]. rewrite <- (dispatch_action s) in Ha.
  destruct (dispatch s arg) as [s1 o]. cbn in Ha. by subst o.
Qed.

(** Fuel beyond the number of arguments is not used. *)
Lemma parse_loop_fuel args : forall fuel s,
  (length args <= fuel)%nat -> parse_loop fuel args s = parse_loop (length args) args s.
Proof.
  induction args as [args IH] using (induction_ltof1 _ (@length string)). unfold ltof in IH. intros fuel s Hf.
  destruct args as [|arg rest]; [by destruct fuel|]. destruct fuel as [|fuel]; [cbn in Hf; lia|].
  cbn [length] in *. destruct (action_of arg) as [a|] eqn:Ha; [|by rewrite !parse_loop_stop].
  rewrite !(parse_loop_step _ _ _ _ _ Ha). destruct (with_value _ _ _) as [s1| |]; [cbn|done|done].
  assert (Hl : (length (if has_value a then tail rest else rest) <= length rest)%nat).
  { destruct (has_value a); [destruct rest; cbn; lia | lia]. }
  set (rest' := if has_value a then tail rest else rest) in *.
  rewrite (IH rest' ltac:(lia) fuel) by lia. by rewrite (IH rest' ltac:(lia) (length rest)) by lia.
Qed.

(** The loop over a list is the loop over its first options, then over the rest. *)
Lemma parse_loop_app pre : forall post s,
  complete pre = true ->
  parse_loop (length (pre ++ post)) (pre ++ post) s =
  bind_outcome (parse_loop (length pre) pre s) (parse_loop (length post) post).
Proof.
  induction pre as [pre IH] using (induction_ltof1 _ (@length string)). unfold ltof in IH. intros post s Hc.
  destruct pre as [|arg rest]; [done|]. cbn [complete] in Hc. destruct (action_of arg) as [a|] eqn:Ha; [|done].
  cbn [app length]. rewrite !(parse_loop_step _ _ _ _ _ Ha). destruct (has_value a).
  - destruct rest as [|v rest]; [done|]. cbn [app head tail length].
    destruct (with_value a (Some v) _) as [s1| |]; [cbn [bind_outcome]|done|done].
    rewrite !(parse_loop_fuel _ (S _)) by lia. apply IH; [cbn; lia | done].
  - destruct (with_value a None _) as [s1| |]; [cbn [bind_outcome]|done|done]. apply IH; [cbn; lia | done].
Qed.

Lemma ParseArgs_after pre post s :
  complete pre = true -> parse_loop (length pre) pre new_Sat = Accepted s ->
  ParseArgs (pre ++ post) = bind_outcome (parse_loop (length post) post s) update_members.
Proof. intros Hc Hp. unfold ParseArgs. by rewrite parse_loop_app, Hp. Qed.

(** ** Which values are accepted *)

(** The text is a decimal number from [low] to [high] that [k] divides. *)
Definition number_text (low high k : Z) (v : string) : Prop :=
  exists n, DecimalFacts.decimal_text (txt v) n /\ low <= n <= high /\ (k | n).

(** What an option asks of the argument behind it ([None]: there is none), by kind of option.
    The first group checks nothing: a missing value leaves the configuration as it is. *)
Definition accepts (a : Action) (value : option string) (s : Sat) : Prop :=
  match a with
  | KVALUE _ _ | IVALUE _ | FileSize | SVALUE | DiskDevice | TempFile | NetHost | Channel => True
  | Selector => is_Some value
  | PositiveInt _ limit k => exists v, value = Some v /\ number_text 1 (Z.min limit INT_MAX) k v
  | NonNegativeInt _ k => exists v, value = Some v /\ number_text 0 INT_MAX k v
  | Choice _ values => exists v, value = Some v /\ v ∈ map fst values
  | FinalCheckThreads => exists v, value = Some v /\ number_text 1 256 1 v
  | DdrFreq => dram_frequencies_ s = [] /\ exists v, value = Some v /\
      (v = "all" \/ Forall (number_text 1 INT_MAX 1) (OsLayer.split_channel (txt v) []))
  | DdrNode => exists v, value = Some v /\ v <> ""
  end.

Lemma parse_int_number low v :
  low = 0 \/ low = 1 -> forall k high, 0 < k -> high <= INT_MAX ->
  (exists n, parse_int low v = Some n /\ n <= high /\ n mod k = 0) <-> number_text low high k v.
Proof.
  intros Hl k high Hk Hh. unfold number_text. split; intros (n & Hn & H); exists n.
  - apply DecimalFacts.parse_int_decimal in Hn as [Hd Hr]; [|lia]. split; [done|]. split; [lia|]. apply Z.mod_divide; [lia | apply H].
  - split; [apply DecimalFacts.parse_int_decimal; [lia | split; [done | lia]]|]. split; [lia|]. apply Z.mod_divide; [lia | apply H].
Qed.

Lemma lookup_fst {A} v (l : list (string * A)) : v ∈ map fst l <-> is_Some (lookup v l).
Proof.
  unfold lookup. destruct (List.find (fun x => String.eqb v x.1) l) as [[k b]|] eqn:E.
  - split; [by eexists|]. intros _. apply find_some in E as [Hin He]. cbn in He. apply String.eqb_eq in He as ->.
    apply list_elem_of_In, in_map_iff. by exists (k, b).
  - split; [|by intros []]. intros Hin. exfalso. apply list_elem_of_In, in_map_iff in Hin as ([k b] & <- & Hin).
    pose proof (find_none _ _ E _ Hin) as Hn. cbn in Hn. by rewrite String.eqb_refl in Hn.
Qed.

Lemma frequency_loop_accepts items :
  is_Some (frequency_loop items) <-> Forall (number_text 1 INT_MAX 1) items.
Proof.
  assert (H1 : forall v, is_Some (ParsePositiveInt v) <-> number_text 1 INT_MAX 1 v).
  { intros v. rewrite <- (parse_int_number 1 v) by (unfold INT_MAX; lia). unfold ParsePositiveInt. split.
    - intros [n Hn]. exists n. split; [done|]. apply DecimalFacts.parse_int_decimal in Hn as [_ ?]; [|lia]. split; [lia | apply Z.mod_1_r].
    - intros (n & -> & _). by eexists. }
  induction items as [|x items IH]; cbn; [by split; [constructor | eexists]|]. rewrite Forall_cons, <- IH, <- H1.
  destruct (ParsePositiveInt x); cbn; [|by split; [intros [] | intros [[] _]]].
  destruct (frequency_loop items); cbn; [split; [split; by eexists | by eexists]|]. split; [by intros [] | by intros [_ []]].
Qed.

(** The multiples the table asks for are positive. *)
Definition multiple_ok (a : Action) : bool :=
  match a with PositiveInt _ _ k | NonNegativeInt _ k => 0 <? k | _ => true end.

Lemma table_multiples : forallb (fun x => multiple_ok (snd x)) table = true.
Proof. vm_compute. reflexivity. Qed.

(** The code accepts exactly these values, and gives up on all others. *)
Lemma with_value_accepts a value s :
  multiple_ok a = true ->
  (accepts a value s /\ exists s', with_value a value s = Accepted s') \/ (~ accepts a value s /\ with_value a value s = Rejected).
Proof.
  intros Hk. assert (Hyes : forall P Q : Prop, P -> Q -> (P /\ Q) \/ (~ P /\ with_value a value s = Rejected)) by auto.
  destruct a; cbn [accepts with_value multiple_ok] in *; try (left; by split; [|eexists]).
  - destruct value; [left; split; by eexists | right; split; [by intros [] | done]].
  - apply Z.ltb_lt in Hk. destruct value as [v|]; [|right; split; [by intros (? & ? & _) | done]].
    pose proof (parse_int_number 1 v ltac:(auto) multiple (Z.min limit INT_MAX) Hk ltac:(lia)) as Hn. unfold ParsePositiveInt.
    destruct (parse_int 1 v) as [n|] eqn:E.
    + destruct (Z.ltb_spec limit n), (Z.eqb_spec (n mod multiple) 0); cbn [orb negb].
      1,2,4: right; split; [|done]; intros (v' & [= <-] & Hv); apply Hn in Hv as (n' & [= <-] & ? & ?); lia || done.
      left. split; [|by eexists]. exists v. split; [done|]. apply Hn. exists n. split; [done|]. split; [|done].
      apply DecimalFacts.parse_int_decimal in E as [_ ?]; [|lia]. lia.
    + right. split; [|done]. intros (v' & [= <-] & Hv). apply Hn in Hv as (n' & ? & _). done.
  - apply Z.ltb_lt in Hk. destruct value as [v|]; [|right; split; [by intros (? & ? & _) | done]].
    pose proof (parse_int_number 0 v ltac:(auto) multiple INT_MAX Hk ltac:(lia)) as Hn. unfold ParseNonNegativeInt.
    destruct (parse_int 0 v) as [n|] eqn:E.
    + destruct (Z.eqb_spec (n mod multiple) 0); cbn [negb].
      2: right; split; [|done]; intros (v' & [= <-] & Hv); apply Hn in Hv as (n' & [= <-] & ? & ?); done.
      left. split; [|by eexists]. exists v. split; [done|]. apply Hn. exists n. split; [done|]. split; [|done].
      apply DecimalFacts.parse_int_decimal in E as [_ ?]; [|lia]. lia.
    + right. split; [|done]. intros (v' & [= <-] & Hv). apply Hn in Hv as (n' & ? & _). done.
  - destruct value as [v|]; [|right; split; [by intros (? & ? & _) | done]]. pose proof (lookup_fst v values) as Hl.
    destruct (lookup v values).
    + left. split; [|by eexists]. exists v. split; [done|]. apply Hl. by eexists.
    + right. split; [|done]. intros (v' & [= <-] & Hv). by apply Hl in Hv as [].
  - destruct value as [v|]; [|right; split; [by intros (? & ? & _) | done]].
    pose proof (parse_int_number 1 v ltac:(auto) 1 256 ltac:(lia) ltac:(unfold INT_MAX; lia)) as Hn. unfold ParsePositiveInt, kMaxDiagnosticWorkerCount.
    destruct (parse_int 1 v) as [n|].
    + destruct (Z.ltb_spec 256 n).
      * right; split; [|done]; intros (v' & [= <-] & Hv); apply Hn in Hv as (n' & [= <-] & ? & ?); lia.
      * left. split; [|by eexists]. exists v. split; [done|]. apply Hn. exists n. split; [done|]. split; [done | apply Z.mod_1_r].
    + right. split; [|done]. intros (v' & [= <-] & Hv). apply Hn in Hv as (n' & ? & _). done.
  - destruct value as [v|]; [|right; split; [by intros (_ & ? & ? & _) | done]]. case_bool_decide as Hd.
    2: right; split; [by intros [? _] | done].
    unfold ParseDramFrequencyList. destruct (String.eqb_spec v "all") as [->|Hne].
    + left. split; [|by eexists]. split; [done|]. exists "all". auto.
    + pose proof (frequency_loop_accepts (OsLayer.split_channel (txt v) [])) as Hf. destruct (frequency_loop _).
      * left. split; [|by eexists]. split; [done|]. exists v. split; [done|]. right. apply Hf. by eexists.
      * right. split; [|done]. intros (_ & v' & [= <-] & [?|Hv]); [done|]. by apply Hf in Hv as [].
  - destruct value as [v|]; [|right; split; [by intros (? & ? & _) | done]]. destruct (String.eqb_spec v "") as [->|Hne].
    + right. split; [|done]. intros (v' & [= <-] & ?). done.
    + left. split; [|by eexists]. by exists v.
Qed.

Lemma dispatch_frequencies s arg : dram_frequencies_ (dispatch s arg).1 = dram_frequencies_ s.
Proof. destruct (dispatch_state s arg) as [->| ->]; [done|]. unfold crazy. by destruct (_ =? 0). Qed.

Lemma accepts_dispatch a value s arg : accepts a value (dispatch s arg).1 <-> accepts a value s.
Proof. destruct a; cbn [accepts]; try done. by rewrite dispatch_frequencies. Qed.

(** ** The logger gate of [main.cc] *)

Definition profile : string := "dram_address_map_profile_".

(** No option has the text ["--dram-map"] for its value. *)
Fixpoint plain_values (args : list string) : bool :=
  match args with
  | [] => true
  | arg :: rest =>
      match action_of arg with
      | Some a => if has_value a then match rest with
                                      | v :: rest' => negb (String.eqb v "--dram-map") && plain_values rest'
                                      | [] => true
                                      end
                  else plain_values rest
      | None => true
      end
  end.

Lemma prepare_step fuel arg value rest enabled :
  prepare_loop (S fuel) (arg :: value :: rest) enabled =
  if String.eqb arg "--dram-map" then
    if String.eqb value "lpddr-v1" then None
    else
      r ← prepare_loop fuel rest (String.eqb value "sm8975-lp6");
      Some (arg :: (if String.eqb value "sm8975-lp6" then "lpddr-v1" else value) :: fst r, snd r)
  else
    r ← prepare_loop fuel (value :: rest) enabled;
    Some (arg :: fst r, snd r).
Proof. reflexivity. Qed.

Lemma prepare_fuel args : forall fuel enabled,
  (length args <= fuel)%nat -> prepare_loop fuel args enabled = prepare_loop (length args) args enabled.
Proof.
  induction args as [args IH] using (induction_ltof1 _ (@length string)). unfold ltof in IH. intros fuel enabled Hf.
  destruct args as [|arg [|value rest]]; [by destruct fuel | by destruct fuel|].
  destruct fuel as [|fuel]; [cbn in Hf; lia|]. cbn [length] in *. rewrite !prepare_step.
  rewrite (IH (value :: rest) ltac:(cbn [length]; lia) fuel) by (cbn [length]; lia). cbn [length].
  destruct (String.eqb arg "--dram-map"); [|done]. destruct (String.eqb value "lpddr-v1"); [done|].
  rewrite (IH rest ltac:(lia) fuel) by lia. by rewrite (IH rest ltac:(lia) (S (length rest))) by lia.
Qed.

(** One step over an argument that is not the option. *)
Lemma prepare_skip arg rest enabled :
  arg <> "--dram-map" ->
  prepare_loop (length (arg :: rest)) (arg :: rest) enabled =
  r ← prepare_loop (length rest) rest enabled; Some (arg :: fst r, snd r).
Proof.
  intros Hne. destruct rest as [|value rest]; [done|]. cbn [length]. rewrite prepare_step.
  by rewrite (proj2 (String.eqb_neq _ _) Hne).
Qed.

Lemma profile_step s arg a value s' :
  arg <> "--dram-map" -> action_of arg = Some a -> with_value a value (dispatch s arg).1 = Accepted s' ->
  get s' profile = get s profile.
Proof.
  intros Hne Ha Hw. assert (Ho : only_by profile "--dram-map" = true) by (vm_compute; reflexivity).
  apply action_of_In in Ha. rewrite (with_value_other _ _ _ _ profile Hw) by (by eapply only_by_spec).
  destruct (dispatch_state s arg) as [->| ->]; [done|]. unfold crazy. case_match; [done|].
  by rewrite get_set, decide_False.
Qed.

Definition aligned (enabled : bool) (s : Sat) : Prop := enabled = true <-> get s profile = 1.

Definition dram_map : Action := Choice profile [("lpddr-v1", 1); ("none", 0)].

Lemma dram_map_action : action_of "--dram-map" = Some dram_map.
Proof. reflexivity. Qed.

Lemma aligned_step enabled s arg a value s' :
  arg <> "--dram-map" -> action_of arg = Some a -> with_value a value (dispatch s arg).1 = Accepted s' ->
  aligned enabled s -> aligned enabled s'.
Proof. intros Hne Ha Hw. unfold aligned. by rewrite (profile_step _ _ _ _ _ Hne Ha Hw). Qed.

Lemma dram_map_value v s :
  with_value dram_map (Some v) s =
  if String.eqb v "lpddr-v1" then Accepted (set s profile 1)
  else if String.eqb v "none" then Accepted (set s profile 0) else Rejected.
Proof.
  unfold dram_map. cbn [with_value]. unfold lookup. cbn [List.find fst]. destruct (String.eqb v "lpddr-v1"); [done|]. by destruct (String.eqb v "none").
Qed.

(** After the option itself the flag and the profile agree, whatever they were. *)
Lemma dram_map_step v s s' :
  String.eqb v "lpddr-v1" = false ->
  with_value dram_map
    (Some (if String.eqb v "sm8975-lp6" then "lpddr-v1" else v)) s = Accepted s' ->
  aligned (String.eqb v "sm8975-lp6") s'.
Proof.
  intros Hv. rewrite dram_map_value. destruct (String.eqb v "sm8975-lp6").
  - intros [= <-]. unfold aligned. rewrite get_set, decide_True by done. by split.
  - rewrite Hv. destruct (String.eqb v "none"); [|done]. intros [= <-]. unfold aligned.
    rewrite get_set, decide_True by done. by split.
Qed.

Lemma loops_aligned args : forall s s' enabled args' enabled',
  plain_values args = true ->
  prepare_loop (length args) args enabled = Some (args', enabled') ->
  parse_loop (length args') args' s = Accepted s' ->
  aligned enabled s -> aligned enabled' s'.
Proof.
  induction args as [args IH] using (induction_ltof1 _ (@length string)). unfold ltof in IH.
  intros s s' enabled args' enabled' Hp Hl He Ha. destruct args as [|arg rest].
  { injection Hl as <- <-. by injection He as <-. }
  cbn [plain_values] in Hp.
  assert (Ho : parse_loop (length args') args' s = Accepted s' -> head args' = Some arg -> action_of arg <> None).
  { intros H1 H2 H3. destruct args' as [|? r]; [done|]. injection H2 as ->. cbn [length] in H1.
    by rewrite parse_loop_stop in H1. }
  destruct (String.eqb_spec arg "--dram-map") as [->|Hne].
  - destruct rest as [|value rest].
    { injection Hl as <- <-. vm_compute in He. done. }
    rewrite dram_map_action in Hp. cbn [has_value dram_map] in Hp. apply andb_true_iff in Hp as [_ Hp]. cbn [length] in Hl.
    rewrite prepare_step, String.eqb_refl in Hl. destruct (String.eqb value "lpddr-v1") eqn:Hv; [done|].
    rewrite prepare_fuel in Hl by (cbn; lia).
    destruct (prepare_loop (length rest) rest _) as [[rest' e]|] eqn:Hr; [|done]. injection Hl as <- <-.
    cbn [length fst snd] in He. rewrite (parse_loop_step _ _ _ _ _ dram_map_action) in He. cbn [has_value dram_map head tail] in He. fold dram_map in He.
    destruct (with_value _ _ _) as [s1| |] eqn:Hw; [|done|done]. cbn [bind_outcome] in He.
    rewrite parse_loop_fuel in He by lia. apply (IH rest) with s1 (String.eqb value "sm8975-lp6") rest';
      [cbn; lia | done | done | done |]. by eapply dram_map_step.
  - rewrite prepare_skip in Hl by done.
    destruct (prepare_loop (length rest) rest enabled) as [[r e]|] eqn:Hr; [|done]. injection Hl as <- <-.
    cbn [fst snd] in *. destruct (action_of arg) as [a|] eqn:Hact; [|by apply Ho in He].
    cbn [length] in He. rewrite (parse_loop_step _ _ _ _ _ Hact) in He.
    destruct (has_value a).
    + destruct rest as [|value rest].
      { injection Hr as <- <-. cbn in He. destruct (with_value _ _ _) as [s1| |] eqn:Hw; [|done|done].
        injection He as <-. by eapply aligned_step. }
      apply andb_true_iff in Hp as [Hv%negb_true_iff%String.eqb_neq Hp]. rewrite prepare_skip in Hr by done.
      destruct (prepare_loop (length rest) rest enabled) as [[r' e']|] eqn:Hr'; [|done]. injection Hr as <- <-.
      cbn [fst snd head tail length] in *. destruct (with_value _ _ _) as [s1| |] eqn:Hw; [|done|done].
      cbn [bind_outcome] in He. rewrite parse_loop_fuel in He by lia.
      apply (IH rest) with s1 enabled r'; [cbn; lia | done | done | done | by eapply aligned_step].
    + destruct (with_value _ _ _) as [s1| |] eqn:Hw; [|done|done]. cbn [bind_outcome] in He.
      apply (IH rest) with s1 enabled r; [cbn; lia | done | done | done | by eapply aligned_step].
Qed.

(** ** Properties *)

(** A command line with most kinds of options. *)
Definition sample_args : list string :=
  ["-M"; "0x40"; "-s"; "60"; "-p"; "4096"; "--fill-threads"; " +4"; "--fill-yield-bytes"; "128"; "-f"; "/tmp/a";
   "-f"; "/tmp/b"; "--ddr-freq"; "547,5333"; "--memory_channel"; "U1,U2"; "--memory_channel"; "U3,U4"; "-l"; "sat.log"].

Lemma ParseArgs_well_typed_witness :
  exists s, ParseArgs sample_args = Accepted s /\ configured s /\ get s "size_" = 67108864 /\
    get s "file_threads_" = 2 /\ dram_frequencies_ s = [547; 5333] /\ get s "disk_pages_" = 2048.
Proof.
  assert (K : match ParseArgs sample_args with
              | Accepted s => get s "size_" = 67108864 /\ get s "file_threads_" = 2 /\
                              dram_frequencies_ s = [547; 5333] /\ get s "disk_pages_" = 2048
              | _ => False
              end) by (vm_compute; repeat split).
  destruct (ParseArgs sample_args) as [s| |] eqn:H; [|destruct K|destruct K].
  exists s. split; [reflexivity|]. split; [exact (ParseArgs_well_typed _ _ H) | exact K].
Defined.

(** C32. Behind options that were read with their values, an argument that is no option ends
    the program with status 1, or 0 for a request for help.  An option reads on exactly when
    [accepts] holds of the argument behind it, and makes [ParseArgs] fail otherwise, whatever
    follows.  Numbers that are checked must be white space, an optional sign and digits up to
    the end of the text, between the bounds of the option and a multiple of what it asks for;
    choices must be one of the names; frequencies must be given once, as such numbers between
    commas or as the word all; the pattern selector must be there and the frequency node not
    empty.  The other options with a value (such as -M, -s, -m, -p, -d, -f, -n, -l and
    --memory_channel) check nothing: they take any text, and when the value is missing they
    are ignored. *)
Theorem invalid_arguments_refused pre s :
  complete pre = true -> parse_loop (length pre) pre new_Sat = Accepted s ->
  (forall arg post, action_of arg = None ->
     ParseArgs (pre ++ arg :: post) = Exited (if String.eqb arg "-h" || String.eqb arg "--help" then 0 else 1)) /\
  (forall arg a post, action_of arg = Some a ->
     let value := if has_value a then head post else None in
     let rest := if has_value a then tail post else post in
     (accepts a value s -> exists s', with_value a value (dispatch s arg).1 = Accepted s' /\
        ParseArgs (pre ++ arg :: post) = bind_outcome (parse_loop (length post) rest s') update_members) /\
     (~ accepts a value s -> ParseArgs (pre ++ arg :: post) = Rejected)).
Proof.
  intros Hc Hp. split.
  - intros arg post Ha. rewrite (ParseArgs_after _ _ _ Hc Hp). cbn [length]. by rewrite parse_loop_stop.
  - intros arg a post Ha. cbv zeta. rewrite (ParseArgs_after _ _ _ Hc Hp). cbn [length]. rewrite (parse_loop_step _ _ _ _ _ Ha).
    pose proof table_multiples as Ht. rewrite forallb_forall in Ht. specialize (Ht _ (action_of_In _ _ Ha)). cbn in Ht.
    destruct (with_value_accepts a (if has_value a then head post else None) (dispatch s arg).1 Ht) as [[H1 (s' & ->)]|[H1 ->]];
      rewrite accepts_dispatch in H1.
    + split; [|done]. intros _. exists s'. by split.
    + split; [done|]. done.
Qed.

Lemma invalid_arguments_refused_witness :
  complete ["-s"; "60"; "-W"] = true /\
  ParseArgs (["-s"; "60"; "-W"] ++ ["--fill-direction"; "left"; "-F"]) = Rejected /\
  ParseArgs (["-s"; "60"; "-W"] ++ ["--ddr-freq"]) = Rejected /\
  ParseArgs (["-s"; "60"; "-W"] ++ ["--hlep"]) = Exited 1 /\
  (exists s', ParseArgs (["-s"; "60"; "-W"] ++ ["-M"]) = update_members s').
Proof.
  assert (K : match parse_loop 3 ["-s"; "60"; "-W"] new_Sat with Accepted _ => True | _ => False end)
    by (vm_compute; exact I).
  destruct (parse_loop 3 ["-s"; "60"; "-W"] new_Sat) as [s| |] eqn:H; [|destruct K|destruct K].
  destruct (invalid_arguments_refused ["-s"; "60"; "-W"] s eq_refl H) as (H1 & H2).
  split; [reflexivity|]. split; [|split; [|split]].
  - apply (proj2 (H2 "--fill-direction" _ ["left"; "-F"] eq_refl)). intros (v & Hv & Hin). cbn in Hv. injection Hv as <-.
    revert Hin. apply (bool_decide_eq_false_1 _). vm_compute. reflexivity.
  - apply (proj2 (H2 "--ddr-freq" _ [] eq_refl)). intros (_ & v & Hv & _). discriminate Hv.
  - exact (H1 "--hlep" [] eq_refl).
  - destruct (proj1 (H2 "-M" _ [] eq_refl) I) as (s' & _ & He). exists s'. exact He.
Defined.

(** A file size of all ones gives a negative number of pages. *)
Theorem negative_disk_pages :
  match ParseArgs ["--filesize"; "0xFFFFFFFFFFFFFFFF"] with Accepted s => get s "disk_pages_" = -1 | _ => False end.
Proof. vm_compute. reflexivity. Qed.

(** A list of positive [int] frequencies printed with commas is read back as the same
    list, in the same order. *)
Theorem frequency_list_roundtrip fs :
  fs <> [] -> Forall (fun f => 1 <= f <= INT_MAX) fs ->
  ParseDramFrequencyList (string_of_list_ascii (DecimalFacts.frequency_text fs)) = Some fs.
Proof. apply DecimalFacts.ParseDramFrequencyList_text. Qed.

Lemma frequency_list_roundtrip_witness :
  string_of_list_ascii (DecimalFacts.frequency_text [547; 5333; 547]) = "547,5333,547" /\
  ParseDramFrequencyList (string_of_list_ascii (DecimalFacts.frequency_text [547; 5333; 547])) = Some [547; 5333; 547].
Proof.
  split; [vm_compute; reflexivity|]. apply (frequency_list_roundtrip [547; 5333; 547]); [discriminate|].
  unfold INT_MAX. repeat (apply Forall_cons; split; [lia|]). apply Forall_nil. exact I.
Defined.

(** When [PrepareDramMapArgs] accepts the arguments, [ParseArgs] accepts what it makes
    of them and no option has ["--dram-map"] for its value, the logger rewrites error lines
    exactly when [ParseArgs] selected the LPDDR profile, however often the option is given. *)
Theorem logger_gate_aligned args args' enabled s :
  PrepareDramMapArgs args = Some (args', enabled) -> ParseArgs args' = Accepted s -> plain_values args = true ->
  (enabled = true <-> get s profile = 1).
Proof.
  unfold PrepareDramMapArgs, ParseArgs. intros Hp He Hv.
  destruct (parse_loop _ _ _) as [s0| |] eqn:Hl; [|done|done].
  assert (aligned enabled s0) as Ha by (by apply (loops_aligned args new_Sat s0 false args')).
  apply update_members_split in He as (_ & _ & hash & _ & ->).
  by rewrite sized_get by (by apply (bool_decide_eq_false_1 _)).
Qed.

Definition sample_gate : list string := ["--dram-map"; "none"; "-W"; "--dram-map"; "sm8975-lp6"].
Definition sample_gate' : list string := ["--dram-map"; "none"; "-W"; "--dram-map"; "lpddr-v1"].

Lemma logger_gate_aligned_witness :
  exists s, PrepareDramMapArgs sample_gate = Some (sample_gate', true) /\ ParseArgs sample_gate' = Accepted s /\
    get s profile = 1.
Proof.
  assert (Hp : PrepareDramMapArgs sample_gate = Some (sample_gate', true)) by (vm_compute; reflexivity).
  assert (K : match ParseArgs sample_gate' with Accepted _ => True | _ => False end) by (vm_compute; exact I).
  destruct (ParseArgs sample_gate') as [s| |] eqn:He; [|destruct K|destruct K].
  exists s. split; [exact Hp|]. split; [reflexivity|].
  apply (logger_gate_aligned _ _ _ _ Hp He eq_refl). reflexivity.
Defined.

(** With a log file named ["--dram-map"] the two disagree: the parser selects the profile and
    the logger does not rewrite. *)
Theorem logger_gate_misaligned :
  let args := ["--dram-map"; "sm8975-lp6"; "-l"; "--dram-map"; "-A"] in
  let args' := ["--dram-map"; "lpddr-v1"; "-l"; "--dram-map"; "-A"] in
  PrepareDramMapArgs args = Some (args', false) /\
  match ParseArgs args' with Accepted s => get s profile = 1 | _ => False end.
Proof. split; vm_compute; reflexivity. Qed.

(** [--force_errors_like_crazy] switches the injection of errors on only when a later
    argument gets to the test behind it. *)
Theorem crazy_needs_a_later_argument :
  match ParseArgs ["--force_errors_like_crazy"], ParseArgs ["--force_errors_like_crazy"; "-W"] with
  | Accepted s, Accepted s' =>
      get s "crazy_error_injection_" = 1 /\ get s "error_injection_" = 0 /\ get s' "error_injection_" = 1
  | _, _ => False
  end.
Proof. vm_compute. repeat split. Qed.

End OptionsFacts.
