(* ===== verification/Initialize.v ===== *)
(** Setting up the work blocks: [Sat::RunFillPass] and [Sat::InitializePages] of
    [src/src/sat.cc].

    The main thread's own accesses are programs of [Program.v] that run on their own; the
    threads of a fill pass are interleaved in any way and then joined.  The map
    of tested pages is in [PageMap.v]; log lines are left out, and so are the options of test builds.  [IsReadyToRun] is
    true throughout: nobody stops or pauses the threads of this phase. *)

From Stdlib Require Import Ascii String.
From S2P Require Import Prelude Adler Patterns Invert PageQueue FineLock OsLayer ErrorDiag.
From S2P Require Import Diagnostics Worker Program PageStore Search Threads Accounting Options.

Module Initialize.
Import PageQueue FineLock Program PageStore Worker Threads Accounting.
Local Open Scope prog_scope.

(** ** The number of empty blocks *)

Definition neededpages (o : Options.Sat) : Z :=
  s32 (Options.get o "memory_threads_" + Options.get o "invert_threads_" + Options.get o "check_threads_" +
       Options.get o "net_threads_" + Options.get o "file_threads_").

Definition freepages_of (o : Options.Sat) (pages : Z) : Z :=
  if Options.get o "pe_q_implementation_" =? 1 then pages / 5 * 2
  else pages / 100 + 2 * neededpages o.

(** [None] for the two errors. *)
Definition split_target (o : Options.Sat) (pages : Z) : option Z :=
  let free := freepages_of o pages in
  if free <? neededpages o then None else if pages / 2 <? free then None else Some free.

(** What the split records of the physical memory. *)
Record Regions := mkRegions { region_ : list Z; region_mask_ : Z; region_os : OsLayer.OsLayer }.

Section Pages.
Context {Q : Type} `{PS : PageStore Answer Q} `{IS : InitStore Q} (s : Settings).
Abbreviation P := (Prog Answer (@Shared Q)).

(** ** The loops of the main thread *)

Definition set_offset (pe : page_entry) (off : Z) : page_entry :=
  mk_page_entry off (addr pe) (PageQueue.paddr pe) (pattern pe) (tag pe) (touch pe) (ts pe)
    (PageQueue.lastcpu pe) (write_dram_frequency pe) (lastpattern pe).
Definition set_region (pe : page_entry) (pa tg : Z) : page_entry :=
  mk_page_entry (offset pe) (addr pe) pa (pattern pe) tg (touch pe) (ts pe)
    (PageQueue.lastcpu pe) (write_dram_frequency pe) (lastpattern pe).

(** All blocks into the queue; [junk] is the uninitialised variable. *)
Fixpoint put_all_empty (junk : page_entry) (k : nat) (i : Z) (result : bool) : P bool :=
  match k with
  | O => Ret result
  | S k' =>
      r <- Sat_PutEmpty (set_offset (init_pe junk) (i * page_length_ s)) ;;
      put_all_empty junk k' (i + 1) (result && r)
  end.

(** [--prefault-pages]: one byte in each page of the operating system. *)
Fixpoint prefault (os_page_size : Z) (k : nat) (i : Z) : P bool :=
  match k with
  | O => Ret true
  | S k' =>
      pe <- map_page s (set_offset null_pe (i * page_length_ s)) ;;
      if addr pe =? 0 then Ret false
      else
        modify (fun _ w => set_memory w (fold_left
          (fun m j => set_byte m (page_base (cfg s) pe) (j * os_page_size) 0)
          (zrange 0 (Z.to_nat ((page_length_ s + os_page_size - 1) / os_page_size))) (memory w))) ;;
        prefault os_page_size k' (i + 1)
  end.

(** After a preset pass, valid entries become empty again. *)
Fixpoint reset_pages (k : nat) : P bool :=
  match k with
  | O => Ret true
  | S k' =>
      got <- Sat_GetValid s kDontCareTag ;;
      match got with
      | None => Ret false
      | Some pe => r <- Sat_PutEmpty pe ;; if (r : bool) then reset_pages k' else Ret false
      end
  end.

(** The region of a block, counted. *)
Definition tag_region (pe : page_entry) (r : Regions) : page_entry * Regions :=
  let pa := OsLayer.VirtualToPhysical (pagesize (world (cfg s))) (pagemap (world (cfg s))) (addr pe) in
  let '(region, os) := OsLayer.FindRegion (region_os r) pa in
  let tg := s32 (Z.shiftl 1 region) in
  (set_region pe pa tg,
   mkRegions (aset (region_ r) region (aget 0 (region_ r) region + 1)) (Z.lor (region_mask_ r) tg) os).

(** The blocks are split into empty and valid ones; [None] for [return false]. *)
Fixpoint split_pages (freepages_ : Z) (k : nat) (i : Z) (r : Regions) (result : bool) : P (option (bool * Regions)) :=
  match k with
  | O => Ret (Some (result, r))
  | S k' =>
      got <- Sat_GetValid s kInvalidTag ;;
      match got with
      | None => Ret None
      | Some pe =>
          let '(pe, r) := tag_region pe r in
          put <- (if i <? freepages_ then Sat_PutEmpty pe else Sat_PutValid pe) ;;
          split_pages freepages_ k' (i + 1) r (result && put)
      end
  end.

(** ** The fill threads *)

(** [SetFillPages] for thread [i] of [threads]. *)
Definition fill_quota (threads i : nat) : Z :=
  if bool_decide (i = Nat.pred threads) then pages s - pages s / Z.of_nat threads * Z.of_nat i
  else pages s / Z.of_nat threads.

(** A thread fills at most [pages] blocks, which bounds its turns. *)
Definition fill_thread (preset_only : bool) (threads i : nat) : P (option bool) :=
  FillThread_Work s (S (Z.to_nat (pages s))) i preset_only (fill_quota threads i).

Definition fill_threads (preset_only : bool) (threads : nat) : list (P (option bool)) :=
  map (fill_thread preset_only threads) (seq 0 threads).

(** ** Executions *)

Definition is_ready (an : Answer) : Prop := ready an = true.

(** The main thread on its own. *)
Definition alone {A} (p : P A) (w : @Shared Q) (a : A) (w' : @Shared Q) : Prop :=
  exists ans, Forall is_ready ans /\ run_alone p ans w = Some (a, w').

(** Threads started together and joined, with their results. *)
Definition joined {A} (ths : list (P A)) (w : @Shared Q) (rs : list A) (w' : @Shared Q) : Prop :=
  rtc (pstep_in is_ready) (w, ths) (w', map Ret rs).

(** [Sat] while it sets up, in a state [initialization_errorcount_] and the shared one. *)
Record Setup := mkSetup { initialization_errorcount_ : Z; shared : @Shared Q }.

(** The threads of a phase have counters of their own. *)
Definition new_workers (threads : nat) (w : @Shared Q) : @Shared Q :=
  set_workers w (replicate threads
    (new_worker (if diag_phase_summary s then Some Diagnostics.new_phase_stats else None))).

(** [RunFillPass] with all threads created: the result and the state. *)
Inductive RunFillPass (preset_only : bool) (threads : nat) : Setup -> bool -> Setup -> Prop :=
| fill_pass st rs w' result w'' :
    joined (fill_threads preset_only threads) (new_workers threads (shared st)) rs w' ->
    (let ok := forallb (fun r => bool_decide (r = Some true)) rs in
     if preset_only && ok then alone (reset_pages (Z.to_nat (pages s))) w' result w''
     else result = ok /\ w'' = w') ->
    RunFillPass preset_only threads st result
      (mkSetup (initialization_errorcount_ st + total_errors w') w'').

(** [--verify-after-fill]. *)
Inductive PostFillCheck : Setup -> bool -> Setup -> Prop :=
| post_fill_check st result w' :
    alone (PostFillCheckThread_Work s 0 (pages s)) (new_workers 1 (shared st)) result w' ->
    PostFillCheck st result (mkSetup (initialization_errorcount_ st + total_errors w') w').

(** What [InitializePages] reads of the configuration. *)
Record InitOptions := mkInitOptions {
  threads_ : nat; prefault_pages_ : option Z;     (** the size of the system's pages *)
  verify_after_fill_ : bool; freepages_ : Z; junk_ : page_entry
}.

(** The steps of [InitializePages] behind its first two checks, each with the state it
    leaves; a step that fails ends the sequence. *)
Inductive Phase := Queued | Prefaulted | Preset | Filled | Verified | Split (r : Regions) | Failed.

Inductive init_step (o : InitOptions) : Phase * Setup -> Phase * Setup -> Prop :=
| init_prefault st b e w :
    match prefault_pages_ o with
    | Some size => alone (prefault size (Z.to_nat (pages s)) 0) (shared st) b w /\ e = initialization_errorcount_ st
    | None => b = true /\ mkSetup e w = st
    end ->
    init_step o (Queued, st) (if b then Prefaulted else Failed, mkSetup e w)
| init_preset st b st' :
    match fill_preset s with
    | FILL_PRESET_NONE => b = true /\ st' = st
    | _ => RunFillPass true (threads_ o) st b st'
    end ->
    init_step o (Prefaulted, st) (if b then Preset else Failed, st')
| init_fill st b st' :
    RunFillPass false (threads_ o) st b st' ->
    init_step o (Preset, st) (if b then Filled else Failed, st')
| init_verify st b st' :
    (if verify_after_fill_ o && negb (error_stop_requested_ (shared st)) then PostFillCheck st b st'
     else b = true /\ st' = st) ->
    init_step o (Filled, st) (if b then Verified else Failed, st')
| init_split st r0 r w :
    alone (split_pages (freepages_ o) (Z.to_nat (pages s)) 0 r0 true) (shared st) r w ->
    init_step o (Verified, st)
      (match r with Some (_, r') => Split r' | None => Failed end, mkSetup (initialization_errorcount_ st) w).

(** The whole: the blocks are queued, then the steps are taken. *)
Definition InitializePages (o : InitOptions) (w0 : @Shared Q) (ph : Phase) (st : Setup) : Prop :=
  exists w b, alone (put_all_empty (junk_ o) (Z.to_nat (pages s)) 0 true) w0 b w /\
    if b then rtc (init_step o) (Queued, mkSetup 0 w) (ph, st) else ph = Failed /\ st = mkSetup 0 w.

End Pages.

(** ** The queue at the start *)

(** [new FineLockPEQueue(pages_, page_length_)]. *)
Definition new_fine (n psize : Z) (heap : list page_entry) : option FineLockPEQueue :=
  new_FineLockPEQueue n psize heap.

(** [new PageEntryQueue(pages_)], twice. *)
Definition new_one (n : Z) (heap heap' : list page_entry) : OneLock :=
  mkOneLock (new_PageEntryQueue n heap) (new_PageEntryQueue n heap').

End Initialize.

Module InitializeFacts.
Import PageQueue FineLock FineLockFacts Program ProgramFacts PageStore Worker WorkerFacts Threads Sums Accounting.
Import AccountingFacts Initialize.

(** What the check behind the fill needs of the queue in use. *)
Class InitStoreLaws (Q : Type) `{PS : PageStore Answer Q} `{IS : InitStore Q} (n psize : Z) : Prop := {
  hold_page_spec q V E H pe :
    coarse_grain_queue = true -> rep n psize q V E (offset pe :: H) [] ->
    exists q', hold_page pe q = (true, q') /\ rep n psize q' V (pe :: E) H [];
  restore_page_spec rand q V E :
    coarse_grain_queue = true -> 0 <= rand -> rep n psize q V E [] [] -> E <> [] -> Forall (fun pe => page_is_valid pe = true) E ->
    exists q' pe E', E ≡ₚ pe :: E' /\ restore_page rand q = (true, q') /\ rep n psize q' (pe :: V) E' [] [];
  get_by_offset_spec q V i :
    coarse_grain_queue = false -> rep n psize q V [] [] [] -> 0 <= i < n ->
    exists pe, pe ∈ V /\ offset pe = i * psize /\ get_by_offset (i * psize) q = Some pe
}.

Section Facts.
Context {Q : Type} `{PS : PageStore Answer Q}.
Context (s : Settings) (pats : list Patterns.Pattern).
Abbreviation n := (pages s).
Abbreviation psize := (page_length (cfg s)).
Abbreviation pw := (page_words (cfg s)).
Context `{LAWS : !PageStoreLaws Answer Q n psize} `{COMP : !PageStoreComplete Answer Q n psize}.
Context (OK : settings_ok s pats).

Abbreviation all_blocks := (map (fun i => i * psize) (zrange 0 (Z.to_nat n))).

(** ** The threads of a fill pass

    While blocks are only filled, no block becomes empty again.  Each thread owns the
    number of blocks it still has to take, which together are the empty ones, the block it
    holds or has locked, and the blocks its search has found taken. *)
Inductive Claim := Need (k : nat) | Hold (o : Z) | Locked (v : bool) (pe : page_entry) | Seen (l : list Z).

Definition hold_of (c : Claim) : list Z := match c with Hold o => [o] | _ => [] end.
Definition lock_of (c : Claim) : list (bool * page_entry) := match c with Locked v pe => [(v, pe)] | _ => [] end.
Definition need_of (c : Claim) : nat := match c with Need k => k | _ => 0 end.
Definition needs (R : list Claim) : nat := sum_list_with need_of R.

Lemma needs_app R R' : needs (R ++ R') = (needs R + needs R')%nat.
Proof. apply sum_list_with_app. Qed.

#[local] Instance needs_proper : Proper (Permutation ==> eq) needs.
Proof. intros R R' H. unfold needs. induction H; cbn; lia. Qed.

(** The pattern list of a fill. *)
Definition list_ok (pl : Patterns.PatternList) : Prop := plist_ok pats pl /\ 0 < Patterns.size_ pl.

(** Memory of 64-bit words, one per eight bytes of the blocks. *)
Definition mem_ok (m : list Z) : Prop := words64 m /\ 8 * Z.of_nat (length m) = n * psize.

(** The same, with no error counted. *)
Definition plain (w : @Shared Q) : Prop := mem_ok (memory w) /\ total_errors w = 0.

Lemma plain_same (w w' : @Shared Q) :
  map w_errorcount (workers w') = map w_errorcount (workers w) -> (mem_ok (memory w) -> mem_ok (memory w')) ->
  plain w -> plain w'.
Proof. intros Hw Hm [H1 H2]. split; [auto|]. unfold total_errors in *. by rewrite Hw. Qed.

(** An entry that has not been assigned to a region. *)
Definition untagged (pe : page_entry) : Prop := tag pe = kInvalidTag.

Section Fill.

(** Whether the pass writes constants, and so cannot fail. *)
Context (tot : Prop).

Record fill_inv (w : @Shared Q) (R : list Claim) (V E : list page_entry) : Prop := {
  fi_rep : rep n psize (store w) V E (flat_map hold_of R) (flat_map lock_of R);
  fi_need : length E = needs R;
  fi_seen : forall l pe, Seen l ∈ R -> pe ∈ E -> offset pe ∉ l;
  fi_list : list_ok (patternlist_ w);
  fi_mem : tot -> plain w;
  fi_tags : Forall untagged (V ++ E ++ map snd (flat_map lock_of R))
}.
Definition FInv (_ : unit) (w : @Shared Q) (R : list Claim) : Prop := exists V E, fill_inv w R V E.

#[local] Instance FInv_proper x w : Proper (Permutation ==> iff) (FInv x w).
Proof.
  enough (Himp : forall R R', R ≡ₚ R' -> FInv x w R -> FInv x w R') by (intros R R' HR; by split; apply Himp).
  intros R R' HR (V & E & [H1 H2 H3 H4 H5 H6]). exists V, E.
  split; [by rewrite <- HR | by rewrite <- HR | | done | done | by rewrite <- HR]. intros l pe Hl. apply H3. by rewrite HR.
Qed.

(** Accesses that leave queue and patterns alone. *)
Lemma finv_same w w' R :
  FInv tt w R -> store w' = store w -> list_ok (patternlist_ w') -> (tot -> plain w -> plain w') ->
  FInv tt w' R.
Proof. intros (V & E & [H1 H2 H3 H4 H5 H6]) Hs Hp Hm. exists V, E. split; rewrite ?Hs; auto. Qed.

Abbreviation gsafe := (gsafe is_ready tot FInv).

(** No state has these claims. *)
Definition absurd (l : list Claim) : Prop := forall x w R, FInv x w (l ++ R) -> False.

Definition claims (g : GetState) : list Claim :=
  match g with GNone => [] | GProbed v pe => [Locked v pe] | GHeld _ pe => [Hold (offset pe)] end.

Definition claims_of (K : nat) (g : GetState) (seen : list Z) (l : list Claim) : list Claim :=
  Need (K - length (in_hand false g)) :: Seen seen :: claims g ++ l.

Lemma claims_hold K g seen l : flat_map hold_of (claims_of K g seen l) = taken g ++ flat_map hold_of l.
Proof. by destruct g. Qed.
Lemma claims_lock K g seen l : flat_map lock_of (claims_of K g seen l) = probed g ++ flat_map lock_of l.
Proof. by destruct g. Qed.
Lemma claims_needs K g seen l : needs (claims_of K g seen l) = (K - length (in_hand false g) + needs l)%nat.
Proof. unfold claims_of, needs. cbn. by destruct g. Qed.
Lemma claims_app K g seen l R : claims_of K g seen l ++ R = claims_of K g seen (l ++ R).
Proof. unfold claims_of. cbn. by rewrite <- app_assoc. Qed.
Lemma claims_seen K g seen l l0 : Seen l0 ∈ claims_of K g seen l -> l0 = seen \/ Seen l0 ∈ l.
Proof.
  unfold claims_of. rewrite !elem_of_cons, elem_of_app. intros [?|[[= ->]|[Hc|?]]]; [done | by left | | by right].
  destruct g; cbn in Hc; [by apply elem_of_nil in Hc | by apply list_elem_of_singleton in Hc..].
Qed.

Lemma in_hand_short v g : (length (in_hand v g) <= 1)%nat.
Proof. destruct g as [|v' ?|v' ?]; cbn; [lia | by destruct (Bool.eqb v v'); cbn; lia..]. Qed.

(** A search for an empty block: while the thread needs one, it does not fail. *)
Lemma gsafe_search (p : Prog Answer Q (option page_entry)) g seen K l (Qp : option page_entry -> list Claim -> Prop) :
  (1 <= K)%nat -> get_complete n psize false kDontCareTag p g seen ->
  Forall untagged (in_hand true g ++ in_hand false g) ->
  (forall l', absurd l' -> Qp None l') ->
  (forall pe seen', untagged pe -> Qp (Some pe) (claims_of K (GHeld false pe) seen' l)) ->
  gsafe (zoom store set_store p) (claims_of K g seen l) Qp.
Proof using LAWS COMP.
  intros HK Hg Hun Hnone Hsome. revert g seen Hg Hun.
  induction p as [[pe|]|B f k IH]; intros g seen Hg Hun; cbn [zoom].
  - destruct Hg as (pe0 & -> & t & ->). apply Forall_cons in Hun as [Hun _]. exact (Hsome (set_touch pe0 t) seen Hun).
  - destruct Hg as [-> Hall]. apply Hnone. intros x w R (V & E & [H1 H2 H3 H4 H5 H6]). rewrite claims_app in *.
    rewrite claims_needs in H2. destruct E as [|pe E]; [cbn in H2; lia|].
    apply (H3 seen pe); [right; left | left |].
    assert (Hin : offset pe ∈ all_blocks).
    { rewrite <- (rep_blocks _ _ _ _ _ H1), !elem_of_app. right. left. apply elem_of_cons. by left. }
    apply list_elem_of_fmap in Hin as (i & -> & Hi%elem_of_zrange). apply Hall. lia.
  - intros x w R an Ha (V & E & [H1 H2 H3 H4 H5 H6]). rewrite claims_app in *.
    rewrite claims_hold, claims_lock in H1. rewrite claims_needs in H2.
    destruct (Hg an (store w) V E _ _ H1) as (b & q' & V' & E' & g' & seen' & Hf & Hr & HV & HE & Hu & Hk & Hnext).
    { intros pe Hpe Hin. exfalso. apply (H3 seen pe); [right; left | done | done]. }
    rewrite Hf. split; [done|]. intros ? ? [= <- <-]. exists (claims_of K g' seen' l).
    assert (Htags : Forall untagged (in_hand true g' ++ V') /\ Forall untagged (in_hand false g' ++ E') /\
                    Forall untagged (map snd (flat_map lock_of (l ++ R)))).
    { rewrite <- HV, <- HE. rewrite claims_lock, map_app, !Forall_app in H6. destruct H6 as (T1 & T2 & T3 & T4).
      apply Forall_app in Hun as [U1 U2]. rewrite !Forall_app. done. }
    destruct Htags as ([T1 T2]%Forall_app & [T3 T4]%Forall_app & T5).
    split; [|apply IH; [done | by apply Forall_app]]. exists V', E'. rewrite claims_app. pose proof (in_hand_short false g).
    pose proof (in_hand_short false g'). pose proof (Permutation_length HE) as Hl. rewrite !length_app in Hl.
    assert (Hsub : forall pe, pe ∈ E' -> pe ∈ E).
    { intros pe Hpe. destruct (in_hand false g) as [|pe0 [|]] eqn:Hih; [| |cbn in *; lia].
      - cbn in HE. rewrite HE. apply elem_of_app. by right.
      - specialize (Hk pe0 eq_refl). rewrite Hk in HE. apply Permutation_cons_inv in HE. by rewrite HE. }
    split; cbn [store set_store patternlist_].
    + by rewrite claims_hold, claims_lock.
    + rewrite claims_needs. lia.
    + intros l0 pe [->|Hl0]%claims_seen Hpe Hin.
      * specialize (Hu pe Hpe Hin). by rewrite accepts_dont_care in Hu.
      * apply (H3 l0 pe); [|by apply Hsub | done]. right. right. apply elem_of_app. by right.
    + done.
    + done.
    + rewrite claims_lock, map_app, !Forall_app. repeat split; try done.
      destruct g' as [|[] ?|[] ?]; cbn in *; done || constructor.
Qed.

Lemma gsafe_modify (f : Answer -> @Shared Q -> @Shared Q) l (Qp : unit -> list Claim -> Prop) :
  (forall an w, store (f an w) = store w /\ patternlist_ (f an w) = patternlist_ w /\ memory (f an w) = memory w /\
     map w_errorcount (workers (f an w)) = map w_errorcount (workers w)) ->
  Qp tt l ->
  gsafe (modify f) l Qp.
Proof.
  intros Hf HQ. apply gsafe_act. intros [] w R an _ Hi. exists tt, (f an w), l. split; [done|]. split; [|done].
  destruct (Hf an w) as (H1 & H2 & H3 & H4).
  apply (finv_same w); [done | done| |intros _; apply plain_same; [done | by rewrite H3]].
  rewrite H2. by destruct Hi as (? & ? & []).
Qed.

Lemma gsafe_read {B} (f : @Shared Q -> B) l (Qp : B -> list Claim -> Prop) :
  (forall w, list_ok (patternlist_ w) -> Qp (f w) l) -> gsafe (get f) l Qp.
Proof.
  intros HQ. apply gsafe_act. intros x w R an _ Hi. exists (f w), w, l. split; [done|]. split; [done|].
  apply HQ. by destruct Hi as (? & ? & []).
Qed.

Lemma gsafe_map_page pe K seen l (Qp : page_entry -> list Claim -> Prop) :
  (forall a, a = mem_base (cfg s) + offset pe -> 0 < a ->
     Qp (set_addr pe a) (Hold (offset pe) :: Need (K - 1) :: l)) ->
  gsafe (map_page s pe) (claims_of K (GHeld false pe) seen l) Qp.
Proof using LAWS OK.
  intros HQ. apply gsafe_act. intros x w R an _ (V & E & [H1 H2 H3 H4 H5 H6]). rewrite claims_app in *.
  assert (Ho : offset pe ∈ all_blocks).
  { rewrite <- (rep_blocks _ _ _ _ _ H1), claims_hold, !elem_of_app. right. right. left. left.
    by apply list_elem_of_singleton. }
  destruct (map_block s pats OK pe an Ho) as (y & -> & Hpos).
  eexists _, w, _. split; [done|]. split; [|by apply HQ]. exists V, E. split; [done | done | | done | done | done].
  intros l0 pe0 Hl0. apply H3. unfold claims_of. cbn [app] in *.
  repeat (apply elem_of_cons in Hl0 as [?|Hl0]; [done|]). right. right. apply elem_of_app. by right.
Qed.

Lemma gsafe_GetEmpty K l (Qp : option page_entry -> list Claim -> Prop) :
  (1 <= K)%nat -> (forall l', absurd l' -> Qp None l') ->
  (forall pe, mapped s pe -> untagged pe -> Qp (Some pe) (Hold (offset pe) :: Need (K - 1) :: l)) ->
  gsafe (Sat_GetEmpty s kDontCareTag) (claims_of K GNone [] l) Qp.
Proof using LAWS COMP OK.
  intros HK Hnone Hsome. apply gsafe_bind.
  apply gsafe_search; [done | exact (get_page_complete is_empty kDontCareTag) | constructor | done |].
  intros pe seen Hu. apply gsafe_bind, gsafe_map_page. intros a -> Hpos. cbn.
  rewrite (proj2 (Z.eqb_neq _ _)) by lia. by apply (Hsome (set_addr pe _)).
Qed.

Lemma gsafe_PutValid pe l (Qp : bool -> list Claim -> Prop) :
  page_is_valid pe = true -> untagged pe -> Qp true l -> gsafe (Sat_PutValid pe) (Hold (offset pe) :: l) Qp.
Proof using LAWS.
  intros Hv Hu HQ. apply gsafe_act. intros x w R an _ (V & E & [H1 H2 H3 H4 H5 H6]).
  destruct (put_valid_spec (store w) V E (flat_map hold_of (l ++ R)) (flat_map lock_of (l ++ R)) (set_addr pe 0) H1)
    as (q' & Hput & Hrep); [done|].
  exists true, (set_store w q'), l. rewrite Hput. split; [done|]. split; [|done].
  exists (set_addr pe 0 :: V), E. split; [done | done | | done | done | by constructor].
  intros l0 pe0 Hl0. apply H3. cbn. by right.
Qed.

Lemma random_size pl rand : Patterns.size_ (Patterns.GetRandomPattern pl rand).2 = Patterns.size_ pl.
Proof. unfold Patterns.GetRandomPattern. repeat case_match; done. Qed.

(** A word stored anywhere keeps memory well formed. *)
Lemma aset_mem_ok m i v : 0 <= v < 2 ^ 64 -> mem_ok m -> mem_ok (aset m i v).
Proof. intros Hv [H1 H2]. split; [by apply Forall_insert | by rewrite length_aset]. Qed.

Lemma store_mem_ok (f : Z -> Z) b l m :
  (forall i, 0 <= f i < 2 ^ 64) -> mem_ok m -> mem_ok (store_words f b l m).
Proof.
  intros Hf. revert m. induction l as [|i l IH]; intros m Hm; [done|]. apply IH. by apply aset_mem_ok.
Qed.

Lemma inv_list w R : FInv tt w R -> list_ok (patternlist_ w).
Proof. by intros (? & ? & []). Qed.

Lemma gsafe_fill_constant pe v l :
  0 <= v < 2 ^ 64 -> gsafe (fill_constant s pe v) l (fun r l' => r = true /\ l' = l).
Proof.
  intros Hv. apply gsafe_act. intros [] w R an _ Hi. unfold FillPageWithConstant.
  destruct (_ && _); (eexists true, _, l; split; [reflexivity|]; split; [|done]);
    (apply (finv_same w); [done | done | exact (inv_list _ _ Hi) | intros _; apply plain_same; [done | by apply store_mem_ok]]).
Qed.

(** The contents written and the pattern recorded. *)
Lemma gsafe_FillPageRandom preset pe l (Qp : bool * page_entry -> list Claim -> Prop) :
  (preset = true -> fill_preset s <> FILL_PRESET_NONE) -> (preset = false -> ~ tot) ->
  (forall pe', offset pe' = offset pe -> tag pe' = tag pe -> page_is_valid pe' = true -> Qp (true, pe') l) ->
  gsafe (FillPageRandom s preset pe) l Qp.
Proof.
  intros Hpre Htot HQ. unfold FillPageRandom. destruct preset.
  - apply gsafe_bind, gsafe_read. intros w [_ Hsz]. unfold Patterns.GetPattern. change (u32 0) with 0.
    rewrite (proj2 (Z.ltb_lt _ _) Hsz). destruct (fill_preset s); [by specialize (Hpre eq_refl)|..];
      (apply gsafe_bind; eapply gsafe_mono; [|by apply gsafe_fill_constant]; intros r l' [-> ->]; by apply HQ).
  - specialize (Htot eq_refl). apply gsafe_bind, gsafe_read. intros w [_ Hsz].
    rewrite (proj2 (Z.eqb_neq _ _)) by lia. apply gsafe_bind, gsafe_act. intros [] w1 R an _ Hi.
    destruct (inv_list _ _ Hi) as [Hl Hsz1].
    destruct (random_pattern pats (patternlist_ w1) (Z.of_N (random an)) Hl ltac:(lia)) as (i & pl' & He & Hpl & _).
    pose proof (random_size (patternlist_ w1) (Z.of_N (random an))) as Hs. rewrite He in Hs |- *. cbn in Hs.
    eexists (Some i), _, l. split; [done|]. split.
    { apply (finv_same w1); [done | done | | done]. split; [done | cbn; lia]. }
    intros x w2 R2 an2 _ Hi2. split; [done|]. intros b w' Hf.
    destruct (pattern_object w2 _); [|done]. cbn in Hf. injection Hf as <- <-. exists l. split.
    + destruct x. apply (finv_same w2); [done | done | exact (inv_list _ _ Hi2) | done].
    + by apply HQ.
Qed.

Lemma gsafe_check_page t pe wn ph l (Qp : Z -> list Claim -> Prop) :
  ~ tot -> (forall e, Qp e l) -> gsafe (check_page s t pe wn ph) l Qp.
Proof.
  intros Htot HQ x w R an _ Hi. split; [done|]. intros b w' Hf. exists l. split; [|apply HQ].
  destruct (source_of w pe wn ph); [|done]. destruct (CrcCheckPage _ _ _ _ _) as [[st e]|]; [|done].
  injection Hf as <- <-. destruct x. apply (finv_same w); [done | done | exact (inv_list _ _ Hi) | done].
Qed.

Lemma gsafe_record_operation t ph rd wr e l (Qp : unit -> list Claim -> Prop) :
  Qp tt l -> gsafe (record_operation s t ph rd wr e) l Qp.
Proof.
  intros HQ. unfold record_operation. destruct (diag_phase_summary s); [|done].
  apply gsafe_modify; [|done]. intros an w. do 3 (split; [done|]). by apply same_counts.
Qed.

Lemma gsafe_record_write pe wr t ep l (Qp : unit -> list Claim -> Prop) :
  Qp tt l -> gsafe (record_write s pe wr t ep) l Qp.
Proof. intros HQ. unfold record_write. destruct (diag_block_history s); [by apply gsafe_modify | done]. Qed.

(** The start of a turn. *)
Lemma gsafe_ready K l (Qp : bool -> list Claim -> Prop) :
  Qp true (claims_of K GNone [] l) -> gsafe IsReadyToRun (Need K :: l) Qp.
Proof.
  intros HQ. apply gsafe_act. intros [] w R an Ha (V & E & [H1 H2 H3 H4 H5 H6]).
  exists (ready an), w, (claims_of K GNone [] l). split; [done|]. rewrite Ha. split; [|done]. exists V, E.
  unfold claims_of. cbn [claims in_hand length app]. rewrite Nat.sub_0_r. split; [done | done | | done | done | done].
  intros l0 pe Hl0 Hpe. apply elem_of_cons in Hl0 as [?|Hl0]; [done|].
  apply elem_of_cons in Hl0 as [[= ->]|Hl0]; [apply not_elem_of_nil|]. apply (H3 l0 pe); [|done]. cbn. by right.
Qed.

(** A thread with [K] blocks to fill fills one more, or it has none left. *)
Lemma gsafe_fill_turn t preset num loops K :
  (preset = true -> fill_preset s <> FILL_PRESET_NONE) -> (preset = false -> ~ tot) ->
  num = loops + Z.of_nat K ->
  gsafe (fill_turn s t preset num loops) [Need K] (fun r l' =>
    match r with
    | inl loops' => exists K', K = S K' /\ (num = loops' + Z.of_nat K' /\ l' = [Need K'])
    | inr (b, _) => b = true /\ needs l' = 0%nat /\ flat_map hold_of l' = [] /\ flat_map lock_of l' = [] \/ absurd l'
    end).
Proof using LAWS COMP OK.
  intros Hpre Htot Hnum. unfold fill_turn. apply gsafe_bind, gsafe_ready. cbn [negb andb].
  destruct K as [|K].
  { rewrite (proj2 (Z.ltb_ge _ _)) by lia. by left. }
  rewrite (proj2 (Z.ltb_lt _ _)) by lia. cbn [negb].
  apply gsafe_bind, gsafe_GetEmpty; [lia | intros l' Hl'; by right|]. intros pe Hm Hu. cbn [Nat.sub]. rewrite Nat.sub_0_r.
  assert (Hep : forall l (Qp : Z -> list Claim -> Prop), (forall e, Qp e l) -> gsafe (epoch_begin s) l Qp).
  { intros l Qp HQ. unfold epoch_begin. destruct (diag_block_history s); [by apply gsafe_ask | apply HQ]. }
  apply gsafe_bind, Hep. intros ep. apply gsafe_bind, gsafe_FillPageRandom; [done | done|].
  intros pe' Ho Htg Hv. cbn [negb]. apply gsafe_bind, gsafe_record_write. apply gsafe_bind, gsafe_record_operation.
  apply gsafe_bind, gsafe_read. intros w _. rewrite <- Ho. apply gsafe_bind.
  assert (Hput : gsafe (put <- Sat_PutValid pe';; Ret (if put then inl (loops + 1) else inr (false, loops)))%prog
    [Hold (offset pe'); Need K] (fun r l' =>
    match r with
    | inl loops' => exists K', S K = S K' /\ (num = loops' + Z.of_nat K' /\ l' = [Need K'])
    | inr (b, _) => b = true /\ needs l' = 0%nat /\ flat_map hold_of l' = [] /\ flat_map lock_of l' = [] \/ absurd l'
    end)).
  { apply gsafe_bind, gsafe_PutValid; [done | by unfold untagged; rewrite Htg|]. exists K. split; [done|]. split; [lia | done]. }
  destruct (negb preset && _ && _) eqn:Hc; [|exact Hput].
  destruct preset; [done|]. apply gsafe_bind, gsafe_check_page; [by apply Htot|]. intros e.
  apply gsafe_record_operation, Hput.
Qed.

(** A whole fill thread: it ends with [true] and its share filled. *)
Lemma gsafe_FillThread t preset num fuel :
  (preset = true -> fill_preset s <> FILL_PRESET_NONE) -> (preset = false -> ~ tot) ->
  0 <= num < Z.of_nat fuel ->
  gsafe (FillThread_Work s fuel t preset num) [Need (Z.to_nat num)] (fun r l =>
    r = Some true /\ needs l = 0%nat /\ flat_map hold_of l = [] /\ flat_map lock_of l = []).
Proof using LAWS COMP OK.
  intros Hpre Htot Hnum. apply gsafe_bind.
  apply gsafe_loop with (m := Z.to_nat num) (J := fun K loops l => num = loops + Z.of_nat K /\ l = [Need K]);
    [| lia | split; [lia | done]].
  intros K loops l [He ->]. eapply gsafe_mono; [|by apply gsafe_fill_turn]. intros [loops'|[b c]] l' Hr; [done|].
  destruct Hr as [(-> & Hr)|Hr].
  - apply gsafe_bind, gsafe_modify; [|done]. intros an w. do 3 (split; [done|]). by apply same_counts.
  - apply gsafe_bind, gsafe_absurd. exact Hr.
Qed.

(** ** The shares of the threads *)

Lemma quota_bounds threads i :
  0 <= n -> (i < threads)%nat -> 0 <= fill_quota s threads i <= n.
Proof.
  intros Hn Hi. unfold fill_quota. set (d := n / Z.of_nat threads).
  assert (Hd : 0 <= d /\ d * Z.of_nat threads <= n).
  { pose proof (Z.mul_div_le n (Z.of_nat threads) ltac:(lia)). split; [apply Z.div_pos; lia | unfold d; lia]. }
  case_bool_decide; nia.
Qed.

Lemma quotas_sum threads :
  0 <= n -> (1 <= threads)%nat ->
  sum_list_with (fun i => Z.to_nat (fill_quota s threads i)) (seq 0 threads) = Z.to_nat n.
Proof.
  intros Hn Ht. destruct threads as [|m]; [lia|]. rewrite seq_S, sum_list_with_app. cbn [sum_list_with].
  set (d := n / Z.of_nat (S m)).
  assert (Hd : 0 <= d /\ d * Z.of_nat (S m) <= n).
  { pose proof (Z.mul_div_le n (Z.of_nat (S m)) ltac:(lia)). split; [apply Z.div_pos; lia | unfold d; lia]. }
  assert (He : forall k, (k <= m)%nat ->
    sum_list_with (fun i => Z.to_nat (fill_quota s (S m) i)) (seq 0 k) = (k * Z.to_nat d)%nat).
  { induction k as [|k IH]; intros Hk; [done|]. rewrite seq_S, sum_list_with_app, IH by lia. cbn [sum_list_with].
    unfold fill_quota. rewrite bool_decide_false by (cbn; lia). fold d. lia. }
  rewrite He by lia. unfold fill_quota. rewrite bool_decide_true by done. fold d. cbn [Nat.add]. nia.
Qed.

(** The claims at the start of a pass. *)
Definition first_claims (threads : nat) : list (list Claim) :=
  map (fun i => [Need (Z.to_nat (fill_quota s threads i))]) (seq 0 threads).

Lemma first_claims_facts threads :
  needs (concat (first_claims threads)) =
    sum_list_with (fun i => Z.to_nat (fill_quota s threads i)) (seq 0 threads) /\
  flat_map hold_of (concat (first_claims threads)) = [] /\ flat_map lock_of (concat (first_claims threads)) = [] /\
  forall l, Seen l ∉ concat (first_claims threads).
Proof.
  unfold first_claims. induction (seq 0 threads) as [|i l (H1 & H2 & H3 & H4)]; cbn [map concat app].
  - split; [done|]. split; [done|]. split; [done|]. intros l. apply not_elem_of_nil.
  - split; [unfold needs in *; cbn; by rewrite H1|]. split; [done|]. split; [done|].
    intros l0 Hin. apply elem_of_cons in Hin as [?|Hin]; [done | by apply (H4 l0)].
Qed.

(** Every block is at rest, and empty at first. *)
Definition all_empty (w : @Shared Q) : Prop :=
  list_ok (patternlist_ w) /\ mem_ok (memory w) /\
  exists E, rep n psize (store w) [] E [] [] /\ Forall untagged E.
Definition all_valid (w : @Shared Q) : Prop :=
  list_ok (patternlist_ w) /\ (tot -> plain w) /\
  exists V, rep n psize (store w) V [] [] [] /\ Forall untagged V.

Definition thread_done (i : nat) (r : option bool) (l : list Claim) : Prop :=
  r = Some true /\ needs l = 0%nat /\ flat_map hold_of l = [] /\ flat_map lock_of l = [].

Lemma fill_threads_safe preset threads w :
  (preset = true -> fill_preset s <> FILL_PRESET_NONE) -> (preset = false -> ~ tot) -> (1 <= threads)%nat ->
  all_empty w -> total_errors w = 0 -> all_gsafe is_ready tot FInv thread_done tt (w, fill_threads s preset threads).
Proof using LAWS COMP OK.
  intros Hpre Htot Ht (Hl & Hm & E & Hr & Hu) Hz. pose proof (so_pages _ _ OK) as Hn.
  exists (first_claims threads). destruct (first_claims_facts threads) as (F1 & F2 & F3 & F4). split; [|split].
  - exists [], E. cbn [fst]. split; [by rewrite F2, F3 | | | done | done | rewrite F3; by rewrite app_nil_r].
    + rewrite F1, quotas_sum by lia. pose proof (Permutation_length (rep_blocks _ _ _ _ _ Hr)) as He.
      rewrite !length_app, !length_map, length_zrange in He. cbn in He. lia.
    + intros l pe Hin. by apply F4 in Hin.
  - cbn. unfold fill_threads, first_claims. by rewrite !length_map.
  - intros i p l Hp Hl0. cbn [snd] in Hp. unfold fill_threads, first_claims in *.
    apply list_lookup_fmap_Some in Hp as (j & -> & Hj). apply list_lookup_fmap_Some in Hl0 as (j' & -> & Hj').
    rewrite Hj in Hj'. injection Hj' as <-. apply lookup_seq in Hj as [-> Hi].
    pose proof (quota_bounds threads (0 + i) Hn ltac:(lia)). apply gsafe_FillThread; [done | done | lia].
Qed.

(** What threads that have all ended leave. *)
Lemma threads_done threads w (rs : list (option bool)) :
  length rs = threads -> all_gsafe is_ready tot FInv thread_done tt (w, map Ret rs) ->
  rs = replicate threads (Some true) /\ all_valid w.
Proof.
  intros Hlen (ls & (V & E & [H1 H2 H3 H4 H5 H6]) & Hl & Hs). cbn [fst snd] in *. rewrite length_map in Hl.
  assert (Hall : forall i r l, rs !! i = Some r -> ls !! i = Some l -> thread_done i r l).
  { intros i r l Hr Hli. apply (Hs i (Ret r) l); [|done]. by apply list_lookup_fmap_Some_2. }
  assert (Hc : needs (concat ls) = 0%nat /\ flat_map hold_of (concat ls) = [] /\ flat_map lock_of (concat ls) = []).
  { clear -Hall Hl. revert rs Hl Hall. induction ls as [|l ls IH]; intros [|r rs] Hl Hall; try done.
    destruct (Hall O r l eq_refl eq_refl) as (_ & N1 & N2 & N3).
    destruct (IH rs) as (M1 & M2 & M3); [cbn in Hl; lia | intros i; apply (Hall (S i))|].
    cbn [concat]. by rewrite needs_app, !flat_map_app, N1, N2, N3, M1, M2, M3. }
  destruct Hc as (C1 & C2 & C3). split.
  - rewrite <- Hlen. clear -Hall Hl. revert ls Hl Hall.
    induction rs as [|r rs IH]; intros [|l ls] Hl Hall; try done. cbn [length replicate].
    destruct (Hall O r l eq_refl eq_refl) as (-> & _). f_equal.
    apply (IH ls); [cbn in Hl; lia | intros i; apply (Hall (S i))].
  - split; [done|]. split; [done|]. rewrite C1 in H2. apply nil_length_inv in H2 as ->. exists V. rewrite C2, C3 in H1. split; [done|].
    by apply Forall_app in H6 as [? _].
Qed.
End Fill.

(** ** The main thread on its own *)

Abbreviation wp := (wp is_ready).

Lemma set_store_same (w : @Shared Q) : set_store w (store w) = w.
Proof. by destruct w. Qed.

(** A search that nobody disturbs: it fails only when no entry can be taken. *)
Lemma wp_search v want (p : Prog Answer Q (option page_entry)) H w (Qp : option page_entry -> @Shared Q -> Prop) :
  forall g seen q V E, get_complete n psize v want p g seen -> rep n psize q V E (taken g ++ H) (probed g ++ []) ->
  unfit v want V E seen ->
  (forall q', (forall pe, pe ∈ (if v then in_hand true g ++ V else in_hand false g ++ E) -> accepts want pe = false) ->
     Qp None (set_store w q')) ->
  (forall q' pe0 pe V' E', copy_of pe0 pe -> rep n psize q' V' E' (offset pe0 :: H) [] ->
     in_hand true g ++ V ≡ₚ in_hand true (GHeld v pe0) ++ V' ->
     in_hand false g ++ E ≡ₚ in_hand false (GHeld v pe0) ++ E' -> Qp (Some pe) (set_store w q')) ->
  wp (zoom store set_store p) (set_store w q) Qp.
Proof using LAWS.
  induction p as [[pe|]|B f k IH]; intros g seen q V E Hg Hr Hu Hnone Hsome; cbn [zoom ProgramFacts.wp].
  - destruct Hg as (pe0 & -> & Hc). by apply (Hsome q pe0 pe V E).
  - destruct Hg as [-> Hall]. apply Hnone. intros pe Hpe. apply (Hu pe); [by destruct v|].
    assert (Hin : offset pe ∈ all_blocks).
    { rewrite <- (rep_blocks _ _ _ _ _ Hr), !elem_of_app.
      destruct v; [left | right; left]; by apply list_elem_of_fmap_2. }
    apply list_elem_of_fmap in Hin as (i & -> & Hi%elem_of_zrange). apply Hall. lia.
  - intros an _. destruct (Hg an q V E H [] Hr Hu) as (b & q' & V' & E' & g' & seen' & Hf & Hr' & HV & HE & Hu' & _ & Hk).
    exists b, (set_store w q'). cbn [store set_store]. rewrite Hf. split; [done|].
    apply (IH b g' seen' q' V' E'); [done | done | done | |].
    + intros q2 H2. apply Hnone. intros pe Hpe. apply H2. destruct v; by rewrite <- ?HV, <- ?HE.
    + intros q2 pe0 pe V2 E2 Hc Hr2 HV2 HE2. apply (Hsome q2 pe0 pe V2 E2 Hc Hr2); by rewrite ?HV, ?HE.
Qed.

(** [GetValid] with an entry that can be taken. *)
Lemma wp_GetValid want w V E (Qp : option page_entry -> @Shared Q -> Prop) :
  rep n psize (store w) V E [] [] -> (exists pe, pe ∈ V /\ accepts want pe = true) ->
  (forall q' pe0 pe V', V ≡ₚ pe0 :: V' -> mapped s pe -> offset pe = offset pe0 -> pattern pe = pattern pe0 ->
     tag pe = tag pe0 -> rep n psize q' V' E [offset pe] [] -> Qp (Some pe) (set_store w q')) ->
  wp (Sat_GetValid s want) w Qp.
Proof using LAWS COMP OK.
  intros Hr (pe1 & Hin & Hacc) HQ. apply wp_bind. rewrite <- (set_store_same w) at 1.
  apply (wp_search true want _ [] w _ GNone [] (store w) V E);
    [exact (get_page_complete is_valid want) | done | by intros ? _ ?%not_elem_of_nil | |].
  - intros q' Hno. exfalso. specialize (Hno pe1 Hin). congruence.
  - intros q' pe0 pe V' E' [t ->] Hr' HV HE. cbn in HV, HE. apply wp_bind. intros an _.
    assert (Ho : offset (set_touch pe0 t) ∈ all_blocks).
    { cbn. rewrite <- (rep_blocks _ _ _ _ _ Hr'), !elem_of_app. right. right. left. apply elem_of_cons. by left. }
    destruct (map_block s pats OK (set_touch pe0 t) an Ho) as (y & -> & Hpos). eexists _, _. split; [done|].
    apply wp_bind. intros an' _. eexists _, _. split; [done|]. cbn [ProgramFacts.wp].
    cbn [addr set_access set_addr]. rewrite (proj2 (Z.eqb_neq _ _)) by lia.
    apply (HQ q' pe0 _ V'); try done. cbn. by rewrite HE.
Qed.

Lemma wp_PutEmpty pe w V E H (Qp : bool -> @Shared Q -> Prop) :
  rep n psize (store w) V E (offset pe :: H) [] ->
  (forall q' pe', offset pe' = offset pe -> tag pe' = tag pe -> rep n psize q' V (pe' :: E) H [] ->
     Qp true (set_store w q')) ->
  wp (Sat_PutEmpty pe) w Qp.
Proof using LAWS.
  intros Hr HQ an _. destruct (put_empty_spec (store w) V E H [] (set_write_frequency (set_addr pe 0) (-1)) Hr)
    as (q' & pe' & Hput & Ho & Ht & Hr'). rewrite Hput. eexists _, _. split; [done|]. by apply (HQ q' pe').
Qed.

Lemma wp_PutValid pe w V E H (Qp : bool -> @Shared Q -> Prop) :
  rep n psize (store w) V E (offset pe :: H) [] -> page_is_valid pe = true ->
  (forall q', rep n psize q' (set_addr pe 0 :: V) E H [] -> Qp true (set_store w q')) ->
  wp (Sat_PutValid pe) w Qp.
Proof using LAWS.
  intros Hr Hv HQ an _. destruct (put_valid_spec (store w) V E H [] (set_addr pe 0) Hr Hv) as (q' & Hput & Hr').
  rewrite Hput. eexists _, _. split; [done|]. by apply HQ.
Qed.

(** Queueing all blocks. *)
Lemma wp_put_all_empty junk k : forall i w E,
  0 <= i -> i + Z.of_nat k = n -> rep n psize (store w) [] E (map (fun j => j * psize) (zrange i k)) [] ->
  Forall untagged E ->
  wp (put_all_empty s junk k i true) w (fun b w' => b = true /\
    exists q E', w' = set_store w q /\ rep n psize q [] E' [] [] /\ Forall untagged E').
Proof using LAWS.
  induction k as [|k IH]; intros i w E Hi Hk Hr Hu.
  - split; [done|]. exists (store w), E. by rewrite set_store_same.
  - cbn [put_all_empty]. apply wp_bind. cbn [zrange map] in Hr. eapply wp_PutEmpty; [exact Hr|].
    intros q' pe' Ho Ht Hr'. cbn [andb]. eapply wp_mono; [|apply (IH (i + 1) _ (pe' :: E)); [lia | lia | exact Hr' |]].
    + intros b w' (-> & q & E' & -> & H1 & H2). split; [done|]. by exists q, E'.
    + constructor; [|done]. unfold untagged. by rewrite Ht.
Qed.

(** Emptying the valid blocks again. *)
Lemma wp_reset_pages k : forall w V E,
  rep n psize (store w) V E [] [] -> length V = k -> Forall untagged (V ++ E) ->
  wp (reset_pages s k) w (fun b w' => b = true /\
    exists q E', w' = set_store w q /\ rep n psize q [] E' [] [] /\ Forall untagged E').
Proof using LAWS COMP OK.
  induction k as [|k IH]; intros w V E Hr Hl Hu.
  - apply nil_length_inv in Hl as ->. split; [done|]. exists (store w), E. by rewrite set_store_same.
  - cbn [reset_pages]. apply wp_bind. eapply wp_GetValid; [exact Hr | |].
    { destruct V as [|pe V]; [done|]. exists pe. split; [left | apply accepts_dont_care]. }
    intros q' pe0 pe V' HV Hm Ho Hp Htg Hr'. apply wp_bind. eapply wp_PutEmpty; [exact Hr'|].
    intros q2 pe' Ho' Ht' Hr2. cbn [ProgramFacts.wp]. eapply wp_mono; [|apply (IH _ V' (pe' :: E)); [exact Hr2 | |]].
    + intros b w' (-> & q & E' & -> & H1 & H2). split; [done|]. by exists q, E'.
    + apply Permutation_length in HV. cbn in HV. lia.
    + rewrite HV in Hu. cbn [app] in Hu. apply Forall_cons in Hu as [Hu0 Hu]. rewrite <- Permutation_middle.
      constructor; [|done]. unfold untagged in *. congruence.
Qed.

(** ** A fill pass *)

Lemma steps_run Ok x (y : @Shared Q * list (Prog Answer Shared (option bool))) :
  rtc (pstep_in Ok) x y -> run s pats 0 x y.
Proof.
  revert y. apply (rtc_ind_r (fun y => run s pats 0 x y)); [apply run_start|].
  intros y z _ Hs IH. eapply run_step; [exact IH|]. by eapply pstep_in_pstep.
Qed.

Definition fill_jobs (threads : nat) : list job := map (fun i => Fill i (fill_quota s threads i)) (seq 0 threads).

Lemma fill_threads_jobs threads :
  fill_threads s false threads = map (work s (S (Z.to_nat n))) (fill_jobs threads).
Proof. unfold fill_threads, fill_jobs. by rewrite map_map. Qed.

(** Every valid block holds its pattern and nothing has been counted. *)
Record clean (threads : nat) (w : @Shared Q) (V E : list page_entry) : Prop := {
  cl_ready : ready_with s pats threads 0 w V E;
  cl_list : list_ok (patternlist_ w)
}.

Definition all_clean (threads : nat) (w : @Shared Q) : Prop :=
  exists V, clean threads w V [] /\ Forall untagged V.

Lemma new_workers_empty threads w : all_empty w -> all_empty (new_workers s threads w).
Proof. intros (H1 & H2 & E & H3). split; [done|]. split; [done|]. by exists E. Qed.

Lemma total_new_workers threads (w : @Shared Q) :
  total_errors (new_workers s threads w) = 0 /\ length (workers (new_workers s threads w)) = threads.
Proof.
  split; [|cbn; by rewrite length_replicate]. unfold total_errors. cbn [workers new_workers set_workers].
  induction threads as [|k IH]; [done|]. cbn [replicate map]. unfold zsum in *. cbn [foldr w_errorcount new_worker]. lia.
Qed.

Lemma fill_start threads w :
  all_empty w -> exists E, ready_with s pats threads 0 (new_workers s threads w) [] E.
Proof.
  intros ([H1 _] & H2 & E & H3 & _). exists E. destruct (total_new_workers threads w) as [Ht Hl].
  split; try done; [lia|]. unfold errors_left. cbn [map]. unfold zsum. cbn [foldr]. lia.
Qed.

Lemma fill_jobs_workers threads : Forall (fun j => job_worker j < threads)%nat (fill_jobs threads).
Proof. apply Forall_map, Forall_forall. intros i Hi%elem_of_seq. cbn. lia. Qed.

Lemma fill_length preset threads (w w' : @Shared Q) rs :
  joined (fill_threads s preset threads) w rs w' -> length rs = threads.
Proof.
  intros Hs%psteps_length. cbn in Hs. unfold fill_threads in Hs. by rewrite !length_map, length_seq in Hs.
Qed.

(** No interleaving of the threads fails. *)
Lemma fill_no_failure threads w y :
  all_empty w ->
  rtc (pstep_in is_ready) (new_workers s threads w, fill_threads s false threads) y -> no_failure y.
Proof using LAWS OK.
  intros He Hs. destruct (fill_start threads w He) as (E & Hr). apply steps_run in Hs. destruct y as [w' ths].
  rewrite fill_threads_jobs in Hs.
  by destruct (accounting_from s pats threads OK 0 0 _ _ _ _ _ _ _ Hr (fill_jobs_workers threads) Hs) as [Hn _].
Qed.

(** All threads succeed, every block is valid and holds its pattern. *)
Lemma fill_joined threads w rs w' :
  (1 <= threads)%nat -> all_empty w ->
  joined (fill_threads s false threads) (new_workers s threads w) rs w' ->
  rs = replicate threads (Some true) /\ all_clean threads w' /\ total_errors w' = 0.
Proof using LAWS COMP OK.
  intros Ht He Hs. pose proof (fill_length _ _ _ _ _ Hs) as Hlen.
  destruct (threads_done False threads w' rs Hlen) as (Hrs & Hl & _ & V & Hr & Hu).
  { eapply (psteps_gsafe is_ready False (FInv False) (Inv_proper := FInv_proper False)); [|exact Hs].
    apply fill_threads_safe; [done | by intros _ [] | done | by apply new_workers_empty | apply total_new_workers]. }
  split; [done|]. destruct (fill_start threads w He) as (E0 & Hst). apply steps_run in Hs. rewrite fill_threads_jobs in Hs.
  destruct (accounting_from s pats threads OK 0 0 _ _ _ _ _ _ _ Hst (fill_jobs_workers threads) Hs)
    as (_ & V' & E' & H' & P' & Hr' & _ & Hend).
  destruct Hend as (-> & -> & Hready).
  { apply Forall_map, Forall_true. done. }
  pose proof (rep_valid_unique _ _ _ _ _ _ _ _ _ Hr Hr') as HV.
  assert (E' = []) as ->.
  { pose proof (Permutation_length (rep_blocks _ _ _ _ _ Hr)) as L1. pose proof (Permutation_length (rep_blocks _ _ _ _ _ Hr')) as L2.
    rewrite !length_app, !length_map in L1, L2. apply Permutation_length in HV. apply nil_length_inv. cbn in *. lia. }
  assert (Hz : 0 <= errors_left s pats w' V').
  { apply zsum_nonneg, Forall_map, Forall_true. intros pe. unfold errors_at. destruct (pat_at _ _); lia. }
  pose proof (rw_sum _ _ _ _ _ _ _ Hready). pose proof (rw_nonneg _ _ _ _ _ _ _ Hready). split; [|lia].
  exists V'. split; [split; [done | exact Hl] | by rewrite <- HV].
Qed.

(** With constants: all threads succeed, and every block is valid for the moment. *)
Lemma preset_joined threads w rs w' :
  (1 <= threads)%nat -> fill_preset s <> FILL_PRESET_NONE -> all_empty w ->
  joined (fill_threads s true threads) (new_workers s threads w) rs w' ->
  rs = replicate threads (Some true) /\ all_valid True w'.
Proof using LAWS COMP OK.
  intros Ht Hp He Hs. pose proof (fill_length _ _ _ _ _ Hs) as Hlen. apply (threads_done True); [done|].
  eapply (psteps_gsafe is_ready True (FInv True) (Inv_proper := FInv_proper True)); [|exact Hs].
  apply fill_threads_safe; [done | done | done | by apply new_workers_empty | apply total_new_workers].
Qed.

Lemma all_succeeded threads :
  forallb (fun r => bool_decide (r = Some true)) (replicate threads (Some true)) = true.
Proof. by induction threads. Qed.

Lemma rep_valid_length q V : rep n psize q V [] [] [] -> length V = Z.to_nat n.
Proof using LAWS.
  intros Hr. pose proof (Permutation_length (rep_blocks _ _ _ _ _ Hr)) as L.
  rewrite !length_app, !length_map, length_zrange in L. cbn in L. lia.
Qed.

Lemma preset_pass threads st b st' :
  (1 <= threads)%nat -> fill_preset s <> FILL_PRESET_NONE -> all_empty (shared st) ->
  RunFillPass s true threads st b st' ->
  b = true /\ all_empty (shared st') /\ initialization_errorcount_ st' = initialization_errorcount_ st.
Proof using LAWS COMP OK.
  intros Ht Hp He Hf. destruct Hf as [st rs w' result w'' Hj Hrest].
  destruct (preset_joined threads _ rs w' Ht Hp He Hj) as (-> & Hl & Hpl & V & Hr & Hu).
  rewrite all_succeeded in Hrest. cbn [andb] in Hrest. destruct Hrest as (ans & Hans & Hrun).
  destruct (Hpl I) as [Hm Hz].
  assert (Hwp := wp_reset_pages (Z.to_nat n) w' V [] Hr (rep_valid_length _ _ Hr)).
  rewrite app_nil_r in Hwp. specialize (Hwp Hu).
  destruct (wp_run is_ready _ _ _ _ _ _ Hwp Hans Hrun) as (-> & q & E' & -> & Hr' & Hu').
  split; [done|]. split; [|cbn; lia]. split; [done|]. split; [done|]. by exists E'.
Qed.

Lemma fill_pass_clean threads st b st' :
  (1 <= threads)%nat -> all_empty (shared st) -> RunFillPass s false threads st b st' ->
  b = true /\ all_clean threads (shared st') /\ initialization_errorcount_ st' = initialization_errorcount_ st.
Proof using LAWS COMP OK.
  intros Ht He Hf. destruct Hf as [st rs w' result w'' Hj Hrest].
  destruct (fill_joined threads _ rs w' Ht He Hj) as (-> & Hc & Hz). rewrite all_succeeded in Hrest.
  cbn [andb] in Hrest. destruct Hrest as [-> ->]. split; [done|]. split; [done|]. cbn. lia.
Qed.

(** ** Prefaulting *)

Lemma set_byte_ok m b off : mem_ok m -> mem_ok (set_byte m b off 0).
Proof.
  intros [H1 H2]. unfold set_byte. rewrite Z.shiftl_0_l, Z.lor_0_r. apply aset_mem_ok; [|done].
  set (old := aget 0 m (b + off / 8)). assert (Ho : 0 <= old < 2 ^ 64) by (by apply (words64_aget (cfg s))).
  assert (Hl := Z.ldiff_le (Z.ldiff old (Z.shiftl 255 (8 * (off mod 8)))) old ltac:(lia)).
  cut (Z.ldiff (Z.ldiff old (Z.shiftl 255 (8 * (off mod 8)))) old = 0); [intros He; specialize (Hl He); lia|].
  apply Z.bits_inj'. intros k _. rewrite !Z.ldiff_spec, Z.bits_0. by destruct (Z.testbit old k), (Z.testbit _ k).
Qed.

Lemma wp_prefault size k : forall i (w : @Shared Q),
  0 <= i -> i + Z.of_nat k = n -> mem_ok (memory w) ->
  wp (prefault s size k i) w (fun b w' => b = true /\ exists m, w' = set_memory w m /\ mem_ok m).
Proof using LAWS OK.
  induction k as [|k IH]; intros i w Hi Hk Hm.
  - split; [done|]. exists (memory w). by destruct w.
  - cbn [prefault]. apply wp_bind. intros an _.
    assert (Ho : offset (set_offset null_pe (i * page_length_ s)) ∈ all_blocks).
    { apply list_elem_of_fmap. exists i. split; [done|]. apply elem_of_zrange. lia. }
    destruct (map_block s pats OK _ an Ho) as (y & -> & Hpos). eexists _, _. split; [done|].
    cbn [ProgramFacts.wp]. cbn [addr set_addr]. rewrite (proj2 (Z.eqb_neq _ _)) by lia. apply wp_bind. intros an' _.
    eexists _, _. split; [done|]. cbn [ProgramFacts.wp].
    set (m' := fold_left _ _ (memory w)). assert (Hm' : mem_ok m').
    { unfold m'. generalize (zrange 0 (Z.to_nat ((page_length_ s + size - 1) / size))). intros l.
      revert Hm. generalize (memory w). induction l as [|j l IHl]; intros m Hm; [done|]. apply IHl. by apply set_byte_ok. }
    eapply wp_mono; [|apply (IH (i + 1) (set_memory w m')); [lia | lia | done]].
    intros b w' (-> & m2 & -> & Hm2). split; [done|]. by exists m2.
Qed.

(** ** The split *)

Definition entry_clean (m : list Z) (pe : page_entry) : Prop :=
  entry_ok s pats m pe /\ entry_errors s pats m pe = 0.

Definition untagged_count (V : list page_entry) : nat := length (filter (fun pe => tag pe = kInvalidTag) V).

#[local] Instance untagged_count_proper : Proper (Permutation ==> eq) untagged_count.
Proof. intros V V' H. unfold untagged_count. by rewrite H. Qed.

Lemma untagged_count_cons pe V :
  untagged_count (pe :: V) = ((if decide (untagged pe) then 1 else 0) + untagged_count V)%nat.
Proof. unfold untagged_count. rewrite filter_cons. unfold untagged. by case_decide. Qed.

Lemma untagged_exists V : (0 < untagged_count V)%nat -> exists pe, pe ∈ V /\ untagged pe.
Proof.
  unfold untagged_count. intros H. destruct (filter _ V) as [|pe l] eqn:Hf; [cbn in H; lia|].
  assert (Hin : pe ∈ pe :: l) by left. rewrite <- Hf in Hin. apply list_elem_of_filter in Hin as [? ?]. by exists pe.
Qed.

(** A clean entry has a pattern. *)
Lemma clean_valid m pe pe' :
  entry_clean m pe -> offset pe' = offset pe -> pattern pe' = pattern pe ->
  page_is_valid pe' = true /\ entry_clean m pe'.
Proof.
  intros [Hok He] Ho Hp. unfold entry_clean, entry_ok, entry_errors in *. rewrite Ho, Hp. split; [|done].
  destruct Hok as (p & Hpat & _). apply bool_decide_eq_true. rewrite Hp. by destruct (pattern pe).
Qed.

Lemma tag_region_entry pe r pe' r' : tag_region s pe r = (pe', r') -> offset pe' = offset pe /\ pattern pe' = pattern pe.
Proof. unfold tag_region. destruct (OsLayer.FindRegion _ _). by intros [= <- _]. Qed.

(** As many blocks as asked for become empty, the others stay valid with their contents. *)
Lemma wp_split_pages free k : forall i r res w V E,
  0 <= i -> i + Z.of_nat k = n -> 0 <= free <= n -> rep n psize (store w) V E [] [] ->
  (k <= untagged_count V)%nat -> Forall (entry_clean (memory w)) V -> Z.of_nat (length E) = Z.min i free ->
  wp (split_pages s free k i r res) w (fun b w' => exists r' q V' E', b = Some (res, r') /\ w' = set_store w q /\
    rep n psize q V' E' [] [] /\ Forall (entry_clean (memory w)) V' /\ Z.of_nat (length E') = free).
Proof using LAWS COMP OK.
  induction k as [|k IH]; intros i r res w V E Hi Hk Hf Hr Hu Hc Hl.
  - exists r, (store w), V, E. rewrite set_store_same. repeat split; try done. lia.
  - cbn [split_pages]. apply wp_bind. eapply wp_GetValid; [exact Hr | |].
    { destruct (untagged_exists V) as (pe & Hin & Ht); [lia|]. exists pe. split; [done | by apply accepts_invalid]. }
    intros q' pe0 pe V' HV Hm Ho Hp Htg Hr'. cbn beta iota. destruct (tag_region s pe r) as [pe' r'] eqn:Htr.
    apply tag_region_entry in Htr as [Ho' Hp']. rewrite HV in Hu, Hc. apply Forall_cons in Hc as [Hc0 Hc].
    rewrite untagged_count_cons in Hu.
    destruct (clean_valid (memory w) pe0 pe' Hc0) as [Hv Hc']; [congruence | congruence|]. rewrite <- Ho' in Hr'.
    assert (Hu' : (k <= untagged_count V')%nat) by (destruct (decide (untagged pe0)); lia).
    apply wp_bind. destruct (Z.ltb_spec i free) as [Hlt|Hge].
    + eapply wp_PutEmpty; [exact Hr'|]. intros q2 pe2 Ho2 Ht2 Hr2. rewrite andb_true_r.
      eapply wp_mono; [|apply (IH (i + 1) r' res _ V' (pe2 :: E)); try done; [lia | lia | cbn [length]; lia]].
      intros b w' (r2 & q3 & V3 & E3 & -> & -> & H3). by exists r2, q3, V3, E3.
    + eapply wp_PutValid; [exact Hr' | done|]. intros q2 Hr2. rewrite andb_true_r.
      eapply wp_mono; [|apply (IH (i + 1) r' res _ (set_addr pe' 0 :: V') E); try done; [lia | lia | | by constructor | lia]].
      * intros b w' (r2 & q3 & V3 & E3 & -> & -> & H3). by exists r2, q3, V3, E3.
      * rewrite untagged_count_cons. lia.
Qed.

(** ** The check behind the fill *)

(** What checking the block of [pe] does to memory and counts. *)
Record checked (pe : page_entry) (w w' : @Shared Q) : Prop := {
  ck_store : store w' = store w;
  ck_list : patternlist_ w' = patternlist_ w;
  ck_workers : length (workers w') = length (workers w);
  ck_mem : mem_ok (memory w');
  ck_total : total_errors w' = total_errors w + entry_errors s pats (memory w) pe;
  ck_clean : entry_clean (memory w') pe;
  ck_agree o : o ∈ all_blocks -> o <> offset pe -> agree s (memory w) (memory w') o;
  ck_stop : stop_on_error (cfg s) = false -> error_stop_requested_ w' = error_stop_requested_ w
}.

Lemma wp_check_page t pe wn ph w :
  (t < length (workers w))%nat -> mapped s pe -> offset pe ∈ all_blocks -> entry_ok s pats (memory w) pe ->
  plist_ok pats (patternlist_ w) -> mem_ok (memory w) ->
  wp (check_page s t pe wn ph) w (fun _ w' => checked pe w w').
Proof using OK.
  intros Ht Hmap Ho (p & Hpat & Hsp) (Hpo & _) [Hw64 Hlen] an _.
  destruct (block_in_memory s pats OK _ _ Ho Hlen) as [Ho8 Hfit]. destruct (pw_eq s pats OK) as (Hpw & _ & _).
  destruct (page_length_facts s pats OK) as [Hl H8].
  assert (Hpobj : pattern_object w (pattern pe) = Some p).
  { rewrite <- Hpat. unfold pattern_object, pat_at. by rewrite Hpo. }
  unfold source_of. rewrite Hpobj, (mapped_base s pe Hmap).
  destruct (CrcCheckPage_spec (cfg_at s an) p (pat_good s pats OK _ _ Hpat) (offset pe / 8) Ho8 (so_tag _ _ OK)
    (thread_view w t) (patternlist_ w)
    (mkSource p (default 0 (pattern pe)) (PageQueue.lastcpu pe) (write_dram_frequency pe) (offset pe) wn ph))
    as (st' & Hc & [Rm Rc Rs _]); try done; [cbn; lia|].
  rewrite Hc. eexists _, _. split; [done|]. cbn [ProgramFacts.wp].
  cbn [mem thread_view] in Rm. rewrite Z.add_0_r in Rm.
  assert (Rm' : mem st' = filled (PatternFacts.pattern_word p) (offset pe / 8) pw (memory w)) by exact Rm.
  split; cbn [store thread_update patternlist_ workers memory error_stop_requested_]; try done.
  - apply length_insert.
  - rewrite Rm'. split; [by apply (filled_pattern_words64 s pats OK _ _ _ p Hpat) | by rewrite length_filled].
  - rewrite thread_total by done. rewrite Rc. unfold entry_errors, errors_at. rewrite Hpat.
    change (page_words (cfg_at s an)) with pw. cbn [errorcount_ thread_view mem]. lia.
  - rewrite Rm'. by apply (filled_clean s pats OK).
  - intros o Hob Hne k Hk. rewrite Rm'. apply filled_outside.
    by apply (blocks_apart s pats OK o (offset pe)).
  - intros Hs. rewrite Rs. change (stop_on_error (cfg_at s an)) with (stop_on_error (cfg s)). rewrite Hs.
    by rewrite orb_false_r.
Qed.

(** The entries of a phase: some are known to be clean, and the sum of what has been
    counted and what is left is [F]. *)
Record counted (F : Z) (w : @Shared Q) (L : list page_entry) : Prop := {
  ct_ok : Forall (entry_ok s pats (memory w)) L;
  ct_blocks : map offset L ≡ₚ all_blocks;
  ct_mem : mem_ok (memory w);
  ct_list : list_ok (patternlist_ w);
  ct_sum : total_errors w + zsum (map (entry_errors s pats (memory w)) L) = F;
  ct_nonneg : 0 <= total_errors w
}.

Lemma entry_errors_nonneg m pe : 0 <= entry_errors s pats m pe.
Proof. unfold entry_errors, errors_at. destruct (pat_at _ _); lia. Qed.

Lemma block_word o : o ∈ all_blocks -> 0 <= o / 8.
Proof using OK. intros Ho. destruct (block_bound s pats OK o Ho) as (i & _ & Hi & -> & _). nia. Qed.

Lemma counted_step F w w' L pe :
  counted F w L -> checked pe w w' -> (exists L', L ≡ₚ pe :: L') ->
  counted F w' L /\
  (forall x, x ∈ L -> entry_clean (memory w) x -> entry_clean (memory w') x).
Proof using OK.
  intros [C1 C2 C3 C4 C5 C6] [K1 K2 K3 K4 K5 K6 K7 _] (L' & HL).
  assert (Hother : forall x, x ∈ L' -> agree s (memory w) (memory w') (offset x) /\ 0 <= offset x / 8).
  { intros x Hx. pose proof (blocks_nodup s pats OK) as Hnd. rewrite <- C2, HL in Hnd. cbn [map] in Hnd.
    apply NoDup_cons in Hnd as [Hni _].
    assert (Hb : offset x ∈ all_blocks).
    { rewrite <- C2, HL. apply list_elem_of_fmap_2. by right. }
    split; [|by apply block_word]. apply K7; [done|]. intros He. apply Hni. rewrite <- He. by apply list_elem_of_fmap_2. }
  rewrite HL in C1, C5. apply Forall_cons in C1 as [_ C1]. split.
  - split; [| done | done | by rewrite K2 | |].
    + rewrite HL. constructor; [apply K6|]. rewrite Forall_forall in C1 |- *. intros x Hx.
      destruct (Hother x Hx). by apply (agree_page_ok s pats OK (memory w)), C1.
    + rewrite HL. cbn [map] in *. unfold zsum in *. cbn [foldr] in *. rewrite K5, (proj2 K6).
      fold (zsum (map (entry_errors s pats (memory w')) L')). fold (zsum (map (entry_errors s pats (memory w)) L')) in C5.
      rewrite (zsum_ext (entry_errors s pats (memory w')) (entry_errors s pats (memory w)) L'); [lia|].
      intros x Hx. destruct (Hother x Hx). by apply agree_errors.
    + rewrite K5. pose proof (entry_errors_nonneg (memory w) pe). lia.
  - intros x Hx [Hok He]. rewrite HL in Hx. apply elem_of_cons in Hx as [->|Hx]; [done|].
    destruct (Hother x Hx). split; [by apply (agree_page_ok s pats OK (memory w))|]. rewrite <- He. by apply agree_errors.
Qed.

(** Only offset and pattern of an entry matter. *)
Lemma counted_replace F w L pe pe' :
  offset pe' = offset pe -> pattern pe' = pattern pe -> counted F w (pe :: L) -> counted F w (pe' :: L).
Proof.
  intros Ho Hp [C1 C2 C3 C4 C5 C6].
  assert (He : forall m, entry_errors s pats m pe' = entry_errors s pats m pe) by (intros m; unfold entry_errors; by rewrite Ho, Hp).
  apply Forall_cons in C1 as [C1 C1']. split; try done.
  - constructor; [|done]. unfold entry_ok in *. by rewrite Ho, Hp.
  - cbn [map] in *. by rewrite Ho.
  - cbn [map] in *. by rewrite He.
Qed.

Lemma counted_perm F w L L' : L ≡ₚ L' -> counted F w L -> counted F w L'.
Proof. intros HL [C1 C2 C3 C4 C5 C6]. split; by rewrite <- ?HL. Qed.

Lemma counted_same F w w' L :
  counted F w L -> memory w' = memory w -> patternlist_ w' = patternlist_ w ->
  map w_errorcount (workers w') = map w_errorcount (workers w) -> counted F w' L.
Proof.
  intros [C1 C2 C3 C4 C5 C6] Hm Hp Hw. unfold total_errors in *.
  split; unfold total_errors; rewrite ?Hm, ?Hp, ?Hw; done.
Qed.

(** Changes of statistics. *)
Record same_blocks (w w' : @Shared Q) : Prop := {
  sb_store : store w' = store w;
  sb_mem : memory w' = memory w;
  sb_list : patternlist_ w' = patternlist_ w;
  sb_counts : map w_errorcount (workers w') = map w_errorcount (workers w);
  sb_stop : error_stop_requested_ w' = error_stop_requested_ w
}.

Lemma same_blocks_length w w' : same_blocks w w' -> length (workers w') = length (workers w).
Proof. intros H. pose proof (f_equal length (sb_counts _ _ H)) as Hl. by rewrite !length_map in Hl. Qed.

Lemma wp_record_operation t ph rd wr e w :
  wp (record_operation s t ph rd wr e) w (fun _ w' => same_blocks w w').
Proof.
  unfold record_operation. destruct (diag_phase_summary s); [|by split].
  intros an _. eexists _, _. split; [done|]. split; try done. by apply same_counts.
Qed.

Section PostFill.
Context `{IS : InitStore Q} `{ILAWS : !InitStoreLaws Q n psize}.

(** What does not change while blocks are checked. *)
Definition went_on (w w' : @Shared Q) : Prop :=
  length (workers w') = length (workers w) /\
  (stop_on_error (cfg s) = false -> error_stop_requested_ w' = error_stop_requested_ w).

Lemma went_on_trans w1 w2 w3 : went_on w1 w2 -> went_on w2 w3 -> went_on w1 w3.
Proof. intros [H1 H2] [H3 H4]. split; [lia|]. intros Hs. by rewrite H4, H2. Qed.

(** A valid entry in hand or at rest is checked, then [K] runs. *)
Lemma wp_check_counted {A} F t pe pe0 L wn ph slot rd w (K : Prog Answer Shared A) (Qp : A -> @Shared Q -> Prop) :
  (t < length (workers w))%nat -> mapped s pe -> offset pe = offset pe0 -> pattern pe = pattern pe0 ->
  counted F w (pe0 :: L) ->
  (forall w', store w' = store w -> went_on w w' -> counted F w' (pe :: L) -> entry_clean (memory w') pe ->
     (forall x, x ∈ L -> entry_clean (memory w) x -> entry_clean (memory w') x) -> wp K w' Qp) ->
  wp (e <- check_page s t pe wn ph ;; record_operation s t slot rd 0 e ;; K)%prog w Qp.
Proof using OK.
  intros Ht Hm Ho Hp Hc HQ. apply (counted_replace F w L pe0 pe Ho Hp) in Hc as Hc'.
  assert (Hb : offset pe ∈ all_blocks) by (rewrite <- (ct_blocks _ _ _ Hc'); left).
  pose proof (ct_ok _ _ _ Hc') as [Hok _]%Forall_cons. pose proof (ct_list _ _ _ Hc') as [Hl _].
  apply wp_bind. eapply wp_mono; [|apply wp_check_page; try done; apply Hc'].
  intros e w1 Hck. destruct (counted_step F w w1 (pe :: L) pe Hc' Hck) as [Hc1 Hcl]; [by exists L|]. apply wp_bind.
  eapply wp_mono; [|apply wp_record_operation]. intros [] w2 Hsb. pose proof (same_blocks_length _ _ Hsb) as Hlen.
  destruct Hsb as [S1 S2 S3 S4 S5]. destruct Hck as [K1 K2 K3 K4 K5 K6 K7 K8]. apply HQ.
  - by rewrite S1.
  - split; [lia|]. intros Hs. by rewrite S5, K8.
  - by apply (counted_same F w1).
  - by rewrite S2.
  - intros x Hx. rewrite S2. apply Hcl. by right.
Qed.

(** With two queues, checked entries are kept in the empty one. *)
Record sorting (F : Z) (w : @Shared Q) (V E : list page_entry) : Prop := {
  so_rep : rep n psize (store w) V E [] [];
  so_counted : counted F w (V ++ E);
  so_clean : Forall (entry_clean (memory w)) E;
  so_tags : Forall untagged (V ++ E)
}.

Lemma wp_post_fill_coarse F t k : forall i w V E,
  coarse_grain_queue = true -> length V = k -> sorting F w V E -> (t < length (workers w))%nat ->
  wp (post_fill_loop s k t i (Z.of_nat (length E))) w (fun r w' => exists V' E',
    r = (true, Z.of_nat (length E')) /\ sorting F w' V' E' /\ went_on w w' /\
    (stop_on_error (cfg s) = false -> error_stop_requested_ w = false -> V' = [])).
Proof using LAWS COMP OK ILAWS.
  induction k as [|k IH]; intros i w V E Hco Hl Hs Ht.
  - exists V, E. split; [done|]. split; [done|]. split; [done|]. by apply nil_length_inv in Hl as ->.
  - cbn [post_fill_loop]. rewrite Hco. apply wp_bind. destruct Hs as [H1 H2 H3 H4]. eapply wp_GetValid; [exact H1 | |].
    { destruct V as [|pe V]; [done|]. exists pe. split; [left | apply accepts_dont_care]. }
    intros q' pe0 pe V' HV Hm Ho Hp Htg Hr'.
    assert (Hc : counted F (set_store w q') (pe0 :: (V' ++ E))).
    { apply (counted_same F w); [|done..]. by apply (counted_perm F w (V ++ E)); [rewrite HV|]. }
    apply (wp_check_counted F t pe pe0 (V' ++ E)); try done. intros w1 Hs1 Hw1 Hc1 Hcl Hkeep. apply wp_bind. intros an _.
    destruct (hold_page_spec (store w1) V' E [] (set_addr pe 0) Hco) as (q2 & Hh & Hr2); [by rewrite Hs1|].
    rewrite Hh. eexists _, _. split; [done|]. cbn [negb].
    set (w2 := set_store w1 q2). assert (Hsort : sorting F w2 V' (set_addr pe 0 :: E)).
    { split; [done | | |].
      - apply (counted_same F w1); [|done..]. apply (counted_perm F w1 (set_addr pe 0 :: V' ++ E)); [apply Permutation_middle|].
        by apply (counted_replace F w1 _ pe).
      - constructor; [done|]. apply Forall_forall. intros x Hx. apply Hkeep; [apply elem_of_app; by right|].
        rewrite Forall_forall in H3. by apply H3.
      - rewrite HV in H4. apply Forall_cons in H4 as [H40 H4]. rewrite <- Permutation_middle.
        constructor; [|done]. unfold untagged in *. cbn. congruence. }
    assert (Hw2 : went_on w w2) by exact Hw1.
    assert (Hn : Z.of_nat (length E) + 1 = Z.of_nat (length (set_addr pe 0 :: E))) by (cbn [length]; lia).
    apply wp_bind. intros an' _. eexists _, _. split; [done|]. rewrite Hn. cbn [ProgramFacts.wp].
    destruct (error_stop_requested_ w2) eqn:Hstop.
    + exists V', (set_addr pe 0 :: E). split; [done|]. split; [done|]. split; [done|].
      intros Hne Hws. destruct Hw2 as [_ Hw2]. rewrite Hw2 in Hstop by done. congruence.
    + eapply wp_mono; [|apply (IH (i + 1) w2 V' (set_addr pe 0 :: E) Hco); [|done|destruct Hw2; lia]].
      * intros r w3 (V3 & E3 & -> & Hs3 & Hw3 & Hend). exists V3, E3. split; [done|]. split; [done|].
        split; [by eapply went_on_trans|]. intros Hne Hws. by apply Hend.
      * apply Permutation_length in HV. cbn in HV. lia.
Qed.
(** The checked entries go back. *)
Lemma wp_restore_loop k : forall w V E,
  coarse_grain_queue = true -> length E = k -> rep n psize (store w) V E [] [] ->
  Forall (fun pe => page_is_valid pe = true) E ->
  wp (restore_loop k) w (fun b w' => b = true /\
    exists q V', w' = set_store w q /\ rep n psize q V' [] [] [] /\ V' ≡ₚ V ++ E).
Proof using ILAWS.
  induction k as [|k IH]; intros w V E Hco Hl Hr Hv.
  - apply nil_length_inv in Hl as ->. split; [done|]. exists (store w), V. by rewrite set_store_same, app_nil_r.
  - cbn [restore_loop]. apply wp_bind. intros an _.
    destruct (restore_page_spec (Z.of_N (random an)) (store w) V E Hco ltac:(lia) Hr) as (q & pe & E' & HE & Hrs & Hr');
      [by destruct E | done|].
    rewrite Hrs. eexists _, _. split; [done|]. cbn [ProgramFacts.wp]. rewrite HE in Hv. apply Forall_cons in Hv as [_ Hv].
    eapply wp_mono; [|apply (IH (set_store w q) (pe :: V) E' Hco); [|done|done]].
    + intros b w' (-> & q2 & V2 & -> & Hr2 & HV2). split; [done|]. exists q2, V2. split; [done|]. split; [done|].
      rewrite HV2, HE. cbn [app]. by rewrite Permutation_middle.
    + apply Permutation_length in HE. cbn in HE. lia.
Qed.

(** With the one array, every block is looked at where it is. *)
Lemma wp_post_fill_fine F t V k : forall i w,
  coarse_grain_queue = false -> 0 <= i -> i + Z.of_nat k = n -> rep n psize (store w) V [] [] [] -> counted F w V ->
  (forall pe, pe ∈ V -> offset pe < i * psize -> entry_clean (memory w) pe) -> (t < length (workers w))%nat ->
  wp (post_fill_loop s k t i i) w (fun r w' => (exists c, r = (true, c)) /\
    rep n psize (store w') V [] [] [] /\ counted F w' V /\ went_on w w' /\
    (stop_on_error (cfg s) = false -> error_stop_requested_ w = false -> Forall (entry_clean (memory w')) V)).
Proof using LAWS OK ILAWS.
  induction k as [|k IH]; intros i w Hco Hi Hk Hr Hc Hcl Ht.
  - cbn. split; [by exists i|]. do 3 (split; [done|]). intros _ _. apply Forall_forall. intros pe Hpe. apply Hcl; [done|].
    assert (Hb : offset pe ∈ all_blocks) by (rewrite <- (ct_blocks _ _ _ Hc); by apply list_elem_of_fmap_2).
    apply list_elem_of_fmap in Hb as (j & -> & Hj%elem_of_zrange).
    destruct (so_len _ _ OK) as [Hpos _]. assert (j < i) by lia. nia.
  - cbn [post_fill_loop]. rewrite Hco. apply wp_bind.
    destruct (get_by_offset_spec (store w) V i Hco Hr ltac:(lia)) as (pe0 & Hin & Ho & Hg).
    unfold GetValidByOffsetForInitialization. apply wp_bind. intros an _. eexists _, _. split; [done|].
    change (page_length_ s) with psize. rewrite Hg. cbn [ProgramFacts.wp]. apply wp_bind. intros an1 _.
    assert (Hb : offset pe0 ∈ all_blocks) by (rewrite <- (ct_blocks _ _ _ Hc); by apply list_elem_of_fmap_2).
    destruct (map_block s pats OK pe0 an1 Hb) as (y & Hmap & Hpos). rewrite Hmap. eexists _, _. split; [done|].
    cbn [ProgramFacts.wp]. cbn [addr set_addr]. rewrite (proj2 (Z.eqb_neq _ _)) by lia.
    apply wp_bind. intros an2 _. eexists _, _. split; [done|]. cbn [ProgramFacts.wp].
    apply elem_of_Permutation in Hin as (L & HL).
    apply (wp_check_counted F t _ pe0 L); try done; [by apply (counted_perm F w V)|].
    intros w1 Hs1 Hw1 Hc1 Hcl1 Hkeep. cbn [negb bind]. apply wp_bind. intros an3 _. eexists _, _. split; [done|].
    cbn [ProgramFacts.wp].
    assert (Hc1' : counted F w1 V).
    { apply (counted_perm F w1 (pe0 :: L)); [done|]. eapply counted_replace; [| |exact Hc1]; done. }
    destruct (error_stop_requested_ w1) eqn:Hstop.
    + split; [by eexists|]. split; [by rewrite Hs1|]. split; [done|]. split; [done|]. intros Hne Hws.
      destruct Hw1 as [_ Hw1]. rewrite Hw1 in Hstop by done. congruence.
    + eapply wp_mono; [|apply (IH (i + 1) w1 Hco); [lia | lia | by rewrite Hs1 | done | | destruct Hw1; lia]].
      * intros r w2 (Hr2 & Hrep2 & Hc2 & Hw2 & Hall). do 3 (split; [done|]). split; [by eapply went_on_trans|].
        intros Hne Hws. by apply Hall.
      * intros pe Hpe Hlt. rewrite HL in Hpe. apply elem_of_cons in Hpe as [->|Hpe].
        { by eapply clean_valid. }
        assert (Hbp : offset pe ∈ all_blocks).
        { rewrite <- (ct_blocks _ _ _ Hc), HL. apply list_elem_of_fmap_2. by right. }
        apply Hkeep; [done|]. apply Hcl; [rewrite HL; by right|].
        assert (Hne : offset pe <> offset pe0).
        { pose proof (blocks_nodup s pats OK) as Hnd. rewrite <- (ct_blocks _ _ _ Hc), HL in Hnd. cbn [map] in Hnd.
          apply NoDup_cons in Hnd as [Hni _]. intros He. apply Hni. rewrite <- He. by apply list_elem_of_fmap_2. }
        apply list_elem_of_fmap in Hbp as (j & Hj & _). destruct (so_len _ _ OK) as [Hps _].
        assert (j <> i) by congruence. assert (j < i + 1) by nia. nia.
Qed.

(** The whole thread: its result is [true], everything wrong with a block is counted and
    repaired, and all blocks are valid again. *)
Lemma wp_PostFillCheck F t w V :
  rep n psize (store w) V [] [] [] -> counted F w V -> Forall untagged V -> (t < length (workers w))%nat ->
  wp (PostFillCheckThread_Work s t n) w (fun r w' => r = true /\
    exists V', rep n psize (store w') V' [] [] [] /\ counted F w' V' /\ Forall untagged V' /\ went_on w w' /\
    (stop_on_error (cfg s) = false -> error_stop_requested_ w = false -> Forall (entry_clean (memory w')) V')).
Proof using LAWS COMP OK ILAWS.
  intros Hr Hc Hu Ht. unfold PostFillCheckThread_Work. apply wp_bind. destruct coarse_grain_queue eqn:Hco.
  - eapply wp_mono; [|apply (wp_post_fill_coarse F t _ 0 w V []); [done | by eapply rep_valid_length | | done]].
    2: { split; [done | by rewrite app_nil_r | done | by rewrite app_nil_r]. }
    intros r w1 (V1 & E1 & -> & [S1 S2 S3 S4] & Hw1 & Hend). apply wp_bind, wp_bind. unfold RestoreInitializationPages.
    rewrite Hco, Nat2Z.id. eapply wp_mono; [|apply (wp_restore_loop _ w1 V1 E1 Hco eq_refl S1)].
    2: { eapply Forall_impl; [exact S3|]. intros pe Hpe. by apply (clean_valid (memory w1) pe pe). }
    intros b w2 (-> & q2 & V2 & -> & Hr2 & HV2). cbn [ProgramFacts.wp]. apply wp_bind. intros an _. eexists _, _.
    split; [done|]. cbn [ProgramFacts.wp]. split; [done|]. exists V2. split; [done|]. split.
    + eapply counted_perm; [symmetry; exact HV2|]. apply (counted_same F w1); try done. cbn. by apply same_counts.
    + split; [by rewrite HV2|]. split; [split; [cbn; rewrite length_insert|]; apply Hw1|].
      intros Hne Hws. rewrite HV2, (Hend Hne Hws). exact S3.
  - eapply wp_mono; [|apply (wp_post_fill_fine F t V _ 0 w Hco); try done].
    + intros r w1 ((c & ->) & Hr1 & Hc1 & Hw1 & Hend). cbn [bind ProgramFacts.wp]. intros an _. eexists _, _.
      split; [done|]. split; [done|]. exists V. split; [done|].
      split; [apply (counted_same F w1); try done; cbn; by apply same_counts|]. split; [done|].
      split; [split; [cbn; rewrite length_insert|]; apply Hw1|]. done.
    + pose proof (so_pages _ _ OK). lia.
    + intros pe Hpe Hlt. exfalso.
      assert (Hb : offset pe ∈ all_blocks) by (rewrite <- (ct_blocks _ _ _ Hc); by apply list_elem_of_fmap_2).
      apply list_elem_of_fmap in Hb as (j & Hj & Hj'%elem_of_zrange). destruct (so_len _ _ OK) as [Hps _]. nia.
Qed.
End PostFill.

(** ** The whole *)
Section Whole.
Context `{IS : InitStore Q} `{ILAWS : !InitStoreLaws Q n psize}.

(** After the fill: all blocks are valid and hold their patterns. *)
Definition filled (w : @Shared Q) : Prop :=
  list_ok (patternlist_ w) /\ mem_ok (memory w) /\
  exists V, rep n psize (store w) V [] [] [] /\ Forall untagged V /\ Forall (entry_clean (memory w)) V.

(** After the split: [free] of them are empty. *)
Definition split_done (free : Z) (w : @Shared Q) : Prop :=
  list_ok (patternlist_ w) /\ mem_ok (memory w) /\
  exists V E, rep n psize (store w) V E [] [] /\ Forall (entry_clean (memory w)) V /\ Z.of_nat (length E) = free.

Lemma zero_errors_clean m V :
  Forall (entry_ok s pats m) V -> zsum (map (entry_errors s pats m) V) <= 0 -> Forall (entry_clean m) V.
Proof.
  induction 1 as [|pe V Hok HV IH]; [constructor|]. cbn [map]. unfold zsum in *. cbn [foldr]. intros Hz.
  pose proof (entry_errors_nonneg m pe) as H1.
  assert (H2 : 0 <= zsum (map (entry_errors s pats m) V)).
  { apply zsum_nonneg, Forall_map, Forall_true. intros pe'. apply entry_errors_nonneg. }
  unfold zsum in H2. constructor; [split; [done | lia] | apply IH; lia].
Qed.

Lemma clean_zero_errors m V : Forall (entry_clean m) V -> zsum (map (entry_errors s pats m) V) = 0.
Proof. induction 1 as [|pe V [_ He] HV IH]; [done|]. cbn [map]. unfold zsum in *. cbn [foldr]. lia. Qed.

Lemma all_clean_filled threads w : all_clean threads w -> filled w.
Proof.
  intros (V & [[R1 R2 R3 R4 R5 R6 R7] Hl] & Hu). split; [done|]. split; [done|]. exists V. split; [done|]. split; [done|].
  apply zero_errors_clean; [done|]. change (total_errors w + zsum (map (entry_errors s pats (memory w)) V) = 0) in R7.
  lia.
Qed.

Lemma filled_counted w V :
  list_ok (patternlist_ w) -> mem_ok (memory w) -> rep n psize (store w) V [] [] [] -> Forall (entry_clean (memory w)) V ->
  counted 0 (new_workers s 1 w) V.
Proof using LAWS.
  intros Hl Hm Hr Hc. destruct (total_new_workers 1 w) as [Ht0 Ht1]. split; [| | done | done | |].
  - eapply Forall_impl; [exact Hc|]. by intros pe [? _].
  - rewrite <- (rep_blocks _ _ _ _ _ Hr). cbn. by rewrite app_nil_r.
  - change (memory (new_workers s 1 w)) with (memory w). rewrite (clean_zero_errors _ _ Hc). lia.
  - lia.
Qed.

(** The pass that checks a correct fill finds nothing. *)
Lemma post_fill_check_clean st b st' :
  filled (shared st) -> PostFillCheck s st b st' ->
  b = true /\ filled (shared st') /\ initialization_errorcount_ st' = initialization_errorcount_ st.
Proof using LAWS COMP OK ILAWS.
  intros (Hl & Hm & V & Hr & Hu & Hc) Hp. destruct Hp as [st b w' (ans & Hans & Hrun)].
  destruct (total_new_workers 1 (shared st)) as [Ht0 Ht1].
  assert (Hwp := wp_PostFillCheck 0 0 (new_workers s 1 (shared st)) V Hr (filled_counted _ V Hl Hm Hr Hc) Hu ltac:(lia)).
  destruct (wp_run is_ready _ _ _ _ _ _ Hwp Hans Hrun) as (-> & V' & Hr' & [C1 C2 C3 C4 C5 C6] & Hu' & _ & _).
  assert (H0 : 0 <= zsum (map (entry_errors s pats (memory w')) V')).
  { apply zsum_nonneg, Forall_map, Forall_true. intros pe'. apply entry_errors_nonneg. }
  split; [done|]. split; [|cbn [initialization_errorcount_]; lia].
  split; [done|]. split; [done|]. exists V'. split; [done|]. split; [done|].
  apply (zero_errors_clean (memory w')); [done | lia].
Qed.

(** What holds behind each step of [InitializePages]. *)
Definition phase_ok (o : InitOptions) (ph : Phase) (w : @Shared Q) : Prop :=
  match ph with
  | Queued | Prefaulted | Preset => all_empty w
  | Filled | Verified => filled w
  | Split _ => split_done (freepages_ o) w
  | Failed => False
  end.

Context (o : InitOptions) (Hthreads : (1 <= threads_ o)%nat) (Hfree : 0 <= freepages_ o <= n).

Lemma wp_split_all r w :
  filled w ->
  wp (split_pages s (freepages_ o) (Z.to_nat n) 0 r true) w (fun b w' =>
    (exists r', b = Some (true, r')) /\ split_done (freepages_ o) w').
Proof using LAWS COMP OK Hthreads Hfree.
  intros (Hl & Hm & V & Hr & Hu & Hc). pose proof (so_pages _ _ OK).
  eapply wp_mono; [|apply (wp_split_pages (freepages_ o) _ 0 r true w V []); try done; [lia | | cbn; lia]].
  - intros b w' (r' & q & V' & E' & -> & -> & Hr' & Hc' & He). split; [by eexists|]. split; [done|]. split; [done|].
    by exists V', E'.
  - rewrite <- (rep_valid_length _ _ Hr). clear -Hu. induction Hu as [|pe V Hpe HV IH]; [done|].
    rewrite untagged_count_cons, decide_True by done. cbn [length]. lia.
Qed.

Lemma init_step_ok ph st ph' st' :
  init_step s o (ph, st) (ph', st') -> phase_ok o ph (shared st) ->
  phase_ok o ph' (shared st') /\ initialization_errorcount_ st' = initialization_errorcount_ st.
Proof using LAWS COMP OK ILAWS Hthreads Hfree.
  intros Hs. inversion Hs; subst; cbn [phase_ok shared initialization_errorcount_].
  - intros (Hl & Hm & HE). destruct (prefault_pages_ o) as [size|]; [|destruct H0 as [-> <-]; done].
    destruct H0 as [(ans & Hans & Hrun) ->]. pose proof (so_pages _ _ OK).
    assert (Hwp := wp_prefault size (Z.to_nat n) 0 (shared st) ltac:(lia) ltac:(lia) Hm).
    by destruct (wp_run is_ready _ _ _ _ _ _ Hwp Hans Hrun) as (-> & m & -> & Hm').
  - intros He. assert (fill_preset s = FILL_PRESET_NONE \/ fill_preset s <> FILL_PRESET_NONE) as [Hn|Hn]
      by (destruct (fill_preset s); auto).
    + rewrite Hn in H0. by destruct H0 as [-> ->].
    + destruct (preset_pass (threads_ o) st b st' Hthreads Hn He) as (-> & ? & ?); [by destruct (fill_preset s) | done].
  - intros He. destruct (fill_pass_clean (threads_ o) st b st' Hthreads He H0) as (-> & Hc & ?).
    split; [by eapply all_clean_filled | done].
  - intros Hf. destruct (_ && _) in H0; [|by destruct H0 as [-> ->]].
    by destruct (post_fill_check_clean st b st' Hf H0) as (-> & ? & ?).
  - intros Hf. destruct H0 as (ans & Hans & Hrun).
    by destruct (wp_run is_ready _ _ _ _ _ _ (wp_split_all r0 (shared st) Hf) Hans Hrun) as ((r' & ->) & Hd).
Qed.
(** ** Every step can be taken *)

Context (an : Answer) (Han : is_ready an).

Lemma alone_exists {A} (p : Prog Answer (@Shared Q) A) w (Qp : A -> @Shared Q -> Prop) :
  wp p w Qp -> exists a w', alone p w a w' /\ Qp a w'.
Proof using Han.
  intros Hp. destruct (wp_exists is_ready p w Qp an Hp Han) as (k & a & w' & Hr & HQ). exists a, w'.
  split; [|done]. exists (replicate k an). split; [by apply Forall_replicate | done].
Qed.

(** The threads of a pass come to their end in every interleaving. *)
Lemma fill_join threads w y :
  all_empty w -> rtc (pstep_in is_ready) (new_workers s threads w, fill_threads s false threads) y ->
  exists rs w', rtc (pstep_in is_ready) y (w', map Ret rs).
Proof using LAWS OK Han.
  intros He Hy. apply (psteps_end is_ready an); [done|]. intros y' Hy' i B f k Hi.
  exact (fill_no_failure threads w y' He ltac:(by etrans) i B f k an Hi).
Qed.

Lemma preset_join threads w :
  (1 <= threads)%nat -> fill_preset s <> FILL_PRESET_NONE -> all_empty w ->
  exists rs w', joined (fill_threads s true threads) (new_workers s threads w) rs w'.
Proof using LAWS COMP OK Han.
  intros Ht Hp He. apply (psteps_end is_ready an); [done|]. intros y Hy i B f k Hi.
  refine (all_gsafe_progress is_ready True (FInv True) (Inv_proper := FInv_proper True) (thread_done) tt y i B f k an I _ Hi Han).
  eapply (psteps_gsafe is_ready True (FInv True) (Inv_proper := FInv_proper True)); [|exact Hy].
  apply fill_threads_safe; [done | done | done | by apply new_workers_empty | apply total_new_workers].
Qed.

Lemma pass_exists preset st :
  (preset = true -> fill_preset s <> FILL_PRESET_NONE) -> all_empty (shared st) ->
  exists b st', RunFillPass s preset (threads_ o) st b st'.
Proof using LAWS COMP OK Hthreads Han.
  intros Hp He. destruct preset.
  - destruct (preset_join (threads_ o) (shared st)) as (rs & w' & Hj); [done | by apply Hp | done|].
    destruct (preset_joined (threads_ o) _ rs w' Hthreads (Hp eq_refl) He Hj) as (-> & Hl & _ & V & Hr & Hu).
    assert (Hwp := wp_reset_pages (Z.to_nat n) w' V [] Hr (rep_valid_length _ _ Hr)).
    rewrite app_nil_r in Hwp. destruct (alone_exists _ _ _ (Hwp Hu)) as (b & w2 & Hal & _).
    eexists b, _. econstructor; [exact Hj|]. rewrite all_succeeded. exact Hal.
  - destruct (fill_join (threads_ o) (shared st) _ He ltac:(apply rtc_refl)) as (rs & w' & Hj).
    eexists _, _. econstructor; [exact Hj|]. by split.
Qed.

Lemma post_fill_exists st : filled (shared st) -> exists b st', PostFillCheck s st b st'.
Proof using LAWS COMP OK ILAWS Han.
  clear Hthreads. intros (Hl & Hm & V & Hr & Hu & Hc). destruct (total_new_workers 1 (shared st)) as [Ht0 Ht1].
  assert (Hwp := wp_PostFillCheck 0 0 (new_workers s 1 (shared st)) V Hr (filled_counted _ V Hl Hm Hr Hc) Hu ltac:(lia)).
  destruct (alone_exists _ _ _ Hwp) as (b & w2 & Hal & _). eexists b, _. by econstructor.
Qed.

(** The steps that are left. *)
Definition steps_left (ph : Phase) : nat :=
  match ph with Queued => 5 | Prefaulted => 4 | Preset => 3 | Filled => 2 | Verified => 1 | _ => 0 end.

Lemma init_progress ph st :
  phase_ok o ph (shared st) -> (0 < steps_left ph)%nat ->
  exists ph' st', init_step s o (ph, st) (ph', st') /\ steps_left ph = S (steps_left ph').
Proof using LAWS COMP OK ILAWS Hthreads Hfree Han.
  intros Hok Hlt.
  enough (exists x, init_step s o (ph, st) x) as ([ph' st'] & Hs).
  { exists ph', st'. split; [done|]. destruct (init_step_ok ph st ph' st' Hs Hok) as [Hok' _].
    inversion Hs; subst; try by destruct b. by repeat case_match. }
  destruct ph; cbn in Hlt, Hok; try lia.
  - destruct Hok as (Hl & Hm & HE). destruct (prefault_pages_ o) as [size|] eqn:Hp.
    + pose proof (so_pages _ _ OK). assert (Hwp := wp_prefault size (Z.to_nat n) 0 (shared st) ltac:(lia) ltac:(lia) Hm).
      destruct (alone_exists _ _ _ Hwp) as (b & w' & Hal & _). eexists. apply (init_prefault s o st b (initialization_errorcount_ st) w').
      by rewrite Hp.
    + eexists. destruct st as [e w]. apply (init_prefault s o _ true e w). by rewrite Hp.
  - assert (fill_preset s = FILL_PRESET_NONE \/ fill_preset s <> FILL_PRESET_NONE) as [Hn|Hn]
      by (destruct (fill_preset s); auto).
    + eexists. apply (init_preset s o st true st). by rewrite Hn.
    + destruct (pass_exists true st) as (b & st' & Hp); [done | done|]. eexists. apply (init_preset s o st b st').
      by destruct (fill_preset s).
  - destruct (pass_exists false st) as (b & st' & Hp); [done | done|]. eexists. by apply (init_fill s o st b st').
  - destruct (verify_after_fill_ o && negb (error_stop_requested_ (shared st))) eqn:Hv.
    + destruct (post_fill_exists st Hok) as (b & st' & Hp). eexists. apply (init_verify s o st b st'). by rewrite Hv.
    + eexists. apply (init_verify s o st true st). by rewrite Hv.
  - destruct (alone_exists _ _ _ (wp_split_all (mkRegions [] 0 (os_ (world (cfg s)))) _ Hok)) as (b & w' & Hal & _).
    eexists. exact (init_split s o st _ b w' Hal).
Qed.

Lemma init_completes k : forall ph st,
  phase_ok o ph (shared st) -> steps_left ph = k -> exists r st', rtc (init_step s o) (ph, st) (Split r, st').
Proof using LAWS COMP OK ILAWS Hthreads Hfree Han.
  induction k as [|k IH]; intros ph st Hok Hk.
  - destruct ph; try done. by exists r, st.
  - destruct (init_progress ph st Hok ltac:(lia)) as (ph' & st' & Hs & Hl).
    destruct (IH ph' st') as (r & st2 & Hr); [by apply (init_step_ok ph st) | lia|].
    exists r, st2. by eapply rtc_l.
Qed.
(** *** From the queue as it is constructed *)

Definition start_state (w0 : @Shared Q) : Prop :=
  rep n psize (store w0) [] [] all_blocks [] /\ list_ok (patternlist_ w0) /\ mem_ok (memory w0).

Lemma wp_queue_all w0 :
  start_state w0 ->
  wp (put_all_empty s (junk_ o) (Z.to_nat n) 0 true) w0 (fun b w => b = true /\ all_empty w).
Proof using LAWS OK.
  clear Hthreads. intros (Hr & Hl & Hm). pose proof (so_pages _ _ OK).
  eapply wp_mono; [|apply (wp_put_all_empty (junk_ o) _ 0 w0 []); [lia | lia | done | done]].
  intros b w (-> & q & E & -> & HE). split; [done|]. split; [done|]. split; [done|]. by exists E.
Qed.

Lemma InitializePages_ok w0 ph st :
  start_state w0 -> InitializePages s o w0 ph st ->
  phase_ok o ph (shared st) /\ initialization_errorcount_ st = 0.
Proof using LAWS COMP OK ILAWS Hthreads Hfree.
  intros Hs (w & b & (ans & Hans & Hrun) & Hrest).
  destruct (wp_run is_ready _ _ _ _ _ _ (wp_queue_all w0 Hs) Hans Hrun) as [-> He].
  assert (Hgen : forall x y, rtc (init_step s o) x y -> phase_ok o x.1 (shared x.2) -> initialization_errorcount_ x.2 = 0 ->
    phase_ok o y.1 (shared y.2) /\ initialization_errorcount_ y.2 = 0).
  { induction 1 as [|x y z Hxy Hyz IH]; [done|]. intros Hx Hz. destruct x as [ph1 st1], y as [ph2 st2].
    destruct (init_step_ok _ _ _ _ Hxy Hx) as [Hok Hz']. apply IH; [done | cbn in *; lia]. }
  exact (Hgen _ _ Hrest He eq_refl).
Qed.

Lemma InitializePages_exists w0 : start_state w0 -> exists r st, InitializePages s o w0 (Split r) st.
Proof using LAWS COMP OK ILAWS Hthreads Hfree Han.
  intros Hs. destruct (alone_exists _ _ _ (wp_queue_all w0 Hs)) as (b & w & Hal & -> & He).
  destruct (init_completes 5 Queued (mkSetup 0 w) He eq_refl) as (r & st & Hr). exists r, st. by exists w, true.
Qed.

(** The blocks are ready for the threads of the test. *)
Lemma split_ready k w :
  split_done (freepages_ o) w ->
  exists V E, ready_with s pats k 0 (new_workers s k w) V E /\
    Z.of_nat (length E) = freepages_ o /\ Z.of_nat (length V) = n - freepages_ o.
Proof using LAWS OK.
  clear Hthreads. intros (Hl & Hm & V & E & Hr & Hc & HE). destruct (total_new_workers k w) as [Ht0 Ht1]. exists V, E. split.
  - split; try done; [| by destruct Hl | lia |].
    + eapply Forall_impl; [exact Hc|]. by intros pe [? _].
    + unfold errors_left. change (memory (new_workers s k w)) with (memory w).
      change (zsum (map _ V)) with (zsum (map (entry_errors s pats (memory w)) V)). rewrite (clean_zero_errors _ _ Hc). lia.
  - split; [done|]. pose proof (Permutation_length (rep_blocks _ _ _ _ _ Hr)) as L. pose proof (so_pages _ _ OK).
    rewrite !length_app, !length_map, length_zrange in L. cbn in L. lia.
Qed.
(** Everything that can be reached from the constructed queue. *)
Lemma InitializePages_spec w0 ph st :
  start_state w0 -> InitializePages s o w0 ph st ->
  ph <> Failed /\ initialization_errorcount_ st = 0 /\
  (forall r k, ph = Split r -> exists V E, ready_with s pats k 0 (new_workers s k (shared st)) V E /\
     Z.of_nat (length E) = freepages_ o /\ Z.of_nat (length V) = n - freepages_ o) /\
  exists r st', rtc (init_step s o) (ph, st) (Split r, st').
Proof using LAWS COMP OK ILAWS Hthreads Hfree Han.
  intros Hs Hi. destruct (InitializePages_ok w0 ph st Hs Hi) as [Hok Hz]. split; [by intros ->|]. split; [done|].
  split; [|by eapply init_completes]. intros r k ->. by apply split_ready.
Qed.
(** With errors in the blocks, all of them are counted and repaired. *)
Lemma post_fill_exact st V b st' :
  list_ok (patternlist_ (shared st)) -> mem_ok (memory (shared st)) -> rep n psize (store (shared st)) V [] [] [] ->
  Forall untagged V -> Forall (entry_ok s pats (memory (shared st))) V ->
  stop_on_error (cfg s) = false -> error_stop_requested_ (shared st) = false ->
  PostFillCheck s st b st' ->
  b = true /\
  initialization_errorcount_ st' = initialization_errorcount_ st + errors_left s pats (shared st) V /\
  filled (shared st').
Proof using LAWS COMP OK ILAWS.
  clear Hthreads. intros Hl Hm Hr Hu Hc Hne Hws Hp. destruct Hp as [st b w' (ans & Hans & Hrun)].
  destruct (total_new_workers 1 (shared st)) as [Ht0 Ht1].
  assert (Hcount : counted (errors_left s pats (shared st) V) (new_workers s 1 (shared st)) V).
  { split; [done | | done | done | | lia].
    - rewrite <- (rep_blocks _ _ _ _ _ Hr). cbn. by rewrite app_nil_r.
    - rewrite Ht0. done. }
  assert (Hwp := wp_PostFillCheck _ 0 (new_workers s 1 (shared st)) V Hr Hcount Hu ltac:(lia)).
  destruct (wp_run is_ready _ _ _ _ _ _ Hwp Hans Hrun) as (-> & V' & Hr' & [C1 C2 C3 C4 C5 C6] & Hu' & _ & Hend).
  specialize (Hend Hne Hws). rewrite (clean_zero_errors _ _ Hend) in C5. split; [done|].
  split; [cbn [initialization_errorcount_]; lia|]. split; [done|]. split; [done|]. by exists V'.
Qed.
End Whole.

End Facts.
(** ** The two queues *)

#[export] Instance fine_init_laws n psize : InitStoreLaws FineLockPEQueue n psize.
Proof.
  split; [done | done|]. intros q V i _ Hr Hi. pose proof (PageStoreFacts.fr_params _ _ _ _ _ _ _ Hr) as [Hn Hps].
  pose proof (PageStoreFacts.fr_wf _ _ _ _ _ _ _ Hr) as Hwf. destruct (page_index_eq q i Hwf ltac:(lia)) as [Hidx Hvi].
  assert (Hfree : locked q i = false).
  { destruct (locked q i) eqn:Hl; [|done]. exfalso.
    pose proof (PageStoreFacts.fr_away _ _ _ _ _ _ _ Hr) as Ha. cbn in Ha. apply Permutation_nil_l in Ha.
    assert (Hin : i * psize ∈ flat_map (PageStoreFacts.away psize q) (PageStoreFacts.indices n)).
    { apply list_elem_of_In, in_flat_map. exists i. split; [apply list_elem_of_In, elem_of_zrange; lia|].
      unfold PageStoreFacts.away. rewrite Hl. by left. }
    rewrite <- Ha in Hin. by apply not_elem_of_nil in Hin. }
  pose proof (PageStoreFacts.fr_free _ _ _ _ _ _ _ Hr i Hi Hfree) as Ho.
  assert (Hv : page_is_valid (PageStoreFacts.page q i) = true).
  { destruct (page_is_valid _) eqn:Hv; [done|]. exfalso.
    pose proof (PageStoreFacts.fr_empty _ _ _ _ _ _ _ Hr) as Ha. apply Permutation_nil_l in Ha.
    assert (Hin : PageStoreFacts.page q i ∈ flat_map (PageStoreFacts.at_rest q false) (PageStoreFacts.indices n)).
    { apply list_elem_of_In, in_flat_map. exists i. split; [apply list_elem_of_In, elem_of_zrange; lia|].
      unfold PageStoreFacts.at_rest. rewrite Hfree, Hv. by left. }
    rewrite <- Ha in Hin. by apply not_elem_of_nil in Hin. }
  exists (PageStoreFacts.page q i). split.
  - rewrite (PageStoreFacts.fr_valid _ _ _ _ _ _ _ Hr). apply list_elem_of_In, in_flat_map. exists i.
    split; [apply list_elem_of_In, elem_of_zrange; lia|]. unfold PageStoreFacts.at_rest. rewrite Hfree, Hv. by left.
  - split; [done|]. cbn [get_by_offset fine_init_store]. unfold GetValidByOffset. pose proof (wq_psize _ Hwf) as Hpos.
    rewrite Hps in *. rewrite (proj2 (Z.leb_gt _ _)) by lia. rewrite Z.mod_mul by lia. cbn [orb negb Z.eqb].
    rewrite Hidx, Hvi. cbn [negb]. fold (PageStoreFacts.page q i). by rewrite Hv, Ho, Z.eqb_refl.
Qed.

#[export] Instance one_init_laws n psize : 0 <= n -> InitStoreLaws OneLock n psize.
Proof.
  intros Hn. split; [| |done].
  - intros q V E H pe _ Hr. destruct (PageStoreFacts.one_rep_lengths _ _ _ _ _ _ _ _ Hr Hn) as [_ Hl].
    destruct Hr as [HV (He & Hes & HE) Hb HP].
    destruct (PageStoreFacts.push_room (empty_ q) E n _ pe He Hes HE Hl ltac:(lia)) as (e' & Hpush & He' & Hes' & HE').
    cbn [hold_page one_init_store]. unfold one_put_empty. rewrite Hpush. eexists. split; [done|].
    split; [done | done | | done]. rewrite <- Hb. cbn [map app]. by rewrite <- !Permutation_middle.
  - intros rand q V E _ Hrand Hr Hne Hval. pose proof Hr as [HV (He & Hes & HE) Hb HP]. cbn [restore_page one_init_store].
    destruct (PageStoreFacts.pop_cases (empty_ q) E n rand He Hes HE Hrand) as [(r & Hpop)|(r & pe & e' & E' & -> & He' & Hes' & HE' & Hsp)].
    { exfalso. destruct (decide (PageQueueFacts.count (empty_ q) = 0)) as [Hc|Hc].
      - apply Hne, nil_length_inv. pose proof (Permutation_length HE) as Hl. rewrite PageQueueFacts.length_contents in Hl. lia.
      - pose proof (PageQueueFacts.count_bound _ He).
        destruct (PageQueueFacts.PopRandom_refines (empty_ q) rand He Hrand ltac:(lia)) as (pe & q' & Hp & _). congruence. }
    assert (Hr' : rep n psize (mkOneLock (valid_ q) e') V E' [offset pe] []).
    { split; [done | done | | done]. rewrite <- Hb, Hsp. cbn [map app]. by rewrite app_nil_r, <- Permutation_cons_append. }
    rewrite Hsp in Hval. apply Forall_cons in Hval as [Hpe _].
    pose proof (PageStoreFacts.one_store_laws (An := Answer) n psize Hn) as LAWS.
    destruct (put_valid_spec _ V E' [] [] pe Hr' Hpe) as (q' & Hput & Hrep). exists q', pe, E'. done.
Qed.

(** All blocks are away when the queues are constructed. *)
Lemma new_fine_rep n psize heap q :
  1 <= n <= 2 ^ 26 -> 0 < psize < 2 ^ 36 -> Z.of_nat (length heap) = n -> new_fine n psize heap = Some q ->
  rep n psize q [] [] (map (fun i => i * psize) (zrange 0 (Z.to_nat n))) [].
Proof.
  intros Hn Hp Hh Hq. destruct (new_queue_wf n psize heap Hn Hp Hh) as (q' & Hq' & Hwf & Hl & Hpg & Hsz & Hps).
  unfold new_fine in Hq. rewrite Hq in Hq'. injection Hq' as <-.
  assert (Hlk : forall i, i ∈ PageStoreFacts.indices n -> locked q i = true).
  { intros i Hi%elem_of_zrange. unfold locked, aget. rewrite Hl. apply nth_lookup_Some, lookup_replicate_2. lia. }
  assert (Hrest : forall v l, (forall i, i ∈ l -> locked q i = true) -> flat_map (PageStoreFacts.at_rest q v) l = []).
  { intros v l. induction l as [|i l IH]; intros Hall; [done|]. cbn [flat_map]. unfold PageStoreFacts.at_rest at 1.
    rewrite (Hall i ltac:(left)). cbn. apply IH. intros j Hj. apply Hall. by right. }
  split; [done | done | | by rewrite Hrest | by rewrite Hrest | | | constructor].
  - unfold new_FineLockPEQueue in Hq. destruct (generator n) as [[[a c] m]|]; [|done]. by injection Hq as <-.
  - cbn [PageStoreFacts.probe_offsets map]. rewrite app_nil_r. fold (PageStoreFacts.indices n). clear -Hlk.
    induction (PageStoreFacts.indices n) as [|i l IH]; [done|]. cbn [flat_map map]. unfold PageStoreFacts.away at 1.
    rewrite (Hlk i ltac:(left)). cbn. constructor. apply IH. intros j Hj. apply Hlk. by right.
  - intros i Hi Hf. rewrite Hlk in Hf; [done|]. apply elem_of_zrange. lia.
Qed.

Lemma new_one_rep n psize heap heap' :
  0 <= n < 2 ^ 60 -> Z.of_nat (length heap) = n + 1 -> Z.of_nat (length heap') = n + 1 ->
  rep n psize (new_one n heap heap') [] [] (map (fun i => i * psize) (zrange 0 (Z.to_nat n))) [].
Proof.
  intros Hn Hh Hh'.
  assert (Hq : forall hp, Z.of_nat (length hp) = n + 1 -> PageQueueFacts.queue_inv (new_PageEntryQueue n hp) /\
    PageQueue.q_size_ (new_PageEntryQueue n hp) = n + 1 /\ [] ≡ₚ PageQueueFacts.contents (new_PageEntryQueue n hp)).
  { intros hp Hhp. split; [split; cbn; try lia; by rewrite Z.mod_0_l by lia|]. split; [done|].
    unfold PageQueueFacts.contents, PageQueueFacts.count. cbn. by rewrite Z.mod_0_l by lia. }
  split; [by apply Hq | by apply Hq | done | done].
Qed.

(** ** The properties *)

(** What [InitializePages] is called with: threads to fill the blocks, a number of empty
    blocks that passes its two checks, patterns and memory. *)
Record init_ok {Q} (s : Settings) (pats : list Patterns.Pattern) (opts : Options.Sat) (o : InitOptions)
    (w0 : @Shared Q) : Prop := {
  io_threads : (1 <= threads_ o)%nat;
  io_free : split_target opts (pages s) = Some (freepages_ o) /\ 0 <= neededpages opts;
  io_list : list_ok pats (patternlist_ w0);
  io_mem : mem_ok s (memory w0)
}.

Lemma split_target_bounds opts n free :
  0 <= n -> split_target opts n = Some free -> 0 <= neededpages opts -> 0 <= free <= n.
Proof.
  unfold split_target. intros Hn Hf Hneed. destruct (Z.ltb_spec (freepages_of opts n) (neededpages opts)); [done|].
  destruct (Z.ltb_spec (n / 2) (freepages_of opts n)); [done|]. injection Hf as <-.
  pose proof (Z.div_le_upper_bound n 2 n ltac:(lia) ltac:(lia)). lia.
Qed.

(** Setting up with one lock per page.  From the queue as constructed, with all
    blocks queued as empty, prefaulted or not, preset or not, filled by any number of
    threads in any interleaving, checked or not, and split: no step fails; no error is
    counted; wherever the sequence stands it can be completed; and when it is, exactly the
    intended number of blocks is empty, and the others are valid and hold their patterns,
    which is what the threads of the test start from. *)
Theorem initialize_pages_fine s pats opts o heap (w0 : @Shared FineLockPEQueue) ph st :
  settings_ok s pats -> init_ok s pats opts o w0 -> 1 <= pages s <= 2 ^ 26 -> Z.of_nat (length heap) = pages s ->
  new_fine (pages s) (page_length (cfg s)) heap = Some (store w0) ->
  InitializePages s o w0 ph st ->
  ph <> Failed /\ initialization_errorcount_ st = 0 /\
  (forall r k, ph = Split r -> exists V E, ready_with s pats k 0 (new_workers s k (shared st)) V E /\
     Z.of_nat (length E) = freepages_ o /\ Z.of_nat (length V) = pages s - freepages_ o) /\
  exists r st', rtc (init_step s o) (ph, st) (Split r, st').
Proof.
  intros OK [H1 [H2 H2'] H3 H4] Hn Hh Hq. assert (Hn1 : 1 <= pages s) by lia. destruct (so_len _ _ OK) as [Hl _].
  apply (InitializePages_spec s pats (LAWS := PageStoreFacts.fine_store_laws _ _ Hn1)
    (COMP := SearchFacts.fine_complete _ _ Hn1) OK o H1) with (an := sample_answer); [|done|].
  - by apply (split_target_bounds opts); [lia|..].
  - split; [|done]. by apply (new_fine_rep _ _ heap); [done | lia|..].
Qed.

(** The same with the two coarse-lock queues. *)
Theorem initialize_pages_one s pats opts o heap heap' (w0 : @Shared OneLock) ph st :
  settings_ok s pats -> init_ok s pats opts o w0 -> pages s < 2 ^ 60 -> Z.of_nat (length heap) = pages s + 1 ->
  Z.of_nat (length heap') = pages s + 1 -> store w0 = new_one (pages s) heap heap' ->
  InitializePages s o w0 ph st ->
  ph <> Failed /\ initialization_errorcount_ st = 0 /\
  (forall r k, ph = Split r -> exists V E, ready_with s pats k 0 (new_workers s k (shared st)) V E /\
     Z.of_nat (length E) = freepages_ o /\ Z.of_nat (length V) = pages s - freepages_ o) /\
  exists r st', rtc (init_step s o) (ph, st) (Split r, st').
Proof.
  intros OK [H1 [H2 H2'] H3 H4] Hn Hh Hh' Hq. pose proof (so_pages _ _ OK) as Hn0.
  apply (InitializePages_spec s pats (LAWS := PageStoreFacts.one_store_laws _ _ Hn0)
    (COMP := SearchFacts.one_complete _ _ Hn0) (ILAWS := one_init_laws _ _ Hn0) OK o H1) with (an := sample_answer); [|done|].
  - by apply (split_target_bounds opts).
  - split; [|done]. rewrite Hq. by apply new_one_rep.
Qed.

(** The threads of a fill pass.  However they are interleaved, no assertion fails,
    there is no infinite execution, and from every state that is reached they can be
    joined; when they are, all have returned [true], no error has been counted, and
    every block is valid and holds its pattern. *)
Theorem fill_threads_join s pats threads (w : @Shared FineLockPEQueue) y :
  settings_ok s pats -> 1 <= pages s -> (1 <= threads)%nat -> all_empty s pats w ->
  rtc (pstep_in is_ready) (new_workers s threads w, fill_threads s false threads) y ->
  no_failure y /\ Acc (fun z' z => pstep z z') y /\
  (exists rs w', rtc (pstep_in is_ready) y (w', map Ret rs)) /\
  forall rs w', rtc (pstep_in is_ready) y (w', map Ret rs) ->
    rs = replicate threads (Some true) /\ total_errors w' = 0 /\ filled s pats w'.
Proof.
  intros OK Hn Ht He Hy. pose proof (PageStoreFacts.fine_store_laws (An := Answer) _ (page_length (cfg s)) Hn) as LAWS.
  pose proof (SearchFacts.fine_complete (An := Answer) _ (page_length (cfg s)) Hn) as COMP.
  split; [by apply (fill_no_failure s pats OK threads w)|]. split; [apply pstep_terminates|].
  split; [by apply (fill_join s pats OK sample_answer eq_refl threads w)|]. intros rs w' Hj.
  destruct (fill_joined s pats OK threads w rs w' Ht He) as (Hrs & Hc & Hz); [unfold joined; by etrans|].
  split; [done|]. split; [done|]. by eapply all_clean_filled.
Qed.

(** C11. From construction to the end of the test, with one lock per page and at most 2^26
    blocks, for runs without [--tag_mode] and without the deliberate errors of
    [--force_errors], whose blocks have a positive length below 2 GB, a multiple of 64 bytes,
    lie in test memory mapped in one piece, and have patterns with their right checksums: a
    queue as its constructor leaves it, a set-up that succeeds (at least one fill thread, and
    as many free blocks as the options ask for), then any check, copy and invert threads in
    any interleaving while words of valid blocks at rest go bad, at most one at a time in each
    4096-byte piece.  No assertion fails, no error is counted that was not there, and
    at the end every fault has been counted once or is still in a valid block. *)
Theorem setup_then_test s pats opts o heap (w0 : @Shared FineLockPEQueue) r st k fuel jobs F w ths :
  settings_ok s pats -> init_ok s pats opts o w0 -> 1 <= pages s <= 2 ^ 26 -> Z.of_nat (length heap) = pages s ->
  new_fine (pages s) (page_length (cfg s)) heap = Some (store w0) ->
  InitializePages s o w0 (Split r) st -> Forall (fun j => job_worker j < k)%nat jobs ->
  run s pats F (new_workers s k (shared st), map (work s fuel) jobs) (w, ths) ->
  no_failure (w, ths) /\
  exists V E H P, rep (pages s) (page_length (cfg s)) (store w) V E H P /\
    total_errors w + errors_left s pats w V <= F /\
    (Forall finished ths -> H = [] /\ P = [] /\ total_errors w + errors_left s pats w V = F).
Proof.
  intros OK [H1 [H2 H2'] H3 H4] Hn Hh Hq Hi Hj Hrun. assert (Hn1 : 1 <= pages s) by lia. destruct (so_len _ _ OK) as [Hl _].
  pose proof (PageStoreFacts.fine_store_laws (An := Answer) _ (page_length (cfg s)) Hn1) as LAWS.
  pose proof (SearchFacts.fine_complete (An := Answer) _ (page_length (cfg s)) Hn1) as COMP.
  assert (Hf : 0 <= freepages_ o <= pages s) by (apply (split_target_bounds opts); [lia | done | done]).
  destruct (InitializePages_ok s pats OK o H1 Hf w0 (Split r) st) as [Hok _]; [|done|].
  { split; [|done]. by apply (new_fine_rep _ _ heap); [done | lia|..]. }
  destruct (split_ready s pats OK o k (shared st) Hok) as (V0 & E0 & Hr & _).
  destruct (accounting_from s pats k OK 0 F _ _ _ _ _ _ _ Hr Hj Hrun) as (Hno & V & E & H & P & Hrep & Hle & Hend).
  split; [done|]. exists V, E, H, P. split; [done|]. split; [done|]. intros Hfin.
  destruct (Hend Hfin) as (-> & -> & Hend'). split; [done|]. split; [done|]. apply Hend'.
Qed.

(** [--verify-after-fill] with the coarse-lock queues: if words went bad since the
    fill, at most one in each 4096-byte piece, the check succeeds, counts each of them
    exactly once and leaves all blocks valid with their patterns. *)
Theorem post_fill_check_exact s pats (st : @Setup OneLock) V b st' :
  settings_ok s pats -> list_ok pats (patternlist_ (shared st)) -> mem_ok s (memory (shared st)) ->
  rep (pages s) (page_length (cfg s)) (store (shared st)) V [] [] [] -> Forall untagged V ->
  Forall (entry_ok s pats (memory (shared st))) V ->
  stop_on_error (cfg s) = false -> error_stop_requested_ (shared st) = false ->
  PostFillCheck s st b st' ->
  b = true /\
  initialization_errorcount_ st' = initialization_errorcount_ st + errors_left s pats (shared st) V /\
  filled s pats (shared st').
Proof.
  intros OK. pose proof (so_pages _ _ OK) as Hn0.
  pose proof (PageStoreFacts.one_store_laws (An := Answer) _ (page_length (cfg s)) Hn0) as LAWS.
  pose proof (SearchFacts.one_complete (An := Answer) _ (page_length (cfg s)) Hn0) as COMP.
  pose proof (one_init_laws _ (page_length (cfg s)) Hn0) as ILAWS. by apply post_fill_exact.
Qed.

(** *** Ten blocks, filled with ones, then by three threads *)

Definition init_settings : Settings :=
  let os := OsLayer.mkOs 0 0 1 1 4 [0] [false] None 0 0 4096 640 false in
  mkSettings (mkConfig 64 FILL_DIRECTION_UP 0 false false 4096 8 10
                (mkWorld (fun _ _ => 800) (fun _ => 0) (fun _ => 1) os 4096 (fun _ => None)) None)
    10 false true false true true 1 FILL_PRESET_ONE true false false Invert.INVERT_RANGE_FULL None.
Definition init_options : InitOptions := mkInitOptions 3 (Some 4096) true 4 null_pe.
Definition init_opts (queue : Z) : Options.Sat :=
  fold_left (fun o '(m, v) => Options.set o m v)
    [("memory_threads_", 2); ("net_threads_", 0); ("file_threads_", 0); ("pe_q_implementation_", queue)] Options.new_Sat.
Definition init_shared {Q} (q : Q) : @Shared Q := set_memory (sample_shared q) (replicate 80 5).

Lemma init_settings_ok : settings_ok init_settings sample_pats.
Proof.
  split; [done | done | by cbn | by cbn | by cbn | by cbn | by cbn |].
  split; [|by cbn]. constructor; [apply sample_good | constructor].
Qed.

Lemma sample_list_ok : list_ok sample_pats (Patterns.mkPatternList sample_pats 5 1 1 [0] 0 0).
Proof. split; [|done]. exact (st_patterns _ _ _ _ (sample_start _ _ sample_one_rep)). Qed.

Lemma init_sample_ok {Q} queue (q : Q) :
  split_target (init_opts queue) 10 = Some 4 -> 0 <= neededpages (init_opts queue) ->
  init_ok init_settings sample_pats (init_opts queue) init_options (init_shared q).
Proof.
  intros H1 H2. split; [cbn; lia | done | apply sample_list_ok|].
  split; [apply Forall_replicate; lia | by cbn].
Qed.

Definition init_fine : FineLockPEQueue :=
  match new_fine 10 64 (replicate 10 null_pe) with Some q => q | None => sample_fine end.
Definition init_one : OneLock := new_one 10 (replicate 11 null_pe) (replicate 11 null_pe).

Lemma init_fine_start : start_state init_settings sample_pats (init_shared init_fine).
Proof.
  split; [by apply (new_fine_rep 10 64 (replicate 10 null_pe)); [lia | lia | |vm_compute] |].
  split; [apply sample_list_ok|]. split; [apply Forall_replicate; lia | by cbn].
Qed.

Lemma init_one_start : start_state init_settings sample_pats (init_shared init_one).
Proof.
  split; [by apply (new_one_rep 10 64); [lia|..] |].
  split; [apply sample_list_ok|]. split; [apply Forall_replicate; lia | by cbn].
Qed.

Lemma init_fine_run : exists r st, InitializePages init_settings init_options (init_shared init_fine) (Split r) st.
Proof.
  apply (InitializePages_exists init_settings sample_pats (LAWS := PageStoreFacts.fine_store_laws 10 64 ltac:(lia))
    (COMP := SearchFacts.fine_complete 10 64 ltac:(lia)) init_settings_ok init_options ltac:(cbn; lia) ltac:(cbn; lia)
    sample_answer eq_refl), init_fine_start.
Qed.

Lemma init_one_run : exists r st, InitializePages init_settings init_options (init_shared init_one) (Split r) st.
Proof.
  apply (InitializePages_exists init_settings sample_pats (LAWS := PageStoreFacts.one_store_laws 10 64 ltac:(lia))
    (COMP := SearchFacts.one_complete 10 64 ltac:(lia)) (ILAWS := one_init_laws 10 64 ltac:(lia)) init_settings_ok
    init_options ltac:(cbn; lia) ltac:(cbn; lia) sample_answer eq_refl), init_one_start.
Qed.

Lemma initialize_pages_fine_witness :
  exists r st, InitializePages init_settings init_options (init_shared init_fine) (Split r) st /\
    initialization_errorcount_ st = 0.
Proof.
  destruct init_fine_run as (r & st & Hi). exists r, st. split; [exact Hi|].
  apply (initialize_pages_fine init_settings sample_pats (init_opts 1) init_options (replicate 10 null_pe)
    (init_shared init_fine) (Split r)); [apply init_settings_ok | apply init_sample_ok | | | | exact Hi];
    vm_compute; try reflexivity; try discriminate. split; discriminate.
Defined.

Lemma initialize_pages_one_witness :
  exists r st, InitializePages init_settings init_options (init_shared init_one) (Split r) st /\
    initialization_errorcount_ st = 0.
Proof.
  destruct init_one_run as (r & st & Hi). exists r, st. split; [exact Hi|].
  apply (initialize_pages_one init_settings sample_pats (init_opts 0) init_options (replicate 11 null_pe)
    (replicate 11 null_pe) (init_shared init_one) (Split r)); [apply init_settings_ok | apply init_sample_ok | | | | | exact Hi];
    vm_compute; try reflexivity; try discriminate.
Defined.

Lemma sample_all_empty : all_empty sample_settings sample_pats (sample_shared sample_fine).
Proof.
  split; [apply sample_list_ok|]. split; [split; [apply Forall_replicate; lia | by cbn]|].
  eexists. split; [eapply sample_fine_rep; vm_compute; reflexivity|]. vm_compute. by repeat constructor.
Qed.

Lemma fill_threads_join_witness :
  Acc (fun z' z => pstep z z') (new_workers sample_settings 2 (sample_shared sample_fine), fill_threads sample_settings false 2).
Proof.
  destruct (fill_threads_join sample_settings sample_pats 2 (sample_shared sample_fine)
    (new_workers sample_settings 2 (sample_shared sample_fine), fill_threads sample_settings false 2)) as (_ & Ha & _).
  - apply sample_settings_ok.
  - discriminate.
  - lia.
  - apply sample_all_empty.
  - apply rtc_refl.
  - exact Ha.
Defined.

Lemma setup_then_test_witness :
  exists r st, InitializePages init_settings init_options (init_shared init_fine) (Split r) st /\
    no_failure (new_workers init_settings 2 (shared st), map (work init_settings 3) [Copy 0 kDontCareTag; Check 1 "check"]).
Proof.
  destruct init_fine_run as (r & st & Hi). exists r, st. split; [exact Hi|].
  apply (setup_then_test init_settings sample_pats (init_opts 1) init_options (replicate 10 null_pe)
    (init_shared init_fine) r st 2 3 [Copy 0 kDontCareTag; Check 1 "check"] 0 _ _); [apply init_settings_ok | apply init_sample_ok | | | | exact Hi | |];
    [vm_compute; try reflexivity; try discriminate .. | repeat constructor; cbn; lia | apply run_start].
  split; discriminate.
Defined.

(** Two filled blocks, one with a wrong word. *)
Definition checked_one : option (bool * @Shared OneLock) :=
  Eval vm_compute in run_alone (PostFillCheckThread_Work sample_settings 0 2) (replicate 100 sample_answer)
    (new_workers sample_settings 1 (spoil sample_one_filled)).

Lemma sample_one_filled_rep :
  rep 2 64 (store sample_one_filled) (PageQueueFacts.contents (valid_ (store sample_one_filled))) [] [] [].
Proof.
  split; [split; [|split] | split; [|split] | |]; try (vm_compute; reflexivity);
    split; vm_compute; try reflexivity; try (split; (reflexivity || discriminate)).
Qed.

Lemma sample_entries_ok m :
  Forall (entry_ok sample_settings sample_pats m) (PageQueueFacts.contents (valid_ (store sample_one_filled))).
Proof.
  assert (H : forall pe, pattern pe = Some 0 -> entry_ok sample_settings sample_pats m pe).
  { intros pe Hpe. exists sample_pattern. rewrite Hpe. split; [reflexivity|]. intros b Hb.
    change (Z.to_nat (page_length (cfg sample_settings) / 4096)) with O in Hb. lia. }
  apply (Forall_impl (fun pe => pattern pe = Some 0)); [|exact H]. vm_compute. repeat constructor.
Qed.

Lemma post_fill_check_exact_witness :
  exists st', PostFillCheck sample_settings (mkSetup 0 (spoil sample_one_filled)) true st' /\ initialization_errorcount_ st' = 1.
Proof.
  destruct checked_one as [[b w']|] eqn:Hc; [|discriminate Hc].
  assert (Hp : PostFillCheck sample_settings (mkSetup 0 (spoil sample_one_filled)) b (mkSetup (0 + total_errors w') w')).
  { apply (post_fill_check sample_settings (mkSetup 0 (spoil sample_one_filled)) b w').
    exists (replicate 100 sample_answer). split; [by apply Forall_replicate|]. rewrite <- Hc. vm_compute. reflexivity. }
  destruct (post_fill_check_exact sample_settings sample_pats (mkSetup 0 (spoil sample_one_filled))
    (PageQueueFacts.contents (valid_ (store sample_one_filled))) b (mkSetup (0 + total_errors w') w'))
    as (Hb & He & _).
  - apply sample_settings_ok.
  - apply sample_list_ok.
  - split; [apply (bool_decide_unpack (Forall (fun x => 0 <= x < 2 ^ 64) _)); vm_compute; exact I | reflexivity].
  - exact sample_one_filled_rep.
  - vm_compute. by repeat constructor.
  - apply sample_entries_ok.
  - reflexivity.
  - reflexivity.
  - exact Hp.
  - subst b. eexists. split; [exact Hp|]. exact He.
Defined.

End InitializeFacts.
