(* ===== verification/CacheCoherency.v ===== *)
(** The cache coherency test: [CpuCacheCoherencyThread] of [src/src/worker.cc] and the part
    of [Sat::InitializeThreads] in [src/src/sat.cc] that allocates its counters.

    Each thread increments byte counters of its own that share cache lines with those of the
    other threads, and checks after a round that none of its increments was lost.  The
    threads are programs of [Program.v] that interleave at each access.  Reads go through a
    memory that may deviate from what was written; the deviations are recorded, together
    with the ends of the rounds, so that the error counts can be compared with them. *)

From S2P Require Import Prelude NumTheory Program.

Module CacheCoherency.
Import Program.
Local Open Scope prog_scope.

(** ** The random numbers *)

Definition kRandomPolynomial : Z := 0xD800000000000000.

Definition SimpleRandom (seed : Z) : Z :=
  Z.lxor (Z.shiftr seed 1) (Z.land (u64 (- Z.land seed 1)) kRandomPolynomial).

(** ** The counters *)

Definition kCacheLineSize : Z := 64.

(** [cc_cacheline_size_], or what the platform says. *)
Definition cc_line_size (cc_cacheline_size CacheLineSize : Z) : Z :=
  if cc_cacheline_size <=? 0 then if CacheLineSize <? kCacheLineSize then kCacheLineSize else CacheLineSize
  else cc_cacheline_size.

Record Layout := mkLayout { line_size : Z; num_cpus : Z; cc_cacheline_count_ : Z }.

(** [sizeof] makes the sum unsigned; the quotient is converted to [int]. *)
Definition needed_lines (y : Layout) : Z := s32 (u64 (num_cpus y + line_size y - 1) / line_size y).

(** [line_size * needed_lines], an [int] product. *)
Definition stride (y : Layout) : Z := s32 (line_size y * needed_lines y).

(** The counters of a line, as the distance of [cc_cacheline_data_[cline].num] from the
    start of the one allocation, and the size of that: an [int] product converted to [size_t]. *)
Definition line_num (y : Layout) (cline : Z) : Z := cline * stride y.
Definition chunk_size (y : Layout) : Z := u64 (s32 (stride y * cc_cacheline_count_ y)).

(** The bytes that [memset] clears; the others keep what they hold. *)
Definition cleared (y : Layout) : list Z :=
  flat_map (fun cline => zrange (line_num y cline) (Z.to_nat (num_cpus y))) (zrange 0 (Z.to_nat (cc_cacheline_count_ y))).

(** The allocation with its cleared counters.  [None]: there is no memory of that size and the
    assertion fails, or a byte behind the allocation is cleared. *)
Definition new_counters (y : Layout) : option (gmap Z Z) :=
  if 2 ^ 63 <=? chunk_size y then None
  else if forallb (fun a => (0 <=? a) && (a <? chunk_size y)) (cleared y)
  then Some (list_to_map (map (fun a => (a, 0)) (cleared y)))
  else None.

(** The byte of a thread in a line. *)
Definition cc_offset (cline_num cc_thread_num cc_thread_count : Z) : Z :=
  if negb (Z.land (Z.land cline_num cc_thread_num) 1 =? 0)
  then Z.land cc_thread_count (Z.lnot 1) - cc_thread_num
  else cc_thread_num.

(** ** The threads *)

(** What the memory did: a read of a thread gave its byte plus some deviation; and the end
    of a round. *)
Inductive Event := Deviates (t : nat) (by_ : Z) | Compared (t : nat).

Record World := mkWorld {
  counters : gmap Z Z; errorcounts : list Z; stop_requested : bool; history : list Event
}.

(** [IsReadyToRun], and what a read adds. *)
Record Answer := mkAnswer { ready : bool; deviation : Z }.

Definition set_counter (w : World) (a v : Z) : World :=
  mkWorld (<[a := v]> (counters w)) (errorcounts w) (stop_requested w) (history w).
Definition add_event (w : World) (e : Event) : World :=
  mkWorld (counters w) (errorcounts w) (stop_requested w) (e :: history w).

Section Thread.
Context (to_char : Z -> Z) (y : Layout) (cc_inc_count : Z) (error_injection stop_on_error : bool) (t : nat).
Abbreviation P := (Prog Answer World).

Definition address (cline_num : Z) : Z := line_num y cline_num + cc_offset cline_num (Z.of_nat t) (num_cpus y).

(** Reads and writes outside the cleared bytes fail. *)
Definition read_counter (a : Z) : P Z :=
  act (fun an w => v ← counters w !! a; Some (to_char (v + deviation an), add_event w (Deviates t (deviation an)))).
Definition write_counter (a v : Z) : P unit :=
  act (fun _ w => _ ← counters w !! a; Some (tt, set_counter w a v)).

(** [r % cc_cacheline_count_]. *)
Definition choose_line (r : Z) : P Z :=
  act (fun _ w => if cc_cacheline_count_ y =? 0 then None else Some (r mod u64 (cc_cacheline_count_ y), w)).

Fixpoint increments (n : nat) (r : Z) : P Z :=
  match n with
  | O => Ret r
  | S n' =>
      let r := SimpleRandom r in
      cline_num <- choose_line r ;;
      v <- read_counter (address cline_num) ;;
      write_counter (address cline_num) (to_char (v + 1)) ;;
      increments n' r
  end.

Fixpoint collect (clines : list Z) (cc_global_num : Z) : P Z :=
  match clines with
  | [] => Ret cc_global_num
  | cline_num :: rest =>
      v <- read_counter (address cline_num) ;;
      write_counter (address cline_num) 0 ;;
      collect rest (s32 (cc_global_num + v))
  end.

(** The comparison as bytes, with what a mismatch does. *)
Definition compare (cc_global_num : Z) : P unit :=
  let cc_global_num := if error_injection then -1 else cc_global_num in
  modify (fun _ w =>
    add_event
      (if negb (Z.land cc_global_num 0xff =? Z.land cc_inc_count 0xff)
       then mkWorld (counters w) (alter (fun e => e + 1) t (errorcounts w)) (stop_requested w || stop_on_error) (history w)
       else w)
      (Compared t)).

Definition round (r : Z) : P Z :=
  r <- increments (Z.to_nat cc_inc_count) r ;;
  cc_global_num <- collect (zrange 0 (Z.to_nat (cc_cacheline_count_ y))) 0 ;;
  compare cc_global_num ;;
  Ret r.

(** [r] starts as two random numbers. *)
Definition Work (fuel : nat) (r : Z) : P (option bool) :=
  loop fuel (fun r =>
    ready <- ask ready ;;
    if negb ready then Ret (inr true)
    else stop <- get stop_requested ;;
         if stop then Ret (inr true) else r <- round r ;; Ret (inl r)) r.
End Thread.

(** With the counters [m]. *)
Definition start (y : Layout) (m : gmap Z Z) : World :=
  mkWorld m (replicate (Z.to_nat (num_cpus y)) 0) false [].

(** One thread for each CPU. *)
Definition threads (to_char : Z -> Z) (y : Layout) (cc_inc_count : Z) (error_injection stop_on_error : bool) (fuel : nat)
    (seeds : list Z) : list (Prog Answer World (option bool)) :=
  imap (fun t r => Work to_char y cc_inc_count error_injection stop_on_error t fuel r) (take (Z.to_nat (num_cpus y)) seeds).

(** *** What the counts should be *)

(** The sum of the deviations a thread has seen in its present round. *)
Fixpoint present (t : nat) (h : list Event) : Z :=
  match h with
  | [] => 0
  | Deviates t' d :: h => if decide (t = t') then present t h + d else present t h
  | Compared t' :: h => if decide (t = t') then 0 else present t h
  end.

(** Whether a round ends with a mismatch: its deviations do not cancel modulo 256, or, with
    error injection, the increments do not end with -1. *)
Definition round_fails (cc_inc_count : Z) (error_injection : bool) (deviations : Z) : bool :=
  if error_injection then negb (cc_inc_count mod 256 =? 255) else negb (deviations mod 256 =? 0).

(** The rounds of a thread that end with a mismatch. *)
Fixpoint bad_rounds (cc_inc_count : Z) (error_injection : bool) (t : nat) (h : list Event) : Z :=
  match h with
  | [] => 0
  | Deviates _ _ :: h => bad_rounds cc_inc_count error_injection t h
  | Compared t' :: h =>
      if decide (t = t')
      then bad_rounds cc_inc_count error_injection t h + Z.b2z (round_fails cc_inc_count error_injection (present t h))
      else bad_rounds cc_inc_count error_injection t h
  end.
End CacheCoherency.

Module CacheCoherencyFacts.
Import Program ProgramFacts CacheCoherency.
Local Open Scope prog_scope.

(** ** The bytes of the threads are distinct *)

Record layout_ok (y : Layout) : Prop := {
  lo_line : 0 < line_size y; lo_cpus : 0 < num_cpus y; lo_sum : num_cpus y + line_size y <= 2 ^ 31;
  lo_count : 0 < cc_cacheline_count_ y < 2 ^ 31
}.

Lemma land_1 x : Z.land x 1 = Z.b2z (Z.odd x).
Proof.
  pose proof (Z.land_ones x 1 ltac:(lia)) as H. change (Z.ones 1) with 1 in H. change (2 ^ 1) with 2 in H.
  rewrite H, Zmod_odd. by destruct (Z.odd x).
Qed.

Lemma land_even n : Z.land n (Z.lnot 1) = n - Z.b2z (Z.odd n).
Proof.
  pose proof (Z.ldiff_ones_r n 1 ltac:(lia)) as H. change (Z.ones 1) with 1 in H.
  rewrite Z.shiftl_mul_pow2, Z.shiftr_div_pow2 in H by lia. change (2 ^ 1) with 2 in H.
  rewrite <- Z.ldiff_land, H. pose proof (Z.div_mod n 2 ltac:(lia)) as K. rewrite Zmod_odd in K.
  destruct (Z.odd n); cbn [Z.b2z]; lia.
Qed.

Lemma cc_offset_eq cline t n :
  cc_offset cline t n = if Z.odd cline && Z.odd t then n - Z.b2z (Z.odd n) - t else t.
Proof.
  unfold cc_offset. rewrite land_1, land_even.
  assert (H : Z.odd (Z.land cline t) = Z.odd cline && Z.odd t) by (rewrite <- !Z.bit0_odd; apply Z.land_spec).
  rewrite H. by destruct (_ && _).
Qed.

Lemma cc_offset_range cline t n : 0 <= t < n -> 0 <= cc_offset cline t n < n.
Proof.
  intros Ht. rewrite cc_offset_eq. destruct (Z.odd cline); cbn [andb]; [|lia].
  destruct (Z.odd t) eqn:Hodd; [|lia]. rewrite Zodd_bool_iff in Hodd. apply Zodd_ex in Hodd as [k ->].
  destruct (Z.odd n) eqn:Hn; cbn [Z.b2z]; [|lia].
  rewrite Zodd_bool_iff in Hn. apply Zodd_ex in Hn as [m ->]. lia.
Qed.

Lemma cc_offset_inj cline t t' n :
  0 <= t < n -> 0 <= t' < n -> cc_offset cline t n = cc_offset cline t' n -> t = t'.
Proof.
  intros Ht Ht'. rewrite !cc_offset_eq. destruct (Z.odd cline); cbn [andb]; [|done].
  assert (He : Z.odd (n - Z.b2z (Z.odd n)) = false).
  { rewrite Z.odd_sub. by destruct (Z.odd n). }
  destruct (Z.odd t) eqn:H1, (Z.odd t') eqn:H2; intros H; [lia| | |done].
  - assert (K : Z.odd (n - Z.b2z (Z.odd n) - t) = true) by (by rewrite Z.odd_sub, He, H1). congruence.
  - assert (K : Z.odd (n - Z.b2z (Z.odd n) - t') = true) by (by rewrite Z.odd_sub, He, H2). congruence.
Qed.

(** Numbers that agree modulo 256. *)
Lemma mod_256 a b : a mod 256 = b mod 256 <-> exists k, a = b + 256 * k.
Proof.
  split.
  - intros H. exists (a / 256 - b / 256). pose proof (Z.div_mod a 256 ltac:(lia)). pose proof (Z.div_mod b 256 ltac:(lia)).
    lia.
  - intros [k ->]. rewrite Z.mul_comm. apply Z_mod_plus_full.
Qed.

Section Facts.
Context (y : Layout) (Hy : layout_ok y) (inc : Z) (error_injection : bool).

Lemma needed_lines_eq :
  needed_lines y = (num_cpus y + line_size y - 1) / line_size y /\ 0 < needed_lines y /\
  line_size y * needed_lines y <= num_cpus y + line_size y - 1.
Proof using Hy.
  destruct Hy as [H1 H2 H3 H4]. unfold needed_lines. rewrite u64_id by lia.
  pose proof (Z.div_mod (num_cpus y + line_size y - 1) (line_size y) ltac:(lia)).
  pose proof (Z.mod_pos_bound (num_cpus y + line_size y - 1) (line_size y) H1).
  assert (Hq : 1 <= (num_cpus y + line_size y - 1) / line_size y) by (apply Z.div_le_lower_bound; lia).
  rewrite s32_id by nia. lia.
Qed.

Lemma stride_eq : stride y = line_size y * needed_lines y.
Proof using Hy. destruct needed_lines_eq as (_ & H1 & H2). destruct Hy as [? ? ? ?]. unfold stride. apply s32_id. nia. Qed.

(** A line of counters fits in its cache lines. *)
Lemma line_fits : num_cpus y <= stride y < 2 ^ 31.
Proof using Hy.
  rewrite stride_eq. destruct needed_lines_eq as (He & H4 & H5). destruct Hy as [H1 H2 H3 H6]. split; [|lia]. rewrite He.
  pose proof (Z.div_mod (num_cpus y + line_size y - 1) (line_size y) ltac:(lia)).
  pose proof (Z.mod_pos_bound (num_cpus y + line_size y - 1) (line_size y) H1). lia.
Qed.

Lemma line_num_inj l l' k k' :
  0 <= k < num_cpus y -> 0 <= k' < num_cpus y -> line_num y l + k = line_num y l' + k' -> l = l' /\ k = k'.
Proof using Hy.
  intros Hk Hk' H. pose proof line_fits as Hf. unfold line_num in H. set (s := stride y) in *.
  assert (l = l') by nia. subst. lia.
Qed.

Lemma elem_of_cleared a :
  a ∈ cleared y <-> exists l k, a = line_num y l + k /\ 0 <= l < cc_cacheline_count_ y /\ 0 <= k < num_cpus y.
Proof using Hy.
  destruct Hy as [H1 H2 H3 H4]. unfold cleared. rewrite list_elem_of_In, in_flat_map. split.
  - intros (l & Hl & Ha). apply list_elem_of_In, elem_of_zrange in Hl, Ha. exists l, (a - line_num y l). lia.
  - intros (l & k & -> & Hl & Hk). exists l. split; apply list_elem_of_In, elem_of_zrange; lia.
Qed.

(** The set-up succeeds exactly when the size of the counters is an [int]. *)
Lemma new_counters_Some : is_Some (new_counters y) <-> stride y * cc_cacheline_count_ y < 2 ^ 31.
Proof using Hy.
  pose proof line_fits as Hf. destruct Hy as [H1 H2 H3 H4]. unfold new_counters, chunk_size.
  set (n := stride y * cc_cacheline_count_ y). set (last := line_num y (cc_cacheline_count_ y - 1) + (num_cpus y - 1)).
  assert (Hn : n - stride y <= last < n) by (unfold last, line_num, n; lia). assert (Hpos : stride y <= n) by (unfold n; nia).
  assert (Hlast : last ∈ cleared y) by (apply elem_of_cleared; eexists _, _; split; [done|lia]).
  destruct (Z.lt_ge_cases n (2 ^ 31)) as [Hlt|Hge].
  - rewrite s32_id, u64_id by lia. rewrite (proj2 (Z.leb_gt _ _)) by lia.
    rewrite (proj2 (forallb_forall _ _)); [split; [done | by eexists]|].
    intros a (l & k & -> & Hl & Hk)%list_elem_of_In%elem_of_cleared. unfold line_num, n.
    rewrite (proj2 (Z.leb_le _ _)), (proj2 (Z.ltb_lt _ _)) by nia. done.
  - split; [|lia]. destruct (Z.leb_spec (2 ^ 63) (u64 (s32 n))) as [|Hsize]; [by intros [? ?]|].
    assert (Hs : 0 <= s32 n /\ s32 n <= n - 2 ^ 32).
    { unfold s32, u64 in *. pose proof (Z.div_mod (n + 2 ^ 31) (2 ^ 32) ltac:(lia)).
      pose proof (Z.mod_pos_bound (n + 2 ^ 31) (2 ^ 32) ltac:(lia)).
      assert (Hq : 1 <= (n + 2 ^ 31) / 2 ^ 32) by (apply Z.div_le_lower_bound; lia).
      set (x := (n + 2 ^ 31) mod 2 ^ 32 - 2 ^ 31) in *. split; [|lia].
      destruct (Z.lt_ge_cases x 0) as [Hx|]; [|done]. exfalso.
      rewrite <- (Z_mod_plus_full x 1 (2 ^ 64)), Z.mod_small in Hsize by lia. lia. }
    pose proof (s32_bound n). rewrite u64_id by lia. rewrite (proj1 (not_true_iff_false (forallb _ _))); [by intros [? ?]|].
    intros Hall. rewrite forallb_forall in Hall. specialize (Hall last (proj1 (list_elem_of_In _ _) Hlast)).
    apply andb_true_iff in Hall as [_ Hall%Z.ltb_lt]. lia.
Qed.

Lemma new_counter m l k :
  new_counters y = Some m -> 0 <= l < cc_cacheline_count_ y -> 0 <= k < num_cpus y -> m !! (line_num y l + k) = Some 0.
Proof using Hy.
  intros Hm Hl Hk. unfold new_counters in Hm. destruct (_ <=? _); [done|]. destruct (forallb _ _); [|done]. injection Hm as <-.
  assert (Hin : line_num y l + k ∈ cleared y) by (apply elem_of_cleared; by exists l, k).
  revert Hin. generalize (cleared y). intros c. induction c as [|a c IH]; intros Hin; [by apply elem_of_nil in Hin|].
  cbn. destruct (decide (a = line_num y l + k)) as [->|Hne]; [apply lookup_insert_eq|].
  rewrite lookup_insert_ne by done. apply IH. apply elem_of_cons in Hin as [?|?]; [congruence|done].
Qed.

(** ** The counts are right *)

(** What a thread owns: the values of its bytes, by line, and the deviation of its round. *)
Record Own := mkOwn { o_thread : nat; o_value : Z -> Z; o_present : Z }.

Definition lines : list Z := zrange 0 (Z.to_nat (cc_cacheline_count_ y)).
Definition is_line (l : Z) : Prop := 0 <= l < cc_cacheline_count_ y.

Definition owned (w : World) (o : Own) : Prop :=
  Z.of_nat (o_thread o) < num_cpus y /\ present (o_thread o) (history w) = o_present o /\
  forall l, is_line l -> counters w !! address y (o_thread o) l = Some (o_value o l).

Record Inv (u : unit) (w : World) (R : list Own) : Prop := {
  in_nodup : NoDup (map o_thread R);
  in_owned : Forall (owned w) R;
  in_counts : forall t, (t < Z.to_nat (num_cpus y))%nat -> errorcounts w !! t = Some (bad_rounds inc error_injection t (history w))
}.

#[local] Instance Inv_proper x w : Proper (Permutation ==> iff) (Inv x w).
Proof.
  intros R R' HR. split; intros [H1 H2 H3]; split; try done.
  - by rewrite <- HR.
  - by rewrite <- HR.
  - by rewrite HR.
  - by rewrite HR.
Qed.

Lemma address_inj t t' l l' :
  Z.of_nat t < num_cpus y -> Z.of_nat t' < num_cpus y -> address y t l = address y t' l' -> t = t' /\ l = l'.
Proof using Hy.
  intros Ht Ht' H. apply line_num_inj in H as [-> H]; [|by apply cc_offset_range; lia..].
  split; [|done]. apply cc_offset_inj in H; lia.
Qed.

(** The thread that owns [o] changes its part of the state. *)
Lemma Inv_update u w w' o o' R :
  Inv u w (o :: R) -> o_thread o' = o_thread o -> owned w' o' ->
  (forall p, p ∈ R -> o_thread p <> o_thread o -> owned w p -> owned w' p) ->
  (forall t, (t < Z.to_nat (num_cpus y))%nat -> errorcounts w !! t = Some (bad_rounds inc error_injection t (history w)) ->
     errorcounts w' !! t = Some (bad_rounds inc error_injection t (history w'))) ->
  Inv u w' (o' :: R).
Proof.
  intros [H1 H2 H3] Ho Hw Hother Hc. apply Forall_cons in H2 as [_ H2].
  cbn in H1. apply NoDup_cons in H1 as [Hn H1]. split.
  - cbn. rewrite Ho. by apply NoDup_cons.
  - apply Forall_cons. split; [done|]. rewrite Forall_forall in *. intros p Hp. apply Hother; [done| |by apply H2].
    intros He. apply Hn. rewrite <- He. by apply list_elem_of_fmap_2.
  - intros t Ht. by apply Hc, H3.
Qed.

Context (to_char : Z -> Z) (Hchar : forall x, to_char x mod 256 = x mod 256).
Context (Hinc : 0 <= inc) (stop_on_error : bool).

Definition upd (f : Z -> Z) (l v : Z) : Z -> Z := fun l' => if decide (l' = l) then v else f l'.
Fixpoint total (ls : list Z) (f : Z -> Z) : Z := match ls with [] => 0 | l :: ls => f l + total ls f end.

Lemma total_notin ls f l v : l ∉ ls -> total ls (upd f l v) = total ls f.
Proof.
  induction ls as [|a ls IH]; intros H; [done|]. cbn. apply not_elem_of_cons in H as [H1 H2].
  rewrite IH by done. unfold upd at 1. by rewrite decide_False.
Qed.

Lemma total_upd ls f l v : NoDup ls -> l ∈ ls -> total ls (upd f l v) = total ls f - f l + v.
Proof.
  induction ls as [|a ls IH]; intros Hn Hl; [by apply elem_of_nil in Hl|]. apply NoDup_cons in Hn as [Ha Hn].
  cbn. destruct (decide (a = l)) as [->|Hne].
  - rewrite total_notin by done. unfold upd. rewrite decide_True by done. lia.
  - apply elem_of_cons in Hl as [->|Hl]; [done|]. rewrite IH by done. unfold upd at 1. rewrite decide_False by done. lia.
Qed.

Lemma is_line_in l : is_line l -> l ∈ lines.
Proof. intros Hl. apply elem_of_zrange. unfold is_line in Hl. lia. Qed.

Section Body.
Context (t : nat).

Lemma safe_read l f d (Q : Z -> list Own -> Prop) :
  is_line l -> (forall by_, Q (to_char (f l + by_)) [mkOwn t f (d + by_)]) ->
  safe Inv (read_counter to_char t (address y t l)) [mkOwn t f d] Q.
Proof.
  intros Hl HQ. apply safe_act. intros u w R an Hi. pose proof (in_owned _ _ _ Hi) as Ho.
  apply Forall_cons in Ho as [(Ho1 & Ho2 & Ho3) _]. cbn [o_thread o_present o_value] in *.
  rewrite Ho3 by done. eexists _, _, _. split; [done|]. split; [|by apply HQ]. cbn [app].
  apply (Inv_update u w _ (mkOwn t f d)); [done|done| | |].
  - split; [done|]. split; [|done]. cbn. rewrite decide_True by done. lia.
  - intros p _ Hp (P1 & P2 & P3). split; [done|]. split; [|done]. cbn. by rewrite decide_False.
  - intros t' Ht' H. done.
Qed.

Lemma safe_write l v f d (Q : unit -> list Own -> Prop) :
  is_line l -> Q tt [mkOwn t (upd f l v) d] ->
  safe Inv (write_counter (address y t l) v) [mkOwn t f d] Q.
Proof using Hy.
  intros Hl HQ. apply safe_act. intros u w R an Hi. pose proof (in_owned _ _ _ Hi) as Ho.
  apply Forall_cons in Ho as [(Ho1 & Ho2 & Ho3) _]. cbn [o_thread o_present o_value] in *.
  rewrite Ho3 by done. eexists _, _, _. split; [done|]. split; [|exact HQ]. cbn [app].
  apply (Inv_update u w _ (mkOwn t f d)); [done|done| | |].
  - split; [done|]. split; [done|]. cbn. intros l' Hl'. unfold upd. case_decide as He.
    + subst. apply lookup_insert_eq.
    + rewrite lookup_insert_ne; [by apply Ho3|]. intros H. by apply address_inj in H as [_ ->].
  - intros p _ Hp (P1 & P2 & P3). split; [done|]. split; [done|]. intros l' Hl'. cbn. rewrite lookup_insert_ne.
    + by apply P3.
    + intros H. apply address_inj in H as [H _]; [by symmetry in H|done|done].
  - intros t' Ht' H. done.
Qed.

Definition counts (f : Z -> Z) (i d : Z) : Prop := total lines f mod 256 = (i + d) mod 256.

Lemma counts_step f i d l by_ :
  is_line l -> counts f i d -> counts (upd f l (to_char (to_char (f l + by_) + 1))) (i + 1) (d + by_).
Proof using Hchar.
  intros Hl H. unfold counts in *. rewrite total_upd by (apply NoDup_zrange || by apply is_line_in).
  destruct (proj1 (mod_256 _ _) H) as [k ->]. destruct (proj1 (mod_256 _ _) (Hchar (f l + by_))) as [k1 E1].
  destruct (proj1 (mod_256 _ _) (Hchar (to_char (f l + by_) + 1))) as [k2 ->]. rewrite E1.
  apply mod_256. exists (k + k1 + k2). lia.
Qed.

Lemma safe_increments n r i f d (Q : Z -> list Own -> Prop) :
  counts f i d -> (forall r f' d', counts f' (i + Z.of_nat n) d' -> Q r [mkOwn t f' d']) ->
  safe Inv (increments to_char y t n r) [mkOwn t f d] Q.
Proof using Hy Hchar.
  destruct Hy as [H1 H2 H3].
  revert r i f d. induction n as [|n IH]; intros r i f d Hc HQ.
  - apply HQ. cbn [Z.of_nat]. by rewrite Z.add_0_r.
  - cbn [increments]. apply safe_bind. unfold choose_line. apply safe_act. intros u w R an Hi.
    destruct (Z.eqb_spec (cc_cacheline_count_ y) 0); [lia|]. eexists _, _, _. split; [done|]. split; [exact Hi|].
    rewrite u64_id by lia. set (l := SimpleRandom r mod cc_cacheline_count_ y).
    assert (Hl : is_line l) by (apply Z.mod_pos_bound; lia).
    apply safe_bind, safe_read; [done|]. intros by_. apply safe_bind, safe_write; [done|].
    apply (IH _ (i + 1)); [by apply counts_step|]. intros r' f' d' Hf'. apply HQ.
    replace (i + Z.of_nat (S n)) with (i + 1 + Z.of_nat n) by lia. done.
Qed.

Lemma s32_mod x : s32 x mod 256 = x mod 256.
Proof.
  unfold s32. set (k := x + 2 ^ 31). pose proof (Z.div_mod k (2 ^ 32) ltac:(lia)) as H.
  replace (k mod 2 ^ 32 - 2 ^ 31) with (x + (- (k / 2 ^ 32) * 2 ^ 24) * 256) by lia. apply Z_mod_plus_full.
Qed.

(** [ls] is still to collect. *)
Lemma safe_collect ls acc f d (Q : Z -> list Own -> Prop) :
  NoDup ls -> Forall is_line ls -> (acc + total ls f) mod 256 = (inc + d) mod 256 ->
  (forall l, is_line l -> l ∉ ls -> f l = 0) ->
  (forall acc f' d', acc mod 256 = (inc + d') mod 256 -> (forall l, is_line l -> f' l = 0) -> Q acc [mkOwn t f' d']) ->
  safe Inv (collect to_char y t ls acc) [mkOwn t f d] Q.
Proof using Hy Hchar.
  revert acc f d. induction ls as [|l ls IH]; intros acc f d Hn Hls Hc Hz HQ.
  - apply HQ; [by rewrite Z.add_0_r in Hc|]. intros l Hl. apply Hz; [done|]. apply not_elem_of_nil.
  - apply Forall_cons in Hls as [Hl Hls]. apply NoDup_cons in Hn as [Hnl Hn]. cbn [collect].
    apply safe_bind, safe_read; [done|]. intros by_. apply safe_bind, safe_write; [done|].
    apply IH; [done|done| | |done].
    + rewrite total_notin by done. cbn [total] in Hc.
      destruct (proj1 (mod_256 _ _) Hc) as [k Ek]. destruct (proj1 (mod_256 _ _) (Hchar (f l + by_))) as [k1 ->].
      destruct (proj1 (mod_256 _ _) (s32_mod (acc + (f l + by_ + 256 * k1)))) as [k2 ->].
      apply mod_256. exists (k + k1 + k2). lia.
    + intros l' Hl' Hnot. unfold upd. case_decide as He; [done|]. apply Hz; [done|].
      intros [->|?]%elem_of_cons; done.
Qed.

Lemma land_ff x : Z.land x 0xff = x mod 256.
Proof. change 0xff with (Z.ones 8). by rewrite Z.land_ones. Qed.

(** The test of [compare], by the deviations of the round. *)
Lemma compare_fails acc d :
  acc mod 256 = (inc + d) mod 256 ->
  negb ((if error_injection then -1 else acc) mod 256 =? inc mod 256) = round_fails inc error_injection d.
Proof.
  intros Hacc. unfold round_fails. destruct error_injection; f_equal; [change (-1 mod 256) with 255; apply Z.eqb_sym|].
  rewrite Hacc. apply eq_true_iff_eq. rewrite !Z.eqb_eq, mod_256. split.
  - intros [k Hk]. replace d with (k * 256) by lia. apply Z_mod_mult.
  - intros H. exists (d / 256). pose proof (Z.div_mod d 256 ltac:(lia)). lia.
Qed.

Lemma safe_compare acc f d (Q : unit -> list Own -> Prop) :
  acc mod 256 = (inc + d) mod 256 -> Q tt [mkOwn t f 0] ->
  safe Inv (compare inc error_injection stop_on_error t acc) [mkOwn t f d] Q.
Proof.
  intros Hacc HQ. unfold compare, modify. apply safe_act. intros u w R an Hi.
  eexists _, _, _. split; [done|]. split; [|exact HQ]. cbn [app]. rewrite !land_ff.
  pose proof (in_owned _ _ _ Hi) as Ho. apply Forall_cons in Ho as [(Ho1 & Ho2 & Ho3) _]. cbn in Ho1, Ho2, Ho3.
  rewrite (compare_fails acc d Hacc). apply (Inv_update u w _ (mkOwn t f d)); [done|done| | |].
  - split; [done|]. destruct (round_fails _ _ _); cbn; (split; [by rewrite decide_True|done]).
  - intros p _ Hp (P1 & P2 & P3). cbn in Hp. split; [done|].
    destruct (round_fails _ _ _); cbn; (split; [by rewrite decide_False|done]).
  - intros t' Ht' H. destruct (decide (t' = t)) as [->|Hne].
    + destruct (round_fails inc error_injection d) eqn:E; cbn; rewrite decide_True, Ho2, E by done; cbn [Z.b2z].
      * by rewrite list_lookup_alter_eq, H.
      * by rewrite Z.add_0_r.
    + destruct (round_fails _ _ _); cbn; rewrite decide_False by done; [|done]. by rewrite list_lookup_alter_ne by done.
Qed.

Definition fresh (l : list Own) : Prop := exists f, l = [mkOwn t f 0] /\ forall l, is_line l -> f l = 0.

Lemma total_all_zero ls f : (forall l, l ∈ ls -> f l = 0) -> total ls f = 0.
Proof. induction ls as [|a ls IH]; intros H; [done|]. cbn. rewrite IH, H; set_solver. Qed.

Lemma safe_round r l (Q : Z -> list Own -> Prop) :
  fresh l -> (forall r l', fresh l' -> Q r l') -> safe Inv (round to_char y inc error_injection stop_on_error t r) l Q.
Proof using Hy Hchar Hinc.
  intros (f & -> & Hf) HQ. unfold round.
  assert (Hlines : forall l, l ∈ lines -> is_line l).
  { intros l Hl. apply elem_of_zrange in Hl. unfold is_line. lia. }
  apply safe_bind, (safe_increments _ _ 0).
  { unfold counts. rewrite total_all_zero; [done|]. auto. }
  intros r' f' d' Hc. apply safe_bind, safe_collect.
  - apply NoDup_zrange.
  - by apply Forall_forall.
  - unfold counts in Hc. fold lines. rewrite Z.add_0_l in *. rewrite Hc. f_equal. lia.
  - intros l Hl Hn. by apply is_line_in in Hl.
  - intros acc f'' d'' Hacc Hz. apply safe_bind, (safe_compare _ _ d''); [done|]. apply HQ. by exists f''.
Qed.

Lemma safe_Work fuel r l :
  fresh l -> safe Inv (Work to_char y inc error_injection stop_on_error t fuel r) l (fun _ _ => True).
Proof using Hy Hchar Hinc.
  intros Hl. unfold Work. apply (safe_loop Inv _ _ _ _ (fun _ l => fresh l)); [|done|done].
  intros s l' Hl'. apply safe_bind, safe_ask. intros an. destruct (ready an); cbn [negb]; [|done].
  apply safe_bind, safe_get. intros w. destruct (stop_requested w); [done|].
  apply safe_bind, safe_round; [done|]. intros r' l'' Hl''. exact Hl''.
Qed.
End Body.

Lemma start_owned m k : new_counters y = Some m -> (k <= Z.to_nat (num_cpus y))%nat ->
  Inv tt (start y m) (map (fun t => mkOwn t (fun _ => 0) 0) (seq 0 k)).
Proof using Hy.
  intros Hm Hk. split.
  - rewrite map_map. cbn. rewrite map_id. apply NoDup_ListNoDup, seq_NoDup.
  - apply Forall_forall. intros o (t & -> & Ht)%list_elem_of_fmap. apply elem_of_seq in Ht.
    split; [cbn; lia|]. split; [done|]. intros l Hl. cbn. apply new_counter; [done|done|].
    apply cc_offset_range. lia.
  - intros t Ht. by apply lookup_replicate_2.
Qed.

Lemma all_safe_start m fuel seeds :
  new_counters y = Some m ->
  all_safe Inv (fun _ _ => True) tt (start y m, threads to_char y inc error_injection stop_on_error fuel seeds).
Proof using Hy Hchar Hinc.
  intros Hm.
  set (k := length (take (Z.to_nat (num_cpus y)) seeds)).
  exists (map (fun t => [mkOwn t (fun _ => 0) 0]) (seq 0 k)). split.
  - replace (concat _) with (map (fun t => mkOwn t (fun _ => 0) 0) (seq 0 k)).
    + apply start_owned; [done|]. subst k. rewrite length_take. lia.
    + induction (seq 0 k) as [|a l IH]; [done|]. cbn. by f_equal.
  - apply Forall2_same_length_lookup_2; cbn; [unfold threads; by rewrite length_imap, length_map, length_seq|].
    intros i p l Hp Hl. unfold threads in Hp. rewrite list_lookup_imap in Hp.
    rewrite list_lookup_fmap in Hl. apply fmap_Some in Hp as (r & Hr & ->). apply fmap_Some in Hl as (t & Ht & ->).
    apply lookup_seq in Ht as [-> _]. apply safe_Work. by eexists.
Qed.
End Facts.

(** A history without deviations. *)
Lemma no_bad_rounds inc t h :
  (forall t' d, Deviates t' d ∈ h -> d = 0) -> present t h = 0 /\ bad_rounds inc false t h = 0.
Proof.
  induction h as [|[t' d|t'] h IH]; intros H; [done|..]; cbn.
  - destruct IH as [I1 I2]; [intros; eapply H; by right|]. specialize (H t' d ltac:(by left)). rewrite I1, I2, H.
    by case_decide.
  - destruct IH as [I1 I2]; [intros; eapply H; by right|]. rewrite I1, I2. by case_decide.
Qed.


(** Three CPUs and two lines; the second thread runs a round of three increments in which
    one read is off by one, and a round without. *)
Definition sample_layout : Layout := mkLayout 64 3 2.
Definition sample_counters : gmap Z Z := default ∅ (new_counters sample_layout).
Definition signed_char (x : Z) : Z := (x + 128) mod 256 - 128.
Definition quiet : Answer := mkAnswer true 0.
Definition sample_answers : list Answer :=
  (replicate 3 quiet ++ [mkAnswer true 1] ++ replicate 28 quiet ++ [mkAnswer false 0])%list.
Definition sample_thread : Prog Answer World (option bool) := Work signed_char sample_layout 3 false false 1 3 6.

Lemma sample_thread_runs :
  exists w, run_alone sample_thread sample_answers (start sample_layout sample_counters) = Some (Some true, w) /\
    errorcounts w = [0; 1; 0] /\ bad_rounds 3 false 1 (history w) = 1.
Proof. vm_compute. eexists. by repeat split. Qed.


(** With 2^26 lines of 64 bytes the size is 2^32, which as an [int] is 0. *)
Lemma counters_overflow : chunk_size (mkLayout 64 4 (2 ^ 26)) = 0 /\ new_counters (mkLayout 64 4 (2 ^ 26)) = None.
Proof.
  split; [vm_compute; reflexivity|]. apply eq_None_not_Some. rewrite new_counters_Some by (split; cbn; lia).
  vm_compute. discriminate.
Qed.
End CacheCoherencyFacts.
