(* ===== verification/SimpleRandom.v ===== *)
(** The period of [CpuCacheCoherencyThread::SimpleRandom].

    The generator is a linear map over the field with two elements: multiplication by [x]
    modulo the polynomial of [kRandomPolynomial], with bit [63 - i] of a state as the
    coefficient of [x^i].  Its order is found from the prime factors of [2^64 - 1] with
    powers and inverses in that ring, which are computed. *)

From Stdlib Require Import Znumtheory.
From S2P Require Import Prelude NumTheory CacheCoherency.

Module SimpleRandomFacts.
Import CacheCoherency NumTheory.

Abbreviation f := SimpleRandom.
Abbreviation state v := (0 <= v < 2 ^ 64).

(** ** Linear maps *)

Lemma SimpleRandom_cases v : f v = Z.lxor (Z.shiftr v 1) (if Z.odd v then kRandomPolynomial else 0).
Proof.
  unfold SimpleRandom. f_equal. rewrite CacheCoherencyFacts.land_1. destruct (Z.odd v); [|done].
  vm_compute. reflexivity.
Qed.

Lemma f_lxor a b : f (Z.lxor a b) = Z.lxor (f a) (f b).
Proof.
  rewrite !SimpleRandom_cases, Z.shiftr_lxor.
  assert (H : Z.odd (Z.lxor a b) = xorb (Z.odd a) (Z.odd b)) by (rewrite <- !Z.bit0_odd; apply Z.lxor_spec).
  rewrite H. apply Z.bits_inj'. intros n Hn.
  destruct (Z.odd a), (Z.odd b); cbn [xorb]; rewrite !Z.lxor_spec, ?Z.bits_0;
    destruct (Z.testbit (Z.shiftr a 1) n), (Z.testbit (Z.shiftr b 1) n), (Z.testbit kRandomPolynomial n); done.
Qed.

Lemma lxor_state a b : state a -> state b -> state (Z.lxor a b).
Proof.
  intros Ha Hb. split; [apply Z.lxor_nonneg; lia|].
  destruct (Z.eq_dec (Z.lxor a b) 0) as [->|Hne]; [lia|].
  assert (0 <= Z.lxor a b) by (apply Z.lxor_nonneg; lia). apply Z.log2_lt_pow2; [lia|].
  pose proof (Z.log2_lxor a b ltac:(lia) ltac:(lia)).
  assert (Hl : forall x, state x -> Z.log2 x < 64).
  { intros x Hx. destruct (Z.eq_dec x 0) as [->|]; [done|]. apply Z.log2_lt_pow2; lia. }
  pose proof (Hl a Ha). pose proof (Hl b Hb). lia.
Qed.

Lemma f_state v : state v -> state (f v).
Proof.
  intros Hv. rewrite SimpleRandom_cases. apply lxor_state; [|destruct (Z.odd v); unfold kRandomPolynomial; lia].
  rewrite Z.shiftr_div_pow2 by lia. change (2 ^ 1) with 2.
  pose proof (Z.div_mod v 2 ltac:(lia)). pose proof (Z.mod_pos_bound v 2 ltac:(lia)). lia.
Qed.

Lemma testbit_high v k : state v -> 64 <= k -> Z.testbit v k = false.
Proof.
  intros Hv Hk. destruct (Z.eq_dec v 0) as [->|]; [apply Z.bits_0|].
  apply Z.bits_above_log2; [lia|]. apply Z.lt_le_trans with 64; [|done]. apply Z.log2_lt_pow2; lia.
Qed.

Definition iter (n : nat) (v : Z) : Z := Nat.iter n f v.

Lemma iter_state n v : state v -> state (iter n v).
Proof. intros Hv. induction n as [|n IH]; [done|]. by apply f_state. Qed.

Lemma iter_add n m v : iter (n + m) v = iter n (iter m v).
Proof. apply Nat.iter_add. Qed.

Lemma iter_succ_r n v : iter (S n) v = iter n (f v).
Proof. apply Nat.iter_succ_r. Qed.

Definition linear (g : Z -> Z) : Prop := forall a b, g (Z.lxor a b) = Z.lxor (g a) (g b).

Lemma linear_zero g : linear g -> g 0 = 0.
Proof. intros H. specialize (H 0 0). by rewrite !Z.lxor_nilpotent in H. Qed.

Lemma iter_linear n : linear (iter n).
Proof. intros a b. induction n as [|n IH]; [done|]. change (iter (S n)) with (fun v => f (iter n v)). cbn beta. by rewrite IH, f_lxor. Qed.

(** Two linear maps that agree on the powers of two. *)
Lemma linear_ext g h n :
  linear g -> linear h -> (forall j, 0 <= j < Z.of_nat n -> g (2 ^ j) = h (2 ^ j)) ->
  forall v, 0 <= v < 2 ^ Z.of_nat n -> g v = h v.
Proof.
  intros Hg Hh. induction n as [|n IH]; intros Hb v Hv.
  - assert (v = 0) as -> by (cbn in Hv; lia). by rewrite !linear_zero.
  - rewrite Nat2Z.inj_succ, Z.pow_succ_r in Hv by lia.
    destruct (Z.lt_ge_cases v (2 ^ Z.of_nat n)) as [Hlt|Hge]; [apply IH; [intros; apply Hb; lia|lia]|].
    assert (Hx : Z.lxor (2 ^ Z.of_nat n) (v - 2 ^ Z.of_nat n) = v).
    { rewrite Z.lxor_comm, <- Z.add_nocarry_lxor; [lia|].
      apply Z.bits_inj'. intros k Hk. rewrite Z.land_spec, Z.bits_0.
      destruct (Z.eq_dec k (Z.of_nat n)) as [->|Hne].
      - destruct (Z.eq_dec (v - 2 ^ Z.of_nat n) 0) as [->|]; [by rewrite Z.bits_0|].
        rewrite Z.bits_above_log2; [done|lia|]. apply Z.log2_lt_pow2; lia.
      - by rewrite Z.pow2_bits_false, andb_false_r by lia. }
    rewrite <- Hx, Hg, Hh, Hb by lia. f_equal. apply IH; [intros; apply Hb; lia|lia].
Qed.

(** ** Products of states *)

Fixpoint mul_from (n : nat) (u v : Z) : Z :=
  match n with
  | O => 0
  | S n' => Z.lxor (if Z.testbit u (Z.of_nat n') then v else 0) (mul_from n' u (f v))
  end.
Definition mul : Z -> Z -> Z := mul_from 64.
Definition one : Z := 2 ^ 63.

(** Exclusive ors of two pairs. *)
Lemma lxor_swap a b c d : Z.lxor (Z.lxor a b) (Z.lxor c d) = Z.lxor (Z.lxor a c) (Z.lxor b d).
Proof. rewrite !Z.lxor_assoc. f_equal. rewrite <- !Z.lxor_assoc. f_equal. apply Z.lxor_comm. Qed.

Lemma mul_linear_r n u : linear (mul_from n u).
Proof.
  induction n as [|n IH]; intros a b; [done|]. cbn. rewrite f_lxor, IH, lxor_swap. f_equal.
  by destruct (Z.testbit u _).
Qed.

Lemma mul_linear_l n v : linear (fun u => mul_from n u v).
Proof.
  revert v. induction n as [|n IH]; intros v a b; [done|]. cbn. rewrite Z.lxor_spec.
  pose proof (IH (f v) a b) as K. cbn beta in K. rewrite K, (lxor_swap _ (mul_from n a (f v))). f_equal.
  destruct (Z.testbit a _), (Z.testbit b _); cbn [xorb]; rewrite ?Z.lxor_nilpotent, ?Z.lxor_0_l, ?Z.lxor_0_r; done.
Qed.

Lemma mul_lxor_l n a b v : mul_from n (Z.lxor a b) v = Z.lxor (mul_from n a v) (mul_from n b v).
Proof. apply (mul_linear_l n v). Qed.

Lemma mul_f_r n u v : mul_from n u (f v) = f (mul_from n u v).
Proof.
  revert v. induction n as [|n IH]; intros v; [done|]. cbn. rewrite f_lxor, <- IH. f_equal.
  by destruct (Z.testbit u _).
Qed.

Lemma mul_zero_bits n u v : (forall i, 0 <= i < Z.of_nat n -> Z.testbit u i = false) -> mul_from n u v = 0.
Proof.
  revert v. induction n as [|n IH]; intros v H; [done|]. cbn. rewrite H by lia. rewrite IH; [done|].
  intros i Hi. apply H. lia.
Qed.

Lemma mul_one v : mul one v = v.
Proof.
  unfold mul, one. cbn [mul_from]. change (Z.of_nat 63) with 63. rewrite Z.pow2_bits_true by lia.
  change (Z.lxor v (mul_from 63 (2 ^ 63) (f v)) = v). rewrite mul_zero_bits; [apply Z.lxor_0_r|].
  intros i Hi. apply Z.pow2_bits_false. lia.
Qed.

(** The lowest bit of the first factor, apart. *)
Lemma mul_shift n u v :
  mul_from (S n) u v = Z.lxor (mul_from n (Z.shiftr u 1) v) (if Z.odd u then iter n v else 0).
Proof.
  revert v. induction n as [|n IH]; intros v.
  - cbn. rewrite Z.lxor_0_r, Z.bit0_odd. by destruct (Z.odd u).
  - change (mul_from (S (S n)) u v) with
      (Z.lxor (if Z.testbit u (Z.of_nat (S n)) then v else 0) (mul_from (S n) u (f v))).
    rewrite IH, <- Z.lxor_assoc. f_equal.
    + cbn [mul_from]. f_equal. rewrite Z.shiftr_spec by lia. by rewrite Nat2Z.inj_succ.
    + destruct (Z.odd u); [|done]. by rewrite iter_succ_r.
Qed.

(** The polynomial says what [x^64] is. *)
Lemma mul_polynomial v : state v -> mul kRandomPolynomial v = iter 64 v.
Proof.
  apply (linear_ext (mul kRandomPolynomial) (iter 64) 64); [apply mul_linear_r | apply iter_linear|].
  intros j Hj. assert (H : forallbZ 0 64 (fun j => mul kRandomPolynomial (2 ^ j) =? iter 64 (2 ^ j)) = true)
    by (vm_compute; reflexivity).
  unfold forallbZ in H. rewrite forallb_forall in H. apply Z.eqb_eq, H, list_elem_of_In, elem_of_zrange. lia.
Qed.

Lemma mul_f_l u v : state u -> state v -> mul (f u) v = f (mul u v).
Proof.
  intros Hu Hv. unfold mul. rewrite <- mul_f_r, (mul_shift 63 u), <- iter_succ_r.
  rewrite SimpleRandom_cases, mul_lxor_l. f_equal.
  - change (mul_from 64 (Z.shiftr u 1) v) with
      (Z.lxor (if Z.testbit (Z.shiftr u 1) (Z.of_nat 63) then v else 0) (mul_from 63 (Z.shiftr u 1) (f v))).
    rewrite Z.shiftr_spec by lia. change (Z.of_nat 63 + 1) with 64.
    rewrite (testbit_high u 64) by lia. apply Z.lxor_0_l.
  - destruct (Z.odd u); [by apply mul_polynomial|]. apply mul_zero_bits. intros i Hi. apply Z.bits_0.
Qed.

Lemma mul_from_state n u v : state v -> state (mul_from n u v).
Proof.
  revert v. induction n as [|n IH]; intros v Hv; [cbn; lia|]. cbn. apply lxor_state; [|by apply IH, f_state].
  destruct (Z.testbit u _); [done|lia].
Qed.

Lemma mul_assoc u w v : state w -> state v -> mul (mul u w) v = mul u (mul w v).
Proof.
  intros Hw Hv. unfold mul at 2 3. generalize 64%nat. intros n. revert w Hw.
  induction n as [|n IH]; intros w Hw; [apply mul_zero_bits; intros; apply Z.bits_0|]. cbn [mul_from].
  unfold mul at 1. rewrite mul_lxor_l. fold (mul (mul_from n u (f w)) v).
  rewrite IH by (by apply f_state). rewrite mul_f_l by done. f_equal.
  destruct (Z.testbit u _); [done|]. apply mul_zero_bits. intros; apply Z.bits_0.
Qed.

Lemma one_state : state one.
Proof. unfold one. lia. Qed.

Lemma mul_iter n v : state v -> mul (iter n one) v = iter n v.
Proof.
  intros Hv. induction n as [|n IH]; [apply mul_one|].
  change (mul (f (iter n one)) v = f (iter n v)).
  rewrite mul_f_l; [by rewrite IH|apply iter_state, one_state|done].
Qed.

(** *** Fast powers *)

Fixpoint power (p : positive) : Z :=
  match p with
  | xH => f one
  | xO p => let a := power p in mul a a
  | xI p => let a := power p in f (mul a a)
  end.

Lemma power_iter p : power p = iter (Pos.to_nat p) one.
Proof.
  assert (Hd : forall q, power q = iter (Pos.to_nat q) one ->
                 mul (power q) (power q) = iter (Pos.to_nat q + Pos.to_nat q) one).
  { intros q ->. rewrite mul_iter by (apply iter_state, one_state). by rewrite <- iter_add. }
  induction p as [p IH|p IH|]; [| |done]; cbn [power]; rewrite Hd by done.
  - change (f (iter (Pos.to_nat p + Pos.to_nat p) one)) with (iter (S (Pos.to_nat p + Pos.to_nat p)) one). f_equal. lia.
  - f_equal. lia.
Qed.

(** The powers of a state. *)
Fixpoint raise (a : Z) (p : positive) : Z :=
  match p with
  | xH => a
  | xO p => let b := raise a p in mul b b
  | xI p => let b := raise a p in mul a (mul b b)
  end.

(** [x^k - 1] has an inverse. *)
Definition invertible (k : positive) : bool :=
  let a := Z.lxor (power k) one in mul (raise a (2 ^ 64 - 2)) a =? one.

Lemma invertible_moves k v : invertible k = true -> state v -> iter (Pos.to_nat k) v = v -> v = 0.
Proof.
  unfold invertible. set (a := Z.lxor _ _). generalize (raise a (2 ^ 64 - 2)). intros b Hb%Z.eqb_eq Hv Hi.
  assert (Ha : state a) by (apply lxor_state; [rewrite power_iter; apply iter_state|]; apply one_state).
  assert (Hz : mul a v = 0).
  { unfold mul, a. rewrite mul_lxor_l. fold (mul (power k) v). fold (mul one v).
    rewrite power_iter, mul_iter, mul_one, Hi by done. apply Z.lxor_nilpotent. }
  rewrite <- (mul_one v), <- Hb, mul_assoc, Hz by done. apply linear_zero, mul_linear_r.
Qed.

(** ** The order *)

(** Trial division. *)
Lemma prime_trial q b :
  1 < q -> q < (Z.of_nat b + 2) * (Z.of_nat b + 2) -> forallbZ 2 b (fun d => negb (q mod d =? 0)) = true -> Z.prime q.
Proof.
  intros Hq Hb Ht. apply prime_alt. destruct (prime_dec q) as [|Hn]; [done|exfalso].
  destruct (not_prime_divide q Hq Hn) as (d & Hd & e & He).
  assert (Hsmall : forall x, 1 < x -> (x | q) -> Z.of_nat b + 2 <= x).
  { intros x Hx Hdiv. destruct (Z.lt_ge_cases x (Z.of_nat b + 2)) as [Hlt|]; [|done]. exfalso.
    unfold forallbZ in Ht. rewrite forallb_forall in Ht.
    specialize (Ht x ltac:(apply list_elem_of_In, elem_of_zrange; lia)).
    apply Z.mod_divide in Hdiv; [|lia]. by rewrite Hdiv in Ht. }
  assert (1 < e) by nia.
  pose proof (Hsmall d ltac:(lia) ltac:(by exists e)). pose proof (Hsmall e ltac:(lia) ltac:(exists d; lia)). nia.
Qed.

Definition order : Z := 2 ^ 64 - 1.
Definition factors : list (Z * nat) :=
  [(3, 1%nat); (5, 1%nat); (17, 4%nat); (257, 16%nat); (641, 25%nat); (65537, 256%nat); (6700417, 2588%nat)].

Lemma factors_prime q b : (q, b) ∈ factors -> Z.prime q.
Proof.
  intros Hin. apply (prime_trial q b); unfold factors in Hin;
    repeat (apply elem_of_cons in Hin as [[= -> ->]|Hin]; [vm_compute; reflexivity|]); by apply elem_of_nil in Hin.
Qed.

Lemma order_factors p : Z.prime p -> (p | order) -> p ∈ map fst factors.
Proof.
  intros Hp Hd. change order with (3 * (5 * (17 * (257 * (641 * (65537 * 6700417)))))) in Hd.
  assert (Heq : forall q, q ∈ map fst factors -> (p | q) -> p = q).
  { intros q ([q' b] & -> & Hq)%list_elem_of_fmap Hpq. apply factors_prime in Hq. by apply Z.divide_prime_prime. }
  cbn [factors map fst] in *.
  do 6 (apply (Z.divide_prime_mul _ _ _ Hp) in Hd as [Hd|Hd]; [apply Heq in Hd; [subst|]; set_solver|]).
  apply Heq in Hd; [subst|]; set_solver.
Qed.

(** No power of the generator by a maximal proper divisor of the order has a fixed point. *)
Lemma factors_move p v :
  p ∈ map fst factors -> state v -> iter (Z.to_nat (order / p)) v = v -> v = 0.
Proof.
  intros Hp Hv Hi.
  assert (H : forallb (fun q => invertible (Z.to_pos (order / q))) (map fst factors) = true) by (vm_compute; reflexivity).
  rewrite forallb_forall in H. apply list_elem_of_In in Hp. specialize (H p Hp).
  apply (invertible_moves _ _ H Hv). rewrite <- Hi at 2. f_equal.
  rewrite <- Z2Nat.inj_pos, Z2Pos.id; [done|].
  assert (K : forallb (fun q => 0 <? order / q) (map fst factors) = true) by (vm_compute; reflexivity).
  rewrite forallb_forall in K. apply Z.ltb_lt, K, Hp.
Qed.

Lemma order_period v : state v -> iter (Z.to_nat order) v = v.
Proof.
  intros Hv. rewrite <- (mul_iter _ v Hv).
  change (Z.to_nat order) with (Pos.to_nat (2 ^ 64 - 1)). rewrite <- power_iter.
  assert (H : power (2 ^ 64 - 1) = one) by (vm_compute; reflexivity). rewrite H. apply mul_one.
Qed.

Lemma iter_mul k n v : iter n v = v -> iter (k * n) v = v.
Proof. intros H. induction k as [|k IH]; [done|]. cbn [Nat.mul]. by rewrite iter_add, IH. Qed.

Lemma iter_gcd n m v : (0 < n)%nat -> iter n v = v -> iter m v = v -> iter (Nat.gcd n m) v = v.
Proof.
  intros Hn H1 H2. destruct (Nat.gcd_bezout_pos n m Hn) as (a & b & Hab).
  rewrite <- (iter_mul b m v H2) at 1. rewrite <- iter_add, <- Hab. by apply iter_mul.
Qed.

Lemma no_earlier seed n : 0 < seed < 2 ^ 64 -> 0 < Z.of_nat n < order -> iter n seed <> seed.
Proof.
  intros Hs Hn Hi.
  set (g := Nat.gcd n (Z.to_nat order)).
  assert (Hg : iter g seed = seed) by (apply iter_gcd; [lia|exact Hi|apply order_period; lia]).
  assert (Hgn : (g <= n)%nat) by (apply Nat.divide_pos_le; [lia|apply Nat.gcd_divide_l]).
  destruct (Nat.gcd_divide_r n (Z.to_nat order)) as [k Hk]. fold g in Hk.
  assert (Ho : order = Z.of_nat k * Z.of_nat g).
  { rewrite <- Nat2Z.inj_mul, <- Hk, Z2Nat.id; [done|]. vm_compute. discriminate. }
  assert (Hk1 : 1 < Z.of_nat k) by (unfold order in Ho; nia).
  destruct (prime_divisor (Z.of_nat k) Hk1) as (p & Hp & m & Hm).
  pose proof (Z.prime_ge_2 p Hp). assert (0 < m) by nia.
  assert (Hq : order / p = m * Z.of_nat g).
  { rewrite Ho, Hm. replace (m * p * Z.of_nat g) with (m * Z.of_nat g * p) by lia. apply Z.div_mul. lia. }
  assert (Hz : seed = 0); [|lia]. apply (factors_move p); [|lia|].
  - apply order_factors; [done|]. exists (m * Z.of_nat g). rewrite Ho, Hm. lia.
  - rewrite Hq, Z2Nat.inj_mul, Nat2Z.id by lia. by apply iter_mul.
Qed.

(** [SimpleRandom] runs through all 64-bit numbers but zero before it repeats: from any
    seed other than zero it comes back to the seed after [2^64 - 1] steps and not before. *)
Theorem SimpleRandom_period seed n :
  0 < seed < 2 ^ 64 -> 0 < Z.of_nat n < 2 ^ 64 -> Nat.iter n SimpleRandom seed = seed <-> Z.of_nat n = 2 ^ 64 - 1.
Proof.
  intros Hs Hn. change (iter n seed = seed <-> Z.of_nat n = order). split.
  - intros Hi. destruct (Z.eq_dec (Z.of_nat n) order) as [|Hne]; [done|]. exfalso.
    apply (no_earlier seed n); unfold order in *; [lia|lia|done].
  - intros Ho. assert (En : n = Z.to_nat order) by (by rewrite <- Ho, Nat2Z.id). rewrite En.
    apply order_period. lia.
Qed.

Lemma SimpleRandom_period_witness : Nat.iter 100 SimpleRandom 1 <> 1.
Proof.
  intros H. apply (SimpleRandom_period 1 100) in H; [|lia|lia]. revert H. vm_compute. discriminate.
Defined.
End SimpleRandomFacts.
