(* ===== verification/SatThreads.v ===== *)
(** The threads of a test: [Sat::InitializeThreads] and [Sat::SpawnThreads] of
    [src/src/sat.cc], with [WorkerThread::InitThread], [SpawnThread], [RemoveUnspawnedWorker]
    and [BindToCpus] of [src/src/worker.cc].

    A worker is what the set-up gives it: its number, its [WorkerStatus] object, its CPUs, its
    tag and its device or host.  The crew counts what each [WorkerStatus] object is told.
    Allocations succeed; [posix_memalign] refuses an alignment that is not a power of two or
    no multiple of the size of a pointer.  An index outside a vector, a failed assertion and a
    division by zero are [Crashed]. *)

From Stdlib Require Import Ascii String.
From S2P Require Import Prelude Text OsLayer WorkerStatus DiskBlocks DiskThread CacheCoherency Options.

Module SatThreads.
Import Options DiskThread.
Local Open Scope Z_scope.

Local Notation "x <-- a ;; b" := (obind a (fun x => b)) (at level 100, a at next level, right associativity).
Local Notation "a ;;; b" := (obind a (fun _ => b)) (at level 100, right associativity).
Local Notation "'let*' ' p := a 'in' b" := (obind a (fun p => b)) (at level 10, p strict pattern, a at level 100, b at level 200).

Inductive ThreadType :=
| kMemoryType | kFileIOType | kNetIOType | kNetSlaveType | kCheckType | kInvertType | kDiskType | kRandomDiskType
| kCPUType | kErrorType | kCCType | kCPUFreqType.

#[global] Instance ThreadType_eq_dec : EqDecision ThreadType.
Proof. solve_decision. Defined.

(** In the order of their numbers, which is the order of [workers_map_]. *)
Definition all_types : list ThreadType :=
  [kMemoryType; kFileIOType; kNetIOType; kNetSlaveType; kCheckType; kInvertType; kDiskType; kRandomDiskType;
   kCPUType; kErrorType; kCCType; kCPUFreqType].

Inductive StatusObject := power_spike_status_ | continuous_status_.

#[global] Instance StatusObject_eq_dec : EqDecision StatusObject.
Proof. solve_decision. Defined.

Record Worker := mkWorker {
  thread_num_ : Z; worker_status_ : StatusObject; cpu_mask_ : Z; tag_ : Z; target : string;
  params : option DiskParams
}.

Definition set_mask (w : Worker) (mask : Z) : Worker :=
  mkWorker (thread_num_ w) (worker_status_ w) mask (tag_ w) (target w) (params w).
Definition set_tag (w : Worker) (tag : Z) : Worker :=
  mkWorker (thread_num_ w) (worker_status_ w) (cpu_mask_ w) (u32 tag) (target w) (params w).
Definition set_target (w : Worker) (name : string) : Worker :=
  mkWorker (thread_num_ w) (worker_status_ w) (cpu_mask_ w) (tag_ w) name (params w).
Definition set_params (w : Worker) (p : DiskParams) : Worker :=
  mkWorker (thread_num_ w) (worker_status_ w) (cpu_mask_ w) (tag_ w) (target w) (Some p).

Definition set_cpu_mask_to_cpu (w : Worker) (cpu_num : Z) : Worker :=
  set_mask w (OsLayer.cpuset_set_ab cpu_num (cpu_num + 1)).

(** What the platform says: [AvailableCpus], [CpuCount], [CacheLineSize], and the regions of
    the physical memory. *)
Record Machine := mkMachine {
  available_cpus : Z; CpuCount : Z; CacheLineSize : Z; region_count_ : Z; region_mask_ : Z; machine_os : OsLayer.OsLayer
}.

(** [num_workers_] of the two objects, [total_threads_] and the vectors inserted so far. *)
Record Crew := mkCrew {
  total_threads_ : Z; power_spike_workers : Z; continuous_workers : Z;
  workers_map_ : list (ThreadType * list Worker); crew_os : OsLayer.OsLayer
}.

Definition insert_vector (cr : Crew) (ty : ThreadType) (v : list Worker) : Crew :=
  mkCrew (total_threads_ cr) (power_spike_workers cr) (continuous_workers cr) (workers_map_ cr ++ [(ty, v)]) (crew_os cr).
Definition set_crew_os (cr : Crew) (os : OsLayer.OsLayer) : Crew :=
  mkCrew (total_threads_ cr) (power_spike_workers cr) (continuous_workers cr) (workers_map_ cr) os.

Section Setup.
Context (c : Sat) (m : Machine).

Definition flag (name : string) : bool := negb (get c name =? 0).

(** [thread->InitThread(total_threads_++, ...)]. *)
Definition InitThread (ob : StatusObject) (cr : Crew) : Worker * Crew :=
  (mkWorker (total_threads_ cr) ob (available_cpus m) 0xffffffff "" None,
   mkCrew (total_threads_ cr + 1)
     (power_spike_workers cr + (if decide (ob = power_spike_status_) then 1 else 0))
     (continuous_workers cr + (if decide (ob = continuous_status_) then 1 else 0))
     (workers_map_ cr) (crew_os cr)).

(** The [num]-th region of the mask. *)
Fixpoint region_find_loop (is_ : list Z) (num : Z) : Z :=
  match is_ with
  | [] => 0
  | i :: is' =>
      if Z.testbit (region_mask_ m) i then if num =? 0 then i else region_find_loop is' (num - 1)
      else region_find_loop is' num
  end.
Definition region_find (num : Z) : Z := region_find_loop (zrange 0 32) num.

(** The core of a thread: alternating cores first. *)
Definition nthbit (cores nthcore : Z) : Z :=
  Z.rem (Z.rem (2 * nthcore) cores + Z.rem (Z.quot (2 * nthcore) cores) 2) cores.

(** One thread per core, if there are enough cores. *)
Definition place_on_core (nthcore : Z -> Z) (w : Worker) : Outcome Worker :=
  let cores := OsLayer.cpuset_count (available_cpus m) in
  if get c "cpu_stress_threads_" + get c "memory_threads_" <=? cores then
    crash_if (cores =? 0) ;;;
    Done (set_cpu_mask_to_cpu w (nthbit cores (nthcore cores)))
  else Done w.

Definition kLocalNuma : Z := 1.
Definition kRemoteNuma : Z := 2.

Definition place_memory_thread (i : Z) (w : Worker) (cr : Crew) : Outcome (Worker * Crew) :=
  if (1 <? region_count_ m) && negb (get c "region_mode_" =? 0) then
    let region := region_find (Z.rem i (region_count_ m)) in
    crash_if (OsLayer.num_nodes_ (crew_os cr) =? 0) ;;;
    let '(cpuset, os) := OsLayer.FindCoreMask (crew_os cr) region in
    let cr := set_crew_os cr os in
    if get c "region_mode_" =? kLocalNuma then Done (set_tag (set_mask w cpuset) (Z.shiftl 1 region), cr)
    else if get c "region_mode_" =? kRemoteNuma then
      Done (set_tag (set_mask w cpuset) (Z.land (region_mask_ m) (Z.lnot (Z.shiftl 1 region))), cr)
    else Done (w, cr)
  else
    w <-- place_on_core (fun _ => i) w ;;
    Done (w, cr).

(** A loop that adds at most one thread to a vector at each turn. *)
Fixpoint each (f : Z -> list Worker * Crew -> Outcome (list Worker * Crew)) (is_ : list Z) (s : list Worker * Crew)
  : Outcome (list Worker * Crew) :=
  match is_ with
  | [] => Done s
  | i :: is' => s <-- f i s ;; each f is' s
  end.
Definition upto (n : Z) : list Z := zrange 0 (Z.to_nat n).

(** The threads that need no more than [InitThread]. *)
Definition plain_thread (ob : StatusObject) (_ : Z) (s : list Worker * Crew) : Outcome (list Worker * Crew) :=
  let '(w, cr) := InitThread ob s.2 in Done (s.1 ++ [w], cr)%list.

Definition memory_thread (i : Z) (s : list Worker * Crew) : Outcome (list Worker * Crew) :=
  let '(w, cr) := InitThread power_spike_status_ s.2 in
  let* '(w, cr) := place_memory_thread i w cr in
  Done (s.1 ++ [w], cr)%list.

(** With the [i]-th name of a list. *)
Definition named_thread (ob : StatusObject) (names : list string) (i : Z) (s : list Worker * Crew)
  : Outcome (list Worker * Crew) :=
  let '(w, cr) := InitThread ob s.2 in
  match names !! Z.to_nat i with
  | Some name => Done (s.1 ++ [set_target w name], cr)%list
  | None => Crashed
  end.

Definition cpu_stress_thread (i : Z) (s : list Worker * Crew) : Outcome (list Worker * Crew) :=
  let '(w, cr) := InitThread continuous_status_ s.2 in
  w <-- place_on_core (fun cores => cores - 1 - i) w ;;
  Done (s.1 ++ [w], cr)%list.

(** A disk thread, which is deleted again when its parameters are refused: the block table of
    the device, the vector and the crew. *)
Definition disk_thread (random : bool) (device : string) (table : DiskBlocks.DiskBlockTable)
    (s : list Worker * Crew) : Outcome (DiskBlocks.DiskBlockTable * (list Worker * Crew)) :=
  let '(w, cr) := InitThread power_spike_status_ s.2 in
  match SetParameters (new_DiskThread (negb random)) table (get c "read_block_size_") (get c "write_block_size_")
          (get c "segment_size_") (get c "cache_size_") (get c "blocks_per_segment_") (get c "read_threshold_")
          (get c "write_threshold_") (flag "non_destructive_") with
  | Done (p, table) => Done (table, (s.1 ++ [set_params (set_target w device) p], cr)%list)
  | Refused => Done (table, (s.1, cr))
  | Crashed => Crashed
  end.

Fixpoint random_threads (n : nat) (device : string) (table : DiskBlocks.DiskBlockTable) (s : list Worker * Crew)
  : Outcome (list Worker * Crew) :=
  match n with
  | O => Done s
  | S n' => let* '(table, s) := disk_thread true device table s in random_threads n' device table s
  end.

(** The two vectors of the disk threads. *)
Fixpoint disk_threads (is_ : list Z) (disks randoms : list Worker) (cr : Crew) : Outcome (list Worker * list Worker * Crew) :=
  match is_ with
  | [] => Done (disks, randoms, cr)
  | i :: is' =>
      match diskfilename_ c !! Z.to_nat i with
      | None => Crashed
      | Some device =>
          let* '(table, (disks, cr)) := disk_thread false device DiskBlocks.new_DiskBlockTable (disks, cr) in
          let* '(randoms, cr) := random_threads (Z.to_nat (get c "random_threads_")) device table (randoms, cr) in
          disk_threads is' disks randoms cr
      end
  end.

(** The loops above, with their vectors inserted. *)
Definition add_loop (ty : ThreadType) (n : Z) (f : Z -> list Worker * Crew -> Outcome (list Worker * Crew)) (cr : Crew)
  : Outcome Crew :=
  let* '(v, cr) := each f (upto n) ([], cr) in
  Done (insert_vector cr ty v).

(** The counters of the cache coherency threads. *)
Definition cc_layout : CacheCoherency.Layout :=
  CacheCoherency.mkLayout (CacheCoherency.cc_line_size (get c "cc_cacheline_size_") (CacheLineSize m)) (CpuCount m) (get c "cc_cacheline_count_").

(** [posix_memalign] accepts the line size. *)
Definition aligned_size (x : Z) : bool := (Z.rem x 8 =? 0) && (Z.land x (x - 1) =? 0).

Definition cc_thread (i : Z) (s : list Worker * Crew) : Outcome (list Worker * Crew) :=
  let '(w, cr) := InitThread continuous_status_ s.2 in
  Done (s.1 ++ [set_cpu_mask_to_cpu w i], cr)%list.

Definition stress_threads (cr : Crew) : Outcome Crew :=
  cr <-- add_loop kMemoryType (get c "memory_threads_") memory_thread cr ;;
  cr <-- add_loop kFileIOType (get c "file_threads_") (named_thread power_spike_status_ (filename_ c)) cr ;;
  let* '(slaves, cr) := each (plain_thread continuous_status_) (upto (if 0 <? get c "listen_threads_" then 1 else 0)) ([], cr) in
  cr <-- add_loop kNetIOType (get c "net_threads_") (named_thread continuous_status_ (ipaddrs_ c)) cr ;;
  let cr := insert_vector cr kNetSlaveType slaves in
  cr <-- add_loop kCheckType (get c "check_threads_") (plain_thread continuous_status_) cr ;;
  cr <-- add_loop kInvertType (get c "invert_threads_") (plain_thread continuous_status_) cr ;;
  let* '(disks, randoms, cr) := disk_threads (upto (get c "disk_threads_")) [] [] cr in
  let cr := insert_vector (insert_vector cr kDiskType disks) kRandomDiskType randoms in
  cr <-- add_loop kCPUType (get c "cpu_stress_threads_") cpu_stress_thread cr ;;
  cr <-- (if flag "cc_test_" then
            crash_if (negb (aligned_size (CacheCoherency.line_size cc_layout))) ;;;
            add_loop kCCType (CpuCount m) cc_thread cr
          else Done cr) ;;
  if flag "cpu_freq_test_" then add_loop kCPUFreqType 1 (plain_thread power_spike_status_) cr else Done cr.

Definition InitializeThreads (cr : Crew) : Outcome Crew :=
  cr <-- add_loop kErrorType (if flag "error_poll_" then 1 else 0) (plain_thread continuous_status_) cr ;;
  if flag "monitor_mode_" then Done cr else stress_threads cr.

(** The threads of the map, in its order. *)
Definition vector (cr : Crew) (ty : ThreadType) : list Worker :=
  flat_map snd (List.filter (fun x => bool_decide (x.1 = ty)) (workers_map_ cr)).
Definition all_workers (cr : Crew) : list Worker := flat_map (vector cr) all_types.

(** [WorkerThread::BindToCpus] at the start of a thread: whether the affinity is set, and the
    result. *)
Definition BindToCpus (setaffinity : Z -> bool) (thread_mask : Z) : option Z * bool :=
  if OsLayer.cpuset_isequal thread_mask (available_cpus m) then (None, true)
  else if negb (OsLayer.cpuset_issubset thread_mask (available_cpus m)) then (None, false)
  else if flag "use_affinity_" then (Some thread_mask, setaffinity thread_mask)
  else (None, true).
End Setup.

(** ** Starting the threads *)

(** [num_workers_] of one [WorkerStatus] object and what its barrier waits for. *)
Record Barrier := mkBarrier { num_workers_ : Z; pause_barrier_ : Z }.

Definition Initialize (num_workers : Z) : Barrier := mkBarrier num_workers (num_workers + 1).

(** [RemoveSelf], when nobody has paused the workers yet. *)
Definition RemoveUnspawnedWorker (b : Barrier) : Barrier := mkBarrier (num_workers_ b - 1) (num_workers_ b).

Record Spawned := mkSpawned { power_spike : Barrier; continuous : Barrier; bad_statuses : Z; spawn_result : bool }.

(** [pthread_create] succeeds for the threads of [creates]. *)
Fixpoint spawn_loop (creates : Worker -> bool) (ws : list Worker) (s : Spawned) : Spawned :=
  match ws with
  | [] => s
  | w :: ws =>
      spawn_loop creates ws
        (if creates w then s
         else match worker_status_ w with
              | power_spike_status_ =>
                  mkSpawned (RemoveUnspawnedWorker (power_spike s)) (continuous s) (bad_statuses s + 1) false
              | continuous_status_ =>
                  mkSpawned (power_spike s) (RemoveUnspawnedWorker (continuous s)) (bad_statuses s + 1) false
              end)
  end.

Definition SpawnThreads (creates : Worker -> bool) (cr : Crew) : Spawned :=
  spawn_loop creates (all_workers cr)
    (mkSpawned (Initialize (power_spike_workers cr)) (Initialize (continuous_workers cr)) 0 true).
End SatThreads.

Module SatThreadsFacts.
Import Options DiskThread SatThreads.
Local Open Scope Z_scope.

(** ** Cores *)

(** The core of each thread, by halves. *)
Lemma nthbit_halves n i :
  0 <= i < n -> nthbit n i = if 2 * i <? n then 2 * i else (2 * i - n + 1) mod n.
Proof.
  intros Hi. unfold nthbit. rewrite (Z.rem_mod_nonneg (2 * i) n), Z.quot_div_nonneg by lia.
  destruct (Z.ltb_spec (2 * i) n).
  - rewrite Z.mod_small, Z.div_small by lia. cbn [Z.rem Z.quotrem fst snd]. rewrite Z.add_0_r, Z.rem_small by lia. done.
  - assert (E : 2 * i mod n = 2 * i - n) by (rewrite <- (Z_mod_plus_full _ (-1)), Z.mod_small by lia; lia).
    assert (F : 2 * i / n = 1) by (symmetry; apply Z.div_unique with (2 * i - n); lia).
    rewrite E, F. change (Z.rem 1 2) with 1. apply Z.rem_mod_nonneg; lia.
Qed.

Lemma nthbit_even k i : 0 <= i < 2 * k -> nthbit (2 * k) i = if i <? k then 2 * i else 2 * (i - k) + 1.
Proof.
  intros Hi. rewrite nthbit_halves by lia. destruct (Z.ltb_spec (2 * i) (2 * k)), (Z.ltb_spec i k); try lia.
  rewrite Z.mod_small by lia. lia.
Qed.

(** The cores [InitializeThreads] binds copy and CPU stress threads to, one for each
    number below the number of cores, are distinct cores of the machine exactly when the
    number of cores is even, or one; with an odd number of cores from three on, two threads
    share a core although there is one for each. *)
Theorem core_placement n : 0 < n ->
  (forall i, 0 <= i < n -> 0 <= nthbit n i < n) /\
  ((forall i j, 0 <= i < n -> 0 <= j < n -> nthbit n i = nthbit n j -> i = j) <-> n = 1 \/ Z.Even n).
Proof.
  intros Hn. split.
  { intros i Hi. rewrite nthbit_halves by done. destruct (Z.ltb_spec (2 * i) n); [lia|]. apply Z.mod_pos_bound. lia. }
  split.
  - intros Hinj. destruct (Z.Even_or_Odd n) as [|[k Hk]]; [by right|left].
    destruct (Z.eq_dec k 0) as [->|]; [lia|].
    specialize (Hinj 1 (k + 1) ltac:(lia) ltac:(lia)). rewrite !nthbit_halves in Hinj by lia.
    destruct (Z.ltb_spec (2 * 1) n), (Z.ltb_spec (2 * (k + 1)) n); try lia.
    rewrite Z.mod_small in Hinj by lia. lia.
  - intros [->|[k ->]] i j Hi Hj; [lia|]. rewrite !nthbit_even by lia.
    destruct (Z.ltb_spec i k), (Z.ltb_spec j k); lia.
Qed.

Lemma core_placement_witness : nthbit 3 1 = nthbit 3 2 /\ map (nthbit 4) [0; 1; 2; 3] = [0; 2; 1; 3] /\
  forall i, 0 <= i < 3 -> 0 <= nthbit 3 i < 3.
Proof. split; [reflexivity|]. split; [reflexivity|]. apply (core_placement 3). lia. Defined.

(** ** Registration *)

Definition on (ob : StatusObject) (w : Worker) : bool := bool_decide (worker_status_ w = ob).
Definition count (P : Worker -> bool) (ws : list Worker) : Z := Z.of_nat (length (List.filter P ws)).

Lemma count_app P a b : count P (a ++ b) = count P a + count P b.
Proof. unfold count. rewrite List.filter_app, length_app. lia. Qed.

#[global] Instance count_perm P : Proper (Permutation ==> eq) (count P).
Proof.
  intros a b. induction 1 as [|w a b _ IH|w w' a|a b d _ IH1 _ IH2]; unfold count in *; cbn; [done|..|lia].
  - destruct (P w); cbn; lia.
  - by destruct (P w), (P w').
Qed.

Definition inserted (cr : Crew) : list Worker := flat_map snd (workers_map_ cr).

(** The threads of the map, the vectors under construction and the deleted threads account
    for all numbers given out and all registrations. *)
Record crew_ok (first : Z) (cr : Crew) (pending : list Worker) (dropped : Z) : Prop := {
  ck_total : total_threads_ cr = first + Z.of_nat (length (inserted cr ++ pending)) + dropped;
  ck_power : power_spike_workers cr = count (on power_spike_status_) (inserted cr ++ pending) + dropped;
  ck_continuous : continuous_workers cr = count (on continuous_status_) (inserted cr ++ pending);
  ck_numbers : NoDup (map thread_num_ (inserted cr ++ pending));
  ck_range : Forall (fun w => first <= thread_num_ w < total_threads_ cr) (inserted cr ++ pending);
  ck_dropped : 0 <= dropped
}.

Lemma crew_ok_perm first cr p p' d : p ≡ₚ p' -> crew_ok first cr p d -> crew_ok first cr p' d.
Proof.
  intros Hp [H1 H2 H3 H4 H5 H6]. assert (Hq : inserted cr ++ p ≡ₚ inserted cr ++ p') by (by rewrite Hp).
  by split; rewrite <- ?Hq.
Qed.

(** A thread and its [InitThread], and what may change of the thread behind it. *)
Lemma InitThread_ok m first ob cr p d w cr' w' :
  crew_ok first cr p d -> InitThread m ob cr = (w, cr') -> thread_num_ w' = thread_num_ w ->
  worker_status_ w' = worker_status_ w ->
  crew_ok first cr' (p ++ [w']) d /\ workers_map_ cr' = workers_map_ cr /\ worker_status_ w' = ob.
Proof.
  intros [H1 H2 H3 H4 H5 H6] [= <- <-] Hn Hs. cbn in Hn, Hs. split; [|done].
  assert (Hc : forall o, count (on o) [w'] = if decide (ob = o) then 1 else 0).
  { intros o. unfold count, on. cbn [List.filter]. rewrite Hs. case_bool_decide; case_decide; done || congruence. }
  unfold inserted in *. split; unfold inserted; cbn [total_threads_ power_spike_workers continuous_workers workers_map_]; rewrite ?app_assoc; try done.
  - rewrite (length_app _ [w']). cbn. lia.
  - rewrite count_app, Hc, H2. lia.
  - rewrite count_app, Hc, H3. lia.
  - rewrite map_app, NoDup_app. split; [done|]. split; [|apply NoDup_singleton].
    intros x (v & -> & Hv)%list_elem_of_fmap Hx. apply list_elem_of_singleton in Hx. rewrite Forall_forall in H5.
    specialize (H5 v Hv). lia.
  - apply Forall_app. split; [eapply Forall_impl; [done|]; cbn; lia|]. apply Forall_singleton. lia.
Qed.

(** A thread that is deleted again. *)
Lemma InitThread_dropped m first cr p d w cr' :
  crew_ok first cr p d -> InitThread m power_spike_status_ cr = (w, cr') ->
  crew_ok first cr' p (d + 1) /\ workers_map_ cr' = workers_map_ cr.
Proof.
  intros [H1 H2 H3 H4 H5 H6] [= <- <-]. split; [|done].
  unfold inserted in *. split; unfold inserted; cbn; try done; try lia.
  eapply Forall_impl; [done|]. cbn. lia.
Qed.

Lemma set_crew_os_ok first cr p d os : crew_ok first cr p d -> crew_ok first (set_crew_os cr os) p d.
Proof. by intros [? ? ? ? ? ?]. Qed.

Lemma insert_vector_ok first cr ty v p d :
  crew_ok first cr (v ++ p) d -> crew_ok first (insert_vector cr ty v) p d.
Proof.
  intros [H1 H2 H3 H4 H5 H6].
  assert (Hi : inserted (insert_vector cr ty v) ++ p = inserted cr ++ (v ++ p)).
  { unfold inserted. cbn. rewrite flat_map_app. cbn. by rewrite app_nil_r, <- app_assoc. }
  by split; rewrite ?Hi.
Qed.

(** A turn of a loop adds one thread that uses [ob]. *)
Definition adds_one (ob : StatusObject) (f : Z -> list Worker * Crew -> Outcome (list Worker * Crew)) : Prop :=
  forall i v cr first p d v' cr', crew_ok first cr (p ++ v) d -> f i (v, cr) = Done (v', cr') ->
    exists w, v' = v ++ [w] /\ worker_status_ w = ob /\ crew_ok first cr' (p ++ v') d /\ workers_map_ cr' = workers_map_ cr.

Lemma plain_adds m ob : adds_one ob (plain_thread m ob).
Proof.
  intros i v cr first p d v' cr' Hok H. unfold plain_thread in H. cbn [fst snd] in H.
  destruct (InitThread m ob cr) as [w cr1] eqn:E. injection H as <- <-.
  destruct (InitThread_ok m first ob cr _ d w cr1 w Hok E) as (K1 & K2 & K3); [done|done|].
  exists w. by rewrite app_assoc.
Qed.

Lemma named_adds m ob names : adds_one ob (named_thread m ob names).
Proof.
  intros i v cr first p d v' cr' Hok H. unfold named_thread in H. cbn [fst snd] in H.
  destruct (InitThread m ob cr) as [w cr1] eqn:E. destruct (names !! _) as [name|]; [|done]. injection H as <- <-.
  destruct (InitThread_ok m first ob cr _ d w cr1 (set_target w name) Hok E) as (K1 & K2 & K3); [done|done|].
  exists (set_target w name). by rewrite app_assoc.
Qed.

Lemma cc_adds m : adds_one continuous_status_ (cc_thread m).
Proof.
  intros i v cr first p d v' cr' Hok H. unfold cc_thread in H. cbn [fst snd] in H.
  destruct (InitThread m _ cr) as [w cr1] eqn:E. injection H as <- <-.
  destruct (InitThread_ok m first _ cr _ d w cr1 (set_cpu_mask_to_cpu w i) Hok E) as (K1 & K2 & K3); [done|done|].
  exists (set_cpu_mask_to_cpu w i). by rewrite app_assoc.
Qed.

Lemma place_on_core_same c m g w w' :
  place_on_core c m g w = Done w' -> thread_num_ w' = thread_num_ w /\ worker_status_ w' = worker_status_ w.
Proof.
  unfold place_on_core. destruct (_ <=? _); [|by intros [= ->]]. unfold crash_if. destruct (_ =? 0); [done|].
  by intros [= <-].
Qed.

Lemma cpu_stress_adds c m : adds_one continuous_status_ (cpu_stress_thread c m).
Proof.
  intros i v cr first p d v' cr' Hok H. unfold cpu_stress_thread in H. cbn [fst snd] in H.
  destruct (InitThread m _ cr) as [w cr1] eqn:E. destruct (place_on_core _ _ _ w) as [w'| |] eqn:Hp; [|done|done].
  injection H as <- <-. apply place_on_core_same in Hp as [P1 P2].
  destruct (InitThread_ok m first _ cr _ d w cr1 w' Hok E P1 P2) as (K1 & K2 & K3). exists w'. by rewrite app_assoc.
Qed.

Lemma memory_adds c m : adds_one power_spike_status_ (memory_thread c m).
Proof.
  intros i v cr first p d v' cr' Hok H. unfold memory_thread in H. cbn [fst snd] in H.
  destruct (InitThread m _ cr) as [w cr1] eqn:E.
  destruct (place_memory_thread c m i w cr1) as [[w' cr2]| |] eqn:Hp; [|done|done]. injection H as <- <-.
  assert (Hw : thread_num_ w' = thread_num_ w /\ worker_status_ w' = worker_status_ w /\
               (cr2 = cr1 \/ exists os, cr2 = set_crew_os cr1 os)).
  { unfold place_memory_thread in Hp. destruct (_ && _).
    - unfold crash_if in Hp. destruct (_ =? 0); [done|]. cbn [obind] in Hp.
      destruct (OsLayer.FindCoreMask _ _) as [mask os].
      repeat (destruct (_ =? _) in Hp; [injection Hp as <- <-; repeat split; right; by eexists|]).
      injection Hp as <- <-. repeat split. right. by eexists.
    - destruct (place_on_core _ _ _ w) as [w1| |] eqn:Hc; [|done|done]. injection Hp as <- <-.
      apply place_on_core_same in Hc as [-> ->]. repeat split. by left. }
  destruct Hw as (P1 & P2 & Hcr).
  destruct (InitThread_ok m first _ cr _ d w cr1 w' Hok E P1 P2) as (K1 & K2 & K3). exists w'.
  rewrite app_assoc. destruct Hcr as [->|[os ->]]; [done|].
  split; [done|]. split; [done|]. split; [by apply set_crew_os_ok|done].
Qed.

Lemma each_adds ob f is_ v cr first p d v' cr' :
  adds_one ob f -> crew_ok first cr (p ++ v) d -> each f is_ (v, cr) = Done (v', cr') ->
  exists ws, v' = v ++ ws /\ length ws = length is_ /\ Forall (fun w => worker_status_ w = ob) ws /\
    crew_ok first cr' (p ++ v') d /\ workers_map_ cr' = workers_map_ cr.
Proof.
  intros Hf. revert v cr. induction is_ as [|i is_ IH]; intros v cr Hok H; cbn [each] in H.
  - injection H as <- <-. exists []. by rewrite app_nil_r.
  - destruct (f i (v, cr)) as [[v1 cr1]| |] eqn:E; [|done|done]. cbn [obind] in H.
    destruct (Hf i v cr first p d v1 cr1 Hok E) as (w & -> & Hw & Hok1 & Hm).
    destruct (IH _ _ Hok1 H) as (ws & -> & Hl & Hws & Hok2 & Hm2). exists (w :: ws).
    rewrite <- app_assoc. split; [done|]. split; [cbn; by rewrite Hl|]. split; [by constructor|].
    rewrite <- app_assoc in Hok2. split; [done|]. by rewrite Hm2.
Qed.

(** A loop whose vector is inserted. *)
Lemma add_loop_ok ob ty n f cr first p d cr' :
  adds_one ob f -> crew_ok first cr p d -> add_loop ty n f cr = Done cr' ->
  exists ws, length ws = Z.to_nat n /\ Forall (fun w => worker_status_ w = ob) ws /\
    workers_map_ cr' = workers_map_ cr ++ [(ty, ws)] /\ crew_ok first cr' p d.
Proof.
  intros Hf Hok H. unfold add_loop in H. destruct (each f _ _) as [[v cr1]| |] eqn:E; [|done|done].
  injection H as <-.
  destruct (each_adds ob f _ [] cr first p d v cr1 Hf ltac:(by rewrite app_nil_r) E) as (ws & Hv & Hl & Hws & Hok1 & Hm).
  cbn in Hv. subst v. exists ws. split; [rewrite Hl; apply length_zrange|]. split; [done|].
  split; [cbn; by rewrite Hm|]. apply insert_vector_ok. eapply crew_ok_perm; [apply Permutation_app_comm|done].
Qed.

(** Disk threads add themselves to their vector or to the deleted ones. *)
Lemma disk_thread_ok c m random device table v cr first p d t' v' cr' :
  crew_ok first cr (p ++ v) d -> disk_thread c m random device table (v, cr) = Done (t', (v', cr')) ->
  exists ws d', v' = v ++ ws /\ Forall (fun w => worker_status_ w = power_spike_status_) ws /\
    crew_ok first cr' (p ++ v') d' /\ workers_map_ cr' = workers_map_ cr /\ d' + Z.of_nat (length ws) = d + 1.
Proof.
  intros Hok H. unfold disk_thread in H. cbn [fst snd] in H. destruct (InitThread m _ cr) as [w cr1] eqn:E.
  destruct (SetParameters _ _ _ _ _ _ _ _ _ _) as [[q t]| |]; [| |done]; injection H as <- <- <-.
  - destruct (InitThread_ok m first _ cr _ d w cr1 (set_params (set_target w device) q) Hok E) as (K1 & K2 & K3);
      [done|done|]. eexists [_], d. rewrite app_assoc. split; [done|]. split; [by apply Forall_singleton|]. done.
  - destruct (InitThread_dropped m first cr _ d w cr1 Hok E) as [K1 K2]. exists [], (d + 1).
    rewrite app_nil_r. split; [done|]. split; [constructor|]. split; [done|]. split; [done|]. cbn. lia.
Qed.

Lemma random_threads_ok c m n device table v cr first p d v' cr' :
  crew_ok first cr (p ++ v) d -> random_threads c m n device table (v, cr) = Done (v', cr') ->
  exists ws d', v' = v ++ ws /\ Forall (fun w => worker_status_ w = power_spike_status_) ws /\
    crew_ok first cr' (p ++ v') d' /\ workers_map_ cr' = workers_map_ cr /\
    d' + Z.of_nat (length ws) = d + Z.of_nat n.
Proof.
  revert table v cr d. induction n as [|n IH]; intros table v cr d Hok H; cbn [random_threads] in H.
  - injection H as <- <-. exists [], d. rewrite app_nil_r. split; [done|]. split; [constructor|]. split; [done|].
    split; [done|]. cbn. lia.
  - destruct (disk_thread c m true device table (v, cr)) as [[t [v1 cr1]]| |] eqn:E; [|done|done]. cbn [obind] in H.
    destruct (disk_thread_ok _ _ _ _ _ _ _ _ _ _ _ _ _ Hok E) as (ws & d1 & -> & F1 & K1 & M1 & L1).
    destruct (IH _ _ _ _ K1 H) as (ws' & d2 & -> & F2 & K2 & M2 & L2). exists (ws ++ ws'), d2.
    rewrite app_assoc. split; [done|]. split; [by apply Forall_app|]. split; [done|]. split; [by rewrite M2|].
    rewrite length_app. lia.
Qed.

Lemma disk_threads_ok c m is_ disks randoms cr first d disks' randoms' cr' :
  crew_ok first cr (randoms ++ disks) d -> disk_threads c m is_ disks randoms cr = Done (disks', randoms', cr') ->
  Forall (fun w => worker_status_ w = power_spike_status_) (disks ++ randoms) ->
  exists d', Forall (fun w => worker_status_ w = power_spike_status_) (disks' ++ randoms') /\
    crew_ok first cr' (randoms' ++ disks') d' /\ workers_map_ cr' = workers_map_ cr /\
    d' + Z.of_nat (length (disks' ++ randoms')) =
      d + Z.of_nat (length (disks ++ randoms)) + Z.of_nat (length is_) * (1 + Z.of_nat (Z.to_nat (get c "random_threads_"))).
Proof.
  revert disks randoms cr d. induction is_ as [|i is_ IH]; intros disks randoms cr d Hok H HF; cbn [disk_threads] in H.
  - injection H as <- <- <-. exists d. repeat (split; [done|]). cbn. lia.
  - destruct (diskfilename_ c !! _) as [device|]; [|done].
    destruct (disk_thread c m false device _ (disks, cr)) as [[t [v1 cr1]]| |] eqn:E; [|done|done]. cbn [obind] in H.
    destruct (disk_thread_ok _ _ _ _ _ _ _ _ _ _ _ _ _ Hok E) as (ws & d1 & -> & F1 & K1 & M1 & L1).
    apply (crew_ok_perm _ _ _ ((disks ++ ws) ++ randoms)) in K1; [|apply Permutation_app_comm].
    destruct (random_threads c m _ device t (randoms, cr1)) as [[v2 cr2]| |] eqn:E2; [|done|done]. cbn [obind] in H.
    destruct (random_threads_ok _ _ _ _ _ _ _ _ _ _ _ _ K1 E2) as (ws2 & d2 & -> & F2 & K2 & M2 & L2).
    apply (crew_ok_perm _ _ _ ((randoms ++ ws2) ++ disks ++ ws)) in K2; [|apply Permutation_app_comm].
    apply Forall_app in HF as [G1 G2].
    destruct (IH _ _ _ _ K2 H) as (d3 & F3 & K3 & M3 & L3); [rewrite !Forall_app; auto|].
    exists d3. split; [done|]. split; [done|]. split; [by rewrite M3, M2|].
    rewrite !length_app in *. cbn [length]. lia.
Qed.

(** *** The whole set-up *)

Definition object_of (ty : ThreadType) : StatusObject :=
  match ty with
  | kMemoryType | kFileIOType | kDiskType | kRandomDiskType | kCPUFreqType => power_spike_status_
  | _ => continuous_status_
  end.

(** The threads the options ask for. *)
Definition wanted (c : Sat) (m : Machine) (ty : ThreadType) : Z :=
  match ty with
  | kErrorType => if flag c "error_poll_" then 1 else 0
  | _ =>
      if flag c "monitor_mode_" then 0 else
      match ty with
      | kMemoryType => Z.max 0 (get c "memory_threads_")
      | kFileIOType => Z.max 0 (get c "file_threads_")
      | kNetIOType => Z.max 0 (get c "net_threads_")
      | kNetSlaveType => if 0 <? get c "listen_threads_" then 1 else 0
      | kCheckType => Z.max 0 (get c "check_threads_")
      | kInvertType => Z.max 0 (get c "invert_threads_")
      | kDiskType => Z.max 0 (get c "disk_threads_")
      | kRandomDiskType => Z.max 0 (get c "disk_threads_") * Z.max 0 (get c "random_threads_")
      | kCPUType => Z.max 0 (get c "cpu_stress_threads_")
      | kCCType => if flag c "cc_test_" then Z.max 0 (CpuCount m) else 0
      | kCPUFreqType => if flag c "cpu_freq_test_" then 1 else 0
      | kErrorType => 0
      end
  end.

(** A vector of the map is as it should be; those of the disk threads may lack some. *)
Definition entry_ok (c : Sat) (m : Machine) (x : ThreadType * list Worker) : Prop :=
  Forall (fun w => worker_status_ w = object_of x.1) x.2 /\
  (x.1 <> kDiskType -> x.1 <> kRandomDiskType -> Z.of_nat (length x.2) = wanted c m x.1).

(** Vectors of distinct types; a type without a vector is one of which no thread is wanted. *)
Record map_ok (c : Sat) (m : Machine) (mp : list (ThreadType * list Worker)) : Prop := {
  mo_types : NoDup (map fst mp);
  mo_entries : Forall (entry_ok c m) mp;
  mo_absent : forall ty, ty ∉ map fst mp -> wanted c m ty = 0
}.

(** A thread type whose vector is inserted by a loop. *)
Lemma add_entry c m ty n f cr first p d cr' :
  adds_one (object_of ty) f -> Z.max 0 n = wanted c m ty -> crew_ok first cr p d -> add_loop ty n f cr = Done cr' ->
  exists ws, entry_ok c m (ty, ws) /\ workers_map_ cr' = workers_map_ cr ++ [(ty, ws)] /\ crew_ok first cr' p d.
Proof.
  intros Hf Hn Hok H. destruct (add_loop_ok _ _ _ _ _ _ _ _ _ Hf Hok H) as (ws & Hl & HF & Hm & Hok').
  exists ws. split; [|done]. split; [done|]. intros _ _. cbn [fst snd]. rewrite Hl, <- Hn. lia.
Qed.

(** The deleted threads are the disk threads that are missing. *)
Definition missing (c : Sat) (m : Machine) (mp : list (ThreadType * list Worker)) (d : Z) : Prop :=
  d + Z.of_nat (length (flat_map snd (List.filter (fun x => bool_decide (x.1 = kDiskType)) mp))) +
      Z.of_nat (length (flat_map snd (List.filter (fun x => bool_decide (x.1 = kRandomDiskType)) mp))) =
  wanted c m kDiskType + wanted c m kRandomDiskType.

Ltac next_loop H W adds :=
  match type of H with
  | obind (add_loop ?ty ?n ?f ?cr) _ = Done _ =>
      let E := fresh "E" in let cr1 := fresh "cr" in
      destruct (add_loop ty n f cr) as [cr1| |] eqn:E; [|done|done]; cbn [obind] in H;
      eapply (add_entry _ _ ty _ _ _ _ _ _ _ adds W) in E; [|eassumption];
      let ws := fresh "ws" in let Hw := fresh "Hw" in let Hm := fresh "Hm" in let Hok := fresh "Hok" in
      destruct E as (ws & Hw & Hm & Hok)
  end.

Lemma upto_length n : Z.of_nat (length (upto n)) = Z.max 0 n.
Proof. unfold upto. rewrite length_zrange. lia. Qed.

(** The vectors in the order of their insertion, up to the CPU stress threads. *)
Record main_vectors (c : Sat) (m : Machine) (err : list Worker) (d : Z) (mp : list (ThreadType * list Worker)) : Prop := {
  mv_list : exists w1 w2 w3 w4 w5 w6 w7 w8 w9,
    mp = [(kErrorType, err); (kMemoryType, w1); (kFileIOType, w2); (kNetIOType, w3); (kNetSlaveType, w4);
          (kCheckType, w5); (kInvertType, w6); (kDiskType, w7); (kRandomDiskType, w8); (kCPUType, w9)];
  mv_entries : Forall (entry_ok c m) mp;
  mv_missing : missing c m mp d
}.

(** The optional loops behind them. *)
Definition tail_threads (c : Sat) (m : Machine) (cr : Crew) : Outcome Crew :=
  obind (if flag c "cc_test_" then
           obind (crash_if (negb (aligned_size (CacheCoherency.line_size (cc_layout c m)))))
             (fun _ => add_loop kCCType (CpuCount m) (cc_thread m) cr)
         else Done cr)
    (fun cr => if flag c "cpu_freq_test_" then add_loop kCPUFreqType 1 (plain_thread m power_spike_status_) cr else Done cr).

Lemma stress_threads_head c m cr first err cr' :
  flag c "monitor_mode_" = false -> workers_map_ cr = [(kErrorType, err)] -> entry_ok c m (kErrorType, err) ->
  crew_ok first cr [] 0 -> stress_threads c m cr = Done cr' ->
  exists cr1 d, crew_ok first cr1 [] d /\ main_vectors c m err d (workers_map_ cr1) /\ tail_threads c m cr1 = Done cr'.
Proof.
  intros Hmon Hmp Hentry Hok H. unfold stress_threads in H.
  assert (Wm : Z.max 0 (get c "memory_threads_") = wanted c m kMemoryType) by (cbn; by rewrite Hmon).
  assert (Wf : Z.max 0 (get c "file_threads_") = wanted c m kFileIOType) by (cbn; by rewrite Hmon).
  assert (Wn : Z.max 0 (get c "net_threads_") = wanted c m kNetIOType) by (cbn; by rewrite Hmon).
  assert (Wc : Z.max 0 (get c "check_threads_") = wanted c m kCheckType) by (cbn; by rewrite Hmon).
  assert (Wi : Z.max 0 (get c "invert_threads_") = wanted c m kInvertType) by (cbn; by rewrite Hmon).
  assert (Wp : Z.max 0 (get c "cpu_stress_threads_") = wanted c m kCPUType) by (cbn; by rewrite Hmon).
  next_loop H Wm (memory_adds c m). next_loop H Wf (named_adds m power_spike_status_ (filename_ c)).
  destruct (each _ _ _) as [[slaves cr2]| |] eqn:Es; [|done|done]. cbn [obind] in H.
  eapply (each_adds _ _ _ _ _ first [] 0) in Es as (sl & Hsl & Hls & HFs & Hoks & Hms); [|apply plain_adds|done].
  cbn in Hsl. subst slaves. cbn [app] in Hoks.
  next_loop H Wn (named_adds m continuous_status_ (ipaddrs_ c)).
  set (cr4 := insert_vector _ kNetSlaveType sl) in H.
  assert (Hok4 : crew_ok first cr4 [] 0) by (apply insert_vector_ok; by rewrite app_nil_r).
  next_loop H Wc (plain_adds m continuous_status_). next_loop H Wi (plain_adds m continuous_status_).
  destruct (disk_threads _ _ _ _ _ _) as [[[disks randoms] cr7]| |] eqn:Ed; [|done|done]. cbn [obind] in H.
  eapply disk_threads_ok in Ed as (d & HFd & Hokd & Hmd & Hld); [|done|constructor].
  set (cr8 := insert_vector _ kRandomDiskType randoms) in H.
  assert (Hok8 : crew_ok first cr8 [] d).
  { apply insert_vector_ok, insert_vector_ok. rewrite app_nil_r.
    eapply crew_ok_perm; [apply Permutation_app_comm|done]. }
  next_loop H Wp (cpu_stress_adds c m). exists cr9, d. split; [done|]. split; [|exact H].
  apply Forall_app in HFd as [HFd HFr].
  rewrite Hm4. cbn [workers_map_ insert_vector cr8]. rewrite Hmd, Hm3, Hm2. cbn [workers_map_ insert_vector cr4].
  rewrite Hm1, Hms, Hm0, Hm, Hmp. cbn [app]. split.
  - by repeat eexists.
  - rewrite !Forall_cons, Forall_nil. split_and!; try done.
    split; [done|]. intros _ _. cbn. rewrite Hmon, Hls, upto_length. by destruct (0 <? _).
  - unfold missing. simpl. rewrite Hmon, !app_nil_r. rewrite length_app, upto_length in Hld. cbn [length app] in Hld. lia.
Qed.

(** A vector that is only inserted for an option. *)
Lemma optional_entry (b : bool) c m ty n f cr first d cr' :
  adds_one (object_of ty) f -> (if b then Z.max 0 n else 0) = wanted c m ty -> crew_ok first cr [] d ->
  (if b then add_loop ty n f cr else Done cr) = Done cr' ->
  exists mp, workers_map_ cr' = workers_map_ cr ++ mp /\ crew_ok first cr' [] d /\ Forall (entry_ok c m) mp /\
    (mp = [] /\ wanted c m ty = 0 \/ exists ws, mp = [(ty, ws)]).
Proof.
  intros Hf Hw Hok H. destruct b.
  - destruct (add_entry _ _ _ _ _ _ _ _ _ _ Hf Hw Hok H) as (ws & He & Hm & Hok').
    exists [(ty, ws)]. split; [done|]. split; [done|]. split; [by apply Forall_singleton|]. right. by exists ws.
  - injection H as <-. exists []. rewrite app_nil_r. split; [done|]. split; [done|]. split; [by apply Forall_nil|]. by left.
Qed.

Lemma missing_app c m mp mp' d :
  Forall (fun x => x.1 <> kDiskType /\ x.1 <> kRandomDiskType) mp' -> missing c m mp d -> missing c m (mp ++ mp') d.
Proof.
  intros HF. unfold missing. rewrite !List.filter_app, !flat_map_app, !length_app.
  assert (E : forall ty, (forall x, x ∈ mp' -> x.1 <> ty) ->
                List.filter (fun x : ThreadType * list Worker => bool_decide (x.1 = ty)) mp' = []).
  { intros ty. clear HF. induction mp' as [|x mp' IH]; intros Ht; [done|]. cbn.
    rewrite bool_decide_eq_false_2 by (apply Ht; by left). apply IH. intros y Hy. apply Ht. by right. }
  rewrite Forall_forall in HF. rewrite !E by (intros x Hx; apply HF; done). cbn. lia.
Qed.

Lemma tail_threads_ok c m cr first err d cr' :
  flag c "monitor_mode_" = false -> crew_ok first cr [] d -> main_vectors c m err d (workers_map_ cr) ->
  tail_threads c m cr = Done cr' ->
  crew_ok first cr' [] d /\ map_ok c m (workers_map_ cr') /\ missing c m (workers_map_ cr') d.
Proof.
  intros Hmon Hok [Hl He Hmis] H. unfold tail_threads in H.
  assert (Wc : (if flag c "cc_test_" then Z.max 0 (CpuCount m) else 0) = wanted c m kCCType) by (cbn; by rewrite Hmon).
  assert (Wf : (if flag c "cpu_freq_test_" then Z.max 0 1 else 0) = wanted c m kCPUFreqType) by (cbn; by rewrite Hmon).
  destruct (if flag c "cc_test_" then _ else _) as [cr1| |] eqn:E; [|done|done]. cbn [obind] in H.
  assert (E' : (if flag c "cc_test_" then add_loop kCCType (CpuCount m) (cc_thread m) cr else Done cr) = Done cr1).
  { destruct (flag c "cc_test_"); [|done]. unfold crash_if in E. by destruct (negb _). }
  destruct (optional_entry _ _ _ kCCType _ _ _ _ _ _ (cc_adds m) Wc Hok E') as (mp1 & M1 & K1 & F1 & C1).
  destruct (optional_entry _ _ _ kCPUFreqType _ _ _ _ _ _ (plain_adds m power_spike_status_) Wf K1 H)
    as (mp2 & M2 & K2 & F2 & C2).
  split; [done|]. rewrite M2, M1.
  assert (Hother : Forall (fun x => x.1 <> kDiskType /\ x.1 <> kRandomDiskType) (mp1 ++ mp2)).
  { apply Forall_app. split; [destruct C1 as [[-> _]|[ws ->]]|destruct C2 as [[-> _]|[ws ->]]];
      first [by apply Forall_nil|apply Forall_singleton; done]. }
  split; [|rewrite <- app_assoc; by apply missing_app].
  destruct Hl as (w1 & w2 & w3 & w4 & w5 & w6 & w7 & w8 & w9 & El). rewrite El in *. split.
  - destruct C1 as [[-> _]|[ws ->]], C2 as [[-> _]|[ws' ->]]; apply (bool_decide_unpack _); vm_compute; exact I.
  - rewrite !Forall_app. auto.
  - intros ty Hty. rewrite !map_app in Hty. apply not_elem_of_app in Hty as [[Hty H1]%not_elem_of_app H2].
    destruct ty; try (exfalso; apply Hty; apply (bool_decide_unpack _); vm_compute; exact I).
    + destruct C1 as [[_ ->]|[ws ->]]; [done|]. exfalso. apply H1. by left.
    + destruct C2 as [[_ ->]|[ws ->]]; [done|]. exfalso. apply H2. by left.
Qed.

(** What the set-up promises. *)
Lemma InitializeThreads_ok c m first os cr :
  InitializeThreads c m (mkCrew first 0 0 [] os) = Done cr ->
  exists d, crew_ok first cr [] d /\ map_ok c m (workers_map_ cr) /\ missing c m (workers_map_ cr) d.
Proof.
  unfold InitializeThreads. intros H.
  assert (Hok : crew_ok first (mkCrew first 0 0 [] os) [] 0) by (split; cbn; try lia; constructor).
  assert (We : Z.max 0 (if flag c "error_poll_" then 1 else 0) = wanted c m kErrorType)
    by (cbn; by destruct (flag c "error_poll_")).
  next_loop H We (plain_adds m continuous_status_). cbn [workers_map_ app] in Hm.
  destruct (flag c "monitor_mode_") eqn:Hmon.
  - injection H as <-. exists 0. rewrite Hm. split; [done|]. split.
    + split; [by apply NoDup_singleton|by apply Forall_singleton|]. intros ty Hty.
      destruct ty; cbn [wanted]; rewrite ?Hmon; try done. exfalso. apply Hty. by left.
    + unfold missing. simpl. by rewrite Hmon.
  - destruct (stress_threads_head _ _ _ _ _ _ Hmon Hm Hw Hok0 H) as (cr1 & d & K1 & K2 & K3).
    exists d. by apply (tail_threads_ok _ _ cr1 _ ws).
Qed.

(** ** The barriers *)

Definition vec (mp : list (ThreadType * list Worker)) (ty : ThreadType) : list Worker :=
  flat_map snd (List.filter (fun x => bool_decide (x.1 = ty)) mp).

Lemma vec_cons x mp tys :
  NoDup tys -> flat_map (vec (x :: mp)) tys ≡ₚ (if bool_decide (x.1 ∈ tys) then x.2 else []) ++ flat_map (vec mp) tys.
Proof.
  induction 1 as [|ty tys Hn _ IH]; [done|]. cbn [flat_map]. rewrite IH. unfold vec at 1. cbn [List.filter].
  destruct (decide (x.1 = ty)) as [He|Hne].
  - rewrite (bool_decide_eq_true_2 _ He), (bool_decide_eq_false_2 (x.1 ∈ tys)) by (by rewrite He).
    rewrite bool_decide_eq_true_2 by (rewrite He; by left). cbn [flat_map]. fold (vec mp ty). by rewrite <- app_assoc.
  - rewrite (bool_decide_eq_false_2 _ Hne). fold (vec mp ty).
    rewrite (bool_decide_ext (x.1 ∈ ty :: tys) (x.1 ∈ tys)) by (rewrite elem_of_cons; tauto).
    rewrite !app_assoc. f_equiv. apply Permutation_app_comm.
Qed.

Lemma all_workers_inserted cr : all_workers cr ≡ₚ inserted cr.
Proof.
  unfold all_workers, inserted. change (vector cr) with (vec (workers_map_ cr)).
  induction (workers_map_ cr) as [|x mp IH]; [done|]. rewrite vec_cons by (apply (bool_decide_unpack _); vm_compute; exact I).
  rewrite IH, bool_decide_eq_true_2; [done|]. destruct (x.1); apply (bool_decide_unpack _); vm_compute; exact I.
Qed.

Lemma spawn_loop_spec creates ws s :
  let s' := spawn_loop creates ws s in
  let lost ob := count (fun w => negb (creates w) && on ob w) ws in
  num_workers_ (power_spike s') = num_workers_ (power_spike s) - lost power_spike_status_ /\
  num_workers_ (continuous s') = num_workers_ (continuous s) - lost continuous_status_ /\
  (pause_barrier_ (power_spike s) = num_workers_ (power_spike s) + 1 ->
   pause_barrier_ (power_spike s') = num_workers_ (power_spike s') + 1) /\
  (pause_barrier_ (continuous s) = num_workers_ (continuous s) + 1 ->
   pause_barrier_ (continuous s') = num_workers_ (continuous s') + 1) /\
  bad_statuses s' = bad_statuses s + count (fun w => negb (creates w)) ws /\
  spawn_result s' = spawn_result s && forallb creates ws.
Proof.
  revert s. induction ws as [|w ws IH]; intros s; cbn zeta; cbn [spawn_loop forallb].
  - unfold count. cbn. rewrite andb_true_r. repeat split; lia || done.
  - destruct (IH (if creates w then s else
                  match worker_status_ w with
                  | power_spike_status_ => mkSpawned (RemoveUnspawnedWorker (power_spike s)) (continuous s) (bad_statuses s + 1) false
                  | continuous_status_ => mkSpawned (power_spike s) (RemoveUnspawnedWorker (continuous s)) (bad_statuses s + 1) false
                  end)) as (I1 & I2 & I3 & I4 & I5 & I6).
    unfold count in *. cbn [List.filter]. destruct (creates w) eqn:Hc; [done|].
    change (on power_spike_status_ w) with (bool_decide (worker_status_ w = power_spike_status_)).
    change (on continuous_status_ w) with (bool_decide (worker_status_ w = continuous_status_)).
    destruct (worker_status_ w); simpl bool_decide; cbn [andb negb power_spike continuous num_workers_ pause_barrier_
      RemoveUnspawnedWorker bad_statuses spawn_result length] in *; rewrite I6, andb_false_r; repeat split; lia.
Qed.

Lemma count_split P Q ws : count Q ws = count (fun w => P w && Q w) ws + count (fun w => negb (P w) && Q w) ws.
Proof. unfold count. induction ws as [|w ws IH]; [done|]. cbn. destruct (P w), (Q w); cbn; lia. Qed.

(** The threads that run and use an object. *)
Definition alive (creates : Worker -> bool) (cr : Crew) (ob : StatusObject) : Z :=
  count (fun w => creates w && on ob w) (all_workers cr).
Definition dropped (c : Sat) (m : Machine) (cr : Crew) : Z :=
  wanted c m kDiskType + wanted c m kRandomDiskType - Z.of_nat (length (vector cr kDiskType)) -
  Z.of_nat (length (vector cr kRandomDiskType)).

Lemma spawn_counts c m first os cr creates :
  InitializeThreads c m (mkCrew first 0 0 [] os) = Done cr ->
  0 <= dropped c m cr /\
  power_spike (SpawnThreads creates cr) = Initialize (alive creates cr power_spike_status_ + dropped c m cr) /\
  continuous (SpawnThreads creates cr) = Initialize (alive creates cr continuous_status_).
Proof.
  intros H. apply InitializeThreads_ok in H as (d & Hok & Hm & Hd). unfold missing in Hd.
  assert (E : dropped c m cr = d) by (unfold dropped; fold (vec (workers_map_ cr)) in Hd; unfold vector; lia).
  destruct Hok as [K1 K2 K3 K4 K5 K6]. rewrite app_nil_r, <- all_workers_inserted in *. rewrite E. split; [done|].
  destruct (spawn_loop_spec creates (all_workers cr)
    (mkSpawned (Initialize (power_spike_workers cr)) (Initialize (continuous_workers cr)) 0 true))
    as (I1 & I2 & I3 & I4 & _). fold (SpawnThreads creates cr) in *. cbn in I1, I2, I3, I4.
  specialize (I3 eq_refl). specialize (I4 eq_refl).
  rewrite (count_split creates) in K2, K3. fold (alive creates cr power_spike_status_) in K2.
  fold (alive creates cr continuous_status_) in K3.
  split; [destruct (power_spike _) | destruct (continuous _)]; cbn in *; unfold Initialize; f_equal; lia.
Qed.

Lemma vector_in cr ty : vector cr ty = vec (workers_map_ cr) ty.
Proof. done. Qed.

(** The vector of a type is the one that was inserted, or empty. *)
Lemma vec_ok c m mp ty : map_ok c m mp ->
  Forall (fun w => worker_status_ w = object_of ty) (vec mp ty) /\
  (ty <> kDiskType -> ty <> kRandomDiskType -> Z.of_nat (length (vec mp ty)) = wanted c m ty).
Proof.
  intros [H1 H2 H3]. destruct (decide (ty ∈ map fst mp)) as [Hin|Hout].
  - assert (He : exists ws, (ty, ws) ∈ mp /\ vec mp ty = ws).
    { clear H2 H3. induction mp as [|[t v] mp IH]; cbn in H1, Hin; [by apply elem_of_nil in Hin|].
      apply NoDup_cons in H1 as [Hn H1]. unfold vec. cbn [List.filter fst]. destruct (decide (t = ty)) as [->|Hne].
      - exists v. split; [by left|]. rewrite bool_decide_eq_true_2 by done. cbn [flat_map snd].
        assert (Hz : List.filter (fun x => bool_decide (x.1 = ty)) mp = []); [|rewrite Hz; cbn; by rewrite app_nil_r].
        clear - Hn. induction mp as [|[t' v'] mp IH]; [done|]. cbn in *. apply not_elem_of_cons in Hn as [? ?].
        rewrite bool_decide_eq_false_2 by done. by apply IH.
      - rewrite bool_decide_eq_false_2 by done. apply elem_of_cons in Hin as [?|Hin]; [congruence|].
        destruct (IH H1 Hin) as (ws & Hws & Hv). exists ws. split; [by right|done]. }
    destruct He as (ws & Hws & ->). rewrite Forall_forall in H2. by apply (H2 _ Hws).
  - assert (Hz : vec mp ty = []).
    { clear - Hout. unfold vec. induction mp as [|[t' v'] mp IH]; [done|]. cbn in *.
      apply not_elem_of_cons in Hout as [? ?]. rewrite bool_decide_eq_false_2 by done. by apply IH. }
    rewrite Hz. split; [constructor|]. intros _ _. by rewrite H3.
Qed.

(** C21. Whatever the options and the machine, when [InitializeThreads] returns, the threads
    have distinct numbers, there are as many of each type as the options ask for, disk
    threads apart, and they use the [WorkerStatus] object of their type; and when
    [SpawnThreads] has started those that could be started, the barrier of the threads that
    are never paused waits for those that run and the control thread, that of the others
    also for the disk threads that were deleted. *)
Theorem threads_registered c m first os cr creates :
  InitializeThreads c m (mkCrew first 0 0 [] os) = Done cr ->
  NoDup (map thread_num_ (all_workers cr)) /\
  (forall ty, Forall (fun w => worker_status_ w = object_of ty) (vector cr ty)) /\
  (forall ty, ty <> kDiskType -> ty <> kRandomDiskType -> Z.of_nat (length (vector cr ty)) = wanted c m ty) /\
  0 <= dropped c m cr /\
  pause_barrier_ (power_spike (SpawnThreads creates cr)) = alive creates cr power_spike_status_ + dropped c m cr + 1 /\
  pause_barrier_ (continuous (SpawnThreads creates cr)) = alive creates cr continuous_status_ + 1 /\
  spawn_result (SpawnThreads creates cr) = forallb creates (all_workers cr).
Proof.
  intros H. destruct (spawn_counts _ _ _ _ _ creates H) as (Hd & -> & ->).
  apply InitializeThreads_ok in H as (d & Hok & Hm & _).
  split; [rewrite all_workers_inserted; apply ck_numbers in Hok; by rewrite app_nil_r in Hok|].
  split; [intros ty; apply (vec_ok _ _ _ ty Hm)|]. split; [intros ty; apply (vec_ok _ _ _ ty Hm)|].
  split; [done|]. split; [done|]. split; [done|].
  unfold SpawnThreads. apply (spawn_loop_spec creates (all_workers cr)).
Qed.

(** ** Threads that are missing at the barrier *)

Import WorkerStatus WorkerStatusFacts.

(** Fewer workers than the barrier waits for. *)
Record short (s : WorkerStatus) : Prop := {
  sh_workers : Z.of_nat (length (List.filter is_active (workers s))) < WorkerStatus.num_workers_ s;
  sh_barrier : WorkerStatus.pause_barrier_ s = WorkerStatus.num_workers_ s + 1;
  sh_status : status_ s = status_of (control s);
  sh_control : In (control s) [Running; ToPause; AtPause; AllStopped]
}.

(** Nobody is released. *)
Lemma short_waits s : short s -> WaitOnPauseBarrier s = s.
Proof.
  intros [H1 H2 _ _]. unfold WaitOnPauseBarrier, waiting. pose proof (waits_active (workers s)).
  destruct (Z.eqb_spec (Z.of_nat (length (List.filter worker_waits (workers s))) + Z.b2z (control_waits (control s)))
              (WorkerStatus.pause_barrier_ s)); [|done].
  destruct (control_waits (control s)); cbn [Z.b2z] in *; lia.
Qed.

Lemma short_worker s i w w' :
  short s -> workers s !! i = Some w -> is_active w = true -> short (set_worker s i w').
Proof.
  intros [H1 H2 H3 H4] Hi Ha. split; cbn; try done. rewrite (filter_insert_count _ _ _ _ _ Hi), Ha.
  destruct (is_active w'); cbn; lia.
Qed.

Lemma short_step s s' : short s -> WorkerStatus.step s s' ->
  short s' /\ (control s = AtPause -> control s' = AtPause).
Proof.
  intros Hs Hstep. pose proof Hs as [H1 H2 H3 H4]. cbn in H4.
  destruct Hstep as [s Hc|s Hc|s Hc|s cc Hc|s i Hi|s i Hi|s i Hi|s i Hi|s i w w' Hi Hw].
  - split; [|congruence]. unfold PauseWorkers. cbn [SetStatus]. rewrite bool_decide_true by (by rewrite H3, Hc).
    split; cbn; auto.
  - exfalso. intuition congruence.
  - destruct Hc as [Hc|Hc]; [|exfalso; intuition congruence]. split; [|congruence].
    unfold StopWorkers. cbn [SetStatus]. rewrite bool_decide_false by (by rewrite H3, Hc). split; cbn; auto.
  - assert (Hp : control s = ToPause /\ cc = AtPause).
    { destruct (control s); cbn in Hc; try done; intuition congruence. }
    destruct Hp as [Hp ->]. assert (K : short (set_control s AtPause)).
    { split; cbn; auto. by rewrite H3, Hp. }
    rewrite (short_waits _ K). split; [done|]. congruence.
  - split; [by eapply short_worker|done].
  - split; [destruct Hi; by eapply short_worker|done].
  - split; [by eapply short_worker|done].
  - unfold RemoveSelf. case_bool_decide as Hst; [|split; [by eapply short_worker|done]].
    split; [|done]. split; cbn; try done. + rewrite (filter_insert_count _ _ _ _ _ Hi). cbn. lia. + lia.
  - assert (K : short (set_worker s i w')) by (eapply short_worker; [done..|]; by destruct w).
    rewrite (short_waits _ K). by split.
Qed.

(** The object of the workers that are paused, when the threads have been started. *)
Definition start_status (b : Barrier) (n : Z) : WorkerStatus :=
  mkStatus RUN (SatThreads.num_workers_ b) (SatThreads.pause_barrier_ b) Running (replicate (Z.to_nat n) Working).

Lemma filter_replicate (f : WorkerPc -> bool) n w : f w = true -> List.filter f (replicate n w) = replicate n w.
Proof. intros H. induction n as [|n IH]; [done|]. cbn. by rewrite H, IH. Qed.

Lemma alive_nonneg creates cr ob : 0 <= alive creates cr ob.
Proof. unfold alive, count. lia. Qed.

(** C22. A disk thread whose parameters are refused is deleted but stays registered: from then
    on no call of [PauseWorkers] returns, in any interleaving of the workers and the control
    thread.  Without such a thread the pause protocol starts as its proof assumes, with
    exactly the workers that run. *)
Theorem deleted_disk_thread_blocks_pause c m first os cr creates s :
  InitializeThreads c m (mkCrew first 0 0 [] os) = Done cr ->
  let n := alive creates cr power_spike_status_ in
  let st := start_status (power_spike (SpawnThreads creates cr)) n in
  (dropped c m cr = 0 -> st = WorkerStatus.Initialize (Z.to_nat n)) /\
  (0 < dropped c m cr -> rtc WorkerStatus.step st s ->
   control s <> Paused /\ forall s', control s = AtPause -> rtc WorkerStatus.step s s' -> control s' = AtPause).
Proof.
  intros H n st. destruct (spawn_counts _ _ _ _ _ creates H) as (Hd & Hp & _). fold n in Hp.
  pose proof (alive_nonneg creates cr power_spike_status_ : 0 <= n) as Hn.
  unfold st, start_status. rewrite Hp. cbn [SatThreads.Initialize SatThreads.num_workers_ SatThreads.pause_barrier_].
  split.
  - intros ->. unfold WorkerStatus.Initialize. pose proof (Z2Nat.id n Hn) as En. rewrite En, Z.add_0_r. done.
  - intros Hpos Hr.
    assert (Hs : short s).
    { assert (K : short (mkStatus RUN (n + dropped c m cr) (n + dropped c m cr + 1) Running (replicate (Z.to_nat n) Working))).
      { split; cbn; [|done|done|auto]. rewrite filter_replicate, length_replicate by done. lia. }
      revert K. clear - Hr. induction Hr as [|x y z Hxy _ IH]; [done|]. intros K. apply IH. by eapply short_step. }
    split; [intros Hc; pose proof (sh_control s Hs) as Hin; rewrite Hc in Hin; cbn in Hin; intuition congruence|].
    intros s' Hc Hr'. clear Hr. induction Hr' as [|x y z Hxy _ IH]; [done|].
    destruct (short_step _ _ Hs Hxy) as [Hy Hcy]. apply IH; auto.
Qed.

(** *** Samples *)

Definition sample_os : OsLayer.OsLayer := OsLayer.mkOs 0 0 1 1 4 [0] [false] None 0 0 0 0 false.
Definition sample_machine : Machine := mkMachine 15 4 64 1 1 sample_os.

(** A block size that is no multiple of a sector. *)
Definition refused_args : list string :=
  ["-m"; "1"; "-f"; "/tmp/a"; "-d"; "/dev/sdb"; "--read-block-size"; "1000"; "--random-threads"; "1"; "--cc_test"]%string.
Definition refused_config : Sat := match ParseArgs refused_args with Accepted c => c | _ => new_Sat end.
Definition refused_crew : Crew :=
  match InitializeThreads refused_config sample_machine (mkCrew 8 0 0 [] sample_os) with
  | Done cr => cr
  | _ => mkCrew 0 0 0 [] sample_os
  end.

Lemma refused_crew_done :
  InitializeThreads refused_config sample_machine (mkCrew 8 0 0 [] sample_os) = Done refused_crew /\
  dropped refused_config sample_machine refused_crew = 2 /\ length (all_workers refused_crew) = 7%nat /\
  alive (fun _ => true) refused_crew power_spike_status_ = 2.
Proof. vm_compute. by repeat split. Qed.

Lemma threads_registered_witness :
  length (all_workers refused_crew) = 7%nat /\
  SatThreads.pause_barrier_ (power_spike (SpawnThreads (fun _ => true) refused_crew)) =
    alive (fun _ => true) refused_crew power_spike_status_ + dropped refused_config sample_machine refused_crew + 1.
Proof.
  destruct refused_crew_done as (H1 & H2 & H3 & H4). split; [exact H3|].
  apply (threads_registered refused_config sample_machine 8 sample_os refused_crew (fun _ => true) H1).
Defined.

Lemma deleted_disk_thread_blocks_pause_witness :
  exists s, control s = AtPause /\
    forall s', rtc WorkerStatus.step s s' -> control s' = AtPause.
Proof.
  destruct refused_crew_done as (H1 & H2 & H3 & H4).
  set (st := start_status (power_spike (SpawnThreads (fun _ => true) refused_crew))
               (alive (fun _ => true) refused_crew power_spike_status_)).
  assert (Hst : st = mkStatus RUN 4 5 Running (replicate 2 Working)) by (vm_compute; reflexivity).
  assert (Hr : rtc WorkerStatus.step st (mkStatus PAUSE 4 5 AtPause (replicate 2 Working))).
  { rewrite Hst. eapply rtc_l; [apply (step_pause); reflexivity|]. cbn.
    eapply rtc_l; [apply (step_control_wait _ AtPause); reflexivity|]. apply rtc_refl. }
  exists (mkStatus PAUSE 4 5 AtPause (replicate 2 Working)). split; [reflexivity|]. intros s' Hs'.
  destruct (deleted_disk_thread_blocks_pause refused_config sample_machine 8 sample_os refused_crew (fun _ => true)
              (mkStatus PAUSE 4 5 AtPause (replicate 2 Working)) H1) as [_ K].
  apply (K ltac:(rewrite H2; lia) Hr); [reflexivity|exact Hs'].
Defined.
End SatThreadsFacts.
