(* ===== verification/SatRun.v ===== *)
(** The control thread: the loop of [Sat::Run], [NextOccurance] and
    [Sat::ApplyDramFrequency] of [src/src/sat.cc].

    The options are those of [Options.v].  What the program reads of its surroundings (the
    clock, signals, system calls) is an argument.  Times are in
    seconds and far from the limits of [time_t].  Log lines and statistics are left out. *)

From Stdlib Require Import Ascii String.
From S2P Require Import Prelude Text Options.

Module SatRun.
Import Options.
Local Open Scope string_scope.
Local Open Scope Z_scope.

Definition flag (c : Sat) (m : string) : bool := negb (get c m =? 0).

(** ** Frequency requests *)

(** What one [write] returns; errors are interrupts or others. *)
Inductive WriteResult := Written (n : Z) | WriteInterrupted | WriteFailed.

Fixpoint write_request (results : list WriteResult) : Z :=
  match results with
  | [] => -1
  | Written n :: _ => n
  | WriteInterrupted :: rest => write_request rest
  | WriteFailed :: _ => -1
  end.

(** [current_dram_frequency_] and [dram_frequency_epoch_]. *)
Record Requested := mkRequested { current_dram_frequency_ : Z; dram_frequency_epoch_ : Z }.

Definition request_message (frequency : Z) : Text.text :=
  (Text.txt "{class:ddr, res:fixed, val:" ++ Text.fmt_d frequency ++ Text.txt "}" ++ [ascii_of_nat 10])%list.

Definition ApplyDramFrequency (opened : bool) (results : list WriteResult) (closed : bool) (frequency : Z)
    (q : Requested) : bool * Requested :=
  let message_length := Z.of_nat (length (request_message frequency)) in
  if (message_length <=? 0) || (128 <=? message_length) then (false, q)
  else if negb opened then (false, q)
  else if negb (write_request results =? message_length) then (false, q)
  else if negb closed then (false, q)
  else (true, mkRequested frequency (u64 (dram_frequency_epoch_ q + 1))).

(** ** The schedule of [Run] *)

(** [None]: division by zero. *)
Definition NextOccurance (frequency start now : Z) : option Z :=
  if frequency =? 0 then None else Some (start + frequency + Z.quot (now - start) frequency * frequency).

(** What the control thread does; each action carries its time in a trace. *)
Inductive Action :=
| PrintRemaining | InjectError | RequestFrequency (f : Z) | PauseWorkers | ResumeWorkers | Sleep (seconds : Z).

(** What one turn of the loop reads: [time], [user_break_], [error_stop_requested], the
    error count and whether a frequency request is written. *)
Record Reading := mkReading {
  now : Z; user_break : bool; stop_requested : bool; errors : Z; node_written : bool
}.

Record Schedule := mkSchedule {
  next_print : Z; next_pause : Z; next_resume : Z; next_dram_frequency : Z; next_injection : Z;
  dram_frequency_index : nat
}.

(** The loop goes on, is left with the value of [run_ok], or divides by zero. *)
Inductive Turn := Continue (s : Schedule) | Leave (run_ok : bool) | Crash.

Definition kInjectionFrequency : Z := 10.

Section Loop.
Context (c : Sat) (start : Z).

Definition end_ : Z := start + get c "runtime_seconds_".
Definition dram_sweep_active : bool := flag c "dram_sweep_" && (1 <? length (dram_frequencies_ c))%nat.
Definition sleep_frequency : Z := if dram_sweep_active then 1 else 5.

Definition start_schedule : Schedule :=
  mkSchedule (start + get c "print_delay_") (start + get c "pause_delay_") 0
    (if dram_sweep_active then start + get c "dram_step_seconds_" else 0)
    (if flag c "crazy_error_injection_" then start + kInjectionFrequency else 0) 0.

(** [if (now >= next_print)]. *)
Definition print_part (r : Reading) (s : Schedule) : option (Schedule * list Action) :=
  if next_print s <=? now r then
    next ← NextOccurance (get c "print_delay_") start (now r);
    Some (mkSchedule next (next_pause s) (next_resume s) (next_dram_frequency s) (next_injection s)
            (dram_frequency_index s), [PrintRemaining])
  else Some (s, []).

(** [if (next_injection && now >= next_injection)]. *)
Definition injection_part (r : Reading) (s : Schedule) : option (Schedule * list Action) :=
  if negb (next_injection s =? 0) && (next_injection s <=? now r) then
    next ← NextOccurance kInjectionFrequency start (now r);
    Some (mkSchedule (next_print s) (next_pause s) (next_resume s) (next_dram_frequency s) next
            (dram_frequency_index s), [InjectError])
  else Some (s, []).

(** [if (next_dram_frequency && now >= next_dram_frequency)]; the flag is the result of the
    request. *)
Definition frequency_part (r : Reading) (s : Schedule) : option (Schedule * list Action * bool) :=
  if negb (next_dram_frequency s =? 0) && (next_dram_frequency s <=? now r) then
    let index := ((dram_frequency_index s + 1) mod length (dram_frequencies_ c))%nat in
    let request := [RequestFrequency (nth index (dram_frequencies_ c) 0)] in
    if node_written r then
      next ← NextOccurance (get c "dram_step_seconds_") start (now r);
      Some (mkSchedule (next_print s) (next_pause s) (next_resume s) next (next_injection s) index, request, true)
    else Some (s, request, false)
  else Some (s, [], true).

Definition pause_part (r : Reading) (s : Schedule) : Schedule * list Action :=
  if negb (next_pause s =? 0) && (next_pause s <=? now r) then
    (mkSchedule (next_print s) 0 (now r + get c "pause_duration_") (next_dram_frequency s) (next_injection s)
       (dram_frequency_index s), [PauseWorkers])
  else (s, []).

Definition resume_part (r : Reading) (s : Schedule) : option (Schedule * list Action) :=
  if negb (next_resume s =? 0) && (next_resume s <=? now r) then
    next ← NextOccurance (get c "pause_delay_") start (now r);
    Some (mkSchedule (next_print s) next 0 (next_dram_frequency s) (next_injection s) (dram_frequency_index s),
          [ResumeWorkers])
  else Some (s, []).

(** [if (errors > max_errorcount_)] under its guard. *)
Definition too_many_errors (r : Reading) : bool :=
  negb (get c "max_errorcount_" =? 0) && (get c "max_errorcount_" <? u64 (errors r)).

(** The body of the loop: the actions it takes and how it ends. *)
Definition turn (r : Reading) (s : Schedule) : list Action * Turn :=
  if user_break r || stop_requested r then ([], Leave true)
  else if too_many_errors r then ([], Leave true)
  else
    match print_part r s with
    | None => ([], Crash)
    | Some (s, a1) =>
        match injection_part r s with
        | None => (a1, Crash)
        | Some (s, a2) =>
            match frequency_part r s with
            | None => (a1 ++ a2, Crash)%list
            | Some (s, a3, false) => (a1 ++ a2 ++ a3, Leave false)%list
            | Some (s, a3, true) =>
                let '(s, a4) := pause_part r s in
                match resume_part r s with
                | None => (a1 ++ a2 ++ a3 ++ a4, Crash)%list
                | Some (s, a5) =>
                    match NextOccurance sleep_frequency start (now r) with
                    | None => (a1 ++ a2 ++ a3 ++ a4 ++ a5, Crash)%list
                    | Some next => (a1 ++ a2 ++ a3 ++ a4 ++ a5 ++ [Sleep (next - now r)], Continue s)%list
                    end
                end
            end
        end
    end.

(** The loop, with the readings of its turns: the actions with their times, and the value of
    [run_ok] behind the loop; [None] when the readings are used up or after a crash. *)
Fixpoint run_loop (readings : list Reading) (s : Schedule) : list (Z * Action) * option bool :=
  match readings with
  | [] => ([], None)
  | r :: rest =>
      if now r <? end_ then
        let '(acts, t) := turn r s in
        let timed := map (pair (now r)) acts in
        match t with
        | Continue s => let '(tr, b) := run_loop rest s in (timed ++ tr, b)%list
        | Leave b => (timed, Some b)
        | Crash => (timed, None)
        end
      else ([], Some true)
  end.
End Loop.
End SatRun.

(** ** What the schedule promises *)
Module SatRunFacts.
Import Options SatRun.
Local Open Scope Z_scope.

(** The contract of the control thread, read off the times of its actions: the workers are
    paused only while they run and resumed only [duration] seconds or more after their
    pause; frequency requests walk through the list in a circle; a sleep lasts at most one
    period, or less than two when the clock was set back before the start. *)
Record Contract := mkContract { paused_at : option Z; position : nat }.

Definition longest_sleep (c : Sat) (start t : Z) : Z :=
  if start <=? t then sleep_frequency c else 2 * sleep_frequency c - 1.

Definition allowed (c : Sat) (start : Z) (m : Contract) (t : Z) (a : Action) : option Contract :=
  match a with
  | PrintRemaining | InjectError => Some m
  | RequestFrequency f =>
      let p := ((position m + 1) mod length (dram_frequencies_ c))%nat in
      if bool_decide (dram_frequencies_ c !! p = Some f) then Some (mkContract (paused_at m) p) else None
  | PauseWorkers => match paused_at m with Some _ => None | None => Some (mkContract (Some t) (position m)) end
  | ResumeWorkers =>
      match paused_at m with
      | Some t0 => if t0 + get c "pause_duration_" <=? t then Some (mkContract None (position m)) else None
      | None => None
      end
  | Sleep d => if (1 <=? d) && (d <=? longest_sleep c start t) then Some m else None
  end.

Fixpoint obeys (c : Sat) (start : Z) (m : Contract) (tr : list (Z * Action)) : option Contract :=
  match tr with
  | [] => Some m
  | (t, a) :: tr => m ← allowed c start m t a; obeys c start m tr
  end.

(** The clock at each turn: not before the last sleep was over, so it is not set back.  A
    shorter sleep needs a signal, after which the loop is left. *)
Fixpoint on_time (c : Sat) (start t : Z) (rs : list Reading) : Prop :=
  match rs with
  | [] => True
  | r :: rs => t <= now r /\ on_time c start (default 0 (NextOccurance (sleep_frequency c) start (now r))) rs
  end.

Lemma NextOccurance_spec f start t : 0 < f -> start <= t ->
  exists k, NextOccurance f start t = Some (start + f * k) /\ 1 <= k /\ t < start + f * k <= t + f.
Proof.
  intros Hf Ht. unfold NextOccurance. destruct (Z.eqb_spec f 0); [lia|]. rewrite Z.quot_div_nonneg by lia.
  pose proof (Z.div_mod (t - start) f ltac:(lia)). pose proof (Z.mod_pos_bound (t - start) f Hf).
  pose proof (Z.div_pos (t - start) f ltac:(lia) Hf).
  exists ((t - start) / f + 1). split; [f_equal; lia|]. lia.
Qed.

(** At any time, also before [start]. *)
Lemma NextOccurance_after f start t : 0 < f -> 0 < start -> 0 < t ->
  exists next, NextOccurance f start t = Some next /\ t < next < t + 2 * f /\ (start <= t -> next <= t + f).
Proof.
  intros Hf Hs Ht. destruct (Z.le_gt_cases start t) as [Hle|Hgt].
  - destruct (NextOccurance_spec f start t Hf Hle) as (k & -> & _ & Hk). eexists. split; [done|]. lia.
  - unfold NextOccurance. destruct (Z.eqb_spec f 0); [lia|]. eexists. split; [done|].
    replace (t - start) with (- (start - t)) by lia. rewrite Z.quot_opp_l, Z.quot_div_nonneg by lia.
    pose proof (Z.div_mod (start - t) f ltac:(lia)). pose proof (Z.mod_pos_bound (start - t) f Hf). lia.
Qed.

Lemma obeys_app c start m tr tr' : obeys c start m (tr ++ tr') = (obeys c start m tr ≫= fun m => obeys c start m tr').
Proof. revert m. induction tr as [|[t a] tr IH]; intros m; [done|]. cbn. destruct (allowed _ _ _ _); [apply IH|done]. Qed.

Section Schedule.
Context (c : Sat) (start : Z).
Hypotheses (Hstart : 0 < start) (Hprint : 0 < get c "print_delay_") (Hpause : 0 < get c "pause_delay_")
  (Hstep : 0 < get c "dram_step_seconds_") (Hdur : 0 <= get c "pause_duration_").

(** The schedule and the contract agree. *)
Record agrees (s : Schedule) (m : Contract) : Prop := {
  ag_pause : match paused_at m with
             | None => 0 < next_pause s /\ next_resume s = 0
             | Some t => next_pause s = 0 /\ 0 < t /\ next_resume s = t + get c "pause_duration_"
             end;
  ag_index : dram_frequency_index s = position m;
  ag_sweep : next_dram_frequency s <> 0 -> dram_sweep_active c = true
}.

Lemma start_agrees : agrees (start_schedule c start) (mkContract None 0).
Proof. split; cbn; [lia|done|]. by destruct (dram_sweep_active c). Qed.

Local Abbreviation timed r := (map (pair (now r))).

Lemma print_agrees r s m : 0 < now r -> agrees s m ->
  exists s' a, print_part c start r s = Some (s', a) /\ agrees s' m /\ obeys c start m (timed r a) = Some m.
Proof.
  intros Hr [H1 H2 H3]. unfold print_part. destruct (_ <=? _); [|eexists _, _; by repeat split].
  destruct (NextOccurance_after _ start (now r) Hprint Hstart Hr) as (k & -> & _). eexists _, _; by repeat split.
Qed.

Lemma injection_agrees r s m : 0 < now r -> agrees s m ->
  exists s' a, injection_part start r s = Some (s', a) /\ agrees s' m /\ obeys c start m (timed r a) = Some m.
Proof.
  intros Hr [H1 H2 H3]. unfold injection_part. destruct (_ && _); [|eexists _, _; by repeat split].
  destruct (NextOccurance_after kInjectionFrequency start (now r) ltac:(done) Hstart Hr) as (k & -> & _). eexists _, _; by repeat split.
Qed.

Lemma frequency_agrees r s m : 0 < now r -> agrees s m ->
  exists s' a b m', frequency_part c start r s = Some (s', a, b) /\ obeys c start m (timed r a) = Some m' /\
    (b = true -> agrees s' m').
Proof.
  intros Hr [H1 H2 H3]. unfold frequency_part.
  destruct (Z.eqb_spec (next_dram_frequency s) 0) as [|Hn]; [by eexists _, _, _, m|]. cbn [negb andb].
  destruct (_ <=? _); [|by eexists _, _, _, m].
  assert (Hs : (1 < length (dram_frequencies_ c))%nat).
  { specialize (H3 Hn). unfold dram_sweep_active in H3. apply andb_true_iff in H3 as [_ H3%Nat.ltb_lt]. done. }
  rewrite H2. set (p := ((position m + 1) mod _)%nat).
  assert (Hp : dram_frequencies_ c !! p = Some (nth p (dram_frequencies_ c) 0)).
  { destruct (lookup_lt_is_Some_2 (dram_frequencies_ c) p) as [x Hx]; [apply Nat.mod_upper_bound; lia|].
    rewrite Hx. f_equal. symmetry. by apply nth_lookup_Some. }
  assert (Ha : obeys c start m (timed r [RequestFrequency (nth p (dram_frequencies_ c) 0)])
               = Some (mkContract (paused_at m) p)).
  { cbn. fold p. by rewrite bool_decide_eq_true_2. }
  destruct (node_written r); [|by eexists _, _, _, _].
  destruct (NextOccurance_after _ start (now r) Hstep Hstart Hr) as (k & -> & _).
  eexists _, _, _, _. split; [done|]. split; [exact Ha|]. intros _. split; cbn; [done..|]. intros _. by apply H3.
Qed.

Lemma pause_agrees r s m : 0 < now r -> agrees s m ->
  exists s' a m', pause_part c r s = (s', a) /\ agrees s' m' /\ obeys c start m (timed r a) = Some m'.
Proof.
  intros Hr [H1 H2 H3]. unfold pause_part. destruct m as [[t|] p]; cbn [paused_at position] in *.
  - destruct H1 as (Hp & Ht & Hres). rewrite Hp. by exists s, [], (mkContract (Some t) p).
  - destruct (Z.eqb_spec (next_pause s) 0); [lia|]. cbn [negb andb].
    destruct (_ <=? _); eexists _, _, _; (split; [done|]); (split; [|done]); split; cbn; [|done..|done|done|done]; lia.
Qed.

Lemma resume_agrees r s m : 0 < now r -> agrees s m ->
  exists s' a m', resume_part c start r s = Some (s', a) /\ agrees s' m' /\ obeys c start m (timed r a) = Some m'.
Proof.
  intros Hr [H1 H2 H3]. unfold resume_part.
  destruct (NextOccurance_after _ start (now r) Hpause Hstart Hr) as (k & -> & Hk).
  destruct m as [[t|] p]; cbn [paused_at position] in *.
  - destruct H1 as (Hp & Ht & Hres). destruct (Z.eqb_spec (next_resume s) 0); [lia|]. cbn [negb andb].
    destruct (Z.leb_spec (next_resume s) (now r)) as [Hle|Hlt]; eexists _, _, _; (split; [done|]).
    + split; [|cbn; rewrite (proj2 (Z.leb_le _ _)) by lia; done]. split; cbn; [lia|done|done].
    + split; [|done]. split; cbn; [lia|done|done].
  - destruct H1 as (Hp & Hres). rewrite Hres. by exists s, [], (mkContract None p).
Qed.

Lemma sleep_bounds : 1 <= sleep_frequency c.
Proof. unfold sleep_frequency. by case_match. Qed.

(** A turn keeps the agreement, stays within the contract and never divides by zero. *)
Lemma turn_agrees r s m : 0 < now r -> agrees s m ->
  exists acts t m', turn c start r s = (acts, t) /\ obeys c start m (timed r acts) = Some m' /\
    match t with Continue s' => agrees s' m' | Leave _ => True | Crash => False end.
Proof.
  intros Hr H. unfold turn. destruct (_ || _); [by eexists _, _, m|].
  destruct (too_many_errors _ _); [by eexists _, _, m|].
  destruct (print_agrees r s m Hr H) as (s1 & a1 & -> & H1 & E1).
  destruct (injection_agrees r s1 m Hr H1) as (s2 & a2 & -> & H2 & E2).
  destruct (frequency_agrees r s2 m Hr H2) as (s3 & a3 & b & m3 & -> & E3 & H3).
  destruct b; [|eexists _, _, m3; split; [done|]; by rewrite !map_app, !obeys_app, E1; cbn; rewrite obeys_app, E2].
  destruct (pause_agrees r s3 m3 Hr (H3 eq_refl)) as (s4 & a4 & m4 & -> & H4 & E4).
  destruct (resume_agrees r s4 m4 Hr H4) as (s5 & a5 & m5 & -> & H5 & E5).
  pose proof sleep_bounds as Hs. destruct (NextOccurance_after (sleep_frequency c) start (now r) ltac:(lia) Hstart Hr) as (k & -> & Hk).
  eexists _, _, m5. split; [done|]. split; [|done]. rewrite !map_app.
  do 5 (rewrite obeys_app, ?E1, ?E2, ?E3, ?E4, ?E5; cbn [mbind option_bind]).
  cbn. rewrite (proj2 (andb_true_iff _ _)); [done|]. rewrite !Z.leb_le. unfold longest_sleep.
  destruct (Z.leb_spec start (now r)); lia.
Qed.

(** The loop keeps to its contract and never divides by zero. *)
Lemma loop_agrees rs s m : Forall (fun r => 0 < now r) rs -> agrees s m ->
  exists m', obeys c start m (run_loop c start rs s).1 = Some m'.
Proof.
  revert s m. induction rs as [|r rs IH]; intros s m Hr H; [by exists m|]. apply Forall_cons in Hr as [Hr1 Hr2]. cbn.
  destruct (now r <? end_ c start); [|by exists m].
  destruct (turn_agrees r s m Hr1 H) as (acts & u & m' & -> & E & Hu).
  destruct u as [s'| |]; [|by exists m'..]. destruct (IH s' m' Hr2 Hu) as [m'' Hm].
  destruct (run_loop c start rs s') as [tr b]. exists m''. cbn in *. by rewrite obeys_app, E.
Qed.

(** Each sleep ends in a later period, so the loop is left after one turn per period of the
    running time, plus one. *)
Lemma loop_ends rs s m k :
  0 <= k -> on_time c start (start + sleep_frequency c * k) rs -> agrees s m ->
  get c "runtime_seconds_" <= sleep_frequency c * (k + Z.of_nat (length rs) - 1) -> rs <> [] ->
  exists b, (run_loop c start rs s).2 = Some b.
Proof.
  pose proof sleep_bounds as Hs.
  revert s m k. induction rs as [|r rs IH]; intros s m k Hk Hr H Hlen Hne; [done|]. destruct Hr as [Hr1 Hr2]. cbn.
  assert (0 <= sleep_frequency c * k) by (apply Z.mul_nonneg_nonneg; lia).
  destruct (Z.ltb_spec (now r) (end_ c start)) as [Hlt|Hge]; [|by eexists].
  destruct (turn_agrees r s m ltac:(lia) H) as (acts & u & m' & -> & E & Hu).
  destruct u as [s'| |]; [|by eexists|done].
  destruct (NextOccurance_spec (sleep_frequency c) start (now r) ltac:(lia) ltac:(lia)) as (k' & Hk' & Hb). rewrite Hk' in Hr2.
  cbn [default] in Hr2. assert (Hkk : k + 1 <= k') by nia.
  destruct (IH s' m' k') as [b Hb']; [lia|done|done| | |].
  - cbn [length] in Hlen. rewrite Nat2Z.inj_succ in Hlen. nia.
  - intros ->. cbn in Hlen. unfold end_ in Hlt. nia.
  - destruct (run_loop c start rs s') as [tr b0]. by exists b.
Qed.
End Schedule.

Import OptionsFacts.

(** The intervals of an accepted configuration are positive. *)
Lemma accepted_intervals args c : ParseArgs args = Accepted c ->
  0 < get c "print_delay_" /\ 0 < get c "pause_delay_" /\ 0 < get c "dram_step_seconds_".
Proof.
  intros H. split_and!; (apply Z.lt_le_trans with 1; [lia|]);
    eapply (accepted_range _ _ _ _ _ _ H); try (vm_compute; reflexivity);
    apply (bool_decide_eq_true_1 _); vm_compute; reflexivity.
Qed.

(** Twenty seconds with a pause every seven for three, and two frequencies in turn. *)
Definition sample_run : list string :=
  ["-s"; "20"; "--pause_delay"; "7"; "--pause_duration"; "3"; "--ddr-freq"; "547,5333"; "--ddr-step"; "6"]%string.

Definition sample_config : Sat := Eval vm_compute in match ParseArgs sample_run with Accepted c => c | _ => new_Sat end.

Definition sample_readings : list Reading :=
  map (fun k => mkReading (1000 + Z.of_nat k) false false 0 true) (seq 0 21).

(** C19. For every configuration that [ParseArgs] accepts with a pause that is not negative,
    and whatever is read of signals, of error counts, of the frequency node and of the clock,
    as long as its times are positive (the clock may also be set back): the loop of [Run]
    pauses the workers only while they run, resumes them only when the clock shows that the
    pause has lasted its time, asks for the frequencies in the order of their list and in a
    circle, and sleeps at least one second and at most one period, or less than two periods
    when the clock shows a time before the start. *)
Theorem control_loop_schedule args c start readings :
  ParseArgs args = Accepted c -> 0 < start -> 0 <= get c "pause_duration_" -> Forall (fun r => 0 < now r) readings ->
  exists m, obeys c start (mkContract None 0) (run_loop c start readings (start_schedule c start)).1 = Some m.
Proof.
  intros Ha Hs Hd Hr. destruct (accepted_intervals _ _ Ha) as (H1 & H2 & H3).
  apply loop_agrees; try done. by apply start_agrees.
Qed.

Lemma sample_accepted : ParseArgs sample_run = Accepted sample_config.
Proof. vm_cast_no_check (eq_refl (Accepted sample_config)). Qed.

Lemma sample_on_time : on_time sample_config 1000 1000 sample_readings.
Proof. vm_compute. repeat split; discriminate. Qed.

(** C20. For every configuration that [ParseArgs] accepts with a pause that is not negative,
    when the clock is not set back and no sleep is cut short (each turn reads a time at or
    after the end of the sleep before it), the loop of [Run] ends by itself, without dividing
    by zero, after at most one turn for each sleeping period of the running time and one. *)
Theorem control_loop_ends args c start readings :
  ParseArgs args = Accepted c -> 0 < start -> 0 <= get c "pause_duration_" -> on_time c start start readings ->
  readings <> [] -> get c "runtime_seconds_" <= sleep_frequency c * (Z.of_nat (length readings) - 1) ->
  exists b, (run_loop c start readings (start_schedule c start)).2 = Some b.
Proof.
  intros Ha Hs Hd Hr Hne Hl. destruct (accepted_intervals _ _ Ha) as (H1 & H2 & H3).
  eapply (loop_ends c start Hs H1 H2 H3 Hd _ _ _ 0); try done; [by rewrite Z.mul_0_r, Z.add_0_r|by apply start_agrees].
Qed.

Lemma control_loop_schedule_witness :
  List.filter (fun x => match x.2 with Sleep _ => false | _ => true end)
    (run_loop sample_config 1000 sample_readings (start_schedule sample_config 1000)).1 =
    [(1006, RequestFrequency 5333); (1007, PauseWorkers); (1010, PrintRemaining); (1010, ResumeWorkers);
     (1012, RequestFrequency 547); (1014, PauseWorkers); (1017, ResumeWorkers); (1018, RequestFrequency 5333)] /\
  exists m, obeys sample_config 1000 (mkContract None 0)
    (run_loop sample_config 1000 sample_readings (start_schedule sample_config 1000)).1 = Some m.
Proof.
  split; [vm_compute; reflexivity|].
  apply (control_loop_schedule sample_run); [exact sample_accepted|lia|vm_compute; discriminate|].
  apply Forall_forall. intros r (k & -> & _)%list_elem_of_fmap. cbn. lia.
Defined.

Lemma control_loop_ends_witness :
  exists b, (run_loop sample_config 1000 sample_readings (start_schedule sample_config 1000)).2 = Some b.
Proof.
  apply (control_loop_ends sample_run); [exact sample_accepted|lia|vm_compute; discriminate|exact sample_on_time| |].
  - discriminate.
  - vm_compute. discriminate.
Defined.
End SatRunFacts.
