(* ===== verification/SatMain.v ===== *)
(** A test from its command line to its exit status: [Sat::CheckEnvironment],
    [InitializeLogfile], [AllocateMemory], [InitializePatterns], [Initialize], [Run],
    [JoinThreads], [GetTotalErrorCount], [PrintResults] and [Cleanup] of [src/src/sat.cc] and
    [main] of [src/src/main.cc].

    The options are those of [Options.v], the threads those of [SatThreads.v] and the control
    loop that of [SatRun.v].  What system calls, the platform and the threads do is an
    argument, the [Course] of the test.  [operator new] does not fail.  The map of
    tested pages is in [PageMap.v]; log lines and statistics are left out. *)

From Stdlib Require Import Ascii String.
From S2P Require Import Prelude Text OsLayer WorkerStatus DiskThread Options SatThreads SatRun.

Module SatMain.
Import Options DiskThread SatThreads.
Local Open Scope Z_scope.

(** What [CheckEnvironment] asks the build and the platform. *)
Record Platform := mkPlatform {
  ndebug : bool; CanRun : bool; num_cpus : Z; FindFreeMemSize : Z; FindFileDevices : list string; IsSupported : bool
}.

(** [file_threads_++; filename_.push_back(name)]. *)
Definition add_file (name : string) (c : Sat) : Sat :=
  let c := set c "file_threads_" (get c "file_threads_" + 1) in
  mkSat (member c) (filesize c) (pattern_selector_ c) (dram_frequency_node_ c) (dram_frequencies_ c)
    (logfilename_ c) (filename_ c ++ [name]) (ipaddrs_ c) (diskfilename_ c) (channels_ c).

(** The loop over the disks that were found, the last one first. *)
Fixpoint add_files (locations : list string) (c : Sat) : Sat :=
  match locations with
  | [] => c
  | disk :: rest =>
      add_files rest (add_file (String.append disk "/sat_disk.b") (add_file (String.append disk "/sat_disk.a") c))
  end.

(** The members it leaves, or [None] after one [bad_status]. *)
Definition CheckEnvironment (p : Platform) (c : Sat) : option Sat :=
  if negb (ndebug p) && (get c "run_on_anything_" =? 0) then None
  else if flag c "cpu_freq_test_" && (negb (CanRun p) || (get c "cpu_freq_threshold_" <=? 0) || (get c "cpu_freq_round_" <? 0))
  then None
  else
    let c := if get c "memory_threads_" =? -1 then set c "memory_threads_" (num_cpus p) else c in
    let c := if get c "size_mb_" =? 0 then set c "size_mb_" (Z.quot (FindFreeMemSize p) OsLayer.kMegabyte) else c in
    let c := set c "size_" (get c "size_mb_" * OsLayer.kMegabyte) in
    let c := if flag c "findfiles_" && (get c "file_threads_" =? 0) then add_files (rev (FindFileDevices p)) c else c in
    if get c "size_" <? 1 then None
    else if flag c "tag_mode_" &&
            ((0 <? get c "file_threads_") || (0 <? get c "disk_threads_") || (0 <? get c "net_threads_")) then None
    else
      let c := if get c "address_mode_" =? 32
               then let c := set c "size_mb_" (Z.quot (get c "size_mb_") 4 * 4) in
                    set c "size_" (get c "size_mb_" * OsLayer.kMegabyte)
               else c in
      if negb (IsSupported p) && (get c "run_on_anything_" =? 0) then None else Some c.

(** ** What is allocated *)

Inductive Pointer := Null | Live | Freed.

#[global] Instance Pointer_eq_dec : EqDecision Pointer.
Proof. solve_decision. Defined.

(** [logfile_] is open; the other members point to an object. *)
Record Resources := mkResources {
  logfile_ : bool; os_ : Pointer; patternlist_ : Pointer; empty_ : Pointer; valid_ : Pointer; finelock_q_ : Pointer;
  block_history_ : Pointer
}.

Definition no_resources : Resources := mkResources false Null Null Null Null Null Null.

(** [if (p) { use and delete p }]; [None]: the object is gone. *)
Definition release (p : Pointer) : option Pointer :=
  match p with Null => Some Null | Live => Some Null | Freed => None end.

Definition Cleanup (r : Resources) : option Resources :=
  patternlist ← release (patternlist_ r);
  os ← release (os_ r);
  empty ← release (empty_ r);
  valid ← release (valid_ r);
  finelock_q ← release (finelock_q_ r);
  block_history ← release (block_history_ r);
  Some (mkResources false os patternlist empty valid finelock_q block_history).

(** ** Initialize *)

Record State := mkState { conf : Sat; statuscount_ : Z; resources : Resources }.

Definition bad_status (s : State) : State := mkState (conf s) (statuscount_ s + 1) (resources s).
Definition set_conf (s : State) (c : Sat) : State := mkState c (statuscount_ s) (resources s).
Definition set_resources (s : State) (f : Resources -> Resources) : State :=
  mkState (conf s) (statuscount_ s) (f (resources s)).

(** The course of a test.  [first_request] and [runtime_request] are the results of
    [ApplyDramFrequency] in [Initialize] and at the start of [Run]; [pages_status] counts the
    calls of [bad_status] in [InitializePages]; [creates], [thread_end] and [check_end] tell
    which threads are created and with which status and error count they end. *)
Record Course := mkCourse {
  open_ok : bool; lseek_ok : bool; os_created : bool; os_initialized : bool; platform : Platform; allocated : bool;
  patterns_ok : bool; selector_ok : bool; first_request : bool; history_allocated : bool; pages_ok : bool;
  pages_status : Z; initialization_errorcount_ : Z; stopped_before_run : bool;
  runtime_request : bool; machine : Machine; total_threads : Z; creates : Worker -> bool; start_time : Z;
  readings : list SatRun.Reading; thread_end : Worker -> bool * Z; stopped_at_join : bool;
  check_end : nat -> option (bool * Z)
}.

Section Phases.
Context (co : Course).

(** Phases that go on while they succeed. *)
Definition phase : Type := State -> State * bool.
Definition andthen (f g : phase) : phase := fun s => let '(s, ok) := f s in if ok then g s else (s, false).
Definition require (ok : bool) : phase := fun s => if ok then (s, true) else (bad_status s, false).

Definition InitializeLogfile : phase := fun s =>
  if flag (conf s) "use_logfile_" then
    if open_ok co then
      let s := set_resources s (fun r => mkResources true (os_ r) (patternlist_ r) (empty_ r) (valid_ r) (finelock_q_ r) (block_history_ r)) in
      require (lseek_ok co) s
    else (bad_status s, false)
  else (s, true).

Definition set_os (p : Pointer) (r : Resources) : Resources :=
  mkResources (logfile_ r) p (patternlist_ r) (empty_ r) (valid_ r) (finelock_q_ r) (block_history_ r).

(** [OsLayerFactory] and [os_->Initialize]: an object that fails is deleted, but [os_] still
    points to it. *)
Definition initialize_os : phase := fun s =>
  if os_created co then
    let s := set_resources s (set_os Live) in
    if os_initialized co then (s, true) else (set_resources (bad_status s) (set_os Freed), false)
  else (bad_status s, false).

Definition check_environment : phase := fun s =>
  match CheckEnvironment (platform co) (conf s) with
  | Some c => (set_conf s c, true)
  | None => (bad_status s, false)
  end.

Definition AllocateMemory : phase := require (allocated co).

Definition InitializePatterns : phase := fun s =>
  let s := set_resources s (fun r => mkResources (logfile_ r) (os_ r) Live (empty_ r) (valid_ r) (finelock_q_ r) (block_history_ r)) in
  if patterns_ok co then
    if String.eqb (pattern_selector_ (conf s)) "" then (s, true) else require (selector_ok co) s
  else (bad_status s, false).

Definition request_frequency (written : bool) : phase := fun s =>
  match dram_frequencies_ (conf s) with [] => (s, true) | _ => require written s end.

Definition allocate_history : phase := fun s =>
  let s := set_conf s (set (conf s) "pages_" (Z.quot (get (conf s) "size_") (get (conf s) "page_length_"))) in
  if flag (conf s) "diag_block_history_" then
    if history_allocated co then
      (set_resources s (fun r => mkResources (logfile_ r) (os_ r) (patternlist_ r) (empty_ r) (valid_ r) (finelock_q_ r) Live), true)
    else (bad_status s, false)
  else (s, true).

Definition allocate_queues : phase := fun s =>
  (if get (conf s) "pe_q_implementation_" =? 1
   then set_resources s (fun r => mkResources (logfile_ r) (os_ r) (patternlist_ r) (empty_ r) (valid_ r) Live (block_history_ r))
   else set_resources s (fun r => mkResources (logfile_ r) (os_ r) (patternlist_ r) Live Live (finelock_q_ r) (block_history_ r)),
   true).

Definition initialize_pages : phase := fun s =>
  (mkState (conf s) (statuscount_ s + pages_status co) (resources s), pages_ok co).

Definition allocate_all : phase := fun s =>
  if flag (conf s) "monitor_mode_" then (s, true)
  else
    andthen AllocateMemory
      (andthen InitializePatterns
         (andthen (request_frequency (first_request co))
            (andthen allocate_history (andthen allocate_queues initialize_pages)))) s.

Definition Initialize : phase := andthen InitializeLogfile (andthen initialize_os (andthen check_environment allocate_all)).

(** ** Run *)

Definition error_sum (es : list Z) : Z := fold_left (fun errors e => s64 (errors + e)) es (initialization_errorcount_ co).

Definition GetTotalErrorCount (ws : list Worker) : Z := error_sum (map (fun w => snd (thread_end co w)) ws).

Definition final_check_enabled (c : Sat) : bool :=
  negb (flag c "monitor_mode_") && negb (flag c "skip_final_check_") && negb (stopped_at_join co).

Definition reap_check_threads (c : Sat) : nat :=
  if final_check_enabled c
  then Z.to_nat (if flag c "final_check_threads_explicit_" then get c "final_check_threads_" else get c "fill_threads_")
  else O.

Definition failed (x : bool * Z) : bool := negb (fst x).

(** [errorcount_] and the calls of [bad_status]. *)
Definition JoinThreads (c : Sat) (ws : list Worker) : Z * Z :=
  let checks := map (check_end co) (seq 0 (reap_check_threads c)) in
  let ended := omap (fun x => x) checks in
  (fold_left (fun errors e => s64 (errors + e)) (map snd ended) (GetTotalErrorCount ws),
   Z.of_nat (length checks - length ended) +
   Z.of_nat (length (List.filter failed (map (thread_end co) ws))) + Z.of_nat (length (List.filter failed ended))).

(** How [Run] ends: its result with [errorcount_], or by an assertion, a division by zero or
    a loop that never ends. *)
Inductive Ended := Returned (s : State) (errorcount : Z) (ok : bool) | Stuck.

Definition Run (s : State) : Ended :=
  if stopped_before_run co then Returned s (initialization_errorcount_ co) true
  else
    let '(s, ok) := request_frequency (runtime_request co) s in
    if negb ok then Returned s 0 false
    else
      match InitializeThreads (conf s) (machine co) (mkCrew (total_threads co) 0 0 [] (machine_os (machine co))) with
      | Done cr =>
          let sp := SpawnThreads (creates co) cr in
          let s := mkState (conf s) (statuscount_ s + bad_statuses sp) (resources s) in
          let loop := if spawn_result sp
                      then (SatRun.run_loop (conf s) (start_time co) (readings co)
                              (SatRun.start_schedule (conf s) (start_time co))).2
                      else Some false in
          match loop with
          | None => Stuck
          | Some run_ok =>
              let s := if spawn_result sp && negb run_ok then bad_status s else s in
              let '(errorcount, bad) := JoinThreads (conf s) (all_workers cr) in
              Returned (mkState (conf s) (statuscount_ s + bad) (resources s)) errorcount run_ok
          end
      | _ => Stuck
      end.

Inductive Verdict := Procedural | Hardware | Pass.

Definition PrintResults (statuscount errorcount : Z) : Verdict :=
  if negb (statuscount =? 0) then Procedural else if negb (errorcount =? 0) then Hardware else Pass.

(** The end of the process: the verdict that was printed, if any, and the exit status; or a
    [Run] that does not return, or a use of freed memory. *)
Inductive Process := Exit (verdict : option Verdict) (status : Z) | Hung | Undefined.

(** [PrintResults], [Cleanup] and the exit status; [errors()] is an [int]. *)
Definition finish (s : State) (errorcount : Z) : Process :=
  match Cleanup (resources s) with
  | Some _ => Exit (Some (PrintResults (statuscount_ s) errorcount)) (main_status (statuscount_ s) (s32 errorcount))
  | None => Undefined
  end.

(** [main] behind [PrepareDramMapArgs]. *)
Definition main (args : list string) : Process :=
  match ParseArgs args with
  | Exited status => Exit None status
  | Rejected => finish (bad_status (mkState new_Sat 0 no_resources)) 0
  | Accepted c =>
      let '(s, ok) := Initialize (mkState c 0 no_resources) in
      if ok then
        match Run s with
        | Returned s e true => finish s e
        | Returned s e false => finish (bad_status s) e
        | Stuck => Hung
        end
      else finish (bad_status s) 0
  end.
End Phases.
End SatMain.

Module SatMainFacts.
Import Options OptionsFacts DiskThread SatThreads SatThreadsFacts SatMain.
Local Open Scope Z_scope.

(** ** Sums of error counts *)

Definition total (es : list Z) : Z := fold_right Z.add 0 es.

Lemma s64_mod x : exists k, s64 x = x + 2 ^ 64 * k.
Proof.
  exists (- ((x + 2 ^ 63) / 2 ^ 64)). unfold s64. pose proof (Z.div_mod (x + 2 ^ 63) (2 ^ 64) ltac:(lia)). lia.
Qed.

Lemma s64_add x k : s64 (x + 2 ^ 64 * k) = s64 x.
Proof. unfold s64. replace (x + 2 ^ 64 * k + 2 ^ 63) with (x + 2 ^ 63 + k * 2 ^ 64) by lia. by rewrite Z_mod_plus_full. Qed.

Lemma fold_s64 es i : - 2 ^ 63 <= i < 2 ^ 63 -> fold_left (fun errors e => s64 (errors + e)) es i = s64 (i + total es).
Proof.
  revert i. induction es as [|e es IH]; intros i Hi; cbn [fold_left total fold_right].
  - by rewrite Z.add_0_r, s64_id.
  - rewrite IH by apply s64_bound. destruct (s64_mod (i + e)) as [k ->]. fold (total es).
    replace (i + e + 2 ^ 64 * k + total es) with (i + (e + total es) + 2 ^ 64 * k) by lia. apply s64_add.
Qed.

Lemma s32_zero x : s32 (s64 x) = 0 <-> x mod 2 ^ 32 = 0.
Proof.
  destruct (s64_mod x) as [k ->]. unfold s32.
  replace (x + 2 ^ 64 * k + 2 ^ 31) with (x + 2 ^ 31 + (2 ^ 32 * k) * 2 ^ 32) by lia. rewrite Z_mod_plus_full.
  pose proof (Z.div_mod x (2 ^ 32) ltac:(lia)). pose proof (Z.mod_pos_bound x (2 ^ 32) ltac:(lia)).
  pose proof (Z.div_mod (x + 2 ^ 31) (2 ^ 32) ltac:(lia)). pose proof (Z.mod_pos_bound (x + 2 ^ 31) (2 ^ 32) ltac:(lia)).
  split; intros H'; nia.
Qed.

(** ** Cleaning up *)

Definition log_ready (co : Course) (c : Sat) : bool := negb (flag c "use_logfile_") || (open_ok co && lseek_ok co).

(** Nothing has been freed too early. *)
Definition clean (r : Resources) : bool :=
  forallb (fun p => negb (bool_decide (p = Freed)))
    [os_ r; patternlist_ r; empty_ r; valid_ r; finelock_q_ r; block_history_ r].

Lemma Cleanup_clean r : Cleanup r = if clean r then Some no_resources else None.
Proof. destruct r as [l [] [] [] [] [] []]; reflexivity. Qed.

Definition keeps_clean (f : phase) : Prop := forall s, clean (resources s) = true -> clean (resources (f s).1) = true.

Lemma andthen_clean f g : keeps_clean f -> keeps_clean g -> keeps_clean (andthen f g).
Proof.
  intros Hf Hg s Hs. unfold andthen. pose proof (Hf s Hs) as H. destruct (f s) as [s' []]; [by apply Hg|done].
Qed.

Lemma require_clean b : keeps_clean (require b).
Proof. intros s Hs. by destruct b. Qed.

(** A phase that allocates. *)
Ltac clean_phase f :=
  intros [? ? [? ? ? ? ? ? ?]] Hs; cbn in Hs; rewrite !andb_true_iff in Hs; destruct Hs as (H1 & H2 & H3 & H4 & H5 & H6 & _);
  unfold f, require; repeat case_match; cbn; rewrite ?H1, ?H2, ?H3, ?H4, ?H5, ?H6; reflexivity.

Lemma allocate_all_clean co : keeps_clean (allocate_all co).
Proof.
  intros s. unfold allocate_all. destruct (flag _ _); [done|]. revert s.
  apply andthen_clean; [apply require_clean|]. apply andthen_clean.
  { clean_phase InitializePatterns. }
  apply andthen_clean.
  { intros s Hs. unfold request_frequency. destruct (dram_frequencies_ _); [done|]. by apply require_clean. }
  apply andthen_clean; [clean_phase allocate_history|].
  apply andthen_clean; [clean_phase allocate_queues|by intros s Hs].
Qed.

(** [Cleanup] frees everything that [Initialize] has allocated, wherever it stopped, and
    frees nothing twice; except when the platform object was created but failed to
    initialise: it is deleted at once, and [Cleanup] uses and deletes it again. *)
Theorem Initialize_Cleanup co c :
  Cleanup (resources (Initialize co (mkState c 0 no_resources)).1) =
  if log_ready co c && os_created co && negb (os_initialized co) then None else Some no_resources.
Proof.
  rewrite Cleanup_clean. unfold Initialize, andthen at 1, InitializeLogfile, log_ready. cbn [conf].
  assert (Hos : forall s, clean (resources s) = true -> os_ (resources s) = Null ->
    clean (resources (andthen (initialize_os co) (andthen (check_environment co) (allocate_all co)) s).1) =
    negb (os_created co && negb (os_initialized co))).
  { intros [c' n [l o p e v q b]] Hs Ho. cbn in Ho. subst o. unfold andthen at 1, initialize_os.
    destruct (os_created co), (os_initialized co); [| |done|done]; cbn [andb negb]; [|done].
    apply andthen_clean; [|apply allocate_all_clean|done]. intros s Hc. unfold check_environment.
    by destruct (CheckEnvironment _ _). }
  destruct (flag c "use_logfile_"); cbn [negb orb andb].
  - destruct (open_ok co); [|done]. destruct (lseek_ok co); [|done]. cbn [require andb].
    rewrite Hos by done. by destruct (os_created co && _).
  - rewrite Hos by done. by destruct (os_created co && _).
Qed.

(** ** The exit status *)

(** Phases only add to [statuscount_]. *)
Definition adds_status (f : phase) : Prop := forall s, statuscount_ s <= statuscount_ (f s).1.

Lemma andthen_status f g : adds_status f -> adds_status g -> adds_status (andthen f g).
Proof.
  intros Hf Hg s. unfold andthen. specialize (Hf s). destruct (f s) as [s' []]; [|done]. specialize (Hg s'). cbn in *. lia.
Qed.

Lemma Initialize_status co : 0 <= pages_status co -> adds_status (Initialize co).
Proof.
  intros Hp. unfold Initialize.
  apply andthen_status; [intros s; unfold InitializeLogfile, require; repeat case_match; cbn; lia|].
  apply andthen_status; [intros s; unfold initialize_os; repeat case_match; cbn; lia|].
  apply andthen_status; [intros s; unfold check_environment; repeat case_match; cbn; lia|].
  intros s. unfold allocate_all. destruct (flag _ _); [cbn; lia|]. revert s.
  apply andthen_status; [intros s; unfold AllocateMemory, require; repeat case_match; cbn; lia|].
  apply andthen_status; [intros s; unfold InitializePatterns, require; repeat case_match; cbn; lia|].
  apply andthen_status; [intros s; unfold request_frequency, require; repeat case_match; cbn; lia|].
  apply andthen_status; [intros s; unfold allocate_history; repeat case_match; cbn; lia|].
  apply andthen_status; [intros s; unfold allocate_queues; repeat case_match; cbn; lia|].
  intros s. cbn. lia.
Qed.

Lemma finish_zero s e v : finish s e = Exit (Some v) 0 -> statuscount_ s = 0 /\ s32 e = 0.
Proof.
  unfold finish. destruct (Cleanup _); [|done]. intros [= _ H]. unfold main_status in H.
  destruct (Z.eqb_spec (statuscount_ s) 0), (Z.eqb_spec (s32 e) 0); done.
Qed.

Lemma none_filtered {A} (f : A -> bool) l : length (List.filter f l) = 0%nat -> forall x, x ∈ l -> f x = false.
Proof.
  induction l as [|y l IH]; intros H x Hx; [by apply elem_of_nil in Hx|]. cbn in H. destruct (f y) eqn:Hy; [done|].
  apply elem_of_cons in Hx as [->|Hx]; [done|auto].
Qed.

(** All that can be joined has been created. *)
Lemma omap_all {A} (l : list (option A)) :
  (length l - length (omap (fun x => x) l) = 0)%nat -> forall x, x ∈ l -> exists a, x = Some a /\ a ∈ omap (fun x => x) l.
Proof.
  assert (Hle : forall l : list (option A), (length (omap (fun x => x) l) <= length l)%nat).
  { intros k. induction k as [|[a|] k IH]; cbn; [done|lia|lia]. }
  induction l as [|y l IH]; intros H x Hx; [by apply elem_of_nil in Hx|]. pose proof (Hle l). destruct y as [a|]; cbn in H.
  - apply elem_of_cons in Hx as [->|Hx]; [exists a; split; [done|]; cbn; by left|].
    destruct (IH H x Hx) as (b & -> & Hb). exists b. split; [done|]. cbn. by right.
  - lia.
Qed.

Definition checks (co : Course) (c : Sat) : list (bool * Z) :=
  omap (fun x => x) (map (check_end co) (seq 0 (reap_check_threads co c))).

Definition all_errors (co : Course) (c : Sat) (cr : Crew) : Z :=
  initialization_errorcount_ co + total (map (fun w => (thread_end co w).2) (all_workers cr)) +
  total (map snd (checks co c)).

Lemma JoinThreads_errors co c cr : - 2 ^ 63 <= initialization_errorcount_ co < 2 ^ 63 ->
  (JoinThreads co c (all_workers cr)).1 = s64 (all_errors co c cr).
Proof.
  intros Hi. cbn [JoinThreads fst]. unfold GetTotalErrorCount, error_sum.
  rewrite (fold_s64 (map (fun w => (thread_end co w).2) _)) by done. rewrite fold_s64 by apply s64_bound. fold (checks co c). unfold all_errors.
  destruct (s64_mod (initialization_errorcount_ co + total (map (fun w => (thread_end co w).2) (all_workers cr)))) as [k ->].
  etransitivity; [|apply (s64_add _ k)]. f_equal. lia.
Qed.

(** What a clean run of the threads needs. *)
Definition threads_passed (co : Course) (s : State) : Prop :=
  exists cr, InitializeThreads (conf s) (machine co) (mkCrew (total_threads co) 0 0 [] (machine_os (machine co))) = Done cr /\
    (forall w, w ∈ all_workers cr -> creates co w = true /\ (thread_end co w).1 = true) /\
    (forall i, (i < reap_check_threads co (conf s))%nat -> exists e, check_end co i = Some (true, e)) /\
    all_errors co (conf s) cr mod 2 ^ 32 = 0.

Lemma JoinThreads_status co c cr : (JoinThreads co c (all_workers cr)).2 = 0 ->
  (forall w, w ∈ all_workers cr -> (thread_end co w).1 = true) /\
  (forall i, (i < reap_check_threads co c)%nat -> exists e, check_end co i = Some (true, e)).
Proof.
  unfold JoinThreads. cbv zeta. cbn [snd]. intros H. split.
  - intros w Hw. assert (Hf : failed (thread_end co w) = false).
    { apply (none_filtered failed (map (thread_end co) (all_workers cr))); [lia|]. by apply list_elem_of_fmap_2. }
    unfold failed in Hf. by destruct (thread_end co w).1.
  - intros i Hi.
    destruct (omap_all (map (check_end co) (seq 0 (reap_check_threads co c))) ltac:(lia) (check_end co i)) as ([b e] & He & Hin).
    { apply list_elem_of_fmap_2, elem_of_seq. lia. }
    exists e. rewrite He. assert (Hf : failed (b, e) = false) by (eapply none_filtered; [|exact Hin]; lia).
    unfold failed in Hf. by destruct b.
Qed.

Lemma join_bad co c ws : 0 <= (JoinThreads co c ws).2.
Proof. unfold JoinThreads. cbv zeta. cbn [snd]. lia. Qed.

Lemma Run_zero co s0 s e : - 2 ^ 63 <= initialization_errorcount_ co < 2 ^ 63 -> 0 <= statuscount_ s0 ->
  Run co s0 = Returned s e true -> statuscount_ s = 0 -> s32 e = 0 ->
  statuscount_ s0 = 0 /\
  (stopped_before_run co = true /\ initialization_errorcount_ co mod 2 ^ 32 = 0 \/ threads_passed co s0).
Proof.
  intros Hi Hs0 H Hst He. unfold Run in H. destruct (stopped_before_run co).
  { injection H as <- <-. split; [done|]. left. split; [done|]. apply s32_zero. by rewrite s64_id. }
  assert (Hreq : forall s1 ok, request_frequency (runtime_request co) s0 = (s1, ok) -> ok = true -> s1 = s0).
  { intros s1 ok. unfold request_frequency, require. repeat case_match; by intros [= <- <-]. }
  destruct (request_frequency _ s0) as [s1 ok]. destruct ok; cbn [negb] in H; [|done].
  rewrite (Hreq s1 true eq_refl eq_refl) in H. clear Hreq.
  destruct (InitializeThreads _ _ _) as [cr| |] eqn:Hin; [|done|done].
  pose proof (spawn_loop_spec (creates co) (all_workers cr)
    (mkSpawned (SatThreads.Initialize (power_spike_workers cr)) (SatThreads.Initialize (continuous_workers cr)) 0 true)) as Hsp.
  fold (SpawnThreads (creates co) cr) in Hsp. destruct Hsp as (_ & _ & _ & _ & Hbad & Hres). cbn [bad_statuses spawn_result andb] in Hbad, Hres.
  pose proof (JoinThreads_errors co (conf s0) cr Hi) as Herr.
  destruct (spawn_result (SpawnThreads (creates co) cr)) eqn:Hsr; cbn [conf andb] in H; [|by destruct (JoinThreads _ _ _)].
  destruct (SatRun.run_loop _ _ _ _).2 as [run_ok|]; [|done].
  pose proof (JoinThreads_status co (conf s0) cr) as Hjs.
  destruct run_ok; cbn [negb conf] in H; [|by destruct (JoinThreads _ _ _)].
  destruct (JoinThreads co (conf s0) (all_workers cr)) as [er bad] eqn:Hj. injection H as <- <-.
  cbn [fst snd statuscount_] in *. subst er.
  pose proof (join_bad co (conf s0) (all_workers cr)) as Hb. rewrite Hj in Hb. cbn [snd] in Hb.
  assert (Hc : 0 <= count (fun w => negb (creates co w)) (all_workers cr)) by (unfold count; lia).
  split; [lia|]. right. exists cr. split; [done|].
  destruct (Hjs ltac:(lia)) as [J1 J2]. split; [|split; [exact J2|by apply s32_zero]].
  intros w Hw. split; [|by apply J1]. symmetry in Hres. rewrite forallb_forall in Hres. apply Hres. by apply list_elem_of_In.
Qed.

Lemma spawn_bad creates cr : 0 <= bad_statuses (SpawnThreads creates cr).
Proof.
  unfold SpawnThreads. destruct (spawn_loop_spec creates (all_workers cr)
    (mkSpawned (SatThreads.Initialize (power_spike_workers cr)) (SatThreads.Initialize (continuous_workers cr)) 0 true))
    as (_ & _ & _ & _ & -> & _). cbn [bad_statuses]. unfold count. lia.
Qed.

Lemma Run_status co s s' e b : Run co s = Returned s' e b -> statuscount_ s <= statuscount_ s'.
Proof.
  unfold Run. destruct (stopped_before_run co); [intros [= <- _ _]; lia|].
  assert (Hreq : statuscount_ s <= statuscount_ (request_frequency (runtime_request co) s).1)
    by (unfold request_frequency, require; repeat case_match; cbn; lia).
  destruct (request_frequency _ s) as [s1 ok]. cbn [fst] in Hreq. destruct (negb ok); [intros [= <- _ _]; lia|].
  destruct (InitializeThreads _ _ _) as [cr| |]; [|done|done]. pose proof (spawn_bad (creates co) cr) as Hsp.
  destruct (if spawn_result _ then _ else _) as [run_ok|]; [|done].
  match goal with |- context [JoinThreads co ?c ?ws] => pose proof (join_bad co c ws) as Hb; destruct (JoinThreads co c ws) as [er bad] end.
  cbn [snd] in Hb.
  intros [= <- _ _]. cbn [statuscount_]. destruct (_ && _); cbn [bad_status statuscount_]; lia.
Qed.

(** C18. When the process ends with status 0 behind a verdict, the arguments were accepted,
    every step of the set-up succeeded, every thread was created and ended with success, the
    threads of the final check too, and the errors found, those of the set-up included, add
    up to a multiple of [2^32]; so any number of errors below that gives status 1. *)
Theorem exit_status_zero co args v :
  - 2 ^ 63 <= initialization_errorcount_ co < 2 ^ 63 -> 0 <= pages_status co ->
  main co args = Exit (Some v) 0 ->
  exists c s, ParseArgs args = Accepted c /\ Initialize co (mkState c 0 no_resources) = (s, true) /\ statuscount_ s = 0 /\
    (stopped_before_run co = true /\ initialization_errorcount_ co mod 2 ^ 32 = 0 \/ threads_passed co s).
Proof.
  intros Hi Hp H. unfold main in H.
  destruct (ParseArgs args) as [c| |]; [|by apply finish_zero in H as [H _]|done].
  pose proof (Initialize_status co Hp (mkState c 0 no_resources)) as Hst.
  destruct (Initialize co _) as [s ok] eqn:Hin. cbn [fst statuscount_] in Hst.
  destruct ok; [|apply finish_zero in H as [H _]; cbn in H; lia].
  exists c, s. split; [done|]. split; [done|].
  destruct (Run co s) as [s' e []|] eqn:Hrun; [| |done].
  - apply finish_zero in H as [H1 H2]. by eapply Run_zero.
  - exfalso. apply finish_zero in H as [H1 _]. cbn in H1. apply Run_status in Hrun. lia.
Qed.

(** A test of five seconds with one copy thread that ends with [e] errors. *)
Definition sample_args : list string := ["-s"; "5"; "-M"; "64"; "-m"; "1"; "--fill-threads"; "2"]%string.
Definition sample_course (e : Z) : Course :=
  mkCourse true true true true (mkPlatform true true 4 (2 ^ 30) [] true) true true true true true true 0 0 false
    true sample_machine 2 (fun _ => true) 1000
    [SatRun.mkReading 1000 false false 0 true; SatRun.mkReading 1005 false false 0 true]
    (fun w => (true, if thread_num_ w =? 3 then e else 0)) false (fun _ => Some (true, 0)).

Lemma sample_verdicts :
  main (sample_course 0) sample_args = Exit (Some Pass) 0 /\
  main (sample_course 1) sample_args = Exit (Some Hardware) 1.
Proof. split; vm_compute; reflexivity. Qed.

(** [errors()] cuts the 64-bit count: a run with [2^32] errors prints its failure and exits
    with status 0. *)
Lemma errors_lost_in_status : main (sample_course (2 ^ 32)) sample_args = Exit (Some Hardware) 0.
Proof. vm_compute. reflexivity. Qed.

Lemma exit_status_zero_witness :
  exists c s, ParseArgs sample_args = Accepted c /\
    Initialize (sample_course 0) (mkState c 0 no_resources) = (s, true) /\ statuscount_ s = 0 /\
    (stopped_before_run (sample_course 0) = true /\ 0 mod 2 ^ 32 = 0 \/ threads_passed (sample_course 0) s).
Proof.
  apply (exit_status_zero (sample_course 0) sample_args Pass); [cbn; lia|cbn; lia|exact (proj1 sample_verdicts)].
Defined.

(** ** The environment *)

Definition files_counted (c : Sat) : Prop := get c "file_threads_" = s32 (Z.of_nat (length (filename_ c))).

Lemma add_file_get name c m :
  get (add_file name c) m = if decide (m = "file_threads_"%string) then s32 (get c "file_threads_" + 1) else get c m.
Proof.
  change (get (add_file name c) m) with (get (set c "file_threads_" (get c "file_threads_" + 1)) m). rewrite get_set.
  destruct (decide ("file_threads_"%string = m)) as [<-|Hne]; [by rewrite decide_True|by rewrite decide_False].
Qed.

Lemma add_file_counted name c : files_counted c -> files_counted (add_file name c).
Proof.
  intros Hc. unfold files_counted in *. rewrite add_file_get, decide_True, Hc by done.
  change (filename_ (add_file name c)) with (filename_ c ++ [name]). rewrite length_app. cbn [length].
  unfold s32. replace (Z.of_nat (length (filename_ c) + 1) + 2 ^ 31) with (Z.of_nat (length (filename_ c)) + 2 ^ 31 + 1) by lia.
  rewrite <- (Zplus_mod_idemp_l _ 1). f_equal. f_equal. lia.
Qed.

Lemma add_files_counted disks c : files_counted c ->
  files_counted (add_files disks c) /\ forall m, m <> "file_threads_"%string -> get (add_files disks c) m = get c m.
Proof.
  revert c. induction disks as [|disk disks IH]; intros c Hc; [done|]. cbn [add_files].
  destruct (IH (add_file (String.append disk "/sat_disk.b") (add_file (String.append disk "/sat_disk.a") c))) as [I1 I2];
    [by apply add_file_counted, add_file_counted|].
  split; [done|]. intros m Hm. rewrite I2 by done. by rewrite !add_file_get, !decide_False.
Qed.

Ltac get_simp :=
  repeat match goal with
         | |- context [get (set ?s ?m ?v) ?m'] =>
             rewrite (get_set s m v m'); first [rewrite decide_True by reflexivity | rewrite decide_False by discriminate]
         | H : context [get (set ?s ?m ?v) ?m'] |- _ =>
             rewrite (get_set s m v m') in H; first [rewrite decide_True in H by reflexivity | rewrite decide_False in H by discriminate]
         end.

(** Everything before the search for files, and the floor of the memory size. *)
Definition sized_conf (p : Platform) (c : Sat) : Sat :=
  let c := if get c "memory_threads_" =? -1 then set c "memory_threads_" (num_cpus p) else c in
  let c := if get c "size_mb_" =? 0 then set c "size_mb_" (Z.quot (FindFreeMemSize p) OsLayer.kMegabyte) else c in
  set c "size_" (get c "size_mb_" * OsLayer.kMegabyte).
Definition floored (c : Sat) : Sat :=
  if get c "address_mode_" =? 32
  then let c := set c "size_mb_" (Z.quot (get c "size_mb_") 4 * 4) in set c "size_" (get c "size_mb_" * OsLayer.kMegabyte)
  else c.

Lemma sized_conf_get p c m :
  m ∉ ["memory_threads_"; "size_mb_"; "size_"]%string -> get (sized_conf p c) m = get c m.
Proof.
  intros Hm. rewrite !not_elem_of_cons in Hm. destruct Hm as (H1 & H2 & H3 & _). unfold sized_conf.
  repeat case_match; rewrite ?get_set, ?decide_False; congruence.
Qed.

Lemma floored_get c m : m ∉ ["size_mb_"; "size_"]%string -> get (floored c) m = get c m.
Proof.
  intros Hm. rewrite !not_elem_of_cons in Hm. destruct Hm as (H1 & H2 & _). unfold floored.
  case_match; rewrite ?get_set, ?decide_False; congruence.
Qed.

Lemma sized_conf_size p c : get (sized_conf p c) "size_" = s64 (get (sized_conf p c) "size_mb_" * 2 ^ 20).
Proof. unfold sized_conf. get_simp. reflexivity. Qed.

Lemma sized_conf_threads p c :
  get (sized_conf p c) "memory_threads_" = if get c "memory_threads_" =? -1 then s32 (num_cpus p) else get c "memory_threads_".
Proof. unfold sized_conf. get_simp. repeat case_match; get_simp; reflexivity. Qed.

(** What an accepted environment looks like. *)
Record environment_ok (p : Platform) (c c' : Sat) : Prop := {
  eo_size : get c' "size_" = s64 (get c' "size_mb_" * 2 ^ 20);
  eo_memory : get c "address_mode_" <> 32 -> 1 <= get c' "size_";
  eo_threads : get c' "memory_threads_" = if get c "memory_threads_" =? -1 then s32 (num_cpus p) else get c "memory_threads_";
  eo_files : files_counted c';
  eo_tags : get c "tag_mode_" <> 0 ->
    get c' "file_threads_" <= 0 /\ get c' "disk_threads_" <= 0 /\ get c' "net_threads_" <= 0;
  eo_freq : get c "cpu_freq_test_" <> 0 -> CanRun p = true /\ 0 < get c "cpu_freq_threshold_" /\ 0 <= get c "cpu_freq_round_";
  eo_build : get c "run_on_anything_" = 0 -> ndebug p = true /\ IsSupported p = true
}.

Ltac not_in := apply (bool_decide_unpack _); vm_compute; exact I.

Lemma flag_ne c m : get c m <> 0 -> flag c m = true.
Proof. intros H. unfold flag. by destruct (Z.eqb_spec (get c m) 0). Qed.

(** A configuration from the command line that [CheckEnvironment] accepts has a size that
    is its number of megabytes, some memory unless addresses have 32 bits, one copy thread
    for each CPU if none were asked for, as many file threads as files, no file, disk or
    network thread in tag mode, limits for the frequency test that make sense, and is run
    on a release build and a supported machine, unless told to run on anything. *)
Theorem CheckEnvironment_accepts p args c c' :
  ParseArgs args = Accepted c -> CheckEnvironment p c = Some c' -> environment_ok p c c'.
Proof.
  intros [_ Hl]%accepted_members H. pose proof (lk_file _ Hl : files_counted c) as Hf. unfold CheckEnvironment in H.
  destruct (negb (ndebug p) && _) eqn:Hb; [done|]. destruct (flag c "cpu_freq_test_" && _) eqn:Hq; [done|].
  fold (sized_conf p c) in H. cbv zeta in H. fold (sized_conf p c) in H.
  set (c2 := if flag (sized_conf p c) "findfiles_" && _ then _ else _) in H.
  assert (H2 : files_counted c2 /\ forall m, m <> "file_threads_"%string -> get c2 m = get (sized_conf p c) m).
  { assert (Hs : files_counted (sized_conf p c)).
    { unfold files_counted. rewrite sized_conf_get by not_in.
      replace (filename_ (sized_conf p c)) with (filename_ c) by (unfold sized_conf; by repeat case_match). done. }
    subst c2. destruct (flag (sized_conf p c) "findfiles_" && _); [by apply add_files_counted|done]. }
  destruct H2 as [H2 Hg]. clearbody c2.
  destruct (Z.ltb_spec (get c2 "size_") 1) as [|Hmem]; [done|].
  destruct (flag c2 "tag_mode_" && _) eqn:Ht; [done|]. fold (floored c2) in H.
  destruct (negb (IsSupported p) && _) eqn:Hsup; [done|]. injection H as <-.
  split.
  - unfold floored. destruct (_ =? 32); [get_simp; reflexivity|]. rewrite !Hg by done. apply sized_conf_size.
  - intros Ha. unfold floored. rewrite Hg, sized_conf_get by (done || not_in).
    destruct (Z.eqb_spec (get c "address_mode_") 32); [done|]. done.
  - rewrite floored_get, Hg by (done || not_in). apply sized_conf_threads.
  - unfold files_counted. rewrite floored_get by not_in.
    replace (filename_ (floored c2)) with (filename_ c2) by (unfold floored; by case_match). done.
  - intros Htag. rewrite !floored_get by not_in.
    rewrite flag_ne in Ht by (rewrite Hg, sized_conf_get by (done || not_in); done).
    cbn [andb] in Ht. rewrite !orb_false_iff, !Z.ltb_ge in Ht. tauto.
  - intros Hfr. rewrite flag_ne in Hq by done. cbn [andb] in Hq. rewrite !orb_false_iff, negb_false_iff in Hq.
    rewrite Z.leb_gt, Z.ltb_ge in Hq. tauto.
  - intros Hr. rewrite floored_get, Hg, sized_conf_get in Hsup by (done || not_in). rewrite Hr in Hb, Hsup.
    cbn [Z.eqb] in Hb, Hsup. rewrite andb_true_r, negb_false_iff in Hb, Hsup. done.
Qed.

Lemma sample_environment :
  match ParseArgs sample_args with
  | Accepted c => match CheckEnvironment (platform (sample_course 0)) c with Some _ => true | None => false end
  | _ => false
  end = true.
Proof. vm_compute. reflexivity. Qed.

Lemma CheckEnvironment_accepts_witness :
  exists c c', ParseArgs sample_args = Accepted c /\ CheckEnvironment (platform (sample_course 0)) c = Some c' /\
    environment_ok (platform (sample_course 0)) c c'.
Proof.
  generalize sample_environment. destruct (ParseArgs sample_args) as [c| |] eqn:H; [|discriminate..].
  destruct (CheckEnvironment (platform (sample_course 0)) c) as [c'|] eqn:E; [|discriminate]. intros _.
  exists c, c'. split; [reflexivity|]. split; [exact E|]. exact (CheckEnvironment_accepts _ _ _ _ H E).
Defined.

(** With addresses of 32 bits the size is floored behind the test for some memory. *)
Lemma no_memory_32bit :
  match CheckEnvironment (platform (sample_course 0))
      (set (match ParseArgs ["-M"; "3"]%string with Accepted c => c | _ => new_Sat end) "address_mode_" 32) with
  | Some c' => get c' "size_" =? 0
  | None => false
  end = true.
Proof. vm_compute. reflexivity. Qed.
End SatMainFacts.
