(* ===== verification/Platform.v ===== *)
(** The rest of the platform layer, [src/src/os.cc]: how much memory to test, its allocation
    and release, the PCI configuration space, the model-specific registers and the page cache.

    What the kernel answers is an argument of the operations.  [live] are the resources of
    the process the operations acquire and release: shared segments, attachments, names,
    descriptors, mappings and heap blocks. *)

From Stdlib Require Import Ascii String.
From S2P Require Import Prelude Text OsLayer.

Module Platform.
Import Text.

Definition kMegabyte : Z := OsLayer.kMegabyte.

Inductive Resource :=
| ShmSegment (id : Z) | Attached (addr : Z) | ShmName | Fd (fd : Z) | Mapping (addr len : Z) | Heap (addr : Z).

#[export] Instance resource_eq_dec : EqDecision Resource.
Proof. solve_decision. Defined.

(** The members of [OsLayer] that concern memory, and the resources of the process. *)
Record OsMem := mkOsMem {
  testmem_ : Z; testmemsize_ : Z; totalmemsize_ : Z; min_hugepages_bytes_ : Z; reserve_mb_ : Z;
  use_hugepages_ : bool; use_posix_shm_ : bool; dynamic_mapped_shmem_ : bool; mmapped_allocation_ : bool;
  shmid_ : Z; address_mode_ : Z; live : list Resource
}.

(** The constructor. *)
Definition new_OsMem (address_mode : Z) (l : list Resource) : OsMem :=
  mkOsMem 0 0 0 0 0 false false false false 0 address_mode l.

Definition SetMinimumHugepagesSize (st : OsMem) (min_bytes : Z) : OsMem :=
  mkOsMem (testmem_ st) (testmemsize_ st) (totalmemsize_ st) min_bytes (reserve_mb_ st) (use_hugepages_ st) (use_posix_shm_ st)
    (dynamic_mapped_shmem_ st) (mmapped_allocation_ st) (shmid_ st) (address_mode_ st) (live st).
Definition SetReserveSize (st : OsMem) (reserve_mb : Z) : OsMem :=
  mkOsMem (testmem_ st) (testmemsize_ st) (totalmemsize_ st) (min_hugepages_bytes_ st) reserve_mb (use_hugepages_ st) (use_posix_shm_ st)
    (dynamic_mapped_shmem_ st) (mmapped_allocation_ st) (shmid_ st) (address_mode_ st) (live st).
Definition set_total (st : OsMem) (size : Z) : OsMem :=
  mkOsMem (testmem_ st) (testmemsize_ st) size (min_hugepages_bytes_ st) (reserve_mb_ st) (use_hugepages_ st) (use_posix_shm_ st)
    (dynamic_mapped_shmem_ st) (mmapped_allocation_ st) (shmid_ st) (address_mode_ st) (live st).
Definition set_testmem (st : OsMem) (addr size : Z) : OsMem :=
  mkOsMem addr size (totalmemsize_ st) (min_hugepages_bytes_ st) (reserve_mb_ st) (use_hugepages_ st) (use_posix_shm_ st)
    (dynamic_mapped_shmem_ st) (mmapped_allocation_ st) (shmid_ st) (address_mode_ st) (live st).
Definition set_kind (st : OsMem) (huge posix dynamic mmapped : bool) (shmid : Z) : OsMem :=
  mkOsMem (testmem_ st) (testmemsize_ st) (totalmemsize_ st) (min_hugepages_bytes_ st) (reserve_mb_ st) huge posix dynamic mmapped
    shmid (address_mode_ st) (live st).
Definition set_live (st : OsMem) (l : list Resource) : OsMem :=
  mkOsMem (testmem_ st) (testmemsize_ st) (totalmemsize_ st) (min_hugepages_bytes_ st) (reserve_mb_ st) (use_hugepages_ st) (use_posix_shm_ st)
    (dynamic_mapped_shmem_ st) (mmapped_allocation_ st) (shmid_ st) (address_mode_ st) l.

Definition acquire (st : OsMem) (r : Resource) : OsMem := set_live st (r :: live st).
Definition release (st : OsMem) (r : Resource) : OsMem := set_live st (filter (fun x => x <> r) (live st)).

(** ** How much memory *)

(** [strtoull(buf, NULL, 10)]. *)
Definition strtoull10 (s : text) : Z :=
  let '(neg, s) := sign_of (skip_space s) in
  let v := read_base 10 0 s in
  if ULLONG_MAX <? v then ULLONG_MAX else if neg : bool then u64 (- v) else v.

(** [read] gave [bytes_read] bytes, the first of [buf]. *)
Definition FindHugePages (bytes_read : Z) (buf : text) : Z :=
  if bytes_read <=? 0 then 0
  else if bytes_read =? 64 then 0
  else s64 (strtoull10 (take (Z.to_nat bytes_read) buf)).

(** The size and the new state; [None]: the division in the log line is by zero.  [pages] and
    [pagesize] are answers of [sysconf], [hugepages] that of [FindHugePages]. *)
Definition FindFreeMemSize (st : OsMem) (pages pagesize hugepages : Z) : option (Z * OsMem) :=
  if 0 <? totalmemsize_ st then Some (totalmemsize_ st, st)
  else
    let physsize := s64 (pages * pagesize) in
    let hugepagesize := s64 (s64 (hugepages * 2) * kMegabyte) in
    if (pages =? -1) || (pagesize =? -1) then Some (0, st)
    else
      let minsize :=
        if 0 <? hugepagesize then
          if 0 <? min_hugepages_bytes_ st then min_hugepages_bytes_ st else hugepagesize
        else
          let minsize :=
            if physsize <? 2048 * kMegabyte then s64 (Z.quot (s64 (pages * 85)) 100 * pagesize)
            else s64 (s64 (Z.quot (s64 (pages * 95)) 100 * pagesize) - 192 * kMegabyte) in
          if 0 <? reserve_mb_ st then
            let totalsize := s64 (pages * pagesize) in
            let reserve_kb := s64 (reserve_mb_ st * kMegabyte) in
            if totalsize <? reserve_kb then minsize
            else if s64 (totalsize - minsize) <? reserve_kb then s64 (totalsize - reserve_kb)
            else minsize
          else minsize in
      let size :=
        if 0 <? hugepagesize then (if hugepagesize <? minsize then minsize else hugepagesize) else minsize in
      if physsize =? 0 then None else Some (size, set_total st size).

(** ** Allocation *)

(** What the system calls answer; -1 is an error, and 0 for [memalign]. *)
Record Calls := mkCalls {
  has_sys_shm : bool; hugepages_ : Z; shmget_ : Z; shmat_ : Z; rmid_ok : bool; shm_open_ : Z; ftruncate_ : Z;
  shm_map : Z; os_page_size : Z; anonymous_map : Z; memalign_ : Z
}.

Section Alloc.
Context (c : Calls) (length : Z).

(** The first block of the function: the buffer and the state. *)
Definition allocate_huge (st : OsMem) : Z * OsMem :=
  if shmget_ c <? 0 then (0, st)
  else
    let st := acquire st (ShmSegment (shmget_ c)) in
    if shmat_ c =? -1 then (0, if rmid_ok c then release st (ShmSegment (shmget_ c)) else st)
    else (shmat_ c, acquire (set_kind st true (use_posix_shm_ st) (dynamic_mapped_shmem_ st) (mmapped_allocation_ st) (shmget_ c))
                      (Attached (shmat_ c))).

(** The second block, with [buf] as it was. *)
Definition allocate_posix (prefer_dynamic_mapping : bool) (buf : Z) (st : OsMem) : Z * OsMem :=
  let '(buf, st) :=
    if shm_open_ c <? 0 then (buf, st)
    else
      let st := acquire (acquire st ShmName) (Fd (shm_open_ c)) in
      if ftruncate_ c <? 0 then (buf, st)
      else if prefer_dynamic_mapping then
        (0, set_kind st (use_hugepages_ st) true true (mmapped_allocation_ st) (shm_open_ c))
      else if shm_map c =? -1 then (buf, st)
      else (shm_map c, acquire (set_kind st (use_hugepages_ st) true (dynamic_mapped_shmem_ st) (mmapped_allocation_ st) (shm_open_ c))
                         (Mapping (shm_map c) length)) in
  (buf, release st ShmName).

(** The third block. *)
Definition allocate_plain (buf : Z) (st : OsMem) : Z * OsMem :=
  let '(buf, st) :=
    if (4096 <=? os_page_size c) && negb (anonymous_map c =? -1) then
      (anonymous_map c, acquire (set_kind st (use_hugepages_ st) (use_posix_shm_ st) (dynamic_mapped_shmem_ st) true (shmid_ st))
                          (Mapping (anonymous_map c) length))
    else (buf, st) in
  if negb (mmapped_allocation_ st) then
    (memalign_ c, if memalign_ c =? 0 then st else acquire st (Heap (memalign_ c)))
  else (buf, st).

(** [AllocateTestMem]; [None]: the assertion fails. *)
Definition AllocateTestMem (st : OsMem) : option (bool * OsMem) :=
  if length <? 0 then None
  else
    let hugepagesize := s64 (s64 (hugepages_ c * 2) * kMegabyte) in
    let prefer_posix_shm := (1400 * kMegabyte <=? length) && (address_mode_ st =? 32) in
    let prefer_dynamic_mapping := prefer_posix_shm in
    let prefer_hugepages := negb prefer_posix_shm && (length <=? hugepagesize) in
    let '(buf, st) := if has_sys_shm c && prefer_hugepages then allocate_huge st else (0, st) in
    let '(buf, st) := if has_sys_shm c && negb (use_hugepages_ st) && prefer_posix_shm
                      then allocate_posix prefer_dynamic_mapping buf st else (buf, st) in
    let '(buf, st) := if negb (use_hugepages_ st) && negb (use_posix_shm_ st) then allocate_plain buf st else (buf, st) in
    let got := negb (buf =? 0) || dynamic_mapped_shmem_ st in
    Some (got, set_testmem st buf (if got then length else 0)).
End Alloc.

(** The length allocated, or 0. *)
Definition AllocateAllMem (c : Calls) (st : OsMem) (pages pagesize : Z) : option (Z * OsMem) :=
  match FindFreeMemSize st pages pagesize (hugepages_ c) with
  | None => None
  | Some (length, st) =>
      match AllocateTestMem c length st with
      | None => None
      | Some (retval, st) => Some (if retval : bool then length else 0, st)
      end
  end.

Definition FreeTestMem (has_sys_shm : bool) (st : OsMem) : OsMem :=
  if negb (testmem_ st =? 0) then
    let st :=
      if use_hugepages_ st then
        if has_sys_shm then release (release st (Attached (testmem_ st))) (ShmSegment (shmid_ st)) else st
      else if use_posix_shm_ st then
        release (if negb (dynamic_mapped_shmem_ st) then release st (Mapping (testmem_ st) (testmemsize_ st)) else st)
          (Fd (shmid_ st))
      else if mmapped_allocation_ st then release st (Mapping (testmem_ st) (testmemsize_ st))
      else release st (Heap (testmem_ st)) in
    set_testmem st 0 0
  else st.

(** The platform object with the test memory. *)
Definition with_memory (os : OsLayer.OsLayer) (st : OsMem) : OsLayer.OsLayer :=
  OsLayer.mkOs (totalmemsize_ st) (OsLayer.regionsize_ os) (OsLayer.regioncount_ os) (OsLayer.num_nodes_ os)
    (OsLayer.num_cpus_per_node_ os) (OsLayer.cpu_sets_ os) (OsLayer.cpu_sets_valid_ os) (OsLayer.channels_ os)
    (OsLayer.channel_hash_ os) (OsLayer.channel_width_ os) (testmem_ st) (testmemsize_ st) (dynamic_mapped_shmem_ st).

(** ** PCI configuration space

    [space] are the 256 bytes of the function behind the descriptor; a call may fail. *)

(** The low bytes of a value, and the value of bytes. *)
Definition value_bytes (n : nat) (v : Z) : list Z := map (fun i => v / 2 ^ (8 * i) mod 2 ^ 8) (zrange 0 n).
Fixpoint bytes_value (bs : list Z) : Z := match bs with [] => 0 | b :: bs => b + 2 ^ 8 * bytes_value bs end.

(** The size in bytes of an access; [None]: an assertion fails. *)
Definition pci_size (offset width : Z) : option Z :=
  let size := Z.quot width 8 in
  if ((width =? 32) || (width =? 16) || (width =? 8)) && (offset <=? 256 - size) then Some size else None.

Definition PciRead (seek_ok : bool) (read_result : Z) (space : list Z) (offset width : Z) : option Z :=
  match pci_size offset width with
  | None => None
  | Some size =>
      if negb seek_ok then Some 0
      else if negb (read_result =? size) then Some 0
      else
        let l32 := bytes_value (take (Z.to_nat size) (drop (Z.to_nat offset) space)) in
        Some (if width =? 8 then u8 l32 else if width =? 16 then l32 mod 2 ^ 16 else u32 l32)
  end.

(** The [switch] falls through to its last case, so the union ends up with all of [value];
    [written] is how many bytes [write] stored. *)
Definition PciWrite (seek_ok : bool) (written : Z) (space : list Z) (offset value width : Z) : option (list Z) :=
  match pci_size offset width with
  | None => None
  | Some size =>
      let datacast := u32 value in
      if negb seek_ok then Some space
      else
        let stored := take (Z.to_nat written) (value_bytes (Z.to_nat size) datacast) in
        Some (take (Z.to_nat offset) space ++ stored ++ drop (Z.to_nat offset + length stored) space)
  end.

(** ** Model-specific registers *)

(** The results of [open] and [lseek]: the descriptor, or a negative number. *)
Definition OpenMSR (opened sought address : Z) (st : OsMem) : Z * OsMem :=
  if opened <? 0 then (opened, st)
  else
    let st := acquire st (Fd opened) in
    if negb (u32 sought =? address) then (-1, release st (Fd opened)) else (opened, st).

(** [moved] is the result of [read] or [write]. *)
Definition AccessMSR (opened sought address moved : Z) (st : OsMem) : bool * OsMem :=
  let '(fd, st) := OpenMSR opened sought address st in
  if fd <? 0 then (false, st) else (moved =? 8, release st (Fd fd)).

(** ** The page cache *)

Definition FlushPageCache (use_flush_page_cache : bool) (dcfile bytes_written : Z) (st : OsMem) : bool * OsMem :=
  if negb use_flush_page_cache then (true, st)
  else if dcfile <? 0 then (false, st)
  else (bytes_written =? 1, release (acquire st (Fd dcfile)) (Fd dcfile)).

End Platform.

Module PlatformFacts.
Import Text Platform.

(** ** The size of the test memory *)

Lemma FindFreeMemSize_again st size pages pagesize hugepages :
  0 < size -> FindFreeMemSize (set_total st size) pages pagesize hugepages = Some (size, set_total st size).
Proof. intros Hpos. unfold FindFreeMemSize. cbn [totalmemsize_ set_total]. by rewrite (proj2 (Z.ltb_lt _ _) Hpos). Qed.

(** C25. How much memory is tested when the command line does not say.  On a machine without
    huge pages, with memory sizes that fit 64 bits, the size is at most 95 percent of the
    physical memory, at least 192 MB less on machines with 2 GB or more, leaves the reserve
    the user asked for whenever the machine has that much memory at all, and does not change
    when it is asked for again. *)
Theorem FindFreeMemSize_leaves_room st pages pagesize :
  totalmemsize_ st = 0 -> 0 < pages -> 0 < pagesize <= kMegabyte -> 100 * (pages * pagesize) < 2 ^ 63 ->
  0 <= reserve_mb_ st -> reserve_mb_ st * kMegabyte < 2 ^ 63 ->
  exists size st', FindFreeMemSize st pages pagesize 0 = Some (size, st') /\
    0 <= size /\ 100 * size <= 95 * (pages * pagesize) /\
    (2048 * kMegabyte <= pages * pagesize -> size + 192 * kMegabyte <= pages * pagesize) /\
    (reserve_mb_ st * kMegabyte <= pages * pagesize -> size + reserve_mb_ st * kMegabyte <= pages * pagesize) /\
    (0 < size -> FindFreeMemSize st' pages pagesize 0 = Some (size, st')).
Proof.
  intros Ht Hp Hs Hmax Hr Hrm. set (phys := pages * pagesize) in *.
  assert (Hpages : 0 < pages <= phys) by (unfold phys; nia).
  enough (exists size, FindFreeMemSize st pages pagesize 0 = Some (size, set_total st size) /\
    0 <= size /\ 100 * size <= 95 * phys /\ (2048 * kMegabyte <= phys -> size + 192 * kMegabyte <= phys) /\
    (reserve_mb_ st * kMegabyte <= phys -> size + reserve_mb_ st * kMegabyte <= phys))
    as (size & ? & ? & ? & ? & ?) by (exists size, (set_total st size); auto 10 using FindFreeMemSize_again).
  unfold FindFreeMemSize. rewrite Ht. cbn [Z.ltb Z.compare]. change (s64 (s64 (0 * 2) * kMegabyte)) with 0.
  rewrite (proj2 (Z.eqb_neq pages (-1))), (proj2 (Z.eqb_neq pagesize (-1))) by lia. cbn [orb Z.ltb Z.compare]. fold phys.
  rewrite (s64_id phys) by lia. rewrite (s64_id (pages * 85)), (s64_id (pages * 95)) by lia.
  rewrite !Z.quot_div_nonneg by lia. rewrite (proj2 (Z.eqb_neq phys 0)) by lia.
  assert (Hq : forall k, 0 <= k <= 100 -> 0 <= pages * k / 100 * pagesize /\ 100 * (pages * k / 100 * pagesize) <= k * phys).
  { intros k Hk. pose proof (Z.div_pos (pages * k) 100 ltac:(lia)). pose proof (Z.mul_div_le (pages * k) 100 ltac:(lia)). split; [nia|]. unfold phys. nia. }
  destruct (Hq 85 ltac:(lia)) as [H85 H85']. destruct (Hq 95 ltac:(lia)) as [H95 H95'].
  rewrite (s64_id (pages * 85 / 100 * pagesize)), (s64_id (pages * 95 / 100 * pagesize)) by lia.
  set (min := if phys <? 2048 * kMegabyte then _ else _).
  assert (Hmin : 0 <= min /\ 100 * min <= 95 * phys /\ (2048 * kMegabyte <= phys -> min + 192 * kMegabyte <= phys)).
  { unfold min, kMegabyte, OsLayer.kMegabyte in *. destruct (Z.ltb_spec phys (2048 * (1024 * 1024))) as [Hlt|Hge]; [lia|].
    assert (Hlow : 95 * phys <= 100 * (pages * 95 / 100 * pagesize) + 100 * pagesize).
    { pose proof (Z.div_mod (pages * 95) 100 ltac:(lia)). pose proof (Z.mod_pos_bound (pages * 95) 100 ltac:(lia)). unfold phys. nia. }
    rewrite s64_id by lia. lia. }
  clearbody min. destruct Hmin as (Hm0 & Hm1 & Hm2). destruct (Z.ltb_spec 0 (reserve_mb_ st)) as [Hrp|Hr0].
  - assert (Hres : 0 < reserve_mb_ st * kMegabyte) by (unfold kMegabyte, OsLayer.kMegabyte; lia).
    rewrite (s64_id (reserve_mb_ st * kMegabyte)) by lia. set (res := reserve_mb_ st * kMegabyte) in *.
    destruct (Z.ltb_spec phys res) as [Hbig|Hfits].
    + exists min. split; [done|]. split; [lia|]. split; [lia|]. split; [done|]. lia.
    + rewrite (s64_id (phys - min)), (s64_id (phys - res)) by lia. destruct (Z.ltb_spec (phys - min) res).
      * exists (phys - res). split; [done|]. split; [lia|]. split; [lia|]. split; [lia|]. lia.
      * exists min. split; [done|]. split; [lia|]. split; [lia|]. split; [done|]. lia.
  - exists min. split; [done|]. split; [lia|]. split; [lia|]. split; [done|]. nia.
Qed.

(** ** Allocation and release *)

Lemma filter_fresh (r : Resource) (L : list Resource) : r ∉ L -> filter (fun x => x <> r) L = L.
Proof.
  induction L as [|x L IH]; intros Hr; [done|]. apply not_elem_of_cons in Hr as [Hx Hr].
  rewrite filter_cons_True by congruence. by rewrite IH.
Qed.

(** Resources the kernel hands out are not in use. *)
Definition fresh (c : Calls) (length : Z) (L : list Resource) : Prop :=
  forall r, r ∈ [ShmSegment (shmget_ c); Attached (shmat_ c); ShmName; Fd (shm_open_ c); Mapping (anonymous_map c) length; Heap (memalign_ c)] -> r ∉ L.

Definition wants_posix (c : Calls) (length address_mode : Z) : bool :=
  has_sys_shm c && ((1400 * kMegabyte <=? length) && (address_mode =? 32)).
Definition wants_huge (c : Calls) (length address_mode : Z) : bool :=
  has_sys_shm c && (negb ((1400 * kMegabyte <=? length) && (address_mode =? 32)) &&
                    (length <=? s64 (s64 (hugepages_ c * 2) * kMegabyte))).

(** What is not given back: the descriptor of the shared memory object, and a segment that could
    be neither attached nor removed. *)
Definition leaked (c : Calls) (length address_mode : Z) : list Resource :=
  (if wants_posix c length address_mode && negb (shm_open_ c <? 0) then [Fd (shm_open_ c)] else []) ++
  (if wants_huge c length address_mode && negb (shmget_ c <? 0) && (shmat_ c =? -1) && negb (rmid_ok c)
   then [ShmSegment (shmget_ c)] else []).

(** The third block, in a state with no memory yet. *)
Lemma plain_released c length st L :
  (forall r, r ∈ [Mapping (anonymous_map c) length; Heap (memalign_ c)] -> r ∉ live st) ->
  anonymous_map c <> 0 -> use_hugepages_ st = false -> use_posix_shm_ st = false -> dynamic_mapped_shmem_ st = false ->
  mmapped_allocation_ st = false -> live st = L ->
  let '(buf, st') := allocate_plain c length 0 st in
  dynamic_mapped_shmem_ st' = false /\
  live (FreeTestMem (has_sys_shm c) (set_testmem st' buf (if negb (buf =? 0) || false then length else 0))) = L.
Proof.
  intros Hf Hz Hh Hp Hd Hm <-. unfold allocate_plain. destruct ((4096 <=? os_page_size c) && negb (anonymous_map c =? -1)); cbn [mmapped_allocation_ set_kind acquire set_live negb].
  - split; [done|]. unfold FreeTestMem. cbn -[filter]. rewrite (proj2 (Z.eqb_neq _ _) Hz). cbn -[filter]. rewrite Hh, Hp. cbn -[filter].
    rewrite filter_cons_False by (intros ?; congruence). apply filter_fresh, Hf. left.
  - rewrite Hm. cbn -[filter]. destruct (Z.eqb_spec (memalign_ c) 0) as [->|Hne]; cbn -[filter]; [split; [done|]; unfold FreeTestMem; by cbn -[filter]|].
    split; [done|]. unfold FreeTestMem. cbn -[filter]. rewrite (proj2 (Z.eqb_neq _ _) Hne). cbn -[filter]. rewrite Hh, Hp, Hm. cbn -[filter].
    rewrite filter_cons_False by (intros ?; congruence). apply filter_fresh, Hf. right. left.
Qed.

(** The memory after the three blocks, freed again. *)
Definition freed (c : Calls) (length buf : Z) (st : OsMem) : list Resource :=
  live (FreeTestMem (has_sys_shm c) (set_testmem st buf (if negb (buf =? 0) || dynamic_mapped_shmem_ st then length else 0))).

Lemma plain_freed c length st :
  (forall r, r ∈ [Mapping (anonymous_map c) length; Heap (memalign_ c)] -> r ∉ live st) ->
  anonymous_map c <> 0 -> use_hugepages_ st = false -> use_posix_shm_ st = false -> dynamic_mapped_shmem_ st = false ->
  mmapped_allocation_ st = false ->
  let '(buf, st') := if negb (use_hugepages_ st) && negb (use_posix_shm_ st) then allocate_plain c length 0 st else (0, st) in
  freed c length buf st' = live st.
Proof.
  intros Hf Hz Hh Hp Hd Hm. rewrite Hh, Hp. cbn [negb andb]. pose proof (plain_released c length st _ Hf Hz Hh Hp Hd Hm eq_refl) as Hpl.
  destruct (allocate_plain c length 0 st) as [buf st']. destruct Hpl as [Hd' Hl]. unfold freed. by rewrite Hd'.
Qed.

(** The first block leaves attached memory, or nothing but a segment it cannot remove. *)
Lemma huge_freed c length L st :
  shmat_ c <> 0 -> ShmSegment (shmget_ c) ∉ L -> Attached (shmat_ c) ∉ L -> live st = L ->
  use_hugepages_ st = false -> has_sys_shm c = true ->
  let '(buf, st') := allocate_huge c st in
  (use_hugepages_ st' = true /\ freed c length buf st' = L /\ negb (shmget_ c <? 0) && (shmat_ c =? -1) = false) \/
  (buf = 0 /\ exists l, st' = set_live st l /\
   l = (if negb (shmget_ c <? 0) && (shmat_ c =? -1) && negb (rmid_ok c) then [ShmSegment (shmget_ c)] else []) ++ L).
Proof.
  intros Hat H1 H2 <- Hu Hs. unfold allocate_huge. destruct (shmget_ c <? 0); cbn [negb andb].
  { right. split; [done|]. exists (live st). by destruct st. }
  destruct (shmat_ c =? -1); cbn [andb].
  - right. split; [done|]. destruct (rmid_ok c); cbn [negb andb app]; [|by eexists].
    exists (filter (fun x => x <> ShmSegment (shmget_ c)) (ShmSegment (shmget_ c) :: live st)). split; [done|].
    rewrite filter_cons_False by (intros ?; congruence). by apply filter_fresh.
  - left. split; [done|]. split; [|done]. unfold freed, FreeTestMem. cbn -[filter]. rewrite (proj2 (Z.eqb_neq _ _) Hat), Hs. cbn -[filter].
    rewrite filter_cons_False by (intros ?; congruence). rewrite filter_cons_True by congruence.
    rewrite filter_cons_False by (intros ?; congruence). rewrite (filter_fresh (Attached _)) by done. by rewrite filter_fresh.
Qed.

(** The second block, which is only reached for memory that is mapped as needed. *)
Lemma posix_freed c length L st :
  ShmName ∉ L -> Fd (shm_open_ c) ∉ L -> live st = L -> dynamic_mapped_shmem_ st = false -> testmem_ st = 0 ->
  let '(buf, st') := allocate_posix c length true 0 st in
  buf = 0 /\
  ((use_posix_shm_ st' = true /\ freed c length buf st' = (if negb (shm_open_ c <? 0) then [Fd (shm_open_ c)] else []) ++ L) \/
   exists l, st' = set_live st l /\ l = (if negb (shm_open_ c <? 0) then [Fd (shm_open_ c)] else []) ++ L).
Proof.
  intros H1 H2 <- Hd Ht. unfold allocate_posix. destruct (shm_open_ c <? 0); cbn [negb].
  { split; [done|]. right. exists (filter (fun x => x <> ShmName) (live st)). split; [done|]. by rewrite filter_fresh. }
  assert (Hl : filter (fun x => x <> ShmName) (Fd (shm_open_ c) :: ShmName :: live st) = Fd (shm_open_ c) :: live st).
  { rewrite filter_cons_True by congruence. rewrite filter_cons_False by (intros ?; congruence). by rewrite filter_fresh. }
  destruct (ftruncate_ c <? 0); cbn -[filter]; rewrite Hl; (split; [done|]); [right; by eexists|]. left. split; [done|].
  unfold freed, FreeTestMem. by cbn -[filter].
Qed.

(** C24. The test memory is given back.  Whatever the system calls of the allocation answer (the
    calls that free memory succeed), allocating the test memory and freeing it returns every resource it acquired except two: the descriptor of the
    POSIX shared memory object, which is never closed on the path that maps memory as needed,
    and a shared segment that could be neither attached nor removed.  After a successful
    allocation [PrepareTestMem] gives every block within the length, provided that, on the path
    that maps memory as needed, the page size is known and the [mmap] of the block succeeds; it
    aborts when one of the two is not so.  After a failed allocation there is no memory.  (The calls
    that succeed return memory at an address other than 0 and no resource already held.) *)
Theorem test_memory_released c length mode L ok st :
  0 <= length < 2 ^ 64 -> anonymous_map c <> 0 -> shmat_ c <> 0 -> fresh c length L ->
  AllocateTestMem c length (new_OsMem mode L) = Some (ok, st) ->
  live (FreeTestMem (has_sys_shm c) st) = leaked c length mode ++ L /\
  testmem_ (FreeTestMem (has_sys_shm c) st) = 0 /\
  testmemsize_ st = (if ok then length else 0) /\
  (ok = true -> forall os page_size map_at offset len, 0 <= offset -> 0 <= len -> offset + len <= length ->
     is_Some (OsLayer.PrepareTestMem (with_memory os st) page_size map_at offset len) <->
     (dynamic_mapped_shmem_ st = true -> 0 < page_size /\ map_at <> OsLayer.MAP_FAILED)).
Proof.
  intros Hlen Hanon Hat Hf. assert (Hfree : forall b x, testmem_ (FreeTestMem b x) = 0).
  { intros b x. unfold FreeTestMem. destruct (Z.eqb_spec (testmem_ x) 0) as [He|]; [done | by destruct (use_hugepages_ x)]. }
  unfold AllocateTestMem. rewrite (proj2 (Z.ltb_ge _ _)) by lia. cbv zeta. cbn [address_mode_ new_OsMem].
  destruct (if has_sys_shm c && _ then allocate_huge c _ else _) as [buf1 st1] eqn:E1.
  destruct (if has_sys_shm c && negb (use_hugepages_ st1) && _ then _ else _) as [buf2 st2] eqn:E2.
  destruct (if negb (use_hugepages_ st2) && _ then _ else _) as [buf3 st3] eqn:E3. intros [= <- <-].
  split; [|split; [apply Hfree|split; [done|]]].
  - change (freed c length buf3 st3 = leaked c length mode ++ L). unfold leaked, wants_posix, wants_huge.
    assert (Hplain : forall st l, st = set_live (new_OsMem mode L) (l ++ L) -> (forall r, r ∈ l -> r = Fd (shm_open_ c) \/ r = ShmSegment (shmget_ c)) ->
      (if negb (use_hugepages_ st) && negb (use_posix_shm_ st) then allocate_plain c length 0 st else (0, st)) = (buf3, st3) ->
      freed c length buf3 st3 = l ++ L).
    { intros st l -> Hl E. pose proof (plain_freed c length (set_live (new_OsMem mode L) (l ++ L))) as Hp. rewrite E in Hp.
      apply Hp; [|done..]. intros r Hr [Hin|Hin]%elem_of_app.
      - rewrite !elem_of_cons, elem_of_nil in Hr. destruct (Hl r Hin) as [-> | ->], Hr as [?|[?|?]]; done.
      - revert Hin. apply Hf. rewrite !elem_of_cons, elem_of_nil in *. tauto. }
    set (posix := (1400 * kMegabyte <=? length) && (mode =? 32)) in *. set (huge := length <=? _) in *.
    destruct (has_sys_shm c) eqn:Hshm; cbn [andb] in *.
    2: { injection E1 as <- <-. injection E2 as <- <-. apply (Hplain (new_OsMem mode L) []); [done | by intros r ?%elem_of_nil | exact E3]. }
    destruct posix; cbn [negb andb] in *.
    + injection E1 as <- <-. cbn [use_hugepages_ new_OsMem negb andb] in E2. rewrite app_nil_r.
      pose proof (posix_freed c length L (new_OsMem mode L)) as Hp. rewrite E2 in Hp. cbv zeta in Hp.
      destruct Hp as [-> [[Hu Hl]|(l & -> & ->)]]; try done; [apply Hf; rewrite !elem_of_cons; tauto .. | |].
      * rewrite Hu, andb_false_r in E3. injection E3 as <- <-. exact Hl.
      * apply (Hplain _ _ eq_refl); [|exact E3]. intros r Hr. left. destruct (negb _); [by apply list_elem_of_singleton in Hr | by apply elem_of_nil in Hr].
    + destruct huge; cbn [andb app] in *.
      2: { injection E1 as <- <-. cbn in E2. injection E2 as <- <-. apply (Hplain (new_OsMem mode L) []); [done | by intros r ?%elem_of_nil | exact E3]. }
      pose proof (huge_freed c length L (new_OsMem mode L)) as Hp. rewrite E1 in Hp. cbv zeta in Hp.
      destruct Hp as [(Hu & Hl & Hno)|(-> & l & -> & ->)]; try done; [apply Hf; rewrite !elem_of_cons; tauto .. | |].
      * rewrite andb_false_r in E2. injection E2 as <- <-. rewrite Hu in E3. cbn in E3. injection E3 as <- <-. rewrite Hno. exact Hl.
      * rewrite andb_false_r in E2. injection E2 as <- <-. apply (Hplain _ _ eq_refl); [|exact E3]. intros r Hr. right.
        destruct (_ && _); [by apply list_elem_of_singleton in Hr | by apply elem_of_nil in Hr].
  - intros Hok os ps ma off len H0 H1 H2. unfold OsLayer.PrepareTestMem.
    cbn [OsLayer.testmemsize_ OsLayer.dynamic_mapped_shmem_ with_memory testmemsize_ dynamic_mapped_shmem_ set_testmem].
    rewrite Hok, u64_id by lia. rewrite (proj2 (Z.ltb_ge _ _)) by lia.
    destruct (dynamic_mapped_shmem_ _); [|split; [done | by eexists]].
    destruct (Z.leb_spec ps 0); [split; [by intros [? ?] | intros []; [done|lia]]|].
    destruct (Z.eqb_spec ma OsLayer.MAP_FAILED) as [->|Hne]; [split; [by intros [? ?] | by intros []] | split; [done | by eexists]].
Qed.

(** ** Configuration space *)

Lemma bytes_value_from n v k :
  0 <= k -> bytes_value (map (fun i => v / 2 ^ (8 * i) mod 2 ^ 8) (zrange k n)) = v / 2 ^ (8 * k) mod 2 ^ (8 * Z.of_nat n).
Proof.
  revert k. induction n as [|n IH]; intros k Hk; [cbn; by rewrite Z.mod_1_r|]. cbn [zrange map bytes_value]. rewrite IH by lia.
  set (x := v / 2 ^ (8 * k)). replace (v / 2 ^ (8 * (k + 1))) with (x / 2 ^ 8).
  2: { unfold x. rewrite Z.div_div by lia. f_equal. rewrite <- Z.pow_add_r by lia. f_equal. lia. }
  replace (8 * Z.of_nat (S n)) with (8 + 8 * Z.of_nat n) by lia. rewrite Z.pow_add_r by lia.
  symmetry. apply Z.rem_mul_r; lia.
Qed.

Lemma bytes_value_bytes n v : bytes_value (value_bytes n v) = v mod 2 ^ (8 * Z.of_nat n).
Proof. unfold value_bytes. rewrite bytes_value_from by lia. by rewrite Z.div_1_r. Qed.

Lemma pci_size_cases offset width size :
  pci_size offset width = Some size ->
  offset + size <= 256 /\ ((width = 8 /\ size = 1) \/ (width = 16 /\ size = 2) \/ (width = 32 /\ size = 4)).
Proof.
  unfold pci_size. destruct (Z.eqb_spec width 32) as [->|]; [|destruct (Z.eqb_spec width 16) as [->|]; [|destruct (Z.eqb_spec width 8) as [->|]; [|done]]];
    cbn [orb andb]; match goal with |- context [offset <=? ?x] => destruct (Z.leb_spec offset x) as [Hl|]; [|done] end; intros [= <-];
    change (Z.quot 32 8) with 4 in *; change (Z.quot 16 8) with 2 in *; change (Z.quot 8 8) with 1 in *; lia.
Qed.

(** Configuration space.  What [PciWrite] stores at an offset [PciRead] reads back there, cut
    to the width of the access, and no other byte of the space changes. *)
Theorem PciWrite_PciRead space offset value width space' :
  0 <= offset -> length space = 256%nat -> PciWrite true (width / 8) space offset value width = Some space' ->
  PciRead true (width / 8) space' offset width = Some (value mod 2 ^ width) /\
  (forall i, 0 <= Z.of_nat i < offset \/ offset + width / 8 <= Z.of_nat i -> space' !! i = space !! i).
Proof.
  intros Ho Hl. unfold PciWrite, PciRead. destruct (pci_size offset width) as [size|] eqn:Hs; [|done].
  destruct (pci_size_cases _ _ _ Hs) as [Hfit Hw]. cbn [negb].
  assert (Hsz : width / 8 = size /\ width = 8 * size) by (destruct Hw as [[-> ->]|[[-> ->]|[-> ->]]]; done). destruct Hsz as [Hdiv Hwidth].
  assert (Hlen : length (value_bytes (Z.to_nat size) (u32 value)) = Z.to_nat size) by (unfold value_bytes; by rewrite length_map, length_zrange).
  assert (Htake : length (take (Z.to_nat offset) space) = Z.to_nat offset) by (rewrite length_take; lia).
  rewrite Hdiv, (take_ge (value_bytes _ _)), Hlen by lia. intros [= <-]. split.
  - rewrite Z.eqb_refl. cbn [negb].
    rewrite drop_app_le, drop_ge by lia. cbn [app]. rewrite take_app_le, take_ge by lia. rewrite bytes_value_bytes.
    assert (Hmod : u32 value mod 2 ^ (8 * Z.of_nat (Z.to_nat size)) = value mod 2 ^ width).
    { rewrite Z2Nat.id, <- Hwidth by lia. apply Z.mod_mod_divide. exists (2 ^ (32 - width)).
      rewrite <- Z.pow_add_r by lia. f_equal. lia. }
    rewrite Hmod. unfold u8, u32. destruct Hw as [[-> _]|[[-> _]|[-> _]]]; cbn [Z.eqb Pos.eqb]; by rewrite Z.mod_mod by lia.
  - intros i [Hi|Hi].
    + rewrite lookup_app_l by lia. apply lookup_take_lt. lia.
    + rewrite lookup_app_r by lia. rewrite lookup_app_r by lia. rewrite lookup_drop. f_equal. lia.
Qed.

(** Neither registers nor the page cache keep a descriptor open. *)
Lemma AccessMSR_closes opened sought address moved st :
  Fd opened ∉ live st -> live (AccessMSR opened sought address moved st).2 = live st.
Proof.
  intros Hf. unfold AccessMSR, OpenMSR. destruct (opened <? 0) eqn:Ho; [by rewrite Ho|].
  destruct (negb _); [|rewrite Ho]; cbn -[filter]; (rewrite filter_cons_False by (intros ?; congruence)); by apply filter_fresh.
Qed.

Lemma FlushPageCache_closes use dcfile written st :
  Fd dcfile ∉ live st -> live (FlushPageCache use dcfile written st).2 = live st.
Proof.
  intros Hf. unfold FlushPageCache. destruct (negb use); [done|]. destruct (dcfile <? 0); [done|]. cbn -[filter].
  rewrite filter_cons_False by (intros ?; congruence). by apply filter_fresh.
Qed.

(** *** Samples *)

(** A machine with 8 GB and a reserve of 1 GB. *)
Lemma FindFreeMemSize_leaves_room_witness :
  exists size, option_map fst (FindFreeMemSize (SetReserveSize (new_OsMem 64 []) 1024) 2097152 4096 0) = Some size /\
    size + 1024 * kMegabyte <= 2097152 * 4096.
Proof.
  destruct (FindFreeMemSize_leaves_room (SetReserveSize (new_OsMem 64 []) 1024) 2097152 4096 eq_refl)
    as (size & st' & He & _ & _ & _ & Hr & _); try (cbn; unfold kMegabyte, OsLayer.kMegabyte; lia).
  exists size. rewrite He. split; [reflexivity|]. apply Hr. cbn. unfold kMegabyte, OsLayer.kMegabyte. lia.
Defined.

(** Huge pages, and a 32-bit program that maps memory as needed. *)
Definition sample_calls : Calls := mkCalls true 1024 7 0x10000000 true 5 0 (-1) 4096 0x20000000 0.

Definition allocated (length mode : Z) : OsMem :=
  match AllocateTestMem sample_calls length (new_OsMem mode [Fd 1]) with Some (_, st) => st | None => new_OsMem mode [] end.

Lemma test_memory_released_witness :
  live (FreeTestMem true (allocated (1024 * 1024 * 1024) 64)) = [Fd 1] /\
  live (FreeTestMem true (allocated (2048 * 1024 * 1024) 32)) = [Fd 5; Fd 1].
Proof.
  assert (Hf : forall length, fresh sample_calls length [Fd 1]).
  { intros length r Hr Hin. apply list_elem_of_singleton in Hin as ->. rewrite !elem_of_cons, elem_of_nil in Hr.
    destruct Hr as [?|[?|[?|[?|[?|[?|?]]]]]]; done. }
  split.
  - exact (proj1 (test_memory_released sample_calls (1024 * 1024 * 1024) 64 [Fd 1] true (allocated (1024 * 1024 * 1024) 64)
      ltac:(lia) ltac:(discriminate) ltac:(discriminate) (Hf _) eq_refl)).
  - exact (proj1 (test_memory_released sample_calls (2048 * 1024 * 1024) 32 [Fd 1] true (allocated (2048 * 1024 * 1024) 32)
      ltac:(lia) ltac:(discriminate) ltac:(discriminate) (Hf _) eq_refl)).
Defined.

Lemma PciWrite_PciRead_witness :
  match PciWrite true 2 (replicate 256 0) 16 0x12345678 16 with
  | Some space => PciRead true 2 space 16 16 = Some 0x5678
  | None => False
  end.
Proof. exact (proj1 (PciWrite_PciRead (replicate 256 0) 16 0x12345678 16 _ ltac:(lia) eq_refl eq_refl)). Defined.

End PlatformFacts.
