(* ===== verification/CpuFreq.v ===== *)
(** The CPU frequency test: [CpuFreqThread] of [src/src/worker.cc].

    The thread reads three registers of every CPU at intervals, computes from two readings the
    frequency the CPU ran at and counts an error when it is below a threshold.  The [double]
    arithmetic is that of IEEE 754 with 53 bits, as [SpecFloat] defines it.  The registers, the
    clock and the state of the program are arguments; sleeping and log lines are left out. *)

From Stdlib Require Import SpecFloat.
From S2P Require Import Prelude OsLayer.

Module CpuFreq.

(** ** Arithmetic *)

Definition double_of (z : Z) : spec_float := binary_normalize 53 1024 z 0 false.
Definition dadd : spec_float -> spec_float -> spec_float := SFadd 53 1024.
Definition dmul : spec_float -> spec_float -> spec_float := SFmul 53 1024.
Definition ddiv : spec_float -> spec_float -> spec_float := SFdiv 53 1024.

(** [static_cast<int>]: the value without its fraction; [None]: undefined. *)
Definition to_int (x : spec_float) : option Z :=
  match x with
  | S754_zero _ => Some 0
  | S754_finite s m e =>
      let v := if 0 <=? e then Z.pos m * 2 ^ e else Z.pos m / 2 ^ (- e) in
      let v := if s then - v else v in
      if (-2 ^ 31 <=? v) && (v <? 2 ^ 31) then Some v else None
  | S754_infinity _ | S754_nan => None
  end.

(** ** Readings *)

Definition kMsrTsc : Z := 0.
Definition kMsrAperf : Z := 1.
Definition kMsrMperf : Z := 2.
Definition kMsrLast : nat := 3.

Record CpuData := mkData { msrs : list Z; tv : Z * Z }.

Definition msr (d : CpuData) (k : Z) : Z := aget 0 (msrs d) k.

(** What [ReadMSR] gives for the registers of a CPU, and the time. *)
Record Reading := mkReading { values : list (option Z); now : Z * Z }.

(** The loop of [GetMsrs], from register [k] on. *)
Fixpoint read_msrs (vals : list (option Z)) (n k : nat) (old : list Z) : bool * list Z :=
  match n with
  | O => (true, old)
  | S n' => match nth k vals None with
            | Some v => read_msrs vals n' (S k) (<[k := v]> old)
            | None => (false, old)
            end
  end.

Definition GetMsrs (r : Reading) (d : CpuData) : bool * CpuData :=
  let '(ok, m) := read_msrs (values r) kMsrLast 0 (msrs d) in
  if ok then (true, mkData m (now r)) else (false, mkData m (tv d)).

(** ** The frequency *)

Definition timersub (a b : Z * Z) : Z * Z :=
  let sec := a.1 - b.1 in
  let usec := a.2 - b.2 in
  if usec <? 0 then (sec - 1, usec + 1000000) else (sec, usec).

(** [None]: [return false]. *)
Definition ComputeDelta (current previous : CpuData) : option CpuData :=
  if existsb (fun k => msr current k <? msr previous k) (zrange 0 kMsrLast) then None
  else
    let delta := map (fun k => msr current k - msr previous k) (zrange 0 kMsrLast) in
    if aget 0 delta kMsrTsc <? 1000 * 1000 then None
    else Some (mkData delta (timersub (tv current) (tv previous))).

Section Thread.
Context (num_cpus_ freq_threshold_ round : Z) (cpuset : OsLayer.cpu_set_t).

(** The constructor. *)
Definition round_ : Z := if round =? 0 then 1 else round.
Definition round_value_ : spec_float :=
  if round =? 0 then ddiv (double_of 1) (double_of 2) else ddiv (double_of round) (double_of 2).

(** [None]: the conversion is undefined; [Some None]: [return false]. *)
Definition ComputeFrequency (current previous : CpuData) : option (option Z) :=
  match ComputeDelta current previous with
  | None => Some None
  | Some delta =>
      let interval := dadd (double_of (tv delta).1) (ddiv (double_of (tv delta).2) (double_of 1000000)) in
      let frequency :=
        ddiv (ddiv (dmul (ddiv (dmul (double_of 1) (double_of (msr delta kMsrTsc))) (double_of 1000000))
                         (double_of (msr delta kMsrAperf)))
                   (double_of (msr delta kMsrMperf))) interval in
      match to_int (dadd frequency round_value_) with
      | None => None
      | Some computed => Some (Some (computed - Z.rem computed round_))
      end
  end.

(** ** The loop *)

Definition no_data : CpuData := mkData [0; 0; 0] (0, 0).
Definition at_cpu (d : list CpuData) (cpu : Z) : CpuData := nth (Z.to_nat cpu) d no_data.

(** The CPUs the loops look at, in order. *)
Definition checked_cpus : list Z := filter (fun c => OsLayer.CPU_ISSET c cpuset = true) (zrange 0 (Z.to_nat num_cpus_)).

(** Reading all CPUs into a buffer, up to the first failure. *)
Fixpoint read_cpus (rd : Z -> Reading) (cpus : list Z) (buf : list CpuData) : bool * list CpuData :=
  match cpus with
  | [] => (true, buf)
  | c :: cpus =>
      let '(ok, d) := GetMsrs (rd c) (at_cpu buf c) in
      let buf := <[Z.to_nat c := d]> buf in
      if ok then read_cpus rd cpus buf else (false, buf)
  end.

(** Checking all CPUs, up to the first that has no frequency: whether there was none such, the
    error count and [pass]; [None]: undefined. *)
Fixpoint check_cpus (cur prev : Z -> CpuData) (cpus : list Z) (errors : Z) (pass : bool) : option (bool * Z * bool) :=
  match cpus with
  | [] => Some (true, errors, pass)
  | c :: cpus =>
      match ComputeFrequency (cur c) (prev c) with
      | None => None
      | Some None => Some (false, errors, pass)
      | Some (Some freq) =>
          if freq <? freq_threshold_ then check_cpus cur prev cpus (errors + 1) false
          else check_cpus cur prev cpus errors pass
      end
  end.

(** [data[curr]] and [data[prev]], [num_intervals], [errorcount_] and [pass]. *)
Record State := mkState { curr_data : list CpuData; prev_data : list CpuData; num_intervals : Z; errorcount_ : Z; pass : bool }.

(** What a turn of the loop learns: [IsReadyToRun(&paused)], the request to stop, the registers. *)
Record Turn := mkTurn { ready : bool; paused : bool; stop : bool; reading : Z -> Reading }.

(** One turn after the loop condition. *)
Definition turn (st : State) (tn : Turn) : option State :=
  let num := if paused tn then 0 else num_intervals st in
  let '(valid, buf) := read_cpus (reading tn) checked_cpus (curr_data st) in
  if negb valid then Some (mkState buf (prev_data st) 0 (errorcount_ st) (pass st))
  else
    let num := u32 (num + 1) in
    if 2 <? num then
      match check_cpus (at_cpu buf) (at_cpu (prev_data st)) checked_cpus (errorcount_ st) (pass st) with
      | None => None
      | Some (ok, errors, pass) => Some (mkState (prev_data st) buf (if ok : bool then num else 0) errors pass)
      end
    else Some (mkState (prev_data st) buf num (errorcount_ st) (pass st)).

Fixpoint loop (st : State) (turns : list Turn) : option State :=
  match turns with
  | [] => Some st
  | tn :: turns =>
      if ready tn && negb (stop tn) then match turn st tn with Some st => loop st turns | None => None end
      else Some st
  end.

(** [Work] with the CPUs it found: the result and the error count. *)
Definition Work (available : bool) (errors : Z) (turns : list Turn) : option (bool * Z) :=
  if negb available then Some (false, errors)
  else
    let buf := replicate (Z.to_nat num_cpus_) no_data in
    match loop (mkState buf buf 0 errors true) turns with
    | Some st => Some (pass st, errorcount_ st)
    | None => None
    end.
End Thread.

(** [CanRun] on x86, by the results of its four [cpuid] instructions. *)
Definition CanRun (edx_1 eax_ext edx_ext7 ecx_6 : Z) : bool :=
  if Z.land edx_1 (Z.shiftl 1 5) =? 0 then false
  else if eax_ext <? 0x80000007 then false
  else if Z.land edx_ext7 (Z.shiftl 1 8) =? 0 then false
  else negb (Z.land ecx_6 1 =? 0).

End CpuFreq.

Module CpuFreqFacts.
Import CpuFreq.

(** ** Readings *)

(** All three registers could be read, and what a complete reading is. *)
Definition complete (r : Reading) : bool :=
  match values r with Some _ :: Some _ :: Some _ :: _ => true | _ => false end.
Definition snapshot (r : Reading) : CpuData := mkData (map (fun k => default 0 (nth k (values r) None)) (seq 0 kMsrLast)) (now r).

Definition well_sized (d : CpuData) : Prop := length (msrs d) = kMsrLast.

Lemma GetMsrs_complete r d : well_sized d -> GetMsrs r d = (true, snapshot r) \/ (exists d', GetMsrs r d = (false, d') /\ well_sized d').
Proof.
  unfold well_sized, GetMsrs. destruct d as [[|a [|b [|c [|]]]] t]; try done. intros _. cbn [msrs kMsrLast read_msrs tv].
  destruct r as [vals t']. cbn [values now]. unfold snapshot. cbn [values now kMsrLast seq map].
  destruct (nth 0 vals None); [|right; by eexists]. destruct (nth 1 vals None); [|right; by eexists].
  destruct (nth 2 vals None); [|right; by eexists]. by left.
Qed.

Lemma GetMsrs_ok r d : well_sized d -> (GetMsrs r d).1 = complete r.
Proof.
  unfold well_sized, GetMsrs, complete. destruct d as [[|a [|b [|c [|]]]] t]; try done. intros _. cbn [msrs kMsrLast read_msrs tv].
  by destruct r as [[|[v0|] [|[v1|] [|[v2|] vals]]] t'].
Qed.

Section Refine.
Context (num_cpus freq_threshold round : Z) (cpuset : OsLayer.cpu_set_t).
Abbreviation cpus := (checked_cpus num_cpus cpuset).
Abbreviation turn := (turn num_cpus freq_threshold round cpuset).

(** ** A machine with one earlier reading

    It remembers the last complete reading of all CPUs and how many there were since the
    start, a pause or a failure. *)
Record Spec := mkSpec { last : Z -> CpuData; count : Z; s_errors : Z; s_pass : bool }.

Definition spec_turn (sp : Spec) (tn : Turn) : option Spec :=
  let n := if paused tn then 0 else count sp in
  let new := fun c => snapshot (reading tn c) in
  if forallb (fun c => complete (reading tn c)) cpus then
    let n := u32 (n + 1) in
    if 2 <? n then
      match check_cpus freq_threshold round new (last sp) cpus (s_errors sp) (s_pass sp) with
      | None => None
      | Some (ok, errors, p) => Some (mkSpec new (if ok : bool then n else 0) errors p)
      end
    else Some (mkSpec new n (s_errors sp) (s_pass sp))
  else Some (mkSpec (last sp) 0 (s_errors sp) (s_pass sp)).

Fixpoint spec_loop (sp : Spec) (turns : list Turn) : option Spec :=
  match turns with
  | [] => Some sp
  | tn :: turns =>
      if ready tn && negb (stop tn) then match spec_turn sp tn with Some sp => spec_loop sp turns | None => None end
      else Some sp
  end.

Lemma checked_cpu c : c ∈ cpus -> 0 <= c < Z.of_nat (Z.to_nat num_cpus).
Proof. unfold checked_cpus. intros [_ Hc%elem_of_zrange]%list_elem_of_filter. lia. Qed.

Definition buffer_ok (buf : list CpuData) : Prop := length buf = Z.to_nat num_cpus /\ Forall well_sized buf.

Lemma buffer_insert buf c d : buffer_ok buf -> well_sized d -> buffer_ok (<[Z.to_nat c := d]> buf).
Proof. intros [H1 H2] Hd. split; [by rewrite length_insert | by apply Forall_insert]. Qed.

Lemma at_cpu_sized buf c : buffer_ok buf -> well_sized (at_cpu buf c).
Proof.
  intros [_ H]. unfold at_cpu. rewrite nth_lookup. destruct (buf !! Z.to_nat c) eqn:Hc; [|done].
  exact (proj1 (Forall_lookup _ _) H _ _ Hc).
Qed.

(** A buffer after the CPUs have been read into it. *)
Lemma read_cpus_spec rd l buf :
  buffer_ok buf -> NoDup l -> (forall c, c ∈ l -> 0 <= c < Z.of_nat (Z.to_nat num_cpus)) ->
  exists buf', read_cpus rd l buf = (forallb (fun c => complete (rd c)) l, buf') /\ buffer_ok buf' /\
    (forall c, 0 <= c -> c ∉ l -> at_cpu buf' c = at_cpu buf c) /\
    (forallb (fun c => complete (rd c)) l = true -> forall c, c ∈ l -> at_cpu buf' c = snapshot (rd c)).
Proof.
  intros Hb Hnd. revert buf Hb. induction Hnd as [|c l Hc Hnd IH]; intros buf Hb Hin; cbn [read_cpus forallb].
  { exists buf. split; [done|]. split; [done|]. split; [done|]. by intros _ c ?%elem_of_nil. }
  pose proof (Hin c ltac:(left)) as Hr. pose proof (at_cpu_sized buf c Hb) as Hw. pose proof (GetMsrs_ok (rd c) _ Hw) as Hok.
  destruct (GetMsrs (rd c) (at_cpu buf c)) as [ok d] eqn:Hg. cbn [fst] in Hok. subst ok.
  assert (Hd : well_sized d /\ (complete (rd c) = true -> d = snapshot (rd c))).
  { destruct (GetMsrs_complete (rd c) _ Hw) as [He|(d' & He & Hd')]; rewrite He in Hg; injection Hg as Hcm <-; [done|].
    split; [done|]. congruence. }
  destruct Hd as [Hd Hs]. pose proof (buffer_insert buf c d Hb Hd) as Hb'.
  assert (Hat : forall c', 0 <= c' -> at_cpu (<[Z.to_nat c := d]> buf) c' = if decide (c = c') then d else at_cpu buf c').
  { intros c' Hc'. unfold at_cpu. rewrite !nth_lookup. destruct Hb as [Hl _]. case_decide as He.
    - subst c'. by rewrite list_lookup_insert_eq by lia.
    - by rewrite list_lookup_insert_ne by lia. }
  destruct (complete (rd c)) eqn:Hcm; cbn [andb].
  - destruct (IH _ Hb' (fun c' H => Hin c' ltac:(by right))) as (buf' & He & Hb2 & Hout & Hall). exists buf'. split; [done|]. split; [done|].
    split.
    + intros c' H0 Hn. apply not_elem_of_cons in Hn as [Hne Hn]. rewrite Hout, Hat by done. by rewrite decide_False by congruence.
    + intros Hf c' [->|Hc']%elem_of_cons; [|by apply Hall]. rewrite Hout, Hat by (done || lia). rewrite decide_True by done. by apply Hs.
  - exists (<[Z.to_nat c := d]> buf). split; [done|]. split; [done|]. split; [|done].
    intros c' H0 Hn. apply not_elem_of_cons in Hn as [Hne Hn]. rewrite Hat by done. by rewrite decide_False by congruence.
Qed.

Lemma check_cpus_ext cur cur' prev prev' l e p :
  (forall c, c ∈ l -> cur c = cur' c /\ prev c = prev' c) ->
  check_cpus freq_threshold round cur prev l e p = check_cpus freq_threshold round cur' prev' l e p.
Proof.
  revert e p. induction l as [|c l IH]; intros e p H; [done|]. cbn [check_cpus]. destruct (H c ltac:(left)) as [-> ->].
  assert (IH' : forall e p, check_cpus freq_threshold round cur prev l e p = check_cpus freq_threshold round cur' prev' l e p)
    by (intros; apply IH; intros; apply H; by right).
  destruct (ComputeFrequency _ _ _) as [[f|]|]; [|done..]. destruct (f <? freq_threshold); apply IH'.
Qed.

(** The two buffers hold what the machine remembers. *)
Record agrees (st : State) (sp : Spec) : Prop := {
  ag_buffers : buffer_ok (curr_data st) /\ buffer_ok (prev_data st);
  ag_count : num_intervals st = count sp /\ 0 <= count sp;
  ag_results : errorcount_ st = s_errors sp /\ pass st = s_pass sp;
  ag_last : 0 < count sp -> forall c, c ∈ cpus -> at_cpu (prev_data st) c = last sp c
}.

Lemma freq_turn_agrees st sp tn :
  agrees st sp -> match turn st tn, spec_turn sp tn with
                  | Some st', Some sp' => agrees st' sp'
                  | None, None => True
                  | _, _ => False
                  end.
Proof.
  intros [[B1 B2] [C1 C0] [E1 E2] Hl]. unfold CpuFreq.turn, spec_turn. rewrite C1, E1, E2.
  destruct (read_cpus_spec (reading tn) cpus (curr_data st) B1) as (buf & -> & Hb & _ & Hall).
  { apply NoDup_filter, NoDup_zrange. }
  { intros c Hc. by apply checked_cpu. }
  destruct (forallb _ cpus); cbn [negb]; [|by split].
  set (n := u32 _). assert (Hn : 0 <= n) by (apply Z.mod_pos_bound; lia). specialize (Hall eq_refl).
  destruct (Z.ltb_spec 2 n) as [H2|H2].
  - assert (Hpos : 0 < count sp).
    { unfold n in H2. destruct (paused tn); [by cbn in H2|]. destruct (decide (count sp = 0)) as [Hz|]; [rewrite Hz in H2; by cbn in H2 | lia]. }
    rewrite (check_cpus_ext _ (fun c => snapshot (reading tn c)) _ (last sp)).
    2: { intros c Hc. split; [by apply Hall | by apply Hl]. }
    destruct (check_cpus _ _ _ _ _ _ _) as [[[ok e] p]|]; [|done]. split; cbn; [done | destruct ok; cbn; lia | done | done].
  - split; cbn; [done | done | done | done].
Qed.

Lemma freq_loop_agrees turns st sp :
  agrees st sp -> match loop num_cpus freq_threshold round cpuset st turns, spec_loop sp turns with
                  | Some st', Some sp' => agrees st' sp'
                  | None, None => True
                  | _, _ => False
                  end.
Proof.
  revert st sp. induction turns as [|tn turns IH]; intros st sp Ha; cbn [loop spec_loop]; [done|].
  destruct (ready tn && negb (stop tn)); [|done]. pose proof (freq_turn_agrees st sp tn Ha) as Ht.
  destruct (turn st tn) as [st1|], (spec_turn sp tn) as [sp1|]; try done. by apply IH.
Qed.

(** Frequencies are only computed from the third reading after a start, a pause or a failure on. *)
Lemma spec_turn_quiet sp tn sp' :
  spec_turn sp tn = Some sp' -> paused tn = true \/ 0 <= count sp <= 1 -> s_errors sp' = s_errors sp /\ s_pass sp' = s_pass sp.
Proof.
  unfold spec_turn. intros Hs Hp. destruct (forallb _ cpus); [|by injection Hs as <-].
  assert (Hn : (2 <? u32 ((if paused tn then 0 else count sp) + 1)) = false).
  { apply Z.ltb_ge. destruct Hp as [->|Hc]; [by cbn|]. destruct (paused tn); [by cbn|]. rewrite u32_id; lia. }
  rewrite Hn in Hs. by injection Hs as <-.
Qed.
End Refine.

(** C26. The frequency test compares consecutive readings.  Over any sequence of pauses, failed
    reads and readings, the thread with its two alternating buffers has the result and the
    error count of a machine that remembers the last complete reading of all CPUs: each
    frequency is computed from two readings taken in consecutive turns with no pause and no
    failed read between them. *)
Theorem cpu_frequency_refines num_cpus freq_threshold round cpuset errors turns :
  Work num_cpus freq_threshold round cpuset true errors turns =
  match spec_loop num_cpus freq_threshold round cpuset (mkSpec (fun _ => no_data) 0 errors true) turns with
  | Some sp => Some (s_pass sp, s_errors sp)
  | None => None
  end.
Proof.
  unfold Work. cbn [negb]. set (buf := replicate _ no_data).
  assert (Hb : buffer_ok num_cpus buf) by (split; [apply length_replicate | by apply Forall_replicate]).
  pose proof (freq_loop_agrees num_cpus freq_threshold round cpuset turns (mkState buf buf 0 errors true) (mkSpec (fun _ => no_data) 0 errors true)) as Ha.
  destruct (loop _ _ _ _ _ _) as [st|], (spec_loop _ _ _ _ _ _) as [sp|]; try (by destruct Ha).
  destruct Ha as [_ _ [-> ->] _]; [|done]. split; cbn; [done | done | done | lia].
Qed.

(** The frequency reported is the computed one cut to a multiple of the rounding. *)
Theorem ComputeFrequency_rounds round cur prev f :
  0 < round -> ComputeFrequency round cur prev = Some (Some f) -> exists computed, f = round * Z.quot computed round /\ Z.abs (computed - f) < round.
Proof.
  intros Hr. unfold ComputeFrequency. destruct (ComputeDelta cur prev) as [d|]; [|done]. destruct (to_int _) as [x|]; [|done].
  intros [= <-]. exists x. unfold round_. rewrite (proj2 (Z.eqb_neq round 0)) by lia.
  pose proof (Z.quot_rem x round ltac:(lia)). pose proof (Z.rem_bound_abs x round ltac:(lia)). lia.
Qed.

(** *** Samples *)

(** A CPU at 2500 MHz: ten seconds, with APERF and MPERF in the proportion 5 to 4. *)
Definition data_at (k : Z) : CpuData := mkData [k * 20000000000; k * 25000000000; k * 20000000000] (10 * k, 0).

Lemma sample_frequency : ComputeFrequency 0 (data_at 3) (data_at 2) = Some (Some 2500).
Proof. vm_compute. reflexivity. Qed.

(** MPERF that does not move passes [ComputeDelta], and the quotient is no number an [int] can hold. *)
Theorem unmoved_mperf_undefined :
  ComputeFrequency 0 (mkData [30000000; 500; 7] (20, 0)) (mkData [10000000; 100; 7] (10, 0)) = None.
Proof. vm_compute. reflexivity. Qed.

End CpuFreqFacts.
