(* ===== verification/PageMap.v ===== *)
(** The map of tested physical pages: [AddrMapInit], [AddrMapUpdate] and [AddrMapPrint] of
    [src/src/sat.cc], which [InitializePages] calls for every block when the option
    --do_page_map is given.

    The map has one bit per physical page of 4096 bytes.  Printing gives the ranges of the log
    lines. *)

From S2P Require Import Prelude OsLayer.

Module PageMap.

Record PageMap := mkPageMap { do_page_map_ : bool; page_bitmap_size_ : Z; page_bitmap_ : list Z }.

(** [free] is the answer of [FindFreeMemSize]; [None]: the assertion fails. *)
Definition AddrMapInit (free : Z) (st : PageMap) : option PageMap :=
  if negb (do_page_map_ st) then Some st
  else
    let maxsize := u64 (free * 4) in
    if maxsize =? 0 then None
    else Some (mkPageMap true maxsize (replicate (Z.to_nat (maxsize / 4096 / 8)) 0)).

(** One 4096-byte block at physical address [paddr]; [None]: the assertion fails. *)
Definition mark_block (st : PageMap) (paddr : Z) : option PageMap :=
  let arraysize := page_bitmap_size_ st / 4096 / 8 in
  let offset := u32 (paddr / 4096 / 8) in
  let mask := u8 (Z.shiftl 1 (paddr / 4096 mod 8)) in
  if arraysize <=? offset then None
  else Some (mkPageMap (do_page_map_ st) (page_bitmap_size_ st)
               (aset (page_bitmap_ st) offset (Z.lor (aget 0 (page_bitmap_ st) offset) mask))).

Fixpoint mark_blocks (st : PageMap) (paddrs : list Z) : option PageMap :=
  match paddrs with
  | [] => Some st
  | p :: paddrs => match mark_block st p with Some st => mark_blocks st paddrs | None => None end
  end.

Section Update.
Context (pagesize : Z) (pagemap : Z -> option Z) (page_length_ : Z).

(** The physical addresses the loop over a block at [base] looks up. *)
Definition block_paddrs (base : Z) : list Z :=
  map (fun i => OsLayer.VirtualToPhysical pagesize pagemap (base + 4096 * i))
    (zrange 0 (Z.to_nat ((page_length_ + 4095) / 4096))).

Definition AddrMapUpdate (st : PageMap) (addr : Z) : option PageMap :=
  if negb (do_page_map_ st) then Some st else mark_blocks st (block_paddrs addr).

(** The calls for the blocks at these addresses. *)
Fixpoint update_all (st : PageMap) (addrs : list Z) : option PageMap :=
  match addrs with
  | [] => Some st
  | a :: addrs => match AddrMapUpdate st a with Some st => update_all st addrs | None => None end
  end.
End Update.

(** The loop from page [i] on, [n] pages: the ranges printed; [None]: it reads outside the array. *)
Fixpoint print_loop (bitmap : list Z) (n : nat) (i last_page : Z) (valid_range : bool) : option (list (Z * Z)) :=
  match n with
  | O => Some []
  | S n' =>
      let offset := s32 (i / 8) in
      let mask := u8 (Z.shiftl 1 (i mod 8)) in
      if (offset <? 0) || (Z.of_nat (length bitmap) <=? offset) then None
      else
        let touched := negb (Z.land (aget 0 bitmap offset) mask =? 0) in
        if touched && negb valid_range then print_loop bitmap n' (i + 1) (i * 4096) true
        else if negb touched && valid_range then
          match print_loop bitmap n' (i + 1) last_page false with
          | Some ranges => Some ((last_page, i * 4096 - 1) :: ranges)
          | None => None
          end
        else print_loop bitmap n' (i + 1) last_page valid_range
  end.

Definition AddrMapPrint (st : PageMap) : option (list (Z * Z)) :=
  if negb (do_page_map_ st) then Some []
  else print_loop (page_bitmap_ st) (Z.to_nat (page_bitmap_size_ st / 4096)) 0 0 false.

End PageMap.

Module PageMapFacts.
Import PageMap.

(** ** Bits of the map *)

Definition seen (bitmap : list Z) (k : Z) : bool := (0 <=? k) && Z.testbit (aget 0 bitmap (k / 8)) (k mod 8).

Lemma mask_bit k : 0 <= k -> u8 (Z.shiftl 1 (k mod 8)) = 2 ^ (k mod 8).
Proof.
  intros Hk. pose proof (Z.mod_pos_bound k 8 ltac:(lia)). rewrite Z.shiftl_1_l. apply Z.mod_small. split; [lia|].
  apply Z.pow_lt_mono_r; lia.
Qed.

Lemma land_mask x n : 0 <= n -> negb (Z.land x (2 ^ n) =? 0) = Z.testbit x n.
Proof.
  intros Hn. destruct (Z.testbit x n) eqn:Hx.
  - destruct (Z.eqb_spec (Z.land x (2 ^ n)) 0) as [He|]; [|done]. exfalso. apply (f_equal (fun v => Z.testbit v n)) in He.
    rewrite Z.land_spec, Hx, Z.pow2_bits_true, Z.bits_0 in He by lia. done.
  - apply negb_false_iff, Z.eqb_eq, Z.bits_inj'. intros j Hj. rewrite Z.land_spec, Z.bits_0, Z.pow2_bits_eqb by lia.
    destruct (Z.eqb_spec n j) as [<-|]; [by rewrite Hx | apply andb_false_r].
Qed.

(** Marking page [p] changes the bit of [p] and no other. *)
Lemma seen_mark bitmap p k :
  0 <= p -> p / 8 < Z.of_nat (length bitmap) ->
  seen (aset bitmap (p / 8) (Z.lor (aget 0 bitmap (p / 8)) (2 ^ (p mod 8)))) k = seen bitmap k || (k =? p).
Proof.
  intros Hp Hl. unfold seen. destruct (Z.leb_spec 0 k) as [Hk|Hk]; cbn [andb].
  2: { symmetry. apply Z.eqb_neq. lia. }
  pose proof (Z.div_mod k 8 ltac:(lia)). pose proof (Z.div_mod p 8 ltac:(lia)).
  pose proof (Z.mod_pos_bound p 8 ltac:(lia)). pose proof (Z.mod_pos_bound k 8 ltac:(lia)).
  destruct (Z.eq_dec (k / 8) (p / 8)) as [He|Hne].
  - rewrite He, aget_aset_eq, Z.lor_spec, Z.pow2_bits_eqb by lia. f_equal.
    destruct (Z.eqb_spec (p mod 8) (k mod 8)), (Z.eqb_spec k p); try done; exfalso; [lia | subst; done].
  - rewrite aget_aset_ne by lia. destruct (Z.eqb_spec k p) as [->|]; [done | by rewrite orb_false_r].
Qed.

(** ** Marking *)

Definition sized (st : PageMap) : Prop :=
  do_page_map_ st = true /\ Z.of_nat (length (page_bitmap_ st)) = page_bitmap_size_ st / 4096 / 8.

Lemma mark_block_seen st st' paddr :
  sized st -> 0 <= paddr < 2 ^ 47 -> mark_block st paddr = Some st' ->
  sized st' /\ page_bitmap_size_ st' = page_bitmap_size_ st /\
  forall k, seen (page_bitmap_ st') k = seen (page_bitmap_ st) k || (k =? paddr / 4096).
Proof.
  intros [Hd Hl] Hp. unfold mark_block. assert (Hpage : 0 <= paddr / 4096) by (apply Z.div_pos; lia). rewrite mask_bit by done.
  assert (Hq : 0 <= paddr / 4096 / 8 < 2 ^ 32) by (split; [apply Z.div_pos; lia | rewrite Z.div_div by lia; apply Z.div_lt_upper_bound; lia]).
  unfold u32. rewrite Z.mod_small by done. destruct (Z.leb_spec (page_bitmap_size_ st / 4096 / 8) (paddr / 4096 / 8)) as [|Hlt]; [done|].
  intros [= <-]. cbn. unfold sized. cbn. rewrite length_aset. do 2 (split; [done|]).
  intros k. apply seen_mark; lia.
Qed.

Lemma mark_blocks_seen paddrs st st' :
  sized st -> Forall (fun p => 0 <= p < 2 ^ 47) paddrs -> mark_blocks st paddrs = Some st' ->
  sized st' /\ page_bitmap_size_ st' = page_bitmap_size_ st /\
  forall k, seen (page_bitmap_ st') k = seen (page_bitmap_ st) k || existsb (fun p => k =? p / 4096) paddrs.
Proof.
  revert st. induction paddrs as [|p paddrs IH]; intros st Hs Hf; cbn.
  - intros [= <-]. split; [done|]. split; [done|]. intros k. by rewrite orb_false_r.
  - apply Forall_cons in Hf as [Hp Hf]. destruct (mark_block st p) as [st1|] eqn:E; [|done]. intros Hm.
    destruct (mark_block_seen _ _ _ Hs Hp E) as (Hs1 & Hz1 & Hk1). destruct (IH _ Hs1 Hf Hm) as (Hs2 & Hz2 & Hk2).
    split; [done|]. split; [congruence|]. intros k. by rewrite Hk2, Hk1, orb_assoc.
Qed.

Section Updates.
Context (pagesize : Z) (pagemap : Z -> option Z) (page_length : Z).

(** The physical addresses of all 4096-byte blocks of the SAT blocks at [addrs]. *)
Definition all_paddrs (addrs : list Z) : list Z := addrs ≫= block_paddrs pagesize pagemap page_length.

Lemma update_all_seen addrs st st' :
  sized st -> Forall (fun p => 0 <= p < 2 ^ 47) (all_paddrs addrs) ->
  update_all pagesize pagemap page_length st addrs = Some st' ->
  sized st' /\ page_bitmap_size_ st' = page_bitmap_size_ st /\
  forall k, seen (page_bitmap_ st') k = seen (page_bitmap_ st) k || existsb (fun p => k =? p / 4096) (all_paddrs addrs).
Proof.
  revert st. induction addrs as [|a addrs IH]; intros st Hs Hf; cbn [update_all].
  - intros [= <-]. split; [done|]. split; [done|]. intros k. by rewrite orb_false_r.
  - unfold all_paddrs in *. rewrite bind_cons in *. apply Forall_app in Hf as [Ha Hf]. unfold AddrMapUpdate at 1. rewrite (proj1 Hs). cbn [negb].
    destruct (mark_blocks st _) as [st1|] eqn:E; [|done]. intros Hm.
    destruct (mark_blocks_seen _ _ _ Hs Ha E) as (Hs1 & Hz1 & Hk1). destruct (IH _ Hs1 Hf Hm) as (Hs2 & Hz2 & Hk2).
    split; [done|]. split; [congruence|]. intros k. by rewrite Hk2, Hk1, existsb_app, orb_assoc.
Qed.
End Updates.

(** ** Printing *)

(** Pages [u] to [v - 1] are a run of seen pages that cannot be extended. *)
Definition maximal (f : Z -> bool) (u v : Z) : Prop :=
  u < v /\ (forall k, u <= k < v -> f k = true) /\ f (u - 1) = false /\ f v = false.

Lemma maximal_start f u u' v : maximal f u v -> maximal f u' v -> u = u'.
Proof.
  intros (H1 & H2 & H3 & _) (H1' & H2' & H3' & _). destruct (Z.lt_trichotomy u u') as [H|[H|H]]; [|done|].
  - rewrite H2 in H3' by lia. done.
  - rewrite H2' in H3 by lia. done.
Qed.

(** What the loop knows at page [i]. *)
Definition scanning (f : Z -> bool) (i last_page : Z) (valid_range : bool) : Prop :=
  if valid_range then exists u, last_page = u * 4096 /\ u < i /\ (forall k, u <= k < i -> f k = true) /\ f (u - 1) = false
  else f (i - 1) = false.

(** The ranges are those of the maximal runs that end at one of the pages from [i] to [j - 1]. *)
Definition lists_runs (f : Z -> bool) (i j : Z) (ranges : list (Z * Z)) : Prop :=
  forall a b, (a, b) ∈ ranges <-> exists u v, a = u * 4096 /\ b = v * 4096 - 1 /\ maximal f u v /\ i <= v < j.

Lemma lists_runs_skip f i j ranges :
  i < j -> (forall u, ~ maximal f u i) -> lists_runs f (i + 1) j ranges -> lists_runs f i j ranges.
Proof.
  intros Hij Hno Hr a b. rewrite (Hr a b). split; intros (u & v & -> & -> & Hm & Hv); exists u, v; do 3 (split; [done|]); [lia|].
  destruct (Z.eq_dec v i) as [->|]; [by destruct (Hno u) | lia].
Qed.

Lemma lists_runs_cons f u i j ranges :
  i < j -> maximal f u i -> lists_runs f (i + 1) j ranges -> lists_runs f i j ((u * 4096, i * 4096 - 1) :: ranges).
Proof.
  intros Hij Hu Hr a b. rewrite elem_of_cons, (Hr a b). split.
  - intros [[= -> ->]|(w & v & -> & -> & Hm & Hv)]; [exists u, i | exists w, v]; do 3 (split; [done|]); lia.
  - intros (w & v & -> & -> & Hm & Hv). destruct (Z.eq_dec v i) as [->|].
    + left. by rewrite (maximal_start f w u i Hm Hu).
    + right. exists w, v. do 3 (split; [done|]). lia.
Qed.

Lemma print_loop_ranges bitmap n i last_page valid_range :
  let f := seen bitmap in
  0 <= i -> i + Z.of_nat n <= 8 * Z.of_nat (length bitmap) -> 8 * Z.of_nat (length bitmap) < 2 ^ 34 -> scanning f i last_page valid_range ->
  exists ranges, print_loop bitmap n i last_page valid_range = Some ranges /\ lists_runs f i (i + Z.of_nat n) ranges.
Proof.
  intros f. revert i last_page valid_range. induction n as [|n IH]; intros i last_page valid_range Hi Hn Hmax Hs.
  - exists []. split; [done|]. intros a b. split; [by intros ?%elem_of_nil | intros (u & v & ? & ? & ? & ?); lia].
  - cbn [print_loop]. assert (Hq : 0 <= i / 8 < Z.of_nat (length bitmap)) by (split; [apply Z.div_pos; lia | apply Z.div_lt_upper_bound; lia]).
    rewrite (s32_id (i / 8)), mask_bit by lia. rewrite (proj2 (Z.ltb_ge (i / 8) 0)), (proj2 (Z.leb_gt _ (i / 8))) by lia. cbn [orb].
    pose proof (Z.mod_pos_bound i 8 ltac:(lia)). rewrite land_mask by lia.
    assert (Hf : Z.testbit (aget 0 bitmap (i / 8)) (i mod 8) = f i) by (unfold f, seen; by rewrite (proj2 (Z.leb_le 0 i) Hi)). rewrite Hf.
    assert (Hnext : forall last v, scanning f (i + 1) last v ->
      exists ranges, print_loop bitmap n (i + 1) last v = Some ranges /\ lists_runs f (i + 1) (i + Z.of_nat (S n)) ranges).
    { intros last v Hs'. destruct (IH (i + 1) last v ltac:(lia) ltac:(lia) Hmax Hs') as (r & He & Hr).
      exists r. split; [done|]. by replace (i + Z.of_nat (S n)) with (i + 1 + Z.of_nat n) by lia. }
    destruct (f i) eqn:Hfi; destruct valid_range; cbn [negb andb scanning] in *.
    + destruct Hs as (u & -> & Hu & Hrun & Hstart). destruct (Hnext (u * 4096) true) as (ranges & He & Hr).
      { exists u. split; [done|]. split; [lia|]. split; [|done]. intros k Hk. destruct (Z.eq_dec k i) as [->|]; [done | apply Hrun; lia]. }
      exists ranges. split; [done|]. apply lists_runs_skip; [lia| |done]. intros w (_ & _ & _ & Hend). congruence.
    + destruct (Hnext (i * 4096) true) as (ranges & He & Hr).
      { exists i. split; [done|]. split; [lia|]. split; [|done]. intros k Hk. by replace k with i by lia. }
      exists ranges. split; [done|]. apply lists_runs_skip; [lia| |done]. intros w (_ & _ & _ & Hend). congruence.
    + destruct Hs as (u & -> & Hu & Hrun & Hstart).
      destruct (Hnext (u * 4096) false) as (ranges & He & Hr); [cbn; by replace (i + 1 - 1) with i by lia|].
      rewrite He. eexists. split; [done|]. apply lists_runs_cons; [lia | done | done].
    + destruct (Hnext last_page false) as (ranges & He & Hr); [cbn; by replace (i + 1 - 1) with i by lia|].
      exists ranges. split; [done|]. apply lists_runs_skip; [lia| |done]. intros w (Hw & Hrun & _ & _). rewrite Hrun in Hs by lia. done.
Qed.

(** The loop reads outside the array when the pages do not fill whole bytes. *)
Lemma print_loop_outside bitmap n i last_page valid_range :
  0 <= i -> i <= 8 * Z.of_nat (length bitmap) < i + Z.of_nat n -> 8 * Z.of_nat (length bitmap) < 2 ^ 34 ->
  print_loop bitmap n i last_page valid_range = None.
Proof.
  revert i last_page valid_range. induction n as [|n IH]; intros i last v Hi Hn Hmax; [lia|]. cbn [print_loop].
  destruct (Z.eq_dec i (8 * Z.of_nat (length bitmap))) as [He|Hne].
  - assert (Hq : i / 8 = Z.of_nat (length bitmap)) by (rewrite He, Z.mul_comm; apply Z.div_mul; lia).
    rewrite s32_id by lia. rewrite Hq, Z.leb_refl. by rewrite orb_true_r.
  - destruct (_ || _); [done|]. destruct (_ && _); [apply IH; lia|]. destruct (_ && _); [|apply IH; lia].
    by rewrite IH by lia.
Qed.

(** ** The report *)

(** The page was looked up for one of the blocks. *)
Definition visited (pagesize : Z) (pagemap : Z -> option Z) (page_length : Z) (addrs : list Z) (k : Z) : bool :=
  existsb (fun p => k =? p / 4096) (all_paddrs pagesize pagemap page_length addrs).

Lemma seen_none n k : seen (replicate n 0) k = false.
Proof.
  unfold seen, aget. rewrite nth_lookup. destruct (replicate n 0 !! _) as [x|] eqn:E; cbn;
    [apply lookup_replicate in E as [-> _]|]; by rewrite Z.bits_0, andb_false_r.
Qed.

(** C27. The map of tested pages.  When all blocks of the test memory were entered, with
    addresses below 128 TB and a memory size of whole 8 KB units below 16 TB, the log has a range
    for each longest run of pages that were looked up, from its first byte to its last, and no
    other ranges, except that a run that reaches the last page of the map is missing.  With an
    odd number of pages of memory the loop reads a byte behind the map. *)
Theorem tested_ranges_printed pagesize pagemap page_length free addrs st st' :
  0 < free < 2 ^ 44 -> free mod 4096 = 0 ->
  Forall (fun p => 0 <= p < 2 ^ 47) (all_paddrs pagesize pagemap page_length addrs) ->
  AddrMapInit free (mkPageMap true 0 []) = Some st ->
  update_all pagesize pagemap page_length st addrs = Some st' ->
  (free mod 8192 = 0 -> exists ranges, AddrMapPrint st' = Some ranges /\
     lists_runs (visited pagesize pagemap page_length addrs) 0 (4 * free / 4096) ranges) /\
  (free mod 8192 <> 0 -> AddrMapPrint st' = None).
Proof.
  intros Hf Hm Hp Hi Hu. unfold AddrMapInit in Hi. cbn [do_page_map_ negb] in Hi. rewrite u64_id in Hi by lia.
  rewrite (proj2 (Z.eqb_neq (free * 4) 0)) in Hi by lia. injection Hi as <-.
  assert (Hd : exists q, free = 4096 * q) by (exists (free / 4096); pose proof (Z.div_mod free 4096 ltac:(lia)); lia). destruct Hd as [q ->].
  assert (Hpages : 4096 * q * 4 / 4096 = 4 * q) by (replace (4096 * q * 4) with (4 * q * 4096) by lia; apply Z.div_mul; lia).
  assert (Hbytes : 0 <= 4 * q / 8) by (apply Z.div_pos; lia).
  match type of Hu with update_all _ _ _ ?s _ = _ => assert (Hs : sized s) by (split; [done|]; cbn; rewrite length_replicate, Hpages; lia) end.
  destruct (update_all_seen _ _ _ _ _ _ Hs Hp Hu) as ([Hdo Hl] & Hz & Hk). cbn [page_bitmap_size_ page_bitmap_] in *.
  rewrite Hz, Hpages in Hl. unfold AddrMapPrint. rewrite Hdo, Hz, Hpages. cbn [negb].
  replace (4 * (4096 * q) / 4096) with (4 * q) by (rewrite <- Hpages; f_equal; lia).
  pose proof (Z.div_mod (4 * q) 8 ltac:(lia)). pose proof (Z.mod_pos_bound (4 * q) 8 ltac:(lia)).
  assert (Hodd : (4096 * q) mod 8192 = 1024 * ((4 * q) mod 8)).
  { rewrite <- Z.mul_mod_distr_l by lia. f_equal; lia. }
  split; intros Hc.
  - destruct (print_loop_ranges (page_bitmap_ st') (Z.to_nat (4 * q)) 0 0 false) as (ranges & He & Hr); try lia; [done|].
    exists ranges. split; [done|]. rewrite Z2Nat.id in Hr by lia. intros a b. rewrite (Hr a b). unfold maximal, visited.
    assert (Hext : forall k, seen (page_bitmap_ st') k = existsb (fun p => k =? p / 4096) (all_paddrs pagesize pagemap page_length addrs))
      by (intros k; by rewrite Hk, seen_none).
    by setoid_rewrite Hext.
  - apply print_loop_outside; lia.
Qed.

(** *** Samples *)

(** Physical memory is at the virtual addresses. *)
Definition identity_map (off : Z) : option Z := Some (Z.lor (Z.shiftl 1 63) (off / 8)).

Lemma tested_ranges_printed_witness :
  let updated := (st ← AddrMapInit 8192 (mkPageMap true 0 []); update_all 4096 identity_map 8192 st [4096; 16384]) in
  (st ← updated; AddrMapPrint st) = Some [(4096, 12287); (16384, 24575)] /\
  lists_runs (visited 4096 identity_map 8192 [4096; 16384]) 0 8 [(4096, 12287); (16384, 24575)].
Proof.
  split; [vm_compute; reflexivity|].
  assert (Hp : all_paddrs 4096 identity_map 8192 [4096; 16384] = [4096; 8192; 16384; 20480]) by (vm_compute; reflexivity).
  assert (Hb : Forall (fun p => 0 <= p < 2 ^ 47) (all_paddrs 4096 identity_map 8192 [4096; 16384]))
    by (rewrite Hp; repeat (apply Forall_cons_2; [lia|]); by apply Forall_nil_2).
  destruct (tested_ranges_printed 4096 identity_map 8192 8192 [4096; 16384] (mkPageMap true 32768 [0]) (mkPageMap true 32768 [0x36])
    ltac:(lia) ltac:(vm_compute; reflexivity) Hb ltac:(vm_compute; reflexivity) ltac:(vm_compute; reflexivity)) as [Hok _].
  destruct (Hok eq_refl) as (ranges & He & Hr).
  assert (E : AddrMapPrint (mkPageMap true 32768 [0x36]) = Some [(4096, 12287); (16384, 24575)]) by (vm_compute; reflexivity).
  rewrite E in He. injection He as <-. exact Hr.
Defined.

(** A run at the end of the map is not printed. *)
Lemma last_run_missing :
  (st ← AddrMapInit 8192 (mkPageMap true 0 []); st ← update_all 4096 identity_map 8192 st [24576]; AddrMapPrint st) = Some [].
Proof. vm_compute. reflexivity. Qed.

End PageMapFacts.
